(* ===== verification/_CoqProject ===== *)
-Q . S2P
Prelude.v
Prog.v
Imp.v
Crc.v
FsDisk.v
FsJournal.v
FsCrash.v
FsVolume.v
FsTxn.v
FsAlloc.v
FsDir.v
FsDirMap.v
FsFile.v
FsContent.v
FsStore.v
Capability.v
CapTable.v
Delegated.v
Queue.v
Console.v
Routing.v
Names.v
Clock.v
Frames.v
Sched.v
Handshake.v
TaskData.v
Interrupt.v
Kernel.v
Abi.v
PageTables.v
AddressSpaces.v
DirectMap.v
Loader.v
Loading.v
LoadOnce.v
Spawn.v
SpawnImage.v
Syscalls.v
Confine.v
CallBounds.v
Lifecycle.v
Calls.v
Delivery.v
