(* ===== verification/Prelude.v ===== *)
(** * GodspeedOS: a verification development

    GodspeedOS is a microkernel operating system written in Rust ([src/]).  The
    kernel ([kernel/src/]) owns capabilities, IPC, tasks, memory and interrupts;
    everything else is a service that reaches the rest of the system through the
    capabilities it holds.  This library is a shallow embedding of the kernel, as
    the x86-64 build has it, and of services beside it: Rust functions are
    Rocq functions of the same name, statics and locks are fields of explicit
    state, [Result] and [Option] are [result] and [option], a panic is [Panic].
    Every definition that models code runs: the witnesses evaluate them.

    ** Files, and the code they model

    - [Prelude] (this file): results and outcomes, machine-width integers,
      little-endian bytes, array scans, the tactics and the hint database [gs];
      [Prog]: the state-and-error monad and its Hoare triples.
    - Capabilities.  [Capability] ([capability/rights.rs], [generation.rs],
      [cap.rs]); [CapTable] ([capability/table.rs], [mod.rs]: a task's table and
      the registry of resources, with the interface [ResourceRegistry]);
      [Delegated] ([capability/delegated.rs], proved against that interface).
    - IPC.  [Queue] ([ipc/message.rs], [ipc/queue.rs]); [Routing]
      ([ipc/routing.rs]); [Names] ([ipc/mod.rs], [ipc/names.rs]).
    - Devices of the kernel.  [Console] (the byte rings of
      [arch/x86_64/mod.rs] and [log.rs]); [Clock] ([clock.rs]); [Interrupt]
      ([interrupt/route.rs] and the part of [arch/x86_64/ioapic.rs] it uses).
    - Memory.  [Frames] ([memory/frame.rs], [memory/allocator.rs]);
      [PageTables] ([arch/x86_64/page_tables.rs]), proofs in [AddressSpaces]
      and [DirectMap]; [Loader] ([loader.rs], [elf_flags.rs]), proofs in
      [Loading] and [LoadOnce].
    - Tasks.  [Sched] and [TaskData] ([task/scheduler.rs], [smp/names.rs]), one
      call at a time; [Handshake]: the same code one atomic access at a time,
      on several cores; [Kernel]: the joint state of all of the above and the
      death of a task ([kill_task_by_slot], [kill_by_name]); [Spawn] and
      [SpawnImage]: its birth ([task/mod.rs], [handle_spawn_image], and the
      SDK's side of the request, [sdk/rust/src/service_context.rs]).
    - System calls.  [Abi] ([arch/x86_64/syscall_entry.rs], error codes);
      [Syscalls] ([syscall/dispatch.rs], every handler and the dispatcher);
      [Confine] and [CallBounds]: what a call can change.
    - The whole kernel.  [Lifecycle]: boot, and the invariant of every reachable
      state; [Calls] and [Delivery]: what system calls guarantee.
    - The file system service ([services/fs/src/]).  [Imp]: the state monad its
      models are written in, and the logic [post] for it.  [Crc] ([crc32.rs]).
      The rest is [main.rs]: [FsDisk], the requests to the block driver, which
      leave a trace of writes and flushes; [FsJournal], the volume in memory,
      transactions, commit and recovery; [FsCrash], what power loss leaves of a
      trace and what the next mount makes of it; [FsVolume], superblock, format
      and mount; [FsTxn], the volume as an open transaction sees it; [FsAlloc],
      the bitmap, runs and extents; [FsDir], records, directories and paths, with
      proofs in [FsDirMap]; [FsFile], file content, with proofs in [FsContent]
      and [FsStore].

    ** How the code is modelled

    A kernel routine that holds one lock throughout is one transition.  The
    lock-free parts of the scheduler, where the order of atomic accesses
    matters, are step relations over one access at a time ([Handshake]).  A
    system call is one step up to the point where its task blocks; there it
    leaves a record of what remains ([Waiting]), and [resume] is the rest.
    Hardware and bootloader answers are arguments ([Arch] of [Syscalls], the
    boot memory map of [Frames], the CR3 register, the caller's memory as a
    function of the number of the fetch).  The block driver of the file system is
    a field of the model's device ([Env] of [FsDisk]) that may fail any request.

    ** What the theorems show

    - Authority: a revoked or stale capability never validates again; a task
      gets authority only from what it holds, and a task that holds nothing
      changes nothing of others; capabilities move and are never copied;
      killing a task severs every capability to it and wakes its waiters.
    - Memory: no frame is given out twice, address spaces share no page and
      give back exactly their own, an image is mapped as it says and never
      writable and executable, and its layout is fixed at the first fetch.
    - Scheduling: one task per core, no lost wake-up, no stack freed under a
      core, fair choice, waiting calls end.
    - Data: queues and tables refine lists and maps; requests, notices and
      messages are read back as they were written.
    - Storage: a commit cut by power loss is whole or absent, a finished one
      stays, and a recovery can be started again; a formatted disk mounts; the
      allocator is first fit and hands out no block twice; a directory is a finite
      map; a file written is the file read; the checksum is the standard one and
      sees every burst of four bytes.
    - Defects: theorems of kind [error] exhibit runs in which the code does what
      its comments rule out; each is a concrete run or holds for every state.

    ** Bounds and fuel

    Loops over arrays recurse on the array.  The loops whose rounds are not
    bounded by data take fuel: [kill_by_name] one unit per task, which is
    enough ([kill_by_name_terminates]); the waiting loops of [Syscalls] one per
    round, and two rounds are enough for a task that runs
    ([waiting_calls_end]).  The page-table walks are bounded by the four levels
    and the 512 entries.  [read_at] takes one unit per byte, as every round reads
    one at least; the other loops of the file system are bounded by the blocks of
    the volume.  Integers are [Z] with the wrap-around, saturation or
    check of the source written out; sizes of tables are the source's.

    ** Not modelled

    - The other ports ([kernel/src/arch/aarch64], [arm], [riscv64], [riscv32],
      [loongarch64], [s390x]) and the boot code: their subject is device
      registers and assembly.  Of x86-64, the IOMMU, PCI, ACPI and APIC
      drivers, for the same reason.
    - TLB maintenance and caches: a page-table write is seen at once.
    - Text: log lines, the console's rendering and the shell.
    - Of the file system, the message exchange with the block driver, the request
      loop, and the operations made of those modelled here: mkdir, rename, move,
      delete, open files, check and scrub.
    - The other services, the SDK and the standard library beyond the spawn
      request, the host tool [osdev], examples and tests.
*)

From stdpp Require Export prelude.
From Stdlib Require Export ZArith Lia.

(** ** Scopes and notations *)

Declare Scope gs_scope.
Delimit Scope gs_scope with gs.

(** ** Outcomes

    [result] is Rust's [Result<A, E>].  [outcome] separates a kernel panic
    from every returned value: [Panic] is the [panic!], failed [expect],
    failed [assert!] or out-of-range index of the source. *)

Inductive result (A E : Type) : Type :=
| Ok (a : A)
| Err (e : E).
Arguments Ok {A E} a.
Arguments Err {A E} e.

Inductive outcome (A : Type) : Type :=
| Done (a : A)
| Panic.
Arguments Done {A} a.
Arguments Panic {A}.

#[export] Instance outcome_ret : MRet outcome := @Done.
#[export] Instance outcome_bind : MBind outcome :=
  fun A B f m => match m with Done a => f a | Panic => Panic end.

Definition is_ok {A E} (r : result A E) : bool :=
  match r with Ok _ => true | Err _ => false end.

Lemma bind_Done {A B} (f : A -> outcome B) (m : outcome A) (b : B) :
  (m ≫= f) = Done b <-> exists a, m = Done a /\ f a = Done b.
Proof. destruct m; simpl; naive_solver. Qed.

#[export] Instance result_eq_dec {A E} `{EqDecision A, EqDecision E} :
  EqDecision (result A E).
Proof. solve_decision. Defined.

(** ** Machine-width integers

    A [u8], [u32], [u64], [usize] or [i64] is a [Z]; every operation that
    can leave the range is written with its Rust behaviour. *)

Open Scope Z_scope.

Definition u8_max : Z := 255.
Definition u32_max : Z := 4294967295.
Definition u64_max : Z := 18446744073709551615.

Definition u8_not (x : Z) : Z := Z.land (Z.lnot x) u8_max.

Definition wrap32 (x : Z) : Z := x mod 4294967296.
Definition wrap64 (x : Z) : Z := x mod 18446744073709551616.

Definition checked_add32 (a b : Z) : option Z :=
  if a + b <=? u32_max then Some (a + b) else None.
Definition checked_add64 (a b : Z) : option Z :=
  if a + b <=? u64_max then Some (a + b) else None.
Definition saturating_add64 (a b : Z) : Z := Z.min (a + b) u64_max.
Definition saturating_mul64 (a b : Z) : Z := Z.min (a * b) u64_max.
Definition saturating_sub (a b : Z) : Z := Z.max (a - b) 0.

Lemma wrap64_small (x : Z) : 0 <= x <= u64_max -> wrap64 x = x.
Proof. unfold wrap64, u64_max; intros; apply Z.mod_small; lia. Qed.

Lemma wrap64_range (x : Z) : 0 <= wrap64 x <= u64_max.
Proof.
  unfold wrap64, u64_max.
  pose proof (Z.mod_pos_bound x 18446744073709551616); lia.
Qed.

#[global] Arguments Nat.modulo : simpl never.
#[global] Arguments Nat.div : simpl never.
#[global] Arguments Z.of_nat : simpl never.
#[global] Arguments replicate : simpl never.

(** ** Little-endian bytes: [to_le_bytes] of an [n]-byte integer *)

Fixpoint to_le_bytes (n : nat) (x : Z) : list Z :=
  match n with
  | O => []
  | S n => x mod 256 :: to_le_bytes n (x / 256)
  end.

Fixpoint from_le_bytes (l : list Z) : Z :=
  match l with
  | [] => 0
  | b :: l => b + 256 * from_le_bytes l
  end.

Definition is_byte (b : Z) : Prop := 0 <= b < 256.

Lemma to_le_length (n : nat) (x : Z) : length (to_le_bytes n x) = n.
Proof. revert x. induction n as [|n IH]; intros x; simpl; [done|by rewrite IH]. Qed.

Lemma to_le_bytes_range (n : nat) (x : Z) : Forall is_byte (to_le_bytes n x).
Proof.
  revert x. induction n as [|n IH]; intros x; simpl; constructor; [|apply IH].
  unfold is_byte. apply Z.mod_pos_bound. lia.
Qed.

Lemma from_to_le (n : nat) (x : Z) : 0 <= x < 256 ^ Z.of_nat n -> from_le_bytes (to_le_bytes n x) = x.
Proof.
  revert x. induction n as [|n IH]; intros x Hx; simpl; [change (256 ^ Z.of_nat 0) with 1 in Hx; lia|].
  rewrite Nat2Z.inj_succ, Z.pow_succ_r in Hx by lia.
  rewrite IH; [pose proof (Z.div_mod x 256); lia|].
  split; [apply Z.div_pos; lia|apply Z.div_lt_upper_bound; lia].
Qed.

Lemma from_le_range (l : list Z) : Forall is_byte l -> 0 <= from_le_bytes l < 256 ^ Z.of_nat (length l).
Proof.
  induction 1 as [|b l Hb _ IH]; simpl length; [done|]. simpl from_le_bytes.
  rewrite Nat2Z.inj_succ, Z.pow_succ_r by lia. unfold is_byte in Hb. lia.
Qed.

Lemma to_from_le (l : list Z) : Forall is_byte l -> to_le_bytes (length l) (from_le_bytes l) = l.
Proof.
  induction 1 as [|b l Hb _ IH]; simpl; [done|]. unfold is_byte in Hb.
  rewrite Z.mul_comm, Z.mod_add, Z.mod_small, Z.div_add, Z.div_small, Z.add_0_l, IH by lia. done.
Qed.

(** ** Searching an array

    [position p l] is Rust's [l.iter().position(p)]: the first index whose
    element satisfies [p].  Every first-fit scan of the kernel is one. *)

Fixpoint position {A} (p : A -> bool) (l : list A) : option nat :=
  match l with
  | [] => None
  | x :: l => if p x then Some 0%nat else S <$> position p l
  end.

Lemma position_Some {A} (p : A -> bool) (l : list A) (i : nat) :
  position p l = Some i <->
  (exists x, l !! i = Some x /\ p x = true) /\
  (forall j y, (j < i)%nat -> l !! j = Some y -> p y = false).
Proof.
  revert i; induction l as [|x l IH]; intros i; simpl.
  - split; [done|]. intros [(y & Hy & _) _]. by rewrite lookup_nil in Hy.
  - destruct (p x) eqn:Hp.
    + split.
      * intros [= <-]. split; [by exists x|lia].
      * intros [_ H]. destruct i; [done|].
        specialize (H 0%nat x ltac:(lia) eq_refl). congruence.
    + destruct i as [|i].
      * split; [by destruct (position p l)|].
        intros [(y & [= <-] & Hy) _]. congruence.
      * transitivity (position p l = Some i).
        { destruct (position p l); simpl; naive_solver. }
        rewrite IH. split.
        -- intros [Hex Hj]. split; [done|].
           intros [|j] y Hlt Hl; simpl in *; [congruence|].
           apply (Hj j); [lia|done].
        -- intros [Hex Hj]. split; [done|].
           intros j y Hlt Hl. apply (Hj (S j) y); [lia|done].
Qed.

Lemma position_None {A} (p : A -> bool) (l : list A) :
  position p l = None <-> forall i x, l !! i = Some x -> p x = false.
Proof.
  induction l as [|x l IH]; simpl.
  - split; [|done]. intros _ i x Hx. by rewrite lookup_nil in Hx.
  - destruct (p x) eqn:Hp; simpl.
    + split; [done|]. intros H. specialize (H 0%nat x eq_refl). congruence.
    + transitivity (position p l = None).
      { destruct (position p l); naive_solver. }
      rewrite IH. split.
      * intros H [|i] y Hy; simpl in *; [congruence|eauto].
      * intros H i y Hy. apply (H (S i) y Hy).
Qed.

Lemma position_lt {A} (p : A -> bool) (l : list A) (i : nat) :
  position p l = Some i -> (i < length l)%nat.
Proof.
  intros [(x & Hx & _) _]%position_Some. by eapply lookup_lt_Some.
Qed.

Lemma position_hit {A} (p : A -> bool) (l : list A) (i : nat) :
  position p l = Some i -> exists x, l !! i = Some x /\ p x = true.
Proof. by intros [H _]%position_Some. Qed.

Lemma position_is_Some {A} (p : A -> bool) (l : list A) :
  is_Some (position p l) <-> exists i x, l !! i = Some x /\ p x = true.
Proof.
  split.
  - intros [i Hi]. exists i. by apply position_hit.
  - intros (i & x & Hx & Hp). destruct (position p l) eqn:E; [done|].
    rewrite position_None in E. rewrite (E i x Hx) in Hp. done.
Qed.

Lemma position_insert_same {A} (p : A -> bool) (l : list A) (i : nat) (x y : A) :
  l !! i = Some y -> p x = p y -> position p (<[i := x]> l) = position p l.
Proof.
  revert i; induction l as [|z l IH]; intros [|i] Hl Hp; simplify_eq/=; [by rewrite Hp|].
  by rewrite (IH i).
Qed.

(** The number of elements satisfying [p]. *)
Definition count {A} (p : A -> bool) (l : list A) : nat :=
  length (List.filter p l).

Lemma count_nil {A} (p : A -> bool) : count p [] = 0%nat.
Proof. done. Qed.

Lemma count_cons {A} (p : A -> bool) (x : A) (l : list A) :
  count p (x :: l) = ((if p x then 1 else 0) + count p l)%nat.
Proof. unfold count; simpl. by destruct (p x). Qed.

Lemma count_le_length {A} (p : A -> bool) (l : list A) :
  (count p l <= length l)%nat.
Proof. induction l as [|x l IH]; [done|]. rewrite count_cons; simpl. destruct (p x); lia. Qed.

Lemma count_zero {A} (p : A -> bool) (l : list A) :
  position p l = None -> count p l = 0%nat.
Proof.
  induction l as [|x l IH]; [done|]. simpl. rewrite count_cons.
  destruct (p x); [done|]. destruct (position p l); [done|]. by rewrite IH.
Qed.

Lemma count_pos {A} (p : A -> bool) (l : list A) :
  (0 < count p l)%nat -> is_Some (position p l).
Proof. destruct (position p l) eqn:E; [eauto|]. rewrite count_zero by done. lia. Qed.

Lemma count_insert {A} (p : A -> bool) (l : list A) (i : nat) (x y : A) :
  l !! i = Some y ->
  (count p (<[i := x]> l) + (if p y then 1 else 0) =
   count p l + (if p x then 1 else 0))%nat.
Proof.
  revert i; induction l as [|z l IH]; intros [|i] Hy; simplify_eq/=.
  - rewrite !count_cons. lia.
  - rewrite !count_cons. specialize (IH i Hy). lia.
Qed.

(** ** Automation *)

Create HintDb gs discriminated.
#[export] Hint Resolve position_lt position_hit : gs.
#[export] Hint Rewrite @length_insert @length_alter @length_replicate : gs.

(** Case analysis on the match or conditional the goal or a hypothesis is
    stuck on, followed by simplification of the equations it leaves. *)
Ltac split_match := repeat (case_match; simplify_eq/=).

(** Turns the boolean comparisons in the context and goal into propositions. *)
Ltac to_prop :=
  repeat match goal with
  | H : (_ <=? _) = true |- _ => apply Z.leb_le in H
  | H : (_ <=? _) = false |- _ => apply Z.leb_gt in H
  | H : (_ <? _) = true |- _ => apply Z.ltb_lt in H
  | H : (_ <? _) = false |- _ => apply Z.ltb_ge in H
  | H : (_ =? _) = true |- _ => apply Z.eqb_eq in H
  | H : (_ =? _) = false |- _ => apply Z.eqb_neq in H
  | H : (_ && _) = true |- _ => apply andb_true_iff in H as [??]
  | H : (_ && _) = false |- _ => apply andb_false_iff in H
  | H : (_ || _) = true |- _ => apply orb_true_iff in H
  | H : (_ || _) = false |- _ => apply orb_false_iff in H as [??]
  | H : negb _ = true |- _ => apply negb_true_iff in H
  | H : negb _ = false |- _ => apply negb_false_iff in H
  end.

(** Linear arithmetic with division, remainder and their truncating forms. *)
Ltac dlia := Z.to_euclidean_division_equations; lia.

(** Lookup in an array after an in-range or out-of-range store. *)
Lemma lookup_insert_cases {A} (l : list A) (i j : nat) (x y : A) :
  <[i := x]> l !! j = Some y ->
  (i = j /\ y = x) \/ (i <> j /\ l !! j = Some y).
Proof.
  intros [(? & ? & ?) | (? & ?)]%list_lookup_insert_Some; naive_solver.
Qed.

Lemma alter_as_insert {A} (f : A -> A) (l : list A) (i : nat) (x : A) :
  l !! i = Some x -> alter f i l = <[i := f x]> l.
Proof.
  revert i. induction l as [|y l IH]; intros [|i] Hx; simplify_eq/=; [done|].
  f_equal. by apply IH.
Qed.

Lemma lookup_alter_cases {A} (f : A -> A) (l : list A) (i j : nat) (y : A) :
  alter f i l !! j = Some y ->
  (i = j /\ exists x, l !! j = Some x /\ y = f x) \/ (i <> j /\ l !! j = Some y).
Proof.
  destruct (decide (i = j)) as [->|Hne].
  - rewrite list_lookup_alter_eq. destruct (l !! j); naive_solver.
  - rewrite list_lookup_alter_ne by done. auto.
Qed.

(** Counting the indices of a range: changing the predicate at one index
    changes the count by that index. *)
Lemma count_ext {A} (p q : A -> bool) (l : list A) :
  (forall x, x ∈ l -> p x = q x) -> count p l = count q l.
Proof.
  induction l as [|x l IH]; intros H; [done|].
  rewrite !count_cons, (H x), IH; [done| |set_solver].
  intros y Hy. apply H. set_solver.
Qed.

Lemma count_app {A} (p : A -> bool) (l k : list A) :
  count p (l ++ k) = (count p l + count p k)%nat.
Proof. induction l as [|x l IH]; [done|]. simpl. rewrite !count_cons, IH. lia. Qed.

Lemma count_split (p q : nat -> bool) (l : list nat) (i : nat) :
  NoDup l -> i ∈ l -> (forall j, j <> i -> p j = q j) ->
  (count q l + (if p i then 1 else 0) = count p l + (if q i then 1 else 0))%nat.
Proof.
  intros Hnd Hi Hpq. apply list_elem_of_split in Hi as (l1 & l2 & ->).
  apply NoDup_app in Hnd as (_ & Hd & [Hi2 _]%NoDup_cons).
  rewrite !count_app, !count_cons.
  rewrite (count_ext p q l1), (count_ext p q l2); [lia| |];
    intros x Hx; apply Hpq; intros ->; [done|]. apply (Hd i Hx). set_solver.
Qed.

Lemma existsb_lookup {A} (p : A -> bool) (l : list A) :
  existsb p l = true <-> exists i x, l !! i = Some x /\ p x = true.
Proof.
  rewrite existsb_exists. split.
  - intros (x & Hx & Hp). apply list_elem_of_In, list_elem_of_lookup in Hx as [i Hi]. eauto.
  - intros (i & x & Hi & Hp). exists x. split; [|done].
    by eapply list_elem_of_In, list_elem_of_lookup_2.
Qed.

Lemma existsb_ext {A} (f g : A -> bool) (l : list A) :
  (forall x, x ∈ l -> f x = g x) -> existsb f l = existsb g l.
Proof.
  induction l as [|x l IH]; intros H; [done|]. simpl. rewrite H by set_solver.
  rewrite IH; [done|]. intros y Hy. apply H. set_solver.
Qed.

(** The complement of a byte, bit by bit. *)
Lemma u8_not_testbit (m i : Z) :
  0 <= i -> Z.testbit (u8_not m) i = negb (Z.testbit m i) && (i <? 8).
Proof.
  intros Hi. unfold u8_not, u8_max. rewrite Z.land_spec, Z.lnot_spec by lia.
  f_equal. change 255 with (Z.ones 8).
  destruct (i <? 8) eqn:E; to_prop.
  - by rewrite Z.ones_spec_low by lia.
  - by rewrite Z.ones_spec_high by lia.
Qed.

Lemma alter_alter {A} (f g : A -> A) (l : list A) (i : nat) :
  alter f i (alter g i l) = alter (fun x => f (g x)) i l.
Proof.
  revert i. induction l as [|x l IH]; intros [|i]; simpl; try done.
  change (list_alter) with (alter (M := list A)) in *. f_equal. apply IH.
Qed.

(** ** Traces

    Interleavings of atomic steps: [exec] makes one step, or is undefined
    where the step is not enabled; [hazard] singles out steps a theorem has
    to exclude. *)
Section Traces.
Context {St Act : Type} (exec : St -> Act -> option St) (hazard : St -> Act -> bool).

Fixpoint run (s : St) (acts : list Act) : option St :=
    match acts with
    | [] => Some s
    | a :: acts => match exec s a with Some s' => run s' acts | None => None end
    end.

Fixpoint hazard_free (s : St) (acts : list Act) : bool :=
    match acts with
    | [] => true
    | a :: acts =>
        negb (hazard s a) && match exec s a with Some s' => hazard_free s' acts | None => true end
    end.

Lemma run_invariant (I : St -> Prop) (s s' : St) (acts : list Act) :
    (forall s a s', I s -> hazard s a = false -> exec s a = Some s' -> I s') ->
    I s -> hazard_free s acts = true -> run s acts = Some s' -> I s'.
  Proof.
    intros Hstep. revert s. induction acts as [|a acts IH]; intros s Hs Hf Hr; simplify_eq/=; [done|].
    apply andb_true_iff in Hf as [Ha%negb_true_iff Hf].
    destruct (exec s a) as [s1|] eqn:E; [|done]. by eapply (IH s1); [eapply Hstep|..].
  Qed.
End Traces.

(** No step is a hazard. *)
Definition no_hazard {St Act : Type} (_ : St) (_ : Act) : bool := false.

Lemma no_hazard_free {St Act : Type} (exec : St -> Act -> option St) (s : St) (acts : list Act) :
  hazard_free exec no_hazard s acts = true.
Proof. revert s. induction acts as [|a acts IH]; intros s; [done|]. simpl. by destruct (exec s a). Qed.

(** A total map changed at one index. *)
Definition upd {A : Type} (f : nat -> A) (i : nat) (x : A) : nat -> A :=
  fun j => if decide (j = i) then x else f j.

Lemma upd_eq {A : Type} (f : nat -> A) (i : nat) (x : A) : upd f i x i = x.
Proof. unfold upd. by rewrite decide_True. Qed.

Lemma upd_ne {A : Type} (f : nat -> A) (i j : nat) (x : A) : j <> i -> upd f i x j = f j.
Proof. intros H. unfold upd. by rewrite decide_False. Qed.
