(* ===== verification/Prog.v ===== *)
(** * Kernel routines as programs

    The state-and-error monad the kernel's longer routines are written in: a
    routine takes the state, and panics, or returns with the new state and
    either a value or the error of an early return.  [triple] is its Hoare
    logic; the rules below are shared by the spawn path and the system calls. *)

From S2P Require Import Prelude.

Definition Prog (S E A : Type) : Type := S -> outcome (S * result A E).

Definition M_ret {S E A} (a : A) : Prog S E A := fun s => Done (s, Ok a).
Definition M_bind {S E A B} (m : Prog S E A) (f : A -> Prog S E B) : Prog S E B :=
  fun s => match m s with
           | Done (s, Ok a) => f a s
           | Done (s, Err e) => Done (s, Err e)
           | Panic => Panic
           end.
Definition M_fail {S E A} (e : E) : Prog S E A := fun s => Done (s, Err e).
Definition M_modify {S E} (f : S -> S) : Prog S E unit := fun s => Done (f s, Ok tt).
Definition M_gets {S E A} (f : S -> A) : Prog S E A := fun s => Done (s, Ok (f s)).
Definition M_outcome {S E A} (f : S -> outcome (S * A)) : Prog S E A :=
  fun s => '(s, a) ← f s; Done (s, Ok a).

Declare Scope prog_scope.
Delimit Scope prog_scope with prog.
Notation "x <- m ;; n" := (M_bind m (fun x => n)) (at level 100, m at next level, right associativity) : prog_scope.
Notation "m ;;; n" := (M_bind m (fun _ => n)) (at level 100, right associativity) : prog_scope.
Open Scope prog_scope.

(** [P] before the call; [Q] after it returns [Ok], [X] after it returns [Err].
    A panic ends the kernel, and nothing is claimed of it. *)
Definition triple {S E A} (P : S -> Prop) (m : Prog S E A) (Q : A -> S -> Prop) (X : S -> Prop) : Prop :=
  forall s s' r, P s -> m s = Done (s', r) -> match r with Ok a => Q a s' | Err _ => X s' end.

Module ProgFacts.
Section Rules.
Context {S E : Type}.
Implicit Types P X : S -> Prop.

Lemma triple_ret {A} (a : A) (Q : A -> S -> Prop) X : triple (Q a) (M_ret (E := E) a) Q X.
Proof. intros k k' r HP [= <- <-]. exact HP. Qed.

Lemma triple_skip {A} (a : A) P X : triple P (M_ret (E := E) a) (fun _ => P) X.
Proof. apply (triple_ret a (fun _ => P)). Qed.

Lemma triple_bind {A B} P X (Q : A -> S -> Prop) (R : B -> S -> Prop) (m : Prog S E A) (f : A -> Prog S E B) :
  triple P m Q X -> (forall a, triple (Q a) (f a) R X) -> triple P (M_bind m f) R X.
Proof.
  intros Hm Hf k k' r HP H. unfold M_bind in H. destruct (m k) as [[k1 [a|e]]|] eqn:Em; [| |done].
  - specialize (Hm _ _ _ HP Em). by apply (Hf a _ _ _ Hm H).
  - injection H as <- <-. apply (Hm _ _ _ HP Em).
Qed.

Lemma triple_pre {A} P P' X (Q : A -> S -> Prop) (m : Prog S E A) :
  (forall k, P k -> P' k) -> triple P' m Q X -> triple P m Q X.
Proof. intros HP H k k' r Hk. apply H. auto. Qed.

Lemma triple_post {A} P X (Q Q' : A -> S -> Prop) (m : Prog S E A) :
  (forall a k, Q' a k -> Q a k) -> triple P m Q' X -> triple P m Q X.
Proof. intros HQ H k k' r Hk Hm. specialize (H k k' r Hk Hm). destruct r; auto. Qed.

Lemma triple_modify P X (Q : unit -> S -> Prop) (f : S -> S) :
  (forall k, P k -> Q tt (f k)) -> triple P (M_modify (E := E) f) Q X.
Proof. intros H k k' r Hk [= <- <-]. auto. Qed.

Lemma triple_gets {A} P X (Q : A -> S -> Prop) (f : S -> A) :
  (forall k, P k -> Q (f k) k) -> triple P (M_gets (E := E) f) Q X.
Proof. intros H k k' r Hk [= <- <-]. auto. Qed.

Lemma triple_outcome {A} P X (Q : A -> S -> Prop) (f : S -> outcome (S * A)) :
  (forall k k' a, P k -> f k = Done (k', a) -> Q a k') -> triple P (M_outcome (E := E) f) Q X.
Proof.
  intros H k k' r Hk Hf. unfold M_outcome in Hf. apply bind_Done in Hf as ([k1 a] & Hf & [= <- <-]).
  by apply (H k).
Qed.

Lemma triple_fail {A} P X (Q : A -> S -> Prop) (e : E) :
  (forall k, P k -> X k) -> triple P (M_fail e) Q X.
Proof. intros H k k' r Hk [= <- <-]. auto. Qed.

Lemma triple_exists {A Y} (P : Y -> S -> Prop) (m : Prog S E A) (Q : A -> S -> Prop) X :
  (forall x, triple (P x) m Q X) -> triple (fun k => exists x, P x k) m Q X.
Proof. intros H k k' r [x Hk]. by apply (H x). Qed.

Lemma triple_exists_post {A Y} P (m : Prog S E A) (Q : Y -> S -> Prop) X :
  (exists x, triple P m (fun _ => Q x) X) -> triple P m (fun _ k => exists x, Q x k) X.
Proof. intros [x H] k k' r Hk Hm. specialize (H k k' r Hk Hm). destruct r; eauto. Qed.

Lemma triple_and {A} P P' X X' (Q Q' : A -> S -> Prop) (m : Prog S E A) :
  triple P m Q X -> triple P' m Q' X' ->
  triple (fun k => P k /\ P' k) m (fun a k => Q a k /\ Q' a k) (fun k => X k /\ X' k).
Proof.
  intros H H' k k' r [Hk Hk'] Hm. specialize (H k k' r Hk Hm). specialize (H' k k' r Hk' Hm). by destruct r.
Qed.

End Rules.
End ProgFacts.
