(* ===== verification/Imp.v ===== *)
(** * Programs of the services

    The services' methods take [&mut self] and a context, and answer with a
    value, an [Option] or a [Result].  Such a method is a function of the state
    that answers with the new state and the value; [?] is a bind that stops at
    [None] or [Err]. *)

From S2P Require Import Prelude.

Definition Imp (S A : Type) : Type := S -> S * A.

Definition iret {S A} (a : A) : Imp S A := fun s => (s, a).
Definition ibind {S A B} (m : Imp S A) (f : A -> Imp S B) : Imp S B := fun s => let '(s', a) := m s in f a s'.
Definition iget {S A} (f : S -> A) : Imp S A := fun s => (s, f s).
Definition imod {S} (f : S -> S) : Imp S unit := fun s => (f s, tt).

(** [m?] in a method that answers with a [Result], and in one that answers with an [Option]. *)
Definition ibind_ok {S E A B} (m : Imp S (result A E)) (f : A -> Imp S (result B E)) : Imp S (result B E) :=
  ibind m (fun r => match r with Ok a => f a | Err e => iret (Err e) end).
Definition ibind_some {S A B} (m : Imp S (option A)) (f : A -> Imp S (option B)) : Imp S (option B) :=
  ibind m (fun r => match r with Some a => f a | None => iret None end).

(** [m.ok_or(e)?], and [if !m { return Err(e) }]. *)
Definition ok_or {S E A} (m : Imp S (option A)) (e : E) : Imp S (result A E) :=
  ibind m (fun r => iret (match r with Some a => Ok a | None => Err e end)).
Definition or_err {S E} (m : Imp S bool) (e : E) : Imp S (result unit E) :=
  ibind m (fun ok => iret (if ok : bool then Ok tt else Err e)).

Declare Scope imp_scope.
Delimit Scope imp_scope with imp.
Notation "x <- m ;; n" := (ibind m (fun x => n)) (at level 100, m at next level, right associativity) : imp_scope.
Notation "' p <- m ;; n" := (ibind m (fun x => match x with p => n end)) (at level 100, p pattern, m at next level, right associativity) : imp_scope.
Notation "m ;;; n" := (ibind m (fun _ => n)) (at level 100, right associativity) : imp_scope.
Notation "x <-! m ;; n" := (ibind_ok m (fun x => n)) (at level 100, m at next level, right associativity) : imp_scope.
Notation "' p <-! m ;; n" := (ibind_ok m (fun x => match x with p => n end)) (at level 100, p pattern, m at next level, right associativity) : imp_scope.
Notation "m ;;! n" := (ibind_ok m (fun _ => n)) (at level 100, right associativity) : imp_scope.
Notation "x <-? m ;; n" := (ibind_some m (fun x => n)) (at level 100, m at next level, right associativity) : imp_scope.
Notation "' p <-? m ;; n" := (ibind_some m (fun x => match x with p => n end)) (at level 100, p pattern, m at next level, right associativity) : imp_scope.

(** [for x in l { body?; }] and a loop that returns from its body at the first [Some]. *)
Fixpoint for_ok {S E X} (l : list X) (f : X -> Imp S (result unit E)) : Imp S (result unit E) :=
  match l with
  | [] => iret (Ok tt)
  | x :: l => ibind_ok (f x) (fun _ => for_ok l f)
  end.

Fixpoint for_each {S X} (l : list X) (f : X -> Imp S unit) : Imp S unit :=
  match l with
  | [] => iret tt
  | x :: l => ibind (f x) (fun _ => for_each l f)
  end.

Fixpoint for_first {S X R} (l : list X) (f : X -> Imp S (option R)) : Imp S (option R) :=
  match l with
  | [] => iret None
  | x :: l => ibind (f x) (fun r => match r with Some r => iret (Some r) | None => for_first l f end)
  end.

(** A loop that carries a value and stops at the first error. *)
Fixpoint fold_ok {S E X A} (l : list X) (a : A) (f : A -> X -> Imp S (result A E)) : Imp S (result A E) :=
  match l with
  | [] => iret (Ok a)
  | x :: l => ibind_ok (f a x) (fun a => fold_ok l a f)
  end.

(** A method run on a part of the state. *)
Definition zoom {S T A} (get : S -> T) (set : T -> S -> S) (m : Imp T A) : Imp S A :=
  fun s => let '(t, a) := m (get s) in (set t s, a).

(** ** Reasoning

    [post m s Q]: run from [s], [m] ends in a state and a value that satisfy [Q]. *)

Definition post {S A} (m : Imp S A) (s : S) (Q : S -> A -> Prop) : Prop := Q (m s).1 (m s).2.

Section Post.
Context {S : Type}.
Implicit Types s : S.

Lemma post_ret {A} (a : A) s Q : Q s a -> post (iret a) s Q.
Proof. done. Qed.

Lemma post_bind {A B} (m : Imp S A) (f : A -> Imp S B) s Q :
  post m s (fun s' a => post (f a) s' Q) -> post (ibind m f) s Q.
Proof. unfold post, ibind. by destruct (m s). Qed.

(** Whatever comes first. *)
Lemma post_then {A B} (m : Imp S A) (f : A -> Imp S B) s Q : (forall s' a, post (f a) s' Q) -> post (ibind m f) s Q.
Proof. intros H. apply post_bind. apply H. Qed.

Lemma post_mono {A} (m : Imp S A) s (Q Q' : S -> A -> Prop) :
  post m s Q -> (forall s' a, Q s' a -> Q' s' a) -> post m s Q'.
Proof. unfold post. auto. Qed.

Lemma post_and {A} (m : Imp S A) s (Q Q' : S -> A -> Prop) :
  post m s Q -> post m s Q' -> post m s (fun s' a => Q s' a /\ Q' s' a).
Proof. unfold post. auto. Qed.

Lemma post_eq {A} (m : Imp S A) s s' a Q : m s = (s', a) -> post m s Q <-> Q s' a.
Proof. unfold post. by intros ->. Qed.

Lemma post_get {A} (f : S -> A) s Q : Q s (f s) -> post (iget f) s Q.
Proof. done. Qed.

Lemma post_mod (f : S -> S) s (Q : S -> unit -> Prop) : Q (f s) tt -> post (imod f) s Q.
Proof. done. Qed.

Lemma post_bind_ok {E A B} (m : Imp S (result A E)) (f : A -> Imp S (result B E)) s Q :
  post m s (fun s' r => match r with Ok a => post (f a) s' Q | Err e => Q s' (Err e) end) -> post (ibind_ok m f) s Q.
Proof. intros H. apply post_bind. eapply post_mono; [exact H|]. by intros s' [a|e]. Qed.

Lemma post_bind_some {A B} (m : Imp S (option A)) (f : A -> Imp S (option B)) s Q :
  post m s (fun s' r => match r with Some a => post (f a) s' Q | None => Q s' None end) -> post (ibind_some m f) s Q.
Proof. intros H. apply post_bind. eapply post_mono; [exact H|]. by intros s' [a|]. Qed.

Lemma post_ok_or {E A} (m : Imp S (option A)) (e : E) s Q :
  post m s (fun s' r => Q s' (match r with Some a => Ok a | None => Err e end)) -> post (ok_or m e) s Q.
Proof. intros H. by apply post_bind. Qed.

Lemma post_or_err {E} (m : Imp S bool) (e : E) s Q :
  post m s (fun s' ok => Q s' (if ok : bool then Ok tt else Err e)) -> post (or_err m e) s Q.
Proof. intros H. by apply post_bind. Qed.

(** A loop keeps what each round keeps. *)
Lemma post_for_ok {E X} (l : list X) (f : X -> Imp S (result unit E)) (I : S -> Prop) (Q : S -> result unit E -> Prop) s :
  I s -> (forall x s', x ∈ l -> I s' -> post (f x) s' (fun s'' r => match r with Ok _ => I s'' | Err e => Q s'' (Err e) end)) ->
  (forall s', I s' -> Q s' (Ok tt)) -> post (for_ok l f) s Q.
Proof.
  intros Hi Hf Hq. revert s Hi. induction l as [|x l IH]; intros s Hi; [by apply Hq|]. apply post_bind_ok.
  eapply post_mono; [apply Hf; [left|done]|]. intros s' [[]|e] H; [|done]. apply IH; [|done]. intros y s'' Hy. apply Hf. by right.
Qed.

Lemma for_ok_ext {E X} (l : list X) (f g : X -> Imp S (result unit E)) : (forall x, f x = g x) -> for_ok l f = for_ok l g.
Proof. intros H. induction l as [|x l IH]; [done|]. cbn. by rewrite H, IH. Qed.

Lemma post_for_first {X R} (l : list X) (f : X -> Imp S (option R)) (I : S -> Prop) (Q : S -> option R -> Prop) s :
  I s -> (forall x s', x ∈ l -> I s' -> post (f x) s' (fun s'' r => match r with None => I s'' | Some e => Q s'' (Some e) end)) ->
  (forall s', I s' -> Q s' None) -> post (for_first l f) s Q.
Proof.
  intros Hi Hf Hq. revert s Hi. induction l as [|x l IH]; intros s Hi; [by apply Hq|]. apply post_bind.
  eapply post_mono; [apply Hf; [left|done]|]. intros s' [e|] H; [done|]. apply IH; [|done]. intros y s'' Hy. apply Hf. by right.
Qed.

(** [avoids e m]: [m] never fails with [e]. *)
Definition avoids {E A} (e : E) (m : Imp S (result A E)) : Prop := forall s, (m s).2 <> Err e.

Lemma avoids_ret {E A} (e : E) (r : result A E) : r <> Err e -> avoids e (iret r).
Proof. by intros H s. Qed.

Lemma avoids_bind {E A B} (e : E) (m : Imp S A) (f : A -> Imp S (result B E)) : (forall a, avoids e (f a)) -> avoids e (ibind m f).
Proof. intros H s. unfold ibind. destruct (m s) as [s' a]. apply H. Qed.

Lemma avoids_bind_ok {E A B} (e : E) (m : Imp S (result A E)) (f : A -> Imp S (result B E)) :
  avoids e m -> (forall a, avoids e (f a)) -> avoids e (ibind_ok m f).
Proof. intros Hm Hf s. unfold ibind_ok, ibind. specialize (Hm s). destruct (m s) as [s' [a|e']]; [apply Hf|]. cbn in *. congruence. Qed.

Lemma avoids_ok_or {E A} (e e' : E) (m : Imp S (option A)) : e' <> e -> avoids e (ok_or m e').
Proof. intros H. apply avoids_bind. intros [a|]; apply avoids_ret; congruence. Qed.

Lemma avoids_or_err {E} (e e' : E) (m : Imp S bool) : e' <> e -> avoids e (or_err m e').
Proof. intros H. apply avoids_bind. intros []; apply avoids_ret; congruence. Qed.

Lemma avoids_for_ok {E X} (e : E) (l : list X) (f : X -> Imp S (result unit E)) : (forall x, avoids e (f x)) -> avoids e (for_ok l f).
Proof. intros H. induction l as [|x l IH]; [by apply avoids_ret|]. by apply avoids_bind_ok. Qed.

Lemma post_avoids {E A} (e : E) (m : Imp S (result A E)) s Q : avoids e m -> post m s Q -> post m s (fun s' r => r <> Err e /\ Q s' r).
Proof. intros Ha H. by split; [apply Ha|]. Qed.

End Post.

Ltac avoid :=
  repeat lazymatch goal with
    | |- avoids _ (ok_or _ _) => apply avoids_ok_or
    | |- avoids _ (or_err _ _) => apply avoids_or_err
    | |- avoids _ (ibind_ok _ _) => apply avoids_bind_ok
    | |- avoids _ (ibind _ _) => apply avoids_bind
    | |- avoids _ (for_ok _ _) => apply avoids_for_ok
    | |- avoids _ (iret _) => apply avoids_ret
    | |- avoids _ (if ?b then _ else _) => destruct b
    | |- avoids _ (match ?x with _ => _ end) => destruct x
    | |- forall _, _ => intro
    end; try discriminate.
