(* ===== verification/Crc.v ===== *)
(** * The checksum of the file system

    [services/fs/src/crc32.rs]: CRC-32 (IEEE 802.3, reflected) computed a byte
    at a time from a table.  The table is its function from index to entry.
    Proved here: it is the shift register of the standard, a bit at a time, and
    it tells apart any two messages of one length that differ within four
    consecutive bytes. *)

From S2P Require Import Prelude.

Definition POLY : Z := 0xEDB88320.

(** One round of the inner loop of [make_table]. *)
Definition crc_round (c : Z) : Z :=
  if negb (Z.land c 1 =? 0) then Z.lxor POLY (Z.shiftr c 1) else Z.shiftr c 1.

Definition TABLE (i : Z) : Z := Nat.iter 8 crc_round i.

Definition crc_step (crc b : Z) : Z := Z.lxor (TABLE (Z.land (Z.lxor crc b) 0xFF)) (Z.shiftr crc 8).

Definition crc32 (data : list Z) : Z := Z.lxor (foldl crc_step 0xFFFFFFFF data) 0xFFFFFFFF.

(** ** The standard's register

    One bit of the message, least significant first: shifted in at the bottom,
    the polynomial added when the bit that falls out differs. *)

Definition register_bit (c : Z) (bit : bool) : Z :=
  if xorb (Z.odd c) bit then Z.lxor POLY (Z.shiftr c 1) else Z.shiftr c 1.

Definition bits_of (b : Z) : list bool := Z.testbit b <$> (Z.of_nat <$> seq 0 8).

Definition crc32_register (data : list Z) : Z :=
  Z.lxor (foldl register_bit 0xFFFFFFFF (concat (bits_of <$> data))) 0xFFFFFFFF.

Module CrcFacts.

Definition u32 (x : Z) : Prop := 0 <= x < 2 ^ 32.

Lemma lxor_u32 (n x y : Z) : 0 <= n -> 0 <= x < 2 ^ n -> 0 <= y < 2 ^ n -> 0 <= Z.lxor x y < 2 ^ n.
Proof.
  intros Hn Hx Hy. split; [by apply Z.lxor_nonneg; split; lia|]. destruct (decide (Z.lxor x y = 0)) as [->|Hz]; [lia|].
  assert (0 <= Z.lxor x y) by (apply Z.lxor_nonneg; split; lia). apply Z.log2_lt_pow2; [lia|].
  eapply Z.le_lt_trans; [apply Z.log2_lxor; lia|]. apply Z.max_lub_lt.
  - destruct (decide (x = 0)) as [->|]; [|apply Z.log2_lt_pow2; lia]. change (Z.log2 0) with 0. destruct (decide (n = 0)) as [->|]; [|lia].
    exfalso. apply Hz. assert (y = 0) as -> by lia. done.
  - destruct (decide (y = 0)) as [->|]; [|apply Z.log2_lt_pow2; lia]. change (Z.log2 0) with 0. destruct (decide (n = 0)) as [->|]; [|lia].
    exfalso. apply Hz. assert (x = 0) as -> by lia. done.
Qed.

Lemma shiftr_u32 (x k : Z) : 0 <= k -> u32 x -> u32 (Z.shiftr x k).
Proof.
  intros Hk [H1 H2]. unfold u32. rewrite Z.shiftr_div_pow2 by done. pose proof (Z.pow_pos_nonneg 2 k). split; [apply Z.div_pos; lia|].
  apply Z.div_lt_upper_bound; [lia|]. nia.
Qed.

Lemma crc_round_odd (c : Z) : crc_round c = if Z.odd c then Z.lxor POLY (Z.shiftr c 1) else Z.shiftr c 1.
Proof.
  unfold crc_round. change 1 with (Z.ones 1) at 1. rewrite Z.land_ones by lia. rewrite Zodd_mod. change (2 ^ 1) with 2.
  pose proof (Z.mod_pos_bound c 2). destruct (Z.eqb_spec (c mod 2) 0), (Z.eqb_spec (c mod 2) 1); try done; lia.
Qed.

Lemma crc_round_u32 (c : Z) : u32 c -> u32 (crc_round c).
Proof.
  intros Hc. unfold crc_round. pose proof (shiftr_u32 c 1 ltac:(lia) Hc). destruct (negb _); [|done].
  apply (lxor_u32 32); [lia|unfold POLY; lia|done].
Qed.

Lemma iter_round_u32 (k : nat) (c : Z) : u32 c -> u32 (Nat.iter k crc_round c).
Proof. intros Hc. induction k as [|k IH]; [done|]. by apply crc_round_u32. Qed.

Lemma odd_lxor (x y : Z) : Z.odd (Z.lxor x y) = xorb (Z.odd x) (Z.odd y).
Proof. by rewrite <- !Z.bit0_odd, Z.lxor_spec. Qed.

(** A round is linear, and undoes a shift by one. *)
Lemma crc_round_lxor (x y : Z) : crc_round (Z.lxor x y) = Z.lxor (crc_round x) (crc_round y).
Proof.
  rewrite !crc_round_odd, odd_lxor, Z.shiftr_lxor. destruct (Z.odd x), (Z.odd y); cbn [xorb].
  - by rewrite (Z.lxor_comm POLY (Z.shiftr x 1)), Z.lxor_assoc, <- (Z.lxor_assoc POLY POLY), Z.lxor_nilpotent, Z.lxor_0_l.
  - by rewrite Z.lxor_assoc.
  - by rewrite <- !Z.lxor_assoc, (Z.lxor_comm POLY).
  - done.
Qed.

Lemma iter_round_lxor (k : nat) (x y : Z) :
  Nat.iter k crc_round (Z.lxor x y) = Z.lxor (Nat.iter k crc_round x) (Nat.iter k crc_round y).
Proof. induction k as [|k IH]; [done|]. by rewrite !Nat.iter_succ, IH, crc_round_lxor. Qed.

Lemma crc_round_shiftl (y : Z) : crc_round (Z.shiftl y 1) = y.
Proof.
  rewrite crc_round_odd, <- Z.bit0_odd, Z.shiftl_spec_low by lia. by rewrite Z.shiftr_shiftl_l, Z.shiftl_0_r by lia.
Qed.

Lemma iter_round_shiftl (k : nat) (y : Z) : Nat.iter k crc_round (Z.shiftl y (Z.of_nat k)) = y.
Proof.
  revert y. induction k as [|k IH]; intros y; [apply Z.shiftl_0_r|]. rewrite Nat.iter_succ_r.
  rewrite Nat2Z.inj_succ. unfold Z.succ. rewrite <- Z.shiftl_shiftl by lia. rewrite crc_round_shiftl. apply IH.
Qed.

Lemma split_low (n x : Z) : 0 <= n -> x = Z.lxor (Z.land x (Z.ones n)) (Z.shiftl (Z.shiftr x n) n).
Proof.
  intros Hn. apply Z.bits_inj'. intros i Hi. rewrite Z.lxor_spec, Z.land_spec. destruct (decide (i < n)).
  - rewrite Z.ones_spec_low, Z.shiftl_spec_low by lia. by destruct (Z.testbit x i).
  - rewrite Z.ones_spec_high, Z.shiftl_spec, Z.shiftr_spec by lia. replace (i - n + n) with i by lia. by destruct (Z.testbit x i).
Qed.

Lemma shiftr_small (n b : Z) : 0 <= n -> 0 <= b < 2 ^ n -> Z.shiftr b n = 0.
Proof. intros Hn Hb. rewrite Z.shiftr_div_pow2 by done. by apply Z.div_small. Qed.

Lemma crc_step_rounds (c b : Z) : is_byte b -> crc_step c b = Nat.iter 8 crc_round (Z.lxor c b).
Proof.
  intros Hb. rewrite (split_low 8 (Z.lxor c b)), iter_round_lxor, (iter_round_shiftl 8) by lia. unfold crc_step, TABLE.
  by rewrite Z.shiftr_lxor, (shiftr_small 8 b), Z.lxor_0_r by (unfold is_byte in Hb; lia).
Qed.

Lemma register_bit_round (c : Z) (bit : bool) : register_bit c bit = crc_round (Z.lxor c (Z.b2z bit)).
Proof.
  unfold register_bit. rewrite crc_round_odd, odd_lxor, Z.shiftr_lxor. by destruct bit; rewrite Z.lxor_0_r.
Qed.

(** Shifting the low [k] bits of [b] in is [k] rounds on the sum. *)
Lemma register_bits (k : nat) (c b : Z) : 0 <= b < 2 ^ Z.of_nat k ->
  foldl register_bit c (Z.testbit b <$> (Z.of_nat <$> seq 0 k)) = Nat.iter k crc_round (Z.lxor c b).
Proof.
  revert c b. induction k as [|k IH]; intros c b Hb; [assert (b = 0) as -> by lia; by rewrite Z.lxor_0_r|].
  rewrite Nat.iter_succ_r. cbn [seq fmap list_fmap foldl]. rewrite <- fmap_S_seq.
  replace (Z.testbit b <$> (Z.of_nat <$> (S <$> seq 0 k))) with (Z.testbit (Z.shiftr b 1) <$> (Z.of_nat <$> seq 0 k)).
  2:{ rewrite <- !list_fmap_compose. apply list_fmap_ext. intros i n _. cbn. rewrite Z.shiftr_spec by lia. f_equal; lia. }
  rewrite IH.
  2:{ rewrite Z.shiftr_div_pow2 by lia. split; [apply Z.div_pos; lia|]. apply Z.div_lt_upper_bound; [lia|].
      rewrite Nat2Z.inj_succ, Z.pow_succ_r in Hb by lia. lia. }
  f_equal. rewrite register_bit_round, <- (crc_round_shiftl (Z.shiftr b 1)) at 1.
  rewrite <- crc_round_lxor. f_equal. rewrite Z.lxor_assoc. f_equal. rewrite (split_low 1 b) at 3 by lia.
  f_equal. rewrite Z.land_ones by lia. change (2 ^ 1) with 2. change (Z.of_nat 0) with 0. by rewrite Z.bit0_mod.
Qed.

Lemma crc_round_inj (x y : Z) : u32 x -> u32 y -> crc_round x = crc_round y -> x = y.
Proof.
  intros Hx Hy E. apply Z.lxor_eq. assert (u32 (Z.lxor x y)) as Hz by by apply (lxor_u32 32).
  assert (crc_round (Z.lxor x y) = 0) as E0 by by rewrite crc_round_lxor, E, Z.lxor_nilpotent.
  rewrite crc_round_odd in E0. set (z := Z.lxor x y) in *. clearbody z. unfold u32 in Hz.
  pose proof (Z.div_mod z 2 ltac:(lia)). pose proof (Z.mod_pos_bound z 2 ltac:(lia)). rewrite Zodd_mod in E0.
  rewrite Z.shiftr_div_pow2 in E0 by lia. change (2 ^ 1) with 2 in E0. destruct (Z.eqb_spec (z mod 2) 1) as [Ho|Ho]; [|lia].
  apply Z.lxor_eq in E0. exfalso. unfold POLY in E0. lia.
Qed.

Lemma iter_round_inj (k : nat) (x y : Z) : u32 x -> u32 y -> Nat.iter k crc_round x = Nat.iter k crc_round y -> x = y.
Proof.
  intros Hx Hy. induction k as [|k IH]; [done|]. intros E. apply IH. apply crc_round_inj; [by apply iter_round_u32..|done].
Qed.

Lemma byte_u32 (b : Z) : is_byte b -> u32 b.
Proof. unfold is_byte, u32. lia. Qed.

Lemma crc_step_u32 (c b : Z) : u32 c -> is_byte b -> u32 (crc_step c b).
Proof. intros Hc Hb. rewrite crc_step_rounds by done. apply iter_round_u32, (lxor_u32 32); [lia|done|by apply byte_u32]. Qed.

Lemma fold_u32 (data : list Z) (c : Z) : u32 c -> Forall is_byte data -> u32 (foldl crc_step c data).
Proof. revert c. induction data as [|b l IH]; intros c Hc; [done|]. intros [Hb Hl]%Forall_cons. apply IH; [by apply crc_step_u32|done]. Qed.

Lemma crc32_range (data : list Z) : Forall is_byte data -> 0 <= crc32 data < 2 ^ 32.
Proof. intros H. apply (lxor_u32 32); [lia| |lia]. apply fold_u32; [|done]. unfold u32. lia. Qed.

Lemma lxor_cancel_r (x y z : Z) : Z.lxor x z = Z.lxor y z -> x = y.
Proof. intros E. by rewrite <- (Z.lxor_0_r x), <- (Z.lxor_nilpotent z), <- Z.lxor_assoc, E, Z.lxor_assoc, Z.lxor_nilpotent, Z.lxor_0_r. Qed.

Lemma lxor_cancel_l (x y z : Z) : Z.lxor z x = Z.lxor z y -> x = y.
Proof. rewrite !(Z.lxor_comm z). apply lxor_cancel_r. Qed.

(** What follows a difference cannot hide it. *)
Lemma fold_inj (data : list Z) (c c' : Z) : u32 c -> u32 c' -> Forall is_byte data ->
  foldl crc_step c data = foldl crc_step c' data -> c = c'.
Proof.
  revert c c'. induction data as [|b l IH]; intros c c' Hc Hc' Hd E; [done|]. apply Forall_cons in Hd as [Hb Hl].
  apply IH in E; [|by apply crc_step_u32..|done]. rewrite !crc_step_rounds in E by done.
  apply iter_round_inj, lxor_cancel_r in E; [done|..]; (apply (lxor_u32 32); [lia|done|by apply byte_u32]).
Qed.

End CrcFacts.

(** C30: The table computes the register of the standard: for every message, a byte
    at a time from the table is a bit at a time through the register. *)
Theorem crc32_is_the_register (data : list Z) : Forall is_byte data -> crc32 data = crc32_register data.
Proof.
  intros H. unfold crc32, crc32_register. f_equal. generalize 0xFFFFFFFF as c. induction H as [|b l Hb _ IH]; intros c; [done|].
  cbn [fmap list_fmap concat foldl]. rewrite foldl_app, IH. f_equal. rewrite CrcFacts.crc_step_rounds by done.
  symmetry. by apply (CrcFacts.register_bits 8).
Qed.

(** The check value of the standard, the message "123456789". *)
Example crc32_check_value : crc32 [49; 50; 51; 52; 53; 54; 55; 56; 57] = 0xCBF43926.
Proof. by vm_compute. Qed.

Lemma crc32_is_the_register_witness :
  Forall is_byte [49; 50; 51] /\ crc32 [49; 50; 51] = crc32_register [49; 50; 51].
Proof.
  assert (Forall is_byte [49; 50; 51]) as H by (repeat constructor; unfold is_byte; lia).
  split; [exact H|]. exact (crc32_is_the_register [49; 50; 51] H).
Defined.

Module Burst.

Import CrcFacts.

(** Up to four bytes: rounds on the sum of the register and the word. *)
Lemma fold_word (w : list Z) (c : Z) : Forall is_byte w ->
  foldl crc_step c w = Nat.iter (8 * length w) crc_round (Z.lxor c (from_le_bytes w)).
Proof.
  intros H. revert c. induction H as [|b l Hb Hl IH]; intros c; [by rewrite Z.lxor_0_r|].
  cbn [foldl length from_le_bytes]. rewrite IH, crc_step_rounds by done. replace (8 * S (length l))%nat with (8 * length l + 8)%nat by lia.
  rewrite Nat.iter_add. f_equal. rewrite <- (iter_round_shiftl 8 (from_le_bytes l)) at 1. rewrite <- iter_round_lxor, Z.lxor_assoc.
  do 2 f_equal. rewrite Z.shiftl_mul_pow2 by lia. change (2 ^ Z.of_nat 8) with 256. rewrite Z.mul_comm.
  symmetry. apply Z.add_nocarry_lxor. apply Z.bits_inj'. intros i Hi. rewrite Z.land_spec, Z.bits_0.
  replace (256 * from_le_bytes l) with (Z.shiftl (from_le_bytes l) 8) by (rewrite Z.shiftl_mul_pow2; lia).
  unfold is_byte in Hb. destruct (decide (i < 8)).
  - by rewrite Z.shiftl_spec_low, andb_false_r by lia.
  - rewrite <- (Z.mod_small b (2 ^ 8)) by lia. by rewrite Z.mod_pow2_bits_high by lia.
Qed.

Lemma word_u32 (w : list Z) : Forall is_byte w -> (length w <= 4)%nat -> u32 (from_le_bytes w).
Proof.
  intros Hw Hl. pose proof (from_le_range w Hw) as [? Hlt]. split; [done|]. eapply Z.lt_le_trans; [exact Hlt|].
  change (2 ^ 32) with (256 ^ 4). apply Z.pow_le_mono_r; lia.
Qed.

End Burst.

(** C31: Two messages of one length that differ only within four consecutive bytes
    have different checksums: the damage of such a burst is always seen. *)
Theorem crc32_detects_burst (pre w w' post : list Z) :
  Forall is_byte (pre ++ w ++ post) -> Forall is_byte w' -> length w = length w' -> (length w <= 4)%nat ->
  w <> w' -> crc32 (pre ++ w ++ post) <> crc32 (pre ++ w' ++ post).
Proof.
  intros H Hw' Hlen H4 Hne E. apply Hne. apply Forall_app in H as [Hp [Hw Hq]%Forall_app]. unfold crc32 in E. apply CrcFacts.lxor_cancel_r in E.
  rewrite !foldl_app in E. assert (CrcFacts.u32 (foldl crc_step 0xFFFFFFFF pre)) as Hc by (apply CrcFacts.fold_u32; [unfold CrcFacts.u32; lia|done]).
  revert E Hc. generalize (foldl crc_step 0xFFFFFFFF pre) as c. intros c E Hc. apply CrcFacts.fold_inj in E; [|by apply CrcFacts.fold_u32..|done]. rewrite !Burst.fold_word, <- Hlen in E by done.
  apply CrcFacts.iter_round_inj, CrcFacts.lxor_cancel_l in E.
  - by rewrite <- (to_from_le w), <- (to_from_le w'), Hlen, E by done.
  - apply (CrcFacts.lxor_u32 32); [lia|exact Hc|by apply Burst.word_u32].
  - apply (CrcFacts.lxor_u32 32); [lia|exact Hc|apply Burst.word_u32; [done|lia]].
Qed.

Lemma crc32_detects_burst_witness : crc32 ([7] ++ [1; 2] ++ [9]) <> crc32 ([7] ++ [1; 3] ++ [9]).
Proof.
  apply (crc32_detects_burst [7] [1; 2] [1; 3] [9]); [..|reflexivity| |discriminate].
  1-2: repeat constructor; unfold is_byte; lia. cbn. lia.
Defined.
