(* ===== verification/FsDisk.v ===== *)
(** * The blocks and the device under the file system

    [services/fs/src/main.rs]: the 512-byte block, its fields, and the requests
    the service makes of [block-driver] ([block_read] .. [data_read]).

    The driver and the disk are outside the service, so the device is an image
    of blocks, a list of what reached it since the service started, and an
    oracle ([Env]) for how each request is answered: in full, with garbage that
    looks like a block, or with a failure after some of the blocks of the
    request landed.  A power cut ([Crash]) keeps everything up to the last
    completed flush and, for each block written since, its old content or any
    of the contents written to it; a block is written whole or not at all. *)

From stdpp Require Import functions strings.
From S2P Require Import Prelude Imp Crc.

#[local] Open Scope imp_scope.

(** ** Fields of a byte array: [&b[off..off+n]] and [b[off..off+n].copy_from_slice(v)] *)

Definition slice (off n : nat) (b : list Z) : list Z := take n (drop off b).
Definition put (off : nat) (v b : list Z) : list Z := list_inserts off v b.
Definition byte_at (b : list Z) (i : nat) : Z := default 0 (b !! i).

#[global] Arguments slice : simpl never.
#[global] Arguments put : simpl never.

Definition BLOCK : nat := 512.
Notation Block := (list Z).
Definition zeros (n : nat) : list Z := replicate n 0.
Definition zero_block : Block := zeros BLOCK.

Definition u32_at (b : list Z) (off : nat) : Z := from_le_bytes (slice off 4 b).
Definition u64_at (b : list Z) (off : nat) : Z := from_le_bytes (slice off 8 b).
Definition put_u32 (off : nat) (x : Z) (b : list Z) : list Z := put off (to_le_bytes 4 x) b.
Definition put_u64 (off : nat) (x : Z) (b : list Z) : list Z := put off (to_le_bytes 8 x) b.

#[global] Arguments u32_at : simpl never.
#[global] Arguments u64_at : simpl never.
#[global] Arguments put_u32 : simpl never.
#[global] Arguments put_u64 : simpl never.
#[global] Arguments crc32 : simpl never.

(** A block of the disk: 512 bytes. *)
Definition is_block (b : Block) : Prop := length b = BLOCK /\ Forall is_byte b.

Definition DATA_PAYLOAD : nat := 508.
Definition DATA_CRC_OFF : nat := DATA_PAYLOAD.
Definition WRITE_RUN_MAX : nat := 7.
Definition MAX_SANE_SECTORS : Z := 2 ^ 48.

(** ** The device *)

Inductive BlockFail := Media | Transport.

Inductive ReadAnswer :=
| RGood
| RGarbled (b : Block)
| RFailed (why : BlockFail).

(** A write that failed may still have landed its first [landed] blocks. *)
Inductive WriteAnswer :=
| WGood
| WFailed (why : BlockFail) (landed : nat).

Inductive FlushOutcome := Durable | Refused | NoAnswer | Unreachable.

Record Env := mkEnv {
  e_read : nat -> ReadAnswer;
  e_write : nat -> WriteAnswer;
  e_flush : nat -> FlushOutcome;
  e_capacity : nat -> option Z;
}.

Notation Image := (Z -> Block).

Inductive Ev :=
| EvWrite (lba : Z) (b : Block)
| EvFlush.

Record Dev := mkDev {
  d_env : Env;
  d_img : Image;
  d_evs : list Ev;
  d_reqs : nat;
}.

Definition apply_ev (img : Image) (e : Ev) : Image :=
  match e with EvWrite lba b => <[lba := b]> img | EvFlush => img end.
Definition apply_evs (img : Image) (evs : list Ev) : Image := foldl apply_ev img evs.

Definition dev_emit (evs : list Ev) (d : Dev) : Dev :=
  mkDev (d_env d) (apply_evs (d_img d) evs) (d_evs d ++ evs) (S (d_reqs d)).

(** What a power cut after [evs] can leave of a disk that was [img], and what one
    at any moment of [evs] can. *)
Definition Survives (img : Image) (evs : list Ev) (img' : Image) : Prop :=
  exists synced pend, evs = synced ++ pend /\ EvFlush ∉ pend /\
    forall lba, img' lba = apply_evs img synced lba \/ EvWrite lba (img' lba) ∈ pend.

Definition Crash (img : Image) (evs : list Ev) (img' : Image) : Prop :=
  exists done, done `prefix_of` evs /\ Survives img done img'.

(** ** Requests to [block-driver] *)

Definition run_evs (lba : Z) (blocks : list Block) : list Ev :=
  imap (fun i b => EvWrite (lba + Z.of_nat i) b) blocks.

Definition block_read_kind (lba : Z) : Imp Dev (option Block * option BlockFail) := fun d =>
  (dev_emit [] d,
   match e_read (d_env d) (d_reqs d) with
   | RGood => (Some (d_img d lba), None)
   | RGarbled b => (Some b, None)
   | RFailed why => (None, Some why)
   end).

Definition block_read (lba : Z) : Imp Dev (option Block) := r <- block_read_kind lba ;; iret r.1.

(** A request of one or more consecutive blocks. *)
Definition write_request (lba : Z) (blocks : list Block) : Imp Dev (bool * option BlockFail) := fun d =>
  match e_write (d_env d) (d_reqs d) with
  | WGood => (dev_emit (run_evs lba blocks) d, (true, None))
  | WFailed why landed => (dev_emit (run_evs lba (take landed blocks)) d, (false, Some why))
  end.

Definition block_write_kind (lba : Z) (data : Block) : Imp Dev (bool * option BlockFail) := write_request lba [data].
Definition block_write (lba : Z) (data : Block) : Imp Dev bool := r <- block_write_kind lba data ;; iret r.1.

Definition block_write_zeros (lba count : Z) : Imp Dev bool :=
  r <- write_request lba (replicate (Z.to_nat count) zero_block) ;; iret r.1.

Definition block_write_run (lba : Z) (blocks : list Block) : Imp Dev bool :=
  if (length blocks =? 0)%nat || (WRITE_RUN_MAX <? length blocks)%nat then iret false
  else r <- write_request lba blocks ;; iret r.1.

Definition block_flush_outcome : Imp Dev FlushOutcome := fun d =>
  match e_flush (d_env d) (d_reqs d) with
  | Durable => (dev_emit [EvFlush] d, Durable)
  | o => (dev_emit [] d, o)
  end.

Definition block_flush : Imp Dev bool :=
  o <- block_flush_outcome ;; iret (match o with Durable => true | _ => false end).

Definition block_capacity : Imp Dev (option Z) := fun d =>
  (dev_emit [] d,
   match e_capacity (d_env d) (d_reqs d) with
   | Some sectors => if sectors >? MAX_SANE_SECTORS then None else Some sectors
   | None => None
   end).

(** ** Stamped blocks *)

(** [data_block]: the payload, zero-padded, and its checksum. *)
Definition data_block (payload : list Z) : Block :=
  let n := Nat.min (length payload) DATA_PAYLOAD in
  let blk := put 0 (take n payload) zero_block in
  put_u32 DATA_CRC_OFF (crc32 (take DATA_PAYLOAD blk)) blk.

Definition data_ok (blk : Block) : bool := u32_at blk DATA_CRC_OFF =? crc32 (take DATA_PAYLOAD blk).

Definition data_write (lba : Z) (payload : list Z) : Imp Dev bool := block_write lba (data_block payload).

Definition data_read (lba : Z) : Imp Dev (option Block) :=
  blk <-? block_read lba ;; iret (if data_ok blk then Some blk else None).

(** ** Lemmas on events *)

(** Every write of [evs] is one of [P]. *)
Definition writes_in (P : Z -> Block -> Prop) (evs : list Ev) : Prop :=
  forall lba b, EvWrite lba b ∈ evs -> P lba b.

Lemma apply_evs_app (img : Image) (evs evs' : list Ev) : apply_evs img (evs ++ evs') = apply_evs (apply_evs img evs) evs'.
Proof. apply foldl_app. Qed.

(** A block holds what it held or something written to it. *)
Lemma apply_evs_cases (evs : list Ev) (img : Image) (lba : Z) :
  apply_evs img evs lba = img lba \/ EvWrite lba (apply_evs img evs lba) ∈ evs.
Proof.
  induction evs as [|e evs IH] using rev_ind; [by left|]. rewrite apply_evs_app. destruct e as [l b|]; cbn.
  - destruct (decide (l = lba)) as [->|Hne]; [right; rewrite fn_lookup_insert; set_solver|]. rewrite fn_lookup_insert_ne by done. set_solver.
  - set_solver.
Qed.

Lemma apply_evs_other (evs : list Ev) (img : Image) (P : Z -> Block -> Prop) (lba : Z) :
  writes_in P evs -> (forall b, ~ P lba b) -> apply_evs img evs lba = img lba.
Proof. intros H Hp. destruct (apply_evs_cases evs img lba) as [?|Hw]; [done|]. by destruct (Hp _ (H _ _ Hw)). Qed.

(** A block that is written, always with the same content, holds it. *)
Lemma apply_evs_written (evs : list Ev) (img : Image) (lba : Z) (b : Block) :
  EvWrite lba b ∈ evs -> (forall b', EvWrite lba b' ∈ evs -> b' = b) -> apply_evs img evs lba = b.
Proof.
  induction evs as [|e evs IH] using rev_ind; intros Hin Hall; [by apply not_elem_of_nil in Hin|]. rewrite apply_evs_app.
  destruct e as [l b'|]; cbn.
  - destruct (decide (l = lba)) as [->|Hne]; [rewrite fn_lookup_insert; apply Hall; set_solver|]. rewrite fn_lookup_insert_ne by done.
    apply IH; [set_solver|]. intros b'' H. apply Hall. set_solver.
  - apply IH; [set_solver|]. intros b'' H. apply Hall. set_solver.
Qed.

Lemma apply_evs_ext (evs : list Ev) (img img' : Image) (lba : Z) : img lba = img' lba -> apply_evs img evs lba = apply_evs img' evs lba.
Proof.
  revert img img'. induction evs as [|[l b|] evs IH]; intros img img' H; [done| |by apply IH]. apply IH. cbn.
  destruct (decide (l = lba)) as [->|Hne]; [by rewrite !fn_lookup_insert|by rewrite !fn_lookup_insert_ne].
Qed.

Lemma writes_in_app (P : Z -> Block -> Prop) (evs evs' : list Ev) : writes_in P (evs ++ evs') <-> writes_in P evs /\ writes_in P evs'.
Proof. unfold writes_in. set_solver. Qed.

Lemma writes_in_mono (P Q : Z -> Block -> Prop) (evs : list Ev) : (forall l b, P l b -> Q l b) -> writes_in P evs -> writes_in Q evs.
Proof. unfold writes_in. eauto. Qed.

(** A cut after a flush finds everything before it on the disk. *)
Lemma survives_flush (img : Image) (evs evs' : list Ev) (img' : Image) :
  Survives img (evs ++ EvFlush :: evs') img' -> Survives (apply_evs img evs) evs' img'.
Proof.
  intros (synced & pend & E & Hp & Hi).
  destruct (decide (length synced <= length evs)%nat) as [Hle|Hgt].
  - exfalso. apply Hp. assert (pend = drop (length synced) (evs ++ EvFlush :: evs')) as ->.
    { by rewrite E, drop_app_length. }
    rewrite drop_app_le by done. set_solver.
  - assert (exists k, synced = evs ++ EvFlush :: k /\ evs' = k ++ pend) as (k & -> & ->).
    { pose proof (f_equal (take (length synced)) E) as E1. pose proof (f_equal (drop (length synced)) E) as E2.
      rewrite take_app_length in E1. rewrite drop_app_length in E2. rewrite take_app_ge in E1 by lia. rewrite drop_app_ge in E2 by lia.
      destruct (length synced - length evs)%nat as [|m] eqn:Em; [lia|]. cbn in E1, E2.
      exists (take m evs'). split; [done|]. by rewrite <- E2, take_drop. }
    exists k, pend. split; [done|]. split; [done|]. intros lba. destruct (Hi lba) as [->|?]; [left|by right].
    by rewrite apply_evs_app.
Qed.

(** Before any flush, a block holds what it held or something written to it. *)
Lemma survives_cases (img : Image) (evs : list Ev) (img' : Image) (lba : Z) :
  Survives img evs img' -> img' lba = img lba \/ EvWrite lba (img' lba) ∈ evs.
Proof.
  intros (synced & pend & -> & _ & Hi). destruct (Hi lba) as [E|Hw]; [|set_solver].
  rewrite E. destruct (apply_evs_cases synced img lba) as [?|?]; set_solver.
Qed.

(** ** Lemmas on fields *)

Section Fields.
Implicit Types (b v : list Z) (off n o : nat).

Lemma put_length off v b : length (put off v b) = length b.
Proof. apply length_inserts. Qed.

Lemma put_app off v b : (off + length v <= length b)%nat -> put off v b = take off b ++ v ++ drop (off + length v) b.
Proof.
  intros H. apply list_eq. intros i. unfold put. destruct (decide (i < off)%nat) as [Hi|Hi].
  { rewrite list_lookup_inserts_lt by lia. rewrite lookup_app_l by (rewrite length_take; lia). by rewrite lookup_take_lt. }
  rewrite lookup_app_r by (rewrite length_take; lia). rewrite length_take, Nat.min_l by lia.
  destruct (decide (i < off + length v)%nat) as [Hi'|Hi'].
  - rewrite list_lookup_inserts by lia. by rewrite lookup_app_l by lia.
  - rewrite list_lookup_inserts_ge by lia. rewrite lookup_app_r, lookup_drop by lia. f_equal. lia.
Qed.

Lemma lookup_slice o n b i : slice o n b !! i = if decide (i < n)%nat then b !! (o + i)%nat else None.
Proof. unfold slice. case_decide; [by rewrite lookup_take_lt, lookup_drop by lia|by rewrite lookup_take_ge by lia]. Qed.

Lemma slice_put_disj o n off v b : (o + n <= off \/ off + length v <= o)%nat -> slice o n (put off v b) = slice o n b.
Proof.
  intros H. apply list_eq. intros i. rewrite !lookup_slice. case_decide; [|done]. unfold put.
  destruct H; [apply list_lookup_inserts_lt; lia|apply list_lookup_inserts_ge; lia].
Qed.

(** The bytes of a field from the middle of what was put. *)
Lemma slice_put_in o n off v b : (off + length v <= length b)%nat -> (o + n <= length v)%nat ->
  slice (off + o) n (put off v b) = slice o n v.
Proof.
  intros H1 H2. apply list_eq. intros i. rewrite !lookup_slice. case_decide; [|done]. unfold put.
  rewrite list_lookup_inserts by lia. f_equal. lia.
Qed.

Lemma slice_put_same off n v b : n = length v -> (off + length v <= length b)%nat -> slice off n (put off v b) = v.
Proof.
  intros -> H. rewrite <- (Nat.add_0_r off) at 1. rewrite slice_put_in by lia. unfold slice. by rewrite drop_0, take_ge.
Qed.

Lemma take_slice n b : take n b = slice 0 n b.
Proof. unfold slice. by rewrite drop_0. Qed.

Lemma take_put n off v b : (n <= off)%nat -> take n (put off v b) = take n b.
Proof. intros H. rewrite !take_slice. apply slice_put_disj. lia. Qed.

Lemma put_bytes off v b : Forall is_byte v -> Forall is_byte b -> Forall is_byte (put off v b).
Proof.
  intros Hv Hb. apply Forall_lookup_2. intros i x H. unfold put in H. apply list_lookup_inserts_Some in H as [[_ H]|(_ & _ & H)];
    [by eapply Forall_lookup_1 in H|by eapply (Forall_lookup_1 _ v) in H].
Qed.

Lemma slice_bytes off n b : Forall is_byte b -> Forall is_byte (slice off n b).
Proof. intros H. by apply Forall_take, Forall_drop. Qed.

Lemma u32_at_range b off : Forall is_byte b -> 0 <= u32_at b off < 2 ^ 32.
Proof.
  intros H. unfold u32_at. pose proof (from_le_range _ (slice_bytes off 4 b H)) as [? Hlt]. split; [done|].
  eapply Z.lt_le_trans; [exact Hlt|]. change (2 ^ 32) with (256 ^ 4). apply Z.pow_le_mono_r; [lia|].
  unfold slice. rewrite length_take. lia.
Qed.

Lemma u64_at_range b off : Forall is_byte b -> 0 <= u64_at b off < 2 ^ 64.
Proof.
  intros H. unfold u64_at. pose proof (from_le_range _ (slice_bytes off 8 b H)) as [? Hlt]. split; [done|].
  eapply Z.lt_le_trans; [exact Hlt|]. change (2 ^ 64) with (256 ^ 8). apply Z.pow_le_mono_r; [lia|].
  unfold slice. rewrite length_take. lia.
Qed.

Lemma u32_put_same off x b : 0 <= x < 2 ^ 32 -> (off + 4 <= length b)%nat -> u32_at (put_u32 off x b) off = x.
Proof. intros Hx H. unfold u32_at, put_u32. rewrite slice_put_same by (rewrite ?to_le_length; done). by apply from_to_le. Qed.

Lemma u64_put_same off x b : 0 <= x < 2 ^ 64 -> (off + 8 <= length b)%nat -> u64_at (put_u64 off x b) off = x.
Proof. intros Hx H. unfold u64_at, put_u64. rewrite slice_put_same by (rewrite ?to_le_length; done). by apply from_to_le. Qed.

Lemma u32_put_disj o off v b : (o + 4 <= off \/ off + length v <= o)%nat ->
  u32_at (put off v b) o = u32_at b o.
Proof. intros H. unfold u32_at. by rewrite slice_put_disj. Qed.

Lemma u64_put_disj o off v b : (o + 8 <= off \/ off + length v <= o)%nat ->
  u64_at (put off v b) o = u64_at b o.
Proof. intros H. unfold u64_at. by rewrite slice_put_disj. Qed.

Lemma u32_put_u32_disj o off x b : (o + 4 <= off \/ off + 4 <= o)%nat ->
  u32_at (put_u32 off x b) o = u32_at b o.
Proof. intros H. apply u32_put_disj. by rewrite to_le_length. Qed.

Lemma u64_put_u32_disj o off x b : (o + 8 <= off \/ off + 4 <= o)%nat ->
  u64_at (put_u32 off x b) o = u64_at b o.
Proof. intros H. apply u64_put_disj. by rewrite to_le_length. Qed.

Lemma u32_put_u64_disj o off x b : (o + 4 <= off \/ off + 8 <= o)%nat ->
  u32_at (put_u64 off x b) o = u32_at b o.
Proof. intros H. apply u32_put_disj. by rewrite to_le_length. Qed.

Lemma u64_put_u64_disj o off x b : (o + 8 <= off \/ off + 8 <= o)%nat ->
  u64_at (put_u64 off x b) o = u64_at b o.
Proof. intros H. apply u64_put_disj. by rewrite to_le_length. Qed.

Lemma take_put_u32 n off x b : (n <= off)%nat -> take n (put_u32 off x b) = take n b.
Proof. apply take_put. Qed.

Lemma byte_at_slice b i : byte_at b i = default 0 (head (slice i 1 b)).
Proof. unfold byte_at, slice. rewrite <- (Nat.add_0_r i) at 1. rewrite <- lookup_drop. by destruct (drop i b). Qed.

Lemma byte_at_put_disj i off v b : (i < off \/ off + length v <= i)%nat -> byte_at (put off v b) i = byte_at b i.
Proof. intros H. rewrite !byte_at_slice, slice_put_disj; [done|lia]. Qed.

Lemma byte_at_put_same i x b : (i < length b)%nat -> byte_at (put i [x] b) i = x.
Proof. intros H. rewrite byte_at_slice, slice_put_same; [done|done|cbn; lia]. Qed.

Lemma byte_at_range b i : Forall is_byte b -> is_byte (byte_at b i).
Proof. intros H. unfold byte_at. destruct (b !! i) as [x|] eqn:E; [by eapply Forall_lookup_1 in E|]. unfold is_byte. cbn. lia. Qed.

Lemma zeros_length n : length (zeros n) = n.
Proof. apply length_replicate. Qed.

Lemma zeros_bytes n : Forall is_byte (zeros n).
Proof. apply Forall_replicate. unfold is_byte. lia. Qed.

Lemma zero_is_block : is_block zero_block.
Proof. split; [apply zeros_length|apply zeros_bytes]. Qed.

Lemma put_is_block off v b : is_block b -> Forall is_byte v -> is_block (put off v b).
Proof. intros [H1 H2] Hv. split; [by rewrite put_length|by apply put_bytes]. Qed.

Lemma put_u32_is_block off x b : is_block b -> is_block (put_u32 off x b).
Proof. intros H. apply put_is_block; [done|apply to_le_bytes_range]. Qed.

Lemma put_u64_is_block off x b : is_block b -> is_block (put_u64 off x b).
Proof. intros H. apply put_is_block; [done|apply to_le_bytes_range]. Qed.

Lemma put_u32_length off x b : length (put_u32 off x b) = length b.
Proof. apply put_length. Qed.

Lemma put_u64_length off x b : length (put_u64 off x b) = length b.
Proof. apply put_length. Qed.

End Fields.

#[global] Hint Rewrite put_length put_u32_length put_u64_length zeros_length to_le_length : blk.

(** Lengths of stamped blocks. *)
Ltac blk_len := unfold zero_block; autorewrite with blk; try (unfold DATA_CRC_OFF in *; unfold BLOCK, DATA_PAYLOAD in *; lia).

Lemma data_block_shape (payload : list Z) : (length payload <= DATA_PAYLOAD)%nat ->
  data_block payload = let body := payload ++ zeros (DATA_PAYLOAD - length payload) in body ++ to_le_bytes 4 (crc32 body).
Proof.
  intros H. assert (take DATA_PAYLOAD (put 0 payload zero_block) = payload ++ zeros (DATA_PAYLOAD - length payload)) as E.
  { unfold zero_block. rewrite put_app by blk_len. unfold zeros. rewrite take_0, app_nil_l, drop_replicate, take_app_ge, take_replicate by lia.
    do 2 f_equal. unfold BLOCK, DATA_PAYLOAD in *. lia. }
  unfold data_block. cbv zeta. rewrite Nat.min_l by lia. rewrite (take_ge payload) by lia. rewrite E.
  unfold put_u32. rewrite put_app by blk_len. unfold DATA_CRC_OFF. rewrite E.
  rewrite (drop_ge (put 0 payload zero_block)), app_nil_r by blk_len. done.
Qed.

(** A data block reads back: its checksum holds, and its first bytes are the payload. *)
Lemma data_block_ok (payload : list Z) : (length payload <= DATA_PAYLOAD)%nat -> Forall is_byte payload ->
  data_ok (data_block payload) = true /\ is_block (data_block payload) /\
  forall n, (n <= length payload)%nat -> take n (data_block payload) = take n payload.
Proof.
  intros H Hb. rewrite data_block_shape by done. cbv zeta. set (body := payload ++ _).
  assert (length body = DATA_PAYLOAD) as Hlen by (subst body; rewrite length_app, zeros_length; lia).
  assert (Forall is_byte body) as Hby by (subst body; apply Forall_app; split; [done|apply zeros_bytes]).
  split_and!.
  - unfold data_ok, u32_at, slice. rewrite drop_app_length', take_ge, take_app_length' by (rewrite ?to_le_length; done).
    rewrite from_to_le; [apply Z.eqb_refl|]. by apply CrcFacts.crc32_range.
  - split; [by rewrite length_app, to_le_length, Hlen|]. apply Forall_app; split; [done|apply to_le_bytes_range].
  - intros n Hn. rewrite take_app_le by (rewrite Hlen; lia). subst body. by rewrite take_app_le.
Qed.
