(* ===== verification/FsJournal.v ===== *)
(** * The state of the file system service and its journal

    [services/fs/src/main.rs]: the [Fs] of a mounted volume, the staged
    transaction ([tb_read], [tb_write], [begin_txn], [abort_txn], [end_txn]),
    the commit through the on-disk journal ([commit_txn]) and its replay at
    mount ([recover]).  Counters of the trace and once-only log flags are left out; the
    test-only crash hooks are off in every shipped build. *)

From stdpp Require Import functions strings.
From S2P Require Import Prelude Imp Crc FsDisk.

#[local] Open Scope imp_scope.

Definition TXN_CAP : nat := 56.
Definition JOURNAL_MAGIC : Z := 0x474A3034.
Definition COMMIT_CRC_OFF : nat := 508.
Definition LABEL_MAX : nat := 31.

(** ** The mounted volume *)

Record Loc := mkLoc { l_block : Z; l_slot : nat }.

Record Entry := mkEntry {
  itype : Z;
  sealed : bool;
  size : Z;
  first_block : Z;
  block_count : Z;
  loc : option Loc;
}.

(** What is fixed at format. *)
Record Geometry := mkGeometry {
  total_blocks : Z;
  bitmap_start : Z;
  data_start : Z;
  journal_start : Z;
  journal_blocks : Z;
}.

(** What [persist_super] writes. *)
Record SbFields := mkSbFields {
  root_first_block : Z;
  root_block_count : Z;
  free_blocks : Z;
  sb_flags : Z;
  label : list Z;
  feat_compat : Z;
  feat_ro_compat : Z;
  feat_incompat : Z;
}.

#[global] Instance SbFields_eq_dec : EqDecision SbFields.
Proof. solve_decision. Defined.

Record OpenFile := mkOpenFile {
  rid : Z;
  o_path : list Z;
  append_only : bool;
  write_hwm : Z;
}.

Record Txn := mkTxn {
  txn_active : bool;
  txn_overflow : bool;
  txn_blocks : list (Z * Block);
}.

Record Cells := mkCells {
  io_error_seen : bool;
  transport_fail_seen : bool;
  read_damaged : bool;
  io_fail_streak : Z;
}.

Record Fs := mkFs {
  fs_geo : Geometry;
  fs_sb : SbFields;
  read_only : bool;
  quiesced_until : Z;
  fs_cells : Cells;
  clock : Z * Z;
  walk_cache : option (list Z * Entry);
  sb_persisted : option SbFields;
  fs_txn : Txn;
  open_files : list OpenFile;
}.

Definition with_sb (x : SbFields) (f : Fs) : Fs :=
  mkFs (fs_geo f) x (read_only f) (quiesced_until f) (fs_cells f) (clock f) (walk_cache f) (sb_persisted f) (fs_txn f) (open_files f).
Definition with_quiesced (x : Z) (f : Fs) : Fs :=
  mkFs (fs_geo f) (fs_sb f) (read_only f) x (fs_cells f) (clock f) (walk_cache f) (sb_persisted f) (fs_txn f) (open_files f).
Definition with_cells (x : Cells) (f : Fs) : Fs :=
  mkFs (fs_geo f) (fs_sb f) (read_only f) (quiesced_until f) x (clock f) (walk_cache f) (sb_persisted f) (fs_txn f) (open_files f).
Definition with_clock (x : Z * Z) (f : Fs) : Fs :=
  mkFs (fs_geo f) (fs_sb f) (read_only f) (quiesced_until f) (fs_cells f) x (walk_cache f) (sb_persisted f) (fs_txn f) (open_files f).
Definition with_cache (x : option (list Z * Entry)) (f : Fs) : Fs :=
  mkFs (fs_geo f) (fs_sb f) (read_only f) (quiesced_until f) (fs_cells f) (clock f) x (sb_persisted f) (fs_txn f) (open_files f).
Definition with_persisted (x : option SbFields) (f : Fs) : Fs :=
  mkFs (fs_geo f) (fs_sb f) (read_only f) (quiesced_until f) (fs_cells f) (clock f) (walk_cache f) x (fs_txn f) (open_files f).
Definition with_txn (x : Txn) (f : Fs) : Fs :=
  mkFs (fs_geo f) (fs_sb f) (read_only f) (quiesced_until f) (fs_cells f) (clock f) (walk_cache f) (sb_persisted f) x (open_files f).
Definition with_open (x : list OpenFile) (f : Fs) : Fs :=
  mkFs (fs_geo f) (fs_sb f) (read_only f) (quiesced_until f) (fs_cells f) (clock f) (walk_cache f) (sb_persisted f) (fs_txn f) x.

(** The service: the volume, the device, the monotonic second, and the
    delegated resources it asked the kernel to revoke. *)
Record St := mkSt {
  st_fs : Fs;
  st_dev : Dev;
  st_now : Z;
  st_revoked : list Z;
}.

Definition set_dev (d : Dev) (s : St) : St := mkSt (st_fs s) d (st_now s) (st_revoked s).
Definition fs_mod (f : Fs -> Fs) : Imp St unit := imod (fun s => mkSt (f (st_fs s)) (st_dev s) (st_now s) (st_revoked s)).
Definition fs_get {A} (f : Fs -> A) : Imp St A := iget (fun s => f (st_fs s)).
Definition on_dev {A} (m : Imp Dev A) : Imp St A := zoom st_dev set_dev m.

Notation Fallible A := (result A string).

(** [note_block_fail], and the same match in [tb_read] and [tb_write]. *)
Definition mark_fail (why : option BlockFail) (c : Cells) : Cells :=
  match why with
  | Some Transport => mkCells (io_error_seen c) true (read_damaged c) (io_fail_streak c)
  | _ => mkCells true (transport_fail_seen c) (read_damaged c) (io_fail_streak c)
  end.
Definition note_block_fail (why : option BlockFail) : Imp St unit :=
  fs_mod (fun f => with_cells (mark_fail why (fs_cells f)) f).

(** ** The staged transaction *)

(** The staged version of a block; the source looks from the last one back, and
    a block is staged once. *)
Definition staged (lba : Z) (l : list (Z * Block)) : option Block :=
  snd <$> last (filter (fun p => p.1 = lba) l).

Definition stage (lba : Z) (data : Block) (l : list (Z * Block)) : option (list (Z * Block)) :=
  match list_find (fun p => p.1 = lba) l with
  | Some (i, _) => Some (<[i := (lba, data)]> l)
  | None => if (TXN_CAP <=? length l)%nat then None else Some (l ++ [(lba, data)])
  end.

#[global] Arguments staged : simpl never.
#[global] Arguments stage : simpl never.

Definition tb_read (lba : Z) : Imp St (option Block) :=
  t <- fs_get fs_txn ;;
  match (if txn_active t then staged lba (txn_blocks t) else None) with
  | Some b => iret (Some b)
  | None =>
      '(b, why) <- on_dev (block_read_kind lba) ;;
      match b with
      | Some b => iret (Some b)
      | None => note_block_fail why ;;; iret None
      end
  end.

Definition tb_write (lba : Z) (data : Block) : Imp St bool :=
  fs_mod (with_cache None) ;;;
  t <- fs_get fs_txn ;;
  if txn_active t then
    match stage lba data (txn_blocks t) with
    | Some l => fs_mod (with_txn (mkTxn true (txn_overflow t) l)) ;;; iret true
    | None => fs_mod (with_txn (mkTxn true true (txn_blocks t))) ;;; iret false
    end
  else
    '(ok, why) <- on_dev (block_write_kind lba data) ;;
    (if ok : bool then iret tt else note_block_fail why) ;;; iret ok.

Definition durable_or_warn : Imp St bool :=
  o <- on_dev block_flush_outcome ;; iret (match o with Durable => true | _ => false end).

Definition begin_txn : Imp St unit := fs_mod (fun f => with_cache None (with_txn (mkTxn true false []) f)).
Definition abort_txn : Imp St unit := fs_mod (fun f => with_cache None (with_txn (mkTxn false false []) f)).

(** ** The commit record *)

(** The checksums of the staged blocks, side by side ([per]), and theirs. *)
Definition payload_crcs (blks : list Block) : list Z := concat (to_le_bytes 4 ∘ crc32 <$> blks).

Definition commit_record (txn : list (Z * Block)) : Block :=
  let n := length txn in
  let commit := put_u32 4 (Z.of_nat n) (put_u32 0 JOURNAL_MAGIC zero_block) in
  let commit := put 8 (concat (to_le_bytes 8 ∘ fst <$> txn)) commit in
  let commit := put_u32 (8 + n * 8) (crc32 (payload_crcs (snd <$> txn))) commit in
  put_u32 COMMIT_CRC_OFF (crc32 (take (12 + n * 8) commit)) commit.

#[global] Arguments commit_record : simpl never.

(** [block_write_kind] with its failure noted: the shape of each write of [commit_txn]. *)
Definition journal_write (lba : Z) (data : Block) (e : string) : Imp St (Fallible unit) :=
  '(ok, why) <- on_dev (block_write_kind lba data) ;;
  if ok : bool then iret (Ok tt) else note_block_fail why ;;; iret (Err e).

Definition commit_txn : Imp St (Fallible unit) :=
  t <- fs_get fs_txn ;;
  if txn_overflow t then abort_txn ;;; iret (Err "transaction too large to commit atomically") else
  let txn := txn_blocks t in
  fs_mod (with_txn (mkTxn false (txn_overflow t) txn)) ;;;
  if (length txn =? 0)%nat then iret (Ok tt) else
  js <- fs_get (journal_start ∘ fs_geo) ;;
  for_ok (imap pair txn) (fun '(i, (_, b)) => journal_write (js + 1 + Z.of_nat i) b "journal data write failed") ;;!
  durable_or_warn ;;;
  journal_write js (commit_record txn) "journal commit write failed" ;;!
  durable_or_warn ;;;
  for_ok txn (fun '(lba, b) => journal_write lba b "checkpoint write failed (will replay on next mount)") ;;!
  durable <- durable_or_warn ;;
  if durable : bool then on_dev (block_write js zero_block) ;;; iret (Ok tt) else iret (Ok tt).

Definition end_txn (res : Fallible unit) : Imp St (Fallible unit) :=
  match res with
  | Ok _ => commit_txn
  | Err e => abort_txn ;;; iret (Err e)
  end.

(** ** Replay at mount *)

(** The checks on the record itself: what it claims to hold, if it is believed. *)
Definition record_lbas (commit : Block) : option (list Z) :=
  let n := u32_at commit 4 in
  if negb (u32_at commit 0 =? JOURNAL_MAGIC) then None
  else if (n =? 0) || (n >? Z.of_nat TXN_CAP) || (12 + n * 8 >? Z.of_nat COMMIT_CRC_OFF) then None
  else if negb (crc32 (take (12 + Z.to_nat n * 8) commit) =? u32_at commit COMMIT_CRC_OFF) then None
  else Some ((fun i => u64_at commit (8 + i * 8)) <$> seq 0 (Z.to_nat n)).

(** Pass 1: read every staged block for its checksum; [None] when one cannot be read. *)
Fixpoint read_payload (js : Z) (idxs : list nat) : Imp Dev (option (list Z)) :=
  match idxs with
  | [] => iret (Some [])
  | i :: idxs =>
      blk <-? block_read (js + 1 + Z.of_nat i) ;;
      cs <-? read_payload js idxs ;;
      iret (Some (crc32 blk :: cs))
  end.

(** Pass 2: [None] when a block changed since pass 1, otherwise whether every block landed. *)
Fixpoint replay (js : Z) (l : list (nat * (Z * Z))) : Imp Dev (option bool) :=
  match l with
  | [] => iret (Some true)
  | (i, (lba, c)) :: l =>
      b <- block_read (js + 1 + Z.of_nat i) ;;
      match b with
      | Some blk =>
          if negb (crc32 blk =? c) then iret None
          else ok <- block_write lba blk ;; r <-? replay js l ;; iret (Some (ok && r))
      | None => r <-? replay js l ;; iret (Some false)
      end
  end.

Definition recover (js : Z) : Imp Dev unit :=
  c <- block_read js ;;
  match c with
  | None => iret tt
  | Some commit =>
      match record_lbas commit with
      | None => iret tt
      | Some lbas =>
          per <- read_payload js (seq 0 (length lbas)) ;;
          match per with
          | None => iret tt
          | Some per =>
              if negb (crc32 (concat (to_le_bytes 4 <$> per)) =? u32_at commit (8 + length lbas * 8)) then iret tt else
              ok <- replay js (imap pair (zip lbas per)) ;;
              match ok with
              | Some true => block_write js zero_block ;;; iret tt
              | _ => iret tt
              end
          end
      end
  end.
