(* ===== verification/FsCrash.v ===== *)
(** * The journal survives power cuts

    The commit of a transaction ([FsJournal.commit_txn]) cut at any moment,
    followed by the replay at the next mount ([FsJournal.recover]), leaves all
    of the transaction or none of it. *)

From stdpp Require Import functions strings.
From S2P Require Import Prelude Imp Crc FsDisk FsJournal.

#[local] Open Scope imp_scope.

Definition JOURNAL_BLOCKS : Z := 64.
Definition in_journal (js lba : Z) : Prop := js <= lba < js + JOURNAL_BLOCKS.

(** ** The record *)

(** A transaction that can be committed: distinct home blocks outside the journal. *)
Record txn_ok (js : Z) (txn : list (Z * Block)) : Prop := {
  txn_nonempty : txn <> [];
  txn_fits : (length txn <= TXN_CAP)%nat;
  txn_nodup : NoDup txn.*1;
  txn_homes : Forall (fun p => 0 <= p.1 < 2 ^ 64 /\ ~ in_journal js p.1 /\ is_block p.2) txn;
}.

Section Record_.

Lemma concat_le_length (k : nat) (l : list Z) : length (concat (to_le_bytes k <$> l)) = (length l * k)%nat.
Proof. induction l as [|x l IH]; [done|]. cbn [fmap list_fmap concat length]. rewrite length_app, to_le_length, IH. lia. Qed.

Lemma concat_le_bytes (k : nat) (l : list Z) : Forall is_byte (concat (to_le_bytes k <$> l)).
Proof. induction l as [|x l IH]; [constructor|]. cbn [fmap list_fmap concat]. apply Forall_app; split; [apply to_le_bytes_range|done]. Qed.

(** The [i]-th of a row of integers. *)
Lemma concat_le_slice (k : nat) (l : list Z) (i : nat) (x : Z) : l !! i = Some x ->
  slice (i * k) k (concat (to_le_bytes k <$> l)) = to_le_bytes k x.
Proof.
  revert i. induction l as [|y l IH]; intros [|i] H; simplify_eq/=.
  - unfold slice. rewrite drop_0, take_app_length' by by rewrite to_le_length. done.
  - rewrite <- (IH i H). unfold slice. rewrite drop_app_ge by (rewrite to_le_length; lia). rewrite to_le_length. do 2 f_equal. lia.
Qed.

Context (js : Z) (txn : list (Z * Block)) (Hok : txn_ok js txn).

Let n := length txn.

Lemma txn_n : (0 < n <= TXN_CAP)%nat.
Proof. destruct Hok as [Hne Hf _ _]. subst n. destruct txn; [done|]. cbn in *. lia. Qed.

Definition lba_table (t : list (Z * Block)) : list Z := concat (to_le_bytes 8 <$> t.*1).

Lemma lba_table_length : length (lba_table txn) = (n * 8)%nat.
Proof. unfold lba_table. by rewrite concat_le_length, length_fmap. Qed.

Definition record_body (t : list (Z * Block)) : Block :=
  put_u32 (8 + length t * 8) (crc32 (payload_crcs (snd <$> t)))
    (put 8 (lba_table t) (put_u32 4 (Z.of_nat (length t)) (put_u32 0 JOURNAL_MAGIC zero_block))).

Lemma commit_record_body (t : list (Z * Block)) :
  commit_record t = put_u32 COMMIT_CRC_OFF (crc32 (take (12 + length t * 8) (record_body t))) (record_body t).
Proof. unfold commit_record, record_body, lba_table. by rewrite <- list_fmap_compose. Qed.

Lemma record_body_block : is_block (record_body txn).
Proof.
  apply put_u32_is_block, put_is_block; [|apply concat_le_bytes]. do 2 apply put_u32_is_block. apply zero_is_block.
Qed.

Lemma commit_record_block : is_block (commit_record txn).
Proof. rewrite commit_record_body. apply put_u32_is_block, record_body_block. Qed.

Lemma record_body_fields :
  u32_at (record_body txn) 0 = JOURNAL_MAGIC /\ u32_at (record_body txn) 4 = Z.of_nat n /\
  u32_at (record_body txn) (8 + n * 8) = crc32 (payload_crcs (snd <$> txn)) /\
  forall i lba, txn.*1 !! i = Some lba -> u64_at (record_body txn) (8 + i * 8) = lba.
Proof.
  pose proof txn_n as Hn. unfold TXN_CAP in Hn. pose proof lba_table_length as Ht. unfold record_body. fold n.
  set (b0 := put_u32 4 _ _). assert (length b0 = BLOCK) as H0 by by blk_len.
  set (b1 := put 8 _ b0). assert (length b1 = BLOCK) as H1 by (subst b1; by rewrite put_length).
  unfold BLOCK in *. split_and!.
  - rewrite u32_put_u32_disj by lia. subst b1. rewrite u32_put_disj by lia. subst b0. rewrite u32_put_u32_disj by blk_len.
    rewrite u32_put_same; [done|done|blk_len].
  - rewrite u32_put_u32_disj by lia. subst b1. rewrite u32_put_disj by lia. subst b0. rewrite u32_put_same; [done|lia|blk_len].
  - rewrite u32_put_same; [done| |lia]. apply CrcFacts.crc32_range. unfold payload_crcs.
    rewrite list_fmap_compose. apply concat_le_bytes.
  - intros i lba Hi. assert (i < n)%nat as Hin by (apply lookup_lt_Some in Hi; by rewrite length_fmap in Hi).
    rewrite u64_put_u32_disj by lia. subst b1. unfold u64_at. rewrite slice_put_in by lia. unfold lba_table.
    erewrite concat_le_slice by exact Hi. apply from_to_le. destruct Hok as [_ _ _ Hh].
    apply list_lookup_fmap_Some in Hi as (p & -> & Hp). by apply (Forall_lookup_1 _ _ _ _ Hh) in Hp as [? _].
Qed.

(** The record of a transaction is believed, and says where its blocks go and what their checksum is. *)
Lemma record_lbas_commit : record_lbas (commit_record txn) = Some txn.*1.
Proof.
  pose proof txn_n as Hn. unfold TXN_CAP in Hn. destruct record_body_block as [Hl Hb]. destruct record_body_fields as (F0 & F4 & _ & Fl).
  unfold BLOCK in Hl. unfold record_lbas. rewrite commit_record_body. fold n. unfold COMMIT_CRC_OFF.
  rewrite !(u32_put_u32_disj _ 508) by lia. rewrite F0, F4, Nat2Z.id, take_put_u32 by lia. cbv zeta.
  rewrite u32_put_same; [|apply CrcFacts.crc32_range; by apply Forall_take|lia]. rewrite !Z.eqb_refl. cbn [negb].
  destruct (Z.eqb_spec (Z.of_nat n) 0); [lia|]. rewrite !Z.gtb_ltb.
  destruct (Z.ltb_spec (Z.of_nat TXN_CAP) (Z.of_nat n)); [unfold TXN_CAP in *; lia|].
  destruct (Z.ltb_spec (Z.of_nat 508) (12 + Z.of_nat n * 8)); [lia|]. cbn [orb]. f_equal.
  apply list_eq. intros i. rewrite list_lookup_fmap. destruct (decide (i < n)%nat) as [Hi|Hi].
  - rewrite lookup_seq_lt by done. cbn [fmap option_fmap option_map]. destruct (lookup_lt_is_Some_2 txn.*1 i) as [lba E]; [by rewrite length_fmap|].
    rewrite E. f_equal. change (0 + i)%nat with i. rewrite u64_put_u32_disj by lia. by apply Fl.
  - rewrite lookup_seq_ge by lia. symmetry. apply lookup_ge_None_2. rewrite length_fmap. lia.
Qed.

Lemma record_crc_commit : u32_at (commit_record txn) (8 + n * 8) = crc32 (payload_crcs (snd <$> txn)).
Proof.
  pose proof txn_n as Hn. unfold TXN_CAP in Hn. destruct record_body_block as [Hl Hb]. destruct record_body_fields as (_ & _ & F & _).
  unfold BLOCK in Hl. rewrite commit_record_body. unfold COMMIT_CRC_OFF. by rewrite u32_put_u32_disj by lia.
Qed.

End Record_.

(** ** What a commit sends to the disk *)

Definition home_evs (txn : list (Z * Block)) : list Ev := (fun p => EvWrite p.1 p.2) <$> txn.
Definition slots (js : Z) (txn : list (Z * Block)) : list (Z * Block) := imap (fun i p => (js + 1 + Z.of_nat i, p.2)) txn.
Definition stage_evs (js : Z) (txn : list (Z * Block)) : list Ev := home_evs (slots js txn).

Definition journal_evs (js : Z) (txn : list (Z * Block)) : list Ev :=
  stage_evs js txn ++ [EvFlush; EvWrite js (commit_record txn); EvFlush] ++ home_evs txn ++ [EvFlush; EvWrite js zero_block].

(** The disk flushes when asked.  Writes may fail. *)
Definition honest (e : Env) : Prop := forall k, e_flush e k = Durable.

(** From [s] to [s'] the device carried out [evs]. *)
Definition emitted (d d' : Dev) (evs : list Ev) : Prop :=
  d_env d' = d_env d /\ d_evs d' = d_evs d ++ evs /\ d_img d' = apply_evs (d_img d) evs.

Lemma emitted_trans (d1 d2 d3 : Dev) (e1 e2 : list Ev) : emitted d1 d2 e1 -> emitted d2 d3 e2 -> emitted d1 d3 (e1 ++ e2).
Proof.
  intros (A1 & A2 & A3) (B1 & B2 & B3). split_and!; [by rewrite B1, A1|by rewrite B2, A2, app_assoc|by rewrite B3, A3, apply_evs_app].
Qed.

Lemma emitted_refl (d : Dev) : emitted d d [].
Proof. split_and!; [done|by rewrite app_nil_r|done]. Qed.

Lemma emit_emitted (d : Dev) (evs : list Ev) : emitted d (dev_emit evs d) evs.
Proof. done. Qed.

Lemma write_request_emits (lba : Z) (b : Block) (d : Dev) :
  post (block_write_kind lba b) d (fun d' r => exists evs, emitted d d' evs /\ evs `prefix_of` [EvWrite lba b] /\ (r.1 = true -> evs = [EvWrite lba b])).
Proof.
  unfold post, block_write_kind, write_request. destruct (e_write _ _) as [|why [|k]]; cbn.
  - exists [EvWrite lba b]. rewrite Z.add_0_r. done.
  - exists []. split; [done|]. split; [apply prefix_nil|done].
  - exists [EvWrite lba b]. rewrite take_nil. cbn. rewrite Z.add_0_r. done.
Qed.

Lemma post_on_dev {A} (m : Imp Dev A) (s : St) (Q : St -> A -> Prop) :
  post m (st_dev s) (fun d a => Q (set_dev d s) a) -> post (on_dev m) s Q.
Proof. unfold post, on_dev, zoom. by destruct (m (st_dev s)). Qed.

Lemma journal_write_emits (lba : Z) (b : Block) (e : string) (s : St) :
  post (journal_write lba b e) s (fun s' r => fs_geo (st_fs s') = fs_geo (st_fs s) /\
    exists evs, emitted (st_dev s) (st_dev s') evs /\ evs `prefix_of` [EvWrite lba b] /\ (r = Ok tt -> evs = [EvWrite lba b])).
Proof.
  unfold journal_write. apply post_bind, post_on_dev. eapply post_mono; [apply write_request_emits|].
  intros d [[] why] (evs & He & Hp & Hok); [apply post_ret|apply post_bind, post_mod, post_ret]; (split; [done|]); exists evs; by auto.
Qed.

Lemma for_writes_emit {X} (l : list X) (w : X -> Z * Block) (e : string) (s : St) :
  post (for_ok l (fun x => journal_write (w x).1 (w x).2 e)) s (fun s' r => fs_geo (st_fs s') = fs_geo (st_fs s) /\
    exists evs, emitted (st_dev s) (st_dev s') evs /\ evs `prefix_of` home_evs (w <$> l) /\ (r = Ok tt -> evs = home_evs (w <$> l))).
Proof.
  revert s. induction l as [|x l IH]; intros s.
  - apply post_ret. split; [done|]. exists []. split; [apply emitted_refl|done].
  - apply post_bind_ok. eapply post_mono; [apply journal_write_emits|]. intros s' [[]|e'] (Hg & evs & He & Hp & Hok).
    + eapply post_mono; [apply IH|]. intros s'' r (Hg' & evs' & He' & Hp' & Hok'). split; [congruence|].
      rewrite (Hok eq_refl) in He. exists ([EvWrite (w x).1 (w x).2] ++ evs'). split; [by eapply emitted_trans|].
      split; [by apply prefix_cons|]. intros Hr. by rewrite (Hok' Hr).
    + split; [done|]. exists evs. split; [done|]. split; [|done]. by apply (prefix_app_r _ _ (home_evs (w <$> l))) in Hp.
Qed.

Lemma flush_emits (s : St) : honest (d_env (st_dev s)) ->
  post durable_or_warn s (fun s' r => r = true /\ fs_geo (st_fs s') = fs_geo (st_fs s) /\ emitted (st_dev s) (st_dev s') [EvFlush]).
Proof.
  intros H. unfold durable_or_warn. apply post_bind, post_on_dev. unfold post, block_flush_outcome. rewrite H. done.
Qed.

Definition slot_of (js : Z) (x : nat * (Z * Block)) : Z * Block := (js + 1 + Z.of_nat x.1, x.2.2).

Lemma slots_imap (js : Z) (txn : list (Z * Block)) : slot_of js <$> imap pair txn = slots js txn.
Proof. unfold slots. rewrite fmap_imap. done. Qed.

(** Cut short by a failed write or not, a commit sends a prefix of the journal
    protocol; it answers [Ok] only when the blocks are home and flushed. *)
Lemma commit_emits (s : St) (txn : list (Z * Block)) (js : Z) :
  honest (d_env (st_dev s)) -> js = journal_start (fs_geo (st_fs s)) -> txn_overflow (fs_txn (st_fs s)) = false ->
  txn = txn_blocks (fs_txn (st_fs s)) -> txn <> [] ->
  post commit_txn s (fun s' r => exists evs, emitted (st_dev s) (st_dev s') evs /\ evs `prefix_of` journal_evs js txn /\
    (r = Ok tt -> exists last, last `prefix_of` [EvWrite js zero_block] /\
       evs = stage_evs js txn ++ [EvFlush; EvWrite js (commit_record txn); EvFlush] ++ home_evs txn ++ [EvFlush] ++ last)).
Proof.
  intros Hh Hj Hov Htxn Hne. unfold commit_txn. apply post_bind, post_get. rewrite Hov, <- Htxn. apply post_bind, post_mod.
  destruct (Nat.eqb_spec (length txn) 0) as [H0|_]; [by apply nil_length_inv in H0|]. apply post_bind, post_get. cbn. rewrite <- Hj.
  apply post_bind_ok. rewrite (for_ok_ext _ _ (fun x => journal_write (slot_of js x).1 (slot_of js x).2 "journal data write failed")) by by intros [i [l b]].
  eapply post_mono; [apply for_writes_emit|]. rewrite slots_imap. cbn. intros s1 r1 (Hg1 & e1 & He1 & Hp1 & Hok1).
  destruct r1 as [[]|?]; [|exists e1; split; [done|]; split; [by apply prefix_app_r|done]]. rewrite (Hok1 eq_refl) in He1. clear e1 Hp1 Hok1.
  apply post_bind. eapply post_mono; [apply flush_emits; by rewrite (proj1 He1)|]. intros s2 r2 (_ & Hg2 & He2).
  apply post_bind_ok. eapply post_mono; [apply journal_write_emits|]. intros s3 r3 (Hg3 & e3 & He3 & Hp3 & Hok3).
  pose proof (emitted_trans _ _ _ _ _ He1 (emitted_trans _ _ _ _ _ He2 He3)) as He123.
  destruct r3 as [[]|?]; [|exists (stage_evs js txn ++ EvFlush :: e3); split; [done|]; split; [|done]].
  2:{ unfold journal_evs. apply prefix_app. apply prefix_cons. exact (prefix_app_r _ _ (EvFlush :: home_evs txn ++ [EvFlush; EvWrite js zero_block]) Hp3). }
  rewrite (Hok3 eq_refl) in He123. clear He2 He3 Hp3 Hok3.
  apply post_bind. eapply post_mono; [apply flush_emits; by rewrite (proj1 He123)|]. intros s4 r4 (_ & Hg4 & He4).
  apply post_bind_ok. rewrite (for_ok_ext _ _ (fun x => journal_write x.1 x.2 "checkpoint write failed (will replay on next mount)")) by by intros [l b].
  eapply post_mono; [apply (for_writes_emit txn (fun x => x))|]. rewrite list_fmap_id. intros s5 r5 (Hg5 & e5 & He5 & Hp5 & Hok5).
  pose proof (emitted_trans _ _ _ _ _ He123 (emitted_trans _ _ _ _ _ He4 He5)) as He. clear He123 He4 He5. rewrite <- app_assoc in He.
  destruct r5 as [[]|?]; [|eexists; split; [exact He|]; split; [|done]].
  2:{ unfold journal_evs. apply prefix_app. do 3 apply prefix_cons. by apply prefix_app_r. }
  rewrite (Hok5 eq_refl) in He. clear e5 Hp5 Hok5.
  apply post_bind. eapply post_mono; [apply flush_emits; by rewrite (proj1 He)|]. intros s6 r6 (-> & Hg6 & He6).
  pose proof (emitted_trans _ _ _ _ _ He He6) as He'. clear He He6. apply post_bind, post_on_dev. unfold block_write. apply post_bind.
  eapply post_mono; [apply write_request_emits|]. intros d7 [ok why] (e7 & He7 & Hp7 & _).
  apply post_ret. apply post_ret. pose proof (emitted_trans _ _ _ _ _ He' He7) as He. rewrite <- !app_assoc in He.
  eexists. split; [exact He|]. split; [|intros _; exists e7; split; [done|by rewrite <- ?app_assoc]].
  unfold journal_evs. apply prefix_app. do 3 apply prefix_cons. apply prefix_app. by apply prefix_cons.
Qed.

(** ** What a replay does *)

(** A device that answers every request. *)
Definition good (e : Env) : Prop := (forall k, e_read e k = RGood) /\ (forall k, e_write e k = WGood).

(** The blocks in the first [n] slots of the journal. *)
Definition payload (js : Z) (img : Image) (n : nat) : list Block := (fun i => img (js + 1 + Z.of_nat i)) <$> seq 0 n.

(** The payload is the one the record was written for. *)
Definition payload_matches (js : Z) (img : Image) (n : nat) : bool :=
  crc32 (payload_crcs (payload js img n)) =? u32_at (img js) (8 + n * 8).

Section Recover.
Context (js : Z).
Implicit Types (d : Dev) (img : Image).

Lemma block_read_good d lba : good (d_env d) ->
  post (block_read lba) d (fun d' r => emitted d d' [] /\ r = Some (d_img d lba)).
Proof. intros [H _]. unfold post, block_read, ibind, block_read_kind. rewrite H. done. Qed.

Lemma block_write_good d lba b : good (d_env d) ->
  post (block_write lba b) d (fun d' r => emitted d d' [EvWrite lba b] /\ r = true).
Proof. intros [_ H]. unfold post, block_write, ibind, block_write_kind, write_request. rewrite H. cbn. by rewrite Z.add_0_r. Qed.

Lemma read_payload_good idxs d : good (d_env d) ->
  post (read_payload js idxs) d (fun d' r => emitted d d' [] /\ r = Some ((fun i => crc32 (d_img d (js + 1 + Z.of_nat i))) <$> idxs)).
Proof.
  revert d. induction idxs as [|i idxs IH]; intros d Hg; [apply post_ret; by split; [apply emitted_refl|]|].
  cbn [read_payload]. apply post_bind_some. eapply post_mono; [by apply block_read_good|]. intros d1 r [He ->].
  apply post_bind_some. eapply post_mono; [apply IH; by rewrite (proj1 He)|]. intros d2 r [He2 ->]. apply post_ret.
  split; [by apply (emitted_trans _ _ _ _ _ He He2)|]. cbn. destruct He as (_ & _ & Hi). cbn in Hi. by rewrite Hi.
Qed.

(** Replaying slots from [k] on: the home blocks are outside the journal, so the
    slots still to be read are as they were. *)
Lemma replay_good lbas k d : good (d_env d) -> Forall (fun l => ~ in_journal js l) lbas ->
  (k + length lbas <= TXN_CAP)%nat ->
  let todo := imap (fun i lba => (k + i, (lba, crc32 (d_img d (js + 1 + Z.of_nat (k + i)))))%nat) lbas in
  post (replay js todo) d (fun d' r => r = Some true /\
    emitted d d' (home_evs (imap (fun i lba => (lba, d_img d (js + 1 + Z.of_nat (k + i)))) lbas))).
Proof.
  revert k d. induction lbas as [|lba lbas IH]; intros k d Hg Hout Hk; [apply post_ret; split; [done|apply emitted_refl]|].
  apply Forall_cons in Hout as [Hl Hout]. cbn [length] in Hk. cbn [imap replay]. apply post_bind. eapply post_mono; [by apply block_read_good|].
  intros d1 r [He1 ->]. rewrite Nat.add_0_r. rewrite Z.eqb_refl. cbn [negb]. apply post_bind.
  eapply post_mono; [apply block_write_good; by rewrite (proj1 He1)|]. intros d2 r [He2 ->].
  pose proof (emitted_trans _ _ _ _ _ He1 He2) as He. cbn [app] in He. destruct He as (Henv & Hev & Hi).
  assert (forall i, (i < length lbas)%nat -> d_img d2 (js + 1 + Z.of_nat (S k + i)) = d_img d (js + 1 + Z.of_nat (k + S i))) as Hsame.
  { intros i Hil. rewrite Hi. cbn. rewrite fn_lookup_insert_ne; [do 2 f_equal; lia|]. unfold in_journal, JOURNAL_BLOCKS, TXN_CAP in *. lia. }
  assert (forall A (f g : nat -> Z -> A), (forall i l, (i < length lbas)%nat -> f i l = g i l) -> imap f lbas = imap g lbas) as Hext.
  { intros A f g Hfg. apply list_eq. intros i. rewrite !list_lookup_imap. destruct (lbas !! i) as [l|] eqn:E; [|done]. cbn. f_equal.
    apply Hfg. by eapply lookup_lt_Some. }
  apply post_bind_some. eapply post_mono.
  { erewrite (Hext _ (_ ∘ S)); [apply (IH (S k) d2); [by rewrite Henv|done|lia]|].
    intros i l Hil. cbn [compose]. rewrite Hsame by done. f_equal. lia. }
  intros d3 r [-> He3]. apply post_ret. split; [done|].
  replace (home_evs (_ :: _)) with ([EvWrite lba (d_img d (js + 1 + Z.of_nat k))] ++
    home_evs (imap (fun i l => (l, d_img d2 (js + 1 + Z.of_nat (S k + i)))) lbas)).
  { eapply emitted_trans; [|exact He3]. by split_and!. }
  cbn [home_evs fmap list_fmap app fst snd]. do 2 f_equal. apply Hext. intros i l Hil. cbn [compose]. by rewrite Hsame.
Qed.

(** The blocks a replay copies home, and what it sends. *)
Definition replayed img (lbas : list Z) : list (Z * Block) := imap (fun i lba => (lba, img (js + 1 + Z.of_nat i))) lbas.

Definition replay_evs img : list Ev :=
  match record_lbas (img js) with
  | Some lbas => if payload_matches js img (length lbas) then home_evs (replayed img lbas) ++ [EvWrite js zero_block] else []
  | None => []
  end.

Lemma record_lbas_fits (b : Block) (lbas : list Z) : record_lbas b = Some lbas -> (length lbas <= TXN_CAP)%nat.
Proof.
  unfold record_lbas. destruct (negb _); [done|]. rewrite !Z.gtb_ltb. destruct (Z.eqb_spec (u32_at b 4) 0); [done|].
  destruct (Z.ltb_spec (Z.of_nat TXN_CAP) (u32_at b 4)); [done|]. destruct (Z.ltb _ _); [done|]. destruct (negb _); [done|].
  intros [= <-]. rewrite length_fmap, length_seq. lia.
Qed.

Lemma recover_good d : good (d_env d) ->
  (forall lbas, record_lbas (d_img d js) = Some lbas -> Forall (fun l => ~ in_journal js l) lbas) ->
  post (recover js) d (fun d' _ => emitted d d' (replay_evs (d_img d))).
Proof.
  intros Hg Hout. unfold recover, replay_evs. apply post_bind. eapply post_mono; [by apply block_read_good|]. intros d1 r [He1 ->].
  destruct (record_lbas (d_img d js)) as [lbas|] eqn:Er; [|by apply post_ret]. specialize (Hout _ eq_refl). apply record_lbas_fits in Er.
  apply post_bind. eapply post_mono; [apply read_payload_good; by rewrite (proj1 He1)|]. intros d2 r [He2 ->].
  assert (d_img d1 = d_img d) as Hd1 by apply He1. rewrite Hd1.
  pose proof (emitted_trans _ _ _ _ _ He1 He2) as He. clear He1 He2. cbn [app] in He. pose proof He as (Henv & _ & Hi). cbn in Hi.
  assert (concat (to_le_bytes 4 <$> ((fun i => crc32 (d_img d (js + 1 + Z.of_nat i))) <$> seq 0 (length lbas)))
          = payload_crcs (payload js (d_img d) (length lbas))) as ->.
  { unfold payload_crcs, payload. by rewrite <- !list_fmap_compose. }
  unfold payload_matches. destruct (_ =? _); cbn [negb]; [|by apply post_ret].
  assert (imap pair (zip lbas ((fun i => crc32 (d_img d (js + 1 + Z.of_nat i))) <$> seq 0 (length lbas)))
          = imap (fun i lba => (0 + i, (lba, crc32 (d_img d2 (js + 1 + Z.of_nat (0 + i)))))%nat) lbas) as ->.
  { apply list_eq. intros i. rewrite !list_lookup_imap, lookup_zip_with, list_lookup_fmap. destruct (lbas !! i) as [l|] eqn:El; [|done].
    rewrite lookup_seq_lt by by eapply lookup_lt_Some. cbn. by rewrite Hi. }
  apply post_bind. eapply post_mono; [apply replay_good; [by rewrite Henv|done|lia]|]. intros d3 r [-> He3].
  pose proof (emitted_trans _ _ _ _ _ He He3) as He4. cbn [app] in He4. apply post_bind.
  eapply post_mono; [apply block_write_good; by rewrite (proj1 He4)|]. intros d5 r [He5 _]. apply post_ret.
  pose proof (emitted_trans _ _ _ _ _ He4 He5) as He6. unfold replayed. by rewrite Hi in He6.
Qed.

End Recover.

(** ** All or nothing *)

Lemma prefix_app_inv {A} (l a b : list A) : l `prefix_of` a ++ b -> l `prefix_of` a \/ exists k, l = a ++ k /\ k `prefix_of` b.
Proof.
  revert l. induction a as [|x a IH]; intros l H; [right; by exists l|]. destruct l as [|y l]; [left; apply prefix_nil|]. cbn in H.
  pose proof (prefix_cons_inv_1 _ _ _ _ H) as ->. apply prefix_cons_inv_2, IH in H as [H|(k & -> & H)].
  - left. by apply prefix_cons.
  - right. by exists k.
Qed.

Lemma elem_of_home_evs (txn : list (Z * Block)) (lba : Z) (b : Block) : EvWrite lba b ∈ home_evs txn <-> (lba, b) ∈ txn.
Proof.
  unfold home_evs. rewrite list_elem_of_fmap. split; [intros ([l b'] & [= -> ->] & H); done|intros H; by exists (lba, b)].
Qed.

Lemma elem_of_stage_evs (js : Z) (txn : list (Z * Block)) (lba : Z) (b : Block) :
  EvWrite lba b ∈ stage_evs js txn <-> exists i, lba = js + 1 + Z.of_nat i /\ snd <$> txn !! i = Some b.
Proof.
  unfold stage_evs. rewrite elem_of_home_evs. unfold slots. rewrite elem_of_lookup_imap. split.
  - intros (i & [l b'] & [= -> ->] & H). exists i. by rewrite H.
  - intros (i & -> & H). apply fmap_Some in H as ([l b'] & H & ->). by exists i, (l, b').
Qed.

Lemma home_no_flush (txn : list (Z * Block)) : EvFlush ∉ home_evs txn.
Proof. unfold home_evs. rewrite list_elem_of_fmap. by intros (p & ? & _). Qed.

(** A journal with nothing left to redo: a record that is still believed was
    copied home. *)
Definition settled (js : Z) (img : Image) : Prop :=
  forall lbas, record_lbas (img js) = Some lbas -> Forall (fun l => ~ in_journal js l) lbas /\
    forall i lba, lbas !! i = Some lba -> img lba = img (js + 1 + Z.of_nat i).

(** The checksum of a record that is still believed tells its payload from any
    mixture of it with the blocks of the next transaction. *)
Definition tells_apart (js : Z) (img : Image) (txn : list (Z * Block)) : Prop :=
  forall lbas mix, record_lbas (img js) = Some lbas -> length mix = length lbas ->
    (forall i b, mix !! i = Some b -> b = img (js + 1 + Z.of_nat i) \/ snd <$> txn !! i = Some b) ->
    crc32 (payload_crcs mix) = u32_at (img js) (8 + length lbas * 8) -> mix = payload js img (length lbas).

(** What the next mount makes of a disk. *)
Definition remounted (js : Z) (img : Image) : Image := apply_evs img (replay_evs js img).

Section Atomic.
Context (js : Z) (txn : list (Z * Block)) (img : Image) (pre : list Ev) (Fresh : Z -> Prop).
Context (Hok : txn_ok js txn) (Hset : settled js img) (Hcrc : tells_apart js img txn).
Context (Hpre : writes_in (fun l b => (l = js /\ b = zero_block) \/ (~ in_journal js l /\ Fresh l)) pre).

Definition replay_outside (img' : Image) : Prop :=
  forall lbas, record_lbas (img' js) = Some lbas -> Forall (fun l => ~ in_journal js l) lbas.

Definition untouched (img' : Image) : Prop :=
  replay_outside img' /\ forall l, ~ in_journal js l -> ~ Fresh l -> remounted js img' l = img l.

Definition applied (img' : Image) : Prop :=
  replay_outside img' /\ forall l, ~ in_journal js l -> remounted js img' l = apply_evs img (pre ++ home_evs txn) l.

Lemma js_in_journal : in_journal js js.
Proof. unfold in_journal, JOURNAL_BLOCKS. lia. Qed.

Lemma zero_not_record : record_lbas zero_block = None.
Proof. by vm_compute. Qed.

Lemma remounted_none (img' : Image) : record_lbas (img' js) = None -> remounted js img' = img'.
Proof. intros H. unfold remounted, replay_evs. by rewrite H. Qed.

(** The record was not written: the transaction never happened. *)
Lemma old_phase (img' : Image) :
  img' js = img js \/ img' js = zero_block ->
  (forall i, (i < TXN_CAP)%nat -> img' (js + 1 + Z.of_nat i) = img (js + 1 + Z.of_nat i) \/ snd <$> txn !! i = Some (img' (js + 1 + Z.of_nat i))) ->
  (forall l, ~ in_journal js l -> ~ Fresh l -> img' l = img l) -> untouched img'.
Proof.
  intros [Hj|Hj] Hs Hl.
  2:{ split; [intros lbas; by rewrite Hj, zero_not_record|]. rewrite remounted_none by by rewrite Hj, zero_not_record. done. }
  split; [intros lbas; rewrite Hj; apply Hset|]. intros l Hlj Hlf. unfold remounted, replay_evs. rewrite Hj.
  destruct (record_lbas (img js)) as [lbas|] eqn:Er; [|by apply Hl]. destruct (payload_matches _ _ _) eqn:Ep; [|by apply Hl].
  apply Z.eqb_eq in Ep. rewrite Hj in Ep. pose proof (record_lbas_fits _ _ Er) as Hfit.
  apply Hcrc in Ep; [|done|unfold payload; by rewrite length_fmap, length_seq|].
  2:{ intros i b Hi. unfold payload in Hi. apply list_lookup_fmap_Some in Hi as (k & -> & Hk). apply lookup_seq in Hk as [-> Hk]. apply Hs. lia. }
  rewrite apply_evs_app. cbn. rewrite fn_lookup_insert_ne by (intros E; apply Hlj; rewrite <- E; apply js_in_journal).
  destruct (apply_evs_cases (home_evs (replayed js img' lbas)) img' l) as [->|Hw]; [by apply Hl|].
  apply elem_of_home_evs in Hw. unfold replayed in *. apply elem_of_lookup_imap in Hw as (i & lba & [= <- Hv] & Hi).
  rewrite Hv. rewrite (proj2 (Hset _ Er) i l Hi). apply lookup_lt_Some in Hi.
  apply (f_equal (.!! i)) in Ep. unfold payload in Ep. rewrite !list_lookup_fmap, lookup_seq_lt in Ep by done. by injection Ep.
Qed.

Lemma home_unique (lba : Z) (b b' : Block) : (lba, b) ∈ txn -> (lba, b') ∈ txn -> b = b'.
Proof.
  intros H H'. destruct Hok as [_ _ Hnd _]. apply list_elem_of_lookup in H as [i Hi]. apply list_elem_of_lookup in H' as [j Hj].
  assert (i = j) as <-; [|congruence]. eapply (NoDup_lookup _ _ _ lba Hnd); by rewrite list_lookup_fmap, ?Hi, ?Hj.
Qed.

Lemma home_applied (img0 : Image) (lba : Z) (b : Block) : (lba, b) ∈ txn -> apply_evs img0 (home_evs txn) lba = b.
Proof.
  intros H. apply apply_evs_written; [by apply elem_of_home_evs|]. intros b' H'. apply elem_of_home_evs in H'. by eapply home_unique.
Qed.

(** The record is on the disk with its payload: the transaction happened. *)
Lemma new_phase (img' : Image) :
  img' js = commit_record txn ->
  (forall i p, txn !! i = Some p -> img' (js + 1 + Z.of_nat i) = p.2) ->
  (forall l, ~ in_journal js l -> img' l = apply_evs img pre l \/ (l, img' l) ∈ txn) -> applied img'.
Proof.
  intros Hj Hs Hl. split.
  { intros lbas. rewrite Hj, (record_lbas_commit js) by done. intros [= <-]. destruct Hok as [_ _ _ Hh].
    apply Forall_fmap. eapply Forall_impl; [exact Hh|]. by intros p (_ & ? & _). }
  assert (replayed js img' txn.*1 = txn) as Hr.
  { apply list_eq. intros i. unfold replayed. rewrite list_lookup_imap, list_lookup_fmap. destruct (txn !! i) as [[lba b]|] eqn:E; [|done].
    cbn. by rewrite (Hs _ _ E). }
  intros l Hlj. unfold remounted, replay_evs. rewrite Hj, (record_lbas_commit js) by done.
  assert (payload_matches js img' (length txn.*1) = true) as ->.
  { unfold payload_matches. rewrite length_fmap, Hj, (record_crc_commit js) by done. apply Z.eqb_eq. do 2 f_equal.
    apply list_eq. intros i. unfold payload. rewrite !list_lookup_fmap. destruct (txn !! i) as [p|] eqn:E.
    - rewrite lookup_seq_lt by by eapply lookup_lt_Some. cbn. f_equal. by apply Hs.
    - rewrite lookup_seq_ge by by apply lookup_ge_None. done. }
  rewrite Hr, !apply_evs_app. cbn. rewrite fn_lookup_insert_ne by (intros E; apply Hlj; rewrite <- E; apply js_in_journal).
  destruct (Hl l Hlj) as [E|Hin]; [by apply apply_evs_ext|]. by rewrite !(home_applied _ _ _ Hin).
Qed.

Lemma slot_in_journal (i : nat) : (i < TXN_CAP)%nat -> in_journal js (js + 1 + Z.of_nat i).
Proof. unfold in_journal, JOURNAL_BLOCKS, TXN_CAP. lia. Qed.

Lemma txn_slot (i : nat) (b : Block) : snd <$> txn !! i = Some b -> (i < TXN_CAP)%nat.
Proof. intros H. apply fmap_Some in H as (p & H & _). apply lookup_lt_Some in H. destruct Hok as [_ Hf _ _]. lia. Qed.

Lemma staged_unique (lba : Z) (b b' : Block) : EvWrite lba b ∈ stage_evs js txn -> EvWrite lba b' ∈ stage_evs js txn -> b' = b.
Proof. intros (i & -> & H)%elem_of_stage_evs (j & E & H')%elem_of_stage_evs. assert (j = i) as -> by lia. congruence. Qed.

(** What a block can hold while the payload is being written. *)
Lemma staging_cases (img' : Image) (done : list Ev) (l : Z) : done `prefix_of` pre ++ stage_evs js txn ->
  (img' l = img l \/ EvWrite l (img' l) ∈ done) ->
  img' l = img l \/ (l = js /\ img' l = zero_block) \/ (~ in_journal js l /\ Fresh l) \/
  exists i, l = js + 1 + Z.of_nat i /\ snd <$> txn !! i = Some (img' l).
Proof.
  intros [t E] [?|Hin]; [by left|]. assert (EvWrite l (img' l) ∈ pre ++ stage_evs js txn) as [H|H]%elem_of_app by (rewrite E; set_solver).
  - apply Hpre in H. naive_solver.
  - apply elem_of_stage_evs in H. by do 3 right.
Qed.

Lemma staging_old (img' : Image) (done : list Ev) : done `prefix_of` pre ++ stage_evs js txn ->
  (forall l, img' l = img l \/ EvWrite l (img' l) ∈ done) -> untouched img'.
Proof.
  intros Hd Hc. pose proof (fun l => staging_cases img' done l Hd (Hc l)) as Hcase. apply old_phase.
  - destruct (Hcase js) as [?|[[_ ?]|[[Hn _]|(i & E & _)]]]; [by left|by right|by destruct (Hn js_in_journal)|lia].
  - intros i Hi. pose proof (slot_in_journal i Hi) as Hj. destruct (Hcase (js + 1 + Z.of_nat i)) as [?|[[E _]|[[Hn _]|(k & E & ?)]]]; [by left|lia|done|].
    assert (k = i) as -> by lia. by right.
  - intros l Hl Hf. destruct (Hcase l) as [?|[[-> _]|[[_ ?]|(k & -> & Hk)]]]; [done|by destruct (Hl js_in_journal)|done|].
    destruct Hl. exact (slot_in_journal _ (txn_slot _ _ Hk)).
Qed.

(** Once flushed, the slots hold the payload. *)
Lemma staged_slots (i : nat) (p : Z * Block) : txn !! i = Some p -> apply_evs img (pre ++ stage_evs js txn) (js + 1 + Z.of_nat i) = p.2.
Proof.
  intros H. rewrite apply_evs_app. assert (EvWrite (js + 1 + Z.of_nat i) p.2 ∈ stage_evs js txn) as Hin.
  { apply elem_of_stage_evs. exists i. by rewrite H. }
  apply apply_evs_written; [done|]. intros b' Hb'. by eapply staged_unique.
Qed.

Lemma staged_home (l : Z) : ~ in_journal js l -> apply_evs img (pre ++ stage_evs js txn) l = apply_evs img pre l.
Proof.
  intros Hl. rewrite apply_evs_app. destruct (apply_evs_cases (stage_evs js txn) (apply_evs img pre) l) as [?|H]; [done|].
  apply elem_of_stage_evs in H as (i & E & H). destruct Hl. rewrite E. exact (slot_in_journal _ (txn_slot _ _ H)).
Qed.

Lemma slot_not_home (i : nat) (b : Block) : (i < TXN_CAP)%nat -> (js + 1 + Z.of_nat i, b) ∉ txn.
Proof.
  intros Hi H. destruct Hok as [_ _ _ Hh]. apply (proj1 (Forall_forall _ _) Hh) in H as (_ & Hn & _). by apply Hn, slot_in_journal.
Qed.

Lemma js_not_home (b : Block) : (js, b) ∉ txn.
Proof. intros H. destruct Hok as [_ _ _ Hh]. apply (proj1 (Forall_forall _ _) Hh) in H as (_ & Hn & _). by apply Hn, js_in_journal. Qed.

(** A cut after the record was flushed. *)
Lemma committed_new (img' : Image) (tail : list Ev) : tail `prefix_of` home_evs txn ->
  (forall l, img' l = <[js := commit_record txn]> (apply_evs img (pre ++ stage_evs js txn)) l \/ EvWrite l (img' l) ∈ tail) -> applied img'.
Proof.
  intros [t E] Hc. assert (forall l, EvWrite l (img' l) ∈ tail -> (l, img' l) ∈ txn) as Hin.
  { intros l H. apply elem_of_home_evs. rewrite E. set_solver. }
  apply new_phase.
  - destruct (Hc js) as [->|H]; [apply fn_lookup_insert|]. by destruct (js_not_home _ (Hin _ H)).
  - intros i p Hp. assert (i < TXN_CAP)%nat as Hi by (eapply txn_slot; by rewrite Hp). destruct (Hc (js + 1 + Z.of_nat i)) as [->|H].
    + rewrite fn_lookup_insert_ne by lia. by apply staged_slots.
    + by destruct (slot_not_home i _ Hi (Hin _ H)).
  - intros l Hl. destruct (Hc l) as [->|H]; [left|right; by apply Hin].
    rewrite fn_lookup_insert_ne by (intros E'; apply Hl; rewrite <- E'; apply js_in_journal). by apply staged_home.
Qed.

(** A cut after the home blocks were flushed, while the record is erased. *)
Lemma invalidated_new (img' : Image) (tail : list Ev) : tail `prefix_of` [EvWrite js zero_block] ->
  Survives (apply_evs (<[js := commit_record txn]> (apply_evs img (pre ++ stage_evs js txn))) (home_evs txn)) tail img' -> applied img'.
Proof.
  intros Ht Hs. assert (forall l b, EvWrite l b ∈ tail -> l = js /\ b = zero_block) as Htail.
  { intros l b H. assert (EvWrite l b ∈ [EvWrite js zero_block]) as E by (destruct Ht as [t ->]; set_solver).
    by apply list_elem_of_singleton in E as [= -> ->]. }
  assert (forall l, l <> js -> img' l = apply_evs (<[js := commit_record txn]> (apply_evs img (pre ++ stage_evs js txn))) (home_evs txn) l) as Hne.
  { intros l Hl. destruct (survives_cases _ _ _ l Hs) as [?|H]; [done|]. by destruct (Htail _ _ H). }
  destruct (survives_cases _ _ _ js Hs) as [Hj|Hj].
  - apply (committed_new _ (home_evs txn)); [done|]. intros l. destruct (decide (l = js)) as [->|Hl].
    + rewrite Hj. apply apply_evs_cases.
    + rewrite Hne by done. apply apply_evs_cases.
  - apply Htail in Hj as [_ Hj]. split; [intros lbas; by rewrite Hj, zero_not_record|]. intros l Hl.
    rewrite remounted_none by by rewrite Hj, zero_not_record. rewrite Hne by (intros ->; by apply Hl, js_in_journal).
    rewrite (apply_evs_app _ pre (home_evs txn)). apply apply_evs_ext. rewrite fn_lookup_insert_ne by (intros E'; apply Hl; rewrite <- E'; apply js_in_journal).
    by apply staged_home.
Qed.

(** A cut at any moment of the protocol. *)
Lemma protocol_atomic (done : list Ev) (img' : Image) :
  done `prefix_of` pre ++ journal_evs js txn -> Survives img done img' -> untouched img' \/ applied img'.
Proof.
  intros Hd Hs. unfold journal_evs in Hd. rewrite app_assoc in Hd. apply prefix_app_inv in Hd as [Hd|(k1 & -> & Hk1)].
  { left. eapply staging_old; [exact Hd|]. intros l. by apply survives_cases. }
  apply prefix_app_inv in Hk1 as [Hk1|(k2 & -> & Hk2)].
  - destruct k1 as [|e k1]; [left; eapply staging_old; [|intros l; by apply survives_cases]; by rewrite app_nil_r|].
    pose proof (prefix_cons_inv_1 _ _ _ _ Hk1) as ->. apply prefix_cons_inv_2 in Hk1. apply survives_flush in Hs.
    destruct k1 as [|e k1].
    { left. eapply staging_old; [reflexivity|]. intros l. destruct (survives_cases _ _ _ l Hs) as [->|[]%not_elem_of_nil]. apply apply_evs_cases. }
    pose proof (prefix_cons_inv_1 _ _ _ _ Hk1) as ->. apply prefix_cons_inv_2 in Hk1. destruct k1 as [|e k1].
    + destruct (survives_cases _ _ _ js Hs) as [Hj|Hj].
      * left. eapply staging_old; [reflexivity|]. intros l. destruct (survives_cases _ _ _ l Hs) as [->|Hl]; [apply apply_evs_cases|].
        apply list_elem_of_singleton in Hl as [= -> _]. rewrite Hj. apply apply_evs_cases.
      * right. apply list_elem_of_singleton in Hj as [= Hj']. apply (committed_new _ []); [apply prefix_nil|]. intros l. left.
        destruct (decide (l = js)) as [->|Hne]; [by rewrite fn_lookup_insert|]. rewrite fn_lookup_insert_ne by done.
        destruct (survives_cases _ _ _ l Hs) as [?|Hl]; [done|]. by apply list_elem_of_singleton in Hl as [= ? _].
    + right. pose proof (prefix_cons_inv_1 _ _ _ _ Hk1) as ->. apply prefix_cons_inv_2, prefix_nil_inv in Hk1 as ->.
      apply (survives_flush _ [_]) in Hs. apply (committed_new _ []); [apply prefix_nil|]. intros l. left.
      by destruct (survives_cases _ _ _ l Hs) as [?|[]%not_elem_of_nil].
  - right. apply (survives_flush _ _ (EvWrite _ _ :: EvFlush :: k2)) in Hs. apply (survives_flush _ [_]) in Hs. cbn in Hs.
    apply prefix_app_inv in Hk2 as [Hk2|(k3 & -> & Hk3)].
    { eapply committed_new; [exact Hk2|]. intros l. by apply survives_cases. }
    destruct k3 as [|e k3]; [eapply committed_new; [reflexivity|]; intros l; rewrite app_nil_r in Hs; by apply survives_cases|].
    pose proof (prefix_cons_inv_1 _ _ _ _ Hk3) as ->. apply prefix_cons_inv_2 in Hk3. apply survives_flush in Hs.
    by apply (invalidated_new img' k3).
Qed.

(** A cut after the commit has answered [Ok]. *)
Lemma finished_new (last : list Ev) (img' : Image) : last `prefix_of` [EvWrite js zero_block] ->
  Survives img (pre ++ stage_evs js txn ++ [EvFlush; EvWrite js (commit_record txn); EvFlush] ++ home_evs txn ++ [EvFlush] ++ last) img' -> applied img'.
Proof.
  intros Hl Hs. rewrite app_assoc in Hs. apply (survives_flush _ _ (EvWrite _ _ :: EvFlush :: home_evs txn ++ [EvFlush] ++ last)) in Hs.
  apply (survives_flush _ [_]) in Hs. cbn in Hs. apply survives_flush in Hs. by apply (invalidated_new img' last).
Qed.

(** What the barrier before the erasure of the record has made durable. *)
Definition checkpointed : Image := apply_evs (<[js := commit_record txn]> (apply_evs img (pre ++ stage_evs js txn))) (home_evs txn).

Lemma checkpointed_settled : settled js checkpointed.
Proof.
  assert (forall l, (forall b, (l, b) ∉ txn) -> checkpointed l = <[js := commit_record txn]> (apply_evs img (pre ++ stage_evs js txn)) l) as Hne.
  { intros l Hl. unfold checkpointed. destruct (apply_evs_cases (home_evs txn) (<[js := commit_record txn]> (apply_evs img (pre ++ stage_evs js txn))) l) as [?|H]; [done|].
    apply elem_of_home_evs in H. by destruct (Hl _ H). }
  intros lbas. rewrite Hne by apply js_not_home. rewrite fn_lookup_insert, (record_lbas_commit js) by done. intros [= <-]. split.
  - destruct Hok as [_ _ _ Hh]. apply Forall_fmap. eapply Forall_impl; [exact Hh|]. by intros p (_ & ? & _).
  - intros i lba H. apply list_lookup_fmap_Some in H as ([l b] & -> & Hi). cbn. assert (i < TXN_CAP)%nat as Hlt by (eapply txn_slot; by rewrite Hi).
    rewrite (Hne (js + 1 + Z.of_nat i)) by (intros b'; by apply slot_not_home). rewrite fn_lookup_insert_ne by lia. rewrite (staged_slots _ _ Hi).
    unfold checkpointed. apply home_applied. by eapply list_elem_of_lookup_2.
Qed.

End Atomic.

(** ** Commit, power cut and mount *)

(** With every write answered, the commit goes through. *)
Lemma journal_write_good (lba : Z) (b : Block) (e : string) (s : St) : good (d_env (st_dev s)) ->
  post (journal_write lba b e) s (fun s' r => r = Ok tt /\ good (d_env (st_dev s'))).
Proof. intros Hg. unfold journal_write. apply post_bind, post_on_dev. unfold post at 1, block_write_kind, write_request. rewrite (proj2 Hg). by apply post_ret. Qed.

Lemma durable_good (s : St) : good (d_env (st_dev s)) -> post durable_or_warn s (fun s' _ => good (d_env (st_dev s'))).
Proof. intros Hg. unfold durable_or_warn. apply post_bind, post_on_dev. unfold post, block_flush_outcome. by destruct (e_flush _ _). Qed.

Lemma commit_succeeds (s : St) : good (d_env (st_dev s)) -> txn_overflow (fs_txn (st_fs s)) = false -> post commit_txn s (fun _ r => r = Ok tt).
Proof.
  intros Hg Hov. unfold commit_txn. apply post_bind, post_get. rewrite Hov. apply post_bind, post_mod. destruct (_ =? _)%nat; [by apply post_ret|].
  apply post_bind, post_get. apply post_bind_ok, (post_for_ok _ _ (fun s' => good (d_env (st_dev s')))); [done| |].
  { intros [i [l b]] s' _ H. eapply post_mono; [by apply journal_write_good|]. intros s'' r [-> ?]. done. }
  intros s1 H1. apply post_bind. eapply post_mono; [apply durable_good; exact H1|]. intros s2 r2 H2.
  apply post_bind_ok. eapply post_mono; [apply journal_write_good; exact H2|]. intros s3 r [-> H3].
  apply post_bind. eapply post_mono; [apply durable_good; exact H3|]. intros s4 r4 H4.
  apply post_bind_ok, (post_for_ok _ _ (fun s' => good (d_env (st_dev s')))); [done| |].
  { intros [l b] s' _ H. eapply post_mono; [by apply journal_write_good|]. intros s'' r [-> ?]. done. }
  intros s5 H5. apply post_bind. eapply post_mono; [apply durable_good; exact H5|]. intros s6 [] H6; [by apply post_bind, post_on_dev|by apply post_ret].
Qed.

(** Mounting a disk that answers: what [recover] leaves of it. *)
Lemma recover_remounts (js : Z) (env : Env) (img : Image) (reqs : nat) : good env -> replay_outside js img ->
  post (recover js) (mkDev env img [] reqs) (fun d _ => d_img d = remounted js img).
Proof. intros Hg Ho. eapply post_mono; [by apply recover_good|]. by intros d [] (_ & _ & H). Qed.

(** The next mount finds [img] as it was, outside the journal and the blocks [skip]. *)
Definition mounts_as (js : Z) (skip : Z -> Prop) (img' img : Image) : Prop :=
  forall env reqs, good env -> post (recover js) (mkDev env img' [] reqs) (fun d _ => forall l, ~ in_journal js l -> ~ skip l -> d_img d l = img l).

(** [img] is what has been flushed, and [pre] what has been written since: the
    erasure of the last record, and data in blocks that the volume does not use. *)
Record quiescent (js : Z) (s : St) (img : Image) (pre : list Ev) (Fresh : Z -> Prop) : Prop := {
  q_image : d_img (st_dev s) = apply_evs img pre;
  q_settled : settled js img;
  q_pending : writes_in (fun l b => (l = js /\ b = zero_block) \/ (~ in_journal js l /\ Fresh l)) pre;
}.

(** C4: A commit is atomic and durable.  On a disk that flushes when asked, whatever
    writes fail and wherever power is lost, the next mount finds the volume as it
    was before the transaction or with all of it; once the commit has answered
    [Ok] it finds all of it, and the disk is again in the state a commit starts
    from. *)
Theorem commit_crash_atomic (s : St) (img : Image) (pre : list Ev) (Fresh : Z -> Prop) :
  let js := journal_start (fs_geo (st_fs s)) in
  let txn := txn_blocks (fs_txn (st_fs s)) in
  honest (d_env (st_dev s)) -> txn_overflow (fs_txn (st_fs s)) = false -> txn_ok js txn ->
  quiescent js s img pre Fresh -> tells_apart js img txn ->
  post commit_txn s (fun s' r => (good (d_env (st_dev s)) -> r = Ok tt) /\ exists evs,
    d_evs (st_dev s') = d_evs (st_dev s) ++ evs /\
    (forall img', Crash img (pre ++ evs) img' ->
       mounts_as js Fresh img' img \/ mounts_as js (fun _ => False) img' (apply_evs (d_img (st_dev s)) (home_evs txn))) /\
    (r = Ok tt ->
       (forall img', Survives img (pre ++ evs) img' -> mounts_as js (fun _ => False) img' (apply_evs (d_img (st_dev s)) (home_evs txn))) /\
       exists img2 pre2, quiescent js s' img2 pre2 (fun _ => False))).
Proof.
  intros js txn Hh Hov Hok [Hi Hset Hpre] Hcrc.
  apply post_and; [intros Hg; by apply commit_succeeds|].
  eapply post_mono; [by apply (commit_emits s txn js); try done; apply Hok|]. intros s' r (evs & He & Hp & Hr). exists evs.
  assert (apply_evs img (pre ++ home_evs txn) = apply_evs (d_img (st_dev s)) (home_evs txn)) as Hnew by (by rewrite apply_evs_app, Hi).
  assert (forall img', untouched js img Fresh img' -> mounts_as js Fresh img' img) as Hold.
  { intros img' [Ho Hu] env reqs Hg. eapply post_mono; [by apply recover_remounts|]. intros d [] ->. done. }
  assert (forall img', applied js txn img pre img' -> mounts_as js (fun _ => False) img' (apply_evs (d_img (st_dev s)) (home_evs txn))) as Happ.
  { intros img' [Ho Hu] env reqs Hg. eapply post_mono; [by apply recover_remounts|]. intros d [] -> l Hl _. rewrite <- Hnew. by apply Hu. }
  split_and!; [apply He| |].
  - intros img' (done & Hd & Hs). destruct (protocol_atomic js txn img pre Fresh Hok Hset Hcrc Hpre done img') as [H|H]; [|done|left; by apply Hold|right; by apply Happ].
    etrans; [exact Hd|]. by apply prefix_app.
  - intros ->. destruct (Hr eq_refl) as (last & Hl & ->). split.
    + intros img' Hs. apply Happ. by eapply finished_new.
    + exists (checkpointed js txn img pre), last. constructor.
      * destruct He as (_ & _ & ->). rewrite Hi. unfold checkpointed. by rewrite !apply_evs_app.
      * by apply checkpointed_settled.
      * intros l b Hin. left. assert (EvWrite l b ∈ [EvWrite js zero_block]) as E by (destruct Hl as [t ->]; set_solver). by apply list_elem_of_singleton in E as [= -> ->].
Qed.

(** Block 71 is about to be written; the record of the transaction that wrote
    block 70 is still there. *)
Definition byte_block (b : Z) : Block := b :: zeros 511.

Definition recorded_image : Image :=
  <[2 := commit_record [(70, byte_block 7)]]> (<[3 := byte_block 7]> (<[70 := byte_block 7]> (fun _ => zero_block))).

Definition recorded : St :=
  mkSt (mkFs (mkGeometry 100 1 66 2 64) (mkSbFields 66 1 32 0 [] 1 0 0) false 0 (mkCells false false false 0) (0, 0) None None
          (mkTxn true false [(71, byte_block 9)]) [])
       (mkDev (mkEnv (fun _ => RGood) (fun _ => WGood) (fun _ => Durable) (fun _ => Some 100)) recorded_image [] 0) 0 [].

Lemma byte_block_ok (b : Z) : 0 <= b < 256 -> is_block (byte_block b).
Proof. intros Hb. split; [done|]. constructor; [done|apply zeros_bytes]. Qed.

Lemma recorded_txn (lba b : Z) : 66 <= lba < 100 -> 0 <= b < 256 -> txn_ok 2 [(lba, byte_block b)].
Proof.
  intros Hl Hb. constructor; [done|cbn; unfold TXN_CAP; lia|apply NoDup_singleton|]. apply Forall_singleton. cbn.
  split_and!; [lia|lia|unfold in_journal, JOURNAL_BLOCKS; lia|by apply byte_block_ok..].
Qed.

Lemma recorded_lbas : record_lbas (recorded_image 2) = Some [70].
Proof. unfold recorded_image. rewrite fn_lookup_insert. by rewrite (record_lbas_commit 2) by by apply recorded_txn. Qed.

Lemma commit_crash_atomic_witness :
  post commit_txn recorded (fun s' r => r = Ok tt /\ exists evs, d_evs (st_dev s') = evs /\
    forall img', Survives recorded_image evs img' -> mounts_as 2 (fun _ => False) img' (<[71 := byte_block 9]> recorded_image)).
Proof.
  eapply post_mono; [apply (commit_crash_atomic recorded recorded_image [] (fun _ => False)); [done|done|by apply recorded_txn| |]|].
  - constructor; [done| |by intros l b H%not_elem_of_nil]. intros lbas. cbn [journal_start fs_geo st_fs recorded]. rewrite recorded_lbas. intros [= <-]. split.
    + apply Forall_singleton. cbn. unfold in_journal, JOURNAL_BLOCKS. lia.
    + intros [|i] lba [= <-]. done.
  - intros lbas mix. cbn [journal_start fs_geo st_fs recorded]. rewrite recorded_lbas. intros [= <-] Hl Hm Hcrc. destruct mix as [|b [|? ?]]; [discriminate Hl| |discriminate Hl].
    destruct (Hm 0%nat b eq_refl) as [->|[= <-]]; [reflexivity|]. exfalso. clear Hm. vm_compute in Hcrc. discriminate Hcrc.
  - intros s' r [Hok (evs & He & _ & Hr)]. specialize (Hok ltac:(done)). split; [done|]. exists evs. split; [done|]. intros img' Hs. apply (proj1 (Hr Hok) img' Hs).
Defined.

(** ** Recovery cut short *)

(** A block that is written holds the same whatever it held. *)
Lemma apply_evs_over (evs : list Ev) (img img' : Image) (lba : Z) (b : Block) : EvWrite lba b ∈ evs -> apply_evs img evs lba = apply_evs img' evs lba.
Proof.
  induction evs as [|e evs IH] using rev_ind; intros Hin; [by apply not_elem_of_nil in Hin|]. rewrite !apply_evs_app. cbn.
  apply elem_of_app in Hin as [Hin|Hin%list_elem_of_singleton].
  - destruct e as [l c|]; cbn; [|by apply IH]. destruct (decide (l = lba)) as [->|Hne]; [by rewrite !fn_lookup_insert|]. rewrite !fn_lookup_insert_ne by done. by apply IH.
  - subst e. cbn. by rewrite !fn_lookup_insert.
Qed.

Section Restart.
Context (js : Z) (img : Image) (Hout : replay_outside js img).

(** A replay depends on the journal only. *)
Lemma replay_stable (img' : Image) : (forall l, in_journal js l -> img' l = img l) -> replay_evs js img' = replay_evs js img.
Proof.
  intros Hj. unfold replay_evs, payload_matches. rewrite (Hj js (js_in_journal js)). destruct (record_lbas (img js)) as [lbas|] eqn:Er; [|done].
  pose proof (record_lbas_fits _ _ Er) as Hfit. assert (payload js img' (length lbas) = payload js img (length lbas)) as ->.
  { unfold payload. apply list_fmap_ext. intros k i Hi. apply lookup_seq in Hi as [-> Hi]. apply Hj, slot_in_journal. lia. }
  destruct (_ =? _); [|done]. do 2 f_equal. unfold replayed. apply imap_ext. intros i x Hi. f_equal. apply Hj, slot_in_journal. apply lookup_lt_Some in Hi. lia.
Qed.

(** It writes outside the journal, but for the erasure of the record. *)
Lemma replay_writes (l : Z) (b : Block) : EvWrite l b ∈ replay_evs js img -> (l = js /\ b = zero_block) \/ (l <> js /\ ~ in_journal js l).
Proof.
  unfold replay_evs, replay_outside in *. destruct (record_lbas (img js)) as [lbas|] eqn:Er; [|by intros H%not_elem_of_nil].
  destruct (payload_matches _ _ _); [|by intros H%not_elem_of_nil]. intros [H|H]%elem_of_app; [|apply list_elem_of_singleton in H as [= -> ->]; by left].
  right. apply elem_of_home_evs in H. unfold replayed in H. apply elem_of_lookup_imap in H as (i & x & [= -> _] & Hx). apply list_elem_of_lookup_2 in Hx.
  pose proof (proj1 (Forall_forall _ _) (Hout _ eq_refl) x Hx) as Hn. split; [|done]. intros ->. by apply Hn, js_in_journal.
Qed.

(** Replaying again over a disk on which some of the home blocks have landed. *)
Lemma replay_again (img' : Image) : (forall l, img' l = img l \/ (EvWrite l (img' l) ∈ replay_evs js img /\ l <> js)) ->
  replay_outside js img' /\ forall l, remounted js img' l = remounted js img l.
Proof.
  intros Hc. assert (forall l, in_journal js l -> img' l = img l) as Hj.
  { intros l Hl. destruct (Hc l) as [?|[H Hne]]; [done|]. destruct (replay_writes _ _ H) as [[? _]|[_ ?]]; done. }
  split; [unfold replay_outside; rewrite (Hj js (js_in_journal js)); exact Hout|]. intros l. unfold remounted. rewrite (replay_stable _ Hj).
  destruct (Hc l) as [E|[H _]]; [by apply apply_evs_ext|by eapply apply_evs_over].
Qed.

(** After a replay there is nothing to replay. *)
Lemma replay_idle (img' : Image) : (forall l, img' l = remounted js img l) -> replay_evs js img' = [].
Proof.
  intros E. assert (replay_evs js img = [] -> replay_evs js img' = []) as Hnil.
  { intros H. rewrite <- H. apply replay_stable. intros l _. rewrite E. unfold remounted. by rewrite H. }
  unfold replay_evs at 1 in Hnil. destruct (record_lbas (img js)) as [lbas|] eqn:Er; [|by apply Hnil]. destruct (payload_matches _ _ _) eqn:Em; [|by apply Hnil].
  assert (img' js = zero_block) as Hz.
  { rewrite E. unfold remounted, replay_evs. rewrite Er, Em, apply_evs_app. cbn. apply fn_lookup_insert. }
  unfold replay_evs. by rewrite Hz, zero_not_record.
Qed.

(** A cut before the record is erased, or after the erasure was flushed. *)
Lemma cut_remounts (evs : list Ev) (img' : Image) : evs `prefix_of` replay_evs js img -> EvWrite js zero_block ∉ evs -> Survives img evs img' ->
  replay_outside js img' /\ forall l, remounted js img' l = remounted js img l.
Proof.
  intros [t E] Hn Hs. apply replay_again. intros l. destruct (survives_cases _ _ _ l Hs) as [?|H]; [by left|]. right.
  assert (EvWrite l (img' l) ∈ replay_evs js img) as H' by (rewrite E; set_solver). split; [done|]. destruct (replay_writes _ _ H') as [[-> Hz]|[? _]]; [|done]. by rewrite Hz in H.
Qed.

Lemma done_remounts (img' : Image) : Survives img (replay_evs js img ++ [EvFlush]) img' ->
  replay_outside js img' /\ forall l, remounted js img' l = remounted js img l.
Proof.
  intros Hs. apply survives_flush in Hs. assert (forall l, img' l = remounted js img l) as E by (intros l; by destruct (survives_cases _ _ _ l Hs) as [?|[]%not_elem_of_nil]).
  pose proof (replay_idle img' E) as Hi. split; [|intros l; rewrite <- E; unfold remounted; by rewrite Hi].
  unfold replay_outside in *. rewrite E. unfold remounted, replay_evs. destruct (record_lbas (img js)) as [lbas|] eqn:Er; [|cbn; by rewrite Er].
  destruct (payload_matches _ _ _); [|cbn; by rewrite Er]. rewrite apply_evs_app. cbn. by rewrite fn_lookup_insert, zero_not_record.
Qed.

End Restart.

(** C15: Recovery can be started again.  Cut short anywhere before it erases the record,
    or after that erasure has been flushed, the next mount finds exactly what the
    recovery would have left. *)
Theorem recover_restartable (js : Z) (env : Env) (img : Image) (reqs : nat) :
  good env -> replay_outside js img ->
  post (recover js) (mkDev env img [] reqs) (fun d _ =>
    (forall evs img', evs `prefix_of` d_evs d -> EvWrite js zero_block ∉ evs -> Survives img evs img' -> mounts_as js (fun _ => False) img' (d_img d)) /\
    (forall img', Survives img (d_evs d ++ [EvFlush]) img' -> mounts_as js (fun _ => False) img' (d_img d))).
Proof.
  intros Hg Ho. eapply post_mono; [by apply recover_good|]. intros d [] (_ & He & Hi). cbn in He, Hi. rewrite He, Hi.
  assert (forall img', replay_outside js img' /\ (forall l, remounted js img' l = remounted js img l) -> mounts_as js (fun _ => False) img' (remounted js img)) as Hm.
  { intros img' [Ho' Hl] env' reqs' Hg'. eapply post_mono; [by apply recover_remounts|]. intros d' [] -> l _ _. apply Hl. }
  split; intros; apply Hm; [by eapply cut_remounts|by apply done_remounts].
Qed.

Lemma recover_restartable_witness :
  post (recover 2) (mkDev (d_env (st_dev recorded)) recorded_image [] 0) (fun d _ => mounts_as 2 (fun _ => False) recorded_image (d_img d)).
Proof.
  eapply post_mono; [apply (recover_restartable 2 (d_env (st_dev recorded)) recorded_image 0); [done|]|].
  - intros lbas. rewrite recorded_lbas. intros [= <-]. apply Forall_singleton. cbn. unfold in_journal, JOURNAL_BLOCKS. lia.
  - intros d [] [H _]. apply (H []); [apply prefix_nil|apply not_elem_of_nil|]. exists [], []. split_and!; [done|apply not_elem_of_nil|by left].
Defined.

(** Two blocks committed, none of them home yet. *)
Definition two_blocks : list (Z * Block) := [(70, byte_block 7); (71, byte_block 9)].
Definition committed_image : Image := apply_evs (fun _ => zero_block) (stage_evs 2 two_blocks ++ [EvFlush; EvWrite 2 (commit_record two_blocks); EvFlush]).

Lemma two_blocks_ok : txn_ok 2 two_blocks.
Proof.
  constructor; [done|cbn; unfold TXN_CAP; lia| |].
  - cbn. apply NoDup_cons. split; [by intros [=]%list_elem_of_singleton|apply NoDup_singleton].
  - apply Forall_cons; split; [|apply Forall_singleton]; cbn; (split; [lia|]; split; [unfold in_journal, JOURNAL_BLOCKS; lia|by apply byte_block_ok]).
Qed.

Lemma committed_record : committed_image 2 = commit_record two_blocks.
Proof. reflexivity. Qed.

Lemma committed_outside (l : Z) : ~ in_journal 2 l -> committed_image l = zero_block.
Proof.
  intros Hl. unfold committed_image. rewrite (apply_evs_other _ (fun _ => zero_block) (fun x _ => in_journal 2 x) l); [done| |done]. intros x b [H|H]%elem_of_app.
  - apply elem_of_stage_evs in H as (i & -> & Hi). apply slot_in_journal. by eapply (txn_slot 2 two_blocks two_blocks_ok).
  - rewrite !elem_of_cons in H. destruct H as [[=]|[[= -> _]|[[=]|[]%not_elem_of_nil]]]. apply js_in_journal.
Qed.

Lemma two_homes (img : Image) (lba : Z) (b : Block) : (lba, b) ∈ two_blocks -> apply_evs img (home_evs two_blocks ++ [EvWrite 2 zero_block]) lba = b.
Proof.
  intros H. rewrite apply_evs_app. cbn [apply_evs foldl apply_ev]. rewrite fn_lookup_insert_ne.
  - by apply (home_applied 2 two_blocks two_blocks_ok).
  - intros <-. by apply (js_not_home 2 two_blocks two_blocks_ok) in H.
Qed.

Lemma committed_replay : replay_evs 2 committed_image = home_evs two_blocks ++ [EvWrite 2 zero_block].
Proof.
  unfold replay_evs, payload_matches. rewrite committed_record, (record_lbas_commit 2) by apply two_blocks_ok. change (8 + length two_blocks.*1 * 8)%nat with (8 + length two_blocks * 8)%nat.
  rewrite (record_crc_commit 2) by apply two_blocks_ok. change (payload 2 committed_image (length two_blocks.*1)) with (snd <$> two_blocks). by rewrite Z.eqb_refl.
Qed.

Lemma survives_all (img : Image) (evs : list Ev) : Survives img evs (apply_evs img evs).
Proof. exists evs, []. rewrite app_nil_r. split_and!; [done|apply not_elem_of_nil|by left]. Qed.

Lemma committed_crash : Crash (fun _ => zero_block) (journal_evs 2 two_blocks) committed_image.
Proof.
  exists (stage_evs 2 two_blocks ++ [EvFlush; EvWrite 2 (commit_record two_blocks); EvFlush]). split; [|apply survives_all].
  exists (home_evs two_blocks ++ [EvFlush; EvWrite 2 zero_block]). unfold journal_evs. by rewrite <- app_assoc.
Qed.

Lemma committed_recover (env : Env) : good env ->
  post (recover 2) (mkDev env committed_image [] 0) (fun d _ =>
    d_evs d = home_evs two_blocks ++ [EvWrite 2 zero_block] /\ d_img d = apply_evs committed_image (home_evs two_blocks ++ [EvWrite 2 zero_block])).
Proof.
  intros Hg. eapply post_mono; [apply recover_good; [done|]|].
  - cbn [d_img]. intros lbas. rewrite committed_record, (record_lbas_commit 2) by apply two_blocks_ok. intros E. apply Some_inj in E as <-.
    apply Forall_cons. split; [|apply Forall_singleton]; unfold in_journal, JOURNAL_BLOCKS; cbn; lia.
  - intros d [] (_ & He & Hi). cbn [d_evs d_img] in He, Hi. rewrite app_nil_l in He. rewrite <- committed_replay. split; [exact He|exact Hi].
Qed.

(** The erasure has landed, and one of the two blocks. *)
Definition torn_image : Image := <[2 := zero_block]> (<[70 := byte_block 7]> committed_image).

Lemma torn_survives : Survives committed_image (home_evs two_blocks ++ [EvWrite 2 zero_block]) torn_image.
Proof.
  exists [], (home_evs two_blocks ++ [EvWrite 2 zero_block]). split_and!; [done|intros H; apply elem_of_app in H as [[]%home_no_flush|[=]%list_elem_of_singleton]|].
  intros l. unfold torn_image. destruct (decide (2 = l)) as [<-|]; [right; rewrite fn_lookup_insert; do 2 right; left|]. rewrite fn_lookup_insert_ne by done.
  destruct (decide (70 = l)) as [<-|]; [right; rewrite fn_lookup_insert; left|]. rewrite fn_lookup_insert_ne by done. by left.
Qed.

Lemma torn_mounts : mounts_as 2 (fun _ => False) torn_image (<[70 := byte_block 7]> (fun _ => zero_block)).
Proof.
  assert (record_lbas (torn_image 2) = None) as Hn by (unfold torn_image; by rewrite fn_lookup_insert, zero_not_record).
  intros env reqs Hg. eapply post_mono; [apply recover_remounts; [done|]|]; [intros lbas; by rewrite Hn|].
  intros d' [] -> l Hl _. rewrite (remounted_none 2 torn_image Hn). unfold torn_image. rewrite fn_lookup_insert_ne by (intros <-; apply Hl, js_in_journal).
  destruct (decide (70 = l)) as [<-|]; [by rewrite !fn_lookup_insert|]. rewrite !fn_lookup_insert_ne by done. by apply committed_outside.
Qed.

(** C40: Nothing orders the erasure of the record after the home blocks it was replayed
    to: a power cut at the end of a recovery can leave the record erased, one
    block of the committed transaction new and another old, for good. *)
Theorem recover_cut_tears :
  Crash (fun _ => zero_block) (journal_evs 2 two_blocks) committed_image /\
  post (recover 2) (mkDev (d_env (st_dev recorded)) committed_image [] 0) (fun d _ =>
    d_img d 70 = byte_block 7 /\ d_img d 71 = byte_block 9 /\
    exists img', Survives committed_image (d_evs d) img' /\
      mounts_as 2 (fun _ => False) img' (<[70 := byte_block 7]> (fun _ => zero_block))).
Proof.
  split; [apply committed_crash|]. eapply post_mono; [by apply committed_recover|]. intros d [] [He Hi]. rewrite He, Hi. clear He Hi.
  split; [apply two_homes; left|]. split; [apply two_homes; right; left|]. exists torn_image. split; [apply torn_survives|apply torn_mounts].
Qed.
