(* ===== verification/FsVolume.v ===== *)
(** * The superblock: format, mount and its updates

    [services/fs/src/main.rs]: [sb_valid], [read_superblock], [foreign_disk],
    [mount_into], [format_into], [persist_super], [relabel]. *)

From stdpp Require Import functions strings.
From S2P Require Import Prelude Imp Crc FsDisk FsJournal FsCrash.

#[local] Open Scope imp_scope.

Definition SB_MAGIC : list Z := [71; 83; 70; 83; 48; 48; 48; 56].
Definition SB_VERSION : Z := 8.
Definition BITS_PER_BMBLOCK : Z := 4096.
Definition FEAT_COMPAT_OFF : nat := 124.
Definition FEAT_RO_COMPAT_OFF : nat := 128.
Definition FEAT_INCOMPAT_OFF : nat := 132.
Definition SB_CRC_OFF : nat := 136.
Definition FEAT_COMPAT_BACKUP_SB : Z := 1.
Definition FEAT_INCOMPAT_EXTENTS : Z := 1.
Definition FEAT_RO_COMPAT_SEALED : Z := 1.
Definition KNOWN_RO_COMPAT : Z := FEAT_RO_COMPAT_SEALED.
Definition KNOWN_INCOMPAT : Z := FEAT_INCOMPAT_EXTENTS.
Definition MAX_OPEN : nat := 64.

Definition RECS_PER_BLOCK : nat := 7.
Definition REC_SIZE : nat := 64.
Definition DIR_REC_REGION : nat := 448.
Definition DIR_CRC_OFF : nat := DIR_REC_REGION.
Definition DIR_TIMES_OFF : nat := 452.
Definition DIR_TIMES_CRC_OFF : nat := 508.

Definition E_IO : string := "storage unreadable (I/O error)".

(** ** Directory blocks: the two checksums *)

Definition dir_times_stamp (blk : Block) : Block :=
  put_u32 DIR_TIMES_CRC_OFF (crc32 (slice DIR_TIMES_OFF (DIR_TIMES_CRC_OFF - DIR_TIMES_OFF) blk)) blk.

Definition dir_stamp (blk : Block) : Block :=
  dir_times_stamp (put_u32 DIR_CRC_OFF (crc32 (take DIR_REC_REGION blk)) blk).

Definition dir_crc_ok (blk : Block) : bool := u32_at blk DIR_CRC_OFF =? crc32 (take DIR_REC_REGION blk).

Definition dir_write (lba : Z) (blk : Block) : Imp Dev bool := block_write lba (dir_stamp blk).

(** ** The superblock *)

Definition sb_valid (b : Block) : bool :=
  bool_decide (take 8 b = SB_MAGIC) && (u32_at b SB_CRC_OFF =? crc32 (take SB_CRC_OFF b)).

Definition stamp_sb (sb : Block) : Block := put_u32 SB_CRC_OFF (crc32 (take SB_CRC_OFF sb)) sb.

(** [b"FAT12"] at 54, and the like. *)
Definition fat_marks (b : Block) : bool :=
  bool_decide (slice 54 5 b = [70; 65; 84; 49; 50]) || bool_decide (slice 54 5 b = [70; 65; 84; 49; 54])
  || bool_decide (slice 82 5 b = [70; 65; 84; 51; 50]).

Definition foreign_disk (b : Block) : option string :=
  if (byte_at b 510 =? 0x55) && (byte_at b 511 =? 0xAA) then
    if fat_marks b then Some "a FAT boot volume" else Some "an MBR partition table"
  else if ((byte_at b 0 =? 0xEB) || (byte_at b 0 =? 0xE9)) && fat_marks b then Some "a FAT boot volume"
  else None.

Definition sb_failure (primary : option Block) : string :=
  match primary with
  | Some b => if bool_decide (take 8 b = SB_MAGIC)
              then "superblock checksum mismatch (both copies) - refusing to mount corrupt filesystem"
              else "bad superblock magic - disk not formatted (run drives flash)"
  | None => E_IO
  end.

Definition read_superblock : Imp Dev (Fallible Block) :=
  primary <- block_read 0 ;;
  match (match primary with
         | Some b => if sb_valid b then Some (Ok b)
                     else if foreign_disk b then Some (Err "disk holds a foreign partition table, not a GodspeedOS filesystem")
                     else None
         | None => None
         end) with
  | Some r => iret r
  | None =>
      c <- block_capacity ;;
      let cap := default 0 c in
      backup <- (if (cap >=? 2) && (cap <=? MAX_SANE_SECTORS) then block_read (cap - 1) else iret None) ;;
      match backup with
      | Some bk => if sb_valid bk then block_write 0 bk ;;; iret (Ok bk) else iret (Err (sb_failure primary))
      | None => iret (Err (sb_failure primary))
      end
  end.

(** A volume as [mount_into] and [format_into] build it, with nothing staged and nothing open. *)
Definition fresh_fs (g : Geometry) (sb : SbFields) (ro : bool) : Fs :=
  mkFs g sb ro 0 (mkCells false false false 0) (0, 0) None None (mkTxn false false [])
    (replicate MAX_OPEN (mkOpenFile 0 [] false 0)).

Definition mount_into : Imp Dev (Fallible Fs) :=
  sb <-! read_superblock ;;
  let fc := u32_at sb FEAT_COMPAT_OFF in
  let fro := u32_at sb FEAT_RO_COMPAT_OFF in
  let finc := u32_at sb FEAT_INCOMPAT_OFF in
  if negb (Z.ldiff finc KNOWN_INCOMPAT =? 0) then iret (Err "disk uses incompatible features this build does not understand") else
  let ro := negb (Z.ldiff fro KNOWN_RO_COMPAT =? 0) in
  recover (u64_at sb 108) ;;;
  again <- read_superblock ;;
  let sb := match again with Ok b => b | Err _ => sb end in
  let ll := Nat.min (Z.to_nat (byte_at sb 76)) LABEL_MAX in
  iret (Ok (fresh_fs
    (mkGeometry (u64_at sb 16) (u64_at sb 24) (u64_at sb 40) (u64_at sb 108) (u64_at sb 116))
    (mkSbFields (u64_at sb 48) (u64_at sb 56) (u64_at sb 64) (u32_at sb 72) (slice 77 ll sb) fc fro finc)
    ro)).

(** ** Format *)

(** [blk[w / 8] |= 1 << (w % 8)] and its inverse, for the bits [from, to) of a bitmap block. *)
Definition bm_set_bit (used : bool) (blk : Block) (w : Z) : Block :=
  let i := Z.to_nat (w / 8) in
  let v := byte_at blk i in
  <[i := if used then Z.lor v (Z.shiftl 1 (w mod 8)) else Z.land v (Z.lnot (Z.shiftl 1 (w mod 8)) mod 256)]> blk.
Definition bm_set_bits (used : bool) (from to : Z) (blk : Block) : Block := foldl (bm_set_bit used) blk (seqZ from (to - from)).

(** The bitmap blocks a range of blocks [first, end) touches, with the bits of each. *)
Definition bm_pieces (first end_ : Z) : list (Z * (Z * Z)) :=
  if first <? end_ then
    (fun k => (k, (Z.max first (k * BITS_PER_BMBLOCK) - k * BITS_PER_BMBLOCK,
                   Z.min end_ (k * BITS_PER_BMBLOCK + BITS_PER_BMBLOCK) - k * BITS_PER_BMBLOCK)))
      <$> seqZ (first / BITS_PER_BMBLOCK) ((end_ - 1) / BITS_PER_BMBLOCK - first / BITS_PER_BMBLOCK + 1)
  else [].

Record Layout := mkLayout { y_geo : Geometry; y_sb : SbFields; y_bitmap_blocks : Z }.

(** The layout of a disk of [capacity] blocks, if one fits. *)
Definition layout (capacity : Z) (lbl : list Z) : Fallible Layout :=
  let bitmap_blocks := (capacity + BITS_PER_BMBLOCK - 1) / BITS_PER_BMBLOCK in
  let js := 1 + bitmap_blocks in
  let ds := js + JOURNAL_BLOCKS in
  let used_through := ds + 1 in
  if capacity <? used_through + 2 then Err "disk too small for a filesystem" else
  Ok (mkLayout (mkGeometry capacity 1 ds js JOURNAL_BLOCKS)
        (mkSbFields ds 1 (capacity - used_through - 1) 0 (take LABEL_MAX lbl) FEAT_COMPAT_BACKUP_SB 0 0) bitmap_blocks).

(** The fields [persist_super] rewrites. *)
Definition put_sb_fields (f : SbFields) (sb : Block) : Block :=
  let ll := Nat.min (length (label f)) LABEL_MAX in
  let sb := put_u64 48 (root_first_block f) sb in
  let sb := put_u64 56 (root_block_count f) sb in
  let sb := put_u64 64 (free_blocks f) sb in
  let sb := put_u32 72 (sb_flags f) sb in
  let sb := put 76 [Z.of_nat ll] sb in
  let sb := put 77 (zeros LABEL_MAX) sb in
  let sb := put 77 (take ll (label f)) sb in
  let sb := put_u32 FEAT_COMPAT_OFF (feat_compat f) sb in
  let sb := put_u32 FEAT_RO_COMPAT_OFF (feat_ro_compat f) sb in
  put_u32 FEAT_INCOMPAT_OFF (feat_incompat f) sb.

(** The superblock [format_into] writes. *)
Definition format_sb (y : Layout) : Block :=
  let g := y_geo y in
  let sb := put 0 SB_MAGIC zero_block in
  let sb := put_u32 8 SB_VERSION sb in
  let sb := put_u32 12 (Z.of_nat BLOCK) sb in
  let sb := put_u64 16 (total_blocks g) sb in
  let sb := put_u64 24 (bitmap_start g) sb in
  let sb := put_u64 32 (y_bitmap_blocks y) sb in
  let sb := put_u64 40 (data_start g) sb in
  let sb := put_u64 108 (journal_start g) sb in
  let sb := put_u64 116 (journal_blocks g) sb in
  stamp_sb (put_sb_fields (y_sb y) sb).

(** Read a bitmap block, set bits of it, write it back. *)
Definition format_bits (bitmap_start : Z) (piece : Z * (Z * Z)) : Imp Dev (Fallible unit) :=
  let '(k, (from, to)) := piece in
  blk <-! ok_or (block_read (bitmap_start + k)) "bitmap read failed" ;;
  or_err (block_write (bitmap_start + k) (bm_set_bits true from to blk)) "bitmap write failed".

Definition format_into (capacity : Z) (lbl : list Z) : Imp Dev (Fallible Fs) :=
  match layout capacity lbl with
  | Err e => iret (Err e)
  | Ok y =>
      let g := y_geo y in
      let sb := format_sb y in
      let backup := total_blocks g - 1 in
      or_err (block_write 0 sb) "superblock write failed" ;;!
      or_err (block_write backup sb) "backup superblock write failed" ;;!
      or_err (block_write_zeros (bitmap_start g) (y_bitmap_blocks y)) "bitmap init failed" ;;!
      for_ok (bm_pieces 0 (data_start g + 1)) (format_bits (bitmap_start g)) ;;!
      for_ok (bm_pieces backup (backup + 1)) (format_bits (bitmap_start g)) ;;!
      or_err (dir_write (data_start g) zero_block) "root dir init failed" ;;!
      or_err (block_write (journal_start g) zero_block) "journal init failed" ;;!
      block_flush ;;;
      iret (Ok (fresh_fs g (y_sb y) false))
  end.

(** ** Updates of a mounted volume *)

Definition persist_super : Imp St (Fallible unit) :=
  want <- fs_get fs_sb ;;
  had <- fs_get sb_persisted ;;
  if bool_decide (had = Some want) then iret (Ok tt) else
  sb <-! ok_or (tb_read 0) "superblock read failed" ;;
  let sb := stamp_sb (put_sb_fields want sb) in
  or_err (tb_write 0 sb) "superblock write failed" ;;!
  total <- fs_get (total_blocks ∘ fs_geo) ;;
  or_err (tb_write (wrap64 (total - 1)) sb) "backup superblock write failed" ;;!
  fs_mod (with_persisted (Some want)) ;;;
  iret (Ok tt).

Definition with_label (lbl : list Z) (f : SbFields) : SbFields :=
  mkSbFields (root_first_block f) (root_block_count f) (free_blocks f) (sb_flags f) (take LABEL_MAX lbl)
    (feat_compat f) (feat_ro_compat f) (feat_incompat f).

Definition relabel (lbl : list Z) : Imp St (Fallible unit) :=
  fs_mod (fun f => with_sb (with_label lbl (fs_sb f)) f) ;;; persist_super.

(** ** The superblock reads back *)

Ltac fld_side :=
  solve [ unfold SB_CRC_OFF, FEAT_COMPAT_OFF, FEAT_RO_COMPAT_OFF, FEAT_INCOMPAT_OFF, LABEL_MAX in *; cbn [length]; first [ lia | blk_len ] ].

(** Read a field past the writes of others. *)
Ltac fld :=
  repeat first
    [ rewrite u32_put_same by fld_side | rewrite u64_put_same by fld_side
    | rewrite u32_put_u32_disj by fld_side | rewrite u64_put_u32_disj by fld_side
    | rewrite u32_put_u64_disj by fld_side | rewrite u64_put_u64_disj by fld_side
    | rewrite u32_put_disj by fld_side | rewrite u64_put_disj by fld_side ].

Definition u64 (x : Z) : Prop := 0 <= x < 2 ^ 64.
Definition u32 (x : Z) : Prop := 0 <= x < 2 ^ 32.

Record sb_fields_ok (f : SbFields) : Prop := {
  sf_root : u64 (root_first_block f) /\ u64 (root_block_count f) /\ u64 (free_blocks f);
  sf_masks : u32 (sb_flags f) /\ u32 (feat_compat f) /\ u32 (feat_ro_compat f) /\ u32 (feat_incompat f);
  sf_label : (length (label f) <= LABEL_MAX)%nat /\ Forall is_byte (label f);
}.

(** The same fields, as a mount reads them. *)
Definition read_sb_fields (sb : Block) : SbFields :=
  mkSbFields (u64_at sb 48) (u64_at sb 56) (u64_at sb 64) (u32_at sb 72)
    (slice 77 (Nat.min (Z.to_nat (byte_at sb 76)) LABEL_MAX) sb)
    (u32_at sb FEAT_COMPAT_OFF) (u32_at sb FEAT_RO_COMPAT_OFF) (u32_at sb FEAT_INCOMPAT_OFF).

Definition read_geometry (sb : Block) : Geometry :=
  mkGeometry (u64_at sb 16) (u64_at sb 24) (u64_at sb 40) (u64_at sb 108) (u64_at sb 116).

Lemma put_sb_fields_block (f : SbFields) (sb : Block) : Forall is_byte (label f) -> is_block sb -> is_block (put_sb_fields f sb).
Proof.
  intros Hb H. unfold put_sb_fields. do 3 apply put_u32_is_block.
  apply put_is_block; [|by apply Forall_take]. apply put_is_block; [|apply zeros_bytes].
  apply put_is_block; [|repeat constructor; unfold is_byte, LABEL_MAX; lia]. by apply put_u32_is_block; do 3 apply put_u64_is_block.
Qed.

Section Fields.
Context (f : SbFields) (Hf : sb_fields_ok f).

Lemma put_sb_fields_frame (sb : Block) : is_block sb ->
  read_geometry (put_sb_fields f sb) = read_geometry sb /\ take 8 (put_sb_fields f sb) = take 8 sb.
Proof.
  intros [H _]. destruct Hf as [_ _ [Hl _]]. unfold BLOCK in H. unfold put_sb_fields, read_geometry. cbv zeta.
  assert (length (take (Nat.min (length (label f)) LABEL_MAX) (label f)) <= 31)%nat as Ht by (rewrite length_take; unfold LABEL_MAX; lia).
  set (lab := take _ _) in *. clearbody lab. split; [f_equal; by fld|].
  unfold put_u32, put_u64. rewrite !take_put by fld_side. done.
Qed.

Lemma put_sb_fields_read (sb : Block) : is_block sb -> read_sb_fields (put_sb_fields f sb) = f.
Proof.
  intros [H _]. destruct Hf as [(? & ? & ?) (? & ? & ? & ?) [Hl Hb]]. unfold u64, u32 in *. unfold BLOCK in H. unfold put_sb_fields, read_sb_fields. cbv zeta.
  rewrite (take_ge (label f)), (Nat.min_l (length (label f))) by lia. unfold LABEL_MAX in Hl.
  assert (forall b, length b = 512%nat -> byte_at (put_u32 FEAT_INCOMPAT_OFF (feat_incompat f) (put_u32 FEAT_RO_COMPAT_OFF (feat_ro_compat f)
    (put_u32 FEAT_COMPAT_OFF (feat_compat f) (put 77 (label f) (put 77 (zeros LABEL_MAX) (put 76 [Z.of_nat (length (label f))] b)))))) 76
    = Z.of_nat (length (label f))) as ->.
  { intros b Hlb. unfold put_u32. rewrite !byte_at_put_disj by (rewrite ?to_le_length, ?zeros_length; fld_side). apply byte_at_put_same. lia. }
  2:{ by autorewrite with blk. }
  rewrite Nat2Z.id, Nat.min_l by (unfold LABEL_MAX; lia). destruct f as [rf rc fb fl lab fc fro finc]. cbn in *. f_equal; try by fld.
  unfold put_u32. rewrite !slice_put_disj by (rewrite ?to_le_length; fld_side). apply slice_put_same; [done|]. by autorewrite with blk; unfold BLOCK; lia.
Qed.

End Fields.

Section Stamp.
Context (sb : Block) (Hb : is_block sb).

Lemma stamp_sb_block : is_block (stamp_sb sb).
Proof. by apply put_u32_is_block. Qed.

Lemma stamp_sb_read : read_sb_fields (stamp_sb sb) = read_sb_fields sb /\ read_geometry (stamp_sb sb) = read_geometry sb.
Proof.
  destruct Hb as [Hl _]. unfold BLOCK in Hl. unfold stamp_sb, read_sb_fields, read_geometry. split; [|f_equal; by fld].
  unfold put_u32 at 1 2 3 4 5 6. rewrite byte_at_put_disj by (rewrite to_le_length; fld_side). f_equal; try by fld.
  unfold put_u32. apply slice_put_disj. rewrite to_le_length. fld_side.
Qed.

Lemma stamp_sb_valid : take 8 sb = SB_MAGIC -> sb_valid (stamp_sb sb) = true.
Proof.
  intros Hm. destruct Hb as [Hl Hby]. unfold sb_valid, stamp_sb. unfold BLOCK in Hl. rewrite !take_put_u32 by fld_side.
  rewrite bool_decide_true by done. rewrite u32_put_same; [apply Z.eqb_refl|apply CrcFacts.crc32_range; by apply Forall_take|fld_side].
Qed.

End Stamp.

(** ** The bitmap *)

Definition blk_bit (blk : Block) (w : Z) : bool := Z.testbit (byte_at blk (Z.to_nat (w / 8))) (w mod 8).

(** Is block [b] marked used? *)
Definition bit_of (bs : Z) (img : Image) (b : Z) : bool := blk_bit (img (bs + b / BITS_PER_BMBLOCK)) (b mod BITS_PER_BMBLOCK).

Definition mark_piece (bs : Z) (used : bool) (img : Image) (piece : Z * (Z * Z)) : Image :=
  <[bs + piece.1 := bm_set_bits used piece.2.1 piece.2.2 (img (bs + piece.1))]> img.

(** Every block of the disk is 512 bytes. *)
Definition image_ok (img : Image) : Prop := forall lba, is_block (img lba).

Lemma image_ok_insert (im : Image) (l : Z) (b : Block) : image_ok im -> is_block b -> image_ok (<[l := b]> im).
Proof. intros H Hb x. destruct (decide (l = x)) as [<-|Hne]; [by rewrite fn_lookup_insert|by rewrite fn_lookup_insert_ne]. Qed.

Section Bits.
Implicit Types (blk : Block) (w x b : Z).

Lemma testbit_single k i : 0 <= k -> 0 <= i -> Z.testbit (Z.shiftl 1 k) i = bool_decide (i = k).
Proof. intros Hk Hi. rewrite Z.shiftl_1_l. case_bool_decide; [subst; by apply Z.pow2_bits_true|apply Z.pow2_bits_false; lia]. Qed.

(** An integer is below [2 ^ n] when it has no bit from [n] on. *)
Lemma of_bits n z : 0 <= n -> (forall i, n <= i -> Z.testbit z i = false) -> 0 <= z < 2 ^ n.
Proof.
  intros Hn H. assert (z = z mod 2 ^ n) as ->; [|apply Z.mod_pos_bound, Z.pow_pos_nonneg; lia]. apply Z.bits_inj'. intros i Hi.
  destruct (decide (i < n)); [by rewrite Z.mod_pow2_bits_low by lia|]. rewrite Z.mod_pow2_bits_high by lia. apply H. lia.
Qed.

Lemma high_bits n z i : 0 <= z < 2 ^ n -> 0 <= n <= i -> Z.testbit z i = false.
Proof. intros Hz Hi. rewrite <- (Z.mod_small z (2 ^ n)) by lia. apply Z.mod_pow2_bits_high. lia. Qed.

Lemma bm_set_bit_block used blk w : 0 <= w < 4096 -> is_block blk -> is_block (bm_set_bit used blk w).
Proof.
  intros Hw [Hl Hb]. split; [unfold bm_set_bit; by rewrite length_insert|]. unfold bm_set_bit. apply Forall_insert; [done|].
  pose proof (byte_at_range blk (Z.to_nat (w / 8)) Hb) as Hv. unfold is_byte in *. pose proof (Z.mod_pos_bound w 8 ltac:(lia)).
  destruct used; apply (of_bits 8); try lia; intros i Hi.
  - rewrite Z.lor_spec, (high_bits 8 _ i Hv), testbit_single by lia. by rewrite bool_decide_false by lia.
  - by rewrite Z.land_spec, (high_bits 8 _ i Hv) by lia.
Qed.

Lemma bm_set_bit_spec used blk w x : 0 <= w < 4096 -> 0 <= x < 4096 -> is_block blk ->
  blk_bit (bm_set_bit used blk w) x = if decide (w = x) then used else blk_bit blk x.
Proof.
  intros Hw Hx [Hl Hb]. unfold blk_bit, bm_set_bit, byte_at at 1. unfold BLOCK in Hl.
  pose proof (Z.mod_pos_bound x 8 ltac:(lia)) as Hm. pose proof (Z.mod_pos_bound w 8 ltac:(lia)).
  assert (0 <= w / 8 < 512) by (split; [apply Z.div_pos; lia|apply Z.div_lt_upper_bound; lia]).
  assert (0 <= x / 8 < 512) by (split; [apply Z.div_pos; lia|apply Z.div_lt_upper_bound; lia]).
  pose proof (Z.div_mod w 8 ltac:(lia)). pose proof (Z.div_mod x 8 ltac:(lia)).
  destruct (decide (x / 8 = w / 8)) as [E|E].
  2:{ rewrite list_lookup_insert_ne by lia. rewrite decide_False by (intros ->; done). done. }
  rewrite E, list_lookup_insert_eq by lia. cbn [default option_map]. cbn. destruct used.
  - rewrite Z.lor_spec, testbit_single by lia. case_decide; [subst; by rewrite bool_decide_true, orb_true_r|].
    rewrite bool_decide_false by lia. apply orb_false_r.
  - rewrite Z.land_spec, Z.mod_pow2_bits_low with (n := 8) by lia. rewrite Z.lnot_spec, testbit_single by lia.
    case_decide; [subst; by rewrite bool_decide_true, andb_false_r|]. rewrite bool_decide_false by lia. apply andb_true_r.
Qed.

Lemma bm_set_bits_spec used from to blk : 0 <= from -> to <= 4096 -> is_block blk ->
  is_block (bm_set_bits used from to blk) /\
  forall x, 0 <= x < 4096 -> blk_bit (bm_set_bits used from to blk) x = if decide (from <= x < to) then used else blk_bit blk x.
Proof.
  intros Hf Ht Hb. unfold bm_set_bits. remember (Z.to_nat (to - from)) as n eqn:En.
  replace (seqZ from (to - from)) with (seqZ from (Z.of_nat n)) by (unfold seqZ; by rewrite Nat2Z.id, En).
  assert (forall x, (from <= x < to) <-> (from <= x < from + Z.of_nat n)) as Hiff by lia.
  setoid_rewrite (fun x => decide_ext _ _ used (blk_bit blk x) (Hiff x)). assert (from + Z.of_nat n <= 4096 \/ n = 0%nat) as Hn by lia.
  clear En Ht Hiff to. revert blk from Hf Hn Hb. induction n as [|n IH]; intros blk from Hf Hn Hb.
  { split; [done|]. intros x Hx. by rewrite decide_False by lia. }
  rewrite seqZ_cons by lia. replace (Z.pred (Z.of_nat (S n))) with (Z.of_nat n) by lia. cbn [foldl].
  destruct (IH (bm_set_bit used blk from) (Z.succ from)) as [IH1 IH2]; [lia|lia|by apply bm_set_bit_block; [lia|]|].
  split; [done|]. intros x Hx. rewrite IH2, bm_set_bit_spec by (done || lia). repeat case_decide; (done || lia).
Qed.

Definition piece_ok (p : Z * (Z * Z)) : Prop := 0 <= p.2.1 /\ p.2.2 <= 4096.
Definition covers (b : Z) (p : Z * (Z * Z)) : Prop := p.1 = b / BITS_PER_BMBLOCK /\ p.2.1 <= b mod BITS_PER_BMBLOCK < p.2.2.

#[global] Instance covers_dec b p : Decision (covers b p).
Proof. unfold covers. apply _. Defined.

Lemma mark_pieces_spec bs used l img : Forall piece_ok l -> image_ok img ->
  image_ok (foldl (mark_piece bs used) img l) /\
  (forall b, bit_of bs (foldl (mark_piece bs used) img l) b = if decide (Exists (covers b) l) then used else bit_of bs img b) /\
  (forall lba, lba - bs ∉ l.*1 -> foldl (mark_piece bs used) img l lba = img lba).
Proof.
  revert img. induction l as [|p l IH]; intros img Hl Hi.
  { split_and!; [done| |done]. intros b. rewrite decide_False; [done|]. by intros ?%Exists_nil. }
  apply Forall_cons in Hl as [[Hp1 Hp2] Hl]. cbn [foldl].
  destruct (bm_set_bits_spec used p.2.1 p.2.2 (img (bs + p.1)) Hp1 Hp2 (Hi _)) as [Hb Hbit].
  assert (image_ok (mark_piece bs used img p)) as Hi'.
  { intros lba. unfold mark_piece. destruct (decide (bs + p.1 = lba)) as [<-|Hne]; [by rewrite fn_lookup_insert|by rewrite fn_lookup_insert_ne]. }
  destruct (IH _ Hl Hi') as (IH1 & IH2 & IH3). split_and!; [done| |].
  - intros b. rewrite IH2. pose proof (Z.mod_pos_bound b BITS_PER_BMBLOCK ltac:(unfold BITS_PER_BMBLOCK; lia)) as Hm. change BITS_PER_BMBLOCK with 4096 in Hm.
    assert (bit_of bs (mark_piece bs used img p) b = if decide (covers b p) then used else bit_of bs img b) as ->.
    { unfold bit_of, mark_piece. destruct (decide (bs + p.1 = bs + b / BITS_PER_BMBLOCK)) as [E|E].
      - rewrite E, fn_lookup_insert. rewrite <- E. rewrite Hbit by (unfold BITS_PER_BMBLOCK; lia). unfold covers. repeat case_decide; try done; exfalso; intuition lia.
      - rewrite fn_lookup_insert_ne by done. rewrite decide_False; [done|]. intros [? _]. lia. }
    destruct (decide (Exists (covers b) l)); [rewrite decide_True by (by right); done|].
    destruct (decide (covers b p)); [rewrite decide_True by (by left); done|]. rewrite decide_False; [done|]. rewrite Exists_cons. naive_solver.
  - intros lba Hn. cbn in Hn. apply not_elem_of_cons in Hn as [Hn1 Hn2]. rewrite IH3 by done. unfold mark_piece. apply fn_lookup_insert_ne. lia.
Qed.

Lemma bm_pieces_ok first end_ : 0 <= first -> Forall piece_ok (bm_pieces first end_).
Proof.
  intros H. unfold bm_pieces. destruct (first <? end_); [|constructor]. apply Forall_fmap, Forall_forall. intros k _.
  unfold piece_ok. cbn. unfold BITS_PER_BMBLOCK. lia.
Qed.

Lemma bm_pieces_covers first end_ b : 0 <= first -> Exists (covers b) (bm_pieces first end_) <-> first <= b < end_.
Proof.
  intros H. unfold bm_pieces. destruct (Z.ltb_spec first end_) as [Hlt|Hge]; [|rewrite Exists_nil; lia]. rewrite Exists_fmap, Exists_exists.
  unfold covers, BITS_PER_BMBLOCK. cbn. setoid_rewrite elem_of_seqZ. pose proof (Z.div_mod b 4096 ltac:(lia)). pose proof (Z.mod_pos_bound b 4096 ltac:(lia)).
  split; [intros (k & Hk & -> & ?); lia|]. intros Hb. exists (b / 4096).
  pose proof (Z.div_le_mono first b 4096 ltac:(lia) ltac:(lia)). pose proof (Z.div_le_mono b (end_ - 1) 4096 ltac:(lia) ltac:(lia)). lia.
Qed.

Lemma bm_pieces_keys first end_ k : k ∈ (bm_pieces first end_).*1 -> first < end_ /\ first / BITS_PER_BMBLOCK <= k <= (end_ - 1) / BITS_PER_BMBLOCK.
Proof.
  unfold bm_pieces. destruct (Z.ltb_spec first end_); [|intros []%not_elem_of_nil]. rewrite <- list_fmap_compose.
  intros (x & -> & Hx)%list_elem_of_fmap. cbn. apply elem_of_seqZ in Hx. lia.
Qed.

(** Setting or clearing a range of bits. *)
Definition mark_range bs used first end_ img : Image := foldl (mark_piece bs used) img (bm_pieces first end_).

Lemma mark_range_spec bs used first end_ img : 0 <= first -> image_ok img ->
  image_ok (mark_range bs used first end_ img) /\
  (forall b, bit_of bs (mark_range bs used first end_ img) b = if decide (first <= b < end_) then used else bit_of bs img b) /\
  (forall lba, ~ (bs + first / BITS_PER_BMBLOCK <= lba <= bs + (end_ - 1) / BITS_PER_BMBLOCK) -> mark_range bs used first end_ img lba = img lba).
Proof.
  intros H Hi. destruct (mark_pieces_spec bs used _ img (bm_pieces_ok first end_ H) Hi) as (H1 & H2 & H3). split_and!; [done| |].
  - intros b. unfold mark_range. rewrite H2. apply decide_ext. by apply bm_pieces_covers.
  - intros lba Hn. apply H3. intros Hk%bm_pieces_keys. lia.
Qed.

End Bits.

(** ** A formatted disk mounts *)

Record layout_ok (y : Layout) : Prop := {
  lo_fields : sb_fields_ok (y_sb y);
  lo_geo : let g := y_geo y in bitmap_start g = 1 /\ journal_start g = 1 + y_bitmap_blocks y /\ data_start g = journal_start g + JOURNAL_BLOCKS /\
    journal_blocks g = JOURNAL_BLOCKS /\ data_start g + 3 <= total_blocks g <= MAX_SANE_SECTORS;
  lo_bitmap : 0 <= y_bitmap_blocks y /\ forall b, 0 <= b < total_blocks (y_geo y) -> b / BITS_PER_BMBLOCK < y_bitmap_blocks y;
  lo_masks : feat_incompat (y_sb y) = 0 /\ feat_ro_compat (y_sb y) = 0;
  lo_root : root_first_block (y_sb y) = data_start (y_geo y);
}.

Lemma layout_is_ok (capacity : Z) (lbl : list Z) (y : Layout) : 0 <= capacity <= MAX_SANE_SECTORS -> Forall is_byte lbl ->
  layout capacity lbl = Ok y -> layout_ok y /\ total_blocks (y_geo y) = capacity.
Proof.
  intros Hc Hl E. unfold layout in E. set (bb := (capacity + BITS_PER_BMBLOCK - 1) / BITS_PER_BMBLOCK) in E.
  destruct (Z.ltb_spec capacity (1 + bb + JOURNAL_BLOCKS + 1 + 2)) as [?|Hge]; [done|]. injection E as <-. cbn.
  unfold MAX_SANE_SECTORS, JOURNAL_BLOCKS, BITS_PER_BMBLOCK in *.
  assert (capacity <= bb * 4096 < capacity + 4096 /\ 0 <= bb) as [Hbb H0].
  { subst bb. unfold BITS_PER_BMBLOCK. pose proof (Z.div_mod (capacity + 4096 - 1) 4096 ltac:(lia)). pose proof (Z.mod_pos_bound (capacity + 4096 - 1) 4096 ltac:(lia)). lia. }
  clearbody bb. split; [|done]. constructor; cbn; [|unfold MAX_SANE_SECTORS, JOURNAL_BLOCKS; lia| |done|done].
  - constructor; cbn; unfold u64, u32; [lia|unfold FEAT_COMPAT_BACKUP_SB; lia|]. split; [rewrite length_take; unfold LABEL_MAX; lia|by apply Forall_take].
  - split; [done|]. intros b Hb. unfold BITS_PER_BMBLOCK. apply Z.div_lt_upper_bound; lia.
Qed.

Lemma format_sb_facts (y : Layout) : layout_ok y ->
  sb_valid (format_sb y) = true /\ read_sb_fields (format_sb y) = y_sb y /\ read_geometry (format_sb y) = y_geo y /\ is_block (format_sb y).
Proof.
  intros [Hf (E1 & E2 & E3 & E4 & E5) Hb _ _]. unfold format_sb. cbv zeta. set (sb := put_u64 116 _ _).
  assert (is_block sb) as Hsb.
  { do 2 apply put_u64_is_block. do 4 apply put_u64_is_block. do 2 apply put_u32_is_block. apply put_is_block; [apply zero_is_block|].
    repeat constructor; unfold is_byte; lia. }
  destruct (put_sb_fields_frame _ Hf sb Hsb) as [G1 G2]. pose proof (put_sb_fields_block _ sb (proj2 (sf_label _ Hf)) Hsb) as Hb2.
  destruct (stamp_sb_read _ Hb2) as [R1 R2]. split_and!.
  - apply stamp_sb_valid; [done|]. rewrite G2. subst sb. unfold put_u32, put_u64. rewrite !take_put by lia. by vm_compute.
  - by rewrite R1, put_sb_fields_read.
  - rewrite R2, G1. subst sb. unfold read_geometry, MAX_SANE_SECTORS, JOURNAL_BLOCKS in *. destruct (y_geo y) as [tb bs ds js jb]. cbn in *.
    f_equal; by fld.
  - by apply stamp_sb_block.
Qed.

(** The device answered in full: its image is [img'], its answers as before. *)
Definition now_holds (d d' : Dev) (img' : Image) : Prop := d_env d' = d_env d /\ d_img d' = img'.

Section Format.
Context (e : Env) (Hgood : good e).
Implicit Types d : Dev.

Lemma or_write_good d lba b err : d_env d = e ->
  post (or_err (E := string) (block_write lba b) err) d (fun d' r => r = Ok tt /\ now_holds d d' (<[lba := b]> (d_img d))).
Proof.
  intros He. apply post_or_err. eapply post_mono; [apply block_write_good; by rewrite He|]. intros d' r [(H1 & _ & H3) ->]. by repeat split.
Qed.

Lemma zeros_good d lba n err : d_env d = e ->
  post (or_err (E := string) (block_write_zeros lba n) err) d (fun d' r => r = Ok tt /\
    now_holds d d' (apply_evs (d_img d) (run_evs lba (replicate (Z.to_nat n) zero_block)))).
Proof.
  intros He. apply post_or_err. unfold block_write_zeros. apply post_bind. unfold post, write_request. rewrite He, (proj2 Hgood). by repeat split.
Qed.

Lemma run_zeros img lba n l : apply_evs img (run_evs lba (replicate n zero_block)) l =
  if decide (lba <= l < lba + Z.of_nat n) then zero_block else img l.
Proof.
  assert (forall b, EvWrite l b ∈ run_evs lba (replicate n zero_block) <-> lba <= l < lba + Z.of_nat n /\ b = zero_block) as Hin.
  { intros b. unfold run_evs. rewrite elem_of_lookup_imap. setoid_rewrite lookup_replicate. split.
    - intros (i & y & [= -> ->] & -> & Hi). split; [lia|done].
    - intros [Hl ->]. exists (Z.to_nat (l - lba)), zero_block. split; [f_equal; lia|]. split; [done|lia]. }
  case_decide as Hd.
  - apply apply_evs_written; [by apply Hin|]. intros b' Hb'. by apply Hin in Hb' as [_ ->].
  - destruct (apply_evs_cases (run_evs lba (replicate n zero_block)) img l) as [->|Hw]; [done|]. by apply Hin in Hw as [? _].
Qed.

Lemma format_bits_good bs l d : d_env d = e ->
  post (for_ok l (format_bits bs)) d (fun d' r => r = Ok tt /\ now_holds d d' (foldl (mark_piece bs true) (d_img d) l)).
Proof.
  revert d. induction l as [|[k [f t]] l IH]; intros d He; [by apply post_ret|]. cbn [for_ok]. apply post_bind_ok. unfold format_bits at 1.
  apply post_bind_ok, post_ok_or. eapply post_mono; [apply block_read_good; by rewrite He|]. intros d1 r [(H1 & _ & H3) ->]. cbn in H3.
  eapply post_mono; [apply or_write_good; by rewrite H1|]. intros d2 r (-> & H4 & H5). rewrite H3 in H5.
  eapply post_mono; [apply IH; by rewrite H4, H1|]. intros d3 r (-> & H6 & H7). split; [done|]. split; [by rewrite H6, H4, H1|].
  rewrite H7, H5. done.
Qed.

(** The disk after a format. *)
Definition formatted (y : Layout) (img : Image) : Image :=
  let g := y_geo y in
  let backup := total_blocks g - 1 in
  let img := <[backup := format_sb y]> (<[0 := format_sb y]> img) in
  let img := apply_evs img (run_evs (bitmap_start g) (replicate (Z.to_nat (y_bitmap_blocks y)) zero_block)) in
  let img := mark_range (bitmap_start g) true backup (backup + 1) (mark_range (bitmap_start g) true 0 (data_start g + 1) img) in
  <[journal_start g := zero_block]> (<[data_start g := dir_stamp zero_block]> img).

Lemma format_good d capacity lbl y : d_env d = e -> layout capacity lbl = Ok y ->
  post (format_into capacity lbl) d (fun d' r => r = Ok (fresh_fs (y_geo y) (y_sb y) false) /\ now_holds d d' (formatted y (d_img d))).
Proof.
  intros He Hy. unfold format_into. rewrite Hy. cbv zeta.
  apply post_bind_ok. eapply post_mono; [by apply or_write_good|]. intros d1 r (-> & A1 & B1). rewrite He in A1.
  apply post_bind_ok. eapply post_mono; [by apply or_write_good|]. intros d2 r (-> & A2 & B2). rewrite A1 in A2.
  apply post_bind_ok. eapply post_mono; [by apply zeros_good|]. intros d3 r (-> & A3 & B3). rewrite A2 in A3.
  apply post_bind_ok. eapply post_mono; [by apply format_bits_good|]. intros d4 r (-> & A4 & B4). rewrite A3 in A4.
  apply post_bind_ok. eapply post_mono; [by apply format_bits_good|]. intros d5 r (-> & A5 & B5). rewrite A4 in A5.
  apply post_bind_ok. unfold dir_write. eapply post_mono; [by apply or_write_good|]. intros d6 r (-> & A6 & B6). rewrite A5 in A6.
  apply post_bind_ok. eapply post_mono; [by apply or_write_good|]. intros d7 r (-> & A7 & B7). rewrite A6 in A7.
  apply post_bind. unfold block_flush. apply post_bind. unfold post at 1, block_flush_outcome.
  assert (d_img d7 = formatted y (d_img d)) as Hi by by rewrite B7, B6, B5, B4, B3, B2, B1.
  destruct (e_flush _ _); do 2 apply post_ret; (split; [done|]); split; cbn; congruence.
Qed.

End Format.

Lemma layout_fits (capacity : Z) (lbl : list Z) : 69 <= capacity <= MAX_SANE_SECTORS -> exists y, layout capacity lbl = Ok y.
Proof.
  intros Hc. unfold layout. set (bb := (capacity + BITS_PER_BMBLOCK - 1) / BITS_PER_BMBLOCK). destruct (Z.ltb_spec capacity (1 + bb + JOURNAL_BLOCKS + 1 + 2)) as [Hlt|]; [|by eexists].
  exfalso. subst bb. unfold BITS_PER_BMBLOCK, JOURNAL_BLOCKS in Hlt. pose proof (Z.div_mod (capacity + 4096 - 1) 4096 ltac:(lia)).
  pose proof (Z.mod_pos_bound (capacity + 4096 - 1) 4096 ltac:(lia)). lia.
Qed.

Lemma layout_root (capacity : Z) (lbl : list Z) (y : Layout) : layout capacity lbl = Ok y -> root_block_count (y_sb y) = 1.
Proof. unfold layout. destruct (_ <? _); [done|]. by intros [= <-]. Qed.

Lemma layout_label (capacity : Z) (lbl : list Z) (y : Layout) : layout capacity lbl = Ok y -> label (y_sb y) = take LABEL_MAX lbl.
Proof. unfold layout. destruct (_ <? _); [done|]. by intros [= <-]. Qed.

Section Formatted.
Context (y : Layout) (img : Image) (Hy : layout_ok y) (Hi : image_ok img).
Let g := y_geo y.

Let bs := bitmap_start g.
Let backup := total_blocks g - 1.

Definition formatted_zeroed : Image :=
  apply_evs (<[backup := format_sb y]> (<[0 := format_sb y]> img)) (run_evs bs (replicate (Z.to_nat (y_bitmap_blocks y)) zero_block)).

Lemma formatted_zeroed_ok : image_ok formatted_zeroed.
Proof.
  destruct (format_sb_facts y Hy) as (_ & _ & _ & Hsb). intros l. unfold formatted_zeroed. rewrite run_zeros. case_decide; [apply zero_is_block|].
  by apply image_ok_insert; [apply image_ok_insert|].
Qed.

Definition formatted_marked : Image := mark_range bs true backup (backup + 1) (mark_range bs true 0 (data_start g + 1) formatted_zeroed).

(** The format marks the system blocks, the root and the backup used, in the bitmap region. *)
Lemma formatted_marked_spec :
  image_ok formatted_marked /\
  (forall b, 0 <= b < total_blocks g -> bit_of bs formatted_marked b = bool_decide (b <= data_start g \/ b = backup)) /\
  (forall l, ~ (1 <= l < journal_start g) -> formatted_marked l = formatted_zeroed l).
Proof.
  destruct Hy as [_ (E1 & E2 & E3 & E4 & E5) [Hb0 Hb] _ _]. fold g in E1, E2, E3, E4, E5, Hb. pose proof formatted_zeroed_ok as Hz.
  unfold JOURNAL_BLOCKS in *. unfold formatted_marked.
  destruct (mark_range_spec bs true 0 (data_start g + 1) formatted_zeroed ltac:(lia) Hz) as (I1 & B1 & F1).
  destruct (mark_range_spec bs true backup (backup + 1) _ ltac:(unfold backup; lia) I1) as (I2 & B2 & F2). split_and!; [done| |].
  - intros b Hbt. rewrite B2, B1. assert (bit_of bs formatted_zeroed b = false) as ->.
    { unfold bit_of, formatted_zeroed. rewrite run_zeros, decide_True; [|pose proof (Hb b Hbt); unfold bs; rewrite E1; pose proof (Z.div_pos b BITS_PER_BMBLOCK ltac:(lia) ltac:(unfold BITS_PER_BMBLOCK; lia)); lia].
      unfold blk_bit, byte_at, zero_block, zeros. destruct (replicate BLOCK 0 !! _) as [x|] eqn:E; [|apply Z.bits_0]. apply lookup_replicate in E as [-> _]. apply Z.bits_0. }
    repeat case_decide; case_bool_decide; (done || lia).
  - intros l Hl. pose proof (Hb (data_start g) ltac:(lia)) as K1. pose proof (Hb backup ltac:(unfold backup; lia)) as K2.
    pose proof (Z.div_pos backup BITS_PER_BMBLOCK ltac:(unfold backup; lia) ltac:(unfold BITS_PER_BMBLOCK; lia)).
    rewrite F2 by (replace (backup + 1 - 1) with backup by lia; unfold bs; lia).
    apply F1. replace (data_start g + 1 - 1) with (data_start g) by lia. change (0 / BITS_PER_BMBLOCK) with 0. unfold bs. lia.
Qed.

Lemma formatted_facts :
  formatted y img 0 = format_sb y /\ formatted y img (journal_start g) = zero_block /\
  formatted y img (data_start g) = dir_stamp zero_block /\
  forall b, 0 <= b < total_blocks g -> bit_of bs (formatted y img) b = bool_decide (b <= data_start g \/ b = backup).
Proof.
  destruct formatted_marked_spec as (_ & Hbits & Hout). destruct Hy as [_ (E1 & E2 & E3 & E4 & E5) [Hb0 Hb] _ _].
  fold g in E1, E2, E3, E4, E5, Hb. unfold JOURNAL_BLOCKS in *.
  change (formatted y img) with (<[journal_start g := zero_block]> (<[data_start g := dir_stamp zero_block]> formatted_marked)). split_and!.
  - rewrite !fn_lookup_insert_ne, Hout by lia. unfold formatted_zeroed. rewrite run_zeros, decide_False by (unfold bs; lia).
    rewrite fn_lookup_insert_ne by (unfold backup; lia). by rewrite fn_lookup_insert.
  - by rewrite fn_lookup_insert.
  - rewrite fn_lookup_insert_ne by lia. by rewrite fn_lookup_insert.
  - intros b Hbt. rewrite <- Hbits by done. unfold bit_of. pose proof (Hb b Hbt).
    pose proof (Z.div_pos b BITS_PER_BMBLOCK ltac:(lia) ltac:(unfold BITS_PER_BMBLOCK; lia)).
    by rewrite !fn_lookup_insert_ne by (unfold bs; lia).
Qed.

End Formatted.

Lemma read_superblock_good (d : Dev) (sb : Block) : good (d_env d) -> d_img d 0 = sb -> sb_valid sb = true ->
  post read_superblock d (fun d' r => r = Ok sb /\ now_holds d d' (d_img d)).
Proof.
  intros Hg H0 Hv. unfold read_superblock. apply post_bind. eapply post_mono; [by apply block_read_good|]. intros d1 r [(A & _ & B) ->].
  rewrite H0, Hv. by apply post_ret.
Qed.

(** C14: Formatting a disk and mounting it gives the volume the format answered with:
    the superblock reads back, nothing is replayed, and the bitmap says exactly
    the system blocks, the root directory and the backup superblock are used. *)
Theorem format_mounts (d : Dev) (capacity : Z) (lbl : list Z) :
  good (d_env d) -> image_ok (d_img d) -> Forall is_byte lbl -> 69 <= capacity <= MAX_SANE_SECTORS ->
  exists fs,
    post (format_into capacity lbl) d (fun d1 r1 => r1 = Ok fs /\ post mount_into d1 (fun d2 r2 => r2 = Ok fs /\ d_img d2 = d_img d1) /\
      d_img d1 (root_first_block (fs_sb fs)) = dir_stamp zero_block /\
      (forall b, 0 <= b < capacity -> bit_of (bitmap_start (fs_geo fs)) (d_img d1) b =
         bool_decide (b < root_first_block (fs_sb fs) + root_block_count (fs_sb fs) \/ b = capacity - 1)) /\
      total_blocks (fs_geo fs) = capacity /\ label (fs_sb fs) = take LABEL_MAX lbl).
Proof.
  intros Hg Hi Hl Hc. destruct (layout_fits capacity lbl Hc) as [y Hy]. exists (fresh_fs (y_geo y) (y_sb y) false).
  destruct (layout_is_ok capacity lbl y ltac:(lia) Hl Hy) as [Hok Ht]. destruct (formatted_facts y (d_img d) Hok Hi) as (F0 & Fj & Fd & Fb).
  destruct (format_sb_facts y Hok) as (Sv & Sf & Sg & _). destruct Hok as [_ (E1 & E2 & E3 & E4 & E5) _ [M1 M2] Hr].
  eapply post_mono; [by apply (format_good _ Hg d capacity lbl y eq_refl Hy)|]. intros d1 r (-> & A & B). split; [done|]. split.
  2:{ rewrite B. cbn. rewrite Hr, Fd. split; [done|]. split; [|split; [done|]].
      - intros b Hb. rewrite Fb by lia. apply bool_decide_ext. rewrite Ht. assert (root_block_count (y_sb y) = 1) as -> by (by apply layout_root in Hy). lia.
      - by apply layout_label in Hy. }
  unfold mount_into. assert (good (d_env d1)) as Hg1 by by rewrite A.
  apply post_bind_ok. eapply post_mono; [apply read_superblock_good; [done|by rewrite B|done]|]. intros d2 r (-> & A2 & B2).
  assert (u64_at (format_sb y) 108 = journal_start (y_geo y)) as Ej by by rewrite <- Sg.
  assert (u32_at (format_sb y) FEAT_INCOMPAT_OFF = 0) as -> by (rewrite <- M1, <- Sf; done).
  assert (u32_at (format_sb y) FEAT_RO_COMPAT_OFF = 0) as Er by (rewrite <- M2, <- Sf; done).
  cbn [Z.ldiff Z.eqb negb]. rewrite Ej. apply post_bind.
  assert (record_lbas (d_img d2 (journal_start (y_geo y))) = None) as Hn by by rewrite B2, B, Fj, zero_not_record.
  eapply post_mono; [apply recover_good; [by rewrite A2|by rewrite Hn]|]. unfold replay_evs. rewrite Hn. intros d3 _ (A3 & _ & B3). cbn in B3.
  apply post_bind. eapply post_mono; [apply read_superblock_good; [by rewrite A3, A2|by rewrite B3, B2, B|done]|]. intros d4 r (-> & A4 & B4).
  apply post_ret. split; [|congruence]. change (mkGeometry _ _ _ _ _) with (read_geometry (format_sb y)). rewrite Sg. do 2 f_equal.
  - rewrite <- Sf. unfold read_sb_fields. f_equal. by rewrite <- M1, <- Sf at 1.
  - by rewrite Er.
Qed.

Definition small_disk : Dev := mkDev (mkEnv (fun _ => RGood) (fun _ => WGood) (fun _ => Durable) (fun _ => Some 100)) (fun _ => zero_block) [] 0.

Lemma format_mounts_witness : exists fs, post (format_into 100 [104; 105]) small_disk (fun d1 r1 => r1 = Ok fs /\ label (fs_sb fs) = [104; 105]).
Proof.
  destruct (format_mounts small_disk 100 [104; 105]) as [fs H]; [done|intros l; apply zero_is_block| |unfold MAX_SANE_SECTORS; lia|].
  - repeat constructor; unfold is_byte; lia.
  - exists fs. destruct H as (H1 & _ & _ & _ & _ & H2). split; [exact H1|exact H2].
Defined.
