(* ===== verification/FsTxn.v ===== *)
(** * What an operation sees of the disk while its transaction is open

    Reads honour staged writes ([FsJournal.tb_read], [FsJournal.tb_write]): an
    operation works on a view of the disk, and the disk itself does not change
    until the commit. *)

From stdpp Require Import functions strings.
From S2P Require Import Prelude Imp Crc FsDisk FsJournal FsCrash FsVolume.

#[local] Open Scope imp_scope.

Definition txn_of (s : St) : list (Z * Block) := txn_blocks (fs_txn (st_fs s)).

Definition view (s : St) (lba : Z) : Block := default (d_img (st_dev s) lba) (staged lba (txn_of s)).

#[global] Arguments view : simpl never.

(** A transaction is open, with room for its blocks and none of them twice, on a
    device that answers; blocks are 512 bytes, and the label bytes. *)
Record open_txn (s : St) : Prop := {
  ot_active : txn_active (fs_txn (st_fs s)) = true;
  ot_nodup : NoDup (txn_of s).*1;
  ot_fits : (length (txn_of s) <= TXN_CAP)%nat;
  ot_good : good (d_env (st_dev s));
  ot_image : image_ok (view s);
  ot_label : Forall is_byte (label (fs_sb (st_fs s)));
}.

(** Only the device's request counter moved. *)
Definition quiet (s s' : St) : Prop :=
  st_fs s' = st_fs s /\ emitted (st_dev s) (st_dev s') [] /\ st_now s' = st_now s /\ st_revoked s' = st_revoked s.

(** The volume apart from its superblock fields, its staged blocks and the lookup it kept. *)
Definition same_volume (f f' : Fs) : Prop :=
  fs_geo f' = fs_geo f /\ read_only f' = read_only f /\ fs_cells f' = fs_cells f /\ clock f' = clock f /\
  open_files f' = open_files f /\ quiesced_until f' = quiesced_until f.

(** Inside the transaction, with nothing sent to the disk: the superblock fields
    are now [sb'], and the view [view']. *)
Definition steps_to (s s' : St) (sb' : SbFields) (view' : Z -> Block) : Prop :=
  same_volume (st_fs s) (st_fs s') /\ fs_sb (st_fs s') = sb' /\
  emitted (st_dev s) (st_dev s') [] /\ st_now s' = st_now s /\ st_revoked s' = st_revoked s /\
  open_txn s' /\ forall lba, view s' lba = view' lba.

Section View.
Implicit Types (s : St) (lba : Z).

Lemma quiet_refl s : quiet s s.
Proof. repeat split. by rewrite app_nil_r. Qed.

Lemma quiet_trans s1 s2 s3 : quiet s1 s2 -> quiet s2 s3 -> quiet s1 s3.
Proof.
  intros (A1 & A2 & A3 & A4) (B1 & B2 & B3 & B4). pose proof (emitted_trans _ _ _ _ _ A2 B2) as H. unfold quiet. split_and!; [congruence|done|congruence|congruence].
Qed.

Lemma quiet_view s s' lba : quiet s s' -> view s' lba = view s lba.
Proof. intros (A1 & (_ & _ & A2) & _). unfold view, txn_of. by rewrite A1, A2. Qed.

Lemma quiet_open s s' : quiet s s' -> open_txn s -> open_txn s'.
Proof.
  intros Hq [H1 H2 H3 H4 H5 H6]. pose proof (fun l => quiet_view _ _ l Hq) as Hv. destruct Hq as (A1 & (A2 & _ & _) & _).
  constructor; unfold txn_of in *; rewrite ?A1, ?A2; try done. intros l. by rewrite Hv.
Qed.

Lemma tb_read_view s lba : open_txn s -> post (tb_read lba) s (fun s' r => r = Some (view s lba) /\ quiet s s').
Proof.
  intros [Ha _ _ Hg _ _]. unfold tb_read. apply post_bind, post_get. rewrite Ha. unfold view, txn_of.
  destruct (staged lba _) as [b|]; [apply post_ret; split; [done|apply quiet_refl]|].
  apply post_bind, post_on_dev. unfold post at 1, block_read_kind. cbn. rewrite (proj1 Hg). apply post_ret. split; [done|].
  repeat split.
Qed.

(** What reads answer, in a transaction and outside one. *)
Definition reads (s : St) (v : Image) : Prop :=
  good (d_env (st_dev s)) /\ forall lba s', quiet s s' -> post (tb_read lba) s' (fun s'' r => r = Some (v lba) /\ quiet s' s'').

Lemma open_reads s : open_txn s -> reads s (view s).
Proof.
  intros Ho. split; [apply Ho|]. intros lba s' Hq. rewrite <- (quiet_view _ _ _ Hq). apply tb_read_view. by eapply quiet_open.
Qed.

Lemma idle_reads s : txn_active (fs_txn (st_fs s)) = false -> good (d_env (st_dev s)) -> reads s (d_img (st_dev s)).
Proof.
  intros Ha Hg. split; [done|]. intros lba s' (H1 & (H2 & _ & H3) & _). unfold tb_read. apply post_bind, post_get. rewrite H1, Ha.
  apply post_bind, post_on_dev. unfold post at 1, block_read_kind. cbn. rewrite H2, (proj1 Hg), H3. apply post_ret. split; [done|]. repeat split.
Qed.

Lemma reads_quiet s s' v : quiet s s' -> reads s v -> reads s' v.
Proof.
  intros Hq [Hg Hr]. split; [by destruct Hq as (_ & (-> & _) & _)|]. intros lba s'' Hq'. apply Hr. by eapply quiet_trans.
Qed.

Lemma reads_tb s v lba : reads s v -> post (tb_read lba) s (fun s' r => r = Some (v lba) /\ quiet s s').
Proof. intros [_ Hr]. apply Hr, quiet_refl. Qed.

(** The staged list as a map. *)
Lemma staged_app lba l p : staged lba (l ++ [p]) = if decide (p.1 = lba) then Some p.2 else staged lba l.
Proof.
  unfold staged. rewrite filter_app. rewrite filter_cons, filter_nil. case_decide; [by rewrite last_snoc|by rewrite app_nil_r].
Qed.

Lemma staged_none lba l : lba ∉ l.*1 -> staged lba l = None.
Proof.
  induction l as [|p l IH] using rev_ind; intros H; [done|]. rewrite fmap_app in H. rewrite staged_app.
  rewrite decide_False by (cbn in H; set_solver). apply IH. set_solver.
Qed.

Lemma staged_elem lba b l : NoDup l.*1 -> (lba, b) ∈ l -> staged lba l = Some b.
Proof.
  induction l as [|p l IH] using rev_ind; intros Hn Hin; [by apply not_elem_of_nil in Hin|]. rewrite staged_app.
  rewrite fmap_app in Hn. apply NoDup_app in Hn as (Hn & Hd & _). apply elem_of_app in Hin as [Hin|Hin%list_elem_of_singleton].
  - rewrite decide_False; [by apply IH|]. intros E. apply (Hd lba); [apply list_elem_of_fmap; by exists (lba, b)|]. cbn. rewrite E. by left.
  - subst p. by rewrite decide_True.
Qed.

Lemma stage_spec lba b l : NoDup l.*1 -> (length l <= TXN_CAP)%nat ->
  match stage lba b l with
  | Some l' => NoDup l'.*1 /\ (length l' <= TXN_CAP)%nat /\ (forall x, staged x l' = if decide (lba = x) then Some b else staged x l) /\
               (forall x c, (x, c) ∈ l' -> (x, c) = (lba, b) \/ (x, c) ∈ l) /\ l' <> []
  | None => True
  end.
Proof.
  intros Hn Hl. unfold stage. destruct (list_find _ l) as [[i p]|] eqn:E.
  - apply list_find_Some in E as (Hi & Hp & _). assert (<[i := (lba, b)]> l = take i l ++ (lba, b) :: drop (S i) l) as Hins.
    { apply insert_take_drop. by eapply lookup_lt_Some. }
    assert ((<[i := (lba, b)]> l).*1 = l.*1) as Hfst.
    { rewrite list_fmap_insert. apply list_insert_id. rewrite list_lookup_fmap, Hi. cbn. by f_equal. }
    split_and!; [by rewrite Hfst|by rewrite length_insert| | |].
    + intros x. case_decide as Hd.
      * subst x. apply staged_elem; [by rewrite Hfst|]. rewrite Hins. set_solver.
      * destruct (decide (x ∈ l.*1)) as [Hx|Hx]; [|by rewrite !staged_none by by rewrite ?Hfst].
        apply list_elem_of_fmap in Hx as ([x' c] & -> & Hx). cbn in *. rewrite (staged_elem x' c l) by done.
        apply staged_elem; [by rewrite Hfst|]. apply list_elem_of_lookup in Hx as [j Hj]. apply list_elem_of_lookup. exists j.
        rewrite list_lookup_insert_ne; [done|]. intros ->. rewrite Hj in Hi. by simplify_eq.
    + intros x c (j & Hj)%list_elem_of_lookup. apply list_lookup_insert_Some in Hj as [(_ & <- & _)|[_ Hj]]; [by left|].
      right. by eapply list_elem_of_lookup_2.
    + intros E. apply (f_equal length) in E. rewrite length_insert in E. apply lookup_lt_Some in Hi. cbn in E. lia.
  - apply list_find_None in E. destruct (Nat.leb_spec TXN_CAP (length l)); [done|].
    assert (lba ∉ l.*1) as Hnot. { intros (p & -> & Hp)%list_elem_of_fmap. by eapply (proj1 (Forall_forall _ _) E p Hp). }
    split_and!.
    + rewrite fmap_app. apply NoDup_app. split_and!; [done| |apply NoDup_singleton]. cbn. set_solver.
    + rewrite length_app. cbn. lia.
    + intros x. by rewrite staged_app.
    + set_solver.
    + by destruct l.
Qed.

Lemma steps_refl s : open_txn s -> steps_to s s (fs_sb (st_fs s)) (view s).
Proof. intros H. unfold steps_to, same_volume. split_and!; try done. apply emitted_refl. Qed.

Lemma steps_trans s1 s2 s3 f2 f3 v2 v3 : steps_to s1 s2 f2 v2 -> steps_to s2 s3 f3 v3 -> steps_to s1 s3 f3 v3.
Proof.
  intros (A & A0 & A1 & A2 & A3 & A4 & A5) (B & B0 & B1 & B2 & B3 & B4 & B5). pose proof (emitted_trans _ _ _ _ _ A1 B1) as H. unfold same_volume in *.
  unfold steps_to, same_volume. split_and!; (done || intuition congruence).
Qed.

Lemma steps_ext s s' f v v' : (forall lba, v lba = v' lba) -> steps_to s s' f v -> steps_to s s' f v'.
Proof. intros E (A & A0 & A1 & A2 & A3 & A4 & A5). unfold steps_to. split_and!; try done. intros lba. by rewrite A5. Qed.

Lemma quiet_steps s s' : open_txn s -> quiet s s' -> steps_to s s' (fs_sb (st_fs s)) (view s).
Proof.
  intros Ho Hq. pose proof (quiet_open _ _ Hq Ho). pose proof (fun l => quiet_view s s' l Hq). destruct Hq as (A1 & A2 & A3 & A4).
  unfold steps_to, same_volume. by rewrite A1.
Qed.

Lemma steps_open s s' f v : steps_to s s' f v -> open_txn s'.
Proof. by intros (_ & _ & _ & _ & _ & H & _). Qed.

Lemma steps_geo s s' f v : steps_to s s' f v -> fs_geo (st_fs s') = fs_geo (st_fs s).
Proof. by intros ((H & _) & _). Qed.

Lemma steps_sb s s' f v : steps_to s s' f v -> fs_sb (st_fs s') = f.
Proof. by intros (_ & H & _). Qed.

Lemma steps_view s s' f v lba : steps_to s s' f v -> view s' lba = v lba.
Proof. by intros (_ & _ & _ & _ & _ & _ & H). Qed.

(** A change of the volume that stages nothing. *)
Lemma fs_mod_steps s g : open_txn s -> same_volume (st_fs s) (g (st_fs s)) -> fs_txn (g (st_fs s)) = fs_txn (st_fs s) ->
  label (fs_sb (g (st_fs s))) = label (fs_sb (st_fs s)) ->
  post (fs_mod g) s (fun s' _ => steps_to s s' (fs_sb (g (st_fs s))) (view s)).
Proof.
  intros [H1 H2 H3 H4 H5 H6] Hv Ht Hl. apply post_mod. unfold steps_to.
  assert (forall l, view (mkSt (g (st_fs s)) (st_dev s) (st_now s) (st_revoked s)) l = view s l) as Hview by (intros l; unfold view, txn_of; cbn; by rewrite Ht).
  split_and!; try done; [apply emitted_refl|].
  constructor; unfold txn_of in *; cbn; rewrite ?Ht, ?Hl; try done. intros l. by rewrite Hview.
Qed.

(** A write stages the block, or there is no room for one more. *)
Lemma tb_write_view s lba b : open_txn s -> is_block b ->
  post (tb_write lba b) s (fun s' ok => ok = true -> steps_to s s' (fs_sb (st_fs s)) (<[lba := b]> (view s))).
Proof.
  intros [Ha Hn Hl Hg Hi Hlab] Hb. unfold tb_write. apply post_bind, post_mod. apply post_bind, post_get. cbn. rewrite Ha.
  pose proof (stage_spec lba b (txn_of s) Hn Hl) as Hs. unfold txn_of in *. destruct (stage lba b _) as [l|]; [|by apply post_bind, post_mod, post_ret].
  destruct Hs as (H1 & H2 & H3 & _ & _). apply post_bind, post_mod, post_ret. intros _. set (s' := mkSt _ _ _ _).
  assert (forall x, view s' x = <[lba := b]> (view s) x) as Hview.
  { intros x. subst s'. unfold view, txn_of. cbn. rewrite H3. destruct (decide (lba = x)) as [->|Hne]; [by rewrite fn_lookup_insert|by rewrite fn_lookup_insert_ne]. }
  refine (conj _ (conj eq_refl (conj (emitted_refl _) (conj eq_refl (conj eq_refl (conj _ Hview)))))); [done|].
  constructor; try done. intros x. rewrite Hview. by apply image_ok_insert.
Qed.

(** The view outside the two copies of the superblock. *)
Definition off_super (s : St) (lba : Z) : Prop := lba <> 0 /\ lba <> wrap64 (total_blocks (fs_geo (st_fs s)) - 1).

Lemma persist_super_view s : open_txn s ->
  post persist_super s (fun s' r => r = Ok tt -> exists v, steps_to s s' (fs_sb (st_fs s)) v /\
    (forall lba, off_super s lba -> v lba = view s lba)).
Proof.
  intros Ho. unfold persist_super. apply post_bind, post_get. apply post_bind, post_get.
  destruct (bool_decide _); [apply post_ret; intros _; exists (view s); split; [by apply steps_refl|done]|].
  apply post_bind_ok, post_ok_or. eapply post_mono; [by apply tb_read_view|]. intros s1 r (-> & Hq).
  apply post_bind_ok, post_or_err. set (sb := stamp_sb _).
  assert (is_block sb) as Hsb by (apply stamp_sb_block, put_sb_fields_block; apply Ho).
  eapply post_mono; [apply tb_write_view; [by eapply quiet_open|done]|]. intros s2 ok H2.
  pose proof (quiet_steps _ _ Ho Hq) as Hs1. destruct ok; [|done]. specialize (H2 eq_refl). pose proof (steps_trans _ _ _ _ _ _ _ Hs1 H2) as Hs2.
  apply post_bind, post_get. apply post_bind_ok, post_or_err.
  eapply post_mono; [apply tb_write_view; [by eapply steps_open|done]|]. intros s3 ok H3. destruct ok; [|done]. specialize (H3 eq_refl).
  pose proof (steps_trans _ _ _ _ _ _ _ Hs2 H3) as Hs3. apply post_bind.
  eapply post_mono; [apply fs_mod_steps; [by eapply steps_open|done..]|]. intros s4 [] H4. apply post_ret. intros _.
  pose proof (steps_trans _ _ _ _ _ _ _ Hs3 H4) as Hs4. exists (view s3). cbn [fs_sb with_persisted] in Hs4.
  rewrite (steps_sb _ _ _ _ Hs3), (steps_sb _ _ _ _ Hs2), (steps_sb _ _ _ _ Hs1) in Hs4. split; [done|].
  intros lba [Hn1 Hn2]. rewrite (steps_view _ _ _ _ lba H3). cbn [compose].
  rewrite fn_lookup_insert_ne by (rewrite (steps_geo _ _ _ _ Hs2); auto). rewrite (steps_view _ _ _ _ lba H2).
  rewrite fn_lookup_insert_ne by auto. by apply quiet_view.
Qed.

End View.
