(* ===== verification/FsAlloc.v ===== *)
(** * Block allocation

    [services/fs/src/main.rs]: the free bitmap ([alloc_run], [free_run],
    [bm_set_range], [find_free_run]) and the extent lists of fragmented files
    ([ext_of], [ext_write], [alloc_extents], [alloc_file], [free_file]). *)

From stdpp Require Import functions strings.
From S2P Require Import Prelude Imp Crc FsDisk FsJournal FsCrash FsVolume FsTxn.

#[local] Open Scope imp_scope.

Definition ITYPE_FREE : Z := 0.
Definition ITYPE_FILE : Z := 1.
Definition ITYPE_DIR : Z := 2.
Definition ITYPE_FILE_FRAG : Z := 3.

Definition EXT_N_OFF : nat := 0.
Definition EXT_ENTRIES_OFF : nat := 8.
Definition EXT_ENTRY_SIZE : nat := 16.
Definition EXT_CRC_OFF : nat := 508.
Definition EXT_MAX : nat := 31.

(** ** The bitmap *)

Definition set_free (x : Z) (f : SbFields) : SbFields :=
  mkSbFields (root_first_block f) (root_block_count f) x (sb_flags f) (label f) (feat_compat f) (feat_ro_compat f) (feat_incompat f).
Definition set_root (first count : Z) (f : SbFields) : SbFields :=
  mkSbFields first count (free_blocks f) (sb_flags f) (label f) (feat_compat f) (feat_ro_compat f) (feat_incompat f).
Definition set_masks (ro incompat : Z) (f : SbFields) : SbFields :=
  mkSbFields (root_first_block f) (root_block_count f) (free_blocks f) (sb_flags f) (label f) (feat_compat f) ro incompat.
Definition sb_mod (g : SbFields -> SbFields) : Imp St unit := fs_mod (fun f => with_sb (g (fs_sb f)) f).

Definition is_root (sb : SbFields) (idx : Z) : bool :=
  (root_first_block sb <=? idx) && (idx <? saturating_add64 (root_first_block sb) (root_block_count sb)).

(** [bm_set_range]: one bitmap block at a time. *)
Definition bm_set_piece (used : bool) (piece : Z * (Z * Z)) : Imp St (Fallible unit) :=
  let '(k, (from, to)) := piece in
  bs <- fs_get (bitmap_start ∘ fs_geo) ;;
  blk <-! ok_or (tb_read (bs + k)) "bitmap read failed" ;;
  or_err (tb_write (bs + k) (bm_set_bits used from to blk)) "bitmap write failed".

Definition bm_set_range (first count : Z) (used : bool) : Imp St (Fallible unit) :=
  for_ok (bm_pieces first (wrap64 (first + count))) (bm_set_piece used).

(** The inner loop of [alloc_run]: the start of a run of [n], or the run so far. *)
Fixpoint scan_run (sb : SbFields) (blk : Block) (base n : Z) (ws : list Z) (run : option Z) (len : Z) : Z + (option Z * Z) :=
  match ws with
  | [] => inr (run, len)
  | w :: ws =>
      let idx := base + w in
      if is_root sb idx || blk_bit blk w then scan_run sb blk base n ws None 0
      else
        let start := default idx run in
        let len := match run with Some _ => len | None => 0 end + 1 in
        if len =? n then inl start else scan_run sb blk base n ws (Some start) len
  end.

Fixpoint alloc_scan (n : Z) (pieces : list (Z * (Z * Z))) (run : option Z) (len : Z) : Imp St (Fallible (option Z)) :=
  match pieces with
  | [] => iret (Ok None)
  | (k, (from, to)) :: pieces =>
      bs <- fs_get (bitmap_start ∘ fs_geo) ;;
      sb <- fs_get fs_sb ;;
      blk <-! ok_or (tb_read (bs + k)) "bitmap read failed" ;;
      match scan_run sb blk (k * BITS_PER_BMBLOCK) n (seqZ from (to - from)) run len with
      | inl start => iret (Ok (Some start))
      | inr (run, len) => alloc_scan n pieces run len
      end
  end.

Definition alloc_run (n : Z) : Imp St (Fallible Z) :=
  if n =? 0 then iret (Err "zero alloc") else
  g <- fs_get fs_geo ;;
  found <-! alloc_scan n (bm_pieces (data_start g) (total_blocks g)) None 0 ;;
  match found with
  | None => iret (Err "no space")
  | Some start =>
      bm_set_range start n true ;;!
      sb_mod (fun f => set_free (saturating_sub (free_blocks f) n) f) ;;;
      persist_super ;;!
      iret (Ok start)
  end.

Definition free_run (first count : Z) : Imp St (Fallible unit) :=
  if count =? 0 then iret (Ok tt) else
  bm_set_range first count false ;;!
  sb_mod (fun f => set_free (wrap64 (free_blocks f + count)) f) ;;;
  persist_super.

Definition free_run_txn (first count : Z) : Imp St (Fallible unit) :=
  begin_txn ;;; r <- free_run first count ;; end_txn r.

(** ** Extent lists *)

Definition ext_of (e : Entry) : Imp St (option (list (Z * Z))) :=
  blk <-? tb_read (first_block e) ;;
  iret (if negb (u32_at blk EXT_CRC_OFF =? crc32 (take EXT_CRC_OFF blk)) then None else
        let n := Z.to_nat (Z.min (u32_at blk EXT_N_OFF) (Z.of_nat EXT_MAX)) in
        Some ((fun i => let o := (EXT_ENTRIES_OFF + i * EXT_ENTRY_SIZE)%nat in (u64_at blk o, u64_at blk (o + 8))) <$> seq 0 n)).

Definition ext_block (exts : list (Z * Z)) : Block :=
  let blk := put_u32 EXT_N_OFF (Z.of_nat (length exts)) zero_block in
  let blk := put EXT_ENTRIES_OFF (concat ((fun p => to_le_bytes 8 p.1 ++ to_le_bytes 8 p.2) <$> exts)) blk in
  put_u32 EXT_CRC_OFF (crc32 (take EXT_CRC_OFF blk)) blk.

Definition ext_write (lba : Z) (exts : list (Z * Z)) : Imp St bool := tb_write lba (ext_block exts).

(** [find_free_run]: the next maximal free span. *)
Fixpoint scan_span (sb : SbFields) (blk : Block) (base : Z) (ws : list Z) (start : option Z) (len : Z) : (Z * Z) + (option Z * Z) :=
  match ws with
  | [] => inr (start, len)
  | w :: ws =>
      let idx := base + w in
      if is_root sb idx || blk_bit blk w then
        match start with
        | Some s => inl (s, len)
        | None => scan_span sb blk base ws None len
        end
      else
        match start with
        | Some s => scan_span sb blk base ws (Some s) (len + 1)
        | None => scan_span sb blk base ws (Some idx) 1
        end
  end.

Fixpoint span_scan (pieces : list (Z * (Z * Z))) (start : option Z) (len : Z) : Imp St (option (Z * Z)) :=
  match pieces with
  | [] => iret ((fun s => (s, len)) <$> start)
  | (k, (from, to)) :: pieces =>
      bs <- fs_get (bitmap_start ∘ fs_geo) ;;
      sb <- fs_get fs_sb ;;
      blk <-? tb_read (bs + k) ;;
      match scan_span sb blk (k * BITS_PER_BMBLOCK) (seqZ from (to - from)) start len with
      | inl r => iret (Some r)
      | inr (start, len) => span_scan pieces start len
      end
  end.

Definition find_free_run (from : Z) : Imp St (option (Z * Z)) :=
  g <- fs_get fs_geo ;;
  span_scan (bm_pieces (Z.max from (data_start g)) (total_blocks g)) None 0.

(** Give back what was taken; failures are ignored there. *)
Definition unmark (out : list (Z * Z)) : Imp St unit :=
  for_each out (fun p => bm_set_range p.1 p.2 false ;;; iret tt).

(** The loop of [alloc_extents], a run of the list in each round. *)
Fixpoint grab (fuel : nat) (need from : Z) (out : list (Z * Z)) : Imp St (Fallible (list (Z * Z))) :=
  if need =? 0 then iret (Ok out) else
  match fuel with
  | O => unmark out ;;; iret (Err "file too fragmented")
  | S fuel =>
      r <- find_free_run from ;;
      match r with
      | None => unmark out ;;; iret (Err "no space")
      | Some (start, len) =>
          let take := Z.min len need in
          bm_set_range start take true ;;!
          grab fuel (need - take) (start + len) (out ++ [(start, take)])
      end
  end.

Definition alloc_extents (blocks : Z) : Imp St (Fallible (list (Z * Z))) :=
  ds <- fs_get (data_start ∘ fs_geo) ;;
  out <-! grab EXT_MAX blocks ds [] ;;
  sb_mod (fun f => set_free (saturating_sub (free_blocks f) blocks) f) ;;;
  persist_super ;;!
  iret (Ok out).

Definition free_runs (exts : list (Z * Z)) : Imp St unit :=
  for_each exts (fun p => free_run p.1 p.2 ;;; iret tt).

(** The feature bit of a volume with fragmented files. *)
Definition flag_extents : Imp St (Fallible unit) :=
  sb <- fs_get fs_sb ;;
  if Z.land (feat_incompat sb) FEAT_INCOMPAT_EXTENTS =? 0 then
    sb_mod (fun f => set_masks (feat_ro_compat f) (Z.lor (feat_incompat f) FEAT_INCOMPAT_EXTENTS) f) ;;; persist_super
  else iret (Ok tt).

Definition alloc_file (blocks : Z) : Imp St (Fallible (Z * Z * Z)) :=
  r <- alloc_run blocks ;;
  match r with
  | Ok first => iret (Ok (ITYPE_FILE, first, blocks))
  | Err e =>
      if bool_decide (e <> "no space") then iret (Err e) else
      exts <-! alloc_extents blocks ;;
      r <- alloc_run 1 ;;
      match r with
      | Err e => free_runs exts ;;; iret (Err e)
      | Ok ext_lba =>
          ok <- ext_write ext_lba exts ;;
          if negb ok then free_run ext_lba 1 ;;; free_runs exts ;;; iret (Err "extent block write failed") else
          flag_extents ;;!
          iret (Ok (ITYPE_FILE_FRAG, ext_lba, 1))
      end
  end.

Definition free_file (e : Entry) : Imp St (Fallible unit) :=
  if itype e =? ITYPE_FILE_FRAG then
    exts <-! ok_or (ext_of e) "extent block read failed" ;;
    for_ok exts (fun p => free_run p.1 p.2) ;;!
    free_run (first_block e) (block_count e)
  else free_run (first_block e) (block_count e).

(** ** Marking *)

Lemma mark_pieces_ext (bs : Z) (used : bool) (l : list (Z * (Z * Z))) (v v' : Image) : (forall x, v x = v' x) ->
  forall x, foldl (mark_piece bs used) v l x = foldl (mark_piece bs used) v' l x.
Proof.
  revert v v'. induction l as [|p l IH]; intros v v' E; [done|]. apply IH. intros x. unfold mark_piece. rewrite E.
  destruct (decide (bs + p.1 = x)) as [<-|Hne]; [by rewrite !fn_lookup_insert|by rewrite !fn_lookup_insert_ne].
Qed.

Lemma bm_set_pieces_view (used : bool) (l : list (Z * (Z * Z))) (s : St) : open_txn s -> Forall piece_ok l ->
  post (for_ok l (bm_set_piece used)) s (fun s' r => r = Ok tt ->
    steps_to s s' (fs_sb (st_fs s)) (foldl (mark_piece (bitmap_start (fs_geo (st_fs s))) used) (view s) l)).
Proof.
  revert s. induction l as [|[k [f t]] l IH]; intros s Ho Hl; [apply post_ret; intros _; by apply steps_refl|]. cbn [for_ok].
  apply Forall_cons in Hl as [[Hp1 Hp2] Hl].
  apply post_bind_ok. unfold bm_set_piece at 1. apply post_bind, post_get. apply post_bind_ok, post_ok_or.
  eapply post_mono; [by apply tb_read_view|]. intros s1 r (-> & Hq). apply post_or_err.
  eapply post_mono; [apply tb_write_view; [by eapply quiet_open|apply bm_set_bits_spec; [done|done|apply Ho]]|]. intros s2 ok H2. destruct ok; [|done]. specialize (H2 eq_refl).
  pose proof (steps_trans _ _ _ _ _ _ _ (quiet_steps _ _ Ho Hq) H2) as Hs. eapply post_mono; [apply IH; [by eapply steps_open|done]|].
  intros s3 r H3 Hr. specialize (H3 Hr). pose proof (steps_trans _ _ _ _ _ _ _ Hs H3) as Hs3.
  rewrite (steps_sb _ _ _ _ Hs), (steps_geo _ _ _ _ Hs) in Hs3. rewrite (proj1 Hq) in Hs3.
  eapply steps_ext; [|exact Hs3]. intros x. cbn [foldl]. apply mark_pieces_ext. intros y. rewrite (steps_view _ _ _ _ y Hs). unfold mark_piece. cbn [fst snd compose].
  destruct (decide (bitmap_start (fs_geo (st_fs s)) + k = y)) as [<-|Hne]; [by rewrite !fn_lookup_insert|].
  rewrite !fn_lookup_insert_ne by done. by apply quiet_view.
Qed.

Lemma bm_set_range_view (first count : Z) (used : bool) (s : St) : open_txn s -> 0 <= first ->
  post (bm_set_range first count used) s (fun s' r => r = Ok tt ->
    steps_to s s' (fs_sb (st_fs s)) (mark_range (bitmap_start (fs_geo (st_fs s))) used first (wrap64 (first + count)) (view s))).
Proof. intros Ho Hf. by apply bm_set_pieces_view, bm_pieces_ok. Qed.

(** ** Scanning *)

(** Pieces that go through the blocks from [pos] to [end_] in order. *)
Fixpoint chain (pos : Z) (pieces : list (Z * (Z * Z))) (end_ : Z) : Prop :=
  match pieces with
  | [] => pos = end_
  | (k, (f, t)) :: pieces => k * BITS_PER_BMBLOCK + f = pos /\ 0 <= f <= t /\ t <= BITS_PER_BMBLOCK /\ chain (k * BITS_PER_BMBLOCK + t) pieces end_
  end.

Lemma bm_pieces_chain (first end_ : Z) : 0 <= first <= end_ -> chain first (bm_pieces first end_) end_.
Proof.
  intros H. unfold bm_pieces. destruct (Z.ltb_spec first end_) as [Hlt|]; [|cbn; lia]. unfold BITS_PER_BMBLOCK.
  assert (forall (n : nat) k pos, k = pos / 4096 -> first <= pos < end_ -> (pos = first \/ pos = k * 4096) -> Z.of_nat n = (end_ - 1) / 4096 - k ->
    chain pos ((fun k => (k, (Z.max first (k * 4096) - k * 4096, Z.min end_ (k * 4096 + 4096) - k * 4096))) <$> seqZ k (Z.of_nat n + 1)) end_) as Hgen.
  { intros n. induction n as [|n IH]; intros k pos -> Hpos Hor Hn; rewrite seqZ_cons by lia; cbn [fmap list_fmap chain]; unfold BITS_PER_BMBLOCK.
    - rewrite seqZ_nil by lia. cbn [fmap list_fmap chain]. pose proof (Z.div_mod pos 4096 ltac:(lia)). pose proof (Z.mod_pos_bound pos 4096 ltac:(lia)).
      pose proof (Z.div_mod (end_ - 1) 4096 ltac:(lia)). pose proof (Z.mod_pos_bound (end_ - 1) 4096 ltac:(lia)). lia.
    - replace (Z.pred (Z.of_nat (S n) + 1)) with (Z.of_nat n + 1) by lia. pose proof (Z.div_mod pos 4096 ltac:(lia)). pose proof (Z.mod_pos_bound pos 4096 ltac:(lia)).
      pose proof (Z.div_mod (end_ - 1) 4096 ltac:(lia)). pose proof (Z.mod_pos_bound (end_ - 1) 4096 ltac:(lia)).
      split; [lia|]. split; [lia|]. split; [lia|]. replace (_ + (_ - _)) with (pos / 4096 * 4096 + 4096) by lia.
      apply IH; [|lia|lia|lia]. replace (pos / 4096 * 4096 + 4096) with ((pos / 4096 + 1) * 4096) by lia. rewrite Z.div_mul by lia. lia. }
  pose proof (Z.div_le_mono first (end_ - 1) 4096 ltac:(lia) ltac:(lia)).
  replace ((end_ - 1) / 4096 - first / 4096 + 1) with (Z.of_nat (Z.to_nat ((end_ - 1) / 4096 - first / 4096)) + 1) by lia.
  apply Hgen; [done|lia|by left|lia].
Qed.

(** A block the allocator may hand out. *)
Definition takeable (s : St) (idx : Z) : Prop :=
  is_root (fs_sb (st_fs s)) idx = false /\ bit_of (bitmap_start (fs_geo (st_fs s))) (view s) idx = false.

Definition takeable_run (s : St) (start n : Z) : Prop := forall i, start <= i < start + n -> takeable s i.

(** Where the scan stands at [pos]: the free blocks just before it are the run,
    and no run of [n] ends before it. *)
Record scanned (s : St) (lo n pos : Z) (run : option Z) (len : Z) : Prop := {
  sc_run : match run with
           | Some st => lo <= st /\ st + len = pos /\ 0 < len < n /\ takeable_run s st len /\ (st = lo \/ ~ takeable s (st - 1))
           | None => pos = lo \/ ~ takeable s (pos - 1)
           end;
  sc_none : forall st, lo <= st -> st + n <= pos -> ~ takeable_run s st n;
}.

(** [start] is the first place a run of [n] fits. *)
Definition first_fit (s : St) (lo hi n start : Z) : Prop :=
  lo <= start /\ start + n <= hi /\ takeable_run s start n /\ forall st, lo <= st < start -> ~ takeable_run s st n.

Section Scan.
Context (s : St) (lo n : Z) (Hn : 0 < n).

Lemma takeable_dec (idx : Z) : {takeable s idx} + {~ takeable s idx}.
Proof. unfold takeable. destruct (is_root _ _), (bit_of _ _ _); (by left) || (right; naive_solver). Qed.

(** One more block. *)
Lemma scanned_used pos run len : lo <= pos -> scanned s lo n pos run len -> ~ takeable s pos -> scanned s lo n (pos + 1) None 0.
Proof.
  intros Hlo [_ Hnone] Ht. constructor; [right; by replace (pos + 1 - 1) with pos by lia|]. intros st Hst Hle Hrun.
  destruct (decide (st + n <= pos)); [by apply (Hnone st)|]. apply Ht, Hrun. lia.
Qed.

Lemma scanned_free pos run len : lo <= pos -> scanned s lo n pos run len -> takeable s pos ->
  let start := default pos run in
  let len' := match run with Some _ => len | None => 0 end + 1 in
  if len' =? n then first_fit s lo (pos + 1) n start else scanned s lo n (pos + 1) (Some start) len'.
Proof.
  intros Hlo [Hrun Hnone] Ht. cbv zeta.
  assert (exists st l, default pos run = st /\ match run with Some _ => len | None => 0 end + 1 = l /\ lo <= st /\ st + l = pos + 1 /\ 0 < l <= n /\
    takeable_run s st l /\ (st = lo \/ ~ takeable s (st - 1))) as (st & l & -> & -> & H1 & H2 & H3 & H4 & H5).
  { destruct run as [st|]; cbn.
    - destruct Hrun as (R1 & R2 & R3 & R4 & R5). exists st, (len + 1). split_and!; try (done || lia). intros i Hi. destruct (decide (i = pos)) as [->|]; [done|apply R4; lia].
    - exists pos, 1. split_and!; try (done || lia). intros i Hi. by replace i with pos by lia. }
  destruct (Z.eqb_spec l n) as [->|Hne].
  - split_and!; try (done || lia). intros st' Hst'. apply Hnone; lia.
  - constructor; [split_and!; (done || lia)|]. intros st' Hst' Hle Hr. destruct (decide (st' + n <= pos)); [by apply (Hnone st')|].
    destruct (decide (st' < st)); [|lia]. destruct H5 as [->|H5]; [lia|]. apply H5, Hr. lia.
Qed.

Lemma scan_run_spec (k : Z) (m : nat) w0 run len : 0 <= w0 -> w0 + Z.of_nat m <= BITS_PER_BMBLOCK -> lo <= k * BITS_PER_BMBLOCK + w0 ->
  scanned s lo n (k * BITS_PER_BMBLOCK + w0) run len ->
  match scan_run (fs_sb (st_fs s)) (view s (bitmap_start (fs_geo (st_fs s)) + k)) (k * BITS_PER_BMBLOCK) n (seqZ w0 (Z.of_nat m)) run len with
  | inl st => first_fit s lo (k * BITS_PER_BMBLOCK + w0 + Z.of_nat m) n st
  | inr (run, len) => scanned s lo n (k * BITS_PER_BMBLOCK + w0 + Z.of_nat m) run len
  end.
Proof.
  revert w0 run len. induction m as [|m IH]; intros w0 run len H0 Hm Hlo Hs; [rewrite seqZ_nil by lia; cbn; by rewrite Z.add_0_r|].
  rewrite seqZ_cons by lia. replace (Z.pred (Z.of_nat (S m))) with (Z.of_nat m) by lia. cbn [scan_run]. unfold BITS_PER_BMBLOCK in *.
  set (pos := k * 4096 + w0) in *. assert (pos / 4096 = k /\ pos mod 4096 = w0) as [Hd Hmod].
  { subst pos. rewrite Z.add_comm, Z.div_add, Z.mod_add, Z.div_small, Z.mod_small by lia. lia. }
  assert (takeable s pos <-> is_root (fs_sb (st_fs s)) pos || blk_bit (view s (bitmap_start (fs_geo (st_fs s)) + k)) w0 = false) as Ht.
  { unfold takeable, bit_of, BITS_PER_BMBLOCK. rewrite Hd, Hmod. by rewrite orb_false_iff. }
  replace (pos + Z.of_nat (S m)) with (k * 4096 + Z.succ w0 + Z.of_nat m) by (subst pos; lia).
  assert (k * 4096 + Z.succ w0 = pos + 1) as Hsucc by (subst pos; lia).
  destruct (_ || _).
  - apply (IH (Z.succ w0)); [lia|lia|lia|]. rewrite Hsucc. eapply scanned_used; [done|exact Hs|]. intros Hx. by apply Ht in Hx.
  - pose proof (scanned_free pos run len Hlo Hs (proj2 Ht eq_refl)) as Hf. cbv zeta in Hf. destruct (_ =? n).
    + destruct Hf as (F1 & F2 & F3 & F4). split_and!; (done || lia).
    + apply (IH (Z.succ w0)); [lia|lia|lia|]. by rewrite Hsucc.
Qed.

End Scan.

(** The geometry a format makes: superblock, bitmap, journal, data, backup. *)
Record geo_ok (g : Geometry) : Prop := {
  go_bitmap : 1 <= bitmap_start g /\ bitmap_start g + (total_blocks g - 1) / BITS_PER_BMBLOCK < journal_start g;
  go_journal : journal_start g + JOURNAL_BLOCKS <= data_start g;
  go_data : data_start g < total_blocks g - 1;
  go_total : 0 < total_blocks g <= MAX_SANE_SECTORS;
}.

Lemma layout_geo_ok (y : Layout) : layout_ok y -> geo_ok (y_geo y).
Proof.
  intros [_ (E1 & E2 & E3 & E4 & E5) [Hb0 Hb] _ _]. specialize (Hb (total_blocks (y_geo y) - 1)). constructor; unfold JOURNAL_BLOCKS in *; lia.
Qed.

Lemma chain_le (pos : Z) (pieces : list (Z * (Z * Z))) (end_ : Z) : chain pos pieces end_ -> pos <= end_.
Proof. revert pos. induction pieces as [|[k [f t]] l IH]; intros pos; cbn [chain]; [lia|]. intros (H1 & H2 & H3 & H4). apply IH in H4. lia. Qed.

Section Alloc.
Context (s : St) (Ho : open_txn s) (n : Z) (Hn : 0 < n).

Lemma alloc_scan_view lo hi pieces pos run len s' : quiet s s' -> chain pos pieces hi -> lo <= pos -> scanned s lo n pos run len ->
  post (alloc_scan n pieces run len) s' (fun s'' r => quiet s s'' /\
    match r with
    | Ok (Some st) => first_fit s lo hi n st
    | Ok None => forall st, lo <= st -> st + n <= hi -> ~ takeable_run s st n
    | Err _ => False
    end).
Proof.
  revert pos run len s'. induction pieces as [|[k [f t]] l IH]; intros pos run len s' Hq Hc Hlo Hs; cbn [chain alloc_scan] in *.
  { apply post_ret. split; [done|]. subst hi. apply Hs. }
  destruct Hc as (E & Hf & Ht & Hc). apply post_bind, post_get. apply post_bind, post_get. apply post_bind_ok, post_ok_or. cbn [compose].
  eapply post_mono; [apply tb_read_view; by eapply quiet_open|]. intros s1 r (-> & Hq1). pose proof (quiet_trans _ _ _ Hq Hq1) as Hq2.
  rewrite (quiet_view _ _ _ Hq), (proj1 Hq). pose proof (scan_run_spec s lo n Hn k (Z.to_nat (t - f)) f run len) as Hscan.
  rewrite Z2Nat.id in Hscan by lia. rewrite E in Hscan. specialize (Hscan ltac:(lia) ltac:(lia) ltac:(lia) Hs).
  replace (pos + (t - f)) with (k * BITS_PER_BMBLOCK + t) in Hscan by lia.
  destruct (scan_run _ _ _ _ _ _ _) as [st|[run' len']].
  - apply post_ret. split; [done|]. apply chain_le in Hc. destruct Hscan as (F1 & F2 & F3 & F4). split_and!; (done || lia).
  - eapply IH; [done|exact Hc|lia|done].
Qed.

End Alloc.

(** What the bitmap says of the blocks of the disk. *)
Definition used_bit (s : St) (b : Z) : bool := bit_of (bitmap_start (fs_geo (st_fs s))) (view s) b.

(** Blocks that hold neither the superblock nor the bitmap. *)
Definition off_meta (s : St) (lba : Z) : Prop :=
  let g := fs_geo (st_fs s) in
  lba <> 0 /\ lba <> total_blocks g - 1 /\ ~ (bitmap_start g <= lba < journal_start g).

(** Marking a range inside the disk. *)
Lemma mark_range_used (s s' : St) (f : SbFields) (v v' : Image) (used : bool) (first count : Z) :
  open_txn s -> geo_ok (fs_geo (st_fs s)) -> 0 <= first -> 0 < count -> first + count <= total_blocks (fs_geo (st_fs s)) ->
  v = mark_range (bitmap_start (fs_geo (st_fs s))) used first (wrap64 (first + count)) (view s) ->
  steps_to s s' f v' -> (forall lba, off_super s lba -> v' lba = v lba) ->
  (forall b, 0 <= b < total_blocks (fs_geo (st_fs s)) -> used_bit s' b = if decide (first <= b < first + count) then used else used_bit s b) /\
  (forall lba, off_meta s lba -> view s' lba = view s lba).
Proof.
  intros [_ _ _ _ Hi _] [[G1 G2] G3 G4 G5] H0 Hc Ht -> Hs Hv. unfold MAX_SANE_SECTORS, JOURNAL_BLOCKS in *. set (g := fs_geo (st_fs s)) in *.
  assert (wrap64 (first + count) = first + count) as Ec by (apply wrap64_small; unfold u64_max; lia). rewrite Ec in Hv.
  assert (wrap64 (total_blocks g - 1) = total_blocks g - 1) as Ew by (apply wrap64_small; unfold u64_max; lia).
  destruct (mark_range_spec (bitmap_start g) used first (first + count) (view s) H0 Hi) as (_ & Hb & Hout).
  assert (forall b, 0 <= b < total_blocks g -> 0 <= b / BITS_PER_BMBLOCK <= (total_blocks g - 1) / BITS_PER_BMBLOCK) as Hdiv.
  { intros b Hbt. split; [apply Z.div_pos; unfold BITS_PER_BMBLOCK; lia|apply Z.div_le_mono; unfold BITS_PER_BMBLOCK; lia]. }
  split.
  - intros b Hbt. unfold used_bit. rewrite (steps_geo _ _ _ _ Hs). fold g. rewrite <- Hb. unfold bit_of. f_equal.
    rewrite (steps_view _ _ _ _ _ Hs). apply Hv. unfold off_super. fold g. rewrite Ew. specialize (Hdiv b Hbt). lia.
  - intros lba (Hl0 & Hlt & Hlb). rewrite (steps_view _ _ _ _ _ Hs), Hv by (unfold off_super; fold g; by rewrite Ew). apply Hout.
    fold g in Hlb. pose proof (Hdiv first ltac:(lia)). pose proof (Hdiv (first + count - 1) ltac:(lia)). lia.
Qed.

Lemma persist_avoids : avoids "no space" persist_super.
Proof. unfold persist_super. avoid. Qed.

Lemma bm_set_range_avoids (first count : Z) (used : bool) : avoids "no space" (bm_set_range first count used).
Proof. unfold bm_set_range. apply avoids_for_ok. intros [k [f t]]. unfold bm_set_piece. avoid. Qed.

(** Taking or giving back a run, then recording it. *)
Lemma mark_then {A} (s : St) (first count : Z) (used : bool) (h : SbFields -> SbFields) (k : Imp St (Fallible A)) (Q : St -> Fallible A -> Prop) :
  open_txn s -> 0 <= first -> label (h (fs_sb (st_fs s))) = label (fs_sb (st_fs s)) ->
  (forall s', steps_to s s' (h (fs_sb (st_fs s))) (mark_range (bitmap_start (fs_geo (st_fs s))) used first (wrap64 (first + count)) (view s)) -> post k s' Q) ->
  (forall s' e, e <> "no space" -> Q s' (Err e)) ->
  post (bm_set_range first count used ;;! sb_mod h ;;; k) s Q.
Proof.
  intros Ho Hfirst Hlab Hk Herr. apply post_bind_ok. eapply post_mono; [apply post_avoids; [apply bm_set_range_avoids|by apply bm_set_range_view]|].
  intros s1 [[]|e] [Hne H1]; [|apply Herr; congruence]. specialize (H1 eq_refl).
  apply post_bind. eapply post_mono; [apply fs_mod_steps; [by eapply steps_open|done|done|cbn; by rewrite (steps_sb _ _ _ _ H1)]|]. intros s2 [] H2. cbn [fs_sb with_sb] in H2.
  pose proof (steps_trans _ _ _ _ _ _ _ H1 H2) as Hs2. rewrite (steps_sb _ _ _ _ H1) in Hs2. apply Hk.
  eapply steps_ext; [|exact Hs2]. intros lba. by rewrite (steps_view _ _ _ _ _ H1).
Qed.

Lemma persist_after (s s2 : St) (f : SbFields) (v : Image) : steps_to s s2 f v ->
  post persist_super s2 (fun s3 r => r <> Err "no space" /\ (r = Ok tt -> exists v', steps_to s s3 f v' /\ forall lba, off_super s lba -> v' lba = v lba)).
Proof.
  intros Hs2. eapply post_mono; [apply post_avoids; [apply persist_avoids|apply persist_super_view; by eapply steps_open]|].
  intros s3 r [Hne H3]. split; [done|]. intros Hr. destruct (H3 Hr) as (v' & H4 & Hv). exists v'.
  split; [rewrite (steps_sb _ _ _ _ Hs2) in H4; by eapply steps_trans|]. intros lba Hl. rewrite Hv; [by rewrite (steps_view _ _ _ _ _ Hs2)|].
  unfold off_super. by rewrite (steps_geo _ _ _ _ Hs2).
Qed.

(** Taking one run. *)
Lemma alloc_run_view (s : St) (n : Z) :
  open_txn s -> geo_ok (fs_geo (st_fs s)) -> 0 < n ->
  let g := fs_geo (st_fs s) in
  post (alloc_run n) s (fun s' r =>
    (forall start, r = Ok start ->
       first_fit s (data_start g) (total_blocks g) n start /\
       steps_to s s' (set_free (saturating_sub (free_blocks (fs_sb (st_fs s))) n) (fs_sb (st_fs s))) (view s') /\
       (forall b, 0 <= b < total_blocks g -> used_bit s' b = bool_decide (start <= b < start + n) || used_bit s b) /\
       (forall lba, off_meta s lba -> view s' lba = view s lba)) /\
    (r = Err "no space" <-> forall start, data_start g <= start -> start + n <= total_blocks g -> ~ takeable_run s start n)).
Proof.
  intros Ho Hg Hn. cbv zeta. set (g := fs_geo (st_fs s)) in *. unfold alloc_run. destruct (Z.eqb_spec n 0) as [?|_]; [lia|].
  apply post_bind, post_get. fold g. apply post_bind_ok. pose proof Hg as [[G1 G2] G3 G4 G5]. unfold JOURNAL_BLOCKS, MAX_SANE_SECTORS in *.
  assert (0 <= (total_blocks g - 1) / BITS_PER_BMBLOCK) by (apply Z.div_pos; unfold BITS_PER_BMBLOCK; lia).
  eapply post_mono; [eapply (alloc_scan_view s Ho n Hn (data_start g) (total_blocks g)); [apply quiet_refl|apply bm_pieces_chain; lia|lia|]|].
  { constructor; [by left|]. intros st Hst Hle. lia. }
  intros s1 r [Hq Hr]. destruct r as [[start|]|e]; [| |done].
  2:{ apply post_ret. split; [done|]. by split. }
  pose proof Hr as (F1 & F2 & F3 & F4). assert (~ forall st, data_start g <= st -> st + n <= total_blocks g -> ~ takeable_run s st n) as Hno.
  { intros Hx. by apply (Hx start). }
  pose proof (quiet_steps _ _ Ho Hq) as Hs1. apply mark_then; [by eapply quiet_open|lia|done| |].
  2:{ intros s' e He. split; [done|]. split; [congruence|done]. }
  intros s2 Hs2. apply post_bind_ok. eapply post_mono; [by apply persist_after|]. intros s' [[]|e] [Hne Hs'].
  2:{ split; [done|]. split; [congruence|done]. }
  destruct (Hs' eq_refl) as (v' & Hs3 & Hv'). clear Hs'. rename Hs3 into Hs'.
  apply post_ret. split; [|by split]. intros st [= <-]. split; [done|].
  pose proof (steps_trans _ _ _ _ _ _ _ Hs1 Hs') as Hs. rewrite (proj1 Hq) in Hs.
  split; [eapply steps_ext; [|exact Hs]; intros lba; symmetry; by eapply steps_view|].
  destruct (mark_range_used s s' _ _ v' true start n Ho Hg ltac:(lia) Hn F2 eq_refl Hs) as [Hb Hm].
  { intros lba Hl. rewrite Hv' by (unfold off_super; by rewrite (proj1 Hq)). rewrite (proj1 Hq). apply mark_pieces_ext. intros x. by apply quiet_view. }
  split; [|done]. intros b Hbt. rewrite Hb by done. case_decide; [by rewrite bool_decide_true|by rewrite bool_decide_false].
Qed.

(** C13: The allocator is first fit and exact.  [alloc_run n] answers with the first
    run of [n] blocks of the data region that the bitmap calls free and that is
    not the root directory, marks exactly these used, and lowers the free count
    by [n]; it answers that there is no space exactly when there is no such run.
    Nothing reaches the disk. *)
Theorem alloc_run_first_fit (s : St) (n : Z) :
  open_txn s -> geo_ok (fs_geo (st_fs s)) -> 0 < n ->
  let g := fs_geo (st_fs s) in
  post (alloc_run n) s (fun s' r =>
    (forall start, r = Ok start ->
       first_fit s (data_start g) (total_blocks g) n start /\
       steps_to s s' (set_free (saturating_sub (free_blocks (fs_sb (st_fs s))) n) (fs_sb (st_fs s))) (view s') /\
       (forall b, 0 <= b < total_blocks g -> used_bit s' b = bool_decide (start <= b < start + n) || used_bit s b) /\
       (forall lba, off_meta s lba -> view s' lba = view s lba)) /\
    (r = Err "no space" <-> forall start, data_start g <= start -> start + n <= total_blocks g -> ~ takeable_run s start n)).
Proof. exact (alloc_run_view s n). Qed.

(** Giving a run back clears exactly its bits and returns it to the count. *)
Lemma free_run_view (s : St) (first count : Z) : open_txn s -> geo_ok (fs_geo (st_fs s)) ->
  0 <= first -> 0 < count -> first + count <= total_blocks (fs_geo (st_fs s)) ->
  post (free_run first count) s (fun s' r => r = Ok tt ->
    steps_to s s' (set_free (wrap64 (free_blocks (fs_sb (st_fs s)) + count)) (fs_sb (st_fs s))) (view s') /\
    (forall b, 0 <= b < total_blocks (fs_geo (st_fs s)) -> used_bit s' b = negb (bool_decide (first <= b < first + count)) && used_bit s b) /\
    (forall lba, off_meta s lba -> view s' lba = view s lba)).
Proof.
  intros Ho Hg H0 Hc Ht. unfold free_run. destruct (Z.eqb_spec count 0); [lia|]. apply mark_then; [done|done|done| |done].
  intros s2 Hs2. eapply post_mono; [by apply persist_after|]. intros s' r [_ H] Hr. destruct (H Hr) as (v' & Hs & Hv).
  split; [eapply steps_ext; [|exact Hs]; intros lba; symmetry; by eapply steps_view|].
  destruct (mark_range_used s s' _ _ v' false first count Ho Hg H0 Hc Ht eq_refl Hs Hv) as [Hb Hm]. split; [|done].
  intros b Hbt. rewrite Hb by done. case_decide; [by rewrite bool_decide_true|by rewrite bool_decide_false].
Qed.

(** ** Spans *)

(** Where [find_free_run] stands at [pos]. *)
Definition spanned (s : St) (lo pos : Z) (start : option Z) (len : Z) : Prop :=
  match start with
  | Some st => lo <= st /\ st + len = pos /\ 0 < len /\ takeable_run s st len /\ forall i, lo <= i < st -> ~ takeable s i
  | None => forall i, lo <= i < pos -> ~ takeable s i
  end.

(** The span [find_free_run] answers with. *)
Definition next_span (s : St) (lo hi : Z) (r : option (Z * Z)) : Prop :=
  match r with
  | Some (st, len) => lo <= st /\ 0 < len /\ st + len <= hi /\ takeable_run s st len /\ (forall i, lo <= i < st -> ~ takeable s i) /\
                      (st + len = hi \/ ~ takeable s (st + len))
  | None => forall i, lo <= i < hi -> ~ takeable s i
  end.

Section Spans.
Context (s : St) (lo : Z).

Lemma scan_span_spec (k : Z) (m : nat) w0 start len : 0 <= w0 -> w0 + Z.of_nat m <= BITS_PER_BMBLOCK -> lo <= k * BITS_PER_BMBLOCK + w0 ->
  spanned s lo (k * BITS_PER_BMBLOCK + w0) start len ->
  match scan_span (fs_sb (st_fs s)) (view s (bitmap_start (fs_geo (st_fs s)) + k)) (k * BITS_PER_BMBLOCK) (seqZ w0 (Z.of_nat m)) start len with
  | inl (st, l) => spanned s lo (st + l) (Some st) l /\ st + l < k * BITS_PER_BMBLOCK + w0 + Z.of_nat m /\ ~ takeable s (st + l)
  | inr (start, len) => spanned s lo (k * BITS_PER_BMBLOCK + w0 + Z.of_nat m) start len
  end.
Proof.
  revert w0 start len. induction m as [|m IH]; intros w0 start len H0 Hm Hlo Hs; [rewrite seqZ_nil by lia; cbn [scan_span]; by rewrite Z.add_0_r|].
  rewrite seqZ_cons by lia. replace (Z.pred (Z.of_nat (S m))) with (Z.of_nat m) by lia. cbn [scan_span]. unfold BITS_PER_BMBLOCK in *.
  set (pos := k * 4096 + w0) in *. assert (pos / 4096 = k /\ pos mod 4096 = w0) as [Hd Hmod].
  { subst pos. rewrite Z.add_comm, Z.div_add, Z.mod_add, Z.div_small, Z.mod_small by lia. lia. }
  assert (takeable s pos <-> is_root (fs_sb (st_fs s)) pos || blk_bit (view s (bitmap_start (fs_geo (st_fs s)) + k)) w0 = false) as Ht.
  { unfold takeable, bit_of, BITS_PER_BMBLOCK. rewrite Hd, Hmod. by rewrite orb_false_iff. }
  replace (pos + Z.of_nat (S m)) with (k * 4096 + Z.succ w0 + Z.of_nat m) by (subst pos; lia).
  assert (k * 4096 + Z.succ w0 = pos + 1) as Hsucc by (subst pos; lia).
  destruct (_ || _); destruct start as [st|].
  - pose proof Hs as (S1 & S2 & S3 & S4 & S5). rewrite S2. split; [|split; [lia|]]; [by rewrite <- S2|]. intros Hx. by apply Ht in Hx.
  - apply (IH (Z.succ w0)); [lia..|]. rewrite Hsucc. intros i Hi. destruct (decide (i = pos)) as [->|]; [intros Hx; by apply Ht in Hx|apply Hs; lia].
  - destruct Hs as (S1 & S2 & S3 & S4 & S5). apply (IH (Z.succ w0)); [lia..|]. rewrite Hsucc. split_and!; [lia..| |done].
    intros i Hi. destruct (decide (i = pos)) as [->|]; [by apply Ht|apply S4; lia].
  - apply (IH (Z.succ w0)); [lia..|]. rewrite Hsucc. split_and!; [lia..| |]; [|intros i Hi; apply Hs; lia].
    intros i Hi. replace i with pos by lia. by apply Ht.
Qed.

Lemma span_scan_view hi pieces pos start len s' : open_txn s -> quiet s s' -> chain pos pieces hi -> lo <= pos -> spanned s lo pos start len ->
  post (span_scan pieces start len) s' (fun s'' r => quiet s s'' /\ next_span s lo hi r).
Proof.
  intros Ho. revert pos start len s'. induction pieces as [|[k [f t]] l IH]; intros pos start len s' Hq Hc Hlo Hs; cbn [chain span_scan] in *.
  { apply post_ret. split; [done|]. subst hi. destruct start as [st|]; [|exact Hs]. destruct Hs as (S1 & S2 & S3 & S4 & S5).
    cbn. split_and!; (done || lia). }
  destruct Hc as (E & Hf & Ht & Hc). apply post_bind, post_get. apply post_bind, post_get. apply post_bind_some. cbn [compose].
  eapply post_mono; [apply tb_read_view; by eapply quiet_open|]. intros s1 r (-> & Hq1). pose proof (quiet_trans _ _ _ Hq Hq1) as Hq2.
  rewrite (quiet_view _ _ _ Hq), (proj1 Hq). pose proof (scan_span_spec k (Z.to_nat (t - f)) f start len) as Hscan.
  rewrite Z2Nat.id in Hscan by lia. rewrite E in Hscan. specialize (Hscan ltac:(lia) ltac:(lia) ltac:(lia) Hs).
  replace (pos + (t - f)) with (k * BITS_PER_BMBLOCK + t) in Hscan by lia.
  destruct (scan_span _ _ _ _ _ _) as [[st l']|[st l']].
  - apply post_ret. split; [done|]. apply chain_le in Hc. destruct Hscan as ((S1 & S2 & S3 & S4 & S5) & S6 & S7). cbn. split_and!; (done || lia || by right).
  - eapply IH; [done|exact Hc|lia|done].
Qed.

End Spans.

Lemma find_free_run_view (s : St) (from : Z) : open_txn s -> geo_ok (fs_geo (st_fs s)) ->
  let g := fs_geo (st_fs s) in
  post (find_free_run from) s (fun s' r => quiet s s' /\ (Z.max from (data_start g) <= total_blocks g -> next_span s (Z.max from (data_start g)) (total_blocks g) r)
    /\ (total_blocks g < Z.max from (data_start g) -> r = None)).
Proof.
  intros Ho [[G1 G2] G3 G4 G5]. cbv zeta. unfold find_free_run. apply post_bind, post_get. set (g := fs_geo (st_fs s)) in *. unfold JOURNAL_BLOCKS in *.
  assert (0 <= (total_blocks g - 1) / BITS_PER_BMBLOCK) by (apply Z.div_pos; unfold BITS_PER_BMBLOCK; lia).
  destruct (decide (Z.max from (data_start g) <= total_blocks g)) as [Hle|Hgt].
  - eapply post_mono; [eapply (span_scan_view s (Z.max from (data_start g)) (total_blocks g)); [done|apply quiet_refl|apply bm_pieces_chain; lia|lia|]|].
    + intros i Hi. lia.
    + intros s' r [Hq Hr]. split; [done|]. split; [done|]. lia.
  - unfold bm_pieces. destruct (Z.ltb_spec (Z.max from (data_start g)) (total_blocks g)); [lia|]. apply post_ret. split; [apply quiet_refl|]. split; [lia|done].
Qed.

(** ** Scattered runs *)

Definition covered (out : list (Z * Z)) (b : Z) : Prop := exists r, r ∈ out /\ r.1 <= b < r.1 + r.2.
Definition total_len (out : list (Z * Z)) : Z := foldr (fun r acc => r.2 + acc) 0 out.

(** Runs of takeable blocks, in order and apart. *)
Fixpoint runs_ok (s : St) (lo hi : Z) (out : list (Z * Z)) : Prop :=
  match out with
  | [] => lo <= hi
  | (st, l) :: out => lo <= st /\ 0 < l /\ takeable_run s st l /\ runs_ok s (st + l) hi out
  end.

Lemma runs_ok_snoc (s : St) lo hi hi' out st l :
  runs_ok s lo hi out -> hi <= st -> 0 < l -> takeable_run s st l -> st + l <= hi' -> runs_ok s lo hi' (out ++ [(st, l)]).
Proof.
  revert lo. induction out as [|[a b] out IH]; intros lo; cbn [runs_ok app].
  - intros. split_and!; (done || lia).
  - intros (H1 & H2 & H3 & H4) ? ? ? ?. split_and!; try done. by apply IH.
Qed.

Lemma total_len_snoc out st l : total_len (out ++ [(st, l)]) = total_len out + l.
Proof. unfold total_len. induction out as [|[a b] out IH]; cbn [app foldr snd] in *; lia. Qed.

(** [s'] is [s] with the runs of [out] taken from the bitmap. *)
Definition taken (s s' : St) (out : list (Z * Z)) : Prop :=
  let g := fs_geo (st_fs s) in
  steps_to s s' (fs_sb (st_fs s)) (view s') /\
  (forall b, 0 <= b < total_blocks g -> used_bit s' b = true <-> covered out b \/ used_bit s b = true) /\
  (forall lba, off_meta s lba -> view s' lba = view s lba).

Lemma taken_takeable (s s' : St) out lo i : geo_ok (fs_geo (st_fs s)) -> taken s s' out -> runs_ok s lo i out -> 0 <= i < total_blocks (fs_geo (st_fs s)) ->
  takeable s' i <-> takeable s i.
Proof.
  intros Hg (Hs & Hb & _) Hr Hi. unfold takeable. rewrite (steps_sb _ _ _ _ Hs). assert (used_bit s' i = used_bit s i) as E; [|unfold used_bit in E; by rewrite E].
  assert (~ covered out i) as Hnc.
  { clear -Hr. revert lo Hr. induction out as [|[a b] out IH]; intros lo Hr (r & Hin & Hc); [by apply not_elem_of_nil in Hin|].
    cbn [runs_ok] in Hr. destruct Hr as (R1 & R2 & R3 & R4). apply elem_of_cons in Hin as [->|Hin]; [|by apply (IH _ R4); exists r].
    cbn in Hc. assert (a + b <= i); [|lia]. clear -R4. revert R4. generalize (a + b). induction out as [|[c d] out IH]; intros z; cbn [runs_ok]; [done|].
    intros (? & ? & _ & H). apply IH in H. lia. }
  specialize (Hb i Hi). destruct (used_bit s' i), (used_bit s i); naive_solver.
Qed.

Lemma runs_ok_mono (s : St) lo hi hi' out : hi <= hi' -> runs_ok s lo hi out -> runs_ok s lo hi' out.
Proof. intros Hh. revert lo. induction out as [|[a b] out IH]; intros lo; cbn [runs_ok]; [lia|]. intros (? & ? & ? & H). split_and!; auto. Qed.

Lemma taken_quiet (s s' s1 : St) out : quiet s' s1 -> taken s s' out -> taken s s1 out.
Proof.
  intros Hq (H1 & H3 & H4). pose proof (fun l => quiet_view _ _ l Hq) as Hv. pose proof (quiet_steps s' s1 (steps_open _ _ _ _ H1) Hq) as Hs.
  pose proof (steps_trans _ _ _ _ _ _ _ H1 Hs) as Hs'. rewrite (steps_sb _ _ _ _ H1) in Hs'. split_and!.
  - eapply steps_ext; [|exact Hs']. done.
  - intros b Hb. rewrite <- H3 by done. unfold used_bit, bit_of. by rewrite Hv, (proj1 Hq).
  - intros l Hl. by rewrite Hv, H4.
Qed.

(** One more run. *)
Lemma taken_snoc (s s1 s2 : St) out st l : geo_ok (fs_geo (st_fs s)) -> taken s s1 out ->
  0 <= st -> 0 < l -> st + l <= total_blocks (fs_geo (st_fs s)) ->
  steps_to s1 s2 (fs_sb (st_fs s1)) (mark_range (bitmap_start (fs_geo (st_fs s1))) true st (wrap64 (st + l)) (view s1)) ->
  taken s s2 (out ++ [(st, l)]).
Proof.
  intros Hg (H1 & H3 & H4) Hst Hl Ht Hs. pose proof (steps_trans _ _ _ _ _ _ _ H1 Hs) as Hs'. rewrite (steps_sb _ _ _ _ H1) in Hs'.
  pose proof (steps_geo _ _ _ _ H1) as Eg. rewrite <- Eg in Hg, Ht.
  destruct (mark_range_used s1 s2 _ _ _ true st l (steps_open _ _ _ _ H1) Hg Hst Hl Ht eq_refl Hs (fun _ _ => eq_refl)) as [Hb Hm]. split_and!.
  - eapply steps_ext; [|exact Hs']. intros lba. symmetry. by eapply steps_view.
  - intros b Hbt. rewrite <- Eg in Hbt. rewrite Hb by done. rewrite Eg in Hbt. specialize (H3 b Hbt). unfold covered.
    setoid_rewrite elem_of_app. setoid_rewrite list_elem_of_singleton. case_decide as Hd.
    + split; [|done]. intros _. left. exists (st, l). split; [by right|done].
    + rewrite H3. split; [intros [(r & Hr & Hc)|?]; [left; exists r; auto|by right]|].
      intros [(r & [Hr| ->] & Hc)|?]; [left; by exists r|cbn in Hc; lia|by right].
  - intros lba Hl'. rewrite <- (H4 lba Hl'). apply Hm. unfold off_meta in *. by rewrite Eg.
Qed.

Lemma grab_view (s : St) (fuel : nat) (need from : Z) (out : list (Z * Z)) (s' : St) :
  geo_ok (fs_geo (st_fs s)) -> 0 <= need -> taken s s' out -> runs_ok s (data_start (fs_geo (st_fs s))) from out ->
  post (grab fuel need from out) s' (fun s'' r => forall out', r = Ok out' ->
    taken s s'' out' /\ runs_ok s (data_start (fs_geo (st_fs s))) (total_blocks (fs_geo (st_fs s)) `max` from) out' /\
    total_len out' = total_len out + need /\ (length out' <= length out + fuel)%nat).
Proof.
  intros Hg. pose proof Hg as [[G1 G2] G3 G4 G5]. unfold JOURNAL_BLOCKS, MAX_SANE_SECTORS in *.
  assert (0 <= (total_blocks (fs_geo (st_fs s)) - 1) / BITS_PER_BMBLOCK) by (apply Z.div_pos; unfold BITS_PER_BMBLOCK; lia).
  revert need from out s'. induction fuel as [|fuel IH]; intros need from out s' Hneed Ht Hr; cbn [grab];
    (destruct (Z.eqb_spec need 0) as [->|Hne]; [apply post_ret; intros out' [= <-]; split_and!; [done|eapply runs_ok_mono; [|done]; lia|lia..]|]).
  { apply post_bind. by apply post_ret. }
  pose proof Ht as (H1 & _). pose proof (steps_geo _ _ _ _ H1) as Eg. apply post_bind.
  eapply post_mono; [apply find_free_run_view; [by eapply steps_open|by rewrite Eg]|]. rewrite Eg. intros s1 r (Hq & Hle & Hgt).
  destruct r as [[st len]|]; [|apply post_bind; by apply post_ret].
  destruct (decide (Z.max from (data_start (fs_geo (st_fs s))) <= total_blocks (fs_geo (st_fs s)))) as [Hd|Hd]; [|by assert (Some (st, len) = None) by (apply Hgt; lia)].
  destruct (Hle Hd) as (L1 & L2 & L3 & L4 & _ & _). clear Hle Hgt.
  assert (takeable_run s st (Z.min len need)) as Htk.
  { intros i Hi. apply (taken_takeable s s' out (data_start (fs_geo (st_fs s))) i Hg Ht); [eapply runs_ok_mono; [|exact Hr]; lia|lia|]. apply L4. lia. }
  pose proof (taken_quiet _ _ _ _ Hq Ht) as Ht1. apply post_bind_ok.
  eapply post_mono; [apply bm_set_range_view; [by eapply quiet_open, steps_open|lia]|]. intros s2 [[]|e] H3; [|done]. specialize (H3 eq_refl).
  eapply post_mono; [apply IH; [lia|eapply taken_snoc; [done|exact Ht1|lia|lia|lia|exact H3]|eapply runs_ok_snoc; [done|lia|lia|done|lia]]|].
  intros s3 r Hres out' Hr'. destruct (Hres out' Hr') as (R1 & R2 & R3 & R4). rewrite total_len_snoc in R3. rewrite length_app in R4. cbn [length] in R4.
  split_and!; [done|eapply runs_ok_mono; [|done]; lia|lia|lia].
Qed.

(** Taking several. *)
Lemma alloc_extents_view (s : St) (blocks : Z) :
  open_txn s -> geo_ok (fs_geo (st_fs s)) -> 0 < blocks ->
  let g := fs_geo (st_fs s) in
  post (alloc_extents blocks) s (fun s' r => forall out, r = Ok out ->
    runs_ok s (data_start g) (total_blocks g) out /\ total_len out = blocks /\ (length out <= EXT_MAX)%nat /\
    steps_to s s' (set_free (saturating_sub (free_blocks (fs_sb (st_fs s))) blocks) (fs_sb (st_fs s))) (view s') /\
    (forall b, 0 <= b < total_blocks g -> used_bit s' b = true <-> covered out b \/ used_bit s b = true) /\
    (forall lba, off_meta s lba -> view s' lba = view s lba)).
Proof.
  intros Ho Hg Hb. cbv zeta. unfold alloc_extents. apply post_bind, post_get. apply post_bind_ok. cbn [compose].
  pose proof Hg as [[G1 G2] G3 G4 G5]. unfold JOURNAL_BLOCKS, MAX_SANE_SECTORS in *. set (g := fs_geo (st_fs s)) in *.
  eapply post_mono; [apply (grab_view s EXT_MAX blocks (data_start g) [] s Hg ltac:(lia)); [|apply Z.le_refl]|].
  { split_and!; [by apply steps_refl| |done]. intros b _. split; [by right|]. intros [(r & Hr & _)|?]; [by apply not_elem_of_nil in Hr|done]. }
  intros s1 [out|e] H1; [|done]. destruct (H1 out eq_refl) as ((T1 & T3 & T4) & R & L & N). cbn in L, N. clear H1. fold g in R, T3.
  apply post_bind. eapply post_mono; [apply fs_mod_steps; [by eapply steps_open|done..]|]. intros s2 [] H2. cbn [fs_sb with_sb] in H2.
  pose proof (steps_trans _ _ _ _ _ _ _ T1 H2) as Hs2. rewrite (steps_sb _ _ _ _ T1) in Hs2.
  apply post_bind_ok. eapply post_mono; [by apply persist_after|]. intros s3 [[]|e] [_ H3]; [|done]. destruct (H3 eq_refl) as (v & Hs3 & Hv).
  apply post_ret. intros ? [= <-]. assert (wrap64 (total_blocks g - 1) = total_blocks g - 1) as Ew by (apply wrap64_small; unfold u64_max; lia).
  split_and!; [eapply runs_ok_mono; [|exact R]; lia|lia|done|eapply steps_ext; [|exact Hs3]; intros l; symmetry; by eapply steps_view| |].
  - intros b Hbt. rewrite <- T3 by done. unfold used_bit, bit_of. rewrite (steps_geo _ _ _ _ Hs3), (steps_geo _ _ _ _ T1). fold g.
    rewrite (steps_view _ _ _ _ _ Hs3), Hv; [done|]. unfold off_super. fold g. rewrite Ew.
    pose proof (Z.div_pos b BITS_PER_BMBLOCK ltac:(lia) ltac:(unfold BITS_PER_BMBLOCK; lia)).
    pose proof (Z.div_le_mono b (total_blocks g - 1) BITS_PER_BMBLOCK ltac:(unfold BITS_PER_BMBLOCK; lia) ltac:(lia)). lia.
  - intros l Hl. rewrite (steps_view _ _ _ _ _ Hs3), Hv; [by apply T4|]. destruct Hl as (? & ? & _). unfold off_super. fold g. by rewrite Ew.
Qed.

(** C29: A fragmented file gets its blocks in at most [EXT_MAX] separate runs of free
    blocks, none of them the root directory, [blocks] in all; exactly these are
    marked used, and the free count is lowered by [blocks]. *)
Theorem alloc_extents_exact (s : St) (blocks : Z) :
  open_txn s -> geo_ok (fs_geo (st_fs s)) -> 0 < blocks ->
  let g := fs_geo (st_fs s) in
  post (alloc_extents blocks) s (fun s' r => forall out, r = Ok out ->
    runs_ok s (data_start g) (total_blocks g) out /\ total_len out = blocks /\ (length out <= EXT_MAX)%nat /\
    steps_to s s' (set_free (saturating_sub (free_blocks (fs_sb (st_fs s))) blocks) (fs_sb (st_fs s))) (view s') /\
    (forall b, 0 <= b < total_blocks g -> used_bit s' b = true <-> covered out b \/ used_bit s b = true) /\
    (forall lba, off_meta s lba -> view s' lba = view s lba)).
Proof. exact (alloc_extents_view s blocks). Qed.

(** ** Witnesses: an empty volume of a hundred blocks *)

Definition blank_volume (txn : bool) : St :=
  mkSt (with_txn (mkTxn txn false []) (fresh_fs (mkGeometry 100 1 66 2 64) (mkSbFields 66 1 32 0 [] 1 0 0) false)) small_disk 0 [].

Lemma blank_open : open_txn (blank_volume true).
Proof. constructor; cbn; [done|constructor|lia|done|intros l; apply zero_is_block|constructor]. Qed.

Lemma blank_geo : geo_ok (mkGeometry 100 1 66 2 64).
Proof. constructor; vm_compute; (done || by split). Qed.

Lemma alloc_run_first_fit_witness :
  post (alloc_run 1) (blank_volume true) (fun s' r => forall start, r = Ok start -> 66 <= start /\ used_bit s' start = true).
Proof.
  eapply post_mono; [apply (alloc_run_first_fit (blank_volume true) 1); [apply blank_open|apply blank_geo|lia]|].
  intros s' r [H _] start Hr. destruct (H start Hr) as ((F1 & F2 & _) & _ & Hb & _). cbn in F1, F2. split; [lia|]. rewrite Hb by (cbn; lia).
  by rewrite bool_decide_true by lia.
Defined.

Lemma alloc_extents_exact_witness :
  post (alloc_extents 2) (blank_volume true) (fun s' r => forall out, r = Ok out -> total_len out = 2).
Proof.
  eapply post_mono; [apply (alloc_extents_exact (blank_volume true) 2); [apply blank_open|apply blank_geo|lia]|].
  intros s' r H out Hr. by destruct (H out Hr) as (_ & H2 & _).
Defined.
