(* ===== verification/FsDir.v ===== *)
(** * Directories and path lookup

    [services/fs/src/main.rs]: checked directory blocks ([td_read], [td_write]),
    their records ([encode_rec], [rec_*], [dir_times_*]), the operations on one
    directory ([dir_find], [dir_add], [grow_dir], [persist_entry],
    [dir_remove], [dir_is_empty]) and lookup ([components], [walk],
    [walk_parent]). *)

From stdpp Require Import functions strings.
From S2P Require Import Prelude Imp Crc FsDisk FsJournal FsCrash FsVolume FsTxn FsAlloc.

#[local] Open Scope imp_scope.

Definition NAME_MAX : nat := 38.
Definition TIME_UNKNOWN : Z := 0.
Definition CLOCK_MAX_AGE_S : Z := 300.
Definition REC_SEALED_BIT : Z := Z.shiftl 1 63.
Definition WALK_CACHE_PATH : nat := 256.
Definition DIR_TIME_PAIR : nat := 8.

(** ** Checked directory blocks *)

(** Up to three more reads of a block that failed its checksum; block 0 is read
    in between to displace what the device has cached. *)
Fixpoint reread (n : nat) (lba : Z) : Imp St (option Block) :=
  match n with
  | O => iret None
  | S n =>
      (if lba =? 0 then iret tt else on_dev (block_read 0) ;;; iret tt) ;;;
      again <-? tb_read lba ;;
      if dir_crc_ok again then iret (Some again) else reread n lba
  end.

Definition td_read (lba : Z) : Imp St (option Block) :=
  blk <-? tb_read lba ;;
  if dir_crc_ok blk then iret (Some blk) else reread 3 lba.

Definition td_write (lba : Z) (blk : Block) : Imp St bool := tb_write lba (dir_stamp blk).

(** ** Records *)

Definition rec_size (blk : Block) (o : nat) : Z := Z.ldiff (u64_at blk (o + 40)) REC_SEALED_BIT.
Definition rec_is_sealed (blk : Block) (o : nat) : bool := negb (Z.land (u64_at blk (o + 40)) REC_SEALED_BIT =? 0).
Definition rec_set_size (blk : Block) (o : nat) (size : Z) : Block :=
  put_u64 (o + 40) (Z.lor (Z.ldiff size REC_SEALED_BIT) (Z.land (u64_at blk (o + 40)) REC_SEALED_BIT)) blk.
Definition rec_seal (blk : Block) (o : nat) : Block := put_u64 (o + 40) (Z.lor (u64_at blk (o + 40)) REC_SEALED_BIT) blk.

Definition dir_times_get (blk : Block) (slot : nat) : Z * Z :=
  if (RECS_PER_BLOCK <=? slot)%nat then (TIME_UNKNOWN, TIME_UNKNOWN)
  else if negb (u32_at blk DIR_TIMES_CRC_OFF =? crc32 (slice DIR_TIMES_OFF (DIR_TIMES_CRC_OFF - DIR_TIMES_OFF) blk)) then (TIME_UNKNOWN, TIME_UNKNOWN)
  else let o := (DIR_TIMES_OFF + slot * DIR_TIME_PAIR)%nat in (u32_at blk o, u32_at blk (o + 4)).

Definition dir_times_set (blk : Block) (slot : nat) (mtime ctime : Z) : Block :=
  if (RECS_PER_BLOCK <=? slot)%nat then blk
  else let o := (DIR_TIMES_OFF + slot * DIR_TIME_PAIR)%nat in put_u32 (o + 4) ctime (put_u32 o mtime blk).

Definition encode_rec (blk : Block) (slot : nat) (itype : Z) (name : list Z) (size first count : Z) : Block :=
  let o := (slot * REC_SIZE)%nat in
  let nl := Nat.min (length name) NAME_MAX in
  let blk := put o (zeros REC_SIZE) blk in
  let blk := put o [itype] blk in
  let blk := put (o + 1) [Z.of_nat nl] blk in
  let blk := put (o + 2) (take nl name) blk in
  let blk := put_u64 (o + 40) (Z.ldiff size REC_SEALED_BIT) blk in
  let blk := put_u64 (o + 48) first blk in
  put_u64 (o + 56) count blk.

(** The name of a record in use, when its length makes sense. *)
Definition rec_name (blk : Block) (slot : nat) : option (list Z) :=
  let o := (slot * REC_SIZE)%nat in
  if byte_at blk o =? ITYPE_FREE then None else
  let nl := byte_at blk (o + 1) in
  if (nl =? 0) || (nl >? Z.of_nat NAME_MAX) then None else Some (slice (o + 2) (Z.to_nat nl) blk).

Definition rec_entry (blk : Block) (block : Z) (slot : nat) : Entry :=
  let o := (slot * REC_SIZE)%nat in
  mkEntry (byte_at blk o) (rec_is_sealed blk o) (rec_size blk o) (u64_at blk (o + 48)) (u64_at blk (o + 56)) (Some (mkLoc block slot)).

(** The first record of a block with this name, and the first free one. *)
Definition find_name (blk : Block) (name : list Z) : option nat :=
  fst <$> list_find (fun slot => rec_name blk slot = Some name) (seq 0 RECS_PER_BLOCK).
Definition find_free (blk : Block) : option nat :=
  fst <$> list_find (fun slot => byte_at blk (slot * REC_SIZE) = ITYPE_FREE) (seq 0 RECS_PER_BLOCK).

(** ** Time *)

Definition now_epoch : Imp St Z :=
  c <- fs_get clock ;;
  now <- iget st_now ;;
  let '(epoch, at_) := c in
  let age := now - at_ in
  iret (if epoch =? 0 then TIME_UNKNOWN
        else if (age <? 0) || (age >? CLOCK_MAX_AGE_S) then TIME_UNKNOWN
        else Z.min (epoch + age) (2 ^ 32 - 1)).

Definition clock_push (epoch : Z) : Imp St unit :=
  if (epoch <=? 0) || (epoch >=? 2 ^ 32 - 1) then iret tt else
  now <- iget st_now ;; fs_mod (with_clock (epoch, now)).

(** ** One directory *)

(** The blocks of a directory: [dir.first_block + bi]. *)
Definition dir_blocks (e : Entry) : list Z := (fun bi => wrap64 (first_block e + bi)) <$> seqZ 0 (block_count e).

Definition root_entry (f : Fs) : Entry :=
  mkEntry ITYPE_DIR false 0 (root_first_block (fs_sb f)) (root_block_count (fs_sb f)) None.

Definition dir_find (dir : Entry) (name : list Z) : Imp St (option Entry) :=
  r <- for_first (dir_blocks dir) (fun block =>
    b <- td_read block ;;
    iret (match b with
          | None => Some None
          | Some blk => (fun slot => Some (rec_entry blk block slot)) <$> find_name blk name
          end)) ;;
  iret (default None r).

(** The record written back for an entry whose extent or size changed; for the root, the superblock. *)
Definition persist_entry (e : Entry) : Imp St (Fallible unit) :=
  match loc e with
  | None => sb_mod (set_root (first_block e) (block_count e)) ;;; persist_super
  | Some l =>
      blk <-! ok_or (td_read (l_block l)) "record read failed" ;;
      now <- now_epoch ;;
      let o := (l_slot l * REC_SIZE)%nat in
      let mtime := if negb (size e =? rec_size blk o) then now else (dir_times_get blk (l_slot l)).1 in
      let blk := dir_times_set blk (l_slot l) mtime now in
      let blk := rec_set_size blk o (size e) in
      let blk := put_u64 (o + 56) (block_count e) (put_u64 (o + 48) (first_block e) blk) in
      or_err (td_write (l_block l) blk) "record write failed"
  end.

Definition with_extent (e : Entry) (first count : Z) : Entry := mkEntry (itype e) (sealed e) (size e) first count (loc e).

(** A longer extent with the directory's blocks and an empty one. *)
Definition grow_extent (dir : Entry) : Imp St (Fallible Z) :=
  new_first <-! alloc_run (wrap64 (block_count dir + 1)) ;;
  for_ok (seqZ 0 (block_count dir)) (fun bi =>
    blk <-! ok_or (td_read (wrap64 (first_block dir + bi))) "dir read failed" ;;
    or_err (td_write (wrap64 (new_first + bi)) blk) "dir copy failed") ;;!
  or_err (td_write (wrap64 (new_first + block_count dir)) zero_block) "dir grow init failed" ;;!
  iret (Ok new_first).

Definition grow_dir (dir : Entry) : Imp St (Fallible Entry) :=
  new_first <-! grow_extent dir ;;
  let dir' := with_extent dir new_first (wrap64 (block_count dir + 1)) in
  persist_entry dir' ;;!
  free_run (first_block dir) (block_count dir) ;;!
  iret (Ok dir').

(** A new record in a slot, both its times now. *)
Definition place_rec (block : Z) (blk : Block) (slot : nat) (name : list Z) (ty size first count : Z) : Imp St (Fallible unit) :=
  now <- now_epoch ;;
  or_err (td_write block (dir_times_set (encode_rec blk slot ty name size first count) slot now now)) "dir write failed".

(** One block of the search for a free slot. *)
Definition add_loop (name : list Z) (ty sz first count : Z) (block : Z) : Imp St (option (Fallible unit)) :=
  b <- td_read block ;;
  match b with
  | None => iret (Some (Err "dir read failed"))
  | Some blk =>
      match find_free blk with
      | Some slot => r <- place_rec block blk slot name ty sz first count ;; iret (Some r)
      | None => iret None
      end
  end.

(** [dir_add] answers with the directory as it then is ([&mut Entry]). *)
Definition dir_add (dir : Entry) (name : list Z) (ty size first count : Z) : Imp St (Fallible Entry) :=
  r <- for_first (dir_blocks dir) (add_loop name ty size first count) ;;
  match r with
  | Some (Ok _) => iret (Ok dir)
  | Some (Err e) => iret (Err e)
  | None =>
      dir' <-! grow_dir dir ;;
      let block := wrap64 (first_block dir' + block_count dir' - 1) in
      blk <-! ok_or (td_read block) "dir read failed" ;;
      place_rec block blk 0 name ty size first count ;;!
      iret (Ok dir')
  end.

(** One block of the search of a removal. *)
Definition remove_loop (name : list Z) (block : Z) : Imp St (option (Fallible unit)) :=
  b <- td_read block ;;
  match b with
  | None => iret (Some (Err "dir read failed"))
  | Some blk =>
      match find_name blk name with
      | Some slot => r <- or_err (td_write block (put (slot * REC_SIZE) [ITYPE_FREE] blk)) "dir write failed" ;; iret (Some r)
      | None => iret None
      end
  end.

Definition dir_remove (dir : Entry) (name : list Z) : Imp St (Fallible unit) :=
  r <- for_first (dir_blocks dir) (remove_loop name) ;; iret (default (Err "entry not found") r).

Definition dir_is_empty (dir : Entry) : Imp St (option bool) :=
  r <- for_first (dir_blocks dir) (fun block =>
    b <- td_read block ;;
    iret (match b with
          | None => Some None
          | Some blk => if forallb (fun slot => byte_at blk (slot * REC_SIZE) =? ITYPE_FREE) (seq 0 RECS_PER_BLOCK) then None else Some (Some false)
          end)) ;;
  iret (default (Some true) r).

(** ** Paths *)

Definition SLASH : Z := 47.

(** [path.split('/')] without the empty pieces. *)
Fixpoint split_path (path cur : list Z) : list (list Z) :=
  match path with
  | [] => [rev cur]
  | b :: path => if b =? SLASH then rev cur :: split_path path [] else split_path path (b :: cur)
  end.
Definition components (path : list Z) : list (list Z) := filter (fun c => c <> []) (split_path path []).

Fixpoint descend (cur : Entry) (comps : list (list Z)) : Imp St (option Entry) :=
  match comps with
  | [] => iret (Some cur)
  | c :: comps =>
      if negb (itype cur =? ITYPE_DIR) then iret None else
      next <-? dir_find cur c ;; descend next comps
  end.

Definition walk (path : list Z) : Imp St (option Entry) :=
  f <- fs_get (fun f => f) ;;
  let cacheable := negb (txn_active (fs_txn f)) && (length path <=? WALK_CACHE_PATH)%nat in
  match (if cacheable then walk_cache f else None) with
  | Some (p, e) =>
      if bool_decide (p = path) then iret (Some e) else
      e <-? descend (root_entry f) (components path) ;;
      fs_mod (with_cache (Some (path, e))) ;;; iret (Some e)
  | None =>
      e <-? descend (root_entry f) (components path) ;;
      (if cacheable then fs_mod (with_cache (Some (path, e))) else iret tt) ;;; iret (Some e)
  end.

Definition walk_parent (path : list Z) : Imp St (option (Entry * list Z)) :=
  f <- fs_get (fun f => f) ;;
  match last (components path) with
  | None => iret None
  | Some name =>
      cur <-? descend (root_entry f) (removelast (components path)) ;;
      iret (Some (cur, name))
  end.

Definition valid_name (name : list Z) : bool :=
  negb (length name =? 0)%nat && (length name <=? NAME_MAX)%nat &&
  negb (existsb (fun b => (b =? SLASH) || (b <? 0x20) || (b =? 0x7f)) name).

Definition is_file (ty : Z) : bool := (ty =? ITYPE_FILE) || (ty =? ITYPE_FILE_FRAG).

Definition path_is_ancestor (src dst : list Z) : bool :=
  if (length dst <? length src)%nat then false
  else if negb (bool_decide (take (length src) dst = src)) then false
  else if (length dst =? length src)%nat then true
  else if bool_decide (src = [SLASH]) then true
  else byte_at dst (length src) =? SLASH.

(** ** Blocks and their records *)

(** The 64 bytes of a record. *)
Definition slot_bytes (blk : Block) (slot : nat) : list Z := slice (slot * REC_SIZE) REC_SIZE blk.

Section Slots.
Implicit Types (blk : Block) (slot i : nat).

Lemma slice_slice o n o' n' (b : list Z) : (o' + n' <= n)%nat -> slice o' n' (slice o n b) = slice (o + o') n' b.
Proof. intros H. apply list_eq. intros k. rewrite !lookup_slice. repeat case_decide; try done; try lia. f_equal. lia. Qed.

Lemma u64_slot blk slot k : (k + 8 <= REC_SIZE)%nat -> u64_at blk (slot * REC_SIZE + k) = u64_at (slot_bytes blk slot) k.
Proof. intros H. unfold u64_at, slot_bytes. by rewrite slice_slice. Qed.

Lemma byte_slot blk slot k : (k < REC_SIZE)%nat -> byte_at blk (slot * REC_SIZE + k) = byte_at (slot_bytes blk slot) k.
Proof. intros H. rewrite !byte_at_slice. unfold slot_bytes. rewrite slice_slice; [done|lia]. Qed.

(** A record by its bytes. *)
Definition bytes_name (r : list Z) : option (list Z) :=
  if byte_at r 0 =? ITYPE_FREE then None else
  let nl := byte_at r 1 in
  if (nl =? 0) || (nl >? Z.of_nat NAME_MAX) then None else Some (slice 2 (Z.to_nat nl) r).

Lemma rec_name_slot blk slot : rec_name blk slot = bytes_name (slot_bytes blk slot).
Proof.
  unfold rec_name, bytes_name. rewrite <- (byte_slot blk slot 0), <- (byte_slot blk slot 1), Nat.add_0_r by (unfold REC_SIZE; lia).
  destruct (_ =? ITYPE_FREE); [done|]. destruct (_ || _) eqn:E; [done|]. f_equal. unfold slot_bytes. rewrite slice_slice; [done|].
  apply orb_false_iff in E as [_ E]. rewrite Z.gtb_ltb in E. apply Z.ltb_ge in E. unfold NAME_MAX, REC_SIZE in *. lia.
Qed.

(** What a record says of its file, apart from where it is. *)
Record Meta := mkMeta { m_type : Z; m_sealed : bool; m_size : Z; m_first : Z; m_count : Z }.
Definition meta_of (e : Entry) : Meta := mkMeta (itype e) (sealed e) (size e) (first_block e) (block_count e).

Definition bytes_meta (r : list Z) : Meta :=
  mkMeta (byte_at r 0) (rec_is_sealed r 0) (rec_size r 0) (u64_at r 48) (u64_at r 56).

Lemma rec_entry_slot blk block slot : meta_of (rec_entry blk block slot) = bytes_meta (slot_bytes blk slot).
Proof.
  unfold rec_entry, meta_of, bytes_meta, rec_is_sealed, rec_size. cbn [itype sealed size first_block block_count].
  rewrite !u64_slot by (unfold REC_SIZE; lia). rewrite <- (byte_slot blk slot 0), Nat.add_0_r by (unfold REC_SIZE; lia). done.
Qed.

(** Writing within one record leaves the others. *)
Lemma put_slot_other blk slot i o v : (slot * REC_SIZE <= o)%nat -> (o + length v <= slot * REC_SIZE + REC_SIZE)%nat -> i <> slot ->
  slot_bytes (put o v blk) i = slot_bytes blk i.
Proof.
  intros H1 H2 Hne. unfold slot_bytes. apply slice_put_disj. unfold REC_SIZE in *. destruct (decide (i < slot)%nat); [left|right]; nia.
Qed.

Lemma put_slot_above blk i o v : (DIR_REC_REGION <= o)%nat -> (i < RECS_PER_BLOCK)%nat -> slot_bytes (put o v blk) i = slot_bytes blk i.
Proof. intros H1 H2. unfold slot_bytes. apply slice_put_disj. unfold DIR_REC_REGION, RECS_PER_BLOCK, REC_SIZE in *. lia. Qed.

Lemma dir_times_set_slot blk slot m c i : (i < RECS_PER_BLOCK)%nat -> slot_bytes (dir_times_set blk slot m c) i = slot_bytes blk i.
Proof.
  intros Hi. unfold dir_times_set. destruct (_ <=? _)%nat; [done|]. unfold put_u32.
  by rewrite !put_slot_above by (unfold DIR_REC_REGION, DIR_TIMES_OFF; lia || done).
Qed.

Lemma dir_stamp_slot blk i : (i < RECS_PER_BLOCK)%nat -> slot_bytes (dir_stamp blk) i = slot_bytes blk i.
Proof.
  intros Hi. unfold dir_stamp, dir_times_stamp, put_u32. by rewrite !put_slot_above by (unfold DIR_REC_REGION, DIR_CRC_OFF, DIR_TIMES_CRC_OFF; (unfold DIR_REC_REGION; lia) || done).
Qed.

Lemma dir_stamp_block blk : is_block blk -> is_block (dir_stamp blk).
Proof. intros H. unfold dir_stamp, dir_times_stamp. by do 2 apply put_u32_is_block. Qed.

Lemma dir_stamp_ok blk : is_block blk -> dir_crc_ok (dir_stamp blk) = true.
Proof.
  intros [Hl Hb]. unfold dir_crc_ok, dir_stamp, dir_times_stamp. unfold DIR_CRC_OFF, DIR_TIMES_CRC_OFF, DIR_REC_REGION, BLOCK in *.
  rewrite u32_put_u32_disj by lia. rewrite !take_put_u32 by lia. rewrite u32_put_same; [apply Z.eqb_refl| |lia].
  apply CrcFacts.crc32_range. by apply Forall_take.
Qed.

Lemma ldiff_u64 (x : Z) : u64 x -> u64 (Z.ldiff x REC_SEALED_BIT).
Proof. intros H. apply (of_bits 64); [lia|]. intros i Hi. by rewrite Z.ldiff_spec, (high_bits 64 x i H) by lia. Qed.

(** A name a record can carry. *)
Definition name_ok (name : list Z) : Prop := (0 < length name <= NAME_MAX)%nat /\ Forall is_byte name.

Section Encode.
Context (blk : Block) (slot : nat) (ty : Z) (name : list Z) (sz first count : Z).
Context (Hb : is_block blk) (Hslot : (slot < RECS_PER_BLOCK)%nat) (Hname : name_ok name) (Hty : 0 < ty < 256).
Context (Hsz : u64 sz) (Hfirst : u64 first) (Hcount : u64 count).

Lemma encode_rec_block : is_block (encode_rec blk slot ty name sz first count).
Proof.
  destruct Hname as [Hl Hn]. unfold encode_rec. cbv zeta. do 3 apply put_u64_is_block. apply put_is_block; [|by apply Forall_take].
  apply put_is_block; [|repeat constructor; unfold is_byte, NAME_MAX; lia]. apply put_is_block; [|repeat constructor; unfold is_byte; lia].
  apply put_is_block; [done|apply zeros_bytes].
Qed.

Lemma encode_rec_other (i : nat) : i <> slot -> slot_bytes (encode_rec blk slot ty name sz first count) i = slot_bytes blk i.
Proof.
  intros Hi. destruct Hname as [Hl _]. unfold encode_rec, put_u64. cbv zeta. unfold NAME_MAX in *.
  rewrite !(put_slot_other _ slot) by (done || (rewrite ?to_le_length, ?zeros_length, ?length_take; unfold REC_SIZE; cbn [length]; lia)). done.
Qed.

Lemma encode_rec_name : rec_name (encode_rec blk slot ty name sz first count) slot = Some name.
Proof.
  destruct Hname as [Hl _], Hb as [Hlen _]. unfold rec_name, encode_rec, put_u64. cbv zeta. unfold NAME_MAX, RECS_PER_BLOCK, REC_SIZE, BLOCK in *.
  rewrite (take_ge name) by lia. rewrite Nat.min_l by lia.
  rewrite !(byte_at_put_disj (slot * 64)) by (rewrite ?to_le_length; cbn [length]; lia). rewrite byte_at_put_same by (rewrite put_length; lia).
  destruct (Z.eqb_spec ty ITYPE_FREE) as [E|_]; [unfold ITYPE_FREE in E; lia|].
  rewrite !(byte_at_put_disj (slot * 64 + 1)) by (rewrite ?to_le_length; cbn [length]; lia). rewrite byte_at_put_same by (rewrite !put_length; lia).
  rewrite Z.gtb_ltb. destruct (Z.eqb_spec (Z.of_nat (length name)) 0); [lia|]. destruct (Z.ltb_spec (Z.of_nat 38) (Z.of_nat (length name))); [lia|]. cbn [orb].
  rewrite Nat2Z.id. f_equal. rewrite !slice_put_disj by (rewrite to_le_length; lia). apply slice_put_same; [done|]. rewrite !put_length. lia.
Qed.

Lemma encode_rec_meta : bytes_meta (slot_bytes (encode_rec blk slot ty name sz first count) slot) = mkMeta ty false (Z.ldiff sz REC_SEALED_BIT) first count.
Proof.
  destruct Hname as [Hl _], Hb as [Hlen _]. rewrite <- (rec_entry_slot _ 0). unfold meta_of, rec_entry, rec_is_sealed, rec_size. cbn [itype sealed size first_block block_count].
  unfold encode_rec. cbv zeta. unfold NAME_MAX, RECS_PER_BLOCK, REC_SIZE, BLOCK in *. rewrite (take_ge name) by lia.
  assert (forall x b, length b = 512%nat -> u64 x -> u64_at (put_u64 (slot * 64 + 56) count (put_u64 (slot * 64 + 48) first (put_u64 (slot * 64 + 40) x b))) (slot * 64 + 40) = x) as E40.
  { intros x b Hlb Hx. rewrite !u64_put_u64_disj by lia. apply u64_put_same; [done|lia]. }
  rewrite E40 by (rewrite ?put_length; (done || by apply ldiff_u64)). rewrite Z.land_ldiff. cbn [Z.eqb negb]. f_equal.
  - unfold put_u64. rewrite !byte_at_put_disj by (rewrite ?to_le_length; cbn [length]; lia). apply byte_at_put_same. rewrite put_length. lia.
  - by rewrite Z.ldiff_ldiff_l, Z.lor_diag.
  - rewrite u64_put_u64_disj by lia. apply u64_put_same; [done|]. rewrite put_u64_length, !put_length. lia.
  - apply u64_put_same; [done|]. rewrite !put_u64_length, !put_length. lia.
Qed.

End Encode.

End Slots.
