(* ===== verification/FsDirMap.v ===== *)
(** * A directory is a map from names to entries

    The records of a directory's blocks ([FsDir]) are an association list;
    lookup, insertion (with the growth of the directory) and removal act on it
    as on a map, and leave the other blocks in use alone. *)

From stdpp Require Import functions strings.
From S2P Require Import Prelude Imp Crc FsDisk FsJournal FsCrash FsVolume FsTxn FsAlloc FsDir.

#[local] Open Scope imp_scope.

(** ** The records *)

Definition slot_rec (blk : Block) (slot : nat) : option (list Z * Meta) :=
  (fun n => (n, bytes_meta (slot_bytes blk slot))) <$> bytes_name (slot_bytes blk slot).

Definition block_recs (blk : Block) : list (list Z * Meta) := omap (slot_rec blk) (seq 0 RECS_PER_BLOCK).

Definition dir_recs (v : Image) (blocks : list Z) : list (list Z * Meta) := blocks ≫= (fun b => block_recs (v b)).

(** The first record of a name. *)
Definition assoc (recs : list (list Z * Meta)) (name : list Z) : option Meta :=
  (fun p => p.2.2) <$> list_find (fun p => p.1 = name) recs.

Section Lists.
Context {A : Type}.
Implicit Types (l : list nat) (recs : list (list Z * Meta)).

Lemma omap_insert (f f' : nat -> option A) l x a : NoDup l -> x ∈ l -> (forall y, y ∈ l -> y <> x -> f' y = f y) ->
  f' x = Some a -> f x = None -> omap f' l ≡ₚ a :: omap f l.
Proof.
  induction l as [|y l IH]; intros Hn Hx Hf H1 H2; [by apply not_elem_of_nil in Hx|]. apply NoDup_cons in Hn as [Hy Hn]. cbn.
  destruct (decide (y = x)) as [->|Hne].
  - rewrite H1, H2. assert (omap f' l = omap f l) as ->; [|done]. clear IH. induction l as [|z l IH]; [done|]. cbn.
    rewrite Hf by set_solver. apply NoDup_cons in Hn as [_ Hn]. destruct (f z); rewrite IH by set_solver; done.
  - rewrite Hf by set_solver. assert (omap f' l ≡ₚ a :: omap f l) as IH' by (apply IH; set_solver).
    destruct (f y); [rewrite IH'; apply Permutation_swap|done].
Qed.

Lemma omap_same (f f' : nat -> option A) l : (forall y, y ∈ l -> f' y = f y) -> omap f' l = omap f l.
Proof. induction l as [|y l IH]; intros H; [done|]. cbn. rewrite H by set_solver. by rewrite IH by set_solver. Qed.

Lemma bind_insert (g : Block -> list A) (v v' : Image) (blocks : list Z) b a : NoDup blocks -> b ∈ blocks ->
  (forall x, x ∈ blocks -> x <> b -> v' x = v x) -> g (v' b) ≡ₚ a :: g (v b) -> blocks ≫= (g ∘ v') ≡ₚ a :: (blocks ≫= (g ∘ v)).
Proof.
  induction blocks as [|x blocks IH]; intros Hn Hb Hv Hg; [by apply not_elem_of_nil in Hb|]. apply NoDup_cons in Hn as [Hx Hn]. cbn.
  destruct (decide (x = b)) as [->|Hne].
  - rewrite Hg. cbn. apply perm_skip. assert (blocks ≫= (g ∘ v') = blocks ≫= (g ∘ v)) as E; [|by rewrite E].
    apply Forall_bind_ext, Forall_forall. intros y Hy. cbn. rewrite Hv by set_solver. done.
  - cbn. rewrite Hv by set_solver. rewrite IH by set_solver. symmetry. apply Permutation_middle.
Qed.

Lemma assoc_none recs name : name ∉ recs.*1 -> assoc recs name = None.
Proof.
  intros H. unfold assoc. destruct (list_find _ recs) as [[i p]|] eqn:E; [|done]. apply list_find_Some in E as (Hi & <- & _).
  destruct H. apply list_elem_of_fmap. exists p. split; [done|by eapply list_elem_of_lookup_2].
Qed.

End Lists.

Section Lookup.
Implicit Types (recs : list (list Z * Meta)) (name : list Z) (blk : Block).

Lemma assoc_cons name p recs : assoc (p :: recs) name = if decide (p.1 = name) then Some p.2 else assoc recs name.
Proof.
  unfold assoc. cbn [list_find]. destruct (decide (p.1 = name)); [done|]. destruct (list_find _ recs) as [[i q]|]; done.
Qed.

Lemma assoc_app name recs recs' : assoc (recs ++ recs') name = match assoc recs name with Some m => Some m | None => assoc recs' name end.
Proof. induction recs as [|p recs IH]; [done|]. cbn [app]. rewrite !assoc_cons. by destruct (decide _). Qed.

(** The first match by slot is the first match in the list. *)
Lemma assoc_slots blk name (l : list nat) :
  assoc (omap (slot_rec blk) l) name = (fun p => bytes_meta (slot_bytes blk p.2)) <$> list_find (fun slot => rec_name blk slot = Some name) l.
Proof.
  induction l as [|i l IH]; [done|]. cbn [omap list_omap list_find]. rewrite rec_name_slot. unfold slot_rec at 1.
  destruct (bytes_name (slot_bytes blk i)) as [n|]; cbn [fmap option_fmap option_map].
  - rewrite assoc_cons. cbn [fst snd]. destruct (decide (n = name)) as [->|Hne]; [by rewrite decide_True|]. rewrite decide_False by congruence.
    rewrite IH. by destruct (list_find _ l) as [[? ?]|].
  - rewrite decide_False by done. rewrite IH. by destruct (list_find _ l) as [[? ?]|].
Qed.

Lemma list_find_seq (P : nat -> Prop) `{forall x, Decision (P x)} n i x : list_find P (seq 0 n) = Some (i, x) -> i = x /\ (x < n)%nat /\ P x.
Proof. intros (Hi & Hp & _)%list_find_Some. apply lookup_seq in Hi as [-> Hi]. done. Qed.

Lemma find_name_assoc blk name : assoc (block_recs blk) name = (fun slot => bytes_meta (slot_bytes blk slot)) <$> find_name blk name.
Proof.
  unfold block_recs, find_name. rewrite assoc_slots. destruct (list_find _ _) as [[i x]|] eqn:E; [|done]. apply list_find_seq in E as (-> & _ & _). done.
Qed.

Lemma find_name_some blk name slot : find_name blk name = Some slot -> (slot < RECS_PER_BLOCK)%nat /\ rec_name blk slot = Some name.
Proof. unfold find_name. intros ([i x] & E & ->)%fmap_Some. apply list_find_seq in E as (-> & ? & ?). done. Qed.

Lemma find_free_some blk slot : find_free blk = Some slot -> (slot < RECS_PER_BLOCK)%nat /\ byte_at blk (slot * REC_SIZE) = ITYPE_FREE.
Proof. unfold find_free. intros ([i x] & E & ->)%fmap_Some. apply list_find_seq in E as (-> & ? & ?). done. Qed.

End Lookup.

(** ** Reading *)

Section Read.
Implicit Types (s : St).

Lemma reread_reads n s v lba : reads s v -> dir_crc_ok (v lba) = false -> post (reread n lba) s (fun s' r => r = None /\ quiet s s').
Proof.
  intros Ho Hc. enough (forall s', quiet s s' -> post (reread n lba) s' (fun s' r => r = None /\ quiet s s')) as H by (apply H, quiet_refl).
  induction n as [|n IH]; intros s' Hq; cbn [reread]; [by apply post_ret|]. apply post_bind.
  assert (post (if lba =? 0 then iret tt else on_dev (block_read 0) ;;; iret tt) s' (fun s'' _ => quiet s s'')) as Hr.
  { destruct (lba =? 0); [by apply post_ret|]. apply post_bind, post_on_dev. eapply post_mono; [apply block_read_good; by apply (reads_quiet _ _ _ Hq Ho)|].
    intros d r [He _]. apply post_ret. eapply quiet_trans; [exact Hq|]. by repeat split; try apply He. }
  eapply post_mono; [exact Hr|]. intros s1 [] Hq1. apply post_bind_some.
  eapply post_mono; [apply reads_tb; by eapply reads_quiet|]. intros s2 r (-> & Hq2). rewrite Hc.
  apply IH. by eapply quiet_trans.
Qed.

Lemma td_read_reads s v lba : reads s v -> post (td_read lba) s (fun s' r => r = (if dir_crc_ok (v lba) then Some (v lba) else None) /\ quiet s s').
Proof.
  intros Ho. unfold td_read. apply post_bind_some. eapply post_mono; [by apply reads_tb|]. intros s1 r (-> & Hq).
  destruct (dir_crc_ok (v lba)) eqn:E; [by apply post_ret|]. eapply post_mono; [apply (reread_reads 3 s1 v); [by eapply reads_quiet|done]|].
  intros s2 r [-> Hq2]. split; [done|by eapply quiet_trans].
Qed.

Lemma td_read_view s lba : open_txn s ->
  post (td_read lba) s (fun s' r => r = (if dir_crc_ok (view s lba) then Some (view s lba) else None) /\ quiet s s').
Proof. intros Ho. by apply td_read_reads, open_reads. Qed.

(** Where an entry was found. *)
Definition found_at (v : Image) (dir : Entry) (name : list Z) (e : Entry) : Prop :=
  exists l, loc e = Some l /\ l_block l ∈ dir_blocks dir /\ (l_slot l < RECS_PER_BLOCK)%nat /\
    e = rec_entry (v (l_block l)) (l_block l) (l_slot l) /\ rec_name (v (l_block l)) (l_slot l) = Some name.

(** Lookup is lookup in the records. *)
Lemma dir_find_reads s v dir name : reads s v -> Forall (fun b => dir_crc_ok (v b) = true) (dir_blocks dir) ->
  post (dir_find dir name) s (fun s' r => quiet s s' /\ meta_of <$> r = assoc (dir_recs v (dir_blocks dir)) name /\ forall e, r = Some e -> found_at v dir name e).
Proof.
  intros Ho Hc. unfold dir_find. apply post_bind. unfold dir_recs.
  enough (forall l s', quiet s s' -> (forall b, b ∈ l -> b ∈ dir_blocks dir) ->
    post (for_first l (fun block => b <- td_read block ;; iret (match b with None => Some None | Some blk => (fun slot => Some (rec_entry blk block slot)) <$> find_name blk name end))) s'
      (fun s'' r => quiet s s'' /\ meta_of <$> default None r = assoc (l ≫= (fun b => block_recs (v b))) name /\
        forall e, r = Some (Some e) -> found_at v dir name e)) as H.
  { eapply post_mono; [apply (H (dir_blocks dir) s); [apply quiet_refl|done]|]. intros s' r (Hq & Hr & He). apply post_ret. split_and!; [done|done|].
    intros e Hd. apply He. by destruct r; cbn in Hd; subst. }
  intros l. induction l as [|b l IH]; intros s' Hq Hl; [by apply post_ret|]. cbn [for_first]. apply post_bind, post_bind.
  eapply post_mono; [apply (td_read_reads s' v); by eapply reads_quiet|]. intros s1 r (-> & Hq1). apply post_ret.
  rewrite (proj1 (Forall_forall _ _) Hc b (Hl b ltac:(left))). pose proof (quiet_trans _ _ _ Hq Hq1) as Hq2. cbn [mbind list_bind]. rewrite assoc_app, find_name_assoc.
  destruct (find_name (v b) name) as [slot|] eqn:E; cbn [fmap option_fmap option_map].
  - apply post_ret. split_and!; [done|cbn; by rewrite rec_entry_slot|]. intros e [= <-]. destruct (find_name_some _ _ _ E). exists (mkLoc b slot). cbn.
    split_and!; try done. apply Hl. by left.
  - apply IH; [done|]. intros x Hx. apply Hl. by right.
Qed.

Lemma dir_find_view s dir name : open_txn s -> Forall (fun b => dir_crc_ok (view s b) = true) (dir_blocks dir) ->
  post (dir_find dir name) s (fun s' r => quiet s s' /\ meta_of <$> r = assoc (dir_recs (view s) (dir_blocks dir)) name /\ forall e, r = Some e -> found_at (view s) dir name e).
Proof. intros Ho. by apply dir_find_reads, open_reads. Qed.

End Read.

(** ** Writing one block *)

Section Write.
Implicit Types (s : St) (blk : Block).

Lemma td_write_view s lba blk : open_txn s -> is_block blk ->
  post (or_err (td_write lba blk) "dir write failed") s (fun s' r => r = Ok tt -> steps_to s s' (fs_sb (st_fs s)) (<[lba := dir_stamp blk]> (view s))).
Proof.
  intros Ho Hb. apply post_or_err. unfold td_write. eapply post_mono; [apply tb_write_view; [done|by apply dir_stamp_block]|].
  intros s' [] H; [intros _; by apply H|done].
Qed.

(** The block a changed directory block becomes: checked, with the same slots. *)
Definition restamps blk blk' : Prop := is_block blk' /\ dir_crc_ok blk' = true /\ forall i, (i < RECS_PER_BLOCK)%nat -> slot_bytes blk' i = slot_bytes blk i.

Lemma dir_stamp_restamps blk : is_block blk -> restamps blk (dir_stamp blk).
Proof. intros H. split_and!; [by apply dir_stamp_block|by apply dir_stamp_ok|]. intros i Hi. by apply dir_stamp_slot. Qed.

Lemma slot_rec_ext blk blk' i : slot_bytes blk' i = slot_bytes blk i -> slot_rec blk' i = slot_rec blk i.
Proof. intros E. unfold slot_rec. by rewrite E. Qed.

Lemma restamps_recs blk blk' : restamps blk blk' -> block_recs blk' = block_recs blk.
Proof. intros (_ & _ & H). apply omap_same. intros i Hi. apply elem_of_seq in Hi. apply slot_rec_ext, H. lia. Qed.

Lemma dir_times_set_block blk slot m c : is_block blk -> is_block (dir_times_set blk slot m c).
Proof. intros H. unfold dir_times_set. destruct (_ <=? _)%nat; [done|]. by do 2 apply put_u32_is_block. Qed.

(** What [place_rec] leaves in the block. *)
Definition placed blk blk' (name : list Z) (m : Meta) : Prop :=
  is_block blk' /\ dir_crc_ok blk' = true /\ block_recs blk' ≡ₚ (name, m) :: block_recs blk.

Definition rec_args_ok (name : list Z) (ty sz first count : Z) : Prop := name_ok name /\ 0 < ty < 256 /\ u64 sz /\ u64 first /\ u64 count.

Lemma place_rec_view s block blk slot name ty sz first count :
  open_txn s -> is_block blk -> find_free blk = Some slot -> rec_args_ok name ty sz first count ->
  post (place_rec block blk slot name ty sz first count) s (fun s' r => r = Ok tt -> exists blk',
    placed blk blk' name (mkMeta ty false (Z.ldiff sz REC_SEALED_BIT) first count) /\ steps_to s s' (fs_sb (st_fs s)) (<[block := blk']> (view s))).
Proof.
  intros Ho Hb Hf (Hn & Ht & Hs & Hfi & Hc). destruct (find_free_some _ _ Hf) as [Hslot Hfree]. unfold place_rec. apply post_bind.
  assert (quiet s (now_epoch s).1) as Hq. { unfold now_epoch, ibind, fs_get, iget. cbn. destruct (clock (st_fs s)). cbn. apply quiet_refl. }
  unfold post at 1. set (now := (now_epoch s).2). clearbody now.
  set (enc := encode_rec blk slot ty name sz first count). assert (is_block enc) as Henc by by apply encode_rec_block.
  eapply post_mono; [apply td_write_view; [by eapply quiet_open|by apply dir_times_set_block]|]. intros s' r H Hr. specialize (H Hr).
  eexists. split; [|eapply steps_ext; [|eapply steps_trans; [by apply quiet_steps|rewrite (proj1 Hq) in H; exact H]]].
  2:{ intros lba. destruct (decide (block = lba)) as [<-|Hne]; [by rewrite !fn_lookup_insert|]. rewrite !fn_lookup_insert_ne by done. by apply quiet_view. }
  destruct (dir_stamp_restamps (dir_times_set enc slot now now) ltac:(by apply dir_times_set_block)) as (H1 & H2 & H3). split_and!; [done|done|].
  apply (omap_insert _ _ _ slot); [apply NoDup_seq|apply elem_of_seq; lia| | |].
  - intros i Hi Hne. apply elem_of_seq in Hi. apply slot_rec_ext. rewrite H3, dir_times_set_slot by lia. by apply encode_rec_other.
  - unfold slot_rec. rewrite H3, dir_times_set_slot by done. rewrite <- rec_name_slot. unfold enc. rewrite encode_rec_name by done. cbn. by rewrite encode_rec_meta.
  - unfold slot_rec, bytes_name. rewrite <- (byte_slot blk slot 0), Nat.add_0_r, Hfree by (unfold REC_SIZE; lia). done.
Qed.

End Write.

(** ** Rewriting a record's size and extent *)

Lemma sealed_bit_kept (old new : Z) :
  let x := Z.lor (Z.ldiff new REC_SEALED_BIT) (Z.land old REC_SEALED_BIT) in
  Z.ldiff x REC_SEALED_BIT = Z.ldiff new REC_SEALED_BIT /\ Z.land x REC_SEALED_BIT = Z.land old REC_SEALED_BIT.
Proof.
  cbv zeta. split; apply Z.bits_inj'; intros i _; rewrite ?Z.ldiff_spec, ?Z.land_spec, ?Z.lor_spec, ?Z.ldiff_spec, ?Z.land_spec;
    by destruct (Z.testbit new i), (Z.testbit old i), (Z.testbit REC_SEALED_BIT i).
Qed.

Lemma sealed_size_u64 (old new : Z) : u64 old -> u64 new -> u64 (Z.lor (Z.ldiff new REC_SEALED_BIT) (Z.land old REC_SEALED_BIT)).
Proof.
  intros H1 H2. apply (of_bits 64); [lia|]. intros i Hi. by rewrite Z.lor_spec, Z.ldiff_spec, Z.land_spec, (high_bits 64 new i), (high_bits 64 old i) by (done || lia).
Qed.

(** The record [persist_entry] writes: type, seal and name stay. *)
Definition updated (blk blk' : Block) (slot : nat) (sz first count : Z) : Prop :=
  is_block blk' /\ dir_crc_ok blk' = true /\ (forall i, (i < RECS_PER_BLOCK)%nat -> i <> slot -> slot_bytes blk' i = slot_bytes blk i) /\
  bytes_name (slot_bytes blk' slot) = bytes_name (slot_bytes blk slot) /\
  bytes_meta (slot_bytes blk' slot) =
    let m := bytes_meta (slot_bytes blk slot) in mkMeta (m_type m) (m_sealed m) (Z.ldiff sz REC_SEALED_BIT) first count.

Section Update.
Context (blk : Block) (slot : nat) (sz first count : Z).
Context (Hb : is_block blk) (Hslot : (slot < RECS_PER_BLOCK)%nat) (Hsz : u64 sz) (Hfirst : u64 first) (Hcount : u64 count).

Let o := (slot * REC_SIZE)%nat.
Definition new_rec : Block := put_u64 (o + 56) count (put_u64 (o + 48) first (rec_set_size blk o sz)).

Lemma new_rec_block : is_block new_rec.
Proof. unfold new_rec, rec_set_size. by do 3 apply put_u64_is_block. Qed.

Lemma new_rec_other (i : nat) : i <> slot -> slot_bytes new_rec i = slot_bytes blk i.
Proof.
  intros Hi. unfold new_rec, rec_set_size, put_u64, o. by rewrite !(put_slot_other _ slot) by (done || (rewrite ?to_le_length; unfold REC_SIZE; lia)).
Qed.

Lemma new_rec_updated : updated blk (dir_stamp new_rec) slot sz first count.
Proof.
  destruct (dir_stamp_restamps new_rec new_rec_block) as (H1 & H2 & H3). destruct Hb as [Hlen Hbytes]. unfold BLOCK in Hlen.
  unfold RECS_PER_BLOCK in Hslot. split_and!; [done|done| | |].
  - intros i Hi Hne. by rewrite H3, new_rec_other.
  - rewrite H3 by done. unfold new_rec, rec_set_size, put_u64. rewrite <- !rec_name_slot. unfold rec_name. fold o. unfold o, REC_SIZE.
    rewrite !byte_at_put_disj by (rewrite to_le_length; lia). destruct (_ =? ITYPE_FREE); [done|]. destruct (_ || _) eqn:E; [done|]. f_equal.
    apply orb_false_iff in E as [_ E]. rewrite Z.gtb_ltb in E. apply Z.ltb_ge in E. unfold NAME_MAX in E.
    rewrite !slice_put_disj by (rewrite to_le_length; lia). done.
  - rewrite H3 by done. rewrite <- (rec_entry_slot new_rec 0), <- (rec_entry_slot blk 0). unfold meta_of, rec_entry, rec_is_sealed, rec_size.
    cbn [itype sealed size first_block block_count m_type m_sealed]. fold o.
    assert (u64_at new_rec (o + 40) = Z.lor (Z.ldiff sz REC_SEALED_BIT) (Z.land (u64_at blk (o + 40)) REC_SEALED_BIT)) as ->.
    { unfold new_rec, rec_set_size, o, REC_SIZE. rewrite !u64_put_u64_disj by lia. apply u64_put_same; [|lia]. apply sealed_size_u64; [by apply u64_at_range|done]. }
    destruct (sealed_bit_kept (u64_at blk (o + 40)) sz) as [-> ->]. unfold new_rec, rec_set_size, o, REC_SIZE. f_equal.
    + unfold put_u64. by rewrite !byte_at_put_disj by (rewrite to_le_length; lia).
    + rewrite u64_put_u64_disj by lia. apply u64_put_same; [done|]. rewrite put_u64_length. lia.
    + apply u64_put_same; [done|]. rewrite !put_u64_length. lia.
Qed.

End Update.

Lemma updated_ext blk0 blk blk' slot sz first count : (forall i, (i < RECS_PER_BLOCK)%nat -> slot_bytes blk i = slot_bytes blk0 i) -> (slot < RECS_PER_BLOCK)%nat ->
  updated blk blk' slot sz first count -> updated blk0 blk' slot sz first count.
Proof.
  intros E Hs (H1 & H2 & H3 & H4 & H5). split_and!; [done|done|intros i Hi Hne; by rewrite H3, E|by rewrite H4, E|by rewrite H5, E].
Qed.

Lemma now_epoch_quiet (s : St) : quiet s (now_epoch s).1.
Proof. unfold now_epoch, ibind, fs_get, iget. cbn. destruct (clock (st_fs s)). cbn. apply quiet_refl. Qed.

Lemma persist_rec_view (s : St) (e : Entry) (l : Loc) : open_txn s -> loc e = Some l -> (l_slot l < RECS_PER_BLOCK)%nat ->
  u64 (size e) -> u64 (first_block e) -> u64 (block_count e) ->
  post (persist_entry e) s (fun s' r => r = Ok tt -> exists blk',
    updated (view s (l_block l)) blk' (l_slot l) (size e) (first_block e) (block_count e) /\
    steps_to s s' (fs_sb (st_fs s)) (<[l_block l := blk']> (view s))).
Proof.
  intros Ho Hl Hslot H1 H2 H3. unfold persist_entry. rewrite Hl. apply post_bind_ok, post_ok_or.
  eapply post_mono; [by apply td_read_view|]. intros s1 r (-> & Hq). destruct (dir_crc_ok (view s (l_block l))); [|done].
  apply post_bind. unfold post at 1. set (now := (now_epoch s1).2). pose proof (quiet_trans _ _ _ Hq (now_epoch_quiet s1)) as Hq2.
  clearbody now. set (m := if negb _ then _ else _). clearbody m. set (blk1 := dir_times_set _ _ _ _).
  assert (is_block blk1) as Hb1 by (apply dir_times_set_block, Ho).
  apply post_or_err. unfold td_write. eapply post_mono; [apply tb_write_view; [by eapply quiet_open|]|].
  { apply dir_stamp_block. by apply new_rec_block. }
  intros s2 [] H Hr; [|done]. specialize (H eq_refl).
  exists (dir_stamp (new_rec blk1 (l_slot l) (size e) (first_block e) (block_count e))). split.
  - eapply updated_ext; [|done|by apply new_rec_updated]. intros i Hi. unfold blk1. by apply dir_times_set_slot.
  - eapply steps_ext; [|eapply steps_trans; [by apply quiet_steps|rewrite (proj1 Hq2) in H; exact H]].
    intros lba. destruct (decide (l_block l = lba)) as [<-|Hne]; [by rewrite !fn_lookup_insert|]. rewrite !fn_lookup_insert_ne by done. by apply quiet_view.
Qed.

(** ** A directory in use *)

Record dir_ok (s : St) (dir : Entry) : Prop := {
  dk_range : data_start (fs_geo (st_fs s)) <= first_block dir /\ 0 < block_count dir /\ first_block dir + block_count dir < total_blocks (fs_geo (st_fs s));
  dk_crc : forall b, first_block dir <= b < first_block dir + block_count dir -> dir_crc_ok (view s b) = true;
  dk_used : forall b, first_block dir <= b < first_block dir + block_count dir -> used_bit s b = true;
  dk_size : u64 (size dir);
  dk_loc : forall l, loc dir = Some l -> (l_slot l < RECS_PER_BLOCK)%nat /\ data_start (fs_geo (st_fs s)) <= l_block l < total_blocks (fs_geo (st_fs s)) - 1 /\
    used_bit s (l_block l) = true /\ ~ (first_block dir <= l_block l < first_block dir + block_count dir);
}.

Lemma dir_blocks_range (s : St) (dir : Entry) : geo_ok (fs_geo (st_fs s)) -> dir_ok s dir -> dir_blocks dir = seqZ (first_block dir) (block_count dir).
Proof.
  intros [[G1 G2] G3 G4 G5] [(R1 & R2 & R3) _ _ _ _]. unfold dir_blocks, MAX_SANE_SECTORS, JOURNAL_BLOCKS in *.
  assert (0 <= (total_blocks (fs_geo (st_fs s)) - 1) / BITS_PER_BMBLOCK) by (apply Z.div_pos; unfold BITS_PER_BMBLOCK; lia).
  apply list_eq. intros i. rewrite list_lookup_fmap. destruct (decide (Z.of_nat i < block_count dir)) as [Hi|Hi].
  - rewrite !lookup_seqZ_lt by lia. cbn. f_equal. rewrite wrap64_small by (unfold u64_max; lia). lia.
  - by rewrite !lookup_seqZ_ge by lia.
Qed.

Lemma data_off_meta (s : St) (b : Z) : geo_ok (fs_geo (st_fs s)) -> data_start (fs_geo (st_fs s)) <= b < total_blocks (fs_geo (st_fs s)) - 1 -> off_meta s b.
Proof.
  intros [[G1 G2] G3 G4 G5] Hb. unfold off_meta, JOURNAL_BLOCKS in *.
  assert (0 <= (total_blocks (fs_geo (st_fs s)) - 1) / BITS_PER_BMBLOCK) by (apply Z.div_pos; unfold BITS_PER_BMBLOCK; lia). lia.
Qed.

Lemma data_off_super (s : St) (b : Z) : geo_ok (fs_geo (st_fs s)) -> off_meta s b -> off_super s b.
Proof.
  intros [[G1 G2] G3 G4 G5] (H1 & H2 & _). unfold off_super, MAX_SANE_SECTORS in *. rewrite wrap64_small by (unfold u64_max; lia). done.
Qed.

(** A block that an insertion into [dir] must leave alone: in use, and neither in
    [dir] nor the block that holds the record of [dir]. *)
Definition bystander (s : St) (dir : Entry) (b : Z) : Prop :=
  data_start (fs_geo (st_fs s)) <= b < total_blocks (fs_geo (st_fs s)) - 1 /\ used_bit s b = true /\
  ~ (first_block dir <= b < first_block dir + block_count dir) /\ forall l, loc dir = Some l -> b <> l_block l.

(** [used_bit] reads the bitmap blocks only. *)
Lemma used_bit_frame (s s' : St) (b : Z) : geo_ok (fs_geo (st_fs s)) -> fs_geo (st_fs s') = fs_geo (st_fs s) ->
  (forall x, bitmap_start (fs_geo (st_fs s)) <= x < journal_start (fs_geo (st_fs s)) -> view s' x = view s x) ->
  0 <= b < total_blocks (fs_geo (st_fs s)) -> used_bit s' b = used_bit s b.
Proof.
  intros [[G1 G2] G3 G4 G5] Eg Hv Hb. unfold used_bit, bit_of. rewrite Eg, Hv; [done|].
  pose proof (Z.div_pos b BITS_PER_BMBLOCK ltac:(lia) ltac:(unfold BITS_PER_BMBLOCK; lia)).
  pose proof (Z.div_le_mono b (total_blocks (fs_geo (st_fs s)) - 1) BITS_PER_BMBLOCK ltac:(unfold BITS_PER_BMBLOCK; lia) ltac:(lia)). lia.
Qed.

(** ** Insertion without growth *)

Lemma dir_recs_insert (v v' : Image) (blocks : list Z) (b : Z) (blk' : Block) (name : list Z) (m : Meta) : NoDup blocks -> b ∈ blocks ->
  (forall x, v' x = <[b := blk']> v x) -> placed (v b) blk' name m -> dir_recs v' blocks ≡ₚ (name, m) :: dir_recs v blocks.
Proof.
  intros Hn Hb Hv (_ & _ & Hp). unfold dir_recs. apply (bind_insert block_recs v v' blocks b); [done|done| |].
  - intros x _ Hne. by rewrite Hv, fn_lookup_insert_ne.
  - by rewrite Hv, fn_lookup_insert.
Qed.

Lemma add_loop_view (s : St) (l : list Z) (name : list Z) (ty sz first count : Z) :
  open_txn s -> Forall (fun b => dir_crc_ok (view s b) = true) l -> rec_args_ok name ty sz first count ->
  post (for_first l (add_loop name ty sz first count)) s (fun s' r =>
    match r with
    | Some (Ok _) => exists b blk', b ∈ l /\ placed (view s b) blk' name (mkMeta ty false (Z.ldiff sz REC_SEALED_BIT) first count) /\
                       steps_to s s' (fs_sb (st_fs s)) (<[b := blk']> (view s))
    | Some (Err _) => True
    | None => quiet s s'
    end).
Proof.
  intros Ho Hc Ha. enough (forall l' s', quiet s s' -> l' ⊆ l -> post (for_first l' (add_loop name ty sz first count)) s' (fun s'' r =>
    match r with
    | Some (Ok _) => exists b blk', b ∈ l /\ placed (view s b) blk' name (mkMeta ty false (Z.ldiff sz REC_SEALED_BIT) first count) /\
                       steps_to s s'' (fs_sb (st_fs s)) (<[b := blk']> (view s))
    | Some (Err _) => True
    | None => quiet s s''
    end)) as H by (apply H; [apply quiet_refl|done]).
  intros l'. induction l' as [|b l' IH]; intros s' Hq Hl; [by apply post_ret|]. cbn [for_first]. apply post_bind. unfold add_loop at 1. apply post_bind.
  eapply post_mono; [apply td_read_view; by eapply quiet_open|]. intros s1 r (-> & Hq1). rewrite (quiet_view _ _ _ Hq).
  assert (b ∈ l) as Hbl by (apply Hl; left). rewrite (proj1 (Forall_forall _ _) Hc b Hbl). pose proof (quiet_trans _ _ _ Hq Hq1) as Hq2.
  destruct (find_free (view s b)) as [slot|] eqn:Ef; [|apply post_ret; apply IH; [done|set_solver]]. apply post_bind.
  eapply post_mono; [apply place_rec_view; [by eapply quiet_open|apply Ho|done|done]|]. intros s2 r H. apply post_ret, post_ret.
  destruct r as [[]|]; [|done]. destruct (H eq_refl) as (blk' & Hp & Hs). exists b, blk'. split_and!; [done|done|].
  rewrite (proj1 Hq2) in Hs. eapply steps_ext; [|eapply steps_trans; [by apply quiet_steps|exact Hs]].
  intros x. destruct (decide (b = x)) as [<-|Hne]; [by rewrite !fn_lookup_insert|]. rewrite !fn_lookup_insert_ne by done. by apply quiet_view.
Qed.

(** ** Growth *)

Definition copied (v : Image) (old new n : Z) : Image := fun x => if decide (new <= x < new + n) then dir_stamp (v (old + (x - new))) else v x.

Lemma copy_view (s : St) (old new n : Z) : open_txn s -> 0 <= old -> 0 <= new -> old + n <= 2 ^ 48 -> new + n <= 2 ^ 48 -> 0 <= n ->
  (forall j, 0 <= j < n -> dir_crc_ok (view s (old + j)) = true) -> (forall j k, 0 <= j < n -> 0 <= k < n -> old + j <> new + k) ->
  post (for_ok (seqZ 0 n) (fun bi =>
    blk <-! ok_or (td_read (wrap64 (old + bi))) "dir read failed" ;;
    or_err (td_write (wrap64 (new + bi)) blk) "dir copy failed")) s (fun s' r => r = Ok tt -> steps_to s s' (fs_sb (st_fs s)) (copied (view s) old new n)).
Proof.
  intros Ho H1 H2 H3 H4 H5 Hc Hd. enough (forall (m : nat) k s', k + Z.of_nat m = n -> 0 <= k -> steps_to s s' (fs_sb (st_fs s)) (copied (view s) old new k) ->
    post (for_ok (seqZ k (Z.of_nat m)) (fun bi => blk <-! ok_or (td_read (wrap64 (old + bi))) "dir read failed" ;; or_err (td_write (wrap64 (new + bi)) blk) "dir copy failed")) s'
      (fun s'' r => r = Ok tt -> steps_to s s'' (fs_sb (st_fs s)) (copied (view s) old new n))) as H.
  { replace (seqZ 0 n) with (seqZ 0 (Z.of_nat (Z.to_nat n))) by (f_equal; lia). apply H; [lia|lia|].
    eapply steps_ext; [|by apply steps_refl]. intros x. unfold copied. by rewrite decide_False by lia. }
  intros m. induction m as [|m IH]; intros k s' Hk Hk0 Hs.
  { rewrite seqZ_nil by lia. apply post_ret. intros _. by replace n with k by lia. }
  rewrite seqZ_cons by lia. cbn [for_ok]. apply post_bind_ok, post_bind_ok, post_ok_or. rewrite !wrap64_small by (unfold u64_max; lia).
  eapply post_mono; [apply td_read_view; by eapply steps_open|]. intros s1 r (-> & Hq).
  assert (view s' (old + k) = view s (old + k)) as Ev.
  { rewrite (steps_view _ _ _ _ _ Hs). unfold copied. rewrite decide_False; [done|]. intros Hx. apply (Hd k (old + k - new)); lia. }
  rewrite Ev, Hc by lia. pose proof (steps_open _ _ _ _ Hs) as Ho'. apply post_or_err. unfold td_write.
  eapply post_mono; [apply tb_write_view; [by eapply quiet_open|apply dir_stamp_block, Ho]|]. intros s2 [] H; [|done]. specialize (H eq_refl).
  replace (Z.pred (Z.of_nat (S m))) with (Z.of_nat m) by lia. apply (IH (Z.succ k)); [lia|lia|].
  pose proof (steps_trans _ _ _ _ _ _ _ Hs (steps_trans _ _ _ _ _ _ _ (quiet_steps _ _ Ho' Hq) H)) as Hs2.
  rewrite (proj1 Hq), (steps_sb _ _ _ _ Hs) in Hs2. eapply steps_ext; [|exact Hs2]. intros x. unfold copied.
  destruct (decide (new + k = x)) as [<-|Hne].
  - rewrite fn_lookup_insert, decide_True by lia. do 2 f_equal. lia.
  - rewrite fn_lookup_insert_ne by done. rewrite (quiet_view _ _ _ Hq), (steps_view _ _ _ _ _ Hs). unfold copied.
    destruct (decide (new <= x < new + k)); [rewrite decide_True by lia; done|rewrite decide_False by lia; done].
Qed.

(** The backup superblock is never free. *)
Record vol_ok (s : St) : Prop := {
  vk_geo : geo_ok (fs_geo (st_fs s));
  vk_backup : used_bit s (total_blocks (fs_geo (st_fs s)) - 1) = true;
}.

(** The blocks of the data region, by number. *)
Definition data_block_no (s : St) (b : Z) : Prop := data_start (fs_geo (st_fs s)) <= b < total_blocks (fs_geo (st_fs s)) - 1.

Lemma data_pos (s : St) : geo_ok (fs_geo (st_fs s)) -> 65 < data_start (fs_geo (st_fs s)).
Proof.
  intros [[G1 G2] G3 G4 G5]. unfold JOURNAL_BLOCKS in *.
  assert (0 <= (total_blocks (fs_geo (st_fs s)) - 1) / BITS_PER_BMBLOCK) by (apply Z.div_pos; unfold BITS_PER_BMBLOCK; lia). lia.
Qed.

Lemma fit_in_data (s : St) (n start : Z) : vol_ok s -> 0 < n -> first_fit s (data_start (fs_geo (st_fs s))) (total_blocks (fs_geo (st_fs s))) n start ->
  data_start (fs_geo (st_fs s)) <= start /\ start + n < total_blocks (fs_geo (st_fs s)) /\ forall b, start <= b < start + n -> used_bit s b = false.
Proof.
  intros [Hg Hb] Hn (F1 & F2 & F3 & _). split; [done|]. assert (forall b, start <= b < start + n -> used_bit s b = false) as Hu by (intros b Hbr; apply F3; lia).
  split; [|done]. destruct (decide (start + n = total_blocks (fs_geo (st_fs s)))) as [E|]; [|lia]. rewrite Hu in Hb by lia. done.
Qed.

(** Writing an entry back changes at most its record, or the superblock. *)
Lemma persist_entry_view (s : St) (e : Entry) : open_txn s -> u64 (size e) -> u64 (first_block e) -> u64 (block_count e) ->
  (forall l, loc e = Some l -> (l_slot l < RECS_PER_BLOCK)%nat) ->
  post (persist_entry e) s (fun s' r => r = Ok tt -> exists f v', steps_to s s' f v' /\ free_blocks f = free_blocks (fs_sb (st_fs s)) /\
    (loc e = None -> root_first_block f = first_block e /\ root_block_count f = block_count e) /\
    (forall b, off_super s b -> (forall l, loc e = Some l -> b <> l_block l) -> v' b = view s b) /\
    (forall l, loc e = Some l -> f = fs_sb (st_fs s) /\ updated (view s (l_block l)) (v' (l_block l)) (l_slot l) (size e) (first_block e) (block_count e))).
Proof.
  intros Ho H1 H2 H3 Hl. destruct (loc e) as [l|] eqn:El.
  - eapply post_mono; [apply persist_rec_view; try done; by apply Hl|]. intros s' r H Hr. destruct (H Hr) as (blk' & Hu & Hs).
    exists (fs_sb (st_fs s)), (<[l_block l := blk']> (view s)). split_and!; [done|done|done| |].
    + intros b _ Hb. apply fn_lookup_insert_ne. intros E. by apply (Hb l).
    + intros l' [= <-]. by rewrite fn_lookup_insert.
  - unfold persist_entry. rewrite El. apply post_bind. eapply post_mono; [by apply fs_mod_steps|]. intros s1 [] Hs1. cbn [fs_sb with_sb] in Hs1.
    eapply post_mono; [apply persist_after; exact Hs1|]. intros s2 r [_ H] Hr. destruct (H Hr) as (v' & Hs2 & Hv).
    exists (set_root (first_block e) (block_count e) (fs_sb (st_fs s))), v'. split_and!; [done|done|done| |done]. intros b Hb _. by apply Hv.
Qed.

Section Grow.
Context (s : St) (dir : Entry) (Ho : open_txn s) (Hv : vol_ok s) (Hd : dir_ok s dir).

Let g := fs_geo (st_fs s).
Let n := block_count dir.
Let old := first_block dir.

(** What growth leaves: the directory at [nf], one block longer. *)
Definition grown (nf : Z) (s' : St) : Prop :=
  fs_geo (st_fs s') = g /\ open_txn s' /\ emitted (st_dev s) (st_dev s') [] /\ data_start g <= nf /\ nf + n + 1 < total_blocks g /\
  (forall b, data_block_no s b -> used_bit s' b = bool_decide (nf <= b < nf + n + 1) || (used_bit s b && negb (bool_decide (old <= b < old + n)))) /\
  used_bit s' (total_blocks g - 1) = true /\
  (forall j, 0 <= j < n -> view s' (nf + j) = dir_stamp (view s (old + j))) /\ view s' (nf + n) = dir_stamp zero_block /\
  (forall b, bystander s dir b -> view s' b = view s b) /\
  (forall l, loc dir = Some l -> updated (view s (l_block l)) (view s' (l_block l)) (l_slot l) (size dir) nf (n + 1)) /\
  (forall b, nf <= b < nf + n + 1 -> used_bit s b = false) /\
  (loc dir = None -> root_first_block (fs_sb (st_fs s')) = nf /\ root_block_count (fs_sb (st_fs s')) = n + 1).

Lemma steps_emitted (s1 s2 : St) f v : steps_to s1 s2 f v -> emitted (st_dev s1) (st_dev s2) [].
Proof. by intros (_ & _ & H & _). Qed.

(** Allocation, copy and the fresh block. *)
Lemma grow_copy_view :
  post (grow_extent dir) s (fun s' r => forall nf, r = Ok nf -> exists f,
      steps_to s s' f (view s') /\ data_start g <= nf /\ nf + n + 1 < total_blocks g /\
      (forall b, nf <= b < nf + n + 1 -> used_bit s b = false) /\
      (forall b, 0 <= b < total_blocks g -> used_bit s' b = bool_decide (nf <= b < nf + n + 1) || used_bit s b) /\
      (forall j, 0 <= j < n -> view s' (nf + j) = dir_stamp (view s (old + j))) /\ view s' (nf + n) = dir_stamp zero_block /\
      (forall b, off_meta s b -> ~ (nf <= b < nf + n + 1) -> view s' b = view s b)).
Proof.
  pose proof Hv as [Hg _]. pose proof (data_pos s Hg) as Hds. pose proof Hg as [_ _ _ G5]. destruct Hd as [(R1 & R2 & R3) Hcrc Hused _ _]. fold g n old in R1, R2, R3, Hcrc, Hused, Hds, G5. unfold MAX_SANE_SECTORS in G5.
  unfold grow_extent. fold n old. rewrite wrap64_small by (unfold u64_max; lia). apply post_bind_ok. eapply post_mono; [apply alloc_run_view; [done|done|lia]|]. fold g.
  intros s1 [nf|e] [H _]; [|done]. destruct (H nf eq_refl) as (Hfit & Hs1 & Hb1 & Hm1). clear H.
  destruct (fit_in_data s (n + 1) nf Hv ltac:(lia) Hfit) as (F1 & F2 & F3). fold g in F1, F2. pose proof (steps_open _ _ _ _ Hs1) as Ho1.
  assert (forall b, old <= b < old + n -> view s1 b = view s b) as Hold by (intros b Hb; apply Hm1, data_off_meta; [done|fold g; lia]).
  apply post_bind_ok. eapply post_mono; [apply copy_view; [done|lia..| |]|].
  { intros j Hj. rewrite Hold by lia. apply Hcrc. lia. }
  { intros j k Hj Hk E. specialize (Hused (old + j) ltac:(lia)). rewrite F3 in Hused by lia. done. }
  intros s2 [[]|e] H2; [|done]. specialize (H2 eq_refl). apply post_bind_ok. rewrite wrap64_small by (unfold u64_max; lia).
  apply post_or_err. unfold td_write. eapply post_mono; [apply tb_write_view; [by eapply steps_open|apply dir_stamp_block, zero_is_block]|].
  intros s3 [] H3; [|done]. specialize (H3 eq_refl). apply post_ret. intros ? [= <-].
  pose proof (steps_trans _ _ _ _ _ _ _ Hs1 (steps_trans _ _ _ _ _ _ _ H2 H3)) as Hs3.
  assert (forall b, ~ (nf <= b < nf + n + 1) -> view s3 b = view s1 b) as Hout.
  { intros b Hb. rewrite (steps_view _ _ _ _ _ H3), fn_lookup_insert_ne, (steps_view _ _ _ _ _ H2) by lia. unfold copied. by rewrite decide_False by lia. }
  eexists. split; [eapply steps_ext; [|exact Hs3]; intros x; symmetry; by eapply steps_view|]. split_and!; [done|lia|intros b Hb; apply F3; lia| | | |].
  - intros b Hb. replace (nf + n + 1) with (nf + (n + 1)) by lia. rewrite <- (Hb1 b Hb). pose proof (steps_geo _ _ _ _ Hs1) as Eg1.
    apply used_bit_frame; [by rewrite Eg1|by rewrite (steps_geo _ _ _ _ H3), (steps_geo _ _ _ _ H2)| |by rewrite Eg1]. rewrite Eg1. fold g.
    intros x Hx. apply Hout. destruct Hg as [_ G3 _ _]. fold g in G3. unfold JOURNAL_BLOCKS in G3. lia.
  - intros j Hj. rewrite (steps_view _ _ _ _ _ H3), fn_lookup_insert_ne, (steps_view _ _ _ _ _ H2) by lia. unfold copied. rewrite decide_True by lia.
    rewrite Hold by lia. do 2 f_equal. lia.
  - by rewrite (steps_view _ _ _ _ _ H3), fn_lookup_insert.
  - intros b Hb Hnb. rewrite Hout by lia. by apply Hm1.
Qed.

Lemma grow_dir_view : post (grow_dir dir) s (fun s' r => forall dir', r = Ok dir' -> exists nf, dir' = with_extent dir nf (n + 1) /\ grown nf s').
Proof.
  pose proof Hv as [Hg Hbk]. pose proof (data_pos s Hg) as Hds. pose proof Hg as [_ G3 _ G5]. destruct Hd as [(R1 & R2 & R3) Hcrc Hused Hsz Hloc].
  fold g n old in R1, R2, R3, Hcrc, Hused, Hds, G3, G5. unfold MAX_SANE_SECTORS, JOURNAL_BLOCKS in *. unfold grow_dir. fold n old. rewrite wrap64_small by (unfold u64_max; lia).
  apply post_bind_ok. eapply post_mono; [apply grow_copy_view|]. intros s3 [nf|e] H3; [|done]. destruct (H3 nf eq_refl) as (f & Hs3 & F1 & F2 & F3 & Hb3 & Hc3 & Hz3 & Hm3).
  clear H3. pose proof (steps_open _ _ _ _ Hs3) as Ho3. pose proof (steps_geo _ _ _ _ Hs3) as Eg3. fold g in Eg3. set (dir' := with_extent dir nf (n + 1)).
  apply post_bind_ok. eapply post_mono; [apply persist_entry_view; [done|done|unfold u64; cbn; lia|unfold u64; cbn; lia|intros l Hl; by apply Hloc]|].
  intros s4 [[]|e] H4; [|done]. destruct (H4 eq_refl) as (f4 & v4 & Hs4 & _ & Hroot & Hfr4 & Hup4). clear H4. cbn [loc dir' with_extent first_block block_count size] in *.
  pose proof (steps_geo _ _ _ _ Hs4) as Eg4. rewrite Eg3 in Eg4. pose proof (steps_open _ _ _ _ Hs4) as Ho4.
  assert (forall b, off_meta s b -> off_super s3 b) as Hoff by (intros b Hb; unfold off_super; rewrite Eg3; by apply data_off_super).
  assert (forall b, data_block_no s b -> off_meta s b) as Hdata by (intros b Hb; apply data_off_meta; done).
  assert (forall b, 0 <= b < total_blocks g -> used_bit s4 b = used_bit s3 b) as Hb4.
  { intros b Hb. apply used_bit_frame; [by rewrite Eg3|by rewrite Eg3| |by rewrite Eg3]. rewrite Eg3. intros x Hx. rewrite (steps_view _ _ _ _ _ Hs4). apply Hfr4.
    - destruct Hg as [[G1 G2] _ G4 _]. fold g in G1, G2, G4. unfold off_super. rewrite Eg3, wrap64_small by (unfold u64_max; lia). lia.
    - intros l Hl ->. destruct (Hloc l Hl) as (_ & Hr & _). fold g in Hr. lia. }
  apply post_bind_ok. eapply post_mono; [apply free_run_view; [done|by rewrite Eg4|lia|done|rewrite Eg4; lia]|].
  intros s5 [[]|e] H5; [|done]. destruct (H5 eq_refl) as (Hs5 & Hb5 & Hm5). clear H5. apply post_ret. intros ? [= <-]. exists nf. split; [done|]. rewrite Eg4 in *.
  assert (forall b, data_block_no s b -> view s5 b = view s4 b) as Hv5 by (intros b Hb; apply Hm5; unfold off_meta; rewrite Eg4; by apply Hdata).
  assert (forall b, data_block_no s b -> (forall l, loc dir = Some l -> b <> l_block l) -> view s5 b = view s3 b) as Hv53.
  { intros b Hb Hl. rewrite Hv5 by done. rewrite (steps_view _ _ _ _ _ Hs4). apply Hfr4; [by apply Hoff, Hdata|done]. }
  assert (forall b l, nf <= b < nf + n + 1 -> loc dir = Some l -> b <> l_block l) as Hnl.
  { intros b l Hb Hl ->. destruct (Hloc l Hl) as (_ & _ & Hu & _). rewrite F3 in Hu by done. done. }
  assert (forall b, old <= b < old + n -> ~ (nf <= b < nf + n + 1)) as Hdisj by (intros b Hb Hb'; specialize (Hused b Hb); by rewrite F3 in Hused).
  unfold grown. split_and!; [by rewrite (steps_geo _ _ _ _ Hs5)|by eapply steps_open| |done|done| | | | | | |done|].
  - apply (emitted_trans _ _ _ [] [] (steps_emitted _ _ _ _ Hs3) (emitted_trans _ _ _ [] [] (steps_emitted _ _ _ _ Hs4) (steps_emitted _ _ _ _ Hs5))).
  - intros b Hb. unfold data_block_no in Hb. fold g in Hb. rewrite Hb5, Hb4, Hb3 by lia. specialize (Hdisj b).
    repeat case_bool_decide; cbn; rewrite ?andb_true_r, ?andb_false_r; try done. exfalso. tauto.
  - rewrite Hb5, Hb4, Hb3 by lia. rewrite !bool_decide_false by lia. done.
  - intros j Hj. rewrite Hv53; [by apply Hc3|unfold data_block_no; fold g; lia|intros l Hl; apply Hnl; [lia|done]].
  - rewrite Hv53; [done|unfold data_block_no; fold g; lia|intros l Hl; apply Hnl; [lia|done]].
  - intros b (B1 & B2 & B3 & B4). rewrite Hv53 by done. apply Hm3; [by apply Hdata|]. intros Hx. by rewrite F3 in B2.
  - intros l Hl. destruct (Hloc l Hl) as (_ & Hr & _). rewrite Hv5 by done. rewrite (steps_view _ _ _ _ _ Hs4).
    destruct (Hup4 l Hl) as [_ Hu]. rewrite Hm3 in Hu; [done|by apply Hdata|]. intros Hx. by apply (Hnl _ l Hx Hl).
  - intros Hl. rewrite (steps_sb _ _ _ _ Hs5). cbn. rewrite (steps_sb _ _ _ _ Hs4). by apply Hroot.
Qed.

End Grow.

Lemma block_recs_stamp (blk : Block) : is_block blk -> block_recs (dir_stamp blk) = block_recs blk.
Proof. intros H. by apply restamps_recs, dir_stamp_restamps. Qed.

Lemma fresh_block_recs : block_recs (dir_stamp zero_block) = [].
Proof. rewrite block_recs_stamp by apply zero_is_block. by vm_compute. Qed.

Lemma fresh_block_free : find_free (dir_stamp zero_block) = Some 0%nat.
Proof.
  assert (byte_at (dir_stamp zero_block) (0 * REC_SIZE) = ITYPE_FREE) as E.
  { rewrite <- (Nat.add_0_r (0 * REC_SIZE)), byte_slot, dir_stamp_slot by (unfold REC_SIZE, RECS_PER_BLOCK; lia). done. }
  unfold find_free, RECS_PER_BLOCK. cbn [seq list_find]. by rewrite decide_True.
Qed.

(** After growth: the same records, in a valid directory with room. *)
Lemma grown_dir (s s' : St) (dir : Entry) (nf : Z) : open_txn s -> vol_ok s -> dir_ok s dir -> grown s dir nf s' ->
  let dir' := with_extent dir nf (block_count dir + 1) in
  vol_ok s' /\ dir_ok s' dir' /\ dir_recs (view s') (dir_blocks dir') = dir_recs (view s) (dir_blocks dir).
Proof.
  intros Ho Hv Hd (Eg & Ho' & _ & F1 & F2 & Hb & Hbk & Hc & Hz & Hby & Hup & Hfree & _). cbv zeta. set (dir' := with_extent _ _ _). pose proof Hv as [Hg _]. pose proof Hd as [(R1 & R2 & R3) Hcrc Hused Hsz Hloc].
  assert (vol_ok s') as Hv' by (constructor; rewrite Eg; done). assert (dir_ok s' dir') as Hd'.
  { constructor; rewrite ?Eg; cbn [dir' with_extent first_block block_count size loc].
    - lia.
    - intros b Hbr. destruct (decide (b = nf + block_count dir)) as [->|]; [rewrite Hz; apply dir_stamp_ok, zero_is_block|].
      replace b with (nf + (b - nf)) by lia. rewrite Hc by lia. apply dir_stamp_ok, Ho.
    - intros b Hbr. rewrite Hb by (unfold data_block_no; lia). by rewrite bool_decide_true by lia.
    - done.
    - intros l Hl. destruct (Hloc l Hl) as (L1 & L2 & L3 & L4). split_and!; [done|lia..| |].
      + rewrite Hb by done. rewrite L3, (bool_decide_false (first_block dir <= _ < _)) by done. apply orb_true_r.
      + intros Hx. by rewrite Hfree in L3 by lia. }
  split; [done|]. split; [done|]. rewrite (dir_blocks_range s' dir'), (dir_blocks_range s dir) by (done || by rewrite Eg). cbn [dir' with_extent first_block block_count].
  rewrite seqZ_app by lia. unfold dir_recs. rewrite bind_app. replace (seqZ (nf + block_count dir) 1) with [nf + block_count dir] by done.
  cbn [mbind list_bind]. rewrite Hz, fresh_block_recs, !app_nil_r. clear -Hc Ho R2.
  assert (forall (m : nat) a b, (forall j, 0 <= j < Z.of_nat m -> view s' (a + j) = dir_stamp (view s (b + j))) ->
    seqZ a (Z.of_nat m) ≫= (fun x => block_recs (view s' x)) = seqZ b (Z.of_nat m) ≫= (fun x => block_recs (view s x))) as Hgen.
  { intros m. induction m as [|m IH]; intros a b H; [done|]. rewrite !(seqZ_cons _ (Z.of_nat (S m))) by lia. cbn [mbind list_bind].
    replace (Z.pred (Z.of_nat (S m))) with (Z.of_nat m) by lia. f_equal.
    - specialize (H 0 ltac:(lia)). rewrite !Z.add_0_r in H. rewrite H. apply block_recs_stamp, Ho.
    - apply IH. intros j Hj. specialize (H (Z.succ j) ltac:(lia)). replace (Z.succ a + j) with (a + Z.succ j) by lia. by replace (Z.succ b + j) with (b + Z.succ j) by lia. }
  replace (block_count dir) with (Z.of_nat (Z.to_nat (block_count dir))) by lia. apply Hgen. intros j Hj. apply Hc. lia.
Qed.

(** Rewriting one block of a directory. *)
Lemma rewrite_block (s s' : St) (dir : Entry) (b : Z) (blk' : Block) : vol_ok s -> dir_ok s dir -> first_block dir <= b < first_block dir + block_count dir ->
  is_block blk' -> dir_crc_ok blk' = true -> steps_to s s' (fs_sb (st_fs s)) (<[b := blk']> (view s)) ->
  vol_ok s' /\ dir_ok s' dir /\ (forall x, 0 <= x < total_blocks (fs_geo (st_fs s)) -> used_bit s' x = used_bit s x) /\
  (forall x, ~ (first_block dir <= x < first_block dir + block_count dir) -> view s' x = view s x).
Proof.
  intros [Hg Hbk] [(R1 & R2 & R3) Hcrc Hused Hsz Hloc] Hb Hblk Hok Hs. pose proof (steps_geo _ _ _ _ Hs) as Eg. pose proof (data_pos s Hg) as Hds.
  assert (forall x, x <> b -> view s' x = view s x) as Hne by (intros x Hx; rewrite (steps_view _ _ _ _ _ Hs); by apply fn_lookup_insert_ne).
  assert (forall x, 0 <= x < total_blocks (fs_geo (st_fs s)) -> used_bit s' x = used_bit s x) as Hu.
  { intros x Hx. apply used_bit_frame; [done|done| |done]. intros y Hy. apply Hne. destruct Hg as [_ G3 _ _]. unfold JOURNAL_BLOCKS in G3. lia. }
  split; [constructor; rewrite Eg; [done|]; rewrite Hu; [done|lia]|]. split; [|split; [done|intros x Hx; apply Hne; intros ->; done]].
  constructor; rewrite ?Eg; [done| | |done|].
  - intros x Hx. destruct (decide (x = b)) as [->|]; [by rewrite (steps_view _ _ _ _ _ Hs), fn_lookup_insert|rewrite Hne by done; by apply Hcrc].
  - intros x Hx. rewrite Hu by lia. by apply Hused.
  - intros l Hl. destruct (Hloc l Hl) as (? & ? & ? & ?). split_and!; try done; [lia..|]. rewrite Hu by lia. done.
Qed.

(** ** What reads leave alone *)

Lemma quiet_used (s s' : St) (b : Z) : quiet s s' -> used_bit s' b = used_bit s b.
Proof. intros Hq. unfold used_bit, bit_of. by rewrite (quiet_view _ _ _ Hq), (proj1 Hq). Qed.

Lemma quiet_vol (s s' : St) : quiet s s' -> vol_ok s -> vol_ok s'.
Proof. intros Hq [H1 H2]. constructor; rewrite ?(quiet_used _ _ _ Hq), (proj1 Hq); done. Qed.

Lemma quiet_dir (s s' : St) (dir : Entry) : quiet s s' -> dir_ok s dir -> dir_ok s' dir.
Proof.
  intros Hq [H1 H2 H3 H4 H5]. constructor; rewrite ?(proj1 Hq); [done| | |done|].
  - intros b Hb. rewrite (quiet_view _ _ _ Hq). by apply H2.
  - intros b Hb. rewrite (quiet_used _ _ _ Hq). by apply H3.
  - intros l Hl. rewrite (quiet_used _ _ _ Hq). by apply H5.
Qed.

Lemma quiet_bystander (s s' : St) (dir : Entry) (b : Z) : quiet s s' -> bystander s dir b -> bystander s' dir b.
Proof. intros Hq (H1 & H2 & H3 & H4). unfold bystander. by rewrite (quiet_used _ _ _ Hq), (proj1 Hq). Qed.

Lemma dir_recs_ext (v v' : Image) (blocks : list Z) : (forall x, v x = v' x) -> dir_recs v blocks = dir_recs v' blocks.
Proof. intros E. unfold dir_recs. apply Forall_bind_ext, Forall_forall. intros x _. by rewrite E. Qed.

(** An entry without a record is the root, as the superblock has it. *)
Definition tracks_root (s : St) (dir : Entry) : Prop :=
  loc dir = None -> root_first_block (fs_sb (st_fs s)) = first_block dir /\ root_block_count (fs_sb (st_fs s)) = block_count dir.

(** What an insertion must bring about. *)
Definition inserted (s s' : St) (dir dir' : Entry) (name : list Z) (m : Meta) : Prop :=
  dir_recs (view s') (dir_blocks dir') ≡ₚ (name, m) :: dir_recs (view s) (dir_blocks dir) /\
  open_txn s' /\ vol_ok s' /\ dir_ok s' dir' /\
  (forall b, bystander s dir b -> view s' b = view s b /\ used_bit s' b = true) /\
  emitted (st_dev s) (st_dev s') [] /\ fs_geo (st_fs s') = fs_geo (st_fs s) /\
  (exists first count, dir' = with_extent dir first count) /\ (tracks_root s dir -> tracks_root s' dir').

Lemma add_after_growth (s : St) (dir : Entry) (name : list Z) (ty sz first count : Z) :
  open_txn s -> vol_ok s -> dir_ok s dir -> rec_args_ok name ty sz first count ->
  post (dir' <-! grow_dir dir ;;
        let block := wrap64 (first_block dir' + block_count dir' - 1) in
        blk <-! ok_or (td_read block) "dir read failed" ;;
        place_rec block blk 0 name ty sz first count ;;!
        iret (Ok dir')) s (fun s' r => forall dir', r = Ok dir' -> inserted s s' dir dir' name (mkMeta ty false (Z.ldiff sz REC_SEALED_BIT) first count)).
Proof.
  intros Ho Hv Hd Ha. pose proof (vk_geo _ Hv) as Hg. apply post_bind_ok. eapply post_mono; [by apply grow_dir_view|].
  intros s2 [dir'|e] H2; [|done]. destruct (H2 dir' eq_refl) as (nf & -> & Hgr). clear H2.
  destruct (grown_dir s s2 dir nf Ho Hv Hd Hgr) as (Hv2 & Hd2 & Hrecs). set (dir' := with_extent dir nf (block_count dir + 1)) in *.
  destruct Hgr as (Eg & Ho2 & He2 & F1 & F2 & Hb2 & _ & _ & Hz & Hby2 & _ & Hfree & Hrt). pose proof (dir_blocks_range s2 dir' (vk_geo _ Hv2) Hd2) as Hblocks'.
  pose proof (dk_range _ _ Hd2) as R2. cbn [dir' with_extent first_block block_count] in R2 |- *.
  rewrite wrap64_small by (pose proof (go_total _ (vk_geo _ Hv2)); unfold MAX_SANE_SECTORS, u64_max in *; pose proof (data_pos _ (vk_geo _ Hv2)); lia).
  replace (nf + (block_count dir + 1) - 1) with (nf + block_count dir) by lia. apply post_bind_ok, post_ok_or.
  eapply post_mono; [by apply td_read_view|]. intros s3 r (-> & Hq3). rewrite Hz, dir_stamp_ok by apply zero_is_block.
  apply post_bind_ok. eapply post_mono; [apply place_rec_view; [by eapply quiet_open|apply dir_stamp_block, zero_is_block|apply fresh_block_free|done]|].
  intros s4 [[]|e] H4; [|done]. destruct (H4 eq_refl) as (blk' & Hp & Hs4). apply post_ret. intros ? [= <-]. pose proof Hp as (P1 & P2 & _).
  destruct (rewrite_block s3 s4 dir' (nf + block_count dir) blk' (quiet_vol _ _ Hq3 Hv2) (quiet_dir _ _ _ Hq3 Hd2) ltac:(cbn; lia) P1 P2 Hs4) as (Hv4 & Hd4 & Hu4 & Hf4).
  unfold inserted. split_and!; [|by eapply steps_open|done|done| | | | |].
  - rewrite (dir_recs_insert (view s3) (view s4) (dir_blocks dir') (nf + block_count dir) blk' name); [| | |intros x; by eapply steps_view|rewrite (quiet_view _ _ _ Hq3), Hz; exact Hp].
    + apply perm_skip. rewrite (dir_recs_ext (view s3) (view s2)) by (intros x; by apply quiet_view). by rewrite Hrecs.
    + rewrite Hblocks'. apply NoDup_seqZ.
    + rewrite Hblocks'. apply elem_of_seqZ. cbn. lia.
  - intros b Hby. pose proof Hby as (B1 & B2 & B3 & _). assert (~ (nf <= b < nf + block_count dir + 1)) as Hn by (intros Hx; by rewrite Hfree in B2).
    rewrite Hf4 by (cbn; lia). rewrite (quiet_view _ _ _ Hq3), Hby2 by done. split; [done|].
    rewrite Hu4 by (rewrite (proj1 Hq3), Eg; pose proof (data_pos s Hg); lia). rewrite (quiet_used _ _ _ Hq3), Hb2 by done.
    rewrite B2, (bool_decide_false (first_block dir <= b < _)) by done. apply orb_true_r.
  - apply (emitted_trans _ _ _ [] [] He2 (emitted_trans _ _ _ [] [] (proj1 (proj2 Hq3)) (steps_emitted _ _ _ _ Hs4))).
  - by rewrite (steps_geo _ _ _ _ Hs4), (proj1 Hq3).
  - by exists nf, (block_count dir + 1).
  - intros _ Hl. rewrite (steps_sb _ _ _ _ Hs4), (proj1 Hq3). by apply Hrt.
Qed.

Lemma inserted_quiet (s s1 s' : St) (dir dir' : Entry) (name : list Z) (m : Meta) : quiet s s1 -> inserted s1 s' dir dir' name m -> inserted s s' dir dir' name m.
Proof.
  intros Hq (H1 & H2 & H3 & H4 & H5 & H6 & H7 & H8 & H9). unfold inserted, tracks_root in *. rewrite (proj1 Hq) in *.
  split_and!; [|done|done|done| |apply (emitted_trans _ _ _ [] [] (proj1 (proj2 Hq)) H6)|done|done|done].
  - rewrite H1. by rewrite (dir_recs_ext (view s1) (view s)) by (intros x; by apply quiet_view).
  - intros b Hb. rewrite <- (quiet_view _ _ _ Hq). by apply H5, (quiet_bystander _ _ _ _ Hq).
Qed.

(** ** Room for one more block *)

Definition room (s : St) : Prop := (length (txn_of s) < TXN_CAP)%nat.

Lemma quiet_room (s s' : St) : quiet s s' -> room s -> room s'.
Proof. intros (H & _). unfold room, txn_of. by rewrite H. Qed.

Lemma td_write_room (s : St) (lba : Z) (blk : Block) (e : string) : open_txn s -> room s -> 
  post (or_err (td_write lba blk) e) s (fun s' r => r = Ok tt /\ txn_overflow (fs_txn (st_fs s')) = txn_overflow (fs_txn (st_fs s))).
Proof.
  intros Ho Hr. apply post_or_err. unfold td_write, tb_write. apply post_bind, post_mod. apply post_bind, post_get. cbn. rewrite (ot_active _ Ho). unfold stage.
  destruct (list_find _ _) as [[i p]|]; [by apply post_bind, post_mod, post_ret|]. destruct (Nat.leb_spec TXN_CAP (length (txn_blocks (fs_txn (st_fs s))))).
  - unfold room, txn_of in Hr. lia.
  - by apply post_bind, post_mod, post_ret.
Qed.

(** A loop over a directory's blocks finds the first one that answers. *)
Lemma add_loop_room (s : St) (l : list Z) (name : list Z) (ty sz first count : Z) :
  open_txn s -> room s -> Forall (fun b => dir_crc_ok (view s b) = true) l -> Exists (fun b => is_Some (find_free (view s b))) l ->
  post (for_first l (add_loop name ty sz first count)) s (fun s' r => r = Some (Ok tt) /\ txn_overflow (fs_txn (st_fs s')) = txn_overflow (fs_txn (st_fs s))).
Proof.
  intros Ho Hr Hc He. enough (forall s', quiet s s' -> post (for_first l (add_loop name ty sz first count)) s' (fun s'' r => r = Some (Ok tt) /\ txn_overflow (fs_txn (st_fs s'')) = txn_overflow (fs_txn (st_fs s)))) as H by apply H, quiet_refl.
  induction l as [|b l IH]; intros s' Hq; [by apply Exists_nil in He|]. apply Forall_cons in Hc as [Hb Hc]. cbn [for_first]. apply post_bind. unfold add_loop at 1. apply post_bind.
  eapply post_mono; [apply td_read_view; by eapply quiet_open|]. intros s1 r (-> & Hq1). rewrite (quiet_view _ _ _ Hq), Hb. pose proof (quiet_trans _ _ _ Hq Hq1) as Hq2.
  destruct (find_free (view s b)) as [slot|] eqn:E.
  - apply post_bind. unfold place_rec. apply post_bind. pose proof (now_epoch_quiet s1) as Hq3. unfold post at 1. pose proof (quiet_trans _ _ _ Hq2 Hq3) as Hq4.
    eapply post_mono; [apply td_write_room; [by eapply quiet_open|by eapply quiet_room]|]. intros s4 r [-> Hv]. apply post_ret, post_ret. split; [done|]. by rewrite Hv, (proj1 Hq4).
  - apply post_ret, IH; [done| |done]. apply Exists_cons in He as [He|He]; [|done]. rewrite E in He. by destruct He.
Qed.

(** With a free slot and room, the search for the slot is all there is to do. *)
Lemma add_fits (s : St) (dir : Entry) (name : list Z) (ty sz first count : Z) :
  open_txn s -> Forall (fun b => dir_crc_ok (view s b) = true) (dir_blocks dir) -> room s -> Exists (fun b => is_Some (find_free (view s b))) (dir_blocks dir) ->
  post (dir_add dir name ty sz first count) s (fun s' r => r = Ok dir /\ txn_overflow (fs_txn (st_fs s')) = txn_overflow (fs_txn (st_fs s))).
Proof.
  intros Ho Hc Hr He. apply post_bind. eapply post_mono; [by apply add_loop_room|]. intros s' r [-> Hv]. by apply post_ret.
Qed.

(** Insertion. *)
Lemma dir_add_view (s : St) (dir : Entry) (name : list Z) (ty sz first count : Z) :
  open_txn s -> vol_ok s -> dir_ok s dir -> rec_args_ok name ty sz first count ->
  post (dir_add dir name ty sz first count) s (fun s' r =>
    (forall dir', r = Ok dir' -> inserted s s' dir dir' name (mkMeta ty false (Z.ldiff sz REC_SEALED_BIT) first count)) /\
    (room s -> Exists (fun b => is_Some (find_free (view s b))) (dir_blocks dir) -> r = Ok dir)).
Proof.
  intros Ho Hv Hd Ha. pose proof (vk_geo _ Hv) as Hg. pose proof (dir_blocks_range s dir Hg Hd) as Hblocks.
  assert (Forall (fun b => dir_crc_ok (view s b) = true) (dir_blocks dir)) as Hcrc.
  { rewrite Hblocks. apply Forall_forall. intros b Hb%elem_of_seqZ. by apply (dk_crc _ _ Hd). }
  apply post_and; [|unfold post; intros Hr He; by apply (add_fits s dir name ty sz first count)].
  unfold dir_add. apply post_bind. eapply post_mono; [by apply add_loop_view|].
  intros s1 [[[]|e]|] H1; [|by apply post_ret|].
  - apply post_ret. intros ? [= <-]. destruct H1 as (b & blk' & Hb & Hp & Hs). pose proof Hp as (P1 & P2 & _). rewrite Hblocks in Hb. apply elem_of_seqZ in Hb as Hbr.
    destruct (rewrite_block s s1 dir b blk' Hv Hd Hbr P1 P2 Hs) as (Hv1 & Hd1 & Hu1 & Hf1). unfold inserted. split_and!; [|by eapply steps_open|done|done| |by eapply steps_emitted|by eapply steps_geo| |].
    + eapply dir_recs_insert; [rewrite Hblocks; apply NoDup_seqZ|rewrite Hblocks; exact Hb|intros x; by eapply steps_view|done].
    + intros x (B1 & B2 & B3 & _). rewrite Hf1, Hu1 by (done || (pose proof (data_pos s Hg); lia)). done.
    + exists (first_block dir), (block_count dir). by destruct dir.
    + unfold tracks_root. by rewrite (steps_sb _ _ _ _ Hs).
  - eapply post_mono; [apply add_after_growth; [by eapply quiet_open|by eapply quiet_vol|by eapply quiet_dir|done]|].
    intros s2 r H dir' Hr. eapply inserted_quiet; [exact H1|by apply H].
Qed.

(** C12: Inserting into a directory adds exactly the new entry to its map, whether or
    not the directory has to be moved to a longer extent; the directory stays
    valid, the other blocks in use keep their content and stay in use, and
    nothing reaches the disk.  With a free slot and room for one more block in
    the transaction the insertion succeeds, without moving the directory. *)
Theorem dir_add_inserts (s : St) (dir : Entry) (name : list Z) (ty sz first count : Z) :
  open_txn s -> vol_ok s -> dir_ok s dir -> rec_args_ok name ty sz first count ->
  post (dir_add dir name ty sz first count) s (fun s' r =>
    (forall dir', r = Ok dir' -> inserted s s' dir dir' name (mkMeta ty false (Z.ldiff sz REC_SEALED_BIT) first count)) /\
    (room s -> Exists (fun b => is_Some (find_free (view s b))) (dir_blocks dir) -> r = Ok dir)).
Proof. exact (dir_add_view s dir name ty sz first count). Qed.

(** ** Removal *)

Lemma omap_remove {A} (f f' : nat -> option A) (l : list nat) x a : NoDup l -> x ∈ l -> (forall y, y ∈ l -> y <> x -> f' y = f y) ->
  f x = Some a -> f' x = None -> omap f l ≡ₚ a :: omap f' l.
Proof. intros Hn Hx Hf H1 H2. apply (omap_insert f' f l x); try done. intros y Hy Hne. by rewrite Hf. Qed.

(** The block a removal leaves. *)
Lemma removed_block (blk : Block) (slot : nat) (name : list Z) : is_block blk -> find_name blk name = Some slot ->
  let blk' := dir_stamp (put (slot * REC_SIZE) [ITYPE_FREE] blk) in
  is_block blk' /\ dir_crc_ok blk' = true /\ block_recs blk ≡ₚ (name, bytes_meta (slot_bytes blk slot)) :: block_recs blk'.
Proof.
  intros Hb Hf. cbv zeta. destruct (find_name_some _ _ _ Hf) as [Hslot Hname]. set (b1 := put _ _ blk).
  assert (is_block b1) as Hb1 by (apply put_is_block; [done|repeat constructor; unfold is_byte, ITYPE_FREE; lia]).
  destruct (dir_stamp_restamps b1 Hb1) as (H1 & H2 & H3). split_and!; [done|done|].
  apply (omap_remove _ _ _ slot); [apply NoDup_seq|apply elem_of_seq; lia| | |].
  - intros i Hi Hne. apply elem_of_seq in Hi. apply slot_rec_ext. rewrite H3 by lia. unfold b1. apply (put_slot_other _ slot); [lia|cbn [length]; unfold REC_SIZE; lia|done].
  - unfold slot_rec. rewrite <- rec_name_slot, Hname. done.
  - unfold slot_rec. rewrite H3 by done. unfold bytes_name. rewrite <- (byte_slot b1 slot 0), Nat.add_0_r by (unfold REC_SIZE; lia). unfold b1.
    rewrite byte_at_put_same; [done|]. destruct Hb as [Hl _]. unfold RECS_PER_BLOCK, REC_SIZE, BLOCK in *. lia.
Qed.

(** What the search for a name to remove ends in. *)
Definition remove_outcome (s : St) (l : list Z) (name : list Z) (s' : St) (r : option (Fallible unit)) : Prop :=
  match r with
  | Some r => exists b slot, b ∈ l /\ find_name (view s b) name = Some slot /\
      assoc (dir_recs (view s) l) name = Some (bytes_meta (slot_bytes (view s b) slot)) /\ r <> Err "entry not found" /\ (room s -> r = Ok tt) /\
      (r = Ok tt -> steps_to s s' (fs_sb (st_fs s)) (<[b := dir_stamp (put (slot * REC_SIZE) [ITYPE_FREE] (view s b))]> (view s)))
  | None => assoc (dir_recs (view s) l) name = None
  end.

Lemma remove_loop_view (s : St) (l : list Z) (name : list Z) : open_txn s -> Forall (fun b => dir_crc_ok (view s b) = true) l ->
  post (for_first l (remove_loop name)) s (remove_outcome s l name).
Proof.
  intros Ho Hc. enough (forall s', quiet s s' -> post (for_first l (remove_loop name)) s' (remove_outcome s l name)) as H by apply H, quiet_refl.
  induction l as [|b l IH]; intros s' Hq; [by apply post_ret|]. apply Forall_cons in Hc as [Hb Hc]. cbn [for_first]. apply post_bind. unfold remove_loop at 1. apply post_bind.
  eapply post_mono; [apply td_read_view; by eapply quiet_open|]. intros s1 r (-> & Hq1). rewrite (quiet_view _ _ _ Hq), Hb. pose proof (quiet_trans _ _ _ Hq Hq1) as Hq2.
  assert (assoc (dir_recs (view s) (b :: l)) name = match find_name (view s b) name with Some slot => Some (bytes_meta (slot_bytes (view s b) slot)) | None => assoc (dir_recs (view s) l) name end) as Hassoc.
  { unfold dir_recs. cbn [mbind list_bind]. rewrite assoc_app, find_name_assoc. by destruct (find_name _ _). }
  unfold remove_outcome in *. rewrite Hassoc. destruct (find_name (view s b) name) as [slot|] eqn:E.
  - apply post_bind. assert (open_txn s1) as Ho1 by by eapply quiet_open. eapply post_mono; [apply post_avoids; [apply (avoids_or_err "entry not found"); discriminate|]; apply post_and|].
    { apply td_write_view; [done|]. apply put_is_block; [apply Ho|repeat constructor; unfold is_byte, ITYPE_FREE; lia]. }
    { instantiate (1 := fun _ r => room s1 -> r = Ok tt). unfold post. intros Hr. by apply (td_write_room s1 b). }
    intros s2 r (Hne & Hw & Hrm). apply post_ret, post_ret. exists b, slot. split_and!; [by left|done|done|done| |].
    + intros Hr. by apply Hrm, (quiet_room _ _ Hq2).
    + intros ->. specialize (Hw eq_refl). rewrite (proj1 Hq2) in Hw. eapply steps_ext; [|eapply steps_trans; [by apply quiet_steps|exact Hw]].
      intros x. destruct (decide (b = x)) as [<-|Hn]; [by rewrite !fn_lookup_insert|]. rewrite !fn_lookup_insert_ne by done. by apply quiet_view.
  - apply post_ret. eapply post_mono; [by apply IH|]. intros s2 [r|] H; [|done]. destruct H as (b' & slot & H1 & H2 & H3 & H4). exists b', slot.
    split_and!; [by right|done|done|apply H4..].
Qed.

(** C28: Removing a name takes exactly its entry out of the directory's map, leaves
    the bitmap and everything outside the directory alone, and answers that there
    is no such entry exactly when the map has none; with room in the transaction
    that is the only failure. *)
Theorem dir_remove_deletes (s : St) (dir : Entry) (name : list Z) :
  open_txn s -> vol_ok s -> dir_ok s dir ->
  post (dir_remove dir name) s (fun s' r =>
    (r = Ok tt -> exists m, assoc (dir_recs (view s) (dir_blocks dir)) name = Some m /\
       dir_recs (view s) (dir_blocks dir) ≡ₚ (name, m) :: dir_recs (view s') (dir_blocks dir) /\
       open_txn s' /\ vol_ok s' /\ dir_ok s' dir /\ emitted (st_dev s) (st_dev s') [] /\
       (forall b, ~ (first_block dir <= b < first_block dir + block_count dir) -> view s' b = view s b) /\
       (forall b, 0 <= b < total_blocks (fs_geo (st_fs s)) -> used_bit s' b = used_bit s b)) /\
    (r = Err "entry not found" <-> assoc (dir_recs (view s) (dir_blocks dir)) name = None) /\
    (room s -> r = Ok tt \/ r = Err "entry not found")).
Proof.
  intros Ho Hv Hd. pose proof (dir_blocks_range s dir (vk_geo _ Hv) Hd) as Hblocks. unfold dir_remove. apply post_bind.
  eapply post_mono; [apply remove_loop_view; [done|]|].
  { rewrite Hblocks. apply Forall_forall. intros b Hb%elem_of_seqZ. by apply (dk_crc _ _ Hd). }
  intros s' [r|] H; apply post_ret; [|by split_and!; [|split|right]]. destruct H as (b & slot & Hb & Hf & Ha & Hne & Hr & Hs). cbn [default]. split_and!.
  - intros E. specialize (Hs E). destruct (removed_block (view s b) slot name ltac:(apply Ho) Hf) as (B1 & B2 & B3). cbv zeta in *.
    rewrite Hblocks in Hb. apply elem_of_seqZ in Hb as Hbr. destruct (rewrite_block s s' dir b _ Hv Hd Hbr B1 B2 Hs) as (V1 & V2 & V3 & V4).
    eexists. split_and!; [exact Ha| |by eapply steps_open|done|done|by eapply steps_emitted|done|done].
    unfold dir_recs. apply (bind_insert block_recs (view s') (view s) (dir_blocks dir) b); [rewrite Hblocks; apply NoDup_seqZ|by rewrite Hblocks| |].
    + intros x _ Hx. by rewrite (steps_view _ _ _ _ _ Hs), fn_lookup_insert_ne.
    + by rewrite (steps_view _ _ _ _ _ Hs), fn_lookup_insert.
  - rewrite Ha. split; [intros E; by destruct (Hne E)|done].
  - intros R. left. by apply Hr.
Qed.

(** A volume of 100 blocks whose root directory has these records. *)
Definition rooted_image (root : Block) : Image := <[66 := dir_stamp root]> (<[1 := bm_set_bits true 99 100 (bm_set_bits true 0 67 zero_block)]> (fun _ => zero_block)).

Definition rooted_volume (root : Block) : St :=
  mkSt (st_fs (blank_volume true)) (mkDev (d_env small_disk) (rooted_image root) [] 0) 0 [].

Definition rooted_root : Entry := root_entry (st_fs (blank_volume true)).

Definition one_entry : Block := encode_rec zero_block 0 ITYPE_DIR [97; 98] 0 70 1.

Lemma rooted_ok (root : Block) : is_block root ->
  open_txn (rooted_volume root) /\ vol_ok (rooted_volume root) /\ dir_ok (rooted_volume root) rooted_root /\ room (rooted_volume root).
Proof.
  intros Hr. assert (is_block (bm_set_bits true 99 100 (bm_set_bits true 0 67 zero_block))) as Hbm by (repeat (apply bm_set_bits_spec; [lia|lia|]); apply zero_is_block).
  split_and!.
  - constructor; cbn; [done|constructor|lia|done| |constructor]. intros l. unfold view. cbn. unfold rooted_image.
    apply image_ok_insert; [|by apply dir_stamp_block]. apply image_ok_insert; [|done]. intros x. apply zero_is_block.
  - constructor; [apply blank_geo|by lazy].
  - constructor; cbn; [lia| | |by vm_compute|done].
    + intros b Hb. assert (b = 66) as -> by lia. unfold view, rooted_volume, rooted_image. cbn [st_dev d_img]. rewrite fn_lookup_insert. by apply dir_stamp_ok.
    + intros b Hb. assert (b = 66) as -> by lia. by lazy.
  - unfold room. cbn. unfold TXN_CAP. lia.
Qed.

Lemma one_entry_block : is_block one_entry.
Proof.
  apply encode_rec_block; [apply zero_is_block|unfold RECS_PER_BLOCK; lia| |unfold ITYPE_DIR; lia]. split; [cbn; unfold NAME_MAX; lia|repeat constructor; unfold is_byte; lia].
Qed.

Lemma dir_add_inserts_witness :
  post (dir_add rooted_root [97; 98] ITYPE_DIR 0 70 1) (rooted_volume zero_block) (fun s' r =>
    r = Ok rooted_root /\ dir_recs (view s') [66] = [([97; 98], mkMeta ITYPE_DIR false 0 70 1)]).
Proof.
  destruct (rooted_ok zero_block) as (H1 & H2 & H3 & H4); [apply zero_is_block|].
  eapply post_mono; [apply (dir_add_inserts (rooted_volume zero_block) rooted_root [97; 98] ITYPE_DIR 0 70 1); [done|done|done|]|].
  { split; [split; [cbn; unfold NAME_MAX; lia|repeat constructor; unfold is_byte; lia]|]. by vm_compute. }
  intros s' r [Hi Hf]. assert (r = Ok rooted_root) as -> by (apply Hf; [done|by vm_compute; left; eexists]). split; [done|].
  destruct (Hi _ eq_refl) as (Hp & _). apply Permutation_singleton_r. rewrite <- Hp. by change (dir_blocks rooted_root) with [66].
Defined.

Lemma dir_remove_deletes_witness :
  post (dir_remove rooted_root [97; 98]) (rooted_volume one_entry) (fun s' r => r = Ok tt /\ dir_recs (view s') [66] = []).
Proof.
  destruct (rooted_ok one_entry one_entry_block) as (H1 & H2 & H3 & H4).
  eapply post_mono; [apply (dir_remove_deletes (rooted_volume one_entry) rooted_root [97; 98]); done|].
  intros s' r (Hok & Hnone & Hroom). destruct (Hroom H4) as [->|E]; [|apply Hnone in E; by vm_compute in E]. split; [done|].
  destruct (Hok eq_refl) as (m & _ & Hp & _). apply Permutation_length in Hp. cbn [length] in Hp.
  assert (length (dir_recs (view (rooted_volume one_entry)) (dir_blocks rooted_root)) = 1%nat) as El by by vm_compute. rewrite El in Hp.
  change (dir_blocks rooted_root) with [66] in Hp. by destruct (dir_recs _ [66]).
Defined.
