(* ===== verification/FsFile.v ===== *)
(** * File content

    [services/fs/src/main.rs]: [nth_data_block], [read_path], [read_at],
    [data_stage], [write_at], [write_path] and [write_new].  A file's data blocks
    carry 508 bytes and a checksum; its record has their extent, or the block that
    lists its extents. *)

From stdpp Require Import functions strings.
From S2P Require Import Prelude Imp Crc FsDisk FsJournal FsCrash FsVolume FsTxn FsAlloc FsDir FsDirMap.

#[local] Open Scope imp_scope.

Definition MAX_FILE_BYTES : nat := 7 * DATA_PAYLOAD.
Definition SEALED_MSG : string := "file is sealed - its content cannot be changed".

Definition set_damaged (b : bool) : Imp St unit :=
  fs_mod (fun f => with_cells (mkCells (io_error_seen (fs_cells f)) (transport_fail_seen (fs_cells f)) b (io_fail_streak (fs_cells f))) f).

(** ** Where a block of a file is *)

Fixpoint nth_data_block (exts : list (Z * Z)) (n acc : Z) : option Z :=
  match exts with
  | [] => None
  | (start, len) :: exts =>
      if n <? wrap64 (acc + len) then Some (wrap64 (start + (n - acc))) else nth_data_block exts n (wrap64 (acc + len))
  end.

(** The extent list of a fragmented file; none for a contiguous one. *)
Definition frag_of (e : Entry) : Imp St (option (option (list (Z * Z)))) :=
  if itype e =? ITYPE_FILE_FRAG then exts <-? ext_of e ;; iret (Some (Some exts)) else iret (Some None).

Definition block_of (e : Entry) (frag : option (list (Z * Z))) (idx : Z) : option Z :=
  match frag with
  | None => Some (wrap64 (first_block e + idx))
  | Some exts => nth_data_block exts idx 0
  end.

Definition blocks_for (bytes : Z) : Z := (bytes + Z.of_nat DATA_PAYLOAD - 1) / Z.of_nat DATA_PAYLOAD.

(** ** Reading *)

Fixpoint read_blocks (e : Entry) (frag : option (list (Z * Z))) (bs : list Z) : Imp St (option (list Z)) :=
  match bs with
  | [] => iret (Some [])
  | b :: bs =>
      lba <-? iret (block_of e frag b) ;;
      blk <-? on_dev (data_read lba) ;;
      rest <-? read_blocks e frag bs ;;
      let start := b * Z.of_nat DATA_PAYLOAD in
      let end_ := Z.min (start + Z.of_nat DATA_PAYLOAD) (size e) in
      iret (Some (take (Z.to_nat (end_ - start)) blk ++ rest))
  end.

(** [cap] is the length of the caller's buffer. *)
Definition read_path (path : list Z) (cap : Z) : Imp St (option (list Z)) :=
  set_damaged false ;;;
  e <-? walk path ;;
  if negb (is_file (itype e)) then iret None else
  if size e >? cap then iret None else
  set_damaged true ;;;
  frag <-? frag_of e ;;
  out <-? read_blocks e frag (seqZ 0 (blocks_for (size e))) ;;
  set_damaged false ;;;
  iret (Some out).

(** The loop of [read_at]; every round reads at least a byte. *)
Fixpoint read_span (fuel : nat) (e : Entry) (frag : option (list (Z * Z))) (offset n done_ : Z) : Imp St (option (list Z)) :=
  if n <=? done_ then iret (Some []) else
  match fuel with
  | O => iret None
  | S fuel =>
      let pos := wrap64 (offset + done_) in
      lba <-? iret (block_of e frag (pos / Z.of_nat DATA_PAYLOAD)) ;;
      blk <-? on_dev (data_read lba) ;;
      let within := pos mod Z.of_nat DATA_PAYLOAD in
      let k := Z.min (Z.of_nat DATA_PAYLOAD - within) (n - done_) in
      rest <-? read_span fuel e frag offset n (done_ + k) ;;
      iret (Some (slice (Z.to_nat within) (Z.to_nat k) blk ++ rest))
  end.

Definition read_at (path : list Z) (offset len cap : Z) : Imp St (option (list Z)) :=
  set_damaged false ;;;
  e <-? walk path ;;
  if negb (is_file (itype e)) then iret None else
  if offset >=? size e then iret (Some []) else
  let n := Z.min (Z.min len (size e - offset)) cap in
  set_damaged true ;;;
  frag <-? frag_of e ;;
  out <-? read_span (Z.to_nat n) e frag offset n 0 ;;
  set_damaged false ;;;
  iret (Some out).

(** ** Writing in place *)

Definition data_stage (lba : Z) (payload : list Z) : Imp St bool := tb_write lba (data_block payload).

(** The bytes of the [i]th block of [data]. *)
Definition chunk_of (data : list Z) (i : nat) : list Z := take DATA_PAYLOAD (drop (i * DATA_PAYLOAD) data).

(** One block of [write_at]; the run of blocks that go out as one request is carried along. *)
Definition write_at_block (e : Entry) (frag : option (list (Z * Z))) (base : Z) (chunk : list Z) (journal : bool)
    (run : Z * list Block) (i : nat) : Imp St (Fallible (Z * list Block)) :=
  match block_of e frag (base + Z.of_nat i) with
  | None => iret (Err "extent out of range")
  | Some lba =>
      if journal then or_err (data_stage lba (chunk_of chunk i)) "block write failed" ;;! iret (Ok run) else
      let '(run_lba, blks) := run in
      (if (0 <? length blks)%nat && (negb (lba =? wrap64 (run_lba + Z.of_nat (length blks))) || (length blks =? WRITE_RUN_MAX)%nat)
       then or_err (on_dev (block_write_run run_lba blks)) "block write failed" ;;! iret (Ok (lba, [data_block (chunk_of chunk i)]))
       else iret (Ok (if (length blks =? 0)%nat then lba else run_lba, blks ++ [data_block (chunk_of chunk i)])))
  end.

Definition write_at (path : list Z) (offset : Z) (chunk : list Z) (journal : bool) : Imp St (Fallible unit) :=
  e <-! ok_or (walk path) "not found" ;;
  if negb (is_file (itype e)) then iret (Err "not a file") else
  if sealed e then iret (Err SEALED_MSG) else
  if negb (offset mod Z.of_nat DATA_PAYLOAD =? 0) then iret (Err "unaligned offset") else
  let total_blocks := if itype e =? ITYPE_FILE then block_count e else wrap64 (size e + Z.of_nat DATA_PAYLOAD - 1) / Z.of_nat DATA_PAYLOAD in
  if wrap64 (offset + Z.of_nat (length chunk)) >? wrap64 (total_blocks * Z.of_nat DATA_PAYLOAD) then iret (Err "write past extent") else
  frag <-! ok_or (frag_of e) "extent block read failed" ;;
  let base_idx := offset / Z.of_nat DATA_PAYLOAD in
  let nblk := Z.to_nat (blocks_for (Z.of_nat (length chunk))) in
  '(run_lba, blks) <-! fold_ok (seq 0 nblk) (0, []) (write_at_block e frag base_idx chunk journal) ;;
  if (0 <? length blks)%nat then or_err (on_dev (block_write_run run_lba blks)) "block write failed" else iret (Ok tt).

(** ** Writing a whole file *)

(** The name's directory and what is there now; the checks the two writers share. *)
Definition locate (path : list Z) : Imp St (Fallible (Entry * list Z * option Entry)) :=
  '(parent, name) <-! ok_or (walk_parent path) "path not found" ;;
  if negb (itype parent =? ITYPE_DIR) then iret (Err "parent is not a directory") else
  if negb (valid_name name) then iret (Err "bad name") else
  existing <- dir_find parent name ;;
  iret (Ok (parent, name, existing)).

(** The blocks of [data] into a contiguous extent. *)
Definition write_extent (first : Z) (data : list Z) (blocks : Z) : Imp St (Fallible unit) :=
  for_ok (seq 0 (Z.to_nat blocks)) (fun i => or_err (on_dev (data_write (wrap64 (first + Z.of_nat i)) (chunk_of data i))) "block write failed").

(** The blocks of a list of runs, in order. *)
Definition run_blocks (exts : list (Z * Z)) : list Z := exts ≫= (fun p => (fun j => wrap64 (p.1 + j)) <$> seqZ 0 p.2).

Fixpoint fill (data : list Z) (lbas : list Z) (produced : nat) : Imp St (Fallible unit) :=
  match lbas with
  | [] => iret (Ok tt)
  | lba :: lbas =>
      if (length data <=? produced * DATA_PAYLOAD)%nat && (0 <? produced)%nat then iret (Ok tt) else
      or_err (on_dev (data_write lba (chunk_of data produced))) "block write failed" ;;!
      fill data lbas (S produced)
  end.

(** The data into the blocks [alloc_file] answered with. *)
Definition put_content (data : list Z) (blocks ty first count : Z) : Imp St (Fallible unit) :=
  if ty =? ITYPE_FILE then write_extent first data blocks
  else exts <-! ok_or (ext_of (mkEntry ty false 0 first count None)) "extent block read failed" ;; fill data (run_blocks exts) 0.

(** The record of the new content: over the old one, whose blocks are then freed,
    or a new one; without it the new blocks are handed back. *)
Definition record_file (parent : Entry) (name : list Z) (existing : option Entry) (ty sz first count : Z) : Imp St (Fallible unit) :=
  match existing with
  | Some e => persist_entry (mkEntry ty false sz first count (loc e)) ;;! free_file e
  | None =>
      r <- dir_add parent name ty sz first count ;;
      match r with
      | Ok _ => iret (Ok tt)
      | Err why => free_file (mkEntry ty false sz first count None) ;;; iret (Err why)
      end
  end.

Definition write_path (path data : list Z) : Imp St (Fallible unit) :=
  if (MAX_FILE_BYTES <? length data)%nat then iret (Err "file too large") else
  '(parent, name, existing) <-! locate path ;;
  if existsb sealed (option_list existing) then iret (Err SEALED_MSG) else
  if existsb (fun e => negb (is_file (itype e))) (option_list existing) then iret (Err "path is a directory") else
  let blocks := Z.max (blocks_for (Z.of_nat (length data))) 1 in
  '(ty, first, count) <-! alloc_file blocks ;;
  put_content data blocks ty first count ;;!
  record_file parent name existing ty (Z.of_nat (length data)) first count.

Definition write_new (path : list Z) (total : Z) : Imp St (Fallible unit) :=
  '(parent, name, existing) <-! locate path ;;
  if existsb (fun e => negb (is_file (itype e))) (option_list existing) then iret (Err "path is a directory") else
  if existsb sealed (option_list existing) then iret (Err SEALED_MSG) else
  let blocks := Z.max (wrap64 (total + Z.of_nat DATA_PAYLOAD - 1) / Z.of_nat DATA_PAYLOAD) 1 in
  '(ty, first, count) <-! alloc_file blocks ;;
  record_file parent name existing ty total first count.

(** ** A request that changes the volume: the macro [txn!] of [serve_once] *)

Definition txn_op (m : Imp St (Fallible unit)) : Imp St (Fallible unit) :=
  begin_txn ;;; r <- m ;; end_txn r.
