(* ===== verification/FsContent.v ===== *)
(** * What is written is what is read

    The life of a file's content: the blocks an allocation hands out
    ([FsAlloc.alloc_file]) are new ones that no staged write covers, the data
    goes to them directly, the record to the directory, the commit brings both
    home, and lookup and the read loop find the bytes again ([FsFile]). *)

From stdpp Require Import functions strings.
From S2P Require Import Prelude Imp Crc FsDisk FsJournal FsCrash FsVolume FsTxn FsAlloc FsDir FsDirMap FsFile.

#[local] Open Scope imp_scope.

(** ** What stays unstaged *)

(** Nothing of the data region was staged on the way. *)
Definition clean (s s' : St) : Prop :=
  fs_geo (st_fs s') = fs_geo (st_fs s) /\ forall x, data_block_no s x -> staged x (txn_of s') = staged x (txn_of s).

Section Clean.
Implicit Types (s : St).

Lemma clean_refl s : clean s s.
Proof. done. Qed.

Lemma clean_trans s1 s2 s3 : clean s1 s2 -> clean s2 s3 -> clean s1 s3.
Proof. intros [A1 A2] [B1 B2]. split; [congruence|]. intros x Hx. rewrite B2; [by apply A2|]. unfold data_block_no. by rewrite A1. Qed.

Lemma quiet_clean s s' : quiet s s' -> clean s s'.
Proof. intros (H & _). unfold clean, txn_of. by rewrite H. Qed.

Lemma stage_other lba b x (l l' : list (Z * Block)) : x <> lba -> stage lba b l = Some l' -> staged x l' = staged x l.
Proof.
  intros Hne. unfold stage. destruct (list_find _ l) as [[i p]|] eqn:E.
  - apply list_find_Some in E as (Hi & Hp & _). intros [= <-]. unfold staged. do 2 f_equal. rewrite insert_take_drop by by eapply lookup_lt_Some.
    rewrite <- (take_drop_middle l i p Hi) at 3. rewrite !filter_app, !filter_cons. rewrite !decide_False by (cbn in *; congruence). done.
  - destruct (_ <=? _)%nat; [done|]. intros [= <-]. rewrite staged_app. by rewrite decide_False by (cbn; congruence).
Qed.

Lemma tb_write_clean s lba b : ~ data_block_no s lba -> post (tb_write lba b) s (fun s' _ => clean s s').
Proof.
  intros Hn. unfold tb_write. apply post_bind, post_mod. apply post_bind, post_get. cbn. destruct (txn_active (fs_txn (st_fs s))).
  - destruct (stage _ _ _) as [l|] eqn:E; apply post_bind, post_mod, post_ret; [|by split]. split; [done|]. intros x Hx. unfold txn_of. cbn.
    eapply stage_other; [|exact E]. by intros ->.
  - apply post_bind, post_on_dev. unfold post at 1. destruct (block_write_kind _ _ _) as [d [[] why]]; cbn; [by apply post_bind, post_ret, post_ret|].
    apply post_bind, post_mod, post_ret. by split.
Qed.

Lemma tb_read_clean s lba : post (tb_read lba) s (fun s' _ => clean s s').
Proof.
  unfold tb_read. apply post_bind, post_get. case_match; [apply post_ret, clean_refl|]. apply post_bind, post_on_dev.
  unfold post at 1. destruct (block_read_kind _ _) as [d [[] why]]; cbn; [by apply post_ret|]. by apply post_bind, post_mod, post_ret.
Qed.

Lemma persist_super_clean s : geo_ok (fs_geo (st_fs s)) -> post persist_super s (fun s' _ => clean s s').
Proof.
  intros Hg. pose proof (data_pos s Hg) as Hds. pose proof (go_total _ Hg) as Ht. unfold MAX_SANE_SECTORS in Ht.
  unfold persist_super. apply post_bind, post_get. apply post_bind, post_get. destruct (bool_decide _); [apply post_ret, clean_refl|].
  apply post_bind_ok, post_ok_or. eapply post_mono; [apply tb_read_clean|]. intros s1 [blk|] H1; [|done]. apply post_bind_ok, post_or_err.
  eapply post_mono; [apply tb_write_clean; unfold data_block_no; rewrite (proj1 H1); lia|]. intros s2 [] H2; [|by eapply clean_trans].
  apply post_bind, post_get. apply post_bind_ok, post_or_err. pose proof (clean_trans _ _ _ H1 H2) as H12.
  eapply post_mono; [apply tb_write_clean; unfold data_block_no; cbn [compose]; rewrite (proj1 H12), wrap64_small by (unfold u64_max; lia); lia|].
  intros s3 [] H3; [|by eapply clean_trans]. apply post_bind, post_mod, post_ret. eapply clean_trans; [exact H12|]. eapply clean_trans; [exact H3|]. by split.
Qed.

Lemma bm_set_range_clean s first count used : geo_ok (fs_geo (st_fs s)) -> 0 <= first -> 0 < count -> first + count <= total_blocks (fs_geo (st_fs s)) ->
  post (bm_set_range first count used) s (fun s' _ => clean s s').
Proof.
  intros Hg H0 Hc Ht. unfold bm_set_range. apply (post_for_ok _ _ (fun s' => clean s s')); [apply clean_refl| |done].
  intros [k [f t]] s' Hin Hs. unfold bm_set_piece. apply post_bind, post_get. apply post_bind_ok, post_ok_or.
  eapply post_mono; [apply tb_read_clean|]. intros s1 [blk|] H1; [|by eapply clean_trans]. pose proof (clean_trans _ _ _ Hs H1) as Hs1. apply post_or_err.
  eapply post_mono; [apply tb_write_clean|]. 2:{ intros s2 [] H2; by eapply clean_trans. }
  unfold data_block_no. rewrite (proj1 Hs1). cbn [compose]. rewrite (proj1 Hs). destruct Hg as [[G1 G2] G3 G4 G5]. unfold MAX_SANE_SECTORS, JOURNAL_BLOCKS in *.
  rewrite wrap64_small in Hin by (unfold u64_max; lia). apply (list_elem_of_fmap_2 fst), bm_pieces_keys in Hin as (_ & _ & Hk). cbn in Hk.
  pose proof (Z.div_le_mono (first + count - 1) (total_blocks (fs_geo (st_fs s)) - 1) BITS_PER_BMBLOCK ltac:(unfold BITS_PER_BMBLOCK; lia) ltac:(lia)). lia.
Qed.

Lemma sb_mod_clean s h : post (sb_mod h) s (fun s' _ => clean s s').
Proof. by apply post_mod. Qed.

(** The allocators. *)
Lemma alloc_run_clean s n : open_txn s -> geo_ok (fs_geo (st_fs s)) -> 0 < n -> post (alloc_run n) s (fun s' _ => clean s s').
Proof.
  intros Ho Hg Hn. set (g := fs_geo (st_fs s)) in *. unfold alloc_run. destruct (Z.eqb_spec n 0) as [?|_]; [lia|].
  apply post_bind, post_get. fold g. apply post_bind_ok. pose proof Hg as [[G1 G2] G3 G4 G5]. unfold JOURNAL_BLOCKS, MAX_SANE_SECTORS in *.
  assert (0 <= (total_blocks g - 1) / BITS_PER_BMBLOCK) by (apply Z.div_pos; unfold BITS_PER_BMBLOCK; lia).
  eapply post_mono; [eapply (alloc_scan_view s Ho n Hn (data_start g) (total_blocks g)); [apply quiet_refl|apply bm_pieces_chain; lia|lia|]|].
  { constructor; [by left|]. intros st Hst Hle. lia. }
  intros s1 r [Hq Hr]. pose proof (quiet_clean _ _ Hq) as Hc. destruct r as [[start|]|e]; [|by apply post_ret|done]. destruct Hr as (F1 & F2 & _).
  apply post_bind_ok. eapply post_mono; [apply bm_set_range_clean; rewrite ?(proj1 Hc); (done || lia)|]. intros s2 [[]|e] H2; [|by eapply clean_trans].
  pose proof (clean_trans _ _ _ Hc H2) as Hc2. apply post_bind. eapply post_mono; [apply sb_mod_clean|]. intros s3 [] H3. pose proof (clean_trans _ _ _ Hc2 H3) as Hc3.
  apply post_bind_ok. eapply post_mono; [apply persist_super_clean; by rewrite (proj1 Hc3)|]. intros s4 [[]|e] H4; [apply post_ret|]; by eapply clean_trans.
Qed.

Lemma grab_clean (fuel : nat) need from out s : open_txn s -> geo_ok (fs_geo (st_fs s)) -> 0 <= need ->
  post (grab fuel need from out) s (fun s' r => forall out', r = Ok out' -> clean s s').
Proof.
  revert need from out s. induction fuel as [|fuel IH]; intros need from out s Ho Hg Hn; cbn [grab]; (destruct (Z.eqb_spec need 0) as [->|Hne]; [by apply post_ret|]).
  { by apply post_bind, post_ret. }
  pose proof Hg as [[G1 G2] G3 G4 G5]. unfold JOURNAL_BLOCKS, MAX_SANE_SECTORS in *.
  assert (0 <= (total_blocks (fs_geo (st_fs s)) - 1) / BITS_PER_BMBLOCK) by (apply Z.div_pos; unfold BITS_PER_BMBLOCK; lia).
  apply post_bind. eapply post_mono; [by apply find_free_run_view|]. intros s1 [[st len]|] (Hq & Hle & Hgt); [|by apply post_bind, post_ret].
  destruct (decide (Z.max from (data_start (fs_geo (st_fs s))) <= total_blocks (fs_geo (st_fs s)))) as [Hd|Hd]; [|by assert (Some (st, len) = None) by (apply Hgt; lia)].
  destruct (Hle Hd) as (L1 & L2 & L3 & _). pose proof (quiet_clean _ _ Hq) as Hc. apply post_bind_ok.
  eapply post_mono; [apply post_and; [apply bm_set_range_view; [by eapply quiet_open|lia]|apply bm_set_range_clean; rewrite ?(proj1 Hc); (done || lia)]|].
  intros s2 [[]|e] [H2 H2']; [|done]. specialize (H2 eq_refl). pose proof (clean_trans _ _ _ Hc H2') as Hc2.
  eapply post_mono; [apply IH; [by eapply steps_open|by rewrite (proj1 Hc2)|lia]|]. intros s3 r H3 out' Hr. eapply clean_trans; [exact Hc2|]. by eapply H3.
Qed.

Lemma alloc_extents_clean s n : open_txn s -> geo_ok (fs_geo (st_fs s)) -> 0 < n -> post (alloc_extents n) s (fun s' r => forall out, r = Ok out -> clean s s').
Proof.
  intros Ho Hg Hn. unfold alloc_extents. apply post_bind, post_get. apply post_bind_ok. eapply post_mono; [apply grab_clean; [done|done|lia]|].
  intros s1 [out|e] H1; [|done]. specialize (H1 out eq_refl). apply post_bind. eapply post_mono; [apply sb_mod_clean|]. intros s2 [] H2. pose proof (clean_trans _ _ _ H1 H2) as Hc.
  apply post_bind_ok. eapply post_mono; [apply persist_super_clean; by rewrite (proj1 Hc)|]. intros s3 [[]|e] H3; [|done]. apply post_ret. intros _ _. by eapply clean_trans.
Qed.

(** ** The list of extents *)

Definition exts_ok (exts : list (Z * Z)) : Prop := (length exts <= EXT_MAX)%nat /\ Forall (fun p => u64 p.1 /\ u64 p.2) exts.

Definition ext_bytes (exts : list (Z * Z)) : list Z := concat ((fun p => to_le_bytes 8 p.1 ++ to_le_bytes 8 p.2) <$> exts).

Lemma ext_bytes_length exts : length (ext_bytes exts) = (length exts * 16)%nat.
Proof. induction exts as [|p exts IH]; [done|]. unfold ext_bytes in *. cbn [fmap list_fmap concat]. rewrite !length_app, !to_le_length, IH. cbn. lia. Qed.

Lemma ext_bytes_bytes exts : Forall is_byte (ext_bytes exts).
Proof. apply Forall_concat, Forall_fmap, Forall_true. intros p. cbn [compose]. apply Forall_app. split; apply to_le_bytes_range. Qed.

Lemma ext_block_block exts : is_block (ext_block exts).
Proof. unfold ext_block. apply put_u32_is_block, put_is_block; [apply put_u32_is_block, zero_is_block|apply ext_bytes_bytes]. Qed.

Lemma ext_bytes_slice exts i p : exts !! i = Some p -> slice (i * 16) 16 (ext_bytes exts) = to_le_bytes 8 p.1 ++ to_le_bytes 8 p.2.
Proof.
  revert i. induction exts as [|q exts IH]; intros i H; [done|]. unfold ext_bytes in *. cbn [fmap list_fmap concat]. set (b := to_le_bytes 8 q.1 ++ to_le_bytes 8 q.2).
  assert (length b = 16%nat) as Hb by (unfold b; by rewrite length_app, !to_le_length). destruct i as [|i]; cbn in H.
  - injection H as <-. unfold slice. cbn [Nat.mul]. rewrite drop_0, take_app_le by lia. by rewrite take_ge by lia.
  - unfold slice in *. replace (S i * 16)%nat with (length b + i * 16)%nat by lia. rewrite drop_app_add. by apply IH.
Qed.

(** What [ext_of] makes of a block. *)
Definition ext_decode (blk : Block) : option (list (Z * Z)) :=
  if negb (u32_at blk EXT_CRC_OFF =? crc32 (take EXT_CRC_OFF blk)) then None else
  let n := Z.to_nat (Z.min (u32_at blk EXT_N_OFF) (Z.of_nat EXT_MAX)) in
  Some ((fun i => let o := (EXT_ENTRIES_OFF + i * EXT_ENTRY_SIZE)%nat in (u64_at blk o, u64_at blk (o + 8))) <$> seq 0 n).

Lemma ext_of_reads s v e : reads s v -> post (ext_of e) s (fun s' r => r = ext_decode (v (first_block e)) /\ quiet s s').
Proof. intros Hr. unfold ext_of. apply post_bind_some. eapply post_mono; [by apply reads_tb|]. intros s' r (-> & Hq). by apply post_ret. Qed.

Lemma ext_entry exts i p : exts_ok exts -> exts !! i = Some p ->
  u64_at (ext_block exts) (8 + i * 16) = p.1 /\ u64_at (ext_block exts) (8 + i * 16 + 8) = p.2.
Proof.
  intros [Hl Hu] Hi. pose proof (proj1 (Forall_forall _ _) Hu p ltac:(by eapply list_elem_of_lookup_2)) as [U1 U2]. pose proof (ext_bytes_slice _ _ _ Hi) as Hs.
  pose proof (ext_bytes_length exts) as Hlen. pose proof (lookup_lt_Some _ _ _ Hi) as Hlt. unfold EXT_MAX in Hl.
  assert (forall o (x : Z), (o + 8 <= 16)%nat -> u64 x -> slice o 8 (to_le_bytes 8 p.1 ++ to_le_bytes 8 p.2) = to_le_bytes 8 x -> u64_at (ext_block exts) (8 + i * 16 + o) = x) as H.
  { intros o x Ho Hx E. unfold ext_block. unfold EXT_N_OFF, EXT_ENTRIES_OFF, EXT_CRC_OFF. fold (ext_bytes exts). rewrite u64_put_u32_disj by lia.
    unfold u64_at. replace (8 + i * 16 + o)%nat with (8 + (i * 16 + o))%nat by lia. rewrite slice_put_in by (rewrite ?put_u32_length; pose proof (proj1 zero_is_block); unfold BLOCK in *; lia).
    rewrite <- (slice_slice (i * 16) 16 o 8) by lia. rewrite Hs, E. by apply from_to_le. }
  split.
  - rewrite <- (Nat.add_0_r (8 + i * 16)). apply H; [lia|done|]. unfold slice. rewrite drop_0, take_app_le by by rewrite to_le_length. by rewrite take_ge by by rewrite to_le_length.
  - apply H; [lia|done|]. unfold slice. rewrite drop_app_length' by by rewrite to_le_length. by rewrite take_ge by by rewrite to_le_length.
Qed.

Lemma ext_roundtrip exts : exts_ok exts -> ext_decode (ext_block exts) = Some exts.
Proof.
  intros Hx. pose proof Hx as [Hl Hu]. unfold EXT_MAX in Hl. pose proof (ext_bytes_length exts) as Hlen. unfold ext_decode.
  assert (u32_at (ext_block exts) EXT_N_OFF = Z.of_nat (length exts)) as ->.
  { unfold ext_block. unfold EXT_N_OFF, EXT_ENTRIES_OFF, EXT_CRC_OFF. fold (ext_bytes exts). rewrite u32_put_u32_disj, u32_put_disj by lia. apply u32_put_same; [lia|rewrite (proj1 zero_is_block); unfold BLOCK; lia]. }
  assert (u32_at (ext_block exts) EXT_CRC_OFF = crc32 (take EXT_CRC_OFF (ext_block exts))) as ->.
  { unfold ext_block. rewrite take_put_u32 by lia. set (b := put EXT_ENTRIES_OFF _ _). assert (is_block b) as [Hb1 Hb2] by (apply put_is_block; [apply put_u32_is_block, zero_is_block|apply ext_bytes_bytes]).
    rewrite u32_put_same; [done| |unfold EXT_CRC_OFF, BLOCK in *; lia]. apply CrcFacts.crc32_range. by apply Forall_take. }
  rewrite Z.eqb_refl. cbn [negb]. f_equal. rewrite Z.min_l, Nat2Z.id by (unfold EXT_MAX; lia). apply list_eq. intros i. rewrite list_lookup_fmap.
  destruct (exts !! i) as [p|] eqn:E.
  - rewrite lookup_seq_lt by by eapply lookup_lt_Some. cbn [fmap option_fmap option_map Nat.add]. destruct (ext_entry _ _ _ Hx E) as [H1 H2].
    unfold EXT_ENTRIES_OFF, EXT_ENTRY_SIZE. cbn [Nat.add] in H1, H2 |- *. rewrite H1, H2. by destruct p.
  - by rewrite lookup_seq_ge by by apply lookup_ge_None.
Qed.

End Clean.

(** ** The blocks of a file *)

Section Runs.
Context (s : St).

Lemma runs_ok_le (lo hi : Z) out : runs_ok s lo hi out -> lo <= hi.
Proof. revert lo. induction out as [|[a l] out IH]; intros lo; cbn [runs_ok]; [done|]. intros (H1 & H2 & _ & H). apply IH in H. lia. Qed.

Lemma run_blocks_cons a l out : 0 <= a -> 0 <= l -> a + l <= 2 ^ 48 -> run_blocks ((a, l) :: out) = seqZ a l ++ run_blocks out.
Proof.
  intros Ha Hl Hb. unfold run_blocks. cbn [mbind list_bind fst snd]. f_equal. apply list_eq. intros i. rewrite list_lookup_fmap.
  destruct (decide (Z.of_nat i < l)) as [Hi|Hi]; [|by rewrite !lookup_seqZ_ge by lia]. rewrite !lookup_seqZ_lt by lia. cbn. f_equal.
  rewrite wrap64_small by (unfold u64_max; lia). lia.
Qed.

Lemma run_blocks_elem lo hi out b : 0 <= lo -> hi <= 2 ^ 48 -> runs_ok s lo hi out -> b ∈ run_blocks out -> lo <= b < hi /\ takeable s b /\ covered out b.
Proof.
  intros Hlo Hhi. revert lo Hlo. induction out as [|[a l] out IH]; intros lo Hlo Hr Hb; [by apply not_elem_of_nil in Hb|].
  cbn [runs_ok] in Hr. destruct Hr as (R1 & R2 & R3 & R4). pose proof (runs_ok_le _ _ _ R4). rewrite run_blocks_cons in Hb by lia.
  apply elem_of_app in Hb as [Hb%elem_of_seqZ|Hb].
  - split; [lia|]. split; [by apply R3|]. exists (a, l). split; [by left|done].
  - destruct (IH (a + l) ltac:(lia) R4 Hb) as (? & ? & (r & ? & ?)). split; [lia|]. split; [done|]. exists r. split; [by right|done].
Qed.

Lemma run_blocks_nodup lo hi out : 0 <= lo -> hi <= 2 ^ 48 -> runs_ok s lo hi out -> NoDup (run_blocks out).
Proof.
  intros Hlo Hhi. revert lo Hlo. induction out as [|[a l] out IH]; intros lo Hlo Hr; [constructor|].
  cbn [runs_ok] in Hr. destruct Hr as (R1 & R2 & R3 & R4). pose proof (runs_ok_le _ _ _ R4). rewrite run_blocks_cons by lia. apply NoDup_app. split_and!; [apply NoDup_seqZ| |by apply (IH (a + l)); [lia|]].
  intros b Hb%elem_of_seqZ Hb'. apply (run_blocks_elem (a + l) hi) in Hb' as (? & _); [lia|lia|done|done].
Qed.

Lemma run_blocks_length lo hi out : 0 <= lo -> hi <= 2 ^ 48 -> runs_ok s lo hi out -> Z.of_nat (length (run_blocks out)) = total_len out.
Proof.
  intros Hlo Hhi. revert lo Hlo. induction out as [|[a l] out IH]; intros lo Hlo Hr; [done|].
  cbn [runs_ok] in Hr. destruct Hr as (R1 & R2 & R3 & R4). pose proof (runs_ok_le _ _ _ R4). rewrite run_blocks_cons, length_app, length_seqZ by lia. cbn [total_len foldr snd].
  specialize (IH (a + l) ltac:(lia) R4). unfold total_len in IH. lia.
Qed.

Lemma nth_run_blocks lo hi out (i : nat) acc b : 0 <= lo -> hi <= 2 ^ 48 -> 0 <= acc -> acc + hi - lo <= 2 ^ 48 -> runs_ok s lo hi out -> run_blocks out !! i = Some b ->
  nth_data_block out (acc + Z.of_nat i) acc = Some b.
Proof.
  intros Hlo Hhi. revert lo Hlo acc i. induction out as [|[a l] out IH]; intros lo Hlo acc i Hacc Hsum Hr Hb; [done|].
  cbn [runs_ok] in Hr. destruct Hr as (R1 & R2 & R3 & R4). pose proof (runs_ok_le _ _ _ R4). rewrite run_blocks_cons in Hb by lia. cbn [nth_data_block].
  rewrite (wrap64_small (acc + l)) by (unfold u64_max; lia). destruct (Z.ltb_spec (acc + Z.of_nat i) (acc + l)) as [Hlt|Hge].
  - rewrite lookup_app_l in Hb by (rewrite length_seqZ; lia). rewrite lookup_seqZ_lt in Hb by lia. injection Hb as <-. f_equal. rewrite wrap64_small by (unfold u64_max; lia). lia.
  - rewrite lookup_app_r in Hb by (rewrite length_seqZ; lia). rewrite length_seqZ in Hb. specialize (IH (a + l) ltac:(lia) (acc + l) (i - Z.to_nat l)%nat ltac:(lia) ltac:(lia) R4 Hb).
    rewrite <- IH. f_equal. lia.
Qed.

Lemma runs_exts_ok lo hi out : 0 <= lo -> hi <= 2 ^ 48 -> (length out <= EXT_MAX)%nat -> runs_ok s lo hi out -> exts_ok out.
Proof.
  intros Hlo Hhi Hl Hr. split; [done|]. clear Hl. revert lo Hlo Hr. induction out as [|[a l] out IH]; intros lo Hlo Hr; [constructor|].
  cbn [runs_ok] in Hr. destruct Hr as (R1 & R2 & R3 & R4). pose proof (runs_ok_le _ _ _ R4). constructor; [cbn; unfold u64; lia|]. apply (IH (a + l)); [lia|done].
Qed.

End Runs.

(** ** New blocks for a file *)

(** Where the blocks of a file of this type and first block are. *)
Definition file_map (v : Image) (ty first : Z) (lbas : list Z) : Prop :=
  exists frag, match frag with None => ty = ITYPE_FILE | Some exts => ty = ITYPE_FILE_FRAG /\ ext_decode (v first) = Some exts /\ run_blocks exts = lbas end /\
    forall i b, lbas !! i = Some b -> match frag with None => Some (wrap64 (first + Z.of_nat i)) | Some exts => nth_data_block exts (Z.of_nat i) 0 end = Some b.

Record file_alloc (s s' : St) (n : Z) (ty first count : Z) (lbas : list Z) : Prop := {
  fa_steps : steps_to s s' (fs_sb (st_fs s')) (view s');
  fa_len : length lbas = Z.to_nat n;
  fa_nodup : NoDup lbas;
  fa_new : forall b, b ∈ lbas -> data_block_no s b /\ used_bit s b = false /\ used_bit s' b = true /\ staged b (txn_of s') = staged b (txn_of s);
  fa_old : forall b, data_block_no s b -> used_bit s b = true -> used_bit s' b = true /\ view s' b = view s b;
  fa_root : root_first_block (fs_sb (st_fs s')) = root_first_block (fs_sb (st_fs s)) /\ root_block_count (fs_sb (st_fs s')) = root_block_count (fs_sb (st_fs s));
  fa_backup : used_bit s' (total_blocks (fs_geo (st_fs s)) - 1) = true;
  fa_map : file_map (view s') ty first lbas;
  fa_u64 : 0 < ty < 256 /\ u64 first /\ u64 count;
  fa_ext : ty = ITYPE_FILE_FRAG -> data_block_no s first /\ used_bit s first = false /\ used_bit s' first = true /\ first ∉ lbas;
}.

(** [no space] is said before anything is changed. *)
Lemma alloc_run_full (s : St) (n : Z) : open_txn s -> geo_ok (fs_geo (st_fs s)) -> 0 < n -> post (alloc_run n) s (fun s' r => r = Err "no space" -> quiet s s').
Proof.
  intros Ho Hg Hn. set (g := fs_geo (st_fs s)) in *. unfold alloc_run. destruct (Z.eqb_spec n 0) as [?|_]; [lia|].
  apply post_bind, post_get. fold g. apply post_bind_ok. pose proof Hg as [[G1 G2] G3 G4 G5]. unfold JOURNAL_BLOCKS, MAX_SANE_SECTORS in *.
  assert (0 <= (total_blocks g - 1) / BITS_PER_BMBLOCK) by (apply Z.div_pos; unfold BITS_PER_BMBLOCK; lia).
  eapply post_mono; [eapply (alloc_scan_view s Ho n Hn (data_start g) (total_blocks g)); [apply quiet_refl|apply bm_pieces_chain; lia|lia|]|].
  { constructor; [by left|]. intros st Hst Hle. lia. }
  intros s1 [[start|]|e] [Hq Hr]; [|by apply post_ret|done].
  unfold post. match goal with |- (?m s1).2 = _ -> _ => assert (avoids "no space" m) as Hav end; [|intros E; by destruct (Hav s1)].
  apply avoids_bind_ok; [apply bm_set_range_avoids|]. intros []. apply avoids_bind. intros []. apply avoids_bind_ok; [apply persist_avoids|]. intros []. by apply avoids_ret.
Qed.

Section Alloc.
Context (s : St) (n : Z) (Ho : open_txn s) (Hv : vol_ok s) (Hn : 0 < n).

Let g := fs_geo (st_fs s).

(** In one piece. *)
Lemma alloc_whole_view : post (alloc_run n) s (fun s' r => forall first, r = Ok first -> file_alloc s s' n ITYPE_FILE first n (seqZ first n)).
Proof.
  pose proof (vk_geo _ Hv) as Hg. pose proof (data_pos s Hg) as Hds. pose proof (go_total _ Hg) as Ht. unfold MAX_SANE_SECTORS in Ht. fold g in Hds, Ht.
  eapply post_mono; [apply post_and; [by apply alloc_run_view|by apply alloc_run_clean]|]. intros s' r [[H _] Hc] first Hr. destruct (H first Hr) as (Hfit & Hs & Hb & Hm). fold g in Hfit, Hb.
  destruct (fit_in_data s n first Hv Hn Hfit) as (F1 & F2 & F3). fold g in F1, F2. pose proof (steps_sb _ _ _ _ Hs) as Esb.
  assert (forall b, b ∈ seqZ first n -> data_block_no s b) as Hdata by (intros b Hbin%elem_of_seqZ; unfold data_block_no; fold g; lia).
  constructor; [by rewrite Esb|apply length_seqZ|apply NoDup_seqZ| | |by rewrite Esb| | | |done].
  - intros b Hbin. pose proof (Hdata b Hbin) as Hd. apply elem_of_seqZ in Hbin. split_and!; [done|by apply F3| |by apply Hc].
    rewrite Hb by lia. by rewrite bool_decide_true by lia.
  - intros b Hd Hu. split; [|apply Hm; by apply data_off_meta]. unfold data_block_no in Hd. fold g in Hd. rewrite Hb, Hu by lia. apply orb_true_r.
  - fold g. rewrite Hb by lia. pose proof (vk_backup _ Hv) as Hbk. fold g in Hbk. rewrite Hbk. apply orb_true_r.
  - exists None. split; [done|]. intros i b Hi. pose proof (lookup_lt_Some _ _ _ Hi) as Hl. rewrite length_seqZ in Hl. rewrite lookup_seqZ_lt in Hi by lia. injection Hi as <-.
    f_equal. apply wrap64_small. unfold u64_max. lia.
  - unfold u64, ITYPE_FILE. lia.
Qed.

End Alloc.

Lemma steps_self (s s' : St) f v : steps_to s s' f v -> steps_to s s' (fs_sb (st_fs s')) (view s').
Proof. intros Hs. rewrite (steps_sb _ _ _ _ Hs). eapply steps_ext; [|exact Hs]. intros x. symmetry. by eapply steps_view. Qed.

Lemma off_super_used (s s' : St) f v : geo_ok (fs_geo (st_fs s)) -> steps_to s s' f v -> (forall lba, off_super s lba -> v lba = view s lba) ->
  (forall b, 0 <= b < total_blocks (fs_geo (st_fs s)) -> used_bit s' b = used_bit s b) /\ forall b, data_block_no s b -> view s' b = view s b.
Proof.
  intros Hg Hs Hv. pose proof Hg as [[G1 G2] G3 G4 G5]. unfold MAX_SANE_SECTORS, JOURNAL_BLOCKS in *. split.
  - intros b Hb. apply used_bit_frame; [done|by eapply steps_geo| |done]. intros x Hx. rewrite (steps_view _ _ _ _ _ Hs). apply Hv.
    unfold off_super. rewrite wrap64_small by (unfold u64_max; lia). lia.
  - intros b Hb. rewrite (steps_view _ _ _ _ _ Hs). by apply Hv, data_off_super, data_off_meta.
Qed.

Lemma tb_write_other (s : St) lba b x : x <> lba -> post (tb_write lba b) s (fun s' _ => staged x (txn_of s') = staged x (txn_of s)).
Proof.
  intros Hn. unfold tb_write. apply post_bind, post_mod. apply post_bind, post_get. cbn. destruct (txn_active (fs_txn (st_fs s))).
  - destruct (stage _ _ _) as [l|] eqn:E; apply post_bind, post_mod, post_ret; [|done]. unfold txn_of. cbn. by eapply stage_other.
  - apply post_bind, post_on_dev. unfold post at 1. destruct (block_write_kind _ _ _) as [d [[] why]]; cbn; [by apply post_bind, post_ret, post_ret|].
    by apply post_bind, post_mod, post_ret.
Qed.

Lemma tb_write_staged (s : St) lba b : open_txn s -> is_block b ->
  post (tb_write lba b) s (fun s' ok => ok = true -> steps_to s s' (fs_sb (st_fs s)) (<[lba := b]> (view s)) /\ forall x, x <> lba -> staged x (txn_of s') = staged x (txn_of s)).
Proof.
  intros Ho Hb. unfold post. intros E. split; [by apply (tb_write_view s lba b)|]. intros x Hx. by apply (tb_write_other s lba b x).
Qed.

Lemma flag_extents_view (s : St) : open_txn s -> geo_ok (fs_geo (st_fs s)) ->
  post flag_extents s (fun s' r => r = Ok tt -> exists f v, steps_to s s' f v /\ clean s s' /\ (forall lba, off_super s lba -> v lba = view s lba) /\
    root_first_block f = root_first_block (fs_sb (st_fs s)) /\ root_block_count f = root_block_count (fs_sb (st_fs s))).
Proof.
  intros Ho Hg. unfold flag_extents. apply post_bind, post_get. destruct (_ =? 0).
  - apply post_bind. eapply post_mono; [apply post_and; [by apply fs_mod_steps|apply sb_mod_clean]|]. intros s1 [] [Hs1 Hc1]. cbn [fs_sb with_sb] in Hs1.
    eapply post_mono; [apply post_and; [by apply persist_after|apply persist_super_clean; by rewrite (proj1 Hc1)]|]. intros s2 r [[_ H] Hc] Hr. destruct (H Hr) as (v & Hs2 & Hv).
    eexists _, v. split; [exact Hs2|]. split_and!; try done. by eapply clean_trans.
  - apply post_ret. intros _. exists (fs_sb (st_fs s)), (view s). by split_and!; [apply steps_refl|..].
Qed.

Section Fragments.
Context (s : St) (n : Z) (Ho : open_txn s) (Hv : vol_ok s) (Hn : 0 < n).

(** The runs, before the block that lists them. *)
Lemma extents_view : post (alloc_extents n) s (fun s' r => forall out, r = Ok out ->
  steps_to s s' (fs_sb (st_fs s')) (view s') /\ vol_ok s' /\ clean s s' /\ exts_ok out /\ (forall i b, run_blocks out !! i = Some b -> nth_data_block out (Z.of_nat i) 0 = Some b) /\
  length (run_blocks out) = Z.to_nat n /\ NoDup (run_blocks out) /\
  (forall b, b ∈ run_blocks out -> data_block_no s b /\ used_bit s b = false /\ used_bit s' b = true) /\
  (forall b, data_block_no s b -> used_bit s b = true -> used_bit s' b = true /\ view s' b = view s b) /\
  root_first_block (fs_sb (st_fs s')) = root_first_block (fs_sb (st_fs s)) /\ root_block_count (fs_sb (st_fs s')) = root_block_count (fs_sb (st_fs s))).
Proof.
  pose proof (vk_geo _ Hv) as Hg. pose proof (data_pos s Hg) as Hds. pose proof (go_total _ Hg) as Ht. unfold MAX_SANE_SECTORS in Ht. pose proof (go_data _ Hg) as Hdt.
  eapply post_mono; [apply post_and; [by apply alloc_extents_view|by apply alloc_extents_clean]|]. intros s' r [H Hc] out Hr. specialize (Hc out Hr).
  destruct (H out Hr) as (R & L & N & Hs & Hb & Hm). clear H. pose proof (steps_sb _ _ _ _ Hs) as Esb.
  assert (0 <= data_start (fs_geo (st_fs s))) as Hlo by lia. assert (total_blocks (fs_geo (st_fs s)) <= 2 ^ 48) as Hhi by lia.
  assert (forall b, b ∈ run_blocks out -> data_block_no s b /\ used_bit s b = false /\ used_bit s' b = true) as Hnew.
  { intros b Hin. destruct (run_blocks_elem s _ _ _ b Hlo Hhi R Hin) as (Hr1 & [_ Hr2] & Hr3). fold (used_bit s b) in Hr2.
    split_and!; [|done|apply Hb; [lia|by left]]. unfold data_block_no. destruct (decide (b = total_blocks (fs_geo (st_fs s)) - 1)) as [->|]; [|lia]. rewrite (vk_backup _ Hv) in Hr2. done. }
  split_and!; [by eapply steps_self| |done|exact (runs_exts_ok s _ _ out Hlo Hhi N R)| | |exact (run_blocks_nodup s _ _ out Hlo Hhi R)|done| |by rewrite Esb|by rewrite Esb].
  - constructor; rewrite (proj1 Hc); [done|]. apply Hb; [lia|]. right. apply Hv.
  - intros i b Hi. apply (nth_run_blocks s (data_start (fs_geo (st_fs s))) (total_blocks (fs_geo (st_fs s))) out i 0 b); (done || lia).
  - pose proof (run_blocks_length s _ _ _ Hlo Hhi R). lia.
  - intros b Hd Hu. split; [apply Hb; [unfold data_block_no in Hd; lia|by right]|]. by apply Hm, data_off_meta.
Qed.

(** The block that lists them. *)
Lemma list_extents_view (s2 : St) (out : list (Z * Z)) :
  steps_to s s2 (fs_sb (st_fs s2)) (view s2) -> vol_ok s2 -> clean s s2 -> exts_ok out ->
  (forall i b, run_blocks out !! i = Some b -> nth_data_block out (Z.of_nat i) 0 = Some b) ->
  length (run_blocks out) = Z.to_nat n -> NoDup (run_blocks out) ->
  (forall b, b ∈ run_blocks out -> data_block_no s b /\ used_bit s b = false /\ used_bit s2 b = true) ->
  (forall b, data_block_no s b -> used_bit s b = true -> used_bit s2 b = true /\ view s2 b = view s b) ->
  root_first_block (fs_sb (st_fs s2)) = root_first_block (fs_sb (st_fs s)) /\ root_block_count (fs_sb (st_fs s2)) = root_block_count (fs_sb (st_fs s)) ->
  post (alloc_run 1) s2 (fun s3 r => forall lba, r = Ok lba ->
    post (ext_write lba out) s3 (fun s4 ok => ok = true ->
      post flag_extents s4 (fun s5 r => r = Ok tt -> file_alloc s s5 n ITYPE_FILE_FRAG lba 1 (run_blocks out)))).
Proof.
  intros Hs2 Hv2 Hc2 Hx Hnth Hlen Hnd Hnew Hold Hroot. pose proof (vk_geo _ Hv2) as Hg2. pose proof (proj1 Hc2) as Eg. pose proof (vk_geo _ Hv) as Hg. pose proof (data_pos s Hg) as Hds.
  pose proof (go_total _ Hg) as Ht. unfold MAX_SANE_SECTORS in Ht. pose proof (go_data _ Hg) as Hdt.
  assert (forall b, data_block_no s2 b <-> data_block_no s b) as Hdd by (intros b; unfold data_block_no; by rewrite Eg).
  eapply post_mono; [apply post_and; [apply (alloc_whole_view s2 1); [by eapply steps_open|done|lia]|apply alloc_run_clean; [by eapply steps_open|done|lia]]|].
  intros s3 r [H3 Hc3] lba Hr. specialize (H3 lba Hr). destruct H3 as [Hs3 _ _ Hn3 Ho3 Hr3 Hb3 _ _ _]. destruct (Hn3 lba) as (L1 & L2 & L3 & _); [apply elem_of_seqZ; lia|].
  pose proof (proj1 Hc3) as Eg3. assert (forall b, b ∈ run_blocks out -> b <> lba) as Hne by (intros b Hb ->; destruct (Hnew _ Hb) as (_ & _ & ?); congruence).
  eapply post_mono; [apply tb_write_staged; [by eapply steps_open|apply ext_block_block]|].
  intros s4 ok H4 ->. destruct (H4 eq_refl) as [H4' Hst4]. clear H4. rename H4' into H4. pose proof (steps_geo _ _ _ _ H4) as Eg4. rewrite Eg3, Eg in Eg4.
  eapply post_mono; [apply flag_extents_view; [by eapply steps_open|by rewrite Eg4]|]. intros s5 r5 H5 Hr5. destruct (H5 Hr5) as (f & v & Hs5 & Hc5 & Hv5 & Hf1 & Hf2). clear H5.
  destruct (off_super_used s4 s5 f v ltac:(by rewrite Eg4) Hs5 Hv5) as [Hu5 Hw5]. rewrite Eg4 in Hu5.
  assert (forall b, data_block_no s4 b <-> data_block_no s b) as Hdd4 by (intros b; unfold data_block_no; by rewrite Eg4).
  assert (forall b, 0 <= b < total_blocks (fs_geo (st_fs s)) -> used_bit s5 b = used_bit s3 b) as Hu53.
  { intros b Hb. rewrite Hu5 by done. apply used_bit_frame; [by rewrite Eg3, Eg|by rewrite Eg4, Eg3, Eg| |by rewrite Eg3, Eg]. intros x Hxr. rewrite (steps_view _ _ _ _ _ H4).
    apply fn_lookup_insert_ne. rewrite Eg3, Eg in Hxr. destruct Hg as [_ G3 _ _]. unfold JOURNAL_BLOCKS in G3. apply Hdd in L1. unfold data_block_no in L1. lia. }
  assert (forall b, data_block_no s b -> b <> lba -> view s5 b = view s3 b) as Hw53.
  { intros b Hb Hbl. rewrite Hw5 by by apply Hdd4. rewrite (steps_view _ _ _ _ _ H4). by apply fn_lookup_insert_ne. }
  apply Hdd in L1 as L1'. pose proof L1' as Lr. unfold data_block_no in Lr. constructor.
  - eapply steps_self, (steps_trans _ _ _ _ _ _ _ Hs2), (steps_trans _ _ _ _ _ _ _ Hs3), (steps_trans _ _ _ _ _ _ _ H4). exact Hs5.
  - done.
  - done.
  - intros b Hb. destruct (Hnew b Hb) as (N1 & N2 & N3). split_and!; [done|done| |].
    + unfold data_block_no in N1. rewrite Hu53 by lia. apply Ho3; [by apply Hdd|done].
    + rewrite (proj2 Hc5) by by apply Hdd4. rewrite Hst4 by by apply Hne. rewrite (proj2 Hc3) by by apply Hdd. by apply Hc2.
  - intros b Hb Hu. destruct (Hold b Hb Hu) as [O1 O2]. destruct (Ho3 b ltac:(by apply Hdd) O1) as [O3 O4]. unfold data_block_no in Hb. rewrite Hu53 by lia. split; [done|].
    rewrite Hw53; [congruence|done|]. intros ->. congruence.
  - rewrite (steps_sb _ _ _ _ Hs5). rewrite Hf1, Hf2, (steps_sb _ _ _ _ H4). destruct Hr3, Hroot. split; congruence.
  - rewrite Hu53 by lia. by rewrite <- Eg.
  - exists (Some out). split; [|done]. split; [done|]. split; [|done]. rewrite Hw5 by by apply Hdd4. rewrite (steps_view _ _ _ _ _ H4), fn_lookup_insert. by apply ext_roundtrip.
  - unfold u64, ITYPE_FILE_FRAG. lia.
  - intros _. split_and!; [done| |by rewrite Hu53 by lia|intros Hin; by apply (Hne lba)]. apply not_true_iff_false. intros Hu. destruct (Hold lba L1' Hu). congruence.
Qed.

End Fragments.

Lemma file_alloc_quiet (s s1 s' : St) n ty first count lbas : open_txn s -> quiet s s1 -> file_alloc s1 s' n ty first count lbas -> file_alloc s s' n ty first count lbas.
Proof.
  intros Ho Hq [H1 H2 H3 H4 H5 H6 H7 H8 H9 H10]. constructor; try done.
  - eapply steps_trans; [by apply quiet_steps|exact H1].
  - intros b Hb. destruct (H4 b Hb) as (A1 & A2 & A3 & A4). unfold data_block_no in *. rewrite (quiet_used _ _ _ Hq) in A2. unfold txn_of in *. rewrite (proj1 Hq) in *. done.
  - intros b Hb Hu. rewrite <- (quiet_view _ _ _ Hq). apply H5; [unfold data_block_no in *; by rewrite (proj1 Hq)|by rewrite (quiet_used _ _ _ Hq)].
  - by rewrite (proj1 Hq) in H6.
  - by rewrite (proj1 Hq) in H7.
  - intros Ht. destruct (H10 Ht) as (A1 & A2 & A3). unfold data_block_no in *. rewrite (quiet_used _ _ _ Hq) in A2. by rewrite (proj1 Hq) in A1.
Qed.

(** The blocks of a new file, in one piece or in several. *)
Lemma alloc_file_view (s : St) (n : Z) : open_txn s -> vol_ok s -> 0 < n ->
  post (alloc_file n) s (fun s' r => forall ty first count, r = Ok (ty, first, count) -> exists lbas, file_alloc s s' n ty first count lbas).
Proof.
  intros Ho Hv Hn. pose proof (vk_geo _ Hv) as Hg. unfold alloc_file. apply post_bind.
  eapply post_mono; [apply post_and; [by apply alloc_whole_view|by apply alloc_run_full]|]. intros s1 [first|e] [H1 H1'].
  { apply post_ret. intros ty f c [= <- <- <-]. exists (seqZ first n). by apply H1. }
  case_bool_decide as He; [by apply post_ret|]. assert (e = "no space") as -> by (destruct (decide (e = "no space")); [done|by destruct He]). specialize (H1' eq_refl).
  pose proof (quiet_open _ _ H1' Ho) as Ho1. pose proof (quiet_vol _ _ H1' Hv) as Hv1. apply post_bind_ok. eapply post_mono; [by apply extents_view|].
  intros s2 [out|e] H2; [|done]. destruct (H2 out eq_refl) as (A1 & A2 & A3 & A4 & A5 & A6 & A7 & A8 & A9 & A10). clear H2.
  apply post_bind. eapply post_mono; [by apply (list_extents_view s1 n Hv1 Hn s2 out)|].
  intros s3 [lba|e] H3; [|by apply post_bind, post_ret]. specialize (H3 lba eq_refl). apply post_bind. eapply post_mono; [exact H3|]. intros s4 [] H4; cbn [negb]; [|by do 2 (apply post_then; intros ? ?); apply post_ret].
  apply post_bind_ok. eapply post_mono; [by apply H4|]. intros s5 [[]|e] H5; [|done]. apply post_ret. intros ty f c [= <- <- <-]. exists (run_blocks out).
  eapply file_alloc_quiet; [done|done|by apply H5].
Qed.
