(* ===== verification/FsStore.v ===== *)
(** * A file written is the file read

    The request that writes a new file into the root directory, from the opening
    of its transaction to its commit, and the read that follows: the data blocks
    go to the disk directly ([FsFile.write_extent], [FsFile.fill]), the record
    with the commit. *)

From stdpp Require Import functions strings.
From S2P Require Import Prelude Imp Crc FsDisk FsJournal FsCrash FsVolume FsTxn FsAlloc FsDir FsDirMap FsFile FsContent.

#[local] Open Scope imp_scope.

(** ** Writing the data *)

(** Blocks written to the disk, past the transaction. *)
Definition wrote (s s' : St) (ws : list (Z * Block)) : Prop := st_fs s' = st_fs s /\ emitted (st_dev s) (st_dev s') (home_evs ws).

(** The blocks of [data] from the [k]th on, at [lbas]. *)
Definition chunks (data : list Z) (k : nat) (lbas : list Z) : list (Z * Block) := imap (fun i lba => (lba, data_block (chunk_of data (k + i)))) lbas.

Section Wrote.
Implicit Types (s : St) (ws : list (Z * Block)).

Lemma wrote_refl s : wrote s s [].
Proof. split; [done|apply emitted_refl]. Qed.

Lemma wrote_trans s1 s2 s3 ws ws' : wrote s1 s2 ws -> wrote s2 s3 ws' -> wrote s1 s3 (ws ++ ws').
Proof. intros [A1 A2] [B1 B2]. split; [congruence|]. unfold home_evs. rewrite fmap_app. by eapply emitted_trans. Qed.

Lemma wrote_other s s' ws x : wrote s s' ws -> x ∉ ws.*1 -> view s' x = view s x.
Proof.
  intros [H1 (_ & _ & H2)] Hx. unfold view, txn_of. rewrite H1, H2. f_equal. apply (apply_evs_other _ _ (fun l _ => l ∈ ws.*1)); [|done].
  intros l b H%elem_of_home_evs. apply list_elem_of_fmap. by exists (l, b).
Qed.

Lemma wrote_in s s' ws x b : wrote s s' ws -> NoDup ws.*1 -> (x, b) ∈ ws -> staged x (txn_of s) = None -> view s' x = b.
Proof.
  intros [H1 (_ & _ & H2)] Hn Hin Hs. unfold view, txn_of in *. rewrite H1, H2, Hs. cbn. apply apply_evs_written; [by apply elem_of_home_evs|].
  intros b' H%elem_of_home_evs. pose proof (staged_elem x b ws Hn Hin). pose proof (staged_elem x b' ws Hn H). congruence.
Qed.

Lemma wrote_image s s' ws : wrote s s' ws -> Forall (fun p => is_block p.2) ws -> image_ok (d_img (st_dev s)) -> image_ok (d_img (st_dev s')).
Proof.
  intros [_ (_ & _ & H3)] Hb Hi x. rewrite H3. destruct (apply_evs_cases (home_evs ws) (d_img (st_dev s)) x) as [->|H]; [done|].
  apply elem_of_home_evs in H. by apply (proj1 (Forall_forall _ _) Hb) in H.
Qed.

Lemma wrote_open s s' ws : wrote s s' ws -> Forall (fun p => is_block p.2) ws -> open_txn s -> open_txn s'.
Proof.
  intros [H1 (H2 & _ & H3)] Hb [A B C D E F]. constructor; unfold txn_of in *; rewrite ?H1, ?H2; try done.
  intros x. unfold view, txn_of. rewrite H1, H3. specialize (E x). unfold view, txn_of in E. destruct (staged x _); [done|]. cbn in *.
  destruct (apply_evs_cases (home_evs ws) (d_img (st_dev s)) x) as [->|H]; [done|]. apply elem_of_home_evs in H. by apply (proj1 (Forall_forall _ _) Hb) in H.
Qed.

Lemma data_write_good s lba payload : good (d_env (st_dev s)) -> post (on_dev (data_write lba payload)) s (fun s' r => r = true /\ wrote s s' [(lba, data_block payload)]).
Proof. intros Hg. apply post_on_dev. eapply post_mono; [by apply block_write_good|]. intros d r [He ->]. done. Qed.

Lemma wrote_good s s' ws : wrote s s' ws -> good (d_env (st_dev s)) -> good (d_env (st_dev s')).
Proof. by intros [_ (-> & _)]. Qed.

Lemma chunks_cons data k lba lbas : chunks data k (lba :: lbas) = (lba, data_block (chunk_of data k)) :: chunks data (S k) lbas.
Proof. unfold chunks. rewrite imap_cons, Nat.add_0_r. f_equal. apply imap_ext. intros i x _. cbn. by rewrite Nat.add_succ_r. Qed.

Lemma chunks_fst data k lbas : (chunks data k lbas).*1 = lbas.
Proof. revert k. induction lbas as [|l lbas IH]; intros k; [done|]. rewrite chunks_cons. cbn. by rewrite IH. Qed.

Lemma chunks_elem data lbas i lba : lbas !! i = Some lba -> (lba, data_block (chunk_of data i)) ∈ chunks data 0 lbas.
Proof. intros H. apply list_elem_of_lookup. exists i. unfold chunks. by rewrite list_lookup_imap, H. Qed.

Lemma chunk_bytes data i : Forall is_byte data -> (length (chunk_of data i) <= DATA_PAYLOAD)%nat /\ Forall is_byte (chunk_of data i).
Proof. intros H. unfold chunk_of. split; [rewrite length_take; lia|by apply Forall_take, Forall_drop]. Qed.

Lemma chunks_blocks data k lbas : Forall is_byte data -> Forall (fun p => is_block p.2) (chunks data k lbas).
Proof.
  intros H. revert k. induction lbas as [|l lbas IH]; intros k; [constructor|]. rewrite chunks_cons. constructor; [|apply IH].
  destruct (chunk_bytes data k H) as [H1 H2]. by apply data_block_ok.
Qed.

(** In one piece. *)
Lemma write_extent_loop s first data k m : good (d_env (st_dev s)) ->
  post (for_ok (seq k m) (fun i => or_err (on_dev (data_write (wrap64 (first + Z.of_nat i)) (chunk_of data i))) "block write failed")) s
    (fun s' r => r = Ok tt /\ wrote s s' (chunks data k ((fun i => wrap64 (first + Z.of_nat i)) <$> seq k m))).
Proof.
  revert k s. induction m as [|m IH]; intros k s Hg; [apply post_ret; split; [done|apply wrote_refl]|]. cbn [seq for_ok fmap list_fmap]. rewrite chunks_cons.
  apply post_bind_ok, post_or_err. eapply post_mono; [by apply data_write_good|]. intros s1 r (-> & Hw).
  eapply post_mono; [apply IH; by eapply wrote_good|]. intros s2 r (-> & Hw'). split; [done|]. exact (wrote_trans _ _ _ _ _ Hw Hw').
Qed.

(** In several. *)
Lemma fill_wrote data lbas k s : good (d_env (st_dev s)) -> (forall i, (i < length lbas)%nat -> (k + i = 0 \/ (k + i) * DATA_PAYLOAD < length data)%nat) ->
  post (fill data lbas k) s (fun s' r => r = Ok tt /\ wrote s s' (chunks data k lbas)).
Proof.
  revert k s. induction lbas as [|lba lbas IH]; intros k s Hg Hk; cbn [fill]; [apply post_ret; split; [done|apply wrote_refl]|].
  assert ((length data <=? k * DATA_PAYLOAD)%nat && (0 <? k)%nat = false) as ->.
  { specialize (Hk 0%nat ltac:(cbn; lia)). rewrite Nat.add_0_r in Hk. apply andb_false_iff. destruct Hk as [->|Hk]; [by right|left; by apply Nat.leb_gt]. }
  rewrite chunks_cons. apply post_bind_ok, post_or_err. eapply post_mono; [by apply data_write_good|]. intros s1 r (-> & Hw).
  eapply post_mono; [apply IH; [by eapply wrote_good|]|].
  { intros i Hi. specialize (Hk (S i) ltac:(cbn; lia)). by rewrite Nat.add_succ_r in Hk. }
  intros s2 r (-> & Hw'). split; [done|]. exact (wrote_trans _ _ _ _ _ Hw Hw').
Qed.

End Wrote.

(** How many blocks [write_path] asks for. *)
Definition need (data : list Z) : Z := Z.max (blocks_for (Z.of_nat (length data))) 1.

Lemma need_covers (data : list Z) (i : nat) : Z.of_nat i < need data -> (i = 0 \/ i * DATA_PAYLOAD < length data)%nat.
Proof.
  unfold need, blocks_for, DATA_PAYLOAD. intros H. destruct i as [|i]; [by left|right]. assert (Z.of_nat (S i) < (Z.of_nat (length data) + Z.of_nat 508 - 1) / Z.of_nat 508) as H' by lia.
  pose proof (Z.mul_div_le (Z.of_nat (length data) + Z.of_nat 508 - 1) (Z.of_nat 508) ltac:(lia)). nia.
Qed.

(** The data lands in the blocks of the file. *)
Lemma put_content_wrote (s s1 : St) (data : list Z) (ty first count : Z) (lbas : list Z) : file_alloc s s1 (need data) ty first count lbas ->
  post (put_content data (need data) ty first count) s1 (fun s2 r => r = Ok tt /\ exists s1', quiet s1 s1' /\ wrote s1' s2 (chunks data 0 lbas)).
Proof.
  intros [Hs Hlen Hnd Hnew Hold _ _ (frag & Hf & Hi) _ _]. pose proof (steps_open _ _ _ _ Hs) as Ho. unfold put_content. destruct frag as [exts|].
  - destruct Hf as (-> & Hd & Hr). cbn [Z.eqb]. change (ITYPE_FILE_FRAG =? ITYPE_FILE) with false. apply post_bind_ok, post_ok_or.
    eapply post_mono; [apply (ext_of_reads s1 (view s1)); by apply open_reads|]. cbn [first_block]. intros s1' r (-> & Hq). rewrite Hd. rewrite Hr.
    eapply post_mono; [apply fill_wrote; [by apply (quiet_open _ _ Hq Ho)|]|].
    { intros i Hlt. apply need_covers. rewrite Hlen in Hlt. cbn. unfold need in *. lia. }
    intros s2 r (-> & Hw). split; [done|]. by exists s1'.
  - rewrite Hf. change (ITYPE_FILE =? ITYPE_FILE) with true. unfold write_extent. eapply post_mono; [apply write_extent_loop; apply Ho|]. intros s2 r (-> & Hw). split; [done|].
    exists s1. split; [apply quiet_refl|]. replace lbas with ((fun i => wrap64 (first + Z.of_nat i)) <$> seq 0 (Z.to_nat (need data))); [done|]. apply list_eq. intros i. rewrite list_lookup_fmap.
    destruct (lbas !! i) as [b|] eqn:E.
    + pose proof (lookup_lt_Some _ _ _ E). rewrite lookup_seq_lt by lia. cbn. by apply Hi.
    + apply lookup_ge_None in E. by rewrite lookup_seq_ge by lia.
Qed.

(** ** The volume once the data is there *)

(** A file's blocks, all of them in [R], with its data in them. *)
Definition file_in (R : Z -> Prop) (v : Image) (ty first : Z) (data : list Z) : Prop :=
  exists lbas, length lbas = Z.to_nat (need data) /\ file_map v ty first lbas /\ (forall i b, lbas !! i = Some b -> v b = data_block (chunk_of data i)) /\
    (forall b, b ∈ lbas -> R b) /\ (ty = ITYPE_FILE_FRAG -> R first).

Lemma file_in_frame (R : Z -> Prop) (v v' : Image) (ty first : Z) (data : list Z) : (forall b, R b -> v' b = v b) -> file_in R v ty first data -> file_in R v' ty first data.
Proof.
  intros Hv (lbas & Hl & (frag & Hf & Hm) & Hc & Hr & Hx). exists lbas. split_and!; [done| | |done|done].
  - exists frag. split; [|done]. destruct frag as [exts|]; [|done]. destruct Hf as (Ht & Hd & Hb). by rewrite Hv by by apply Hx.
  - intros i b Hi. rewrite Hv by (eapply Hr, list_elem_of_lookup_2, Hi). by apply Hc.
Qed.

Section Content.
Context (s s1 s1' s2 : St) (data : list Z) (ty first count : Z) (lbas : list Z).
Context (Hv : vol_ok s) (Hempty : txn_of s = []) (Hbytes : Forall is_byte data).
Context (Ha : file_alloc s s1 (need data) ty first count lbas) (Hq : quiet s1 s1') (Hw : wrote s1' s2 (chunks data 0 lbas)).

Lemma content_geo : fs_geo (st_fs s2) = fs_geo (st_fs s).
Proof. rewrite (proj1 Hw), (proj1 Hq). eapply steps_geo, Ha. Qed.

Lemma content_open : open_txn s2.
Proof. eapply wrote_open; [exact Hw|by apply chunks_blocks|]. eapply quiet_open; [exact Hq|]. eapply steps_open, Ha. Qed.

Lemma content_other x : x ∉ lbas -> view s2 x = view s1 x.
Proof. intros Hx. rewrite <- (quiet_view _ _ _ Hq). eapply wrote_other; [exact Hw|]. by rewrite chunks_fst. Qed.

Lemma content_in i b : lbas !! i = Some b -> view s2 b = data_block (chunk_of data i).
Proof.
  intros Hi. eapply wrote_in; [exact Hw|rewrite chunks_fst; apply Ha|by apply chunks_elem|]. unfold txn_of. rewrite (proj1 Hq).
  destruct (fa_new _ _ _ _ _ _ _ Ha b) as (_ & _ & _ & H); [by eapply list_elem_of_lookup_2|]. unfold txn_of in *. by rewrite H, Hempty.
Qed.

Lemma content_used b : 0 <= b < total_blocks (fs_geo (st_fs s)) -> used_bit s2 b = used_bit s1 b.
Proof.
  intros Hb. pose proof (steps_geo _ _ _ _ (fa_steps _ _ _ _ _ _ _ Ha)) as Eg. apply used_bit_frame; rewrite ?Eg; [apply Hv|apply content_geo| |done].
  intros x Hx. apply content_other. intros Hin. destruct (fa_new _ _ _ _ _ _ _ Ha x Hin) as (Hd & _). unfold data_block_no in Hd. pose proof (go_journal _ (vk_geo _ Hv)) as Hj. unfold JOURNAL_BLOCKS in Hj. lia.
Qed.

Lemma content_vol : vol_ok s2.
Proof. pose proof (go_total _ (vk_geo _ Hv)). constructor; rewrite content_geo; [apply Hv|]. rewrite content_used by lia. exact (fa_backup _ _ _ _ _ _ _ Ha). Qed.

(** What was in use is as it was. *)
Lemma content_old b : data_block_no s b -> used_bit s b = true -> used_bit s2 b = true /\ view s2 b = view s b.
Proof.
  intros Hb Hu. destruct (fa_old _ _ _ _ _ _ _ Ha b Hb Hu) as [H1 H2]. pose proof (data_pos s (vk_geo _ Hv)). unfold data_block_no in Hb. rewrite content_used by lia. split; [done|]. rewrite content_other; [done|].
  intros Hin. destruct (fa_new _ _ _ _ _ _ _ Ha b Hin) as (_ & E & _). congruence.
Qed.

Lemma content_dir dir : loc dir = None -> dir_ok s dir -> dir_ok s2 dir.
Proof.
  intros Hl [D1 D2 D3 D4 _]. assert (forall b, first_block dir <= b < first_block dir + block_count dir -> used_bit s2 b = true /\ view s2 b = view s b) as H.
  { intros b Hb. apply content_old; [unfold data_block_no; lia|by apply D3]. }
  constructor; rewrite ?content_geo; [done| | |done|by rewrite Hl]; intros b Hb; destruct (H b Hb) as [H1 H2]; [rewrite H2; by apply D2|done].
Qed.

(** The blocks of the file are out of the directory's way. *)
Lemma content_bystander dir b : loc dir = None -> dir_ok s dir -> data_block_no s b -> used_bit s b = false -> used_bit s1 b = true -> bystander s2 dir b.
Proof.
  intros Hl Hd Hb Hu Hu1. pose proof (data_pos s (vk_geo _ Hv)). unfold bystander. rewrite content_geo, Hl. unfold data_block_no in Hb. split; [done|]. split; [by rewrite content_used by lia|]. split; [|done].
  intros Hr. apply (dk_used _ _ Hd) in Hr. congruence.
Qed.

Lemma content_file dir s3 : loc dir = None -> dir_ok s dir -> (forall b, bystander s2 dir b -> view s3 b = view s2 b) -> file_in (data_block_no s) (view s3) ty first data.
Proof.
  intros Hl Hd Hb. assert (forall b, b ∈ lbas -> view s3 b = view s2 b) as Hin.
  { intros b Hi. destruct (fa_new _ _ _ _ _ _ _ Ha b Hi) as (A1 & A2 & A3 & _). by apply Hb, content_bystander. }
  exists lbas. split_and!; [apply Ha| |intros i b Hi; rewrite Hin by (by eapply list_elem_of_lookup_2); by apply content_in|intros b Hi; by apply (fa_new _ _ _ _ _ _ _ Ha)|intros Ht; by apply (fa_ext _ _ _ _ _ _ _ Ha)].
  destruct (fa_map _ _ _ _ _ _ _ Ha) as ([exts|] & Hf & Hm); [|by exists None]. exists (Some exts). split; [|done]. destruct Hf as (Ht & Hdec & Hr). split_and!; [done| |done].
  destruct (fa_ext _ _ _ _ _ _ _ Ha Ht) as (A1 & A2 & A3 & A4). rewrite Hb by by apply content_bystander. by rewrite content_other.
Qed.

End Content.

(** ** The request, up to its commit *)

(** A file of the root directory has been written: its record and its content are
    in the view, and nothing that was in use has changed. *)
Record written (s s' : St) (name data : list Z) : Prop := {
  wr_open : open_txn s';
  wr_vol : vol_ok s';
  wr_root : dir_ok s' (root_entry (st_fs s'));
  wr_geo : fs_geo (st_fs s') = fs_geo (st_fs s);
  wr_env : d_env (st_dev s') = d_env (st_dev s);
  wr_cache : walk_cache (st_fs s') = None;
  wr_image : image_ok (d_img (st_dev s)) -> image_ok (d_img (st_dev s'));
  wr_old : forall b, bystander s (root_entry (st_fs s)) b -> view s' b = view s b /\ used_bit s' b = true;
  wr_file : exists ty first count, is_file ty = true /\ file_in (data_block_no s) (view s') ty first data /\
    dir_recs (view s') (dir_blocks (root_entry (st_fs s'))) ≡ₚ
      (name, mkMeta ty false (Z.of_nat (length data)) first count) :: dir_recs (view s) (dir_blocks (root_entry (st_fs s)));
}.

Lemma unsealed_size (n : Z) : 0 <= n < 2 ^ 63 -> Z.ldiff n REC_SEALED_BIT = n.
Proof.
  intros Hn. apply Z.bits_inj'. intros i Hi. rewrite Z.ldiff_spec. change REC_SEALED_BIT with (2 ^ 63). rewrite Z.pow2_bits_eqb by lia.
  destruct (Z.eqb_spec 63 i) as [<-|]; [|by rewrite andb_true_r]. cbn [negb]. rewrite andb_false_r. symmetry.
  destruct (Z.eq_dec n 0) as [->|]; [by rewrite Z.bits_0|]. apply Z.bits_above_log2; [lia|]. apply Z.log2_lt_pow2; lia.
Qed.

Lemma valid_name_ok (name : list Z) : Forall is_byte name -> valid_name name = true -> name_ok name.
Proof.
  intros Hb H. unfold valid_name in H. apply andb_prop in H as [H _]. apply andb_prop in H as [H1 H2]. split; [|done].
  apply negb_true_iff, Nat.eqb_neq in H1. apply Nat.leb_le in H2. lia.
Qed.

(** The cache of [walk] is empty once a block was staged. *)
Lemma tb_write_uncached (s : St) lba b : post (tb_write lba b) s (fun s' _ => walk_cache (st_fs s') = None).
Proof.
  unfold tb_write. apply post_bind, post_mod. apply post_bind, post_get. cbn. destruct (txn_active (fs_txn (st_fs s))).
  - destruct (stage _ _ _); by apply post_bind, post_mod, post_ret.
  - apply post_bind, post_on_dev. unfold post at 1. destruct (block_write_kind _ _ _) as [d [[] why]]; cbn; [by apply post_bind, post_ret, post_ret|].
    by apply post_bind, post_mod, post_ret.
Qed.

Lemma place_rec_uncached (s : St) block blk slot name ty sz first count : post (place_rec block blk slot name ty sz first count) s (fun s' _ => walk_cache (st_fs s') = None).
Proof. unfold place_rec. apply post_then. intros s1 now. apply post_or_err. apply tb_write_uncached. Qed.

Lemma dir_add_uncached (s : St) dir name ty sz first count : post (dir_add dir name ty sz first count) s (fun s' r => forall dir', r = Ok dir' -> walk_cache (st_fs s') = None).
Proof.
  unfold dir_add. apply post_bind, (post_for_first _ _ (fun _ => True)); [done| |].
  - intros b s' _ _. unfold add_loop. apply post_then. intros s1 [blk|]; [|by apply post_ret]. destruct (find_free blk) as [slot|]; [|done].
    apply post_bind. eapply post_mono; [apply place_rec_uncached|]. intros s2 [u|e] H; apply post_ret; [by intros ? _|done].
  - intros s' _. apply post_then. intros s1 [dir'|e]; [|by apply post_ret]. apply post_then. intros s2 [blk|e]; [|by apply post_ret].
    apply post_bind_ok. eapply post_mono; [apply place_rec_uncached|]. intros s3 [u|e] H; [|done]. by intros ? _.
Qed.

(** *** Looking for the name *)

Lemma assoc_none_inv (recs : list (list Z * Meta)) (name : list Z) : assoc recs name = None -> name ∉ recs.*1.
Proof.
  induction recs as [|p recs IH]; [intros _; apply not_elem_of_nil|]. rewrite assoc_cons. case_decide as E; [done|]. intros H. cbn. apply not_elem_of_cons. split; [by intros ->|by apply IH].
Qed.

Lemma assoc_elem (recs : list (list Z * Meta)) (name : list Z) (m : Meta) : assoc recs name = Some m -> (name, m) ∈ recs.
Proof.
  induction recs as [|p recs IH]; [done|]. rewrite assoc_cons. case_decide as E; [intros [= <-]; rewrite <- E; destruct p; by left|]. intros H. right. by apply IH.
Qed.

(** An entry that was inserted under a new name is the one that is found. *)
Lemma assoc_inserted (recs recs' : list (list Z * Meta)) (name : list Z) (m : Meta) : assoc recs name = None -> recs' ≡ₚ (name, m) :: recs -> assoc recs' name = Some m.
Proof.
  intros Hn Hp. destruct (assoc recs' name) as [m'|] eqn:E.
  - apply assoc_elem in E. rewrite Hp in E. apply elem_of_cons in E as [[= ->]|E]; [done|]. destruct (assoc_none_inv _ _ Hn). apply list_elem_of_fmap. by exists (name, m').
  - destruct (assoc_none_inv _ _ E). rewrite Hp. left.
Qed.

Lemma locate_root (s : St) (path name : list Z) : open_txn s -> components path = [name] -> valid_name name = true ->
  Forall (fun b => dir_crc_ok (view s b) = true) (dir_blocks (root_entry (st_fs s))) -> assoc (dir_recs (view s) (dir_blocks (root_entry (st_fs s)))) name = None ->
  post (locate path) s (fun s' r => quiet s s' /\ r = Ok (root_entry (st_fs s), name, None)).
Proof.
  intros Ho Hp Hn Hc Ha. unfold locate. apply post_bind_ok, post_ok_or. unfold walk_parent. apply post_bind, post_get. rewrite Hp. cbn [last removelast].
  apply post_bind_some, post_ret. apply post_ret. cbn [itype root_entry]. change (negb (ITYPE_DIR =? ITYPE_DIR)) with false. rewrite Hn. cbn [negb].
  apply post_bind. eapply post_mono; [by apply dir_find_view|]. intros s' r (Hq & Hm & _). apply post_ret. split; [done|]. rewrite Ha in Hm. by destruct r.
Qed.

Lemma dir_recs_same (v v' : Image) (blocks : list Z) : (forall b, b ∈ blocks -> v' b = v b) -> dir_recs v' blocks = dir_recs v blocks.
Proof. intros H. unfold dir_recs. apply Forall_bind_ext, Forall_forall. intros b Hb. by rewrite H. Qed.

Lemma file_map_type (v : Image) (ty first : Z) (lbas : list Z) : file_map v ty first lbas -> is_file ty = true.
Proof. intros ([exts|] & H & _); [by destruct H as (-> & _)|by subst]. Qed.

Section Request.
Context (s : St) (path name data : list Z).
Context (Ho : open_txn s) (Hempty : txn_of s = []) (Hv : vol_ok s) (Hd : dir_ok s (root_entry (st_fs s))).
Context (Hpath : components path = [name]) (Hname : valid_name name = true) (Hnb : Forall is_byte name).
Context (Hbytes : Forall is_byte data) (Hlen : (length data <= MAX_FILE_BYTES)%nat).
Context (Hnew : assoc (dir_recs (view s) (dir_blocks (root_entry (st_fs s)))) name = None).

Let root := root_entry (st_fs s).

(** The record, once the data is in place. *)
Lemma record_new (s1 s1' s2 : St) (ty first count : Z) (lbas : list Z) :
  file_alloc s s1 (need data) ty first count lbas -> quiet s1 s1' -> wrote s1' s2 (chunks data 0 lbas) ->
  post (record_file root name None ty (Z.of_nat (length data)) first count) s2 (fun s3 r => r = Ok tt -> written s s3 name data).
Proof.
  intros Ha Hq Hw. unfold MAX_FILE_BYTES, DATA_PAYLOAD in Hlen. destruct (fa_u64 _ _ _ _ _ _ _ Ha) as (U1 & U2 & U3).
  unfold record_file. apply post_bind. eapply post_mono; [apply post_and; [apply dir_add_view|apply dir_add_uncached]|].
  - by eapply content_open.
  - by eapply content_vol.
  - by eapply (content_dir s s1 s1' s2).
  - split; [by apply valid_name_ok|]. unfold u64 in *. lia.
  - intros s3 [root'|e] [[Hi _] Hcache]; [|by apply post_then; intros; apply post_ret]. apply post_ret. intros _. specialize (Hcache _ eq_refl).
    destruct (Hi _ eq_refl) as (Hp & Ho3 & Hv3 & Hd3 & Hb3 & He3 & Hg3 & (f & c & ->) & Htr). clear Hi. rewrite unsealed_size in Hp by lia.
    assert (fs_geo (st_fs s2) = fs_geo (st_fs s)) as Eg2 by by eapply content_geo.
    assert (tracks_root s3 (with_extent root f c)) as Ht3.
    { apply Htr. intros _. rewrite (proj1 Hw), (proj1 Hq). apply (fa_root _ _ _ _ _ _ _ Ha). }
    assert (root_entry (st_fs s3) = with_extent root f c) as Eroot by (destruct Ht3 as [E1 E2]; [done|]; unfold root_entry; by rewrite E1, E2).
    constructor; rewrite ?Eroot; try done; [by rewrite Hg3| | | |].
    + destruct He3 as (-> & _), (proj2 Hw) as (-> & _), (proj1 (proj2 Hq)) as (-> & _). eapply (steps_emitted s s1), Ha.
    + destruct He3 as (_ & _ & ->). intros Hi. apply (wrote_image s1' s2 (chunks data 0 lbas)); [done|by apply chunks_blocks|].
      destruct (proj1 (proj2 Hq)) as (_ & _ & ->), (steps_emitted s s1 _ _ (fa_steps _ _ _ _ _ _ _ Ha)) as (_ & _ & ->). done.
    + intros b (B1 & B2 & B3 & B4). destruct (content_old s s1 s1' s2 data ty first count lbas Hv Ha Hq Hw b B1 B2) as [C1 C2].
      rewrite <- C2. apply Hb3. unfold bystander. by rewrite Eg2.
    + exists ty, first, count. split_and!; [eapply file_map_type, Ha|eapply (content_file s s1 s1' s2) with (dir := root); [done..|]; intros b Hb; by apply Hb3|].
      rewrite Hp. apply Permutation_skip. rewrite (dir_recs_same (view s) (view s2)); [done|]. intros b Hb. fold root in Hb. unfold root in Hb. rewrite (dir_blocks_range s) in Hb by (done || apply Hv).
      apply elem_of_seqZ in Hb. pose proof (dk_range _ _ Hd). eapply (content_old s s1 s1' s2); try done; [unfold data_block_no; lia|by apply (dk_used _ _ Hd)].
Qed.

Lemma write_path_written : post (write_path path data) s (fun s3 r => r = Ok tt -> written s s3 name data).
Proof.
  unfold write_path. destruct (Nat.ltb_spec MAX_FILE_BYTES (length data)) as [?|_]; [lia|]. apply post_bind_ok.
  eapply post_mono; [apply locate_root; try done|].
  { rewrite (dir_blocks_range s) by (done || apply Hv). apply Forall_forall. intros b Hb%elem_of_seqZ. by apply (dk_crc _ _ Hd). }
  intros s0 r (Hq0 & ->). cbn [option_list existsb]. apply post_bind_ok. fold (need data).
  eapply post_mono; [apply alloc_file_view; [by eapply quiet_open|by eapply quiet_vol|unfold need; lia]|].
  intros s1 [[[ty first] count]|e] H1; [|done]. destruct (H1 _ _ _ eq_refl) as (lbas & Ha%(file_alloc_quiet s _ _ _ _ _ _ _ Ho Hq0)). apply post_bind_ok.
  eapply post_mono; [by eapply put_content_wrote|]. intros s2 r (-> & s1' & Hq1 & Hw). by eapply record_new.
Qed.

End Request.

(** ** The commit *)

Section Commit.
Context (s : St).

Let js := journal_start (fs_geo (st_fs s)).

(** The volume in memory, but for its transaction and the failures it noted. *)
Definition kept (s' : St) : Prop :=
  fs_sb (st_fs s') = fs_sb (st_fs s) /\ fs_geo (st_fs s') = fs_geo (st_fs s) /\ walk_cache (st_fs s') = walk_cache (st_fs s) /\ txn_active (fs_txn (st_fs s')) = false.

Lemma journal_write_kept (s' : St) lba b e : kept s' -> post (journal_write lba b e) s' (fun s'' _ => kept s'').
Proof.
  intros H. unfold journal_write. apply post_bind, post_on_dev. unfold post at 1. destruct (block_write_kind _ _ _) as [d [[] why]]; [by apply post_ret|]. by apply post_bind, post_mod, post_ret.
Qed.

Lemma commit_kept : post commit_txn s (fun s' r => r = Ok tt -> kept s').
Proof.
  unfold commit_txn. apply post_bind, post_get. destruct (txn_overflow _); [by apply post_then; intros; apply post_ret|]. apply post_bind, post_mod.
  assert (kept (mkSt (with_txn (mkTxn false false (txn_blocks (fs_txn (st_fs s)))) (st_fs s)) (st_dev s) (st_now s) (st_revoked s))) as H0 by done.
  destruct (_ =? _)%nat; [by apply post_ret|]. apply post_bind, post_get. apply post_bind_ok, (post_for_ok _ _ kept); [done| |].
  { intros [i [l b]] s' _ H. eapply post_mono; [by apply journal_write_kept|]. intros s'' [[]|e] H'; [exact H'|by intros ?]. }
  intros s1 H1. apply post_bind. eapply (post_mono _ _ (fun s' _ => kept s')); [by apply post_bind, post_on_dev|]. intros s2 _ H2.
  apply post_bind_ok. eapply post_mono; [by apply journal_write_kept|]. intros s3 [[]|e] H3; [|done].
  apply post_bind. eapply (post_mono _ _ (fun s' _ => kept s')); [by apply post_bind, post_on_dev|]. intros s4 _ H4.
  apply post_bind_ok, (post_for_ok _ _ kept); [done| |].
  { intros [l b] s' _ H. eapply post_mono; [by apply journal_write_kept|]. intros s'' [[]|e] H'; [exact H'|by intros ?]. }
  intros s5 H5. apply post_bind. eapply (post_mono _ _ (fun s' _ => kept s')); [by apply post_bind, post_on_dev|].
  intros s6 [] H6; [apply post_bind, post_on_dev; intros _; exact H6|by apply post_ret].
Qed.

(** Off the journal, the commit makes the view the content of the disk. *)
Lemma journal_applies (last : list Ev) (x : Z) : NoDup (txn_of s).*1 -> (length (txn_of s) <= TXN_CAP)%nat -> last `prefix_of` [EvWrite js zero_block] -> ~ in_journal js x ->
  apply_evs (d_img (st_dev s)) (stage_evs js (txn_of s) ++ [EvFlush; EvWrite js (commit_record (txn_of s)); EvFlush] ++ home_evs (txn_of s) ++ [EvFlush] ++ last) x = view s x.
Proof.
  intros Hn Hf Hl Hx. set (evs := stage_evs _ _ ++ _).
  assert (forall b, EvWrite x b ∈ evs -> (x, b) ∈ txn_of s) as Hev.
  { intros b [H|H]%elem_of_app.
    - apply elem_of_stage_evs in H as (i & -> & Hi). destruct Hx. unfold in_journal, JOURNAL_BLOCKS, TXN_CAP in *. destruct (txn_of s !! i) eqn:E; [|done]. apply lookup_lt_Some in E. lia.
    - cbn [app] in H. apply elem_of_cons in H as [?|H]; [done|]. apply elem_of_cons in H as [[= -> ?]|H]; [by destruct Hx; apply js_in_journal|]. apply elem_of_cons in H as [?|H]; [done|].
      apply elem_of_app in H as [H|H]; [by apply elem_of_home_evs|]. apply elem_of_cons in H as [?|H]; [done|]. destruct Hl as [k Hl].
      assert (EvWrite x b ∈ [EvWrite js zero_block]) as H' by (rewrite Hl; apply elem_of_app; by left). apply list_elem_of_singleton in H' as [= -> ?]. by destruct Hx; apply js_in_journal. }
  unfold view. destruct (staged x (txn_of s)) as [b|] eqn:E; cbn.
  - destruct (decide (x ∈ (txn_of s).*1)) as [Hin|Hin]; [|by rewrite staged_none in E]. apply list_elem_of_fmap in Hin as ([x' b'] & -> & Hin). cbn [fst] in *.
    rewrite (staged_elem x' b') in E by done. injection E as <-. apply apply_evs_written.
    + apply elem_of_app. right. do 3 right. apply elem_of_app. left. by apply elem_of_home_evs.
    + intros b'' Hb%Hev. pose proof (staged_elem x' b'' _ Hn Hb). pose proof (staged_elem x' b' _ Hn Hin). congruence.
  - destruct (apply_evs_cases evs (d_img (st_dev s)) x) as [H|H]; [done|]. apply Hev in H. by rewrite (staged_elem _ _ _ Hn H) in E.
Qed.

Lemma commit_lands : open_txn s -> honest (d_env (st_dev s)) ->
  post commit_txn s (fun s' r => r = Ok tt -> kept s' /\ d_env (st_dev s') = d_env (st_dev s) /\ forall x, ~ in_journal js x -> d_img (st_dev s') x = view s x).
Proof.
  intros [_ Hn Hf Hg _ _] Hh. unfold post. intros Hr. split; [by apply commit_kept|]. revert Hr.
  destruct (txn_overflow (fs_txn (st_fs s))) eqn:Hov; [unfold commit_txn, ibind, fs_get, iget; rewrite Hov; done|].
  destruct (decide (txn_of s = [])) as [E|Hne].
  - unfold commit_txn, ibind, fs_get, iget, fs_mod, imod. rewrite Hov. unfold txn_of in E. rewrite E. cbn. intros _. split; [done|]. intros x _. unfold view, txn_of. by rewrite E.
  - pose proof (commit_emits s (txn_of s) js Hh eq_refl Hov eq_refl Hne) as (evs & (E1 & _ & E2) & _ & H). intros Hr. destruct (H Hr) as (last & Hl & ->). split; [done|].
    intros x Hx. rewrite E2. by apply journal_applies.
Qed.

End Commit.

(** ** Reading it back *)

Section ReadBack.
Context (v : Image) (data : list Z) (Hbytes : Forall is_byte data).

(** Outside a transaction, on a disk that answers and holds [v]; [f] is the volume but for its counters. *)
Definition resting (f : Fs) (s : St) : Prop :=
  txn_active (fs_txn (st_fs s)) = false /\ good (d_env (st_dev s)) /\ d_img (st_dev s) = v /\ fs_sb (st_fs s) = fs_sb f /\ walk_cache (st_fs s) = walk_cache f.

Lemma resting_quiet f s s' : quiet s s' -> resting f s -> resting f s'.
Proof. intros (H1 & (H2 & _ & H3) & _) (A & B & C & D & E). unfold resting. by rewrite H1, H2, H3. Qed.

Lemma resting_reads f s : resting f s -> reads s v.
Proof. intros (A & B & <- & _). by apply idle_reads. Qed.

Lemma data_read_rests f s lba : resting f s -> data_ok (v lba) = true -> post (on_dev (data_read lba)) s (fun s' r => r = Some (v lba) /\ resting f s').
Proof.
  intros (A & B & C & D) Hok. apply post_on_dev. unfold data_read. apply post_bind_some. eapply post_mono; [by apply block_read_good|]. intros d r ((E1 & _ & E2) & ->). rewrite C, Hok.
  apply post_ret. split; [done|]. unfold resting. cbn. by rewrite E1, E2.
Qed.

(** The blocks from the [k]th on give the rest of the data. *)
Lemma read_blocks_rest f e frag (lbas : list Z) m : size e = Z.of_nat (length data) ->
  (forall i b, lbas !! i = Some b -> block_of e frag (Z.of_nat i) = Some b /\ v b = data_block (chunk_of data i)) ->
  forall k s, resting f s -> (k + m <= length lbas)%nat -> Z.of_nat (k + m) = blocks_for (Z.of_nat (length data)) ->
  post (read_blocks e frag (seqZ (Z.of_nat k) (Z.of_nat m))) s (fun s' r => r = Some (drop (k * DATA_PAYLOAD) data) /\ resting f s').
Proof.
  intros Hsize Hb. induction m as [|m IH]; intros k s Hr Hl Hk.
  - apply post_ret. split; [|done]. rewrite drop_ge; [done|]. unfold blocks_for, DATA_PAYLOAD in *. rewrite Nat.add_0_r in Hk.
    pose proof (Z.mod_pos_bound (Z.of_nat (length data) + Z.of_nat 508 - 1) (Z.of_nat 508) ltac:(lia)). pose proof (Z.div_mod (Z.of_nat (length data) + Z.of_nat 508 - 1) (Z.of_nat 508) ltac:(lia)). lia.
  - rewrite seqZ_cons by lia. cbn [read_blocks]. destruct (lookup_lt_is_Some_2 lbas k ltac:(lia)) as [b Hkb]. destruct (Hb k b Hkb) as [H1 H2]. rewrite H1.
    apply post_bind_some, post_ret. destruct (chunk_bytes data k Hbytes) as [C1 C2]. destruct (data_block_ok _ C1 C2) as (D1 & D2 & D3).
    apply post_bind_some. eapply post_mono; [apply (data_read_rests f); [done|by rewrite H2]|]. intros s1 r (-> & Hr1). apply post_bind_some.
    replace (Z.succ (Z.of_nat k)) with (Z.of_nat (S k)) by lia. replace (Z.pred (Z.of_nat (S m))) with (Z.of_nat m) by lia.
    eapply post_mono; [apply (IH (S k)); [done|lia|lia]|]. intros s2 r (-> & Hr2). apply post_ret. split; [|done]. f_equal. rewrite H2, Hsize.
    assert (Z.to_nat (Z.min (Z.of_nat k * Z.of_nat DATA_PAYLOAD + Z.of_nat DATA_PAYLOAD) (Z.of_nat (length data)) - Z.of_nat k * Z.of_nat DATA_PAYLOAD) = length (chunk_of data k)) as ->.
    { unfold chunk_of. rewrite length_take, length_drop. lia. }
    rewrite D3, take_ge by done. unfold chunk_of. rewrite <- (take_drop DATA_PAYLOAD (drop (k * DATA_PAYLOAD) data)) at 2. rewrite drop_drop. f_equal. f_equal. lia.
Qed.

Lemma frag_of_rests f s e (lbas : list Z) : resting f s -> file_map v (itype e) (first_block e) lbas ->
  post (frag_of e) s (fun s' r => resting f s' /\ exists frag, r = Some frag /\ forall i b, lbas !! i = Some b -> block_of e frag (Z.of_nat i) = Some b).
Proof.
  intros Hr ([exts|] & H & Hi); unfold frag_of.
  - destruct H as (-> & Hd & _). change (ITYPE_FILE_FRAG =? ITYPE_FILE_FRAG) with true. cbv iota. apply post_bind_some. eapply post_mono; [apply ext_of_reads; by eapply resting_reads|].
    intros s1 r (-> & Hq). rewrite Hd. apply post_ret. split; [by eapply resting_quiet|]. by exists (Some exts).
  - rewrite H. change (ITYPE_FILE =? ITYPE_FILE_FRAG) with false. cbv iota. apply post_ret. split; [done|]. by exists None.
Qed.

Lemma set_damaged_rests f s b : resting f s -> post (set_damaged b) s (fun s' _ => resting f s').
Proof. done. Qed.

(** A lookup in the root directory that no cache answers. *)
Lemma walk_root f s path name m : resting f s -> walk_cache f = None -> components path = [name] ->
  Forall (fun b => dir_crc_ok (v b) = true) (dir_blocks (root_entry f)) -> assoc (dir_recs v (dir_blocks (root_entry f))) name = Some m ->
  post (walk path) s (fun s' r => exists e, r = Some e /\ meta_of e = m /\ resting (st_fs s') s').
Proof.
  intros Hr Hc Hp Hcrc Ha. pose proof Hr as (R1 & R2 & R3 & R4 & R5). unfold walk. apply post_bind, post_get.
  assert (root_entry (st_fs s) = root_entry f) as Er by (unfold root_entry; by rewrite R4). rewrite R5, Hc, Er, Hp.
  assert (forall b : bool, (if b then @None (list Z * Entry) else None) = None) as E by by intros []. rewrite E. clear E.
  apply post_bind_some. cbn [descend]. change (negb (itype (root_entry f) =? ITYPE_DIR)) with false. cbv iota. apply post_bind_some.
  eapply post_mono; [apply (dir_find_reads s v); [by eapply resting_reads|done]|]. intros s1 [e|] (Hq & Hm & _); rewrite Ha in Hm; [|done]. injection Hm as Hm. cbn [descend]. apply post_ret.
  destruct (resting_quiet f _ _ Hq Hr) as (Q1 & Q2 & Q3 & _). apply post_bind. case_match; [apply post_mod|apply post_ret]; apply post_ret; by exists e.
Qed.

(** What is in the file is what [read_path] answers with. *)
Lemma read_path_content s path name ty first count cap : resting (st_fs s) s -> walk_cache (st_fs s) = None -> components path = [name] ->
  Forall (fun b => dir_crc_ok (v b) = true) (dir_blocks (root_entry (st_fs s))) ->
  assoc (dir_recs v (dir_blocks (root_entry (st_fs s)))) name = Some (mkMeta ty false (Z.of_nat (length data)) first count) ->
  is_file ty = true -> (exists R, file_in R v ty first data) -> Z.of_nat (length data) <= cap ->
  post (read_path path cap) s (fun _ r => r = Some data).
Proof.
  intros Hr Hc Hp Hcrc Ha Hty (R & lbas & Hlen & Hmap & Hin & _) Hcap. unfold read_path. apply post_bind. eapply post_mono; [by apply (set_damaged_rests (st_fs s))|]. intros s1 [] Hr1.
  apply post_bind_some. eapply post_mono; [by eapply walk_root|]. intros s2 r (e & -> & He & Hr2). injection He as E1 _ E3 E4 _. rewrite E1, Hty, E3. cbn [negb].
  rewrite Z.gtb_ltb. destruct (Z.ltb_spec cap (Z.of_nat (length data))); [lia|]. apply post_bind. eapply post_mono; [by apply (set_damaged_rests (st_fs s2))|]. intros s3 [] Hr3.
  apply post_bind_some. eapply post_mono; [eapply (frag_of_rests _ _ _ lbas); [exact Hr3|by rewrite E1, E4]|]. intros s4 r (Hr4 & frag & -> & Hblk). apply post_bind_some.
  assert (0 <= blocks_for (Z.of_nat (length data))) as Hpos by (apply Z.div_pos; unfold DATA_PAYLOAD; lia). rewrite <- (Z2Nat.id _ Hpos).
  eapply post_mono; [eapply (read_blocks_rest (st_fs s2) e frag lbas (Z.to_nat (blocks_for (Z.of_nat (length data)))) E3 _ 0 s4 Hr4)|].
  { rewrite Hlen. unfold need. lia. }
  { cbn. by rewrite Z2Nat.id. }
  intros s5 r (-> & Hr5). apply post_bind, post_mod. by apply post_ret.
  Unshelve. intros i b Hi. split; [by apply Hblk|by apply Hin].
Qed.

End ReadBack.

(** ** Room for the request *)

(** An open transaction with room for [k] blocks more. *)
Definition fits (k : nat) (s : St) : Prop :=
  txn_active (fs_txn (st_fs s)) = true /\ txn_overflow (fs_txn (st_fs s)) = false /\ (length (txn_of s) + k <= TXN_CAP)%nat /\ good (d_env (st_dev s)).

Section Fits.
Implicit Types (s : St) (k : nat).

Lemma fits_le k k' s : (k' <= k)%nat -> fits k s -> fits k' s.
Proof. intros Hk (A & B & C & D). unfold fits. split_and!; (done || lia). Qed.

Lemma fits_quiet k s s' : quiet s s' -> fits k s -> fits k s'.
Proof. intros (H & (H' & _) & _). unfold fits, txn_of. by rewrite H, H'. Qed.

Lemma fits_read k s lba : fits k s -> post (tb_read lba) s (fun s' r => is_Some r /\ fits k s').
Proof.
  intros Hf. unfold tb_read. apply post_bind, post_get. case_match; [apply post_ret; split; [by eexists|done]|].
  apply post_bind, post_on_dev. unfold post at 1, block_read_kind. cbn. rewrite (proj1 (proj2 (proj2 (proj2 Hf)))). apply post_ret. split; [by eexists|done].
Qed.

Lemma fits_write k s lba b : fits (S k) s -> post (tb_write lba b) s (fun s' r => r = true /\ fits k s').
Proof.
  intros (A & B & C & D). unfold tb_write. apply post_bind, post_mod. apply post_bind, post_get. cbn. rewrite A. unfold txn_of in C. unfold stage.
  destruct (list_find _ _) as [[i p]|]; [|destruct (Nat.leb_spec TXN_CAP (length (txn_blocks (fs_txn (st_fs s)))))]; [|lia|];
    apply post_bind, post_mod, post_ret; (split; [done|]); unfold fits, txn_of; cbn; rewrite ?length_insert, ?length_app; cbn; split_and!; (done || lia).
Qed.

Lemma fits_persist k s : fits (2 + k) s -> post persist_super s (fun s' r => r = Ok tt /\ fits k s').
Proof.
  intros Hf. unfold persist_super. apply post_bind, post_get. apply post_bind, post_get. destruct (bool_decide _); [apply post_ret; split; [done|]; eapply fits_le, Hf; lia|].
  apply post_bind_ok, post_ok_or. eapply post_mono; [by apply fits_read|]. intros s1 r ([b ->] & H1). apply post_bind_ok, post_or_err.
  eapply post_mono; [apply (fits_write (S k)), H1|]. intros s2 r (-> & H2). apply post_bind, post_get. apply post_bind_ok, post_or_err.
  eapply post_mono; [apply fits_write, H2|]. intros s3 r (-> & H3). apply post_bind, post_mod. by apply post_ret.
Qed.

Lemma fits_pieces used pieces k s : fits (length pieces + k) s -> post (for_ok pieces (bm_set_piece used)) s (fun s' r => r = Ok tt /\ fits k s').
Proof.
  revert s. induction pieces as [|[j [f t]] l IH]; intros s Hf; [by apply post_ret|]. cbn [for_ok length Nat.add] in *. apply post_bind_ok. unfold bm_set_piece at 1. apply post_bind, post_get.
  apply post_bind_ok, post_ok_or. eapply post_mono; [by apply fits_read|]. intros s1 r ([b ->] & H1). apply post_or_err.
  eapply post_mono; [apply fits_write, H1|]. intros s2 r (-> & H2). by apply IH.
Qed.

Lemma bm_pieces_few first end_ : end_ <= first + BITS_PER_BMBLOCK -> (length (bm_pieces first end_) <= 2)%nat.
Proof.
  intros H. unfold bm_pieces. destruct (first <? end_); [|cbn; lia]. rewrite length_fmap, length_seqZ. unfold BITS_PER_BMBLOCK in *.
  assert ((end_ - 1) / 4096 <= first / 4096 + 1); [|lia]. transitivity ((first + 1 * 4096) / 4096); [apply Z.div_le_mono; lia|]. rewrite Z.div_add by lia. lia.
Qed.

(** With a run of [n] free blocks, the allocation succeeds in four blocks at most. *)
Lemma fits_alloc k s n start : open_txn s -> geo_ok (fs_geo (st_fs s)) -> 0 < n <= BITS_PER_BMBLOCK -> fits (4 + k) s ->
  data_start (fs_geo (st_fs s)) <= start -> start + n <= total_blocks (fs_geo (st_fs s)) -> takeable_run s start n ->
  post (alloc_run n) s (fun s' r => (exists first, r = Ok first) /\ fits k s').
Proof.
  intros Ho Hg Hn Hf H1 H2 H3. set (g := fs_geo (st_fs s)) in *. unfold alloc_run. destruct (Z.eqb_spec n 0) as [?|_]; [lia|].
  apply post_bind, post_get. fold g. apply post_bind_ok. pose proof Hg as [[G1 G2] G3 G4 G5]. unfold JOURNAL_BLOCKS, MAX_SANE_SECTORS in *.
  assert (0 <= (total_blocks g - 1) / BITS_PER_BMBLOCK) by (apply Z.div_pos; unfold BITS_PER_BMBLOCK; lia).
  eapply post_mono; [eapply (alloc_scan_view s Ho n ltac:(lia) (data_start g) (total_blocks g)); [apply quiet_refl|apply bm_pieces_chain; lia|lia|]|].
  { constructor; [by left|]. intros st Hst Hle. lia. }
  intros s1 [[st|]|e] [Hq Hr]; [|by destruct (Hr start)|done]. destruct Hr as (F1 & F2 & _). pose proof (fits_quiet _ _ _ Hq Hf) as Hf1.
  apply post_bind_ok. eapply post_mono; [apply (fits_pieces true _ (2 + k))|].
  { eapply fits_le, Hf1. pose proof (bm_pieces_few st (wrap64 (st + n))) as Hl. rewrite wrap64_small in * by (unfold u64_max, BITS_PER_BMBLOCK in *; lia). lia. }
  intros s2 r (-> & Hf2). apply post_bind, post_mod. apply post_bind_ok. eapply post_mono; [apply (fits_persist k); exact Hf2|]. intros s3 r (-> & Hf3). apply post_ret. split; [by eexists|done].
Qed.

End Fits.

(** A run of free blocks for the data, and a free slot in the root directory. *)
Definition has_room (s : St) (data : list Z) : Prop :=
  (exists start, data_start (fs_geo (st_fs s)) <= start /\ start + need data <= total_blocks (fs_geo (st_fs s)) /\ takeable_run s start (need data)) /\
  Exists (fun b => is_Some (find_free (view s b))) (dir_blocks (root_entry (st_fs s))).

Lemma quiet_takeable (s s' : St) (start n : Z) : quiet s s' -> takeable_run s start n -> takeable_run s' start n.
Proof. intros Hq H i Hi. destruct (H i Hi) as [H1 H2]. unfold takeable, bit_of in *. by rewrite (proj1 Hq), (quiet_view _ _ _ Hq). Qed.

Lemma alloc_file_fits (s : St) (n start : Z) (k : nat) : open_txn s -> geo_ok (fs_geo (st_fs s)) -> 0 < n <= BITS_PER_BMBLOCK -> fits (4 + k) s ->
  data_start (fs_geo (st_fs s)) <= start -> start + n <= total_blocks (fs_geo (st_fs s)) -> takeable_run s start n ->
  post (alloc_file n) s (fun s' r => (exists first, r = Ok (ITYPE_FILE, first, n)) /\ fits k s').
Proof.
  intros Ho Hg Hn Hf H1 H2 H3. unfold alloc_file. apply post_bind. eapply post_mono; [by eapply fits_alloc|]. intros s' r [[first ->] Hf']. apply post_ret. split; [by eexists|done].
Qed.

Lemma write_path_fits (s : St) (path name data : list Z) : open_txn s -> txn_of s = [] -> vol_ok s -> dir_ok s (root_entry (st_fs s)) ->
  components path = [name] -> valid_name name = true -> Forall is_byte data -> (length data <= MAX_FILE_BYTES)%nat ->
  assoc (dir_recs (view s) (dir_blocks (root_entry (st_fs s)))) name = None -> fits 5 s -> has_room s data ->
  post (write_path path data) s (fun s3 r => r = Ok tt /\ txn_overflow (fs_txn (st_fs s3)) = false).
Proof.
  intros Ho Hempty Hv Hd Hpath Hname Hbytes Hlen Hnew Hf [(start & R1 & R2 & R3) Hslot].
  assert (0 < need data <= BITS_PER_BMBLOCK) as Hneed.
  { unfold need, blocks_for, MAX_FILE_BYTES, BITS_PER_BMBLOCK, DATA_PAYLOAD in *. pose proof (Z.div_le_upper_bound (Z.of_nat (length data) + Z.of_nat 508 - 1) (Z.of_nat 508) 4096). lia. }
  assert (Forall (fun b => dir_crc_ok (view s b) = true) (dir_blocks (root_entry (st_fs s)))) as Hcrc.
  { rewrite (dir_blocks_range s) by (done || apply Hv). apply Forall_forall. intros b Hb%elem_of_seqZ. by apply (dk_crc _ _ Hd). }
  unfold write_path. destruct (Nat.ltb_spec MAX_FILE_BYTES (length data)) as [?|_]; [lia|]. apply post_bind_ok.
  eapply post_mono; [by apply locate_root|]. intros s0 r (Hq0 & ->). cbn [option_list existsb]. apply post_bind_ok. fold (need data). pose proof (quiet_open _ _ Hq0 Ho) as Ho0.
  eapply post_mono; [apply post_and; [apply alloc_file_view; [done|by eapply quiet_vol|lia]|]|].
  { apply (alloc_file_fits s0 (need data) start 1); rewrite ?(proj1 Hq0); [done|apply Hv|done|by eapply fits_quiet|done|done|by eapply quiet_takeable]. }
  intros s1 r (H1 & (first & ->) & Hf1). destruct (H1 _ _ _ eq_refl) as (lbas & Ha%(file_alloc_quiet s _ _ _ _ _ _ _ Ho Hq0)). apply post_bind_ok.
  eapply post_mono; [by eapply put_content_wrote|]. intros s2 r (-> & s1' & Hq1 & Hw). unfold record_file. apply post_bind.
  pose proof (fits_quiet _ _ _ Hq1 Hf1) as (F1 & F2 & F3 & F4). unfold txn_of in F3.
  assert (forall b, b ∈ dir_blocks (root_entry (st_fs s)) -> view s2 b = view s b) as Hsame.
  { intros b Hb. rewrite (dir_blocks_range s) in Hb by (done || apply Hv). apply elem_of_seqZ in Hb. pose proof (dk_range _ _ Hd).
    eapply (content_old s s1 s1' s2); try done; [unfold data_block_no; lia|by apply (dk_used _ _ Hd)]. }
  eapply post_mono; [apply add_fits|].
  - by eapply content_open.
  - apply Forall_forall. intros b Hb. rewrite Hsame by done. by apply (proj1 (Forall_forall _ _) Hcrc).
  - unfold room, txn_of. rewrite (proj1 Hw). lia.
  - apply Exists_exists in Hslot as (b & Hb & Hfree). apply Exists_exists. exists b. split; [done|]. by rewrite Hsame.
  - intros s3 r [-> Hov]. apply post_ret. split; [done|]. by rewrite Hov, (proj1 Hw).
Qed.

(** ** The request as a whole *)

Definition opened (s : St) : St := (begin_txn s).1.

(** A mounted volume between two requests, on a disk that answers and flushes when
    asked: geometry, root directory and bitmap agree. *)
Record sound (s : St) : Prop := {
  so_idle : txn_active (fs_txn (st_fs s)) = false;
  so_good : good (d_env (st_dev s));
  so_honest : honest (d_env (st_dev s));
  so_image : image_ok (d_img (st_dev s));
  so_label : Forall is_byte (label (fs_sb (st_fs s)));
  so_vol : vol_ok (opened s);
  so_root : dir_ok (opened s) (root_entry (st_fs s));
}.

(** The records of the root directory on the disk. *)
Definition root_recs (s : St) : list (list Z * Meta) := dir_recs (d_img (st_dev s)) (dir_blocks (root_entry (st_fs s))).

Lemma opened_open (s : St) : sound s -> open_txn (opened s) /\ fits 5 (opened s).
Proof. intros [A B C D E _ _]. split; [constructor; cbn; (done || lia || constructor)|]. split; [done|]. split; [done|]. split; [cbn; unfold TXN_CAP; lia|done]. Qed.

Lemma commit_image (s : St) : open_txn s -> honest (d_env (st_dev s)) -> image_ok (d_img (st_dev s)) ->
  post commit_txn s (fun s' r => r = Ok tt -> image_ok (d_img (st_dev s'))).
Proof.
  intros Ho Hh Hi. unfold post. destruct (txn_overflow (fs_txn (st_fs s))) eqn:Hov; [unfold commit_txn, ibind, fs_get, iget; rewrite Hov; done|].
  destruct (decide (txn_of s = [])) as [E|Hne].
  - unfold commit_txn, ibind, fs_get, iget, fs_mod, imod. rewrite Hov. unfold txn_of in E. rewrite E. by cbn.
  - pose proof (commit_emits s (txn_of s) _ Hh eq_refl Hov eq_refl Hne) as (evs & (_ & _ & ->) & Hp & _). intros _ x.
    destruct (apply_evs_cases evs (d_img (st_dev s)) x) as [->|H]; [apply Hi|]. destruct Hp as [k Hp]. revert H. generalize (apply_evs (d_img (st_dev s)) evs x). intros b H.
    assert (EvWrite x b ∈ journal_evs (journal_start (fs_geo (st_fs s))) (txn_of s)) as H' by (rewrite Hp; apply elem_of_app; by left). clear H Hp k evs.
    assert (forall l c, (l, c) ∈ txn_of s -> is_block c) as Hblk.
    { intros l c Hin. pose proof (ot_image _ Ho l) as Hl. unfold view in Hl. by rewrite (staged_elem _ _ _ (ot_nodup _ Ho) Hin) in Hl. }
    unfold journal_evs in H'. apply elem_of_app in H' as [H|H].
    + apply elem_of_stage_evs in H as (i & _ & H). apply fmap_Some in H as ([l c] & H & ->). eapply Hblk, list_elem_of_lookup_2, H.
    + apply elem_of_cons in H as [?|H]; [done|]. apply elem_of_cons in H as [[= _ ->]|H]; [apply commit_record_block|]. apply elem_of_cons in H as [?|H]; [done|].
      apply elem_of_app in H as [H%elem_of_home_evs|H]; [by eapply Hblk|]. apply elem_of_cons in H as [?|H]; [done|]. apply list_elem_of_singleton in H as [= _ ->]. apply zero_is_block.
Qed.

(** The volume after the commit of a request that wrote a file. *)
Section Committed.
Context (s s3 s4 : St) (name data : list Z).
Context (Hs : sound s) (Hw : written (opened s) s3 name data) (Hk : kept s3 s4) (He : d_env (st_dev s4) = d_env (st_dev s3)) (Hi4 : image_ok (d_img (st_dev s4))).
Context (Hd : forall x, ~ in_journal (journal_start (fs_geo (st_fs s3))) x -> d_img (st_dev s4) x = view s3 x).

Lemma committed_geo : fs_geo (st_fs s4) = fs_geo (st_fs s3) /\ geo_ok (fs_geo (st_fs s3)).
Proof. split; [apply Hk|apply (wr_vol _ _ _ _ Hw)]. Qed.

Lemma committed_root : root_entry (st_fs s4) = root_entry (st_fs s3).
Proof. unfold root_entry. by rewrite (proj1 Hk). Qed.

Lemma committed_data b : data_block_no s3 b -> d_img (st_dev s4) b = view s3 b.
Proof. intros Hb. apply Hd. pose proof (go_journal _ (proj2 committed_geo)). unfold data_block_no, in_journal in *. lia. Qed.

Lemma committed_used b : 0 <= b < total_blocks (fs_geo (st_fs s3)) -> used_bit (opened s4) b = used_bit s3 b.
Proof. destruct committed_geo as [E G]. apply used_bit_frame; [done|done|]. intros x Hx. apply Hd. unfold in_journal. lia. Qed.

Lemma committed_sound : sound s4.
Proof.
  pose proof committed_geo as [Eg G]. pose proof (go_total _ G) as Ht. pose proof (data_pos s3 G) as Hds. pose proof (wr_env _ _ _ _ Hw) as He3. cbn in He3. constructor.
  - apply Hk.
  - rewrite He, He3. apply Hs.
  - rewrite He, He3. apply Hs.
  - done.
  - rewrite (proj1 Hk). apply (wr_open _ _ _ _ Hw).
  - constructor; cbn; rewrite Eg; [done|]. rewrite committed_used by lia. apply (wr_vol _ _ _ _ Hw).
  - destruct (wr_root _ _ _ _ Hw) as [D1 D2 D3 D4 D5]. rewrite committed_root. constructor; [by cbn; rewrite Eg| | |done|done]; intros b Hb.
    + change (view (opened s4) b) with (d_img (st_dev s4) b). rewrite committed_data by (unfold data_block_no; lia). by apply D2.
    + rewrite committed_used by lia. by apply D3.
Qed.

Lemma committed_recs : root_recs s4 = dir_recs (view s3) (dir_blocks (root_entry (st_fs s3))).
Proof.
  unfold root_recs. rewrite committed_root. apply dir_recs_same. intros b Hb. pose proof (dk_range _ _ (wr_root _ _ _ _ Hw)).
  rewrite (dir_blocks_range s3) in Hb by (apply committed_geo || apply Hw). apply elem_of_seqZ in Hb. apply committed_data. unfold data_block_no. lia.
Qed.

End Committed.

(** C5: A file that was written is the file that is read.  On a sound volume, the
    request that writes a new file into the root directory succeeds when there
    is a run of free blocks for its data and a slot for its record.  Once it has
    answered [Ok], however its blocks were found, the root directory has exactly
    the new record besides the old ones, no block that was in use outside it has
    changed, the volume is sound again, and reading the path answers with the
    bytes that were written. *)
Theorem written_is_read (s : St) (path name data : list Z) :
  sound s -> components path = [name] -> valid_name name = true -> Forall is_byte name -> Forall is_byte data -> (length data <= MAX_FILE_BYTES)%nat ->
  assoc (root_recs s) name = None ->
  post (txn_op (write_path path data)) s (fun s' r =>
    (r = Ok tt -> sound s' /\
       (exists ty first count, root_recs s' ≡ₚ (name, mkMeta ty false (Z.of_nat (length data)) first count) :: root_recs s) /\
       (forall b, bystander (opened s) (root_entry (st_fs s)) b -> d_img (st_dev s') b = d_img (st_dev s) b) /\
       forall cap, Z.of_nat (length data) <= cap -> post (read_path path cap) s' (fun _ out => out = Some data)) /\
    (has_room (opened s) data -> r = Ok tt)).
Proof.
  intros Hs Hp Hn Hnb Hb Hl Ha. destruct (opened_open s Hs) as [Ho Hf]. pose proof (so_vol _ Hs) as Hv. pose proof (so_root _ Hs) as Hd.
  unfold txn_op. apply post_bind. change (post begin_txn s ?Q) with (Q (opened s) tt). apply post_bind.
  eapply (post_mono _ _ (fun s3 r => (r = Ok tt -> written (opened s) s3 name data) /\ (has_room (opened s) data -> r = Ok tt /\ txn_overflow (fs_txn (st_fs s3)) = false)));
    [apply post_and; [by apply (write_path_written (opened s) path name data)|]|].
  { unfold post at 1. intros Hroom. exact (write_path_fits (opened s) path name data Ho eq_refl Hv Hd Hp Hn Hb Hl Ha Hf Hroom). }
  intros s3 r [Hw Hfit]. destruct r as [[]|e]; cbn [end_txn].
  2:{ apply post_then. intros s' _. apply post_ret. split; [done|]. intros Hroom. by destruct (Hfit Hroom). }
  specialize (Hw eq_refl). pose proof (wr_open _ _ _ _ Hw) as Ho3. assert (honest (d_env (st_dev s3))) as Hh by (rewrite (wr_env _ _ _ _ Hw); apply Hs).
  apply post_and; [|unfold post; intros Hroom; apply commit_succeeds; [apply Ho3|by destruct (Hfit Hroom)]].
  eapply post_mono; [apply post_and; [by apply commit_lands|apply commit_image; [done|done|apply (wr_image _ _ _ _ Hw), Hs]]|].
  intros s4 r [H4 Hi4] Hr. destruct (H4 Hr) as (Hk & He & Himg). specialize (Hi4 Hr). clear H4.
  assert (sound s4) as Hs4 by by eapply committed_sound. destruct (wr_file _ _ _ _ Hw) as (ty & first & count & Hty & Hfile & Hperm).
  assert (root_recs s4 ≡ₚ (name, mkMeta ty false (Z.of_nat (length data)) first count) :: root_recs s) as Hrecs by by erewrite committed_recs.
  assert (forall b, data_block_no (opened s) b -> d_img (st_dev s4) b = view s3 b) as Hdata.
  { intros b Hbd. eapply committed_data; [exact Hw|exact Hk|done|]. unfold data_block_no in *. by rewrite (wr_geo _ _ _ _ Hw). }
  split_and!; [done|by exists ty, first, count| |].
  - intros b Hby. rewrite Hdata by apply Hby. by apply (wr_old _ _ _ _ Hw).
  - intros cap Hcap. eapply (read_path_content (d_img (st_dev s4)) data Hb s4 path name ty first count cap); try done.
    + split; [apply Hk|]. split; [apply Hs4|done].
    + destruct Hk as (_ & _ & -> & _). apply (wr_cache _ _ _ _ Hw).
    + pose proof (so_vol _ Hs4) as Hv4. pose proof (so_root _ Hs4) as Hd4. rewrite (dir_blocks_range (opened s4)) by (apply Hv4 || done).
      apply Forall_forall. intros b Hin%elem_of_seqZ. exact (dk_crc _ _ Hd4 b Hin).
    + by eapply assoc_inserted.
    + eexists. by eapply file_in_frame.
Qed.

(** The same volume of a hundred blocks, at rest. *)
Definition idle_volume : St := mkSt (st_fs (blank_volume false)) (mkDev (d_env small_disk) (rooted_image zero_block) [] 0) 0 [].

Lemma written_is_read_witness :
  post (txn_op (write_path [47; 97] [7; 8; 9])) idle_volume (fun s' r => r = Ok tt /\ post (read_path [47; 97] 512) s' (fun _ out => out = Some [7; 8; 9])).
Proof.
  assert (opened idle_volume = rooted_volume zero_block) as E by reflexivity. destruct (rooted_ok zero_block zero_is_block) as (H1 & H2 & H3 & _).
  eapply post_mono; [apply (written_is_read idle_volume [47; 97] [97] [7; 8; 9]); [|reflexivity|reflexivity|repeat constructor; unfold is_byte; lia..| |by vm_compute]|].
  - constructor; rewrite ?E; try done. exact (ot_image _ H1).
  - cbn. unfold MAX_FILE_BYTES, DATA_PAYLOAD. lia.
  - intros s' r [Hok Hroom]. assert (r = Ok tt) as ->.
    { apply Hroom. rewrite E. split; [exists 67|by vm_compute; left; eexists]. split_and!; [by vm_compute..|]. intros i Hi. change (need [7; 8; 9]) with 1 in Hi. assert (i = 67) as -> by lia. by split; vm_compute. }
    split; [done|]. destruct (Hok eq_refl) as (_ & _ & _ & Hread). apply Hread. cbn. lia.
Defined.
