(* ===== verification/Capability.v ===== *)
(** * Capabilities: rights, generations and the capability token

    [kernel/src/capability/rights.rs], [generation.rs] and [cap.rs].  A right
    set is the [u8] the kernel stores, a generation the [u32], a resource id
    the [u64].  The file defines the two orders the rest of the development
    uses: [rights_le] (fewer rights) and [cap_le] (the same authority or
    less), with every narrowing operation monotone for them. *)

From S2P Require Import Prelude.

(** ** [rights.rs] *)

Notation Rights := Z (only parsing).

Module Rights.

Definition READ : Rights := 1.
Definition WRITE : Rights := 2.
Definition SEND : Rights := 4.
Definition RECV : Rights := 8.
Definition GRANT : Rights := 16.
Definition REVOKE : Rights := 32.

Definition empty : Rights := 0.
Definition all : Rights := 63.

Definition contains (self other : Rights) : bool := Z.land self other =? other.
Definition narrow (self mask : Rights) : Rights := Z.land self mask.
Definition without (self mask : Rights) : Rights := Z.land self (u8_not mask).
Definition union (self other : Rights) : Rights := Z.lor self other.
Definition bitor (self rhs : Rights) : Rights := Z.lor self rhs.

End Rights.

(** ** [generation.rs] *)

Notation Generation := Z (only parsing).

Module Generation.

Definition INITIAL : Generation := 0.

(** [checked_add(1).expect(..)]: panics rather than wrapping. *)
Definition bump (self : Generation) : outcome Generation :=
  match checked_add32 self 1 with
  | Some g => Done g
  | None => Panic
  end.

Definition matches (self other : Generation) : bool := self =? other.

(** [NEXT_GENERATION.fetch_add(1)] wraps; the value it returns is refused
    when it is 0.  The first component is the counter after the call. *)
Definition next_generation (NEXT_GENERATION : Z) : Z * outcome Generation :=
  let g := NEXT_GENERATION in
  (wrap32 (g + 1), if g =? 0 then Panic else Done g).

End Generation.

(** ** [cap.rs] *)

Notation ResourceId := Z (only parsing).

Record Capability := mkCapability {
  resource_id : ResourceId;
  rights : Rights;
  generation : Generation
}.

#[export] Instance Capability_eq_dec : EqDecision Capability.
Proof. solve_decision. Defined.

Inductive CapError :=
| CapNotHeld
| CapInsufficientRights
| CapNotGrantable
| CapWrongScope
| CapRevoked
| EndpointDead
| GenerationMismatch.

#[export] Instance CapError_eq_dec : EqDecision CapError.
Proof. solve_decision. Defined.

Definition validate (self : Capability) (required_right : Rights)
    (current_gen : Generation) : result unit CapError :=
  if negb (Generation.matches (generation self) current_gen)
  then Err GenerationMismatch
  else if negb (Rights.contains (rights self) required_right)
  then Err CapInsufficientRights
  else Ok tt.

(** The release build: the [debug_assert!] is compiled out. *)
Definition narrow_for_grant (self : Capability) (mask : Rights) : Capability :=
  mkCapability (resource_id self) (Rights.narrow (rights self) mask)
               (generation self).

Definition without_grant (self : Capability) : Capability :=
  mkCapability (resource_id self) (Rights.without (rights self) Rights.GRANT)
               (generation self).

(** ** The two orders *)

Definition rights_le (a b : Rights) : Prop := Rights.contains b a = true.

Definition cap_le (c d : Capability) : Prop :=
  resource_id c = resource_id d /\ generation c = generation d /\
  rights_le (rights c) (rights d).

(** A right set as the kernel stores it: a [u8]. *)
Definition rights_wf (r : Rights) : Prop := 0 <= r <= u8_max.

Lemma rights_le_bits (a b : Rights) :
  rights_le a b <->
  (forall i, 0 <= i -> Z.testbit a i = true -> Z.testbit b i = true).
Proof.
  unfold rights_le, Rights.contains. rewrite Z.eqb_eq. split.
  - intros H i Hi Ha. rewrite <- H, Z.land_spec in Ha.
    by apply andb_true_iff in Ha as [-> _].
  - intros H. apply Z.bits_inj'. intros i Hi. rewrite Z.land_spec.
    specialize (H i Hi).
    destruct (Z.testbit b i), (Z.testbit a i); naive_solver.
Qed.

#[export] Instance rights_le_preorder : PreOrder rights_le.
Proof.
  split.
  - intros a. by apply rights_le_bits.
  - intros a b c Hab Hbc. rewrite rights_le_bits in *. eauto.
Qed.

#[export] Instance rights_le_antisym : AntiSymm (=) rights_le.
Proof.
  intros a b Hab Hba. unfold rights_le, Rights.contains in *. to_prop.
  rewrite Z.land_comm in Hba. congruence.
Qed.

#[export] Instance cap_le_preorder : PreOrder cap_le.
Proof.
  split.
  - intros c. by split_and!.
  - intros c d e (? & ? & ?) (? & ? & ?). split_and!; try congruence.
    by etrans.
Qed.

#[export] Instance contains_proper :
  Proper (rights_le ==> flip rights_le ==> impl)
         (fun a b => is_true (Rights.contains a b)).
Proof.
  intros a b Hab c d Hdc Hac. unfold is_true in *. change (rights_le d b).
  transitivity c; [exact Hdc|]. transitivity a; [exact Hac|exact Hab].
Qed.

Lemma narrow_le (a mask : Rights) : rights_le (Rights.narrow a mask) a.
Proof.
  apply rights_le_bits. intros i _. unfold Rights.narrow.
  rewrite Z.land_spec. intros [H _]%andb_true_iff. exact H.
Qed.

Lemma narrow_le_mask (a mask : Rights) : rights_le (Rights.narrow a mask) mask.
Proof. unfold Rights.narrow. rewrite Z.land_comm. apply narrow_le. Qed.

Lemma narrow_glb (a mask r : Rights) :
  rights_le r a -> rights_le r mask -> rights_le r (Rights.narrow a mask).
Proof.
  rewrite !rights_le_bits. intros Ha Hm i Hi Hr. unfold Rights.narrow.
  rewrite Z.land_spec, Ha, Hm; done.
Qed.

Lemma without_le (a mask : Rights) : rights_le (Rights.without a mask) a.
Proof. apply narrow_le. Qed.

Lemma without_disjoint (a mask : Rights) :
  rights_wf mask -> Z.land (Rights.without a mask) mask = 0.
Proof.
  intros Hm. apply Z.bits_inj'. intros i Hi. unfold Rights.without.
  rewrite !Z.land_spec, u8_not_testbit, Z.bits_0 by done.
  by destruct (Z.testbit a i), (Z.testbit mask i); simpl; rewrite ?andb_false_r.
Qed.

Lemma narrow_for_grant_le (c : Capability) (mask : Rights) :
  cap_le (narrow_for_grant c mask) c.
Proof. split_and!; [done..|]. apply narrow_le. Qed.

Lemma without_grant_le (c : Capability) : cap_le (without_grant c) c.
Proof. split_and!; [done..|]. apply without_le. Qed.

Lemma without_grant_strips (c : Capability) :
  Rights.contains (rights (without_grant c)) Rights.GRANT = false.
Proof.
  unfold Rights.contains. simpl. rewrite without_disjoint; [done|].
  unfold rights_wf, Rights.GRANT, u8_max; lia.
Qed.

Lemma without_grant_keeps (c : Capability) (r : Rights) :
  rights_wf r -> Rights.contains r Rights.GRANT = false ->
  rights_le r (rights c) -> rights_le r (rights (without_grant c)).
Proof.
  intros Hwf Hg Hle. simpl. apply narrow_glb; [done|].
  apply rights_le_bits. intros i Hi Hr. rewrite u8_not_testbit by done.
  destruct (decide (i < 8)) as [H8|H8].
  - replace (i <? 8) with true by (symmetry; by apply Z.ltb_lt).
    rewrite andb_true_r. destruct (decide (i = 4)) as [->|Hn].
    + exfalso. unfold Rights.contains, Rights.GRANT in Hg. to_prop.
      apply Hg. change 16 with (2 ^ 4).
      apply Z.bits_inj'. intros j Hj. rewrite Z.land_spec, Z.pow2_bits_eqb by lia.
      destruct (4 =? j) eqn:E; to_prop; subst; by rewrite ?Hr, ?andb_false_r.
    + change Rights.GRANT with (2 ^ 4). by rewrite Z.pow2_bits_false by lia.
  - exfalso. assert (Z.testbit r i = false) as Hf; [|congruence].
    apply Z.testbit_false; [lia|]. unfold rights_wf, u8_max in Hwf.
    assert (2 ^ 8 <= 2 ^ i) by (apply Z.pow_le_mono_r; lia).
    by rewrite Z.div_small by lia.
Qed.

Lemma bump_spec (g g' : Generation) :
  Generation.bump g = Done g' <-> g' = g + 1 /\ g + 1 <= u32_max.
Proof.
  unfold Generation.bump, checked_add32.
  destruct (g + 1 <=? u32_max) eqn:E; to_prop; naive_solver lia.
Qed.

Lemma bump_panics_at_max : Generation.bump u32_max = Panic.
Proof. reflexivity. Qed.

(** Until the counter wraps, successive calls hand out strictly increasing
    non-zero generations. *)
Lemma next_generation_spec (n n' : Z) (g : Generation) :
  1 <= n <= u32_max -> Generation.next_generation n = (n', Done g) ->
  g = n /\ (n' = n + 1 \/ n = u32_max /\ n' = 0).
Proof.
  unfold Generation.next_generation, wrap32, u32_max. intros Hn [= <- Hg].
  destruct (n =? 0) eqn:E; to_prop; simplify_eq. split; [done|].
  destruct (decide (g = 4294967295)) as [->|]; [by right|left].
  rewrite Z.mod_small; lia.
Qed.

#[export] Hint Resolve narrow_le without_le narrow_for_grant_le
  without_grant_le : gs.
