(* ===== verification/CapTable.v ===== *)
(** * The per-task capability table and the global resource registry

    [kernel/src/capability/table.rs] and the well-known resources of
    [capability/mod.rs].  [GlobalResourceTable] keeps the source's layout: a
    direct-indexed array with a presence array for ids below [DIRECT_CAP] and
    a linearly scanned overflow array above.  [ResourceRegistry] is what the
    registry promises its clients (delegated resources, endpoints, syscalls);
    [grt_registry] discharges it. *)

From stdpp Require Import gmap.
From S2P Require Import Prelude Capability.

(** ** Records and liveness *)

Inductive Liveness := Alive | Revoked | Dead.

#[export] Instance Liveness_eq_dec : EqDecision Liveness.
Proof. solve_decision. Defined.

Record ResourceRecord := mkResourceRecord {
  rec_generation : Generation;
  rec_liveness : Liveness
}.

Definition DIRECT_CAP : Z := 8192.
Definition OVERFLOW_CAP : nat := 32.

Definition EMPTY_RECORD : ResourceRecord :=
  mkResourceRecord Generation.INITIAL Alive.
Definition EMPTY_OVERFLOW : ResourceId * ResourceRecord := (0, EMPTY_RECORD).

(** ** [GlobalResourceTable] *)

Module GlobalResourceTable.

Record t := mk {
  records : list ResourceRecord;
  present : list bool;
  overflow : list (ResourceId * ResourceRecord);
  overflow_len : nat
}.

Definition new : t :=
  mk (replicate (Z.to_nat DIRECT_CAP) EMPTY_RECORD)
     (replicate (Z.to_nat DIRECT_CAP) false)
     (replicate OVERFLOW_CAP EMPTY_OVERFLOW) 0.

(** [self.overflow[..self.overflow_len].iter().find(|(rid, _)| *rid == id)]:
    the index of the first entry for [id]. *)
Definition overflow_find (self : t) (id : ResourceId) : option nat :=
  position (fun e => e.1 =? id) (take (overflow_len self) (overflow self)).

Definition get_record (self : t) (id : ResourceId) : option ResourceRecord :=
  if id <? DIRECT_CAP then
    match present self !! Z.to_nat id with
    | Some true => records self !! Z.to_nat id
    | _ => None
    end
  else i ← overflow_find self id; e ← overflow self !! i; Some e.2.

Definition set_record (self : t) (i : nat) (r : ResourceRecord) : t :=
  mk (<[i := r]> (records self)) (present self) (overflow self) (overflow_len self).

Definition set_overflow (self : t) (i : nat) (e : ResourceId * ResourceRecord) : t :=
  mk (records self) (present self) (<[i := e]> (overflow self)) (overflow_len self).

Definition bump_generation (self : t) (id : ResourceId) (l : Liveness) : outcome t :=
  if id <? DIRECT_CAP then
    match present self !! Z.to_nat id, records self !! Z.to_nat id with
    | Some true, Some r =>
        g ← Generation.bump (rec_generation r);
        Done (set_record self (Z.to_nat id) (mkResourceRecord g l))
    | _, _ => Done self
    end
  else
    match overflow_find self id with
    | Some i =>
        match overflow self !! i with
        | Some (rid, r) =>
            g ← Generation.bump (rec_generation r);
            Done (set_overflow self i (rid, mkResourceRecord g l))
        | None => Done self
        end
    | None => Done self
    end.

Definition register_at_gen (self : t) (id : ResourceId) (g : Generation) : outcome t :=
  if id <? DIRECT_CAP then
    Done (mk (<[Z.to_nat id := mkResourceRecord g Alive]> (records self))
             (<[Z.to_nat id := true]> (present self))
             (overflow self) (overflow_len self))
  else if (overflow_len self <? OVERFLOW_CAP)%nat then
    Done (mk (records self) (present self)
             (<[overflow_len self := (id, mkResourceRecord g Alive)]> (overflow self))
             (S (overflow_len self)))
  else Panic.

Definition register (self : t) (id : ResourceId) : outcome t :=
  register_at_gen self id Generation.INITIAL.

(** The array lengths Rust's types fix, and the length of the used prefix. *)
Record wf (self : t) : Prop := mk_wf {
  wf_records : length (records self) = Z.to_nat DIRECT_CAP;
  wf_present : length (present self) = Z.to_nat DIRECT_CAP;
  wf_overflow : length (overflow self) = OVERFLOW_CAP;
  wf_overflow_len : (overflow_len self <= OVERFLOW_CAP)%nat;
  (** every used overflow entry is for an id outside the direct range *)
  wf_overflow_ids : forall i e, (i < overflow_len self)%nat ->
    overflow self !! i = Some e -> DIRECT_CAP <= e.1
}.

End GlobalResourceTable.

Notation GRT := GlobalResourceTable.t.

(** ** The public functions of [table.rs] *)

Definition register_resource (R : GRT) (id : ResourceId) : outcome GRT :=
  GlobalResourceTable.register R id.

Definition register_resource_at_gen (R : GRT) (id : ResourceId) (g : Generation) : outcome GRT :=
  GlobalResourceTable.register_at_gen R id g.

Definition get_resource_generation (R : GRT) (id : ResourceId) : option Generation :=
  rec_generation <$> GlobalResourceTable.get_record R id.

Definition mint_cap (R : GRT) (id : ResourceId) (r : Rights) : outcome Capability :=
  match GlobalResourceTable.get_record R id with
  | Some rec => Done (mkCapability id r (rec_generation rec))
  | None => Panic
  end.

Definition mark_dead_resource (R : GRT) (id : ResourceId) : outcome GRT :=
  GlobalResourceTable.bump_generation R id Dead.

Definition revoke_resource (R : GRT) (id : ResourceId) : outcome GRT :=
  GlobalResourceTable.bump_generation R id Revoked.

Definition bump_resource_generation (R : GRT) (id : ResourceId) : outcome GRT :=
  mark_dead_resource R id.

(** ** [CapTable] *)

Definition MAX_CAPS_PER_TASK : nat := 64.

(** [CapTable { slots: [Option<Capability>; MAX_CAPS_PER_TASK] }] *)
Notation CapTable := (list (option Capability)) (only parsing).

Module CapTable.

Definition empty : CapTable := replicate MAX_CAPS_PER_TASK None.

(** [self.slots.get(slot).and_then(|s| s.as_ref())] *)
Definition held (self : CapTable) (slot : nat) : option Capability :=
  mjoin (self !! slot).

Definition get (R : GRT) (self : CapTable) (slot : nat) (required_right : Rights)
    : result Capability CapError :=
  match held self slot with
  | None => Err CapNotHeld
  | Some cap =>
      match GlobalResourceTable.get_record R (resource_id cap) with
      | None => Err CapNotHeld
      | Some record =>
          if negb (Generation.matches (generation cap) (rec_generation record)) then
            Err match rec_liveness record with
                | Dead => EndpointDead
                | Revoked => CapRevoked
                | Alive => CapRevoked
                end
          else if negb (Rights.contains (rights cap) required_right)
          then Err CapInsufficientRights
          else Ok cap
      end
  end.

Definition is_free (s : option Capability) : bool :=
  match s with None => true | Some _ => false end.

Definition insert (self : CapTable) (cap : Capability)
    : CapTable * result nat CapError :=
  match position is_free self with
  | Some i => (<[i := Some cap]> self, Ok i)
  | None => (self, Err CapNotHeld)
  end.

Definition remove (self : CapTable) (slot : nat) : CapTable * option Capability :=
  match self !! slot with
  | Some s => (<[slot := None]> self, s)
  | None => (self, None)
  end.

(** The capabilities [for_each_slot] visits, in slot order. *)
Definition for_each_slot (self : CapTable) : list Capability := omap id self.

Definition holds_resource (self : CapTable) (rid : ResourceId)
    (required_right : Rights) : bool :=
  existsb (fun s => match s with
                    | Some cap => (resource_id cap =? rid) &&
                                  Rights.contains (rights cap) required_right
                    | None => false
                    end) self.

Definition wf (self : CapTable) : Prop := length self = MAX_CAPS_PER_TASK.

End CapTable.

Definition cap_read_rights (slots : CapTable) (slot : nat) : option Rights :=
  rights <$> CapTable.held slots slot.

(** ** The well-known resources of [capability/mod.rs] *)

Definition LOG_WRITE_RESOURCE : ResourceId := 1.
Definition SPAWN_RESOURCE : ResourceId := 2.
Definition CONSOLE_READ_RESOURCE : ResourceId := 3.
Definition CONSOLE_PUSH_RESOURCE : ResourceId := 4.
Definition INTROSPECT_RESOURCE : ResourceId := 5.
Definition SERVICE_CONTROL_RESOURCE : ResourceId := 6.
Definition RESOURCE_MINT_RESOURCE : ResourceId := 7.
Definition REBOOT_RESOURCE : ResourceId := 8.
Definition ACQUIRE_ANY_RESOURCE : ResourceId := 9.
Definition NET_DEVICE_RESOURCE : ResourceId := 10.
Definition GPIO_DEVICE_RESOURCE : ResourceId := 11.
Definition USB_DISK_RESOURCE : ResourceId := 12.
Definition SET_CLOCK_RESOURCE : ResourceId := 13.
Definition FIRE_IRQ_RESOURCE : ResourceId := 14.
Definition IMAGE_SPAWN_RESOURCE : ResourceId := 15.
Definition PCI_CFG_RESOURCE : ResourceId := 16.
Definition DEVICE_POWER_RESOURCE : ResourceId := 17.
Definition CPU_CLOCK_RESOURCE : ResourceId := 18.
Definition POWER_OFF_RESOURCE : ResourceId := 19.

(** [capability::init]: the stable resources, in registration order. *)
Definition STABLE_RESOURCES : list ResourceId :=
  [ LOG_WRITE_RESOURCE; FIRE_IRQ_RESOURCE; SPAWN_RESOURCE;
    CONSOLE_READ_RESOURCE; CONSOLE_PUSH_RESOURCE; INTROSPECT_RESOURCE;
    SERVICE_CONTROL_RESOURCE; RESOURCE_MINT_RESOURCE; REBOOT_RESOURCE;
    ACQUIRE_ANY_RESOURCE; NET_DEVICE_RESOURCE; GPIO_DEVICE_RESOURCE;
    USB_DISK_RESOURCE; SET_CLOCK_RESOURCE; IMAGE_SPAWN_RESOURCE;
    PCI_CFG_RESOURCE; DEVICE_POWER_RESOURCE; CPU_CLOCK_RESOURCE;
    POWER_OFF_RESOURCE ].

Definition init (R : GRT) : outcome GRT :=
  foldl (fun R id => R ≫= fun R => register_resource R id) (Done R) STABLE_RESOURCES.

(** ** What the registry promises its clients *)

Class RegistryOps (R : Type) := {
  reg_get : R -> ResourceId -> option ResourceRecord;
  reg_register_at : R -> ResourceId -> Generation -> outcome R;
  reg_bump : R -> ResourceId -> Liveness -> outcome R;
  reg_wf : R -> Prop
}.

(** The ids every client uses: endpoints and delegated resources. *)
Definition direct_id (id : ResourceId) : Prop := 0 <= id < DIRECT_CAP.

Definition bump_record (l : Liveness) (r : ResourceRecord) : ResourceRecord :=
  mkResourceRecord (rec_generation r + 1) l.

Class ResourceRegistry (R : Type) `{RegistryOps R} := {
  reg_register_get (s s' : R) id g :
    reg_wf s -> direct_id id -> reg_register_at s id g = Done s' ->
    reg_wf s' /\ forall id', 0 <= id' ->
      reg_get s' id' = if decide (id' = id) then Some (mkResourceRecord g Alive)
                       else reg_get s id';
  reg_register_total (s : R) id g :
    direct_id id -> reg_register_at s id g <> Panic;
  reg_bump_get (s s' : R) id l :
    reg_wf s -> 0 <= id -> reg_bump s id l = Done s' ->
    reg_wf s' /\ forall id', 0 <= id' ->
      reg_get s' id' = if decide (id' = id) then bump_record l <$> reg_get s id
                       else reg_get s id';
  reg_bump_panics (s : R) id l :
    reg_wf s -> 0 <= id ->
    (reg_bump s id l = Panic <->
     exists r, reg_get s id = Some r /\ u32_max <= rec_generation r)
}.

(** *** An abstract registry

    The registry as a finite map, and the operations its clients issue. *)

Inductive reg_op :=
| OpRegister (id : ResourceId) (g : Generation)
| OpMarkDead (id : ResourceId)
| OpRevoke (id : ResourceId).

Definition op_id (o : reg_op) : ResourceId :=
  match o with OpRegister id _ | OpMarkDead id | OpRevoke id => id end.

Definition spec_bump (m : gmap Z ResourceRecord) (id : ResourceId) (l : Liveness)
    : outcome (gmap Z ResourceRecord) :=
  match m !! id with
  | Some r => if rec_generation r + 1 <=? u32_max
              then Done (<[id := bump_record l r]> m) else Panic
  | None => Done m
  end.

Definition spec_op (m : gmap Z ResourceRecord) (o : reg_op) : outcome (gmap Z ResourceRecord) :=
  match o with
  | OpRegister id g => Done (<[id := mkResourceRecord g Alive]> m)
  | OpMarkDead id => spec_bump m id Dead
  | OpRevoke id => spec_bump m id Revoked
  end.

Definition grt_op (R : GRT) (o : reg_op) : outcome GRT :=
  match o with
  | OpRegister id g => register_resource_at_gen R id g
  | OpMarkDead id => mark_dead_resource R id
  | OpRevoke id => revoke_resource R id
  end.

Definition run_ops {S O} (step : S -> O -> outcome S) (s : S) (ops : list O) : outcome S :=
  foldl (fun s o => s ≫= fun s => step s o) (Done s) ops.

(** Every lookup agrees. *)
Definition grt_abs (R : GRT) (m : gmap Z ResourceRecord) : Prop :=
  GlobalResourceTable.wf R /\
  forall id, 0 <= id -> GlobalResourceTable.get_record R id = m !! id.

Definition outcome_rel {A B} (P : A -> B -> Prop) (a : outcome A) (b : outcome B) : Prop :=
  match a, b with
  | Done a, Done b => P a b
  | Panic, Panic => True
  | _, _ => False
  end.

(** ** The implementation meets it *)

Module GRTFacts.
Import GlobalResourceTable.

Lemma new_wf : wf new.
Proof. split; [done..| |]; simpl; lia. Qed.

Lemma get_record_new (id : ResourceId) : get_record new id = None.
Proof.
  unfold get_record. destruct (id <? DIRECT_CAP); [|done].
  destruct (present new !! Z.to_nat id) as [b|] eqn:E; [|done].
  apply lookup_replicate in E as [-> _]. done.
Qed.

Lemma overflow_find_spec (self : t) (id : ResourceId) (i : nat) :
  overflow_find self id = Some i ->
  (i < overflow_len self)%nat /\
  exists r, overflow self !! i = Some (id, r) /\
  forall j e, (j < i)%nat -> overflow self !! j = Some e -> e.1 <> id.
Proof.
  unfold overflow_find. intros [([rid r] & Hl & Hp) Hj]%position_Some.
  apply lookup_take_Some in Hl as [Hl Hlt]. simpl in *. to_prop. subst.
  split; [done|]. exists r. split; [done|]. intros j e Hji He.
  specialize (Hj j e Hji). rewrite lookup_take_lt in Hj by lia.
  specialize (Hj He). by to_prop.
Qed.

Lemma overflow_find_update (self : t) (id id' : ResourceId) (i : nat) (r r' : ResourceRecord) :
  overflow self !! i = Some (id, r) ->
  overflow_find (set_overflow self i (id, r')) id' = overflow_find self id'.
Proof.
  intros Hi. unfold overflow_find; simpl. rewrite take_insert.
  case_decide; [|done]. apply (position_insert_same _ _ _ _ (id, r)); [|done].
  by rewrite lookup_take_lt by done.
Qed.

Lemma register_get (self self' : t) (id : ResourceId) (g : Generation) :
  wf self -> direct_id id -> register_at_gen self id g = Done self' ->
  wf self' /\ forall id', 0 <= id' ->
    get_record self' id' = if decide (id' = id) then Some (mkResourceRecord g Alive)
                           else get_record self id'.
Proof.
  intros Hwf [Hid0 Hid]. destruct Hwf as [Hr Hp Ho Hl Hids]. unfold register_at_gen.
  replace (id <? DIRECT_CAP) with true by (symmetry; by apply Z.ltb_lt).
  intros [= <-]. split.
  { split; simpl; autorewrite with gs; done. }
  intros id' Hid'. unfold get_record; simpl.
  destruct (id' <? DIRECT_CAP) eqn:E; to_prop.
  - destruct (decide (id' = id)) as [->|Hne].
    + by rewrite !list_lookup_insert_eq by lia.
    + rewrite !list_lookup_insert_ne by lia. done.
  - destruct (decide (id' = id)) as [->|Hne]; [lia|done].
Qed.

Lemma bump_get (self self' : t) (id : ResourceId) (l : Liveness) :
  wf self -> 0 <= id -> bump_generation self id l = Done self' ->
  wf self' /\ forall id', 0 <= id' ->
    get_record self' id' = if decide (id' = id) then bump_record l <$> get_record self id
                           else get_record self id'.
Proof.
  intros Hwf Hid0. pose proof Hwf as [Hr Hp Ho Hl Hids].
  unfold bump_generation, get_record.
  destruct (id <? DIRECT_CAP) eqn:Ed; to_prop.
  - destruct (present self !! Z.to_nat id) as [[]|] eqn:Ep;
      [destruct (records self !! Z.to_nat id) as [r|] eqn:Er|..];
      [|intros [= <-]; split; [done|]; intros id' _; destruct (decide (id' = id)) as [->|];
        [replace (id <? DIRECT_CAP) with true by (symmetry; by apply Z.ltb_lt);
         by rewrite Ep, ?Er|done]..].
    intros (g & [-> Hg]%bump_spec & [= <-])%bind_Done. split.
    { split; simpl; autorewrite with gs; done. }
    intros id' Hid'. simpl. destruct (decide (id' = id)) as [->|Hne].
    + replace (id <? DIRECT_CAP) with true by (symmetry; by apply Z.ltb_lt).
      by rewrite Ep, list_lookup_insert_eq by lia.
    + by rewrite list_lookup_insert_ne by lia.
  - destruct (overflow_find self id) as [i|] eqn:Ef.
    2: { intros [= <-]. split; [done|]. intros id' _. destruct (decide (id' = id)) as [->|]; [|done].
         replace (id <? DIRECT_CAP) with false by (symmetry; by apply Z.ltb_ge).
         by rewrite Ef. }
    pose proof (overflow_find_spec _ _ _ Ef) as (Hlt & r & Hi & _). rewrite Hi.
    intros (g & [-> Hg]%bump_spec & [= <-])%bind_Done. split.
    { split; simpl; autorewrite with gs; try done.
      intros j e Hj [[-> ->]|[? ?]]%lookup_insert_cases; simpl; eauto. }
    intros id' Hid'. rewrite (overflow_find_update self id id' i r) by done. simpl.
    destruct (decide (id' = id)) as [->|Hne].
    + replace (id <? DIRECT_CAP) with false by (symmetry; by apply Z.ltb_ge).
      rewrite Ef. simpl. rewrite Hi, list_lookup_insert_eq by lia. done.
    + destruct (id' <? DIRECT_CAP); [done|].
      destruct (overflow_find self id') as [j|] eqn:Ej; [|done]. simpl.
      apply overflow_find_spec in Ej as (_ & r' & Hj & _).
      assert (i <> j) by (intros ->; congruence).
      by rewrite list_lookup_insert_ne by done.
Qed.

Lemma bump_panics (self : t) (id : ResourceId) (l : Liveness) :
  wf self -> 0 <= id ->
  (bump_generation self id l = Panic <->
   exists r, get_record self id = Some r /\ u32_max <= rec_generation r).
Proof.
  intros _ _. unfold bump_generation, get_record.
  assert (forall (r : ResourceRecord) (k : Generation -> t),
    (g ← Generation.bump (rec_generation r); Done (k g)) = Panic <->
    u32_max <= rec_generation r) as Hb.
  { intros r k. unfold Generation.bump, checked_add32, u32_max.
    destruct (rec_generation r + 1 <=? 4294967295) eqn:E; to_prop; simpl; naive_solver lia. }
  destruct (id <? DIRECT_CAP).
  - destruct (present self !! Z.to_nat id) as [[]|]; try naive_solver.
    destruct (records self !! Z.to_nat id) as [r|]; [|naive_solver].
    rewrite Hb. naive_solver.
  - destruct (overflow_find self id) as [i|]; simpl; [|naive_solver].
    destruct (overflow self !! i) as [[rid r]|]; simpl; [|naive_solver].
    rewrite Hb. naive_solver.
Qed.

End GRTFacts.

#[export] Instance grt_ops : RegistryOps GRT := {
  reg_get := GlobalResourceTable.get_record;
  reg_register_at := GlobalResourceTable.register_at_gen;
  reg_bump := GlobalResourceTable.bump_generation;
  reg_wf := GlobalResourceTable.wf
}.

#[export] Instance grt_registry : ResourceRegistry GRT.
Proof.
  split; simpl.
  - apply GRTFacts.register_get.
  - intros s id g [? Hd]. unfold GlobalResourceTable.register_at_gen.
    by replace (id <? DIRECT_CAP) with true by (symmetry; by apply Z.ltb_lt).
  - apply GRTFacts.bump_get.
  - apply GRTFacts.bump_panics.
Qed.

(** ** Lifetimes

    A history of registry operations under the guard every caller keeps: a
    re-registration never lowers the generation of the record it replaces. *)

Section Lifetimes.
Context {R : Type} `{ResourceRegistry R}.

Inductive reg_step : R -> R -> Prop :=
| reg_step_register s s' id g :
    direct_id id ->
    (forall r, reg_get s id = Some r -> rec_generation r <= g) ->
    reg_register_at s id g = Done s' -> reg_step s s'
| reg_step_bump s s' id l :
    0 <= id -> reg_bump s id l = Done s' -> reg_step s s'.

(** [c] is behind its resource: the record exists and has moved on. *)
Definition stale (s : R) (c : Capability) : Prop :=
  exists r, reg_get s (resource_id c) = Some r /\ generation c < rec_generation r.

(** [c] does not come from the future of its resource. *)
Definition not_ahead (s : R) (c : Capability) : Prop :=
  exists r, reg_get s (resource_id c) = Some r /\ generation c <= rec_generation r.

Lemma reg_step_mono (s s' : R) (id : ResourceId) (r : ResourceRecord) :
  reg_step s s' -> reg_wf s -> 0 <= id -> reg_get s id = Some r ->
  reg_wf s' /\ exists r', reg_get s' id = Some r' /\
                          rec_generation r <= rec_generation r'.
Proof.
  intros [? ? i g Hd Hle Hreg|? ? i l Hi Hb] Hwf Hid Hr.
  - destruct (reg_register_get _ _ _ _ Hwf Hd Hreg) as [Hwf' Hget].
    split; [done|]. rewrite Hget by done. case_decide; subst; [|eauto with lia].
    eexists; split; [done|]. simpl. by apply Hle.
  - destruct (reg_bump_get _ _ _ _ Hwf Hi Hb) as [Hwf' Hget].
    split; [done|]. rewrite Hget by done. case_decide; subst; [|eauto with lia].
    rewrite Hr. eexists; split; [done|]. simpl. lia.
Qed.

Lemma reg_steps_mono (s s' : R) (id : ResourceId) (r : ResourceRecord) :
  rtc reg_step s s' -> reg_wf s -> 0 <= id -> reg_get s id = Some r ->
  reg_wf s' /\ exists r', reg_get s' id = Some r' /\
                          rec_generation r <= rec_generation r'.
Proof.
  intros Hs Hwf Hid. revert r. induction Hs as [|s1 s2 s3 H1 _ IH]; intros r Hr.
  - eauto with lia.
  - destruct (reg_step_mono _ _ _ _ H1 Hwf Hid Hr) as [Hwf2 (r2 & Hr2 & ?)].
    destruct (IH Hwf2 _ Hr2) as [? (r3 & ? & ?)]. split; [done|]. exists r3.
    split; [done|lia].
Qed.

Lemma stale_stable (s s' : R) (c : Capability) :
  rtc reg_step s s' -> reg_wf s -> 0 <= resource_id c -> stale s c -> stale s' c.
Proof.
  intros Hs Hwf Hid (r & Hr & Hlt).
  destruct (reg_steps_mono _ _ _ _ Hs Hwf Hid Hr) as [_ (r' & Hr' & ?)].
  exists r'. split; [done|lia].
Qed.

Lemma not_ahead_stable (s s' : R) (c : Capability) :
  rtc reg_step s s' -> reg_wf s -> 0 <= resource_id c ->
  not_ahead s c -> not_ahead s' c.
Proof.
  intros Hs Hwf Hid (r & Hr & Hlt).
  destruct (reg_steps_mono _ _ _ _ Hs Hwf Hid Hr) as [_ (r' & Hr' & ?)].
  exists r'. split; [done|lia].
Qed.

Lemma bump_makes_stale (s s' : R) (c : Capability) (l : Liveness) :
  reg_wf s -> 0 <= resource_id c -> not_ahead s c ->
  reg_bump s (resource_id c) l = Done s' -> stale s' c.
Proof.
  intros Hwf Hid (r & Hr & Hle) Hb.
  destruct (reg_bump_get _ _ _ _ Hwf Hid Hb) as [_ Hget].
  specialize (Hget (resource_id c) Hid). rewrite decide_True, Hr in Hget by done.
  eexists; split; [exact Hget|]. simpl. lia.
Qed.

End Lifetimes.

(** ** The capability table *)

Lemma held_Some (tbl : CapTable) (slot : nat) (c : Capability) :
  CapTable.held tbl slot = Some c <-> tbl !! slot = Some (Some c).
Proof. unfold CapTable.held. destruct (tbl !! slot) as [[?|]|]; naive_solver. Qed.

(** [get] on every branch. *)
Inductive get_outcome (R : GRT) (tbl : CapTable) (slot : nat) (r : Rights)
    : result Capability CapError -> Prop :=
| get_empty : CapTable.held tbl slot = None ->
    get_outcome R tbl slot r (Err CapNotHeld)
| get_unregistered c : CapTable.held tbl slot = Some c ->
    reg_get R (resource_id c) = None ->
    get_outcome R tbl slot r (Err CapNotHeld)
| get_stale c rec : CapTable.held tbl slot = Some c ->
    reg_get R (resource_id c) = Some rec -> generation c <> rec_generation rec ->
    get_outcome R tbl slot r
      (Err (if decide (rec_liveness rec = Dead) then EndpointDead else CapRevoked))
| get_no_right c rec : CapTable.held tbl slot = Some c ->
    reg_get R (resource_id c) = Some rec -> generation c = rec_generation rec ->
    ~ rights_le r (rights c) ->
    get_outcome R tbl slot r (Err CapInsufficientRights)
| get_granted c rec : CapTable.held tbl slot = Some c ->
    reg_get R (resource_id c) = Some rec -> generation c = rec_generation rec ->
    rights_le r (rights c) ->
    get_outcome R tbl slot r (Ok c).

Lemma get_sound (R : GRT) (tbl : CapTable) (slot : nat) (r : Rights) :
  get_outcome R tbl slot r (CapTable.get R tbl slot r).
Proof.
  unfold CapTable.get.
  destruct (CapTable.held tbl slot) as [c|] eqn:Hh; [|by apply get_empty].
  destruct (GlobalResourceTable.get_record R (resource_id c)) as [rec|] eqn:Hr;
    [|by eapply get_unregistered].
  unfold Generation.matches.
  destruct (generation c =? rec_generation rec) eqn:Eg; to_prop; simpl.
  - destruct (Rights.contains (rights c) r) eqn:Ec; simpl.
    + by eapply get_granted.
    + eapply get_no_right; try done. unfold rights_le. congruence.
  - pose proof (get_stale R tbl slot r c rec Hh Hr Eg) as Hs.
    destruct (rec_liveness rec); exact Hs.
Qed.

Lemma get_deterministic (R : GRT) (tbl : CapTable) (slot : nat) (r : Rights) res :
  get_outcome R tbl slot r res -> CapTable.get R tbl slot r = res.
Proof.
  intros H. pose proof (get_sound R tbl slot r) as H'.
  destruct H; inversion H'; simplify_eq/=; congruence.
Qed.

Lemma get_Ok (R : GRT) (tbl : CapTable) (slot : nat) (r : Rights) (c : Capability) :
  CapTable.get R tbl slot r = Ok c <->
  CapTable.held tbl slot = Some c /\ rights_le r (rights c) /\
  exists rec, reg_get R (resource_id c) = Some rec /\ rec_generation rec = generation c.
Proof.
  split.
  - intros Hg. pose proof (get_sound R tbl slot r) as H. rewrite Hg in H.
    inversion H; simplify_eq. split_and!; eauto.
  - intros (? & ? & rec & ? & ?). apply get_deterministic. by eapply get_granted.
Qed.

Lemma stale_refused (R : GRT) (tbl : CapTable) (slot : nat) (r : Rights) (c : Capability) :
  CapTable.held tbl slot = Some c -> stale R c ->
  CapTable.get R tbl slot r = Err EndpointDead \/
  CapTable.get R tbl slot r = Err CapRevoked.
Proof.
  intros Hh (rec & Hr & Hlt).
  rewrite (get_deterministic _ _ _ _ _ (get_stale R tbl slot r c rec Hh Hr ltac:(lia))).
  case_decide; auto.
Qed.

Lemma insert_Ok (tbl tbl' : CapTable) (c : Capability) (i : nat) :
  CapTable.insert tbl c = (tbl', Ok i) <->
  tbl' = <[i := Some c]> tbl /\ tbl !! i = Some None /\
  forall j, (j < i)%nat -> exists d, tbl !! j = Some (Some d).
Proof.
  unfold CapTable.insert. split.
  - destruct (position CapTable.is_free tbl) as [k|] eqn:E; [|done].
    intros [= <- <-]. split; [done|].
    apply position_Some in E as [(x & Hx & Hf) Hj].
    destruct x; [done|]. split; [done|]. intros j Hlt.
    destruct (lookup_lt_is_Some_2 tbl j) as [[d|] Hd].
    + apply lookup_lt_Some in Hx. lia.
    + eauto.
    + by specialize (Hj _ _ Hlt Hd).
  - intros (-> & Hi & Hj).
    replace (position CapTable.is_free tbl) with (Some i); [done|]. symmetry.
    apply position_Some. split; [by eexists|].
    intros j y Hlt Hy. destruct (Hj j Hlt) as [d Hd]. by simplify_eq.
Qed.

Lemma insert_Err (tbl tbl' : CapTable) (c : Capability) (e : CapError) :
  CapTable.insert tbl c = (tbl', Err e) <->
  tbl' = tbl /\ e = CapNotHeld /\ forall i s, tbl !! i = Some s -> is_Some s.
Proof.
  unfold CapTable.insert. split.
  - destruct (position CapTable.is_free tbl) as [k|] eqn:E; [done|].
    intros [= <- <-]. split_and!; [done..|].
    rewrite position_None in E. intros i s Hs. specialize (E i s Hs). by destruct s.
  - intros (-> & -> & Hf).
    replace (position CapTable.is_free tbl) with (@None nat); [done|]. symmetry.
    apply position_None. intros i x Hx. by destruct (Hf i x Hx) as [? ->].
Qed.

Lemma insert_wf (tbl : CapTable) (c : Capability) :
  CapTable.wf tbl -> CapTable.wf (CapTable.insert tbl c).1.
Proof.
  unfold CapTable.wf, CapTable.insert. intros. case_match; simpl; by autorewrite with gs.
Qed.

Lemma remove_wf (tbl : CapTable) (slot : nat) :
  CapTable.wf tbl -> CapTable.wf (CapTable.remove tbl slot).1.
Proof.
  unfold CapTable.wf, CapTable.remove. intros. case_match; simpl; by autorewrite with gs.
Qed.

Lemma remove_held (tbl : CapTable) (slot j : nat) :
  CapTable.held (CapTable.remove tbl slot).1 j =
  if decide (j = slot) then None else CapTable.held tbl j.
Proof.
  unfold CapTable.remove, CapTable.held. destruct (tbl !! slot) as [s|] eqn:E; simpl.
  - case_decide; subst.
    + rewrite list_lookup_insert_eq; [done|]. by eapply lookup_lt_Some.
    + by rewrite list_lookup_insert_ne by done.
  - case_decide; subst; [|done]. by rewrite E.
Qed.

Lemma elem_for_each_slot (tbl : CapTable) (c : Capability) :
  c ∈ CapTable.for_each_slot tbl <-> exists slot, CapTable.held tbl slot = Some c.
Proof.
  unfold CapTable.for_each_slot. rewrite list_elem_of_omap. split.
  - intros (s & [slot Hs]%list_elem_of_lookup & Hc). exists slot.
    simpl in Hc. apply held_Some. by rewrite Hs, Hc.
  - intros [slot Hs%held_Some]. exists (Some c). split; [|done].
    by eapply list_elem_of_lookup_2.
Qed.

Lemma holds_resource_spec (tbl : CapTable) (rid : ResourceId) (r : Rights) :
  CapTable.holds_resource tbl rid r = true <->
  exists slot c, CapTable.held tbl slot = Some c /\ resource_id c = rid /\
                 rights_le r (rights c).
Proof.
  unfold CapTable.holds_resource. rewrite existsb_exists. split.
  - intros ([c|] & Hin & Hc); [|done]. to_prop.
    apply list_elem_of_In, list_elem_of_lookup in Hin as [slot Hs].
    exists slot, c. rewrite held_Some. by split_and!.
  - intros (slot & c & Hs%held_Some & <- & Hle). exists (Some c). split.
    + apply list_elem_of_In. by eapply list_elem_of_lookup_2.
    + by rewrite Z.eqb_refl.
Qed.

#[export] Hint Resolve insert_wf remove_wf : gs.

(** ** Properties *)

Lemma grt_op_refines (R : GRT) (m : gmap Z ResourceRecord) (o : reg_op) :
  grt_abs R m -> direct_id (op_id o) ->
  outcome_rel grt_abs (grt_op R o) (spec_op m o).
Proof.
  intros [Hwf Habs] Hd.
  assert (forall id l, direct_id id ->
    outcome_rel grt_abs (GlobalResourceTable.bump_generation R id l) (spec_bump m id l)) as Hbump.
  { intros id l [Hid0 Hid]. unfold spec_bump.
    pose proof (GRTFacts.bump_panics R id l Hwf Hid0) as Hp. rewrite (Habs id Hid0) in Hp.
    destruct (GlobalResourceTable.bump_generation R id l) as [R'|] eqn:E.
    - destruct (GRTFacts.bump_get _ _ _ _ Hwf Hid0 E) as [Hwf' Hget].
      rewrite (Habs id Hid0) in Hget. destruct (m !! id) as [r|] eqn:Er; simpl.
      + destruct (rec_generation r + 1 <=? u32_max) eqn:El; to_prop.
        * split; [done|]. intros id' Hid'. rewrite Hget by done.
          case_decide; subst; [by rewrite lookup_insert_eq|].
          rewrite lookup_insert_ne by congruence. by apply Habs.
        * assert (Done R' = Panic) as [=]. apply Hp. exists r. split; [done|lia].
      + split; [done|]. intros id' Hid'. rewrite Hget by done.
        case_decide; subst; [by rewrite Er|by apply Habs].
    - destruct (proj1 Hp eq_refl) as (r & -> & Hle).
      by replace (rec_generation r + 1 <=? u32_max) with false
        by (symmetry; apply Z.leb_gt; lia). }
  destruct o as [id g|id|id]; simpl in *; [|by apply Hbump..].
  unfold register_resource_at_gen.
  destruct (GlobalResourceTable.register_at_gen R id g) as [R'|] eqn:E.
  - destruct (GRTFacts.register_get _ _ _ _ Hwf Hd E) as [Hwf' Hget].
    split; [done|]. intros id' Hid'. rewrite Hget by done.
    case_decide; subst; [by rewrite lookup_insert_eq|].
    rewrite lookup_insert_ne by congruence. by apply Habs.
  - by apply (reg_register_total R id g Hd).
Qed.

Lemma run_ops_Panic {S O} (step : S -> O -> outcome S) (ops : list O) :
  foldl (fun s o => s ≫= fun s => step s o) Panic ops = Panic.
Proof. by induction ops. Qed.



(** [CapTable::get] on every branch.  The five cases of [get_outcome]
    (empty slot, unregistered resource, generation mismatch reported by
    liveness, missing right, granted) are exhaustive and each determines the
    result; in particular a stale capability is reported stale even when it
    also lacks the right. *)
Theorem get_characterised (R : GRT) (tbl : CapTable) (slot : nat) (r : Rights)
    (res : result Capability CapError) :
  CapTable.get R tbl slot r = res <-> get_outcome R tbl slot r res.
Proof.
  split.
  - intros <-. apply get_sound.
  - apply get_deterministic.
Qed.

(** Minting, inserting and looking up round-trips.  A capability minted
    for a registered resource and inserted into a table that has room is
    found in a slot that was free, grants exactly the minted rights, and every
    other slot answers as before. *)
Theorem mint_insert_get (R : GRT) (tbl tbl' : CapTable) (id : ResourceId)
    (rs : Rights) (c : Capability) (i : nat) :
  mint_cap R id rs = Done c -> CapTable.insert tbl c = (tbl', Ok i) ->
  CapTable.held tbl i = None /\
  (forall r, rights_le r rs -> CapTable.get R tbl' i r = Ok c) /\
  (forall r, ~ rights_le r rs -> CapTable.get R tbl' i r = Err CapInsufficientRights) /\
  (forall j r, j <> i -> CapTable.get R tbl' j r = CapTable.get R tbl j r).
Proof.
  unfold mint_cap. destruct (GlobalResourceTable.get_record R id) as [rec|] eqn:Hr; [|done].
  intros [= <-] (-> & Hfree & _)%insert_Ok.
  assert (CapTable.held (<[i := Some (mkCapability id rs (rec_generation rec))]> tbl) i =
          Some (mkCapability id rs (rec_generation rec))) as Hh.
  { apply held_Some, list_lookup_insert_eq. by eapply lookup_lt_Some. }
  split_and!.
  - unfold CapTable.held. by rewrite Hfree.
  - intros r Hle. apply get_deterministic. by eapply get_granted.
  - intros r Hnle. apply get_deterministic. by eapply get_no_right.
  - intros j r Hne. unfold CapTable.get, CapTable.held.
    by rewrite list_lookup_insert_ne by done.
Qed.

(** Registering an id of the overflow range that already has an entry
    appends a second one, which every lookup misses: the record stays the old
    one, so the new registration has no effect on validation. *)
Theorem overflow_reregistration_shadowed (R R' : GRT) (id : ResourceId)
    (g : Generation) (r : ResourceRecord) :
  DIRECT_CAP <= id -> GlobalResourceTable.get_record R id = Some r ->
  register_resource_at_gen R id g = Done R' ->
  GlobalResourceTable.get_record R' id = Some r.
Proof.
  intros Hid Hr. unfold register_resource_at_gen, GlobalResourceTable.register_at_gen.
  assert (id <? DIRECT_CAP = false) as E by (by apply Z.ltb_ge). rewrite E.
  unfold GlobalResourceTable.get_record in *. rewrite E in *.
  case_match; [|done]. intros [= <-].
  apply bind_Some in Hr as (i & Hi & (e & He & [= Her])%bind_Some).
  pose proof (GRTFacts.overflow_find_spec _ _ _ Hi) as (Hlt & r' & Hl & Hbefore).
  assert (GlobalResourceTable.overflow_find (GlobalResourceTable.mk
    (GlobalResourceTable.records R) (GlobalResourceTable.present R)
    (<[GlobalResourceTable.overflow_len R := (id, mkResourceRecord g Alive)]>
       (GlobalResourceTable.overflow R)) (S (GlobalResourceTable.overflow_len R))) id = Some i) as ->.
  { unfold GlobalResourceTable.overflow_find; simpl. apply position_Some. split.
    - exists (id, r'). rewrite lookup_take_lt, list_lookup_insert_ne by lia.
      split; [done|]. apply Z.eqb_refl.
    - intros j y Hj. rewrite lookup_take_lt, list_lookup_insert_ne by lia.
      intros Hy. apply Z.eqb_neq. by eapply Hbefore. }
  simpl. rewrite list_lookup_insert_ne by lia. rewrite He. simpl. by rewrite Her.
Qed.

(** ** Witnesses *)

(** One endpoint resource, id 100, alive at generation 1. *)
Definition sample_registry : GRT :=
  GlobalResourceTable.mk
    (<[100%nat := mkResourceRecord 1 Alive]> (GlobalResourceTable.records GlobalResourceTable.new))
    (<[100%nat := true]> (GlobalResourceTable.present GlobalResourceTable.new))
    (GlobalResourceTable.overflow GlobalResourceTable.new) 0.

Lemma sample_registry_registered :
  GlobalResourceTable.register_at_gen GlobalResourceTable.new 100 1 = Done sample_registry.
Proof. reflexivity. Qed.

Lemma sample_registry_wf : GlobalResourceTable.wf sample_registry.
Proof.
  eapply GRTFacts.register_get; [apply GRTFacts.new_wf| |apply sample_registry_registered].
  unfold direct_id, DIRECT_CAP; lia.
Qed.

Lemma sample_registry_get :
  GlobalResourceTable.get_record sample_registry 100 = Some (mkResourceRecord 1 Alive).
Proof. reflexivity. Qed.

Definition sample_cap : Capability := mkCapability 100 Rights.SEND 1.
Definition sample_table : CapTable := (CapTable.insert CapTable.empty sample_cap).1.



Lemma mint_insert_get_witness :
  CapTable.get sample_registry sample_table 0 Rights.SEND = Ok sample_cap.
Proof.
  eapply (mint_insert_get sample_registry CapTable.empty sample_table 100 Rights.SEND
            sample_cap 0); reflexivity.
Defined.

(** A registry whose overflow range already holds id 57005. *)
Definition sample_overflow : GRT :=
  GlobalResourceTable.mk
    (GlobalResourceTable.records GlobalResourceTable.new)
    (GlobalResourceTable.present GlobalResourceTable.new)
    (<[0%nat := (57005, mkResourceRecord 0 Alive)]>
       (GlobalResourceTable.overflow GlobalResourceTable.new)) 1.

Lemma overflow_reregistration_shadowed_witness :
  exists R', register_resource_at_gen sample_overflow 57005 7 = Done R' /\
    GlobalResourceTable.get_record R' 57005 = Some (mkResourceRecord 0 Alive).
Proof.
  eexists. split; [reflexivity|].
  eapply (overflow_reregistration_shadowed sample_overflow _ 57005 7).
  - unfold DIRECT_CAP; lia.
  - reflexivity.
  - reflexivity.
Defined.
