(* ===== verification/Delegated.v ===== *)
(** * Delegated resources

    [kernel/src/capability/delegated.rs]: the band of resource ids whose
    meaning a service defines, the owner table, and allocation, revocation and
    reclamation.  The band is proved against the registry interface
    [ResourceRegistry]; nothing here depends on the registry's layout. *)

From S2P Require Import Prelude Capability CapTable.

Definition DELEGATED_BASE : Z := 4096.
Definition DELEGATED_CAP : nat := 2048.

(** The owning endpoint, as its raw [u64]. *)
Notation OwnerId := Z (only parsing).

Module Band.

Record t := mk {
  owner : list (option OwnerId);
  next : nat
}.

Definition new : t := mk (replicate DELEGATED_CAP None) 0.

Definition owner_at (self : t) (slot : nat) : option OwnerId :=
  mjoin (owner self !! slot).

Definition is_owner (self : t) (slot : nat) (who : OwnerId) : bool :=
  bool_decide (owner_at self slot = Some who).

(** The circular scan from the cursor. *)
Definition claim (self : t) (who : OwnerId) : t * option nat :=
  match position (fun off => bool_decide
                    (owner_at self ((next self + off) mod DELEGATED_CAP) = None))
                 (seq 0 DELEGATED_CAP) with
  | Some off =>
      let i := ((next self + off) mod DELEGATED_CAP)%nat in
      (mk (<[i := Some who]> (owner self)) ((i + 1) mod DELEGATED_CAP), Some i)
  | None => (self, None)
  end.

Definition free (self : t) (slot : nat) : t :=
  mk (<[slot := None]> (owner self)) (next self).

Definition take_one_owned (self : t) (who : OwnerId) : t * option nat :=
  match position (fun o => bool_decide (o = Some who)) (owner self) with
  | Some i => (mk (<[i := None]> (owner self)) (next self), Some i)
  | None => (self, None)
  end.

Record wf (self : t) : Prop := mk_wf {
  wf_owner : length (owner self) = DELEGATED_CAP;
  wf_next : (next self < DELEGATED_CAP)%nat
}.

End Band.

Definition is_delegated (id : ResourceId) : bool :=
  (DELEGATED_BASE <=? id) && (id <? DELEGATED_BASE + Z.of_nat DELEGATED_CAP).

Definition slot_of (id : ResourceId) : nat := Z.to_nat (id - DELEGATED_BASE).
Definition id_of (slot : nat) : ResourceId := DELEGATED_BASE + Z.of_nat slot.

(** The state the band's public functions work on: the global registry and
    the band, each behind its own lock in the source. *)
Record delegated (R : Type) := mkDelegated {
  registry : R;
  band : Band.t
}.
Arguments mkDelegated {R} _ _.
Arguments registry {R} _.
Arguments band {R} _.

Section Operations.
Context {R : Type} `{RegistryOps R}.

Definition allocate (d : delegated R) (owner : OwnerId)
    : outcome (delegated R * option ResourceId) :=
  match Band.claim (band d) owner with
  | (_, None) => Done (d, None)
  | (b, Some slot) =>
      let id := id_of slot in
      reg ← match rec_generation <$> reg_get (registry d) id with
            | Some g => g' ← Generation.bump g; reg_register_at (registry d) id g'
            | None => reg_register_at (registry d) id Generation.INITIAL
            end;
      Done (mkDelegated reg b, Some id)
  end.

Definition owner_of (d : delegated R) (id : ResourceId) : option OwnerId :=
  if negb (is_delegated id) then None else Band.owner_at (band d) (slot_of id).

Definition release (d : delegated R) (id : ResourceId) : delegated R :=
  if is_delegated id then mkDelegated (registry d) (Band.free (band d) (slot_of id)) else d.

Definition revoke_owned (d : delegated R) (id : ResourceId) (caller : OwnerId)
    : outcome (delegated R * bool) :=
  if negb (is_delegated id) then Done (d, false)
  else if negb (Band.is_owner (band d) (slot_of id) caller) then Done (d, false)
  else
    reg ← reg_bump (registry d) id Revoked;
    Done (mkDelegated reg (Band.free (band d) (slot_of id)), true).

(** The reclaim loop; [None] means the fuel ran out. *)
Fixpoint release_owner_loop (fuel : nat) (d : delegated R) (owner : OwnerId) (freed : Z)
    : option (outcome (delegated R * Z)) :=
  match fuel with
  | O => None
  | S fuel =>
      match Band.take_one_owned (band d) owner with
      | (b, Some slot) =>
          match reg_bump (registry d) (id_of slot) Dead with
          | Done reg => release_owner_loop fuel (mkDelegated reg b) owner (freed + 1)
          | Panic => Some Panic
          end
      | (_, None) => Some (Done (d, freed))
      end
  end.

(** One iteration per slot and one to find none left. *)
Definition release_owner (d : delegated R) (owner : OwnerId)
    : option (outcome (delegated R * Z)) :=
  release_owner_loop (S DELEGATED_CAP) d owner 0.

Definition delegated_wf (d : delegated R) : Prop :=
  reg_wf (registry d) /\ Band.wf (band d).

(** The number of slots [who] owns. *)
Definition owned (d : delegated R) (who : OwnerId) : nat :=
  count (fun o => bool_decide (o = Some who)) (Band.owner (band d)).

End Operations.

(** ** The band *)

Lemma is_delegated_spec (id : ResourceId) :
  is_delegated id = true <-> DELEGATED_BASE <= id < DELEGATED_BASE + Z.of_nat DELEGATED_CAP.
Proof. unfold is_delegated. rewrite andb_true_iff, Z.leb_le, Z.ltb_lt. done. Qed.

Lemma id_of_delegated (slot : nat) :
  (slot < DELEGATED_CAP)%nat -> is_delegated (id_of slot) = true.
Proof. intros. apply is_delegated_spec. unfold id_of. lia. Qed.

Lemma slot_of_id_of (slot : nat) : slot_of (id_of slot) = slot.
Proof. unfold slot_of, id_of. lia. Qed.

Lemma id_of_slot_of (id : ResourceId) : is_delegated id = true -> id_of (slot_of id) = id.
Proof. intros H%is_delegated_spec. unfold slot_of, id_of. lia. Qed.

Lemma id_of_direct (slot : nat) : (slot < DELEGATED_CAP)%nat -> direct_id (id_of slot).
Proof. unfold direct_id, id_of, DELEGATED_BASE, DIRECT_CAP, DELEGATED_CAP. lia. Qed.

Lemma id_of_nonneg (slot : nat) : 0 <= id_of slot.
Proof. unfold id_of, DELEGATED_BASE. lia. Qed.

Lemma slot_of_lt (id : ResourceId) : is_delegated id = true -> (slot_of id < DELEGATED_CAP)%nat.
Proof. intros H%is_delegated_spec. unfold slot_of. lia. Qed.

Module BandFacts.
Import Band.

Lemma owner_at_insert (b : t) (i j : nat) (o : option OwnerId) (n : nat) :
  (i < length (owner b))%nat ->
  owner_at (mk (<[i := o]> (owner b)) n) j = if decide (j = i) then o else owner_at b j.
Proof.
  intros Hi. unfold owner_at; simpl. case_decide; subst.
  - by rewrite list_lookup_insert_eq.
  - by rewrite list_lookup_insert_ne by done.
Qed.

Lemma circular_offset (n i : nat) :
  (n < DELEGATED_CAP)%nat -> (i < DELEGATED_CAP)%nat ->
  exists off, (off < DELEGATED_CAP)%nat /\ ((n + off) mod DELEGATED_CAP = i)%nat.
Proof.
  intros Hn Hi. destruct (decide (n <= i)%nat).
  - exists (i - n)%nat. split; [lia|]. replace (n + (i - n))%nat with i by lia.
    by apply Nat.mod_small.
  - exists (DELEGATED_CAP - n + i)%nat. split; [lia|].
    replace (n + (DELEGATED_CAP - n + i))%nat with (i + 1 * DELEGATED_CAP)%nat by lia.
    rewrite Nat.Div0.mod_add. by apply Nat.mod_small.
Qed.

Lemma claim_Some (b b' : t) (who : OwnerId) (i : nat) :
  wf b -> claim b who = (b', Some i) ->
  (i < DELEGATED_CAP)%nat /\ wf b' /\ owner_at b i = None /\
  forall j, owner_at b' j = if decide (j = i) then Some who else owner_at b j.
Proof.
  intros [Hlen Hnext]. unfold claim. case_match eqn:E; [|done].
  intros [= <- <-]. set (k := ((next b + n) mod DELEGATED_CAP)%nat).
  assert (k < DELEGATED_CAP)%nat as Hk by (apply Nat.mod_upper_bound; done).
  apply position_hit in E as (off & Hoff & Hfree).
  apply lookup_seq in Hoff as [-> _]. apply bool_decide_eq_true in Hfree.
  split_and!; [done| |done|].
  - split; cbn [owner next]; [by autorewrite with gs|]. by apply Nat.mod_upper_bound.
  - intros j. by apply owner_at_insert; lia.
Qed.

Lemma claim_None (b b' : t) (who : OwnerId) :
  wf b -> claim b who = (b', None) ->
  b' = b /\ forall i, (i < DELEGATED_CAP)%nat -> owner_at b i <> None.
Proof.
  intros [Hlen Hnext]. unfold claim. case_match eqn:E; [done|].
  intros [= <-]. split; [done|]. intros i Hi.
  destruct (circular_offset (next b) i) as (off & Hoff & <-); [done..|].
  rewrite position_None in E.
  specialize (E off off). rewrite lookup_seq_lt in E by done.
  specialize (E eq_refl). by apply bool_decide_eq_false in E.
Qed.

Lemma take_Some (b b' : t) (who : OwnerId) (i : nat) :
  wf b -> take_one_owned b who = (b', Some i) ->
  (i < DELEGATED_CAP)%nat /\ wf b' /\ owner b !! i = Some (Some who) /\
  b' = mk (<[i := None]> (owner b)) (next b).
Proof.
  intros [Hlen Hnext]. unfold take_one_owned. case_match eqn:E; [|done].
  intros [= <- <-]. apply position_hit in E as (x & Hx & ->%bool_decide_eq_true).
  split_and!; [|split; simpl; by autorewrite with gs|done|done].
  apply lookup_lt_Some in Hx. lia.
Qed.

Lemma take_None (b b' : t) (who : OwnerId) :
  take_one_owned b who = (b', None) ->
  b' = b /\ forall i, owner_at b i <> Some who.
Proof.
  unfold take_one_owned. case_match eqn:E; [done|]. intros [= <-]. split; [done|].
  rewrite position_None in E. intros i Hi. unfold owner_at in Hi.
  destruct (owner b !! i) as [o|] eqn:Ho; [|done]. simpl in Hi. subst.
  specialize (E i _ Ho). by apply bool_decide_eq_false in E.
Qed.

Lemma owner_at_lt (b : t) (i : nat) (who : OwnerId) :
  wf b -> owner_at b i = Some who -> (i < DELEGATED_CAP)%nat.
Proof.
  intros [Hlen _]. unfold owner_at. destruct (owner b !! i) eqn:E; [|done].
  intros _. apply lookup_lt_Some in E. lia.
Qed.

End BandFacts.

(** ** The operations, against the registry interface *)

Section Facts.
Context {R : Type} `{ResourceRegistry R}.
Implicit Types d : delegated R.

Lemma owner_of_id_of d (i : nat) :
  (i < DELEGATED_CAP)%nat -> owner_of d (id_of i) = Band.owner_at (band d) i.
Proof.
  intros Hi. unfold owner_of. by rewrite id_of_delegated, slot_of_id_of.
Qed.

Lemma allocate_Some d d' (who : OwnerId) (id : ResourceId) :
  delegated_wf d -> allocate d who = Done (d', Some id) ->
  delegated_wf d' /\ is_delegated id = true /\ owner_of d id = None /\
  (forall id', owner_of d' id' = if decide (id' = id) then Some who else owner_of d id') /\
  (forall id', 0 <= id' -> id' <> id -> reg_get (registry d') id' = reg_get (registry d) id') /\
  exists g, reg_get (registry d') id = Some (mkResourceRecord g Alive) /\
    (forall r, reg_get (registry d) id = Some r -> g = rec_generation r + 1) /\
    (reg_get (registry d) id = None -> g = 0).
Proof.
  intros [Hrwf Hbwf]. unfold allocate.
  destruct (Band.claim (band d) who) as [b [i|]] eqn:Ec; [|done].
  destruct (BandFacts.claim_Some _ _ _ _ Hbwf Ec) as (Hi & Hbwf' & Hfree & Hown).
  intros (reg & Hreg & [= <- <-])%bind_Done.
  assert (exists g, reg_register_at (registry d) (id_of i) g = Done reg /\
    (forall r, reg_get (registry d) (id_of i) = Some r -> g = rec_generation r + 1) /\
    (reg_get (registry d) (id_of i) = None -> g = 0)) as (g & Hg & Hsome & Hnone).
  { destruct (reg_get (registry d) (id_of i)) as [r|] eqn:Er; simpl in Hreg.
    - apply bind_Done in Hreg as (g & [-> _]%bump_spec & Hreg).
      eexists; split_and!; [done| |done]. naive_solver.
    - eexists; split_and!; [done..|]. done. }
  destruct (reg_register_get _ _ _ _ Hrwf (id_of_direct i Hi) Hg) as [Hrwf' Hget].
  split_and!.
  - done.
  - by apply id_of_delegated.
  - by rewrite owner_of_id_of.
  - intros id'. unfold owner_of; simpl. destruct (is_delegated id') eqn:Ed; simpl.
    + rewrite Hown. pose proof (id_of_slot_of id' Ed).
      destruct (decide (slot_of id' = i)), (decide (id' = id_of i)); subst; try done.
      by rewrite slot_of_id_of in *.
    + rewrite decide_False; [done|]. intros ->. by rewrite id_of_delegated in Ed.
  - intros id' Hid Hne. simpl. rewrite Hget by done. by rewrite decide_False.
  - exists g. split_and!; [|done..]. simpl. rewrite Hget by apply id_of_nonneg.
    by rewrite decide_True.
Qed.

Lemma allocate_None d d' (who : OwnerId) :
  delegated_wf d -> allocate d who = Done (d', None) ->
  d' = d /\ forall id, is_delegated id = true -> owner_of d id <> None.
Proof.
  intros [Hrwf Hbwf]. unfold allocate.
  destruct (Band.claim (band d) who) as [b [i|]] eqn:Ec.
  - intros (? & ? & ?)%bind_Done. done.
  - intros [= <-]. destruct (BandFacts.claim_None _ _ _ Hbwf Ec) as [_ Hfull].
    split; [done|]. intros id Hid. unfold owner_of. rewrite Hid. simpl.
    by apply Hfull, slot_of_lt.
Qed.

Lemma allocate_reg_step d d' (who : OwnerId) (id : ResourceId) :
  delegated_wf d -> allocate d who = Done (d', Some id) ->
  reg_step (registry d) (registry d').
Proof.
  intros [Hrwf Hbwf]. unfold allocate.
  destruct (Band.claim (band d) who) as [b [i|]] eqn:Ec; [|done].
  destruct (BandFacts.claim_Some _ _ _ _ Hbwf Ec) as (Hi & _).
  intros (reg & Hreg & [= <- <-])%bind_Done. simpl.
  destruct (reg_get (registry d) (id_of i)) as [r|] eqn:Er; simpl in Hreg.
  - apply bind_Done in Hreg as (g & [-> _]%bump_spec & Hreg).
    eapply (reg_step_register _ _ (id_of i)); [by apply id_of_direct| |done].
    intros r' Hr'. simplify_eq. lia.
  - eapply (reg_step_register _ _ (id_of i)); [by apply id_of_direct| |done].
    naive_solver.
Qed.

Lemma revoke_owned_true d d' (id : ResourceId) (who : OwnerId) :
  delegated_wf d -> revoke_owned d id who = Done (d', true) ->
  is_delegated id = true /\ owner_of d id = Some who /\ delegated_wf d' /\
  reg_bump (registry d) id Revoked = Done (registry d') /\
  (forall id', owner_of d' id' = if decide (id' = id) then None else owner_of d id').
Proof.
  intros [Hrwf Hbwf]. unfold revoke_owned.
  destruct (is_delegated id) eqn:Ed; [|done]. simpl.
  destruct (Band.is_owner (band d) (slot_of id) who) eqn:Eo; [|done]. simpl.
  intros (reg & Hb & [= <-])%bind_Done.
  apply bool_decide_eq_true in Eo.
  pose proof (slot_of_lt id Ed). destruct Hbwf as [Hlen Hnext].
  split_and!; [done| | |done|].
  - unfold owner_of. by rewrite Ed.
  - split; simpl.
    + eapply (reg_bump_get _ _ _ _ Hrwf); [|done].
      rewrite <- (id_of_slot_of id Ed). apply id_of_nonneg.
    + split; simpl; [by autorewrite with gs|done].
  - intros id'. unfold owner_of; simpl. destruct (is_delegated id') eqn:Ed'; simpl.
    + unfold Band.free. rewrite BandFacts.owner_at_insert by lia.
      destruct (decide (slot_of id' = slot_of id)) as [Heq|], (decide (id' = id)); subst; try done.
      apply (f_equal id_of) in Heq. rewrite !id_of_slot_of in Heq by done. done.
    + by case_decide.
Qed.

Lemma revoke_owned_false d d' (id : ResourceId) (who : OwnerId) :
  revoke_owned d id who = Done (d', false) ->
  d' = d /\ owner_of d id <> Some who.
Proof.
  unfold revoke_owned, owner_of, Band.is_owner.
  destruct (is_delegated id); simpl; [|naive_solver].
  case_bool_decide; simpl; [|naive_solver]. by intros (? & ? & ?)%bind_Done.
Qed.

(** What one reclaim pass does: the registry bumps the ids [who] owned, once
    each and marked dead, and touches nothing else. *)
Definition reclaimed (who : OwnerId) (d d' : delegated R) : Prop :=
  delegated_wf d' /\
  (forall id, owner_of d' id = if decide (owner_of d id = Some who) then None else owner_of d id) /\
  (forall id, 0 <= id -> reg_get (registry d') id =
     if decide (owner_of d id = Some who) then bump_record Dead <$> reg_get (registry d) id
     else reg_get (registry d) id).

Lemma owned_take d (b : Band.t) (who : OwnerId) (i : nat) (reg : R) :
  Band.wf (band d) -> Band.take_one_owned (band d) who = (b, Some i) ->
  owned d who = S (owned (mkDelegated reg b) who).
Proof.
  intros Hwf (Hi & _ & Hl & ->)%BandFacts.take_Some; [|done]. unfold owned; simpl.
  pose proof (count_insert (fun o => bool_decide (o = Some who)) _ i None _ Hl) as Hc.
  cbv beta in Hc. rewrite (bool_decide_eq_true_2 (Some who = Some who)) in Hc by done.
  rewrite (bool_decide_eq_false_2 (None = Some who)) in Hc by done. lia.
Qed.

Lemma owned_none d (who : OwnerId) :
  (forall i, Band.owner_at (band d) i <> Some who) -> owned d who = 0%nat.
Proof.
  unfold owned, Band.owner_at. intros Hn. apply count_zero, position_None.
  intros i o Ho. apply bool_decide_eq_false. intros ->. apply (Hn i). by rewrite Ho.
Qed.

Lemma release_owner_step d (b : Band.t) (reg : R) (who : OwnerId) (i : nat) d2 :
  delegated_wf d -> Band.take_one_owned (band d) who = (b, Some i) ->
  reg_bump (registry d) (id_of i) Dead = Done reg ->
  reclaimed who (mkDelegated reg b) d2 -> reclaimed who d d2.
Proof.
  intros [Hrwf Hbwf] Htake Hb (Hwf2 & Hown2 & Hget2).
  destruct (BandFacts.take_Some _ _ _ _ Hbwf Htake) as (Hi & Hbwf' & Hl & ->).
  destruct (reg_bump_get _ _ _ _ Hrwf (id_of_nonneg i) Hb) as [Hrwf' Hget].
  assert (owner_of d (id_of i) = Some who) as Howni.
  { rewrite owner_of_id_of by done. unfold Band.owner_at. by rewrite Hl. }
  assert (forall id, owner_of (mkDelegated reg (Band.mk (<[i:=None]> (Band.owner (band d)))
            (Band.next (band d)))) id = if decide (id = id_of i) then None else owner_of d id) as Hmid.
  { intros id. unfold owner_of; simpl. destruct (is_delegated id) eqn:Ed; simpl.
    - rewrite BandFacts.owner_at_insert by (by eapply lookup_lt_Some).
      pose proof (id_of_slot_of id Ed).
      destruct (decide (slot_of id = i)), (decide (id = id_of i)); subst; try done.
      by rewrite slot_of_id_of in *.
    - by case_decide. }
  split_and!; [done| |].
  - intros id. rewrite Hown2, !Hmid. destruct (decide (id = id_of i)) as [->|].
    + rewrite (decide_False (P := None = Some who)) by done. by rewrite decide_True.
    + done.
  - intros id Hid. rewrite Hget2, Hmid by done. simpl. rewrite Hget by done.
    destruct (decide (id = id_of i)) as [->|].
    + rewrite (decide_False (P := None = Some who)) by done. by rewrite decide_True.
    + done.
Qed.

Lemma release_owner_loop_spec (fuel : nat) d (who : OwnerId) (freed : Z) :
  delegated_wf d -> (owned d who < fuel)%nat ->
  match release_owner_loop fuel d who freed with
  | Some (Done (d', n)) => reclaimed who d d' /\ n = freed + Z.of_nat (owned d who)
  | Some Panic => exists id r, owner_of d id = Some who /\
      reg_get (registry d) id = Some r /\ u32_max <= rec_generation r
  | None => False
  end.
Proof.
  revert d freed. induction fuel as [|fuel IH]; intros d freed Hwf Hfuel; [lia|].
  pose proof Hwf as [Hrwf Hbwf]. cbn [release_owner_loop].
  destruct (Band.take_one_owned (band d) who) as [b [i|]] eqn:Et.
  - pose proof (BandFacts.take_Some _ _ _ _ Hbwf Et) as (Hi & Hbwf' & Hl & _).
    assert (owner_of d (id_of i) = Some who) as Howni.
    { rewrite owner_of_id_of by done. unfold Band.owner_at. by rewrite Hl. }
    destruct (reg_bump (registry d) (id_of i) Dead) as [reg|] eqn:Eb.
    + destruct (reg_bump_get _ _ _ _ Hrwf (id_of_nonneg i) Eb) as [Hrwf' Hget].
      pose proof (owned_take d b who i reg Hbwf Et) as Hcount.
      specialize (IH (mkDelegated reg b) (freed + 1) (conj Hrwf' Hbwf') ltac:(lia)).
      destruct (release_owner_loop _ _ _ _) as [[[d' n]|]|]; [|..|done].
      * destruct IH as [Hrec ->]. split; [|lia]. by eapply release_owner_step.
      * destruct IH as (id & r & Hown & Hr & Hmax). exists id, r.
        pose proof (BandFacts.take_Some _ _ _ _ Hbwf Et) as (_ & _ & _ & ->).
        assert (is_delegated id = true) as Ed
          by (unfold owner_of in Hown; destruct (is_delegated id); done).
        assert (slot_of id <> i) as Hne.
        { intros <-. unfold owner_of in Hown. rewrite Ed in Hown. simpl in Hown.
          rewrite BandFacts.owner_at_insert, decide_True in Hown; [done..|].
          by eapply lookup_lt_Some. }
        unfold owner_of in *. rewrite Ed in *. simpl in *.
        rewrite BandFacts.owner_at_insert, decide_False in Hown
          by (done || by eapply lookup_lt_Some).
        rewrite <- (id_of_slot_of id Ed) in Hr. rewrite Hget in Hr by apply id_of_nonneg.
        rewrite decide_False in Hr by (unfold id_of; lia). by rewrite id_of_slot_of in Hr.
    + apply (reg_bump_panics _ _ _ Hrwf (id_of_nonneg i)) in Eb as (r & Hr & Hmax). eauto.
  - apply BandFacts.take_None in Et as [-> Hnone]. rewrite (owned_none d who Hnone).
    split; [|lia]. assert (forall id, owner_of d id <> Some who) as Hno.
    { intros id. unfold owner_of. destruct (is_delegated id); [apply Hnone|done]. }
    split_and!; [done|..]; intros id; intros; by rewrite decide_False by apply Hno.
Qed.

End Facts.

(** ** Properties *)

(** C37: reuse of a delegated id is ABA-safe.  When [allocate] hands out an id,
    the id was unowned and is now owned by the caller, no other id changes
    owner, and every capability an earlier life of the id left in any table is
    refused with [CapRevoked], while one minted now is accepted. *)
Theorem allocate_aba_safe (d d' : delegated GRT) (who : OwnerId) (id : ResourceId)
    (tbl : CapTable) (slot : nat) (c : Capability) (r : Rights) :
  delegated_wf d -> allocate d who = Done (d', Some id) ->
  CapTable.held tbl slot = Some c -> resource_id c = id -> not_ahead (registry d) c ->
  owner_of d id = None /\ owner_of d' id = Some who /\
  (forall id', id' <> id -> owner_of d' id' = owner_of d id') /\
  CapTable.get (registry d') tbl slot r = Err CapRevoked /\
  exists fresh, mint_cap (registry d') id r = Done fresh /\
    CapTable.get (registry d') [Some fresh] 0 r = Ok fresh.
Proof.
  intros Hwf Hal Hheld <- (rec & Hrec & Hle).
  destruct (allocate_Some _ _ _ _ Hwf Hal) as (_ & Hd & Hnone & Hown & _ & g & Hg & Hsome & _).
  specialize (Hsome _ Hrec). split_and!.
  - done.
  - by rewrite Hown, decide_True.
  - intros id' Hne. by rewrite Hown, decide_False.
  - apply get_deterministic.
    change (Err CapRevoked) with (@Err Capability CapError
      (if decide (rec_liveness (mkResourceRecord g Alive) = Dead) then EndpointDead else CapRevoked)).
    eapply get_stale; [done..|]. simpl. lia.
  - exists (mkCapability (resource_id c) r g). unfold mint_cap. simpl in Hg. rewrite Hg. simpl.
    split; [done|]. apply get_deterministic. by eapply get_granted.
Qed.

(** Only the owner revokes.  [revoke_owned] succeeds exactly when the
    caller owns the id; when it refuses, nothing changes; when it succeeds the
    id is free, every other id keeps its owner, and every capability to the id
    that is not ahead of the registry is refused from then on, whatever
    registry operations follow. *)
Theorem revoke_owned_correct (d d' : delegated GRT) (id : ResourceId) (who : OwnerId) (b : bool) :
  delegated_wf d -> revoke_owned d id who = Done (d', b) ->
  (b = true <-> owner_of d id = Some who) /\
  (b = false -> d' = d) /\
  (b = true ->
     (forall id', owner_of d' id' = if decide (id' = id) then None else owner_of d id') /\
     forall R2 tbl slot c r, rtc reg_step (registry d') R2 ->
       CapTable.held tbl slot = Some c -> resource_id c = id -> not_ahead (registry d) c ->
       CapTable.get R2 tbl slot r = Err EndpointDead \/
       CapTable.get R2 tbl slot r = Err CapRevoked).
Proof.
  intros Hwf Hr. destruct b.
  - destruct (revoke_owned_true _ _ _ _ Hwf Hr) as (Hd & Hown & [Hrwf' _] & Hb & Hown').
    split_and!; [done..|]. intros _. split; [done|].
    intros R2 tbl slot c r Hs Hheld <- Hna.
    assert (0 <= resource_id c) by (rewrite <- (id_of_slot_of _ Hd); apply id_of_nonneg).
    eapply stale_refused; [done|]. eapply stale_stable; [done..|].
    eapply (bump_makes_stale (registry d)); [apply Hwf|done..].
  - destruct (revoke_owned_false _ _ _ _ Hr) as [-> Hown]. naive_solver.
Qed.

(** The death of an owner reclaims its whole band.  The reclaim loop
    always finishes within its fuel; it returns the number of ids the owner
    held, leaves it owning none, leaves every other owner's ids alone, and
    bumps exactly the reclaimed ids, once each and marked dead.  It panics
    only if a reclaimed resource is already at the last generation. *)
Theorem release_owner_reclaims (d : delegated GRT) (who : OwnerId) :
  delegated_wf d ->
  match release_owner d who with
  | Some (Done (d', n)) => reclaimed who d d' /\ n = Z.of_nat (owned d who)
  | Some Panic => exists id r, owner_of d id = Some who /\
      reg_get (registry d) id = Some r /\ u32_max <= rec_generation r
  | None => False
  end.
Proof.
  intros Hwf. unfold release_owner.
  pose proof (release_owner_loop_spec (S DELEGATED_CAP) d who 0 Hwf) as Hspec.
  destruct Hwf as [_ [Hlen _]].
  assert (owned d who < S DELEGATED_CAP)%nat as Hfuel.
  { unfold owned. pose proof (count_le_length (fun o => bool_decide (o = Some who))
      (Band.owner (band d))). lia. }
  specialize (Hspec Hfuel). by rewrite Z.add_0_l in Hspec.
Qed.

(** ** Witnesses *)

(** Slot 1 of the band was used and released once (its record is at
    generation 3); owner 100 holds slots 0 and 2. *)
Definition sample_delegated : delegated GRT :=
  mkDelegated
    (GlobalResourceTable.mk
       (<[Z.to_nat 4096 := mkResourceRecord 0 Alive]>
        (<[Z.to_nat 4097 := mkResourceRecord 3 Alive]>
         (<[Z.to_nat 4098 := mkResourceRecord 0 Alive]>
            (GlobalResourceTable.records GlobalResourceTable.new))))
       (<[Z.to_nat 4096 := true]> (<[Z.to_nat 4097 := true]>
         (<[Z.to_nat 4098 := true]> (GlobalResourceTable.present GlobalResourceTable.new))))
       (GlobalResourceTable.overflow GlobalResourceTable.new) 0)
    (Band.mk (<[0%nat := Some 100]> (<[2%nat := Some 100]> (Band.owner Band.new))) 1).

Lemma sample_delegated_wf : delegated_wf sample_delegated.
Proof.
  split; split; cbn; autorewrite with gs; try done; unfold DELEGATED_CAP; lia.
Qed.

Definition sample_file_cap : Capability := mkCapability 4097 Rights.READ 3.

Lemma sample_file_cap_not_ahead : not_ahead (registry sample_delegated) sample_file_cap.
Proof. exists (mkResourceRecord 3 Alive). split; [vm_compute; reflexivity|simpl; lia]. Qed.

Lemma allocate_aba_safe_witness :
  match allocate sample_delegated 102 with
  | Done (d', Some id) => id = 4097 /\
      CapTable.get (registry d') [Some sample_file_cap] 0 Rights.READ = Err CapRevoked
  | _ => False
  end.
Proof.
  assert (match allocate sample_delegated 102 with
          | Done (_, Some id) => id = 4097 | _ => False end) as Hid by (vm_compute; reflexivity).
  destruct (allocate sample_delegated 102) as [[d' [id|]]|] eqn:E; [|done..].
  subst id. split; [reflexivity|].
  apply (allocate_aba_safe sample_delegated d' 102 4097 [Some sample_file_cap] 0 sample_file_cap);
    [exact sample_delegated_wf|exact E|reflexivity|reflexivity|exact sample_file_cap_not_ahead].
Defined.

Lemma revoke_owned_correct_witness :
  match revoke_owned sample_delegated 4098 100 with
  | Done (d', b) => b = true /\ owner_of d' 4098 = None
  | Panic => False
  end.
Proof.
  assert (match revoke_owned sample_delegated 4098 100 with
          | Done (_, b) => b = true | _ => False end) as Hb by (vm_compute; reflexivity).
  destruct (revoke_owned sample_delegated 4098 100) as [[d' b]|] eqn:E; [|done].
  subst b. split; [reflexivity|].
  destruct (revoke_owned_correct sample_delegated d' 4098 100 true sample_delegated_wf E)
    as (_ & _ & Hok).
  destruct (Hok eq_refl) as [Hown _]. rewrite Hown. reflexivity.
Defined.

Lemma release_owner_reclaims_witness :
  match release_owner sample_delegated 100 with
  | Some (Done (d', n)) => n = 2 /\ owner_of d' 4096 = None /\ owner_of d' 4098 = None
  | _ => False
  end.
Proof.
  pose proof (release_owner_reclaims sample_delegated 100 sample_delegated_wf) as H.
  assert (match release_owner sample_delegated 100 with
          | Some (Done (_, n)) => n = 2 | _ => False end) as Hn by (vm_compute; reflexivity).
  destruct (release_owner sample_delegated 100) as [[[d' n]|]|]; [|done..].
  destruct H as [(_ & Hown & _) _]. split; [exact Hn|].
  split; [rewrite (Hown 4096)|rewrite (Hown 4098)]; by rewrite decide_True by reflexivity.
Defined.
