(* ===== verification/Queue.v ===== *)
(** * Messages and the bounded message queue

    [kernel/src/ipc/message.rs] and [kernel/src/ipc/queue.rs].  The queue is
    the source's ring: sixteen optional slots, a head and a length, every index
    taken modulo the depth.  [contents] abstracts a ring to the list of its
    messages, oldest first; each operation is proved to be the list operation
    it stands for. *)

From S2P Require Import Prelude Capability.

Definition MAX_MESSAGE_SIZE : nat := 4096.
Definition MAX_EMBEDDED_CAPS : nat := 4.

Record Message := mkMessage {
  payload : list Z;
  payload_len : nat;
  caps : list (option Capability);
  cap_count : nat;
  badge_id : Z;
  badge_right : Z;
  sender_ep : Z
}.

#[export] Instance Message_eq_dec : EqDecision Message.
Proof. solve_decision. Defined.

Module IpcError.

Inductive t :=
| EndpointDead
| QueueFull
| QueueEmpty
| MessageTooLarge
| ReplyDead
| Cap (e : CapError).

End IpcError.
Notation IpcError := IpcError.t (only parsing).

#[export] Instance IpcError_eq_dec : EqDecision IpcError.
Proof. solve_decision. Defined.

Module Message.

(** [msg.payload[..bytes.len()].copy_from_slice(bytes)] on a zeroed buffer. *)
Definition zero_padded (bytes : list Z) : list Z :=
  bytes ++ drop (length bytes) (replicate MAX_MESSAGE_SIZE 0).

Definition new (bytes : list Z) : result Message IpcError :=
  if (MAX_MESSAGE_SIZE <? length bytes)%nat then Err IpcError.MessageTooLarge
  else Ok (mkMessage (zero_padded bytes) (length bytes)
             (replicate MAX_EMBEDDED_CAPS None) 0 0 0 0).

Definition payload_bytes (self : Message) : list Z :=
  take (payload_len self) (payload self).

Definition interrupt_event (irq : Z) : Message :=
  mkMessage (zero_padded [irq]) 1 (replicate MAX_EMBEDDED_CAPS None) 0 0 0 0.

End Message.

(** ** The ring *)

Definition QUEUE_DEPTH : nat := 16.

Module MessageQueue.

Record t := mk {
  slots : list (option Message);
  head : nat;
  len : nat
}.

Definition new : t := mk (replicate QUEUE_DEPTH None) 0 0.

Definition is_full (self : t) : bool := (len self =? QUEUE_DEPTH)%nat.
Definition is_empty (self : t) : bool := (len self =? 0)%nat.
Definition depth (self : t) : nat := len self.

(** [Err(msg)] hands the message back. *)
Definition enqueue (self : t) (msg : Message) : t * result unit Message :=
  if is_full self then (self, Err msg)
  else
    let tail := ((head self + len self) mod QUEUE_DEPTH)%nat in
    (mk (<[tail := Some msg]> (slots self)) (head self) (len self + 1), Ok tt).

Definition dequeue (self : t) : t * option Message :=
  if is_empty self then (self, None)
  else (mk (<[head self := None]> (slots self))
           ((head self + 1) mod QUEUE_DEPTH) (len self - 1),
        mjoin (slots self !! head self)).

(** The compaction of [dequeue_matching]: [n] steps from logical index [j],
    each moving the message one place back. *)
Fixpoint shift_back (s : list (option Message)) (h j n : nat) : list (option Message) :=
  match n with
  | O => s
  | S n =>
      let from := ((h + j + 1) mod QUEUE_DEPTH)%nat in
      let to := ((h + j) mod QUEUE_DEPTH)%nat in
      let taken := mjoin (s !! from) in
      shift_back (<[to := taken]> (<[from := None]> s)) h (j + 1) n
  end.

Definition slot_matches (self : t) (ep : Z) (i : nat) : bool :=
  match mjoin (slots self !! ((head self + i) mod QUEUE_DEPTH)%nat) with
  | Some m => sender_ep m =? ep
  | None => false
  end.

Definition dequeue_matching (self : t) (ep : Z) : t * option Message :=
  match position (slot_matches self ep) (seq 0 (len self)) with
  | Some i =>
      let idx := ((head self + i) mod QUEUE_DEPTH)%nat in
      let msg := mjoin (slots self !! idx) in
      let s := <[idx := None]> (slots self) in
      (mk (shift_back s (head self) i (len self - 1 - i)) (head self) (len self - 1), msg)
  | None => (self, None)
  end.

(** [while self.dequeue().is_some() {}]; each step that continues lowers
    [len], so [len + 1] steps reach the end. *)
Fixpoint drain_loop (fuel : nat) (self : t) : option t :=
  match fuel with
  | O => None
  | S fuel =>
      match dequeue self with
      | (q, Some _) => drain_loop fuel q
      | (q, None) => Some q
      end
  end.

Definition drain (self : t) : option t := drain_loop (S (len self)) self.

Definition reset (self : t) : t := mk (slots self) 0 0.

(** ** Abstraction *)

(** The message at logical position [i], counted from the head. *)
Definition at_pos (self : t) (i : nat) : option Message :=
  mjoin (slots self !! ((head self + i) mod QUEUE_DEPTH)%nat).

Definition contents (self : t) : list Message := omap (at_pos self) (seq 0 (len self)).

Record wf (self : t) : Prop := mk_wf {
  wf_slots : length (slots self) = QUEUE_DEPTH;
  wf_head : (head self < QUEUE_DEPTH)%nat;
  wf_len : (len self <= QUEUE_DEPTH)%nat;
  wf_used : forall i, (i < len self)%nat -> is_Some (at_pos self i)
}.

End MessageQueue.

(** The reply-selection specification: the first message of a list sent by
    [ep], and the list without it. *)
Fixpoint take_first_from (ep : Z) (l : list Message) : list Message * option Message :=
  match l with
  | [] => ([], None)
  | m :: l =>
      if sender_ep m =? ep then (l, Some m)
      else let (l', r) := take_first_from ep l in (m :: l', r)
  end.

(** ** Facts *)

Lemma new_payload_bytes (bytes : list Z) (m : Message) :
  Message.new bytes = Ok m -> Message.payload_bytes m = bytes /\
  length (payload m) = MAX_MESSAGE_SIZE /\ badge_id m = 0 /\ sender_ep m = 0.
Proof.
  unfold Message.new. case_match eqn:E; [done|]. intros [= <-].
  apply Nat.ltb_ge in E. unfold Message.payload_bytes, Message.zero_padded; simpl.
  split_and!; [|..|done|done].
  - by rewrite take_app_length.
  - rewrite length_app, length_drop, length_replicate. lia.
Qed.

Module QueueFacts.
Import MessageQueue.

Lemma mod_depth_lt (n : nat) : (n mod QUEUE_DEPTH < QUEUE_DEPTH)%nat.
Proof. by apply Nat.mod_upper_bound. Qed.

Lemma mod_depth_inj (h i j : nat) :
  (i < QUEUE_DEPTH)%nat -> (j < QUEUE_DEPTH)%nat ->
  ((h + i) mod QUEUE_DEPTH = (h + j) mod QUEUE_DEPTH)%nat -> i = j.
Proof.
  unfold QUEUE_DEPTH. intros Hi Hj He.
  pose proof (Nat.div_mod_eq (h + i) 16). pose proof (Nat.div_mod_eq (h + j) 16).
  lia.
Qed.

Lemma mod_depth_succ (h i : nat) :
  (((h + 1) mod QUEUE_DEPTH + i) mod QUEUE_DEPTH = (h + (i + 1)) mod QUEUE_DEPTH)%nat.
Proof.
  rewrite Nat.Div0.add_mod_idemp_l. f_equal. lia.
Qed.

(** A ring represents exactly the list its logical positions spell. *)
Definition repr (q : t) (l : list Message) : Prop :=
  length (slots q) = QUEUE_DEPTH /\ (head q < QUEUE_DEPTH)%nat /\
  (length l <= QUEUE_DEPTH)%nat /\ len q = length l /\
  forall i m, l !! i = Some m -> at_pos q i = Some m.

Lemma repr_contents (q : t) (l : list Message) : repr q l -> contents q = l.
Proof.
  intros (_ & _ & _ & Hlen & Hat). unfold contents. rewrite Hlen.
  assert (forall k, (forall i m, l !! i = Some m -> at_pos q (k + i) = Some m) ->
    omap (at_pos q) (seq k (length l)) = l) as Haux; [|by apply Haux].
  clear. induction l as [|m l IH]; intros k Hk; [done|]. simpl.
  rewrite <- (Nat.add_0_r k) at 1. rewrite (Hk 0%nat m eq_refl). f_equal.
  apply IH. intros i m' Hi. replace (S k + i)%nat with (k + S i)%nat by lia. by apply Hk.
Qed.

Lemma wf_repr (q : t) : wf q <-> repr q (contents q).
Proof.
  split.
  - intros [Hs Hh Hl Hu].
    assert (forall n k, (forall i, (k <= i < k + n)%nat -> is_Some (at_pos q i)) ->
      length (omap (at_pos q) (seq k n)) = n /\
      forall i m, omap (at_pos q) (seq k n) !! i = Some m -> at_pos q (k + i) = Some m) as Haux.
    { induction n as [|n IH]; intros k Hk; simpl; [done|].
      destruct (Hk k ltac:(lia)) as [m Hm]. rewrite Hm. simpl.
      destruct (IH (S k)) as [IHl IHn]; [intros i Hi; apply Hk; lia|].
      split; [f_equal; exact IHl|]. intros [|i] m' Hi; simpl in Hi.
      - simplify_eq. by rewrite Nat.add_0_r.
      - replace (k + S i)%nat with (S k + i)%nat by lia. by apply IHn. }
    destruct (Haux (len q) 0%nat) as [Hlen Hat]; [intros i Hi; apply Hu; lia|].
    unfold repr, contents. rewrite Hlen. by split_and!.
  - intros (Hs & Hh & Hlc & Hlen & Hat). split; [done..|lia|].
    intros i Hi. destruct (lookup_lt_is_Some_2 (contents q) i) as [m Hm]; [lia|].
    exists m. by apply Hat.
Qed.

Lemma repr_wf (q : t) (l : list Message) : repr q l -> wf q.
Proof. intros H. apply wf_repr. by rewrite (repr_contents q l H). Qed.

Lemma repr_new : repr new [].
Proof. unfold repr; simpl. split_and!; try done; unfold QUEUE_DEPTH; lia. Qed.

Lemma repr_reset (q : t) : length (slots q) = QUEUE_DEPTH -> repr (reset q) [].
Proof. intros. unfold repr; simpl. split_and!; try done; unfold QUEUE_DEPTH; lia. Qed.

Lemma repr_enqueue_full (q : t) (l : list Message) (m : Message) :
  repr q l -> length l = QUEUE_DEPTH -> enqueue q m = (q, Err m).
Proof.
  intros (_ & _ & _ & Hlen & _) Hfull. unfold enqueue, is_full.
  by replace (len q =? QUEUE_DEPTH)%nat with true by (symmetry; apply Nat.eqb_eq; lia).
Qed.

Lemma repr_enqueue (q : t) (l : list Message) (m : Message) :
  repr q l -> (length l < QUEUE_DEPTH)%nat ->
  exists q', enqueue q m = (q', Ok tt) /\ repr q' (l ++ [m]).
Proof.
  intros (Hs & Hh & Hlc & Hlen & Hat) Hroom. unfold enqueue, is_full.
  replace (len q =? QUEUE_DEPTH)%nat with false by (symmetry; apply Nat.eqb_neq; lia).
  eexists; split; [done|]. unfold repr; cbn [slots head len].
  rewrite length_app, length_insert. simpl. split_and!; [done..|lia|lia|].
  intros i m' Hi. unfold at_pos; cbn [slots head].
  apply lookup_app_Some in Hi as [Hi|[Hge Hi]].
  - rewrite list_lookup_insert_ne; [by apply Hat|].
    apply lookup_lt_Some in Hi. intros He. apply mod_depth_inj in He; lia.
  - apply list_lookup_singleton_Some in Hi as [Hi <-].
    replace i with (len q) by lia. rewrite list_lookup_insert_eq; [done|].
    rewrite Hs. apply mod_depth_lt.
Qed.

Lemma repr_dequeue_nil (q : t) : repr q [] -> dequeue q = (q, None).
Proof.
  intros (_ & _ & _ & Hlen & _). unfold dequeue, is_empty. by rewrite Hlen.
Qed.

Lemma repr_dequeue_cons (q : t) (m : Message) (l : list Message) :
  repr q (m :: l) -> exists q', dequeue q = (q', Some m) /\ repr q' l.
Proof.
  intros (Hs & Hh & Hlc & Hlen & Hat). unfold dequeue, is_empty.
  replace (len q =? 0)%nat with false by (symmetry; apply Nat.eqb_neq; simpl in Hlen; lia).
  eexists. split.
  - f_equal. specialize (Hat 0%nat m eq_refl). unfold at_pos in Hat.
    by rewrite Nat.add_0_r, Nat.mod_small in Hat.
  - unfold repr; cbn [slots head len]. simpl in Hlc, Hlen. rewrite length_insert.
    split_and!; [done|apply mod_depth_lt|lia|lia|].
    intros i m' Hi. unfold at_pos; cbn [slots head]. rewrite mod_depth_succ.
    rewrite list_lookup_insert_ne.
    + replace (i + 1)%nat with (S i) by lia. by apply (Hat (S i) m').
    + apply lookup_lt_Some in Hi. intros He.
      rewrite <- (Nat.mod_small (head q) QUEUE_DEPTH) in He at 1 by done.
      rewrite <- (Nat.add_0_r (head q)) in He at 1. apply mod_depth_inj in He; lia.
Qed.

(** The slots after the compaction, by logical position. *)
Lemma shift_back_spec (n h j k : nat) (s : list (option Message)) :
  length s = QUEUE_DEPTH -> (j + n < QUEUE_DEPTH)%nat -> (k < QUEUE_DEPTH)%nat ->
  let pos i := ((h + i) mod QUEUE_DEPTH)%nat in
  mjoin (shift_back s h j n !! pos k) =
    if decide (j <= k < j + n)%nat then mjoin (s !! pos (k + 1)%nat)
    else if decide (k = j + n /\ n <> 0)%nat then None else mjoin (s !! pos k).
Proof.
  intros Hs. cbv zeta. revert j s Hs. induction n as [|n IH]; intros j s Hs Hj Hk; simpl.
  - by rewrite !decide_False by lia.
  - set (from := ((h + j + 1) mod QUEUE_DEPTH)%nat). set (to := ((h + j) mod QUEUE_DEPTH)%nat).
    assert (from = (h + (j + 1)) mod QUEUE_DEPTH)%nat as Hfrom by (unfold from; f_equal; lia).
    assert (from < QUEUE_DEPTH)%nat by apply mod_depth_lt.
    assert (to < QUEUE_DEPTH)%nat by apply mod_depth_lt.
    assert (forall i, (i < QUEUE_DEPTH)%nat ->
      mjoin (<[to := mjoin (s !! from)]> (<[from := None]> s) !! ((h + i) mod QUEUE_DEPTH)%nat) =
      if decide (i = j) then mjoin (s !! from)
      else if decide (i = j + 1)%nat then None else mjoin (s !! ((h + i) mod QUEUE_DEPTH)%nat))
      as Hstep.
    { intros i Hi. destruct (decide (i = j)) as [->|E1].
      - fold to. rewrite list_lookup_insert_eq; [done|]. autorewrite with gs. lia.
      - rewrite list_lookup_insert_ne by (intros He; apply mod_depth_inj in He; lia).
        destruct (decide (i = j + 1)%nat) as [->|E2].
        + rewrite <- Hfrom. rewrite list_lookup_insert_eq by lia. done.
        + rewrite list_lookup_insert_ne; [done|]. rewrite Hfrom.
          intros He. apply mod_depth_inj in He; lia. }
    rewrite IH by (autorewrite with gs; lia).
    destruct (decide (k = j)) as [->|Hkj].
    + rewrite !decide_False by lia. rewrite Hstep, decide_True by lia.
      rewrite decide_True by lia. by rewrite Hfrom.
    + destruct (decide (j + 1 <= k < j + 1 + n)%nat).
      * rewrite decide_True by lia. rewrite Hstep by lia. by rewrite !decide_False by lia.
      * rewrite (decide_False (P := (j <= k < j + S n)%nat)) by lia.
        destruct (decide (k = j + 1 + n /\ n <> 0)%nat).
        -- by rewrite decide_True by lia.
        -- rewrite Hstep by lia. rewrite decide_False by lia.
           destruct (decide (k = j + 1)%nat), (decide (k = j + S n /\ S n <> 0)%nat); try done; lia.
Qed.

Lemma length_shift_back (n h j : nat) (s : list (option Message)) :
  length (shift_back s h j n) = length s.
Proof.
  revert j s. induction n as [|n IH]; intros j s; simpl; [done|].
  rewrite IH. by autorewrite with gs.
Qed.

Lemma take_first_None (ep : Z) (l l' : list Message) :
  take_first_from ep l = (l', None) -> l' = l /\ forall i m, l !! i = Some m -> sender_ep m <> ep.
Proof.
  revert l'. induction l as [|m l IH]; intros l'; simpl.
  - intros [= <-]. split; [done|]. intros i m Hm. by rewrite lookup_nil in Hm.
  - destruct (sender_ep m =? ep) eqn:E; [done|]. to_prop.
    destruct (take_first_from ep l) as [l2 r]. intros [= <- ->].
    destruct (IH l2 eq_refl) as [-> Hno]. split; [done|].
    intros [|i] m' Hm; simplify_eq/=; eauto.
Qed.

Lemma take_first_Some (ep : Z) (l l' : list Message) (m : Message) :
  take_first_from ep l = (l', Some m) ->
  exists i, l !! i = Some m /\ sender_ep m = ep /\ l' = delete i l /\
    forall j m', (j < i)%nat -> l !! j = Some m' -> sender_ep m' <> ep.
Proof.
  revert l'. induction l as [|x l IH]; intros l'; simpl; [done|].
  destruct (sender_ep x =? ep) eqn:E; to_prop.
  - intros [= <- ->]. exists 0%nat. split_and!; [done..|]. lia.
  - destruct (take_first_from ep l) as [l2 r]. intros [= <- ->].
    destruct (IH l2 eq_refl) as (i & Hi & He & -> & Hj). exists (S i).
    split_and!; [done..|]. intros [|j] m' Hlt Hm; simplify_eq/=; [done|].
    eapply Hj; [|done]. lia.
Qed.

Lemma slot_matches_repr (q : t) (l : list Message) (ep : Z) (i : nat) (m : Message) :
  repr q l -> l !! i = Some m -> slot_matches q ep i = (sender_ep m =? ep).
Proof.
  intros (_ & _ & _ & _ & Hat) Hm. unfold slot_matches.
  specialize (Hat i m Hm). unfold at_pos in Hat. by rewrite Hat.
Qed.

Lemma repr_dequeue_matching (q : t) (l : list Message) (ep : Z) :
  repr q l -> exists q', dequeue_matching q ep = (q', (take_first_from ep l).2) /\
                         repr q' (take_first_from ep l).1.
Proof.
  intros Hrep. pose proof Hrep as (Hs & Hh & Hlc & Hlen & Hat).
  destruct (take_first_from ep l) as [l' [m|]] eqn:Et; simpl; unfold dequeue_matching.
  - apply take_first_Some in Et as (i & Hi & He & -> & Hbefore).
    pose proof (lookup_lt_Some _ _ _ Hi) as Hilt.
    replace (position (slot_matches q ep) (seq 0 (len q))) with (Some i).
    2: { symmetry. apply position_Some. split.
         - exists i. rewrite lookup_seq_lt by lia. split; [done|].
           rewrite (slot_matches_repr q l ep i m) by done. by apply Z.eqb_eq.
         - intros j y Hj Hy. apply lookup_seq in Hy as [-> Hy].
           destruct (lookup_lt_is_Some_2 l j) as [m' Hm']; [lia|].
           rewrite (slot_matches_repr q l ep (0 + j)%nat m') by done.
           apply Z.eqb_neq. by eapply Hbefore. }
    eexists; split; [cbv zeta; f_equal; exact (Hat i m Hi)|].
    unfold repr; cbn [slots head len]. rewrite length_shift_back, length_insert, length_delete by done.
    split_and!; [done|done|lia|lia|].
    intros k m' Hk. pose proof (lookup_lt_Some _ _ _ Hk) as Hklt.
    rewrite length_delete in Hklt by done.
    unfold at_pos; cbn [slots head].
    rewrite shift_back_spec by (autorewrite with gs; lia).
    destruct (decide (i <= k < i + (len q - 1 - i))%nat) as [Hge|Hlt].
    + rewrite list_lookup_insert_ne by (intros Heq; apply mod_depth_inj in Heq; lia).
      apply Hat. rewrite list_lookup_delete_ge in Hk by lia. by rewrite Nat.add_1_r.
    + rewrite decide_False by lia.
      rewrite list_lookup_insert_ne by (intros Heq; apply mod_depth_inj in Heq; lia).
      apply Hat. by rewrite list_lookup_delete_lt in Hk by lia.
  - apply take_first_None in Et as [-> Hno]. exists q. split; [|done].
    replace (position (slot_matches q ep) (seq 0 (len q))) with (@None nat); [done|].
    symmetry. apply position_None. intros i x Hx. apply lookup_seq in Hx as [-> Hx].
    destruct (lookup_lt_is_Some_2 l i) as [m Hm]; [lia|].
    rewrite (slot_matches_repr q l ep (0 + i)%nat m) by done. apply Z.eqb_neq. eauto.
Qed.

Lemma repr_drain (q : t) (l : list Message) :
  repr q l -> exists q', drain q = Some q' /\ repr q' [].
Proof.
  intros Hrep. unfold drain.
  assert (len q = length l) as Hlen by (by destruct Hrep as (_ & _ & _ & ? & _)).
  rewrite Hlen. clear Hlen. revert q Hrep. induction l as [|m l IH]; intros q Hrep; cbn [drain_loop length].
  - rewrite repr_dequeue_nil by done. eauto.
  - destruct (repr_dequeue_cons q m l Hrep) as (q' & -> & Hrep'). by apply IH.
Qed.

End QueueFacts.

(** ** Properties *)

Inductive queue_op :=
| QEnqueue (m : Message)
| QDequeue
| QDequeueMatching (ep : Z)
| QDrain.

(** What a caller sees of one operation. *)
Inductive queue_ret :=
| REnqueued (accepted : bool)
| RTaken (m : option Message)
| RDrained.

Definition ring_op (q : MessageQueue.t) (o : queue_op) : option (MessageQueue.t * queue_ret) :=
  match o with
  | QEnqueue m => let (q', r) := MessageQueue.enqueue q m in
                  Some (q', REnqueued (is_ok r))
  | QDequeue => let (q', r) := MessageQueue.dequeue q in Some (q', RTaken r)
  | QDequeueMatching ep => let (q', r) := MessageQueue.dequeue_matching q ep in
                           Some (q', RTaken r)
  | QDrain => q' ← MessageQueue.drain q; Some (q', RDrained)
  end.

(** A bounded FIFO with selective removal. *)
Definition fifo_op (l : list Message) (o : queue_op) : list Message * queue_ret :=
  match o with
  | QEnqueue m => if (length l <? QUEUE_DEPTH)%nat then (l ++ [m], REnqueued true)
                  else (l, REnqueued false)
  | QDequeue => match l with [] => ([], RTaken None) | m :: l => (l, RTaken (Some m)) end
  | QDequeueMatching ep => let (l', r) := take_first_from ep l in (l', RTaken r)
  | QDrain => ([], RDrained)
  end.

Fixpoint ring_run (q : MessageQueue.t) (ops : list queue_op)
    : option (MessageQueue.t * list queue_ret) :=
  match ops with
  | [] => Some (q, [])
  | o :: ops => '(q, r) ← ring_op q o; '(q, rs) ← ring_run q ops; Some (q, r :: rs)
  end.

Fixpoint fifo_run (l : list Message) (ops : list queue_op) : list Message * list queue_ret :=
  match ops with
  | [] => (l, [])
  | o :: ops => let (l, r) := fifo_op l o in
                let (l, rs) := fifo_run l ops in (l, r :: rs)
  end.

Lemma ring_op_refines (q : MessageQueue.t) (l : list Message) (o : queue_op) :
  QueueFacts.repr q l -> exists q', ring_op q o = Some (q', (fifo_op l o).2) /\
                                    QueueFacts.repr q' (fifo_op l o).1.
Proof.
  intros Hrep. destruct o as [m| |ep|]; simpl.
  - destruct (length l <? QUEUE_DEPTH)%nat eqn:E.
    + apply Nat.ltb_lt in E.
      destruct (QueueFacts.repr_enqueue q l m Hrep E) as (q' & -> & ?). eauto.
    + apply Nat.ltb_ge in E. rewrite (QueueFacts.repr_enqueue_full q l m Hrep); [eauto|].
      destruct Hrep as (_ & _ & ? & _). lia.
  - destruct l as [|m l].
    + rewrite QueueFacts.repr_dequeue_nil by done. eauto.
    + destruct (QueueFacts.repr_dequeue_cons q m l Hrep) as (q' & -> & ?). eauto.
  - destruct (QueueFacts.repr_dequeue_matching q l ep Hrep) as (q' & -> & Hr).
    destruct (take_first_from ep l). eauto.
  - destruct (QueueFacts.repr_drain q l Hrep) as (q' & -> & ?). simpl. eauto.
Qed.

(** C34: the sixteen-slot ring refines a bounded FIFO.  Any sequence of
    enqueues, dequeues, selective dequeues (the reply a [Call] waits for) and
    drains started on an empty ring completes, returns exactly what the list
    specification returns at every step, and leaves a ring whose contents,
    read from the head, are the specification's list. *)
Theorem ring_refines_fifo (ops : list queue_op) :
  exists q, ring_run MessageQueue.new ops = Some (q, (fifo_run [] ops).2) /\
    MessageQueue.contents q = (fifo_run [] ops).1 /\ MessageQueue.wf q.
Proof.
  assert (forall q l, QueueFacts.repr q l ->
    exists q', ring_run q ops = Some (q', (fifo_run l ops).2) /\
      QueueFacts.repr q' (fifo_run l ops).1) as Hrun.
  { induction ops as [|o ops IH]; intros q l Hrep; simpl; [eauto|].
    destruct (ring_op_refines q l o Hrep) as (q1 & -> & Hrep1). simpl.
    destruct (fifo_op l o) as [l1 r]. simpl in *.
    destruct (IH q1 l1 Hrep1) as (q2 & -> & Hrep2). simpl.
    destruct (fifo_run l1 ops) as [l2 rs]. eauto. }
  destruct (Hrun _ _ QueueFacts.repr_new) as (q & Hq & Hrep).
  exists q. split_and!; [done|by apply QueueFacts.repr_contents|by eapply QueueFacts.repr_wf].
Qed.
