(* ===== verification/Console.v ===== *)
(** * The byte rings of the console

    The console input ring of [kernel/src/arch/x86_64/mod.rs] ([uart_rx_push],
    [uart_rx_pop], the drain of the UART) and the log ring with its boot record
    of [kernel/src/log.rs] ([RingBuffer]).  [spells] abstracts a ring to the
    list of its bytes, oldest first. *)

From S2P Require Import Prelude.

(** ** Console input *)

Definition COM1_RX_BUF_SIZE : nat := 256.

(** [COM1_RX_BUF], [COM1_RX_HEAD], [COM1_RX_TAIL] and [RX_DROPPED]. *)
Record Rx := mkRx {
  rx_buf : list Z;
  rx_head : nat;
  rx_tail : nat;
  rx_dropped : Z
}.

Definition rx_boot : Rx := mkRx (replicate COM1_RX_BUF_SIZE 0) 0 0 0.

Definition uart_rx_push (r : Rx) (b : Z) : Rx :=
  let next_tail := ((rx_tail r + 1) mod COM1_RX_BUF_SIZE)%nat in
  if (next_tail =? rx_head r)%nat then mkRx (rx_buf r) (rx_head r) (rx_tail r) (wrap32 (rx_dropped r + 1))
  else mkRx (<[rx_tail r := b]> (rx_buf r)) (rx_head r) next_tail (rx_dropped r).

Definition uart_rx_pop (r : Rx) : Rx * option Z :=
  if (rx_head r =? rx_tail r)%nat then (r, None)
  else (mkRx (rx_buf r) ((rx_head r + 1) mod COM1_RX_BUF_SIZE) (rx_tail r) (rx_dropped r),
        Some (default 0 (rx_buf r !! rx_head r))).

(** The bytes the UART holds, moved to the ring one by one. *)
Definition uart_rx_drain_fifo (r : Rx) (fifo : list Z) : Rx := foldl uart_rx_push r fifo.

Definition rx_nonempty (r : Rx) : bool := negb (rx_head r =? rx_tail r)%nat.

(** ** The log *)

Definition RING_SIZE : nat := 16 * 1024.
Definition BOOT_RECORD_SIZE : nat := 32 * 1024.
Definition BOOT_READ_CHUNK : nat := 512.

Module RingBuffer.

Record t := mk {
  buf : list Z;
  head : nat;
  len : nat;
  boot : list Z;
  boot_len : nat
}.

Definition new : t := mk (replicate RING_SIZE 0) 0 0 (replicate BOOT_RECORD_SIZE 0) 0.

Definition write_byte (self : t) (b : Z) : t :=
  let self := if (boot_len self <? BOOT_RECORD_SIZE)%nat
              then mk (buf self) (head self) (len self) (<[boot_len self := b]> (boot self)) (boot_len self + 1)
              else self in
  let tail := ((head self + len self) mod RING_SIZE)%nat in
  if (len self =? RING_SIZE)%nat
  then mk (<[head self := b]> (buf self)) ((head self + 1) mod RING_SIZE) (len self) (boot self) (boot_len self)
  else mk (<[tail := b]> (buf self)) (head self) (len self + 1) (boot self) (boot_len self).

Definition write (self : t) (bs : list Z) : t := foldl write_byte self bs.

(** [while self.len > 0]: one byte out per round, so [len] rounds end it. *)
Fixpoint drain_loop (n : nat) (self : t) : t * list Z :=
  match n with
  | O => (self, [])
  | S n =>
      let b := default 0 (buf self !! head self) in
      let (s, l) := drain_loop n (mk (buf self) ((head self + 1) mod RING_SIZE) (len self - 1) (boot self) (boot_len self)) in
      (s, b :: l)
  end.
Definition drain (self : t) : t * list Z := drain_loop (len self) self.

Definition boot_record_read (self : t) (offset out_len : nat) : list Z :=
  if (boot_len self <=? offset)%nat then []
  else take (Nat.min out_len (boot_len self - offset)) (drop offset (boot self)).

End RingBuffer.

(** ** Rings *)

(** The bytes of a ring of [n] places from [head] on. *)
Definition spells (n : nat) (buf : list Z) (head : nat) (l : list Z) : Prop :=
  length buf = n /\ (head < n)%nat /\ (length l <= n)%nat /\
  forall i b, l !! i = Some b -> buf !! ((head + i) mod n)%nat = Some b.

Module RingFacts.

Lemma ring_inj (n h i j : nat) : (i < n)%nat -> (j < n)%nat -> ((h + i) mod n = (h + j) mod n)%nat -> i = j.
Proof.
  intros Hi Hj He. pose proof (Nat.div_mod_eq (h + i) n). pose proof (Nat.div_mod_eq (h + j) n).
  assert ((h + i) / n = (h + j) / n \/ (h + i) / n < (h + j) / n \/ (h + j) / n < (h + i) / n)%nat as [?|[?|?]] by lia;
    [nia|nia|nia].
Qed.

Lemma ring_head (n h : nat) : (h < n)%nat -> ((h + 0) mod n = h)%nat.
Proof. intros. rewrite Nat.add_0_r. by apply Nat.mod_small. Qed.

Lemma spells_snoc (n : nat) (buf : list Z) (h : nat) (l : list Z) (b : Z) :
  spells n buf h l -> (length l < n)%nat -> spells n (<[((h + length l) mod n)%nat := b]> buf) h (l ++ [b]).
Proof.
  intros (Hb & Hh & Hl & Hs) Hlt. unfold spells. rewrite length_insert, length_app. simpl. split_and!; [done..|lia|].
  intros i x Hi. apply lookup_app_Some in Hi as [Hi|[Hge Hi]].
  - rewrite list_lookup_insert_ne; [by apply Hs|]. apply lookup_lt_Some in Hi. intros He. apply ring_inj in He; lia.
  - apply list_lookup_singleton_Some in Hi as [Hi <-]. replace i with (length l) by lia.
    apply list_lookup_insert_eq. rewrite Hb. apply Nat.mod_upper_bound. lia.
Qed.

Lemma spells_tail (n : nat) (buf : list Z) (h : nat) (x : Z) (l : list Z) :
  spells n buf h (x :: l) -> buf !! h = Some x /\ spells n buf ((h + 1) mod n) l.
Proof.
  intros (Hb & Hh & Hl & Hs). split.
  - specialize (Hs 0%nat x eq_refl). by rewrite ring_head in Hs.
  - split_and!; [done|apply Nat.mod_upper_bound; lia|simpl in Hl; lia|].
    intros i b Hi. rewrite Nat.Div0.add_mod_idemp_l. replace (h + 1 + i)%nat with (h + S i)%nat by lia. by apply Hs.
Qed.

(** A full ring that loses its oldest byte to the new one. *)
Lemma spells_rotate (n : nat) (buf : list Z) (h : nat) (x : Z) (l : list Z) (b : Z) :
  spells n buf h (x :: l) -> length (x :: l) = n -> spells n (<[h := b]> buf) ((h + 1) mod n) (l ++ [b]).
Proof.
  intros H Hfull. destruct (spells_tail _ _ _ _ _ H) as [_ Ht]. destruct H as (Hb & Hh & _).
  assert (((h + 1) mod n + length l) mod n = h)%nat as Hp.
  { rewrite Nat.Div0.add_mod_idemp_l. simpl in Hfull. replace (h + 1 + length l)%nat with (h + 1 * n)%nat by lia.
    rewrite Nat.Div0.mod_add. by apply Nat.mod_small. }
  rewrite <- Hp at 1. apply spells_snoc; [done|]. simpl in Hfull. lia.
Qed.

End RingFacts.

(** ** Properties *)

Inductive rx_op := RxPush (b : Z) | RxPop.

Definition rx_step (r : Rx) (o : rx_op) : Rx * option Z :=
  match o with
  | RxPush b => (uart_rx_push r b, None)
  | RxPop => uart_rx_pop r
  end.

(** A bounded queue with a count of the bytes it turned away. *)
Definition typed_step (s : list Z * Z) (o : rx_op) : list Z * Z * option Z :=
  match o, s.1 with
  | RxPush b, l => if (length l <? COM1_RX_BUF_SIZE - 1)%nat then ((l ++ [b], s.2), None)
                   else ((l, wrap32 (s.2 + 1)), None)
  | RxPop, [] => (s, None)
  | RxPop, b :: l => ((l, s.2), Some b)
  end.

Fixpoint run_steps {S} (step : S -> rx_op -> S * option Z) (s : S) (ops : list rx_op) : S * list (option Z) :=
  match ops with
  | [] => (s, [])
  | o :: ops => let (s, r) := step s o in let (s, rs) := run_steps step s ops in (s, r :: rs)
  end.

Definition rx_repr (r : Rx) (s : list Z * Z) : Prop :=
  spells COM1_RX_BUF_SIZE (rx_buf r) (rx_head r) s.1 /\ (length s.1 < COM1_RX_BUF_SIZE)%nat /\
  rx_tail r = ((rx_head r + length s.1) mod COM1_RX_BUF_SIZE)%nat /\ rx_dropped r = s.2.

Section Refinement.
Import RingFacts.

Lemma rx_boot_repr : rx_repr rx_boot ([], 0).
Proof. unfold rx_repr, spells. cbn. split_and!; try done; unfold COM1_RX_BUF_SIZE; lia. Qed.

Lemma rx_full (r : Rx) (s : list Z * Z) :
  rx_repr r s -> ((rx_tail r + 1) mod COM1_RX_BUF_SIZE =? rx_head r)%nat = negb (length s.1 <? COM1_RX_BUF_SIZE - 1)%nat.
Proof.
  intros ((_ & Hh & _) & Hl & -> & _). rewrite Nat.Div0.add_mod_idemp_l.
  apply eq_true_iff_eq. rewrite Nat.eqb_eq, negb_true_iff, Nat.ltb_ge. split.
  - intros He. rewrite <- (ring_head COM1_RX_BUF_SIZE (rx_head r)) in He at 2 by done. rewrite <- Nat.add_assoc in He.
    destruct (decide (length s.1 + 1 < COM1_RX_BUF_SIZE)%nat); [apply ring_inj in He|]; unfold COM1_RX_BUF_SIZE in *; lia.
  - intros Hge. replace (rx_head r + length s.1 + 1)%nat with (rx_head r + 1 * COM1_RX_BUF_SIZE)%nat by lia.
    rewrite Nat.Div0.mod_add. by apply Nat.mod_small.
Qed.

Lemma rx_step_repr (r : Rx) (s : list Z * Z) (o : rx_op) :
  rx_repr r s -> rx_repr (rx_step r o).1 (typed_step s o).1 /\ (rx_step r o).2 = (typed_step s o).2.
Proof.
  intros H. pose proof H as (Hs & Hl & Ht & Hd). destruct o as [b|]; cbn [rx_step typed_step].
  - unfold uart_rx_push. rewrite (rx_full r s H). destruct (length s.1 <? COM1_RX_BUF_SIZE - 1)%nat eqn:E; cbn.
    + apply Nat.ltb_lt in E. split; [|done]. unfold rx_repr. cbn. rewrite length_app. simpl.
      rewrite Ht. split_and!; [by apply spells_snoc|lia| |done].
      rewrite Nat.Div0.add_mod_idemp_l. f_equal. lia.
    + split; [|done]. unfold rx_repr. cbn. by rewrite Hd.
  - unfold uart_rx_pop. destruct s as [l d]. cbn in *. destruct l as [|b l]; cbn in *.
    + rewrite ring_head in Ht by apply Hs. by rewrite Ht, Nat.eqb_refl.
    + destruct (spells_tail _ _ _ _ _ Hs) as [Hb Hs']. replace (rx_head r =? rx_tail r)%nat with false.
      * rewrite Hb. split; [|done]. unfold rx_repr. cbn. split_and!; [done|lia| |done].
        rewrite Ht, Nat.Div0.add_mod_idemp_l. f_equal. lia.
      * symmetry. apply Nat.eqb_neq. rewrite Ht. intros He. destruct Hs as (_ & Hh & _).
        rewrite <- (ring_head _ _ Hh) in He at 1. apply ring_inj in He; lia.
Qed.

(** The console input ring is a queue of 255 bytes: any sequence of arriving
    bytes and reads started on the empty ring returns to the readers exactly
    the bytes a bounded queue returns, in their order, and the drop counter is
    the number of bytes that found 255 unread ones. *)
Theorem console_input_refines_queue (ops : list rx_op) :
  exists r, run_steps rx_step rx_boot ops = (r, (run_steps typed_step ([], 0) ops).2) /\
    rx_repr r (run_steps typed_step ([], 0) ops).1.
Proof.
  generalize rx_boot_repr. generalize rx_boot, ([] : list Z, 0).
  induction ops as [|o ops IH]; intros r s Hr; [by exists r|]. cbn [run_steps].
  destruct (rx_step_repr r s o Hr) as [Hr' Ho]. destruct (rx_step r o) as [r1 x], (typed_step s o) as [s1 y]. cbn in *.
  destruct (IH r1 s1 Hr') as (r2 & Hrun & Hr2). rewrite Hrun. exists r2.
  destruct (run_steps typed_step s1 ops) as [s2 ys]. cbn in *. by subst y.
Qed.

(** *** The log *)

Definition log_repr (r : RingBuffer.t) (bs : list Z) : Prop :=
  spells RING_SIZE (RingBuffer.buf r) (RingBuffer.head r) (drop (length bs - RING_SIZE) bs) /\
  RingBuffer.len r = Nat.min (length bs) RING_SIZE /\
  length (RingBuffer.boot r) = BOOT_RECORD_SIZE /\ RingBuffer.boot_len r = Nat.min (length bs) BOOT_RECORD_SIZE /\
  take (RingBuffer.boot_len r) (RingBuffer.boot r) = take BOOT_RECORD_SIZE bs.

Lemma boot_write (l : list Z) (n : nat) (b : Z) (bs : list Z) :
  length l = BOOT_RECORD_SIZE -> n = length bs -> (length bs < BOOT_RECORD_SIZE)%nat ->
  take n l = take BOOT_RECORD_SIZE bs -> take (n + 1) (<[n := b]> l) = take BOOT_RECORD_SIZE (bs ++ [b]).
Proof.
  intros Hl -> Hlt Ht. rewrite (take_ge bs) in Ht by lia. rewrite (take_ge (bs ++ [b])) by (rewrite length_app; simpl; lia).
  rewrite Nat.add_1_r, (take_S_r _ _ b) by (apply list_lookup_insert_eq; lia). f_equal.
  rewrite take_insert_ge by lia. exact Ht.
Qed.

Lemma log_step (r : RingBuffer.t) (bs : list Z) (b : Z) : log_repr r bs -> log_repr (RingBuffer.write_byte r b) (bs ++ [b]).
Proof.
  intros (Hs & Hlen & Hb & Hbl & Ht). assert (0 < RING_SIZE)%nat by (unfold RING_SIZE; lia).
  set (r1 := if (RingBuffer.boot_len r <? BOOT_RECORD_SIZE)%nat
             then RingBuffer.mk (RingBuffer.buf r) (RingBuffer.head r) (RingBuffer.len r)
                    (<[RingBuffer.boot_len r := b]> (RingBuffer.boot r)) (RingBuffer.boot_len r + 1)
             else r).
  assert (RingBuffer.buf r1 = RingBuffer.buf r /\ RingBuffer.head r1 = RingBuffer.head r /\ RingBuffer.len r1 = RingBuffer.len r
    /\ length (RingBuffer.boot r1) = BOOT_RECORD_SIZE /\ RingBuffer.boot_len r1 = Nat.min (length (bs ++ [b])) BOOT_RECORD_SIZE
    /\ take (RingBuffer.boot_len r1) (RingBuffer.boot r1) = take BOOT_RECORD_SIZE (bs ++ [b]))
    as (E1 & E2 & E3 & E4 & E5 & E6).
  { unfold r1. rewrite length_app. cbn [length]. destruct (RingBuffer.boot_len r <? BOOT_RECORD_SIZE)%nat eqn:E; cbn [RingBuffer.buf RingBuffer.head RingBuffer.len RingBuffer.boot RingBuffer.boot_len].
    - apply Nat.ltb_lt in E. rewrite length_insert. split_and!; try done; [lia|]. apply boot_write; try done; lia.
    - apply Nat.ltb_ge in E. split_and!; try done; [lia|]. rewrite Ht, take_app_le by lia. done. }
  unfold RingBuffer.write_byte. fold r1. cbv zeta. rewrite E1, E2, E3.
  destruct (RingBuffer.len r =? RING_SIZE)%nat eqn:E; unfold log_repr; cbn [RingBuffer.buf RingBuffer.head RingBuffer.len RingBuffer.boot RingBuffer.boot_len]; rewrite length_app; cbn [length].
  - apply Nat.eqb_eq in E. split_and!; try done; [|lia|by rewrite E5, length_app].
    destruct (drop (length bs - RING_SIZE) bs) as [|x l] eqn:Ed;
      [apply (f_equal length) in Ed; rewrite length_drop in Ed; cbn in Ed; unfold RING_SIZE in *; lia|].
    replace (drop (length bs + 1 - RING_SIZE) (bs ++ [b])) with (l ++ [b]);
      [apply (spells_rotate _ _ _ x); [done|rewrite <- Ed, length_drop; lia]|].
    rewrite drop_app_le by lia. f_equal. replace (length bs + 1 - RING_SIZE)%nat with (length bs - RING_SIZE + 1)%nat by lia.
    rewrite <- drop_drop, Ed. done.
  - apply Nat.eqb_neq in E. split_and!; try done; [|lia|by rewrite E5, length_app].
    replace (length bs - RING_SIZE)%nat with 0%nat in Hs by lia. replace (length bs + 1 - RING_SIZE)%nat with 0%nat by lia.
    rewrite !drop_0 in *. replace (RingBuffer.len r) with (length bs) by lia. apply spells_snoc; [done|lia].
Qed.

Lemma log_new_repr : log_repr RingBuffer.new [].
Proof.
  assert (0 < RING_SIZE)%nat by (unfold RING_SIZE; lia). unfold log_repr, spells, RingBuffer.new.
  cbn [length drop RingBuffer.buf RingBuffer.head RingBuffer.len RingBuffer.boot RingBuffer.boot_len].
  rewrite !length_replicate, drop_nil, !take_nil, !Nat.min_0_l. split_and!; try done; cbn [length]; lia.
Qed.

Lemma drain_spells (n : nat) (r : RingBuffer.t) (l : list Z) :
  spells RING_SIZE (RingBuffer.buf r) (RingBuffer.head r) l -> length l = n -> (RingBuffer.drain_loop n r).2 = l.
Proof.
  revert r l. induction n as [|n IH]; intros r l Hs Hn; [by destruct l|]. destruct l as [|x l]; [done|].
  cbn [RingBuffer.drain_loop]. destruct (spells_tail _ _ _ _ _ Hs) as [Hx Hs']. rewrite Hx.
  specialize (IH (RingBuffer.mk (RingBuffer.buf r) ((RingBuffer.head r + 1) mod RING_SIZE) (RingBuffer.len r - 1)
    (RingBuffer.boot r) (RingBuffer.boot_len r)) l Hs' ltac:(simpl in Hn; lia)).
  destruct (RingBuffer.drain_loop n _) as [s l']. cbn in *. by subst.
Qed.

End Refinement.

(** The log keeps its newest and its oldest bytes: whatever is written, a
    drain yields the last 16 KiB of it in order, and the boot record is its
    first 32 KiB, of which a read at any offset returns the next bytes. *)
Theorem log_keeps_both_ends (bs : list Z) (offset n : nat) :
  let r := RingBuffer.write RingBuffer.new bs in
  (RingBuffer.drain r).2 = drop (length bs - RING_SIZE) bs /\
  RingBuffer.boot_record_read r offset n = take n (drop offset (take BOOT_RECORD_SIZE bs)).
Proof.
  assert (log_repr (RingBuffer.write RingBuffer.new bs) bs) as (Hs & Hlen & Hb & Hbl & Ht).
  { induction bs as [|b bs IH] using rev_ind; [apply log_new_repr|].
    unfold RingBuffer.write. rewrite foldl_snoc. by apply log_step. }
  cbv zeta. generalize dependent (RingBuffer.write RingBuffer.new bs). intros r Hs Hlen Hb Hbl Ht. split.
  - unfold RingBuffer.drain. apply drain_spells; [done|]. rewrite length_drop. lia.
  - unfold RingBuffer.boot_record_read. rewrite <- Ht. destruct (RingBuffer.boot_len r <=? offset)%nat eqn:E.
    + apply Nat.leb_le in E. by rewrite drop_ge, take_nil by (rewrite length_take; lia).
    + apply Nat.leb_gt in E. rewrite skipn_firstn_comm, take_take. done.
Qed.
