(* ===== verification/Routing.v ===== *)
(** * The IPC routing table

    [kernel/src/ipc/routing.rs]: the table of endpoints with their queues and
    blocked tasks, registration with its reserve and mailbox credits, sending,
    receiving, the reply wait of a synchronous call, kernel-originated
    delivery and endpoint death.  [RoutingState] is the table together with
    the file's statics; every public function is one atomic transition, as in
    the source each holds the table lock throughout. *)

From S2P Require Import Prelude Capability Queue.

Definition MAX_ENDPOINTS : nat := 96.

(** [task::scheduler::MAX_TASKS], the length of [CALL_AWAIT_EP]. *)
Definition MAX_TASKS : nat := 224.

Notation EndpointId := Z (only parsing).

Inductive EndpointLiveness := EpAlive | EpDead.

#[export] Instance EndpointLiveness_eq_dec : EqDecision EndpointLiveness.
Proof. solve_decision. Defined.

Record RoutingEntry := mkEntry {
  valid : bool;
  id : EndpointId;
  core_id : Z;
  ep_generation : Generation;
  liveness : EndpointLiveness;
  queue : MessageQueue.t;
  blocked_receiver : option nat;
  blocked_sender : option nat;
  pending_send : option Message
}.

Definition empty_entry : RoutingEntry :=
  mkEntry false 0 0 Generation.INITIAL EpAlive MessageQueue.new None None None.

Record RoutingState := mkRouting {
  TABLE : list RoutingEntry;
  CALL_AWAIT_EP : list Z;
  REFUSED : Z;
  MAILBOX_CREDITS : Z;
  QUEUED_LOST : Z
}.

Definition routing_boot : RoutingState :=
  mkRouting (replicate MAX_ENDPOINTS empty_entry) (replicate MAX_TASKS 0) 0 0 0.

(** ** Field updates *)

Definition with_table (s : RoutingState) (t : list RoutingEntry) : RoutingState :=
  mkRouting t (CALL_AWAIT_EP s) (REFUSED s) (MAILBOX_CREDITS s) (QUEUED_LOST s).
Definition with_await (s : RoutingState) (a : list Z) : RoutingState :=
  mkRouting (TABLE s) a (REFUSED s) (MAILBOX_CREDITS s) (QUEUED_LOST s).

Definition with_queue (e : RoutingEntry) (q : MessageQueue.t) : RoutingEntry :=
  mkEntry (valid e) (id e) (core_id e) (ep_generation e) (liveness e) q
          (blocked_receiver e) (blocked_sender e) (pending_send e).
Definition with_receiver (e : RoutingEntry) (r : option nat) : RoutingEntry :=
  mkEntry (valid e) (id e) (core_id e) (ep_generation e) (liveness e) (queue e)
          r (blocked_sender e) (pending_send e).
Definition with_sender (e : RoutingEntry) (s : option nat) (m : option Message) : RoutingEntry :=
  mkEntry (valid e) (id e) (core_id e) (ep_generation e) (liveness e) (queue e)
          (blocked_receiver e) s m.

(** ** Private helpers *)

Definition has_id (ep : EndpointId) (e : RoutingEntry) : bool := valid e && (id e =? ep).

Definition find_index (table : list RoutingEntry) (ep : EndpointId) : option nat :=
  position (has_id ep) table.

Definition is_dead (e : RoutingEntry) : bool :=
  match liveness e with EpDead => true | EpAlive => false end.

Definition check_live (e : RoutingEntry) (cap_gen : Generation) : result unit IpcError :=
  if is_dead e then Err IpcError.EndpointDead
  else if negb (Generation.matches cap_gen (ep_generation e)) then Err IpcError.EndpointDead
  else Ok tt.

(** ** The outstanding-call record *)

Definition set_call_await (s : RoutingState) (caller_slot : nat) (target : EndpointId) : RoutingState :=
  with_await s (<[caller_slot := target]> (CALL_AWAIT_EP s)).

Definition call_await_endpoint (s : RoutingState) (slot : nat) : Z :=
  default 0 (CALL_AWAIT_EP s !! slot).

Definition clear_call_await (s : RoutingState) (caller_slot : nat) : RoutingState :=
  with_await s (<[caller_slot := 0]> (CALL_AWAIT_EP s)).

(** ** Registration *)

Definition is_reusable (e : RoutingEntry) : bool := negb (valid e) || is_dead e.

(** The slot [register] and [try_register] use: the id's own entry, else the
    first that is free or dead. *)
Definition register_slot (table : list RoutingEntry) (ep : EndpointId) : option nat :=
  match position (has_id ep) table with
  | Some i => Some i
  | None => position is_reusable table
  end.

Definition fresh_entry (e : RoutingEntry) (ep : EndpointId) (core : Z) (g : Generation)
    : RoutingEntry :=
  mkEntry true ep core g EpAlive (MessageQueue.reset (queue e)) None None None.

Definition try_register (s : RoutingState) (ep : EndpointId) (core : Z) (g : Generation)
    : RoutingState * bool :=
  match register_slot (TABLE s) ep with
  | Some i => (with_table s (alter (fun e => fresh_entry e ep core g) i (TABLE s)), true)
  | None => (s, false)
  end.

(** The boot-time form panics when the table is full. *)
Definition register (s : RoutingState) (ep : EndpointId) (core : Z) (g : Generation)
    : outcome RoutingState :=
  match register_slot (TABLE s) ep with
  | Some i => Done (with_table s (alter (fun e => fresh_entry e ep core g) i (TABLE s)))
  | None => Panic
  end.

Definition OPTIONAL_RESERVE : nat := (MAX_ENDPOINTS * 3 / 4)%nat.
Definition CREDIT_FLOOR : nat := (MAX_ENDPOINTS / 8)%nat.

Definition bank_mailbox_credit (s : RoutingState) : RoutingState :=
  mkRouting (TABLE s) (CALL_AWAIT_EP s) (REFUSED s) (wrap64 (MAILBOX_CREDITS s + 1)) (QUEUED_LOST s).

Definition take_mailbox_credit (s : RoutingState) : RoutingState * bool :=
  if MAILBOX_CREDITS s =? 0 then (s, false)
  else (mkRouting (TABLE s) (CALL_AWAIT_EP s) (REFUSED s) (MAILBOX_CREDITS s - 1) (QUEUED_LOST s), true).

Definition count_refusal (s : RoutingState) : RoutingState :=
  mkRouting (TABLE s) (CALL_AWAIT_EP s) (wrap64 (REFUSED s + 1)) (MAILBOX_CREDITS s) (QUEUED_LOST s).

Inductive OptionalGrant :=
| Free
| Credit (free total reserve : nat).

Record OptionalRefusal := mkRefusal {
  ref_free : nat;
  ref_total : nat;
  ref_reserve : nat;
  ref_count : Z
}.

Definition refuse (s : RoutingState) (free : nat) : RoutingState * result OptionalGrant OptionalRefusal :=
  let s := count_refusal s in
  (s, Err (mkRefusal free MAX_ENDPOINTS OPTIONAL_RESERVE (REFUSED s))).

Definition free_slots (s : RoutingState) : nat := count is_reusable (TABLE s).

Definition try_register_optional (s : RoutingState) (ep : EndpointId) (core : Z)
    (g : Generation) (watched : bool) : RoutingState * result OptionalGrant OptionalRefusal :=
  let free := free_slots s in
  let (s, credited) :=
    if (free <=? OPTIONAL_RESERVE)%nat && (CREDIT_FLOOR <? free)%nat && watched
    then take_mailbox_credit s else (s, false) in
  if credited then
    let (s, ok) := try_register s ep core g in
    if ok then (s, Ok (Credit free MAX_ENDPOINTS OPTIONAL_RESERVE))
    else refuse (bank_mailbox_credit s) 0
  else if (free <=? OPTIONAL_RESERVE)%nat then refuse s free
  else
    let (s, ok) := try_register s ep core g in
    if ok then (s, Ok Free) else refuse s 0.

(** ** Queries *)

Definition count_live_endpoints (s : RoutingState) : nat :=
  count (fun e => valid e && negb (is_dead e)) (TABLE s).

Definition lookup_entry (s : RoutingState) (ep : EndpointId) : option RoutingEntry :=
  i ← find_index (TABLE s) ep; TABLE s !! i.

Definition get_generation (s : RoutingState) (ep : EndpointId) : Generation :=
  match lookup_entry s ep with
  | Some e => ep_generation e
  | None => Generation.INITIAL
  end.

Definition endpoint_queue_depth (s : RoutingState) (ep : EndpointId) : nat :=
  match lookup_entry s ep with
  | Some e => MessageQueue.depth (queue e)
  | None => 0
  end.

(** ** Sending *)

(** The delivery step of a live entry: [Ok rx] with the receiver to wake, or
    the message handed back when the queue is full. *)
Definition deliver (e : RoutingEntry) (msg : Message)
    : RoutingEntry * result (option nat) Message :=
  match blocked_receiver e with
  | Some slot =>
      match MessageQueue.enqueue (queue e) msg with
      | (q, Ok _) => (with_receiver (with_queue e q) None, Ok (Some slot))
      | (q, Err msg) => (with_receiver (with_queue e q) (Some slot), Err msg)
      end
  | None =>
      match MessageQueue.enqueue (queue e) msg with
      | (q, Ok _) => (with_queue e q, Ok None)
      | (q, Err msg) => (with_queue e q, Err msg)
      end
  end.

Definition enqueue (s : RoutingState) (ep : EndpointId) (msg : Message) (cap_gen : Generation)
    (blocked_sender_slot : option nat) : RoutingState * result (option nat) IpcError :=
  match find_index (TABLE s) ep with
  | None => (s, Err IpcError.EndpointDead)
  | Some idx =>
      match TABLE s !! idx with
      | None => (s, Err IpcError.EndpointDead)
      | Some e =>
          match check_live e cap_gen with
          | Err err => (s, Err err)
          | Ok _ =>
              match deliver e msg with
              | (e, Ok rx) => (with_table s (<[idx := e]> (TABLE s)), Ok rx)
              | (e, Err msg) =>
                  let e := match blocked_sender_slot with
                           | Some slot => with_sender e (Some slot) (Some msg)
                           | None => e
                           end in
                  (with_table s (<[idx := e]> (TABLE s)), Err IpcError.QueueFull)
              end
          end
      end
  end.

Inductive Enqueue :=
| Woke (slot : nat)
| Queued
| NoEndpoint
| EnqueueQueueFull.

Definition enqueue_from_interrupt (s : RoutingState) (ep : EndpointId) (msg : Message)
    : RoutingState * Enqueue :=
  match find_index (TABLE s) ep with
  | None => (s, NoEndpoint)
  | Some idx =>
      match TABLE s !! idx with
      | None => (s, NoEndpoint)
      | Some e =>
          if is_dead e then (s, NoEndpoint)
          else match deliver e msg with
               | (e, Ok (Some slot)) => (with_table s (<[idx := e]> (TABLE s)), Woke slot)
               | (e, Ok None) => (with_table s (<[idx := e]> (TABLE s)), Queued)
               | (e, Err _) => (with_table s (<[idx := e]> (TABLE s)), EnqueueQueueFull)
               end
      end
  end.

Definition enqueue_from_kernel_blocking (s : RoutingState) (ep : EndpointId) (msg : Message)
    (sender_slot : nat) : RoutingState * result (option nat) IpcError :=
  match find_index (TABLE s) ep with
  | None => (s, Err IpcError.EndpointDead)
  | Some idx =>
      match TABLE s !! idx with
      | None => (s, Err IpcError.EndpointDead)
      | Some e =>
          if is_dead e then (s, Err IpcError.EndpointDead)
          else match deliver e msg with
               | (e, Ok rx) => (with_table s (<[idx := e]> (TABLE s)), Ok rx)
               | (e, Err msg) =>
                   (with_table s (<[idx := with_sender e (Some sender_slot) (Some msg)]> (TABLE s)),
                    Err IpcError.QueueFull)
               end
      end
  end.

(** ** Receiving *)

(** A slot was freed: move a blocked sender's message into it. *)
Definition promote (e : RoutingEntry) : RoutingEntry * option nat :=
  match blocked_sender e with
  | Some slot =>
      match pending_send e with
      | Some pending =>
          (with_sender (with_queue e (MessageQueue.enqueue (queue e) pending).1) None None, Some slot)
      | None => (with_sender e None None, Some slot)
      end
  | None => (e, None)
  end.

Definition dequeue (s : RoutingState) (ep : EndpointId) (cap_gen : Generation)
    (blocked_receiver_slot : option nat)
    : RoutingState * result (Message * option nat) IpcError :=
  match find_index (TABLE s) ep with
  | None => (s, Err IpcError.EndpointDead)
  | Some idx =>
      match TABLE s !! idx with
      | None => (s, Err IpcError.EndpointDead)
      | Some e =>
          match check_live e cap_gen with
          | Err err => (s, Err err)
          | Ok _ =>
              match MessageQueue.dequeue (queue e) with
              | (q, Some msg) =>
                  let (e, tx) := promote (with_queue e q) in
                  (with_table s (<[idx := e]> (TABLE s)), Ok (msg, tx))
              | (q, None) =>
                  let e := match blocked_receiver_slot with
                           | Some slot => with_receiver (with_queue e q) (Some slot)
                           | None => with_queue e q
                           end in
                  (with_table s (<[idx := e]> (TABLE s)), Err IpcError.QueueEmpty)
              end
          end
      end
  end.

Definition dequeue_reply_locked (s : RoutingState) (ep : EndpointId) (cap_gen : Generation)
    (target : EndpointId) : RoutingState * result (Message * option nat) IpcError :=
  match find_index (TABLE s) ep with
  | None => (s, Err IpcError.EndpointDead)
  | Some idx =>
      match TABLE s !! idx with
      | None => (s, Err IpcError.EndpointDead)
      | Some e =>
          match check_live e cap_gen with
          | Err err => (s, Err err)
          | Ok _ =>
              match MessageQueue.dequeue_matching (queue e) target with
              | (q, Some msg) =>
                  let (e, tx) := promote (with_queue e q) in
                  (with_table s (<[idx := e]> (TABLE s)), Ok (msg, tx))
              | (q, None) =>
                  (with_table s (<[idx := with_queue e q]> (TABLE s)), Err IpcError.QueueEmpty)
              end
          end
      end
  end.

Definition target_alive (s : RoutingState) (target : EndpointId) : bool :=
  match lookup_entry s target with
  | Some e => negb (is_dead e)
  | None => false
  end.

Definition call_dequeue (s : RoutingState) (recv_ep : EndpointId) (recv_gen : Generation)
    (target : EndpointId) (caller_slot : nat)
    : RoutingState * result (Message * option nat) IpcError :=
  match dequeue_reply_locked s recv_ep recv_gen target with
  | (s, Ok got) => (clear_call_await s caller_slot, Ok got)
  | (s, Err IpcError.QueueEmpty) =>
      if negb (target_alive s target)
      then (clear_call_await s caller_slot, Err IpcError.ReplyDead)
      else
        let s := match find_index (TABLE s) recv_ep with
                 | Some j => with_table s (alter (fun e => with_receiver e (Some caller_slot)) j (TABLE s))
                 | None => s
                 end in
        (set_call_await s caller_slot target, Err IpcError.QueueEmpty)
  | (s, Err e) => (clear_call_await s caller_slot, Err e)
  end.

(** ** Death *)

Definition take_call_waiter (s : RoutingState) (dead_ep : EndpointId) : RoutingState * option nat :=
  match position (fun a => a =? dead_ep) (CALL_AWAIT_EP s) with
  | Some slot => (with_await s (<[slot := 0]> (CALL_AWAIT_EP s)), Some slot)
  | None => (s, None)
  end.

Definition kill_entry (e : RoutingEntry) (g : Generation) : RoutingEntry :=
  mkEntry (valid e) (id e) (core_id e) g EpDead
          (default (queue e) (MessageQueue.drain (queue e))) None None None.

Definition kill_endpoint (s : RoutingState) (ep : EndpointId)
    : outcome (RoutingState * (option nat * option nat)) :=
  match find_index (TABLE s) ep with
  | None => Done (s, (None, None))
  | Some idx =>
      match TABLE s !! idx with
      | None => Done (s, (None, None))
      | Some e =>
          g ← Generation.bump (ep_generation e);
          let discarded := MessageQueue.len (queue e) in
          Done (mkRouting (<[idx := kill_entry e g]> (TABLE s)) (CALL_AWAIT_EP s) (REFUSED s)
                  (MAILBOX_CREDITS s)
                  (if (0 <? discarded)%nat then wrap64 (QUEUED_LOST s + Z.of_nat discarded)
                   else QUEUED_LOST s),
                (blocked_receiver e, blocked_sender e))
      end
  end.

(** The kill path's loop over [take_call_waiter] ([None]: out of fuel). *)
Fixpoint drain_call_waiters (fuel : nat) (s : RoutingState) (dead_ep : EndpointId)
    : option (RoutingState * list nat) :=
  match fuel with
  | O => None
  | S fuel =>
      match take_call_waiter s dead_ep with
      | (s, Some slot) => '(s, slots) ← drain_call_waiters fuel s dead_ep; Some (s, slot :: slots)
      | (s, None) => Some (s, [])
      end
  end.

(** ** The table invariant *)

Record entry_wf (e : RoutingEntry) : Prop := mk_entry_wf {
  ewf_queue : MessageQueue.wf (queue e);
  (** a blocked sender always has its message parked, and only then *)
  ewf_sender : is_Some (blocked_sender e) <-> is_Some (pending_send e);
  (** a sender is parked only behind a full queue *)
  ewf_full : is_Some (blocked_sender e) -> MessageQueue.len (queue e) = QUEUE_DEPTH;
  (** a dead endpoint holds no message and no waiter *)
  ewf_dead : liveness e = EpDead -> MessageQueue.len (queue e) = 0%nat /\
    blocked_receiver e = None /\ blocked_sender e = None
}.

Record routing_wf (s : RoutingState) : Prop := mk_routing_wf {
  rwf_table : length (TABLE s) = MAX_ENDPOINTS;
  rwf_await : length (CALL_AWAIT_EP s) = MAX_TASKS;
  rwf_entries : forall i e, TABLE s !! i = Some e -> entry_wf e;
  (** [find_index] is unambiguous *)
  rwf_unique : forall i j e e', TABLE s !! i = Some e -> TABLE s !! j = Some e' ->
    valid e = true -> valid e' = true -> id e = id e' -> i = j
}.

(** No task waits on a call whose target is dead or gone. *)
Definition calls_live (s : RoutingState) : Prop :=
  forall slot ep, CALL_AWAIT_EP s !! slot = Some ep -> ep <> 0 -> target_alive s ep = true.

(** The messages an endpoint holds, in the order a receiver will see them. *)
Definition backlog (e : RoutingEntry) : list Message :=
  MessageQueue.contents (queue e) ++ option_list (pending_send e).

(** ** Lookup and update *)

Lemma has_id_spec (ep : EndpointId) (e : RoutingEntry) :
  has_id ep e = true <-> valid e = true /\ id e = ep.
Proof. unfold has_id. by rewrite andb_true_iff, Z.eqb_eq. Qed.

Lemma find_index_Some (s : RoutingState) (ep : EndpointId) (i : nat) :
  find_index (TABLE s) ep = Some i ->
  exists e, TABLE s !! i = Some e /\ valid e = true /\ id e = ep /\ lookup_entry s ep = Some e.
Proof.
  intros Hf. pose proof (position_hit _ _ _ Hf) as (e & He & [Hv Hid]%has_id_spec).
  exists e. split_and!; [done..|]. unfold lookup_entry. by rewrite Hf.
Qed.

Lemma lookup_entry_Some (s : RoutingState) (ep : EndpointId) (e : RoutingEntry) :
  lookup_entry s ep = Some e ->
  exists i, find_index (TABLE s) ep = Some i /\ TABLE s !! i = Some e /\
            valid e = true /\ id e = ep.
Proof.
  unfold lookup_entry. intros (i & Hi & He)%bind_Some. exists i.
  destruct (find_index_Some s ep i Hi) as (e' & He' & ? & ? & _). simplify_eq. by split_and!.
Qed.

Lemma find_index_None (s : RoutingState) (ep : EndpointId) :
  find_index (TABLE s) ep = None <-> lookup_entry s ep = None.
Proof.
  unfold lookup_entry. split; [by intros ->|].
  destruct (find_index (TABLE s) ep) as [i|] eqn:E; [|done]. simpl.
  destruct (find_index_Some s ep i E) as (e & -> & _). done.
Qed.

(** A store at an entry's index that keeps its identity. *)
Lemma lookup_entry_update (s : RoutingState) (ep ep' : EndpointId) (i : nat) (e e' : RoutingEntry) :
  find_index (TABLE s) ep = Some i -> TABLE s !! i = Some e ->
  valid e' = valid e -> id e' = id e ->
  lookup_entry (with_table s (<[i := e']> (TABLE s))) ep' =
  if decide (ep' = ep) then Some e' else lookup_entry s ep'.
Proof.
  intros Hf He Hv Hid. unfold lookup_entry, find_index; simpl.
  rewrite (position_insert_same _ _ _ _ e) by (done || by unfold has_id; rewrite Hv, Hid).
  case_decide; subst.
  - unfold find_index in Hf. rewrite Hf. simpl. apply list_lookup_insert_eq.
    by eapply lookup_lt_Some.
  - destruct (position (has_id ep') (TABLE s)) as [j|] eqn:Ej; [|done]. simpl.
    apply list_lookup_insert_ne. intros <-.
    apply position_hit in Ej as (x & Hx & [_ Hid']%has_id_spec).
    destruct (find_index_Some s ep i Hf) as (y & Hy & _ & ? & _). by simplify_eq.
Qed.

Lemma routing_wf_update (s : RoutingState) (i : nat) (e e' : RoutingEntry) :
  routing_wf s -> TABLE s !! i = Some e -> valid e' = valid e -> id e' = id e ->
  entry_wf e' -> routing_wf (with_table s (<[i := e']> (TABLE s))).
Proof.
  intros [Hlen Haw Hent Huniq] He Hv Hid Hwf. split; simpl; [by autorewrite with gs|done|..].
  - intros j x [[-> ->]|[_ Hx]]%lookup_insert_cases; eauto.
  - intros j k x y Hx Hy Hvx Hvy Hxy.
    apply lookup_insert_cases in Hx as [[-> ->]|[? Hx]];
    apply lookup_insert_cases in Hy as [[? ->]|[? Hy]]; try done.
    + eapply (Huniq j k e y); congruence.
    + eapply (Huniq j k x e); congruence.
    + eauto.
Qed.

Lemma lookup_entry_wf (s : RoutingState) (ep : EndpointId) (e : RoutingEntry) :
  routing_wf s -> lookup_entry s ep = Some e -> entry_wf e.
Proof. intros Hwf (i & _ & He & _)%lookup_entry_Some. by eapply rwf_entries. Qed.

(** ** Entry-level facts *)

Lemma dequeue_len (q q' : MessageQueue.t) (m : Message) :
  MessageQueue.dequeue q = (q', Some m) -> MessageQueue.len q = S (MessageQueue.len q').
Proof.
  unfold MessageQueue.dequeue, MessageQueue.is_empty.
  destruct (MessageQueue.len q =? 0)%nat eqn:E; [done|]. apply Nat.eqb_neq in E.
  intros [= <- _]. simpl. lia.
Qed.

Lemma drain_total (q : MessageQueue.t) : is_Some (MessageQueue.drain q).
Proof.
  unfold MessageQueue.drain. remember (MessageQueue.len q) as n eqn:Hn.
  revert q Hn. induction n as [|n IH]; intros q Hn; cbn [MessageQueue.drain_loop];
    destruct (MessageQueue.dequeue q) as [q' [m|]] eqn:E; try by eauto.
  - apply dequeue_len in E. lia.
  - apply dequeue_len in E. apply IH. lia.
Qed.

Lemma queue_empty_wf (q : MessageQueue.t) :
  MessageQueue.wf q -> MessageQueue.len q = 0%nat <-> MessageQueue.contents q = [].
Proof.
  intros H%QueueFacts.wf_repr. destruct H as (_ & _ & _ & Hlen & _). rewrite Hlen.
  by rewrite length_zero_iff_nil.
Qed.

Lemma queue_len (q : MessageQueue.t) :
  MessageQueue.wf q -> MessageQueue.len q = length (MessageQueue.contents q).
Proof. intros H%QueueFacts.wf_repr. by destruct H as (_ & _ & _ & Hlen & _). Qed.

Lemma check_live_Ok (e : RoutingEntry) (g : Generation) :
  check_live e g = Ok tt <-> liveness e = EpAlive /\ ep_generation e = g.
Proof.
  unfold check_live, is_dead, Generation.matches.
  destruct (liveness e); [|naive_solver].
  destruct (g =? ep_generation e) eqn:E; to_prop; simpl; naive_solver.
Qed.

Lemma check_live_cases (e : RoutingEntry) (g : Generation) :
  check_live e g = Ok tt \/ check_live e g = Err IpcError.EndpointDead.
Proof. unfold check_live. repeat case_match; auto. Qed.

Lemma is_dead_false (e : RoutingEntry) : is_dead e = false <-> liveness e = EpAlive.
Proof. unfold is_dead. by destruct (liveness e). Qed.

Lemma deliver_room (e : RoutingEntry) (m : Message) :
  entry_wf e -> liveness e = EpAlive ->
  (length (MessageQueue.contents (queue e)) < QUEUE_DEPTH)%nat ->
  exists e', deliver e m = (e', Ok (blocked_receiver e)) /\ entry_wf e' /\
    valid e' = valid e /\ id e' = id e /\ ep_generation e' = ep_generation e /\
    liveness e' = EpAlive /\ blocked_receiver e' = None /\
    blocked_sender e' = None /\ backlog e' = backlog e ++ [m].
Proof.
  intros [Hq Hs Hf _] Hlive Hroom.
  pose proof (proj1 (QueueFacts.wf_repr _) Hq) as Hrep.
  destruct (QueueFacts.repr_enqueue _ _ m Hrep Hroom) as (q' & Hq' & Hrep').
  assert (blocked_sender e = None) as Hbs.
  { destruct (blocked_sender e) eqn:E; [|done]. rewrite queue_len in Hf by done.
    specialize (Hf (mk_is_Some _ _ eq_refl)). lia. }
  assert (pending_send e = None) as Hps.
  { destruct (pending_send e) eqn:E; [|done]. destruct Hs as [_ Hs].
    rewrite Hbs in Hs. by destruct Hs. }
  unfold deliver. rewrite Hq'.
  exists (with_receiver (with_queue e q') None).
  assert (entry_wf (with_receiver (with_queue e q') None)).
  { split; simpl; [by eapply QueueFacts.repr_wf|by rewrite Hbs, Hps|..]; rewrite ?Hbs, ?Hlive; [|done].
    by intros []. }
  split_and!; try done.
  - destruct (blocked_receiver e) eqn:E; [done|]. f_equal. unfold with_receiver; simpl.
    unfold with_queue. by rewrite E.
  - unfold backlog; simpl. rewrite Hps. simpl. rewrite !app_nil_r.
    by apply QueueFacts.repr_contents.
Qed.

Lemma deliver_full (e : RoutingEntry) (m : Message) :
  entry_wf e -> length (MessageQueue.contents (queue e)) = QUEUE_DEPTH ->
  deliver e m = (e, Err m).
Proof.
  intros [Hq _ _ _] Hfull. pose proof (proj1 (QueueFacts.wf_repr _) Hq) as Hrep.
  unfold deliver. rewrite (QueueFacts.repr_enqueue_full _ _ m Hrep Hfull).
  destruct e as [? ? ? ? ? ? [] ? ?]; done.
Qed.

Lemma contents_le (e : RoutingEntry) :
  entry_wf e -> (length (MessageQueue.contents (queue e)) <= QUEUE_DEPTH)%nat.
Proof. intros [Hq _ _ _]. rewrite <- queue_len by done. by destruct Hq. Qed.

(** Parking the sender of a message the queue had no room for. *)
Lemma park_wf (e : RoutingEntry) (slot : nat) (m : Message) :
  entry_wf e -> liveness e = EpAlive ->
  length (MessageQueue.contents (queue e)) = QUEUE_DEPTH ->
  entry_wf (with_sender e (Some slot) (Some m)).
Proof.
  intros [Hq Hs Hf Hd] Hlive Hfull. split; simpl; [done| |..].
  - split; eauto.
  - intros _. by rewrite queue_len.
  - by rewrite Hlive.
Qed.

(** After one message left the queue: the parked message takes its place. *)
Lemma promote_spec (e : RoutingEntry) (q : MessageQueue.t) (l : list Message) :
  entry_wf e -> liveness e = EpAlive -> QueueFacts.repr q l -> (length l < QUEUE_DEPTH)%nat ->
  exists e', promote (with_queue e q) = (e', blocked_sender e) /\ entry_wf e' /\
    valid e' = valid e /\ id e' = id e /\ ep_generation e' = ep_generation e /\
    liveness e' = EpAlive /\ blocked_receiver e' = blocked_receiver e /\
    blocked_sender e' = None /\ backlog e' = l ++ option_list (pending_send e).
Proof.
  intros [Hq Hs Hf _] Hlive Hrep Hroom. unfold promote. simpl.
  destruct (blocked_sender e) as [slot|] eqn:Ebs.
  - destruct Hs as [[m Hm] _]; [done|]. rewrite Hm.
    destruct (QueueFacts.repr_enqueue _ _ m Hrep Hroom) as (q' & Hq' & Hrep').
    rewrite Hq'. eexists; split; [done|]. split_and!; simpl; try done.
    + split; simpl; [by eapply QueueFacts.repr_wf|split; by intros []|by intros []|].
      by rewrite Hlive.
    + unfold backlog; simpl. rewrite app_nil_r. by apply QueueFacts.repr_contents.
  - assert (pending_send e = None) as Hps.
    { destruct (pending_send e); [|done]. destruct Hs as [_ Hs]. by destruct Hs. }
    eexists; split; [done|]. split_and!; simpl; try done.
    + split; simpl; [by eapply QueueFacts.repr_wf|by rewrite Ebs, Hps|by rewrite Ebs; intros []|].
      by rewrite Hlive.
    + unfold backlog; simpl. rewrite Hps. by rewrite (QueueFacts.repr_contents q l).
Qed.

(** ** Operation-level facts *)

(** [s'] is [s] with endpoint [ep]'s entry replaced by [e']. *)
Record entry_update (s s' : RoutingState) (ep : EndpointId) (e' : RoutingEntry) : Prop := {
  eu_wf : routing_wf s';
  eu_lookup : forall ep', lookup_entry s' ep' = if decide (ep' = ep) then Some e' else lookup_entry s ep';
  eu_await : CALL_AWAIT_EP s' = CALL_AWAIT_EP s
}.

Lemma store_update (s : RoutingState) (ep : EndpointId) (i : nat) (e e' : RoutingEntry) :
  routing_wf s -> find_index (TABLE s) ep = Some i -> TABLE s !! i = Some e ->
  valid e' = valid e -> id e' = id e -> entry_wf e' ->
  entry_update s (with_table s (<[i := e']> (TABLE s))) ep e'.
Proof.
  intros Hwf Hf He Hv Hid Hwf'. split; [by eapply routing_wf_update| |done].
  intros ep'. by eapply lookup_entry_update.
Qed.

Lemma enqueue_refused (s : RoutingState) (ep : EndpointId) (m : Message) (g : Generation)
    (bs : option nat) :
  (forall e, lookup_entry s ep = Some e -> check_live e g <> Ok tt) ->
  enqueue s ep m g bs = (s, Err IpcError.EndpointDead).
Proof.
  intros Hno. unfold enqueue. destruct (find_index (TABLE s) ep) as [i|] eqn:Hf; [|done].
  destruct (find_index_Some s ep i Hf) as (e & -> & _ & _ & Hl).
  destruct (check_live_cases e g) as [H|H]; [by destruct (Hno e Hl)|]. by rewrite H.
Qed.

Lemma enqueue_room (s : RoutingState) (ep : EndpointId) (m : Message) (bs : option nat) (e : RoutingEntry) :
  routing_wf s -> lookup_entry s ep = Some e -> liveness e = EpAlive ->
  (length (MessageQueue.contents (queue e)) < QUEUE_DEPTH)%nat ->
  exists s' e', enqueue s ep m (ep_generation e) bs = (s', Ok (blocked_receiver e)) /\
    entry_update s s' ep e' /\ blocked_receiver e' = None /\ liveness e' = EpAlive /\
    ep_generation e' = ep_generation e /\ backlog e' = backlog e ++ [m].
Proof.
  intros Hwf Hl Hlive Hroom. destruct (lookup_entry_Some _ _ _ Hl) as (i & Hf & He & _).
  assert (entry_wf e) as Hewf by (by eapply rwf_entries).
  destruct (deliver_room e m Hewf Hlive Hroom) as (e' & Hd & ? & ? & ? & ? & ? & ? & ? & ?).
  eexists _, e'. unfold enqueue.
  rewrite Hf, He, (proj2 (check_live_Ok e (ep_generation e)) (conj Hlive eq_refl)), Hd.
  split; [done|]. split_and!; [|done..]. by eapply store_update.
Qed.

Lemma enqueue_full (s : RoutingState) (ep : EndpointId) (m : Message) (bs : option nat) (e : RoutingEntry) :
  routing_wf s -> lookup_entry s ep = Some e -> liveness e = EpAlive ->
  length (MessageQueue.contents (queue e)) = QUEUE_DEPTH ->
  exists s', enqueue s ep m (ep_generation e) bs = (s', Err IpcError.QueueFull) /\
    entry_update s s' ep (match bs with Some slot => with_sender e (Some slot) (Some m) | None => e end).
Proof.
  intros Hwf Hl Hlive Hfull. destruct (lookup_entry_Some _ _ _ Hl) as (i & Hf & He & _).
  assert (entry_wf e) as Hewf by (by eapply rwf_entries).
  eexists. unfold enqueue.
  rewrite Hf, He, (proj2 (check_live_Ok e (ep_generation e)) (conj Hlive eq_refl)),
    (deliver_full e m Hewf Hfull).
  split; [done|]. eapply store_update; try done; destruct bs; try done. by apply park_wf.
Qed.

Lemma dequeue_refused (s : RoutingState) (ep : EndpointId) (g : Generation) (br : option nat) :
  (forall e, lookup_entry s ep = Some e -> check_live e g <> Ok tt) ->
  dequeue s ep g br = (s, Err IpcError.EndpointDead).
Proof.
  intros Hno. unfold dequeue. destruct (find_index (TABLE s) ep) as [i|] eqn:Hf; [|done].
  destruct (find_index_Some s ep i Hf) as (e & -> & _ & _ & Hl).
  destruct (check_live_cases e g) as [H|H]; [by destruct (Hno e Hl)|]. by rewrite H.
Qed.

Lemma dequeue_message (s : RoutingState) (ep : EndpointId) (br : option nat) (e : RoutingEntry)
    (m : Message) (l : list Message) :
  routing_wf s -> lookup_entry s ep = Some e -> liveness e = EpAlive ->
  MessageQueue.contents (queue e) = m :: l ->
  exists s' e', dequeue s ep (ep_generation e) br = (s', Ok (m, blocked_sender e)) /\
    entry_update s s' ep e' /\ blocked_receiver e' = blocked_receiver e /\
    blocked_sender e' = None /\ liveness e' = EpAlive /\
    ep_generation e' = ep_generation e /\ backlog e = m :: backlog e'.
Proof.
  intros Hwf Hl Hlive Hc. destruct (lookup_entry_Some _ _ _ Hl) as (i & Hf & He & _).
  assert (entry_wf e) as Hewf by (by eapply rwf_entries).
  pose proof (proj1 (QueueFacts.wf_repr _) (ewf_queue _ Hewf)) as Hrep.
  pose proof (contents_le e Hewf) as Hle. rewrite Hc in *. simpl in Hle.
  destruct (QueueFacts.repr_dequeue_cons _ _ _ Hrep) as (q' & Hq & Hrep').
  destruct (promote_spec e q' l Hewf Hlive Hrep') as (e' & Hp & ? & ? & ? & ? & ? & ? & ? & Hb); [lia|].
  eexists _, e'. unfold dequeue.
  rewrite Hf, He, (proj2 (check_live_Ok e (ep_generation e)) (conj Hlive eq_refl)), Hq, Hp.
  split; [done|]. split_and!; try done; [by eapply store_update|].
  unfold backlog at 1. by rewrite Hc, Hb.
Qed.

Lemma dequeue_empty (s : RoutingState) (ep : EndpointId) (br : option nat) (e : RoutingEntry) :
  routing_wf s -> lookup_entry s ep = Some e -> liveness e = EpAlive ->
  MessageQueue.contents (queue e) = [] ->
  exists s', dequeue s ep (ep_generation e) br = (s', Err IpcError.QueueEmpty) /\
    entry_update s s' ep (match br with Some slot => with_receiver e (Some slot) | None => e end).
Proof.
  intros Hwf Hl Hlive Hc. destruct (lookup_entry_Some _ _ _ Hl) as (i & Hf & He & _).
  assert (entry_wf e) as Hewf by (by eapply rwf_entries).
  pose proof (proj1 (QueueFacts.wf_repr _) (ewf_queue _ Hewf)) as Hrep. rewrite Hc in Hrep.
  eexists. unfold dequeue.
  rewrite Hf, He, (proj2 (check_live_Ok e (ep_generation e)) (conj Hlive eq_refl)),
    (QueueFacts.repr_dequeue_nil _ Hrep).
  assert (with_queue e (queue e) = e) as -> by (by destruct e).
  split; [done|]. eapply store_update; try done; destruct br; try done.
  destruct Hewf as [? ? ? ?]. split; simpl; try done. by rewrite Hlive.
Qed.

(** ** Replies *)

Lemma dequeue_reply_refused (s : RoutingState) (ep tgt : EndpointId) (g : Generation) :
  (forall e, lookup_entry s ep = Some e -> check_live e g <> Ok tt) ->
  dequeue_reply_locked s ep g tgt = (s, Err IpcError.EndpointDead).
Proof.
  intros Hno. unfold dequeue_reply_locked.
  destruct (find_index (TABLE s) ep) as [i|] eqn:Hf; [|done].
  destruct (find_index_Some s ep i Hf) as (e & -> & _ & _ & Hl).
  destruct (check_live_cases e g) as [H|H]; [by destruct (Hno e Hl)|]. by rewrite H.
Qed.

Lemma dequeue_reply_found (s : RoutingState) (ep tgt : EndpointId) (e : RoutingEntry)
    (m : Message) (l : list Message) :
  routing_wf s -> lookup_entry s ep = Some e -> liveness e = EpAlive ->
  take_first_from tgt (MessageQueue.contents (queue e)) = (l, Some m) ->
  exists s' e', dequeue_reply_locked s ep (ep_generation e) tgt = (s', Ok (m, blocked_sender e)) /\
    entry_update s s' ep e' /\ blocked_receiver e' = blocked_receiver e /\
    blocked_sender e' = None /\ liveness e' = EpAlive /\
    ep_generation e' = ep_generation e /\ backlog e' = l ++ option_list (pending_send e).
Proof.
  intros Hwf Hl Hlive Hc. destruct (lookup_entry_Some _ _ _ Hl) as (i & Hf & He & _).
  assert (entry_wf e) as Hewf by (by eapply rwf_entries).
  pose proof (proj1 (QueueFacts.wf_repr _) (ewf_queue _ Hewf)) as Hrep.
  pose proof (contents_le e Hewf) as Hle.
  destruct (QueueFacts.repr_dequeue_matching _ _ tgt Hrep) as (q' & Hq & Hrep').
  rewrite Hc in *. simpl in *.
  apply QueueFacts.take_first_Some in Hc as (k & Hk & _ & Hdel & _).
  assert (length l < QUEUE_DEPTH)%nat as Hlt.
  { rewrite Hdel, length_delete by eauto. apply lookup_lt_Some in Hk. lia. }
  destruct (promote_spec e q' l Hewf Hlive Hrep' Hlt) as (e' & Hp & ? & ? & ? & ? & ? & ? & ? & Hb).
  eexists _, e'. unfold dequeue_reply_locked.
  rewrite Hf, He, (proj2 (check_live_Ok e (ep_generation e)) (conj Hlive eq_refl)), Hq, Hp.
  split; [done|]. split_and!; try done. by eapply store_update.
Qed.

Lemma dequeue_reply_none (s : RoutingState) (ep tgt : EndpointId) (e : RoutingEntry) (l : list Message) :
  routing_wf s -> lookup_entry s ep = Some e -> liveness e = EpAlive ->
  take_first_from tgt (MessageQueue.contents (queue e)) = (l, None) ->
  exists s' e', dequeue_reply_locked s ep (ep_generation e) tgt = (s', Err IpcError.QueueEmpty) /\
    entry_update s s' ep e' /\ entry_wf e' /\ valid e' = valid e /\ id e' = id e /\
    liveness e' = EpAlive /\ ep_generation e' = ep_generation e /\ backlog e' = backlog e.
Proof.
  intros Hwf Hl Hlive Hc. destruct (lookup_entry_Some _ _ _ Hl) as (i & Hf & He & _).
  assert (entry_wf e) as Hewf by (by eapply rwf_entries).
  pose proof (proj1 (QueueFacts.wf_repr _) (ewf_queue _ Hewf)) as Hrep.
  destruct (QueueFacts.repr_dequeue_matching _ _ tgt Hrep) as (q' & Hq & Hrep').
  rewrite Hc in *. simpl in *. apply QueueFacts.take_first_None in Hc as [-> _].
  assert (entry_wf (with_queue e q')) as Hwf'.
  { destruct Hewf as [? ? Hfull ?]. pose proof Hrep' as (_ & _ & _ & Hlen & _).
    split; simpl; [by eapply QueueFacts.repr_wf|done| |by rewrite Hlive].
    intros Hbs. rewrite Hlen, <- queue_len by done. by apply Hfull. }
  eexists _, (with_queue e q'). unfold dequeue_reply_locked.
  rewrite Hf, He, (proj2 (check_live_Ok e (ep_generation e)) (conj Hlive eq_refl)), Hq.
  split; [done|]. split_and!; try done; [by eapply store_update|].
  unfold backlog; simpl. by rewrite (QueueFacts.repr_contents _ _ Hrep').
Qed.

(** ** Registration *)

Lemma fresh_entry_wf (e : RoutingEntry) (ep : EndpointId) (core : Z) (g : Generation) :
  entry_wf e -> entry_wf (fresh_entry e ep core g).
Proof.
  intros [Hq _ _ _]. split; simpl; [|done|by intros []|done].
  eapply QueueFacts.repr_wf, QueueFacts.repr_reset. by destruct Hq.
Qed.

(** The slot chosen never shadows another live endpoint. *)
Lemma register_slot_Some (s : RoutingState) (ep : EndpointId) (i : nat) :
  routing_wf s -> register_slot (TABLE s) ep = Some i ->
  exists e, TABLE s !! i = Some e /\
    (valid e = true /\ id e = ep \/ lookup_entry s ep = None /\ is_reusable e = true).
Proof.
  intros Hwf. unfold register_slot. destruct (position (has_id ep) (TABLE s)) as [j|] eqn:Ej.
  - intros [= <-]. destruct (find_index_Some s ep j Ej) as (e & He & Hv & Hid & _). eauto 10.
  - intros Hp. apply position_hit in Hp as (e & He & Hr). exists e.
    split; [done|]. right. split; [|done]. by apply find_index_None.
Qed.

Lemma store_fresh (s : RoutingState) (ep : EndpointId) (core : Z) (g : Generation) (i : nat) (e : RoutingEntry) :
  routing_wf s -> TABLE s !! i = Some e ->
  valid e = true /\ id e = ep \/ lookup_entry s ep = None /\ is_reusable e = true ->
  let s' := with_table s (<[i := fresh_entry e ep core g]> (TABLE s)) in
  routing_wf s' /\ lookup_entry s' ep = Some (fresh_entry e ep core g) /\
  forall ep', ep' <> ep -> target_alive s' ep' = target_alive s ep'.
Proof.
  intros Hwf He Hcase. cbv zeta. set (e' := fresh_entry e ep core g).
  assert (entry_wf e') as Hwf' by (apply fresh_entry_wf; by eapply rwf_entries).
  destruct Hwf as [Hlen Haw Hent Huniq].
  pose proof (lookup_lt_Some _ _ _ He) as Hlt.
  assert (forall j x, TABLE s !! j = Some x -> valid x = true -> id x = ep -> j = i) as Honly.
  { intros j x Hx Hv Hid. destruct Hcase as [[Hv' Hid']|[Hnone _]].
    - eapply (Huniq j i x e); try done. congruence.
    - apply find_index_None in Hnone. unfold find_index in Hnone. rewrite position_None in Hnone.
      specialize (Hnone j x Hx). by rewrite (proj2 (has_id_spec ep x)) in Hnone. }
  split_and!.
  - split; simpl; [by autorewrite with gs|done|..].
    + intros j x [[-> ->]|[_ Hx]]%lookup_insert_cases; eauto.
    + intros j k x y Hx Hy Hvx Hvy Hxy.
      apply lookup_insert_cases in Hx as [[-> ->]|[? Hx]];
      apply lookup_insert_cases in Hy as [[? ->]|[? Hy]]; try done.
      * simpl in Hxy. symmetry. by eapply Honly.
      * simpl in Hxy. subst k. by eapply Honly.
      * eauto.
  - unfold lookup_entry. simpl.
    replace (find_index (<[i:=e']> (TABLE s)) ep) with (Some i).
    { simpl. by apply list_lookup_insert_eq. }
    symmetry. apply position_Some. split.
    + exists e'. rewrite list_lookup_insert_eq by done. split; [done|]. by apply has_id_spec.
    + intros j y Hj Hy. rewrite list_lookup_insert_ne in Hy by lia.
      destruct (has_id ep y) eqn:Eh; [|done]. apply has_id_spec in Eh as [Hv Hid].
      specialize (Honly j y Hy Hv Hid). lia.
  - intros ep' Hne. unfold target_alive.
    assert (forall x, lookup_entry (with_table s (<[i:=e']> (TABLE s))) ep' = Some x ->
      lookup_entry s ep' = Some x) as Hback.
    { intros x (j & Hj & Hx & Hv & Hid)%lookup_entry_Some. simpl in *.
      apply lookup_insert_cases in Hx as [[<- ->]|[Hij Hx]]; [simpl in Hid; congruence|].
      unfold lookup_entry. destruct (find_index (TABLE s) ep') as [k|] eqn:Ek.
      - destruct (find_index_Some s ep' k Ek) as (y & Hy & Hvy & Hidy & _).
        assert (j = k) as <- by (eapply (Huniq j k x y); congruence). simpl. by rewrite Hx.
      - unfold find_index in Ek. rewrite position_None in Ek. specialize (Ek j x Hx).
        by rewrite (proj2 (has_id_spec ep' x)) in Ek. }
    destruct (lookup_entry (with_table s (<[i:=e']> (TABLE s))) ep') as [x|] eqn:Ex.
    + by rewrite (Hback x eq_refl).
    + destruct (lookup_entry s ep') as [y|] eqn:Ey; [|done].
      apply lookup_entry_Some in Ey as (k & Hk & Hy & Hv & Hid).
      destruct (decide (k = i)) as [->|Hki].
      * simplify_eq. destruct Hcase as [[_ Hid']|[_ Hr]]; [congruence|].
        unfold is_reusable in Hr. rewrite Hv in Hr. simpl in Hr. by rewrite Hr.
      * exfalso. apply find_index_None in Ex. simpl in Ex. unfold find_index in Ex.
        rewrite position_None in Ex. specialize (Ex k y).
        rewrite list_lookup_insert_ne in Ex by done. specialize (Ex Hy).
        by rewrite (proj2 (has_id_spec ep' y)) in Ex.
Qed.

Lemma try_register_true (s s' : RoutingState) (ep : EndpointId) (core : Z) (g : Generation) :
  routing_wf s -> try_register s ep core g = (s', true) ->
  routing_wf s' /\ CALL_AWAIT_EP s' = CALL_AWAIT_EP s /\
  (exists e, lookup_entry s' ep = Some (fresh_entry e ep core g)) /\
  forall ep', ep' <> ep -> target_alive s' ep' = target_alive s ep'.
Proof.
  intros Hwf. unfold try_register. destruct (register_slot (TABLE s) ep) as [i|] eqn:Er; [|done].
  intros [= <-]. destruct (register_slot_Some s ep i Hwf Er) as (e & He & Hcase).
  rewrite (alter_as_insert _ _ _ e) by done.
  destruct (store_fresh s ep core g i e Hwf He Hcase) as (? & ? & ?). split_and!; eauto.
Qed.

Lemma try_register_false (s s' : RoutingState) (ep : EndpointId) (core : Z) (g : Generation) :
  try_register s ep core g = (s', false) ->
  s' = s /\ lookup_entry s ep = None /\ free_slots s = 0%nat.
Proof.
  unfold try_register, register_slot. repeat case_match; try done. intros [= <-].
  split_and!; [done|by apply find_index_None|by apply count_zero].
Qed.

(** ** Death *)

Lemma kill_entry_wf (e : RoutingEntry) (g : Generation) :
  entry_wf e -> entry_wf (kill_entry e g) /\
  MessageQueue.contents (queue (kill_entry e g)) = [].
Proof.
  intros [Hq _ _ _]. pose proof (proj1 (QueueFacts.wf_repr _) Hq) as Hrep.
  destruct (QueueFacts.repr_drain _ _ Hrep) as (q' & Hd & Hrep').
  unfold kill_entry. rewrite Hd. simpl. split; [split; simpl|].
  - by eapply QueueFacts.repr_wf.
  - split; by intros [].
  - by intros [].
  - intros _. split_and!; [|done..]. by destruct Hrep' as (_ & _ & _ & ? & _).
  - by apply QueueFacts.repr_contents.
Qed.

Lemma kill_endpoint_found (s s' : RoutingState) (ep : EndpointId) (e : RoutingEntry) rx tx :
  routing_wf s -> lookup_entry s ep = Some e -> kill_endpoint s ep = Done (s', (rx, tx)) ->
  rx = blocked_receiver e /\ tx = blocked_sender e /\ routing_wf s' /\
  CALL_AWAIT_EP s' = CALL_AWAIT_EP s /\ ep_generation e + 1 <= u32_max /\
  forall ep', lookup_entry s' ep' =
    if decide (ep' = ep) then Some (kill_entry e (ep_generation e + 1)) else lookup_entry s ep'.
Proof.
  intros Hwf Hl. destruct (lookup_entry_Some _ _ _ Hl) as (i & Hf & He & _).
  unfold kill_endpoint. rewrite Hf, He. intros (g & [-> Hg]%bump_spec & [= <- <- <-])%bind_Done.
  destruct (kill_entry_wf e (ep_generation e + 1)) as [Hkwf _]; [by eapply rwf_entries|].
  pose proof (store_update s ep i e (kill_entry e (ep_generation e + 1)) Hwf Hf He
    eq_refl eq_refl Hkwf) as [[? ? ? ?] Hlk _].
  split_and!; done.
Qed.

Lemma kill_endpoint_missing (s : RoutingState) (ep : EndpointId) :
  lookup_entry s ep = None -> kill_endpoint s ep = Done (s, (None, None)).
Proof. intros H%find_index_None. unfold kill_endpoint. by rewrite H. Qed.

Definition waiting (s : RoutingState) (ep : EndpointId) : nat :=
  count (fun a => a =? ep) (CALL_AWAIT_EP s).

Lemma take_call_waiter_Some (s s' : RoutingState) (ep : EndpointId) (slot : nat) :
  ep <> 0 -> take_call_waiter s ep = (s', Some slot) ->
  CALL_AWAIT_EP s !! slot = Some ep /\ s' = with_await s (<[slot := 0]> (CALL_AWAIT_EP s)) /\
  waiting s ep = S (waiting s' ep).
Proof.
  intros Hep. unfold take_call_waiter. case_match eqn:E; [|done]. intros [= <- <-].
  apply position_hit in E as (a & Ha & ->%Z.eqb_eq). split_and!; [done..|].
  unfold waiting. simpl. pose proof (count_insert (fun a => a =? ep) _ n 0 _ Ha) as Hc.
  cbv beta in Hc. rewrite Z.eqb_refl in Hc.
  replace (0 =? ep) with false in Hc by (symmetry; apply Z.eqb_neq; lia). lia.
Qed.

Lemma take_call_waiter_None (s s' : RoutingState) (ep : EndpointId) :
  take_call_waiter s ep = (s', None) ->
  s' = s /\ forall slot, CALL_AWAIT_EP s !! slot <> Some ep.
Proof.
  unfold take_call_waiter. case_match eqn:E; [done|]. intros [= <-]. split; [done|].
  intros slot Hs. rewrite position_None in E. specialize (E slot ep Hs). by rewrite Z.eqb_refl in E.
Qed.

(** What draining the callers of a dead endpoint does to the call record. *)
Lemma drain_call_waiters_spec (fuel : nat) (s : RoutingState) (ep : EndpointId) :
  ep <> 0 -> (waiting s ep < fuel)%nat ->
  exists s' slots, drain_call_waiters fuel s ep = Some (s', slots) /\
    TABLE s' = TABLE s /\ length (CALL_AWAIT_EP s') = length (CALL_AWAIT_EP s) /\
    NoDup slots /\ (forall slot, slot ∈ slots <-> CALL_AWAIT_EP s !! slot = Some ep) /\
    forall slot, CALL_AWAIT_EP s' !! slot =
      (fun a => if decide (a = ep) then 0 else a) <$> CALL_AWAIT_EP s !! slot.
Proof.
  intros Hep. revert s. induction fuel as [|fuel IH]; intros s Hfuel; [lia|].
  cbn [drain_call_waiters]. destruct (take_call_waiter s ep) as [s1 [slot|]] eqn:Et.
  - destruct (take_call_waiter_Some _ _ _ _ Hep Et) as (Hslot & -> & Hw).
    destruct (IH (with_await s (<[slot := 0]> (CALL_AWAIT_EP s)))) as
      (s' & slots & Hd & Htab & Hlen & Hnd & Hin & Hrest); [lia|].
    rewrite Hd. simpl. eexists _, _. split; [done|].
    simpl in *. rewrite length_insert in Hlen.
    pose proof (lookup_lt_Some _ _ _ Hslot) as Hlt.
    assert (forall k, <[slot:=0]> (CALL_AWAIT_EP s) !! k = Some ep <->
                      k <> slot /\ CALL_AWAIT_EP s !! k = Some ep) as Hins.
    { intros k. rewrite list_lookup_insert_Some. naive_solver. }
    split_and!; [done..| | |].
    + constructor; [|done]. rewrite Hin, Hins. naive_solver.
    + intros k. rewrite elem_of_cons, Hin, Hins.
      destruct (decide (k = slot)) as [->|]; naive_solver.
    + intros k. rewrite Hrest. destruct (decide (k = slot)) as [->|Hne].
      * rewrite list_lookup_insert_eq, Hslot by done. simpl.
        rewrite (decide_True (P := ep = ep)) by done. by rewrite decide_False by congruence.
      * by rewrite list_lookup_insert_ne by done.
  - destruct (take_call_waiter_None _ _ _ Et) as [-> Hno].
    eexists _, _. split; [done|]. split_and!; [done|done|constructor| |].
    + intros slot. rewrite elem_of_nil. naive_solver.
    + intros slot. specialize (Hno slot).
      destruct (CALL_AWAIT_EP s !! slot) as [a|]; [|done]. simpl.
      by rewrite decide_False by congruence.
Qed.

(** ** The transitions of the routing subsystem

    The death of an endpoint is the composite the kill path performs: mark it
    dead, then drain every caller waiting on it. *)

Inductive routing_op :=
| ORegister (ep : EndpointId) (core : Z) (g : Generation)
| OTryRegister (ep : EndpointId) (core : Z) (g : Generation)
| OTryRegisterOptional (ep : EndpointId) (core : Z) (g : Generation) (watched : bool)
| OEnqueue (ep : EndpointId) (m : Message) (g : Generation) (sender : option nat)
| OEnqueueInterrupt (ep : EndpointId) (m : Message)
| OEnqueueKernel (ep : EndpointId) (m : Message) (sender : nat)
| ODequeue (ep : EndpointId) (g : Generation) (receiver : option nat)
| OCallDequeue (recv_ep : EndpointId) (g : Generation) (target : EndpointId) (caller : nat)
| OClearCallAwait (slot : nat)
| OBankCredit
| OKill (ep : EndpointId).

Definition kill_and_drain (s : RoutingState) (ep : EndpointId)
    : outcome (RoutingState * (option nat * option nat) * list nat) :=
  '(s, rxtx) ← kill_endpoint s ep;
  match drain_call_waiters (S MAX_TASKS) s ep with
  | Some (s, slots) => Done (s, rxtx, slots)
  | None => Panic
  end.

Definition routing_do (s : RoutingState) (o : routing_op) : outcome RoutingState :=
  match o with
  | ORegister ep core g => register s ep core g
  | OTryRegister ep core g => Done (try_register s ep core g).1
  | OTryRegisterOptional ep core g w => Done (try_register_optional s ep core g w).1
  | OEnqueue ep m g sender => Done (enqueue s ep m g sender).1
  | OEnqueueInterrupt ep m => Done (enqueue_from_interrupt s ep m).1
  | OEnqueueKernel ep m sender => Done (enqueue_from_kernel_blocking s ep m sender).1
  | ODequeue ep g receiver => Done (dequeue s ep g receiver).1
  | OCallDequeue ep g target caller => Done (call_dequeue s ep g target caller).1
  | OClearCallAwait slot => Done (clear_call_await s slot)
  | OBankCredit => Done (bank_mailbox_credit s)
  | OKill ep => '(s, _, _) ← kill_and_drain s ep; Done s
  end.

(** Endpoint ids start at 100; 0 in the call record means no call. *)
Definition op_ok (o : routing_op) : Prop :=
  match o with
  | OKill ep => ep <> 0
  | _ => True
  end.

Inductive routing_reachable : RoutingState -> Prop :=
| reach_boot : routing_reachable routing_boot
| reach_step s s' o :
    routing_reachable s -> op_ok o -> routing_do s o = Done s' -> routing_reachable s'.

Definition routing_inv (s : RoutingState) : Prop := routing_wf s /\ calls_live s.

(** The shape of every send and receive: nothing, or one live entry replaced. *)
Definition alive_update (s s' : RoutingState) : Prop :=
  s' = s \/ exists ep e e', lookup_entry s ep = Some e /\ liveness e = EpAlive /\
    liveness e' = EpAlive /\ entry_update s s' ep e'.

Lemma lookup_live_cases (s : RoutingState) (ep : EndpointId) (g : Generation) :
  (forall e, lookup_entry s ep = Some e -> check_live e g <> Ok tt) \/
  exists e, lookup_entry s ep = Some e /\ liveness e = EpAlive /\ ep_generation e = g.
Proof.
  destruct (lookup_entry s ep) as [e|]; [|by left].
  destruct (check_live_cases e g) as [H|H].
  - right. exists e. by apply check_live_Ok in H as [? ?].
  - left. intros ? [= <-]. by rewrite H.
Qed.

Lemma room_or_full (e : RoutingEntry) :
  entry_wf e -> (length (MessageQueue.contents (queue e)) < QUEUE_DEPTH)%nat \/
  length (MessageQueue.contents (queue e)) = QUEUE_DEPTH.
Proof. intros H%contents_le. lia. Qed.

Lemma enqueue_alive_update (s : RoutingState) ep m g bs :
  routing_wf s -> alive_update s (enqueue s ep m g bs).1.
Proof.
  intros Hwf. destruct (lookup_live_cases s ep g) as [Hno|(e & Hl & Hlive & <-)].
  - rewrite enqueue_refused by done. by left.
  - right. pose proof (lookup_entry_wf _ _ _ Hwf Hl) as Hewf.
    destruct (room_or_full e Hewf) as [Hr|Hf].
    + destruct (enqueue_room s ep m bs e) as (s' & e' & -> & ? & ? & ? & _); eauto 10.
    + destruct (enqueue_full s ep m bs e) as (s' & -> & ?); eauto.
      eexists ep, e, _. split; [done|]. split; [done|]. split; [|done]. by destruct bs.
Qed.

(** The kernel's own deliveries: on the same entry, the same step without a
    generation to check. *)
Lemma enqueue_from_interrupt_alive_update (s : RoutingState) ep m :
  routing_wf s -> alive_update s (enqueue_from_interrupt s ep m).1.
Proof.
  intros Hwf. unfold enqueue_from_interrupt.
  destruct (find_index (TABLE s) ep) as [i|] eqn:Hf; [|by left].
  destruct (find_index_Some s ep i Hf) as (e & He & _ & _ & Hl). rewrite He.
  destruct (is_dead e) eqn:Hd; [by left|]. apply is_dead_false in Hd.
  pose proof (lookup_entry_wf _ _ _ Hwf Hl) as Hewf. right. exists ep, e.
  destruct (room_or_full e Hewf) as [Hr|Hfull].
  - destruct (deliver_room e m Hewf Hd Hr) as (e' & -> & ? & ? & ? & ? & ? & _).
    exists e'. destruct (blocked_receiver e); simpl; split_and!; try done; by eapply store_update.
  - rewrite deliver_full by done. exists e. simpl. split_and!; try done. by eapply store_update.
Qed.

Lemma enqueue_from_kernel_alive_update (s : RoutingState) ep m slot :
  routing_wf s -> alive_update s (enqueue_from_kernel_blocking s ep m slot).1.
Proof.
  intros Hwf. unfold enqueue_from_kernel_blocking.
  destruct (find_index (TABLE s) ep) as [i|] eqn:Hf; [|by left].
  destruct (find_index_Some s ep i Hf) as (e & He & _ & _ & Hl). rewrite He.
  destruct (is_dead e) eqn:Hd; [by left|]. apply is_dead_false in Hd.
  pose proof (lookup_entry_wf _ _ _ Hwf Hl) as Hewf. right. exists ep, e.
  destruct (room_or_full e Hewf) as [Hr|Hfull].
  - destruct (deliver_room e m Hewf Hd Hr) as (e' & -> & ? & ? & ? & ? & ? & _).
    exists e'. simpl. split_and!; try done. by eapply store_update.
  - rewrite deliver_full by done. exists (with_sender e (Some slot) (Some m)).
    simpl. split_and!; try done. eapply store_update; try done. by apply park_wf.
Qed.

Lemma dequeue_alive_update (s : RoutingState) ep g br :
  routing_wf s -> alive_update s (dequeue s ep g br).1.
Proof.
  intros Hwf. destruct (lookup_live_cases s ep g) as [Hno|(e & Hl & Hlive & <-)].
  - rewrite dequeue_refused by done. by left.
  - right. destruct (MessageQueue.contents (queue e)) as [|m l] eqn:Hc.
    + destruct (dequeue_empty s ep br e) as (s' & -> & ?); eauto.
      eexists ep, e, _. split; [done|]. split; [done|]. split; [|done]. by destruct br.
    + destruct (dequeue_message s ep br e m l) as (s' & e' & -> & ? & _ & _ & ? & _); eauto 10.
Qed.

Lemma alive_update_facts (s s' : RoutingState) :
  routing_wf s -> alive_update s s' ->
  routing_wf s' /\ CALL_AWAIT_EP s' = CALL_AWAIT_EP s /\
  forall ep, target_alive s' ep = target_alive s ep.
Proof.
  intros Hwf [->|(ep & e & e' & Hl & Hlive & Hlive' & [Hwf' Hlk Haw])]; [done|].
  split_and!; [done..|]. intros ep'. unfold target_alive. rewrite Hlk.
  case_decide; subst; [|done]. rewrite Hl.
  by rewrite (proj2 (is_dead_false e') Hlive'), (proj2 (is_dead_false e) Hlive).
Qed.

Lemma calls_live_mono (s s' : RoutingState) :
  CALL_AWAIT_EP s' = CALL_AWAIT_EP s ->
  (forall ep, target_alive s ep = true -> target_alive s' ep = true) ->
  calls_live s -> calls_live s'.
Proof. intros Haw Hmono Hc slot ep. rewrite Haw. intros. by eapply Hmono, Hc. Qed.

Lemma alive_update_inv (s s' : RoutingState) :
  routing_inv s -> alive_update s s' -> routing_inv s'.
Proof.
  intros [Hwf Hc] Hu. destruct (alive_update_facts s s' Hwf Hu) as (? & ? & ?).
  split; [done|]. eapply calls_live_mono; [done| |done]. naive_solver.
Qed.

Lemma try_register_inv (s : RoutingState) ep core g :
  routing_inv s -> routing_inv (try_register s ep core g).1.
Proof.
  intros [Hwf Hc]. destruct (try_register s ep core g) as [s' []] eqn:E; simpl.
  - destruct (try_register_true _ _ _ _ _ Hwf E) as (Hwf' & Haw & (e & He) & Hother).
    split; [done|]. eapply calls_live_mono; [done| |done].
    intros ep' Hal. destruct (decide (ep' = ep)) as [->|Hne]; [|by rewrite Hother].
    unfold target_alive. by rewrite He.
  - by destruct (try_register_false _ _ _ _ _ E) as [-> _].
Qed.

Lemma clear_call_await_inv (s : RoutingState) (slot : nat) :
  routing_inv s -> routing_inv (clear_call_await s slot).
Proof.
  intros [[? ? ? ?] Hc]. split; [split; simpl; by autorewrite with gs|].
  intros k ep Hk Hep. simpl in Hk.
  apply lookup_insert_cases in Hk as [[-> ->]|[_ Hk]]; [done|]. by apply (Hc k).
Qed.

Lemma counters_inv (s : RoutingState) r c q :
  routing_inv s -> routing_inv (mkRouting (TABLE s) (CALL_AWAIT_EP s) r c q).
Proof. intros [[? ? ? ?] Hc]. split; [by split|]. exact Hc. Qed.

Lemma refuse_inv (s : RoutingState) (n : nat) : routing_inv s -> routing_inv (refuse s n).1.
Proof. apply counters_inv. Qed.

Lemma try_register_optional_inv (s : RoutingState) ep core g w :
  routing_inv s -> routing_inv (try_register_optional s ep core g w).1.
Proof.
  intros Hinv. unfold try_register_optional.
  assert (routing_inv (take_mailbox_credit s).1) as Ht
    by (unfold take_mailbox_credit; case_match; [done|by apply counters_inv]).
  set (p := if _ && _ && _ then take_mailbox_credit s else (s, false)).
  assert (routing_inv p.1) as Hp by (unfold p; by case_match).
  destruct p as [s1 credited]. simpl in Hp.
  pose proof (try_register_inv s1 ep core g Hp) as Hr.
  destruct (try_register s1 ep core g) as [s2 ok]. simpl in Hr.
  destruct credited, ok; repeat case_match; try apply refuse_inv; try done.
  by apply counters_inv.
Qed.

(** [call_dequeue] on a live caller endpoint with no reply queued. *)
Lemma call_dequeue_no_reply (s : RoutingState) (ep tgt : EndpointId) (caller : nat)
    (e : RoutingEntry) (l : list Message) :
  routing_wf s -> lookup_entry s ep = Some e -> liveness e = EpAlive ->
  take_first_from tgt (MessageQueue.contents (queue e)) = (l, None) ->
  exists s' e', entry_update s s' ep e' /\ liveness e' = EpAlive /\
    ep_generation e' = ep_generation e /\ backlog e' = backlog e /\
    call_dequeue s ep (ep_generation e) tgt caller =
      (if target_alive s tgt
       then (set_call_await s' caller tgt, Err IpcError.QueueEmpty)
       else (clear_call_await s' caller, Err IpcError.ReplyDead)) /\
    (target_alive s tgt = true -> blocked_receiver e' = Some caller).
Proof.
  intros Hwf Hl Hlive Hc.
  destruct (dequeue_reply_none s ep tgt e l Hwf Hl Hlive Hc) as
    (s1 & e1 & Hd & Hu & Hewf & Hv & Hid & Hlive1 & Hg & Hb).
  assert (target_alive s1 tgt = target_alive s tgt) as Hta.
  { unfold target_alive. rewrite (eu_lookup _ _ _ _ Hu). case_decide; [subst|done].
    by rewrite Hl, (proj2 (is_dead_false _) Hlive), (proj2 (is_dead_false _) Hlive1). }
  destruct (target_alive s tgt) eqn:Hal.
  - pose proof (eu_lookup _ _ _ _ Hu ep) as Hl1. rewrite decide_True in Hl1 by done.
    destruct (lookup_entry_Some _ _ _ Hl1) as (j & Hf & He & _).
    exists (with_table s1 (<[j := with_receiver e1 (Some caller)]> (TABLE s1))),
      (with_receiver e1 (Some caller)).
    assert (entry_update s1 (with_table s1 (<[j := with_receiver e1 (Some caller)]> (TABLE s1)))
      ep (with_receiver e1 (Some caller))) as Hu2.
    { eapply store_update; try done; [by apply Hu|]. destruct Hewf as [? ? ? ?].
      split; simpl; try done. by rewrite Hlive1. }
    split_and!; try done.
    + split; [by apply Hu2| |].
      * intros ep'. rewrite (eu_lookup _ _ _ _ Hu2), (eu_lookup _ _ _ _ Hu). by case_decide.
      * by rewrite (eu_await _ _ _ _ Hu2), (eu_await _ _ _ _ Hu).
    + unfold call_dequeue. rewrite Hd, Hta. simpl. rewrite Hf.
      by rewrite (alter_as_insert _ _ _ e1) by done.
  - exists s1, e1. split_and!; try done. unfold call_dequeue. by rewrite Hd, Hta.
Qed.

Lemma call_dequeue_reply (s : RoutingState) (ep tgt : EndpointId) (caller : nat)
    (e : RoutingEntry) (m : Message) (l : list Message) :
  routing_wf s -> lookup_entry s ep = Some e -> liveness e = EpAlive ->
  take_first_from tgt (MessageQueue.contents (queue e)) = (l, Some m) ->
  exists s' e', entry_update s s' ep e' /\ liveness e' = EpAlive /\
    backlog e' = l ++ option_list (pending_send e) /\
    call_dequeue s ep (ep_generation e) tgt caller =
      (clear_call_await s' caller, Ok (m, blocked_sender e)).
Proof.
  intros Hwf Hl Hlive Hc.
  destruct (dequeue_reply_found s ep tgt e m l Hwf Hl Hlive Hc) as
    (s1 & e1 & Hd & Hu & _ & _ & Hlive1 & _ & Hb).
  exists s1, e1. split_and!; try done. unfold call_dequeue. by rewrite Hd.
Qed.

Lemma call_dequeue_refused (s : RoutingState) (ep tgt : EndpointId) (g : Generation) (caller : nat) :
  (forall e, lookup_entry s ep = Some e -> check_live e g <> Ok tt) ->
  call_dequeue s ep g tgt caller = (clear_call_await s caller, Err IpcError.EndpointDead).
Proof. intros Hno. unfold call_dequeue. by rewrite dequeue_reply_refused. Qed.

Lemma call_dequeue_inv (s : RoutingState) ep g tgt caller :
  routing_inv s -> routing_inv (call_dequeue s ep g tgt caller).1.
Proof.
  intros Hinv. pose proof Hinv as [Hwf _].
  destruct (lookup_live_cases s ep g) as [Hno|(e & Hl & Hlive & <-)].
  { rewrite call_dequeue_refused by done. by apply clear_call_await_inv. }
  destruct (take_first_from tgt (MessageQueue.contents (queue e))) as [l [m|]] eqn:Hc.
  - destruct (call_dequeue_reply s ep tgt caller e m l) as (s' & e' & Hu & ? & _ & ->); try done.
    apply clear_call_await_inv. eapply alive_update_inv; [done|]. right. eauto 10.
  - destruct (call_dequeue_no_reply s ep tgt caller e l) as (s' & e' & Hu & ? & _ & _ & -> & _); try done.
    assert (alive_update s s') as Hau by (right; eauto 10).
    pose proof (alive_update_inv s s' Hinv Hau) as [[? ? ? ?] Hc'].
    destruct (target_alive s tgt) eqn:Hal; [|by apply clear_call_await_inv].
    split; [split; simpl; by autorewrite with gs|]. intros k ep' Hk Hep. simpl in Hk.
    apply lookup_insert_cases in Hk as [[-> ->]|[_ Hk]]; [|by apply (Hc' k)].
    destruct (alive_update_facts s s' Hwf Hau) as (_ & _ & Hta).
    change (target_alive s' tgt = true). by rewrite Hta.
Qed.

Lemma waiting_bound (s : RoutingState) (ep : EndpointId) :
  routing_wf s -> (waiting s ep < S MAX_TASKS)%nat.
Proof.
  intros [_ Hlen _ _]. unfold waiting.
  pose proof (count_le_length (fun a => a =? ep) (CALL_AWAIT_EP s)). lia.
Qed.

Lemma kill_endpoint_spec (s : RoutingState) (ep : EndpointId) :
  routing_wf s ->
  match kill_endpoint s ep with
  | Done (s', rxtx) =>
      routing_wf s' /\ CALL_AWAIT_EP s' = CALL_AWAIT_EP s /\ target_alive s' ep = false /\
      (forall ep', ep' <> ep -> lookup_entry s' ep' = lookup_entry s ep') /\
      (forall e, lookup_entry s ep = Some e -> rxtx = (blocked_receiver e, blocked_sender e) /\
         lookup_entry s' ep = Some (kill_entry e (ep_generation e + 1)))
  | Panic => exists e, lookup_entry s ep = Some e /\ u32_max <= ep_generation e
  end.
Proof.
  intros Hwf. destruct (kill_endpoint s ep) as [[s1 [rx tx]]|] eqn:Hk.
  - destruct (lookup_entry s ep) as [e|] eqn:Hl.
    + destruct (kill_endpoint_found _ _ _ _ _ _ Hwf Hl Hk) as (-> & -> & ? & ? & _ & Hlk).
      pose proof (Hlk ep) as Hlk1. rewrite decide_True in Hlk1 by done.
      split_and!; try done.
      * unfold target_alive. by rewrite Hlk1.
      * intros ep' Hne. by rewrite Hlk, decide_False.
      * by intros e' [= <-].
    + rewrite kill_endpoint_missing in Hk by done. simplify_eq. split_and!; try done.
      unfold target_alive. by rewrite Hl.
  - unfold kill_endpoint in Hk. destruct (find_index (TABLE s) ep) as [i|] eqn:Hf; [|done].
    destruct (find_index_Some s ep i Hf) as (e & He & _ & _ & Hl). rewrite He in Hk.
    exists e. split; [done|]. unfold Generation.bump, checked_add32 in Hk.
    destruct (ep_generation e + 1 <=? u32_max) eqn:E; [done|]. to_prop. lia.
Qed.

(** The composite death step, whatever the endpoint's entry held. *)
Lemma kill_and_drain_wf (s : RoutingState) (ep : EndpointId) :
  routing_wf s -> ep <> 0 ->
  match kill_and_drain s ep with
  | Done (s', rxtx, slots) =>
      routing_wf s' /\ (calls_live s -> calls_live s') /\ target_alive s' ep = false /\
      NoDup slots /\ (forall slot, slot ∈ slots <-> CALL_AWAIT_EP s !! slot = Some ep) /\
      (forall slot, CALL_AWAIT_EP s' !! slot =
         (fun a => if decide (a = ep) then 0 else a) <$> CALL_AWAIT_EP s !! slot) /\
      (forall ep', ep' <> ep -> lookup_entry s' ep' = lookup_entry s ep') /\
      (forall e, lookup_entry s ep = Some e ->
         rxtx = (blocked_receiver e, blocked_sender e) /\
         lookup_entry s' ep = Some (kill_entry e (ep_generation e + 1)))
  | Panic => exists e, lookup_entry s ep = Some e /\ u32_max <= ep_generation e
  end.
Proof.
  intros Hwf Hep. unfold kill_and_drain.
  pose proof (kill_endpoint_spec s ep Hwf) as Hkill.
  destruct (kill_endpoint s ep) as [[s1 rxtx]|]; cbn [mbind outcome_bind]; [|done].
  destruct Hkill as (Hwf1 & Haw & Hdead & Hother & Hself).
  destruct (drain_call_waiters_spec (S MAX_TASKS) s1 ep Hep (waiting_bound s1 ep Hwf1)) as
    (s' & slots & -> & Htab & Hlen & Hnd & Hin & Hrest).
  rewrite Haw in *.
  assert (forall ep', lookup_entry s' ep' = lookup_entry s1 ep') as Hlk
    by (intros; unfold lookup_entry; by rewrite Htab).
  assert (forall ep', target_alive s' ep' = target_alive s1 ep') as Hta
    by (intros; unfold target_alive; by rewrite Hlk).
  assert (forall ep', ep' <> ep -> target_alive s1 ep' = target_alive s ep') as Hta1
    by (intros; unfold target_alive; by rewrite Hother).
  split_and!; try done.
  - destruct Hwf1 as [? ? ? ?]. split; rewrite ?Htab; try done. rewrite Hlen. by destruct Hwf.
  - intros Hc slot a Ha Hne. rewrite Hrest in Ha.
    destruct (CALL_AWAIT_EP s !! slot) as [b|] eqn:Hb; [|done]. simpl in Ha.
    case_decide; simplify_eq. rewrite Hta, Hta1 by done. by apply (Hc slot).
  - by rewrite Hta.
  - intros ep' Hne. rewrite Hlk. by apply Hother.
  - intros e He. rewrite Hlk. by apply Hself.
Qed.

Lemma kill_and_drain_spec (s : RoutingState) (ep : EndpointId) :
  routing_inv s -> ep <> 0 ->
  match kill_and_drain s ep with
  | Done (s', rxtx, slots) =>
      routing_inv s' /\ target_alive s' ep = false /\
      NoDup slots /\ (forall slot, slot ∈ slots <-> CALL_AWAIT_EP s !! slot = Some ep) /\
      (forall slot, CALL_AWAIT_EP s' !! slot =
         (fun a => if decide (a = ep) then 0 else a) <$> CALL_AWAIT_EP s !! slot) /\
      (forall ep', ep' <> ep -> lookup_entry s' ep' = lookup_entry s ep') /\
      (forall e, lookup_entry s ep = Some e ->
         rxtx = (blocked_receiver e, blocked_sender e) /\
         lookup_entry s' ep = Some (kill_entry e (ep_generation e + 1)))
  | Panic => exists e, lookup_entry s ep = Some e /\ u32_max <= ep_generation e
  end.
Proof.
  intros [Hwf Hc] Hep. pose proof (kill_and_drain_wf s ep Hwf Hep) as H.
  destruct (kill_and_drain s ep) as [[[s' rxtx] slots]|]; [|done].
  destruct H as (? & ? & H). split; [split; auto|exact H].
Qed.

Lemma routing_do_inv (s s' : RoutingState) (o : routing_op) :
  routing_inv s -> op_ok o -> routing_do s o = Done s' -> routing_inv s'.
Proof.
  intros Hinv Hok. pose proof Hinv as [Hwf _].
  destruct o; simpl; try (intros [= <-]); simpl in Hok.
  - unfold register. intros Hr. pose proof (try_register_inv s ep core g Hinv) as H.
    unfold try_register in H. destruct (register_slot (TABLE s) ep); by simplify_eq.
  - by apply try_register_inv.
  - by apply try_register_optional_inv.
  - eapply alive_update_inv; [done|]. by apply enqueue_alive_update.
  - eapply alive_update_inv; [done|]. by apply enqueue_from_interrupt_alive_update.
  - eapply alive_update_inv; [done|]. by apply enqueue_from_kernel_alive_update.
  - eapply alive_update_inv; [done|]. by apply dequeue_alive_update.
  - by apply call_dequeue_inv.
  - by apply clear_call_await_inv.
  - by apply counters_inv.
  - pose proof (kill_and_drain_spec s ep Hinv Hok) as Hk.
    destruct (kill_and_drain s ep) as [[[s1 rxtx] slots]|]; [|done]. simpl.
    intros [= <-]. by destruct Hk.
Qed.

Lemma routing_boot_inv : routing_inv routing_boot.
Proof.
  split.
  - split; [done..| |].
    + intros i e [-> _]%lookup_replicate. split; simpl; [|split; by intros []|by intros []|done].
      eapply QueueFacts.repr_wf, QueueFacts.repr_new.
    + intros i j e e' [-> _]%lookup_replicate. done.
  - intros slot ep [-> _]%lookup_replicate. done.
Qed.

Lemma reachable_inv (s : RoutingState) : routing_reachable s -> routing_inv s.
Proof.
  induction 1 as [|s s' o _ IH Hok Hdo]; [apply routing_boot_inv|].
  by eapply routing_do_inv.
Qed.

(** ** Who is alive changes only by registration and death *)

Definition registers (o : routing_op) (ep : EndpointId) : Prop :=
  match o with
  | ORegister ep' _ _ | OTryRegister ep' _ _ | OTryRegisterOptional ep' _ _ _ => ep' = ep
  | _ => False
  end.

Lemma try_register_alive (s : RoutingState) ep core g ep' :
  routing_wf s -> ep' <> ep ->
  target_alive (try_register s ep core g).1 ep' = target_alive s ep'.
Proof.
  intros Hwf Hne. destruct (try_register s ep core g) as [s' []] eqn:E; simpl.
  - destruct (try_register_true _ _ _ _ _ Hwf E) as (_ & _ & _ & Hother). by apply Hother.
  - by destruct (try_register_false _ _ _ _ _ E) as [-> _].
Qed.

Lemma take_mailbox_credit_table (s : RoutingState) :
  TABLE (take_mailbox_credit s).1 = TABLE s /\ CALL_AWAIT_EP (take_mailbox_credit s).1 = CALL_AWAIT_EP s.
Proof. unfold take_mailbox_credit. by case_match. Qed.

Lemma target_alive_table (s s' : RoutingState) ep :
  TABLE s' = TABLE s -> target_alive s' ep = target_alive s ep.
Proof. intros H. unfold target_alive, lookup_entry. by rewrite H. Qed.

Lemma wf_table (s s' : RoutingState) :
  TABLE s' = TABLE s -> CALL_AWAIT_EP s' = CALL_AWAIT_EP s -> routing_wf s -> routing_wf s'.
Proof. intros Ht Ha [? ? ? ?]. split; rewrite ?Ht, ?Ha; done. Qed.

Lemma try_register_optional_alive (s : RoutingState) ep core g w ep' :
  routing_wf s -> ep' <> ep ->
  target_alive (try_register_optional s ep core g w).1 ep' = target_alive s ep'.
Proof.
  intros Hwf Hne. unfold try_register_optional.
  set (p := if _ && _ && _ then take_mailbox_credit s else (s, false)).
  assert (TABLE p.1 = TABLE s /\ CALL_AWAIT_EP p.1 = CALL_AWAIT_EP s) as [Ht Ha].
  { unfold p. case_match; [apply take_mailbox_credit_table|done]. }
  destruct p as [s1 credited]. simpl in Ht, Ha.
  pose proof (try_register_alive s1 ep core g ep' (wf_table _ _ Ht Ha Hwf) Hne) as Hr.
  rewrite (target_alive_table s s1 ep' Ht) in Hr.
  destruct (try_register s1 ep core g) as [s2 ok]. simpl in Hr.
  destruct credited, ok; repeat case_match;
    first [exact Hr | exact (target_alive_table s s1 ep' Ht)].
Qed.

Lemma call_dequeue_alive (s : RoutingState) ep g tgt caller ep' :
  routing_wf s -> target_alive (call_dequeue s ep g tgt caller).1 ep' = target_alive s ep'.
Proof.
  intros Hwf. destruct (lookup_live_cases s ep g) as [Hno|(e & Hl & Hlive & <-)].
  { by rewrite call_dequeue_refused. }
  destruct (take_first_from tgt (MessageQueue.contents (queue e))) as [l [m|]] eqn:Hc.
  - destruct (call_dequeue_reply s ep tgt caller e m l) as (s' & e' & Hu & ? & _ & ->); try done.
    eapply (alive_update_facts s s' Hwf). right. eauto 10.
  - destruct (call_dequeue_no_reply s ep tgt caller e l) as (s' & e' & Hu & ? & _ & _ & -> & _); try done.
    destruct (target_alive s tgt); eapply (alive_update_facts s s' Hwf); right; eauto 10.
Qed.

Lemma routing_do_stays_dead (s s' : RoutingState) (o : routing_op) (ep : EndpointId) :
  routing_inv s -> op_ok o -> ~ registers o ep -> routing_do s o = Done s' ->
  target_alive s ep = false -> target_alive s' ep = false.
Proof.
  intros Hinv Hok Hnr Hdo Hd. pose proof Hinv as [Hwf _]. rewrite <- Hd.
  destruct o; simpl in Hdo, Hnr, Hok; try (injection Hdo as <-).
  - pose proof (try_register_alive s ep0 core g ep Hwf) as H.
    unfold register in Hdo. unfold try_register in H.
    destruct (register_slot (TABLE s) ep0); simplify_eq/=. naive_solver.
  - apply try_register_alive; naive_solver.
  - apply try_register_optional_alive; naive_solver.
  - by apply (alive_update_facts s), enqueue_alive_update.
  - by apply (alive_update_facts s), enqueue_from_interrupt_alive_update.
  - by apply (alive_update_facts s), enqueue_from_kernel_alive_update.
  - by apply (alive_update_facts s), dequeue_alive_update.
  - by apply call_dequeue_alive.
  - done.
  - done.
  - pose proof (kill_and_drain_spec s ep0 Hinv Hok) as Hk.
    destruct (kill_and_drain s ep0) as [[[s1 rxtx] slots]|]; [|done]. simpl in Hdo.
    injection Hdo as <-. destruct Hk as (_ & Hdead & _ & _ & _ & Hother & _).
    destruct (decide (ep = ep0)) as [->|Hne]; [congruence|].
    unfold target_alive. by rewrite Hother.
Qed.

Lemma dead_refuses (s : RoutingState) (ep : EndpointId) (g : Generation) :
  target_alive s ep = false -> forall e, lookup_entry s ep = Some e -> check_live e g <> Ok tt.
Proof.
  unfold target_alive. intros Hd e He. rewrite He in Hd. intros [Hl _]%check_live_Ok.
  by rewrite (proj2 (is_dead_false e) Hl) in Hd.
Qed.

Lemma try_register_free_slots (s s' : RoutingState) ep core g :
  routing_wf s -> lookup_entry s ep = None -> try_register s ep core g = (s', true) ->
  free_slots s = S (free_slots s').
Proof.
  intros Hwf Hnone. unfold try_register.
  destruct (register_slot (TABLE s) ep) as [i|] eqn:Er; [|done]. intros [= <-].
  destruct (register_slot_Some s ep i Hwf Er) as (e & He & [[Hv Hid]|[_ Hr]]).
  { exfalso. apply find_index_None in Hnone. unfold find_index in Hnone.
    rewrite position_None in Hnone. specialize (Hnone i e He).
    by rewrite (proj2 (has_id_spec ep e)) in Hnone. }
  rewrite (alter_as_insert _ _ _ e) by done. unfold free_slots; simpl.
  pose proof (count_insert is_reusable _ i (fresh_entry e ep core g) e He) as Hc.
  rewrite Hr in Hc. simpl in Hc. lia.
Qed.

Lemma try_register_room (s : RoutingState) ep core g :
  (0 < free_slots s)%nat -> (try_register s ep core g).2 = true.
Proof.
  intros H. destruct (try_register s ep core g) as [s' []] eqn:E; [done|].
  destruct (try_register_false _ _ _ _ _ E) as (_ & _ & H0). lia.
Qed.

(** ** Properties *)


(** Sending, on every branch.  A send to an endpoint that is missing, dead
    or of another generation is refused with [EndpointDead] and changes
    nothing.  With room, the message becomes the last of the endpoint's
    backlog and the blocked receiver, if any, is returned for waking and no
    longer recorded.  On a full queue it is refused with [QueueFull]; a
    blocking sender is parked with its message, a non-blocking one changes
    nothing.  No other endpoint's entry changes. *)
Theorem send_correct (s : RoutingState) (ep : EndpointId) (m : Message) (g : Generation)
    (sender : option nat) :
  routing_wf s ->
  match lookup_entry s ep with
  | Some e =>
      if bool_decide (liveness e = EpAlive /\ ep_generation e = g) then
        exists s' e', entry_update s s' ep e' /\ liveness e' = EpAlive /\
        if (length (MessageQueue.contents (queue e)) <? QUEUE_DEPTH)%nat then
          enqueue s ep m g sender = (s', Ok (blocked_receiver e)) /\
          backlog e' = backlog e ++ [m] /\ blocked_receiver e' = None
        else enqueue s ep m g sender = (s', Err IpcError.QueueFull) /\
          e' = match sender with
               | Some slot => with_sender e (Some slot) (Some m)
               | None => e
               end
      else enqueue s ep m g sender = (s, Err IpcError.EndpointDead)
  | None => enqueue s ep m g sender = (s, Err IpcError.EndpointDead)
  end.
Proof.
  intros Hwf. destruct (lookup_entry s ep) as [e|] eqn:Hl;
    [|apply enqueue_refused; intros e He; congruence].
  case_bool_decide as Hcase.
  - destruct Hcase as [Hlive <-]. pose proof (lookup_entry_wf _ _ _ Hwf Hl) as Hewf.
    destruct (Nat.ltb_spec (length (MessageQueue.contents (queue e))) QUEUE_DEPTH) as [Hlt|Hge].
    + destruct (enqueue_room s ep m sender e) as (s' & e' & ? & ? & ? & ? & _ & ?); eauto 10.
    + destruct (enqueue_full s ep m sender e) as (s' & ? & Hu); try done.
      { apply contents_le in Hewf. lia. }
      exists s'. eexists. split; [exact Hu|]. split; [by destruct sender|done].
  - apply enqueue_refused. intros e' He' [? ?]%check_live_Ok. simplify_eq. naive_solver.
Qed.

(** Receiving, on every branch.  A receive on a missing, dead or
    other-generation endpoint is refused with [EndpointDead].  Otherwise the
    oldest message is returned, the backlog is exactly the rest, in order (a
    parked sender's message has moved into the freed slot), and that sender is
    returned for waking.  An empty queue gives [QueueEmpty] and records the
    receiver only when one was passed. *)
Theorem recv_correct (s : RoutingState) (ep : EndpointId) (g : Generation) (receiver : option nat) :
  routing_wf s ->
  match lookup_entry s ep with
  | Some e =>
      if bool_decide (liveness e = EpAlive /\ ep_generation e = g) then
        exists s' e', entry_update s s' ep e' /\ liveness e' = EpAlive /\
        match backlog e with
        | m :: rest => dequeue s ep g receiver = (s', Ok (m, blocked_sender e)) /\
            backlog e' = rest /\ blocked_sender e' = None /\
            blocked_receiver e' = blocked_receiver e
        | [] => dequeue s ep g receiver = (s', Err IpcError.QueueEmpty) /\
            e' = match receiver with
                 | Some slot => with_receiver e (Some slot)
                 | None => e
                 end
        end
      else dequeue s ep g receiver = (s, Err IpcError.EndpointDead)
  | None => dequeue s ep g receiver = (s, Err IpcError.EndpointDead)
  end.
Proof.
  intros Hwf. destruct (lookup_entry s ep) as [e|] eqn:Hl;
    [|apply dequeue_refused; intros e He; congruence].
  case_bool_decide as Hcase.
  2: { apply dequeue_refused. intros e' He' [? ?]%check_live_Ok. simplify_eq. naive_solver. }
  destruct Hcase as [Hlive <-]. pose proof (lookup_entry_wf _ _ _ Hwf Hl) as Hewf.
  destruct (MessageQueue.contents (queue e)) as [|m l] eqn:Hc.
  - assert (pending_send e = None) as Hps.
    { destruct (pending_send e) eqn:Ep; [|done]. destruct Hewf as [Hq [_ Hs] Hf _].
      rewrite Ep in Hs. rewrite queue_len, Hc in Hf by done.
      discriminate (Hf (Hs (mk_is_Some _ _ eq_refl))). }
    destruct (dequeue_empty s ep receiver e) as (s' & Hd & Hu); try done.
    unfold backlog. rewrite Hc, Hps. simpl. exists s'. eexists. split; [exact Hu|].
    split; [by destruct receiver|done].
  - destruct (dequeue_message s ep receiver e m l) as (s' & e' & ? & ? & ? & ? & ? & _ & ->); eauto 10.
Qed.

(** The reply wait of a synchronous call.  On a live caller endpoint
    [call_dequeue] takes the oldest queued message sent by the target, and only
    such a message, leaving every other one queued in order; a queued reply
    wins even if the target has died.  With no reply queued it answers
    [ReplyDead] at once when the target is dead or gone; otherwise it records
    the caller both as the receiver of its own endpoint and as waiting on the
    target.  It never records a wait in any other case. *)
Theorem call_dequeue_correct (s : RoutingState) (ep tgt : EndpointId) (caller : nat) (e : RoutingEntry) :
  routing_wf s -> lookup_entry s ep = Some e -> liveness e = EpAlive ->
  exists s' e', entry_update s s' ep e' /\ liveness e' = EpAlive /\
  match take_first_from tgt (MessageQueue.contents (queue e)) with
  | (rest, Some m) =>
      call_dequeue s ep (ep_generation e) tgt caller =
        (clear_call_await s' caller, Ok (m, blocked_sender e)) /\
      sender_ep m = tgt /\ backlog e' = rest ++ option_list (pending_send e)
  | (_, None) => backlog e' = backlog e /\
      if target_alive s tgt then
        call_dequeue s ep (ep_generation e) tgt caller =
          (set_call_await s' caller tgt, Err IpcError.QueueEmpty) /\
        blocked_receiver e' = Some caller
      else call_dequeue s ep (ep_generation e) tgt caller =
             (clear_call_await s' caller, Err IpcError.ReplyDead)
  end.
Proof.
  intros Hwf Hl Hlive.
  destruct (take_first_from tgt (MessageQueue.contents (queue e))) as [l [m|]] eqn:Hc.
  - destruct (call_dequeue_reply s ep tgt caller e m l) as (s' & e' & ? & ? & ? & ?); try done.
    apply QueueFacts.take_first_Some in Hc as (_ & _ & ? & _). eauto 10.
  - destruct (call_dequeue_no_reply s ep tgt caller e l) as (s' & e' & ? & ? & _ & ? & Hd & Hr); try done.
    exists s', e'. destruct (target_alive s tgt); split_and!; try done. by apply Hr.
Qed.

(** The death of an endpoint wakes everyone waiting on it.  The kill path
    (mark dead, then drain the call record) always finishes; it returns the
    blocked receiver and the parked sender, and exactly the tasks recorded as
    waiting for a reply from the endpoint, each once; afterwards none is
    recorded, every message the endpoint held is gone, its generation has moved
    on, and no other endpoint or waiting task is affected.  It panics only if
    the generation is already the last one. *)
Theorem death_wakes_all_waiters (s : RoutingState) (ep : EndpointId) :
  routing_reachable s -> ep <> 0 ->
  match kill_and_drain s ep with
  | Done (s', rxtx, slots) =>
      NoDup slots /\ (forall slot, slot ∈ slots <-> CALL_AWAIT_EP s !! slot = Some ep) /\
      (forall slot, CALL_AWAIT_EP s' !! slot =
         (fun a => if decide (a = ep) then 0 else a) <$> CALL_AWAIT_EP s !! slot) /\
      (forall ep', ep' <> ep -> lookup_entry s' ep' = lookup_entry s ep') /\
      (forall e, lookup_entry s ep = Some e ->
         rxtx = (blocked_receiver e, blocked_sender e) /\
         exists e', lookup_entry s' ep = Some e' /\ liveness e' = EpDead /\
           ep_generation e' = ep_generation e + 1 /\ backlog e' = [] /\
           blocked_receiver e' = None)
  | Panic => exists e, lookup_entry s ep = Some e /\ u32_max <= ep_generation e
  end.
Proof.
  intros Hr Hep. apply reachable_inv in Hr. pose proof (kill_and_drain_spec s ep Hr Hep) as Hk.
  destruct (kill_and_drain s ep) as [[[s' rxtx] slots]|]; [|done].
  destruct Hk as (_ & _ & ? & ? & ? & ? & Hself). split_and!; try done.
  intros e He. destruct (Hself e He) as [? ?]. split; [done|].
  eexists; split_and!; try done.
  unfold backlog. destruct (kill_entry_wf e (ep_generation e + 1)) as [_ ->]; [|done].
  eapply lookup_entry_wf; [apply Hr|done].
Qed.

(** A dead endpoint stays silent.  After an endpoint has died, and until
    its id is registered again, every send to it and every receive on it is
    refused with [EndpointDead] for every generation, whatever operations run
    in between on the rest of the table. *)
Theorem dead_endpoint_silent (s s1 s2 : RoutingState) (ep : EndpointId) (ops : list routing_op) :
  routing_reachable s -> ep <> 0 -> routing_do s (OKill ep) = Done s1 ->
  Forall (fun o => op_ok o /\ ~ registers o ep) ops ->
  foldl (fun s o => s ≫= fun s => routing_do s o) (Done s1) ops = Done s2 ->
  forall m g sender receiver,
    enqueue s2 ep m g sender = (s2, Err IpcError.EndpointDead) /\
    dequeue s2 ep g receiver = (s2, Err IpcError.EndpointDead).
Proof.
  intros Hr Hep Hkill Hops Hrun m g sender receiver.
  assert (routing_inv s1 /\ target_alive s1 ep = false) as H1.
  { apply reachable_inv in Hr. pose proof (kill_and_drain_spec s ep Hr Hep) as Hk. simpl in Hkill.
    destruct (kill_and_drain s ep) as [[[s' rxtx] slots]|]; [|done]. simpl in Hkill.
    injection Hkill as <-. destruct Hk as (? & ? & _). done. }
  assert (target_alive s2 ep = false) as Hdead.
  { clear Hkill. revert s1 H1 Hrun. induction Hops as [|o ops [Hok Hnr] _ IH];
      intros s1 [Hinv Hd] Hrun; simpl in Hrun; [by simplify_eq|].
    destruct (routing_do s1 o) as [s'|] eqn:Ho.
    - apply (IH s'); [|done]. split; [by eapply routing_do_inv|by eapply routing_do_stays_dead].
    - assert (foldl (fun s o => s ≫= fun s => routing_do s o) Panic ops = Panic) as Hp
        by (clear; by induction ops). simpl in Hrun. by rewrite Hp in Hrun. }
  split; [apply enqueue_refused|apply dequeue_refused]; by apply dead_refuses.
Qed.

(** Optional endpoints can never exhaust the table.  A reply mailbox for a
    fresh id is granted only above the reserve, or, for a watched task holding
    a credit, above the credit floor; either way the floor's slots stay free
    afterwards, so a mandatory registration still succeeds.  A refusal leaves
    the table and the credits as they were. *)
Theorem optional_registration_keeps_floor (s s' : RoutingState) (ep : EndpointId)
    (core : Z) (g : Generation) (watched : bool) (r : result OptionalGrant OptionalRefusal) :
  routing_wf s -> lookup_entry s ep = None -> 0 <= MAILBOX_CREDITS s <= u64_max ->
  try_register_optional s ep core g watched = (s', r) ->
  match r with
  | Ok grant =>
      free_slots s = S (free_slots s') /\ (CREDIT_FLOOR <= free_slots s')%nat /\
      (forall ep' core' g', (try_register s' ep' core' g').2 = true) /\
      match grant with
      | Free => (OPTIONAL_RESERVE < free_slots s)%nat /\ MAILBOX_CREDITS s' = MAILBOX_CREDITS s
      | Credit _ _ _ => watched = true /\ MAILBOX_CREDITS s' = MAILBOX_CREDITS s - 1 /\
          (CREDIT_FLOOR < free_slots s <= OPTIONAL_RESERVE)%nat
      end
  | Err _ => TABLE s' = TABLE s /\ MAILBOX_CREDITS s' = MAILBOX_CREDITS s
  end.
Proof.
  intros Hwf Hnone Hcred. unfold try_register_optional.
  assert (CREDIT_FLOOR = 12 /\ OPTIONAL_RESERVE = 72)%nat as [HF HR] by done.
  assert (forall s1, TABLE s1 = TABLE s -> CALL_AWAIT_EP s1 = CALL_AWAIT_EP s ->
    (12 < free_slots s)%nat -> exists s2, try_register s1 ep core g = (s2, true) /\
      free_slots s = S (free_slots s2) /\ MAILBOX_CREDITS s2 = MAILBOX_CREDITS s1 /\
      (forall ep' core' g', (try_register s2 ep' core' g').2 = true)) as Hreg.
  { intros s1 Ht Ha Hfree.
    assert (free_slots s1 = free_slots s) as Hf by (unfold free_slots; by rewrite Ht).
    pose proof (try_register_room s1 ep core g ltac:(lia)) as Hroom.
    destruct (try_register s1 ep core g) as [s2 ok] eqn:E. simpl in Hroom. subst ok.
    exists s2. assert (free_slots s1 = S (free_slots s2)) as Hfs.
    { eapply try_register_free_slots; [by eapply wf_table|..|done].
      unfold lookup_entry in *. by rewrite Ht. }
    split_and!; [done|lia| |].
    - unfold try_register in E. case_match; by simplify_eq/=.
    - intros. apply try_register_room. lia. }
  destruct ((free_slots s <=? OPTIONAL_RESERVE)%nat) eqn:E1; simpl.
  - apply Nat.leb_le in E1.
    destruct ((CREDIT_FLOOR <? free_slots s)%nat && watched) eqn:E2; simpl.
    + apply andb_true_iff in E2 as [E2%Nat.ltb_lt ->]. unfold take_mailbox_credit.
      destruct (MAILBOX_CREDITS s =? 0) eqn:E3; [intros [= <- <-]; done|]. to_prop.
      destruct (Hreg (mkRouting (TABLE s) (CALL_AWAIT_EP s) (REFUSED s) (MAILBOX_CREDITS s - 1)
        (QUEUED_LOST s))) as (s2 & -> & Hfs & Hc & Hall); [done..|lia|].
      intros [= <- <-]. simpl in Hc. split_and!; try done; lia.
    + intros [= <- <-]. done.
  - apply Nat.leb_gt in E1.
    destruct (Hreg s) as (s2 & -> & Hfs & Hc & Hall); [done..|lia|].
    intros [= <- <-]. split_and!; try done; lia.
Qed.

(** A second blocking sender displaces the first.  When a task is already
    parked on a full queue and another blocking send arrives, the table keeps
    only the newcomer and its message: the first message is no longer anywhere
    in the endpoint's backlog, and the first sender is not the one any later
    receive or death returns for waking. *)
Theorem second_blocked_sender_displaces_first (s : RoutingState) (ep : EndpointId) (e : RoutingEntry)
    (m1 m2 : Message) (slot1 slot2 : nat) :
  routing_wf s -> lookup_entry s ep = Some e -> liveness e = EpAlive ->
  length (MessageQueue.contents (queue e)) = QUEUE_DEPTH ->
  exists s1 s2 e2,
    enqueue s ep m1 (ep_generation e) (Some slot1) = (s1, Err IpcError.QueueFull) /\
    enqueue s1 ep m2 (ep_generation e) (Some slot2) = (s2, Err IpcError.QueueFull) /\
    lookup_entry s2 ep = Some e2 /\ blocked_sender e2 = Some slot2 /\
    backlog e2 = MessageQueue.contents (queue e) ++ [m2].
Proof.
  intros Hwf Hl Hlive Hfull.
  destruct (enqueue_full s ep m1 (Some slot1) e Hwf Hl Hlive Hfull) as (s1 & H1 & Hu1).
  pose proof (eu_lookup _ _ _ _ Hu1 ep) as Hl1. rewrite decide_True in Hl1 by done.
  destruct (enqueue_full s1 ep m2 (Some slot2) _ (eu_wf _ _ _ _ Hu1) Hl1 Hlive Hfull) as (s2 & H2 & Hu2).
  pose proof (eu_lookup _ _ _ _ Hu2 ep) as Hl2. rewrite decide_True in Hl2 by done.
  eexists s1, s2, _. split_and!; try done.
Qed.

(** ** Witnesses *)

Definition run_routing (ops : list routing_op) : outcome RoutingState :=
  foldl (fun s o => s ≫= fun s => routing_do s o) (Done routing_boot) ops.

Lemma run_routing_reachable (ops : list routing_op) (s : RoutingState) :
  Forall op_ok ops -> run_routing ops = Done s -> routing_reachable s.
Proof.
  unfold run_routing. intros Hops. assert (routing_reachable routing_boot) as Hb by constructor.
  revert Hb. generalize routing_boot. induction Hops as [|o ops Ho _ IH]; intros s0 Hs0 Hrun; simpl in Hrun.
  - by simplify_eq.
  - destruct (routing_do s0 o) as [s1|] eqn:E.
    + apply (IH s1); [|done]. by eapply reach_step.
    + assert (foldl (fun s o => s ≫= fun s => routing_do s o) Panic ops = Panic) as Hp
        by (clear; by induction ops). simpl in Hrun. by rewrite Hp in Hrun.
Qed.

Definition sample_msg : Message := mkMessage [7] 1 [] 0 0 0 9.

(** Endpoint 100 has a full queue; task 5, owner of 101, is in a call awaiting
    100's reply. *)
Definition sample_ops : list routing_op :=
  [OTryRegister 100 0 1; OTryRegister 101 0 2; OCallDequeue 101 2 100 5] ++
  replicate 16 (OEnqueue 100 sample_msg 1 None).

Definition sample_routing : RoutingState :=
  match run_routing sample_ops with Done s => s | Panic => routing_boot end.

Lemma sample_routing_reachable : routing_reachable sample_routing.
Proof.
  apply (run_routing_reachable sample_ops).
  - repeat constructor.
  - vm_compute. reflexivity.
Qed.

Lemma sample_routing_wf : routing_wf sample_routing.
Proof. apply reachable_inv, sample_routing_reachable. Qed.

Definition sample_entry (ep : EndpointId) : RoutingEntry :=
  default empty_entry (lookup_entry sample_routing ep).

Lemma sample_lookup_100 : lookup_entry sample_routing 100 = Some (sample_entry 100).
Proof. vm_compute. reflexivity. Qed.

Lemma sample_lookup_101 : lookup_entry sample_routing 101 = Some (sample_entry 101).
Proof. vm_compute. reflexivity. Qed.


Lemma send_correct_witness :
  exists s', enqueue sample_routing 101 sample_msg 2 None = (s', Ok (Some 5%nat)).
Proof.
  pose proof (send_correct sample_routing 101 sample_msg 2 None sample_routing_wf) as H.
  rewrite sample_lookup_101, bool_decide_eq_true_2 in H by (split; vm_compute; reflexivity).
  destruct H as (s' & e' & _ & _ & H).
  replace (length (MessageQueue.contents (queue (sample_entry 101))) <? QUEUE_DEPTH)%nat with true in H
    by (vm_compute; reflexivity).
  destruct H as [H _]. exists s'. rewrite H. vm_compute. reflexivity.
Defined.

Lemma recv_correct_witness :
  exists s', dequeue sample_routing 100 1 None = (s', Ok (sample_msg, None)).
Proof.
  pose proof (recv_correct sample_routing 100 1 None sample_routing_wf) as H.
  rewrite sample_lookup_100, bool_decide_eq_true_2 in H by (split; vm_compute; reflexivity).
  destruct H as (s' & e' & _ & _ & H).
  replace (backlog (sample_entry 100)) with (sample_msg :: replicate 15 sample_msg) in H
    by (vm_compute; reflexivity).
  destruct H as [H _]. exists s'. rewrite H. vm_compute. reflexivity.
Defined.

Lemma call_dequeue_correct_witness :
  exists s', call_dequeue sample_routing 101 2 100 5 = (set_call_await s' 5 100, Err IpcError.QueueEmpty).
Proof.
  destruct (call_dequeue_correct sample_routing 101 100 5 (sample_entry 101) sample_routing_wf
    sample_lookup_101 ltac:(vm_compute; reflexivity)) as (s' & e' & _ & _ & H).
  replace (take_first_from 100 (MessageQueue.contents (queue (sample_entry 101))))
    with (@nil Message, @None Message) in H by (vm_compute; reflexivity).
  destruct H as [_ H].
  replace (target_alive sample_routing 100) with true in H by (vm_compute; reflexivity).
  destruct H as [H _]. exists s'. exact H.
Defined.

Lemma death_wakes_all_waiters_witness :
  match kill_and_drain sample_routing 100 with
  | Done (_, _, slots) => 5%nat ∈ slots
  | Panic => False
  end.
Proof.
  pose proof (death_wakes_all_waiters sample_routing 100 sample_routing_reachable ltac:(lia)) as H.
  assert (match kill_and_drain sample_routing 100 with Done _ => True | Panic => False end) as Hd
    by (vm_compute; exact I).
  destruct (kill_and_drain sample_routing 100) as [[[s' rxtx] slots]|]; [|exact Hd].
  destruct H as (_ & H & _). apply H. vm_compute. reflexivity.
Defined.

Lemma dead_endpoint_silent_witness :
  match routing_do sample_routing (OKill 100) with
  | Done s1 => enqueue s1 100 sample_msg 2 None = (s1, Err IpcError.EndpointDead)
  | Panic => False
  end.
Proof.
  assert (match routing_do sample_routing (OKill 100) with Done _ => True | Panic => False end) as Hd
    by (vm_compute; exact I).
  destruct (routing_do sample_routing (OKill 100)) as [s1|] eqn:E; [|exact Hd].
  apply (dead_endpoint_silent sample_routing s1 s1 100 []
    sample_routing_reachable ltac:(lia) E (Forall_nil_2 _) eq_refl sample_msg 2 None None).
Defined.

Lemma optional_registration_keeps_floor_witness :
  match try_register_optional sample_routing 102 0 3 false with
  | (s', Ok Free) => (12 <= free_slots s')%nat
  | _ => False
  end.
Proof.
  destruct (try_register_optional sample_routing 102 0 3 false) as [s' r] eqn:E.
  assert (r = Ok Free) as Hr.
  { change r with (s', r).2. rewrite <- E. vm_compute. reflexivity. }
  pose proof (optional_registration_keeps_floor sample_routing s' 102 0 3 false r sample_routing_wf
    ltac:(vm_compute; reflexivity) ltac:(vm_compute; split; discriminate) E) as H.
  subst r. destruct H as (_ & H & _). exact H.
Defined.

Lemma second_blocked_sender_displaces_first_witness :
  exists s1 s2 e2,
    enqueue sample_routing 100 (Message.interrupt_event 1) 1 (Some 7%nat) = (s1, Err IpcError.QueueFull) /\
    enqueue s1 100 (Message.interrupt_event 2) 1 (Some 8%nat) = (s2, Err IpcError.QueueFull) /\
    lookup_entry s2 100 = Some e2 /\ blocked_sender e2 = Some 8%nat.
Proof.
  destruct (second_blocked_sender_displaces_first sample_routing 100 (sample_entry 100)
    (Message.interrupt_event 1) (Message.interrupt_event 2) 7 8 sample_routing_wf sample_lookup_100
    ltac:(vm_compute; reflexivity) ltac:(vm_compute; reflexivity)) as (s1 & s2 & e2 & H1 & H2 & H3 & H4 & _).
  exists s1, s2, e2. split; [exact H1|]. split; [exact H2|]. split; [exact H3|exact H4].
Defined.
