(* ===== verification/Names.v ===== *)
(** * Endpoint identifiers and the name directory

    [kernel/src/ipc/mod.rs] (the identifier counter with its free list) and
    [kernel/src/ipc/names.rs] (the service-name directory).  A name is its
    list of bytes. *)

From S2P Require Import Prelude Delegated.

(** ** Endpoint identifiers *)

Definition FREE_ID_CAP : nat := 128.

(** [FREE_IDS] and [NEXT_ENDPOINT_ID]. *)
Record EndpointIds := mkEndpointIds {
  free_ids : list Z;
  free_len : nat;
  NEXT_ENDPOINT_ID : Z
}.

Definition endpoint_ids_boot : EndpointIds := mkEndpointIds (replicate FREE_ID_CAP 0) 0 100.

Definition alloc_endpoint_id (s : EndpointIds) : outcome (EndpointIds * Z) :=
  let n := free_len s in
  if (0 <? n)%nat then
    match free_ids s !! (n - 1)%nat with
    | Some id => Done (mkEndpointIds (free_ids s) (n - 1) (NEXT_ENDPOINT_ID s), id)
    | None => Panic
    end
  else
    let id := NEXT_ENDPOINT_ID s in
    if DELEGATED_BASE <=? id then Panic
    else Done (mkEndpointIds (free_ids s) n (wrap64 (id + 1)), id).

Definition free_endpoint_id (s : EndpointIds) (id : Z) : EndpointIds :=
  if (id <? 100) || (DELEGATED_BASE <=? id) then s
  else
    let n := free_len s in
    if (n <? FREE_ID_CAP)%nat
    then mkEndpointIds (<[n := id]> (free_ids s)) (n + 1) (NEXT_ENDPOINT_ID s)
    else s.

(** The reusable ids, and the invariant that ties them to the ids in use. *)
Definition reclaimed_ids (s : EndpointIds) : list Z := take (free_len s) (free_ids s).

Record ids_wf (s : EndpointIds) (live : list Z) : Prop := mk_ids_wf {
  iwf_len : length (free_ids s) = FREE_ID_CAP;
  iwf_used : (free_len s <= FREE_ID_CAP)%nat;
  iwf_next : 100 <= NEXT_ENDPOINT_ID s <= DELEGATED_BASE;
  iwf_free : NoDup (reclaimed_ids s);
  iwf_live : NoDup live;
  (** every id handed out so far lies below the counter, and a reclaimed id
      is not in use *)
  iwf_free_range : forall id, id ∈ reclaimed_ids s -> 100 <= id < NEXT_ENDPOINT_ID s;
  iwf_live_range : forall id, id ∈ live -> 100 <= id < NEXT_ENDPOINT_ID s;
  iwf_disjoint : forall id, id ∈ reclaimed_ids s -> id ∉ live
}.

(** ** The name directory *)

Definition MAX_ENTRIES : nat := 128.
Definition NAME_MAX : nat := 128.

Record NameEntry := mkNameEntry {
  ne_valid : bool;
  ne_len : nat;
  ne_name : list Z;
  ne_endpoint : Z
}.

Definition empty_name : NameEntry := mkNameEntry false 0 (replicate NAME_MAX 0) 0.

(** [NAMES: [NameEntry; MAX_ENTRIES]]. *)
Definition names_boot : list NameEntry := replicate MAX_ENTRIES empty_name.

(** [entry.name_len == len && &entry.name[..len as usize] == bytes] *)
Definition same_name (bytes : list Z) (e : NameEntry) : bool :=
  (ne_len e =? length bytes)%nat && bool_decide (take (length bytes) (ne_name e) = bytes).

Definition named (bytes : list Z) (e : NameEntry) : bool := ne_valid e && same_name bytes e.

Definition invalidate (e : NameEntry) : NameEntry :=
  mkNameEntry false (ne_len e) (ne_name e) (ne_endpoint e).

Definition repoint (ep : Z) (e : NameEntry) : NameEntry :=
  mkNameEntry (ne_valid e) (ne_len e) (ne_name e) ep.

Definition fresh_name (bytes : list Z) (ep : Z) : NameEntry :=
  mkNameEntry true (length bytes) (bytes ++ drop (length bytes) (replicate NAME_MAX 0)) ep.

(** The eviction pass of [register]. *)
Definition evict (bytes : list Z) (ep : Z) (names : list NameEntry) : list NameEntry :=
  (fun e => if ne_valid e && (ne_endpoint e =? ep) && negb (same_name bytes e)
            then invalidate e else e) <$> names.

Definition register_name (names : list NameEntry) (bytes : list Z) (ep : Z) : list NameEntry :=
  if (NAME_MAX <? length bytes)%nat then names
  else
    let names := evict bytes ep names in
    match position (named bytes) names with
    | Some i => alter (repoint ep) i names
    | None =>
        match position (fun e => negb (ne_valid e)) names with
        | Some i => <[i := fresh_name bytes ep]> names
        | None => names
        end
    end.

Definition unregister_name (names : list NameEntry) (bytes : list Z) : list NameEntry :=
  if (NAME_MAX <? length bytes)%nat then names
  else match position (named bytes) names with
       | Some i => alter invalidate i names
       | None => names
       end.

Inductive UnregisterOutcome :=
| Cleared
| KeptNewer (ep : Z)
| NotFound.

Definition unregister_endpoint (names : list NameEntry) (bytes : list Z) (ep : Z)
    : list NameEntry * UnregisterOutcome :=
  if (NAME_MAX <? length bytes)%nat then (names, NotFound)
  else match position (named bytes) names with
       | Some i =>
           match names !! i with
           | Some e => if ne_endpoint e =? ep then (alter invalidate i names, Cleared)
                       else (names, KeptNewer (ne_endpoint e))
           | None => (names, NotFound)
           end
       | None => (names, NotFound)
       end.

Definition lookup_name (names : list NameEntry) (bytes : list Z) : option Z :=
  if (NAME_MAX <? length bytes)%nat then None
  else i ← position (named bytes) names; ne_endpoint <$> names !! i.

(** An entry's name, and the directory invariant: names are unique among the
    valid entries, and so are endpoints. *)
Definition key (e : NameEntry) : list Z := take (ne_len e) (ne_name e).

Record names_wf (names : list NameEntry) : Prop := mk_names_wf {
  nwf_len : length names = MAX_ENTRIES;
  nwf_entry : forall i e, names !! i = Some e ->
    length (ne_name e) = NAME_MAX /\ (ne_len e <= NAME_MAX)%nat;
  nwf_names : forall i j e e', names !! i = Some e -> names !! j = Some e' ->
    ne_valid e = true -> ne_valid e' = true -> key e = key e' -> i = j;
  nwf_endpoints : forall i j e e', names !! i = Some e -> names !! j = Some e' ->
    ne_valid e = true -> ne_valid e' = true -> ne_endpoint e = ne_endpoint e' -> i = j
}.

(** ** Identifiers *)

Lemma reclaimed_last (s : EndpointIds) (n : nat) (id : Z) :
  free_ids s !! n = Some id -> free_len s = S n ->
  reclaimed_ids s = take n (free_ids s) ++ [id].
Proof. intros Hid Hn. unfold reclaimed_ids. rewrite Hn. by apply take_S_r. Qed.

Lemma alloc_endpoint_id_wf (s s' : EndpointIds) (live : list Z) (id : Z) :
  ids_wf s live -> alloc_endpoint_id s = Done (s', id) ->
  id ∉ live /\ 100 <= id < DELEGATED_BASE /\ ids_wf s' (id :: live).
Proof.
  intros Hwf. pose proof Hwf as [Hlen Hused Hnext Hnd Hndl Hfr Hlr Hdis].
  unfold alloc_endpoint_id. destruct (Nat.ltb_spec 0 (free_len s)) as [Hpos|Hz].
  - destruct (free_ids s !! (free_len s - 1)%nat) as [x|] eqn:Hx; [|done].
    intros [= <- <-].
    pose proof (reclaimed_last s (free_len s - 1) x Hx ltac:(lia)) as Hr.
    assert (reclaimed_ids (mkEndpointIds (free_ids s) (free_len s - 1) (NEXT_ENDPOINT_ID s)) =
            take (free_len s - 1) (free_ids s)) as Hr' by done.
    rewrite Hr in Hnd. apply NoDup_app in Hnd as (Hnd1 & Hnx & _).
    assert (x ∈ reclaimed_ids s) as Hin by (rewrite Hr; set_solver).
    pose proof (Hfr x Hin). split; [by apply Hdis|]. split; [lia|].
    split; rewrite ?Hr'; simpl; try done; try lia.
    + constructor; [by apply Hdis|done].
    + intros y Hy. apply Hfr. rewrite Hr. set_solver.
    + intros y [->|Hy]%elem_of_cons; [by apply Hfr|by apply Hlr].
    + intros y Hy [->|Hl]%elem_of_cons.
      * apply (Hnx x Hy). set_solver.
      * apply (Hdis y); [rewrite Hr; set_solver|done].
  - destruct (DELEGATED_BASE <=? NEXT_ENDPOINT_ID s) eqn:E; [done|]. to_prop.
    intros [= <- <-]. unfold DELEGATED_BASE in *.
    assert (wrap64 (NEXT_ENDPOINT_ID s + 1) = NEXT_ENDPOINT_ID s + 1) as Hw
      by (apply wrap64_small; unfold u64_max; lia).
    assert (NEXT_ENDPOINT_ID s ∉ live) as Hfresh by (intros Hin%Hlr; lia).
    split; [done|]. split; [lia|].
    assert (reclaimed_ids (mkEndpointIds (free_ids s) (free_len s)
      (wrap64 (NEXT_ENDPOINT_ID s + 1))) = reclaimed_ids s) as Hr' by done.
    split; rewrite ?Hr'; simpl; rewrite ?Hw; try done; unfold DELEGATED_BASE; try lia.
    + by constructor.
    + intros y Hy%Hfr. lia.
    + intros y [->|Hy%Hlr]%elem_of_cons; lia.
    + intros y Hy [->|Hl]%elem_of_cons; [apply Hfr in Hy; lia|by apply (Hdis y)].
Qed.

Lemma free_endpoint_id_wf (s : EndpointIds) (live : list Z) (id : Z) :
  ids_wf s (id :: live) -> ids_wf (free_endpoint_id s id) live.
Proof.
  intros [Hlen Hused Hnext Hnd Hndl Hfr Hlr Hdis].
  apply NoDup_cons in Hndl as [Hnin Hndl].
  assert (100 <= id < NEXT_ENDPOINT_ID s) as Hid by (apply Hlr; set_solver).
  assert (id ∉ reclaimed_ids s) as Hnr by (intros Hin; apply (Hdis id Hin); set_solver).
  unfold free_endpoint_id.
  replace ((id <? 100) || (DELEGATED_BASE <=? id)) with false
    by (symmetry; apply orb_false_iff; split; [apply Z.ltb_ge|apply Z.leb_gt]; lia).
  destruct (Nat.ltb_spec (free_len s) FREE_ID_CAP) as [Hlt|Hge].
  - assert (reclaimed_ids (mkEndpointIds (<[free_len s := id]> (free_ids s)) (free_len s + 1)
      (NEXT_ENDPOINT_ID s)) = reclaimed_ids s ++ [id]) as Hr.
    { unfold reclaimed_ids; simpl. rewrite Nat.add_1_r, (take_S_r _ _ id).
      - by rewrite take_insert_ge by lia.
      - apply list_lookup_insert_eq. lia. }
    split; rewrite ?Hr; simpl; autorewrite with gs; try done; try lia.
    + apply NoDup_app. split_and!; [done|set_solver|apply NoDup_singleton].
    + intros y [Hy|Hy]%elem_of_app; [by apply Hfr|]. apply list_elem_of_singleton in Hy. by subst.
    + intros y Hy. apply Hlr. set_solver.
    + intros y [Hy|Hy]%elem_of_app Hl; [apply (Hdis y Hy); set_solver|].
      apply list_elem_of_singleton in Hy. by subst.
  - split; try done; intros y Hy; [apply Hlr|intros Hl; apply (Hdis y Hy)]; set_solver.
Qed.

(** ** The directory as a relation *)

Lemma same_name_key (bytes : list Z) (e : NameEntry) :
  length (ne_name e) = NAME_MAX -> (ne_len e <= NAME_MAX)%nat ->
  same_name bytes e = true <-> key e = bytes.
Proof.
  intros Hlen Hle. unfold same_name, key. rewrite andb_true_iff, Nat.eqb_eq, bool_decide_eq_true.
  split.
  - intros [-> H]. done.
  - intros <-. rewrite length_take. replace (ne_len e `min` length (ne_name e))%nat with (ne_len e) by lia.
    done.
Qed.

(** [bytes] is registered to [ep]. *)
Definition maps_to (names : list NameEntry) (bytes : list Z) (ep : Z) : Prop :=
  exists i e, names !! i = Some e /\ ne_valid e = true /\ key e = bytes /\ ne_endpoint e = ep.

Lemma named_spec (names : list NameEntry) (bytes : list Z) (i : nat) (e : NameEntry) :
  names_wf names -> names !! i = Some e ->
  named bytes e = true <-> ne_valid e = true /\ key e = bytes.
Proof.
  intros Hwf He. destruct (nwf_entry _ Hwf i e He). unfold named.
  by rewrite andb_true_iff, same_name_key.
Qed.

Lemma lookup_name_spec (names : list NameEntry) (bytes : list Z) (ep : Z) :
  names_wf names -> lookup_name names bytes = Some ep <-> maps_to names bytes ep.
Proof.
  intros Hwf. unfold lookup_name. split.
  - case_match; [done|]. intros (i & Hi & Hep)%bind_Some.
    apply position_hit in Hi as (e & He & Hn). rewrite He in Hep. injection Hep as <-.
    apply (named_spec names bytes i e) in Hn as [? ?]; try done. by exists i, e.
  - intros (i & e & He & Hv & Hk & <-). destruct (nwf_entry _ Hwf i e He).
    assert (length bytes <= NAME_MAX)%nat by (rewrite <- Hk; unfold key; rewrite length_take; lia).
    destruct (Nat.ltb_spec NAME_MAX (length bytes)); [lia|].
    destruct (position (named bytes) names) as [j|] eqn:Hj; simpl.
    + pose proof (position_hit _ _ _ Hj) as (e' & He' & Hn).
      apply (named_spec names bytes j e') in Hn as [Hv' Hk']; try done.
      assert (i = j) as <- by (eapply nwf_names; try done; congruence). by simplify_option_eq.
    + rewrite position_None in Hj. specialize (Hj i e He).
      assert (named bytes e = true) by (eapply (named_spec names); done). congruence.
Qed.

Lemma lookup_name_None (names : list NameEntry) (bytes : list Z) :
  names_wf names -> lookup_name names bytes = None <-> forall ep, ~ maps_to names bytes ep.
Proof.
  intros Hwf. split.
  - intros Hn ep Hm%lookup_name_spec; [|done]. congruence.
  - intros Hn. destruct (lookup_name names bytes) as [ep|] eqn:E; [|done].
    apply lookup_name_spec in E; [|done]. by destruct (Hn ep).
Qed.

Lemma lookup_name_ext (names names' : list NameEntry) (b b' : list Z) :
  names_wf names -> names_wf names' ->
  (forall ep, maps_to names b ep <-> maps_to names' b' ep) ->
  lookup_name names b = lookup_name names' b'.
Proof.
  intros H1 H2 H. destruct (lookup_name names' b') as [ep|] eqn:E.
  - apply lookup_name_spec; [done|]. apply H. by apply lookup_name_spec.
  - apply lookup_name_None; [done|]. intros ep Hm%H. by eapply (lookup_name_None names').
Qed.

(** ** Eviction *)

Lemma evict_lookup (bytes : list Z) (ep : Z) (names : list NameEntry) (i : nat) (e : NameEntry) :
  evict bytes ep names !! i = Some e <->
  exists e0, names !! i = Some e0 /\
    e = (if ne_valid e0 && (ne_endpoint e0 =? ep) && negb (same_name bytes e0)
         then invalidate e0 else e0).
Proof. unfold evict. rewrite list_lookup_fmap_Some. naive_solver. Qed.

Lemma evict_valid (bytes : list Z) (ep : Z) (names : list NameEntry) (i : nat) (e : NameEntry) :
  names_wf names -> evict bytes ep names !! i = Some e -> ne_valid e = true ->
  names !! i = Some e /\ (ne_endpoint e = ep -> key e = bytes).
Proof.
  intros Hwf (e0 & He0 & ->)%evict_lookup Hv.
  destruct (nwf_entry _ Hwf i e0 He0) as [Hl Hle].
  destruct (ne_valid e0 && (ne_endpoint e0 =? ep) && negb (same_name bytes e0)) eqn:E; [done|].
  split; [done|]. intros Hep. rewrite Hv, Hep, Z.eqb_refl in E. simpl in E.
  apply negb_false_iff in E. by apply same_name_key.
Qed.

Lemma evict_wf (bytes : list Z) (ep : Z) (names : list NameEntry) :
  names_wf names -> names_wf (evict bytes ep names).
Proof.
  intros Hwf. split.
  - unfold evict. rewrite length_fmap. by destruct Hwf.
  - intros i e (e0 & He0 & ->)%evict_lookup. apply (nwf_entry _ Hwf i) in He0. by case_match.
  - intros i j e e' He He' Hv Hv' Hk.
    apply evict_valid in He as [He _]; [|done..]. apply evict_valid in He' as [He' _]; [|done..].
    by eapply nwf_names.
  - intros i j e e' He He' Hv Hv' Hk.
    apply evict_valid in He as [He _]; [|done..]. apply evict_valid in He' as [He' _]; [|done..].
    by eapply nwf_endpoints.
Qed.

Lemma evict_maps_to (bytes : list Z) (ep : Z) (names : list NameEntry) (b : list Z) (ep' : Z) :
  names_wf names ->
  maps_to (evict bytes ep names) b ep' <-> maps_to names b ep' /\ (ep' = ep -> b = bytes).
Proof.
  intros Hwf. split.
  - intros (i & e & He & Hv & Hk & Hep). apply evict_valid in He as [He Hb]; [|done..].
    split; [by exists i, e|]. intros ->. rewrite <- Hk. by apply Hb.
  - intros [(i & e & He & Hv & Hk & <-) Hb]. exists i, e. split_and!; try done.
    apply evict_lookup. exists e. split; [done|]. destruct (nwf_entry _ Hwf i e He).
    destruct (ne_valid e && (ne_endpoint e =? ep) && negb (same_name bytes e)) eqn:E; [|done].
    to_prop. assert (same_name bytes e = true) by (apply same_name_key; naive_solver). congruence.
Qed.

(** ** Stores *)

Lemma names_wf_store (names : list NameEntry) (i : nat) (e' : NameEntry) :
  names_wf names -> length (ne_name e') = NAME_MAX -> (ne_len e' <= NAME_MAX)%nat ->
  (ne_valid e' = true -> forall j e, names !! j = Some e -> ne_valid e = true -> j <> i ->
     key e <> key e' /\ ne_endpoint e <> ne_endpoint e') ->
  names_wf (<[i := e']> names).
Proof.
  intros [Hlen Hent Hn Hep] Hl Hle Hfresh. split; [by autorewrite with gs|..].
  - intros j e [[-> ->]|[_ He]]%lookup_insert_cases; eauto.
  - intros j k x y Hx Hy Hvx Hvy Hk.
    apply lookup_insert_cases in Hx as [[-> ->]|[? Hx]];
    apply lookup_insert_cases in Hy as [[? ->]|[? Hy]]; try done; [..|eauto];
    exfalso; [destruct (Hfresh Hvx k y)|destruct (Hfresh Hvy j x)]; congruence.
  - intros j k x y Hx Hy Hvx Hvy Hk.
    apply lookup_insert_cases in Hx as [[-> ->]|[? Hx]];
    apply lookup_insert_cases in Hy as [[? ->]|[? Hy]]; try done; [..|eauto];
    exfalso; [destruct (Hfresh Hvx k y)|destruct (Hfresh Hvy j x)]; congruence.
Qed.

Lemma maps_to_store (names : list NameEntry) (i : nat) (e0 e' : NameEntry) (b : list Z) (ep : Z) :
  names !! i = Some e0 ->
  maps_to (<[i := e']> names) b ep <->
  (ne_valid e' = true /\ key e' = b /\ ne_endpoint e' = ep) \/
  exists j e, j <> i /\ names !! j = Some e /\ ne_valid e = true /\ key e = b /\ ne_endpoint e = ep.
Proof.
  intros Hi. split.
  - intros (j & e & [[-> ->]|[Hne He]]%lookup_insert_cases & ? & ? & ?); [by left|right].
    exists j, e. naive_solver.
  - intros [(? & ? & ?)|(j & e & Hne & He & ? & ? & ?)].
    + exists i, e'. rewrite list_lookup_insert_eq by (by eapply lookup_lt_Some). done.
    + exists j, e. by rewrite list_lookup_insert_ne by done.
Qed.

(** Whether [register_name] finds a slot. *)
Definition has_slot (names : list NameEntry) (bytes : list Z) (ep : Z) : Prop :=
  is_Some (lookup_name (evict bytes ep names) bytes) \/
  exists i e, evict bytes ep names !! i = Some e /\ ne_valid e = false.

Lemma fresh_name_key (bytes : list Z) (ep : Z) :
  (length bytes <= NAME_MAX)%nat ->
  key (fresh_name bytes ep) = bytes /\ length (ne_name (fresh_name bytes ep)) = NAME_MAX.
Proof.
  intros Hle. unfold key, fresh_name; simpl. rewrite take_app_length. split; [done|].
  rewrite length_app, length_drop, length_replicate. lia.
Qed.

Lemma repoint_case (names : list NameEntry) (bytes : list Z) (ep : Z) (i : nat) :
  names_wf names -> (forall e j, names !! j = Some e -> ne_valid e = true -> ne_endpoint e = ep ->
    key e = bytes) ->
  position (named bytes) names = Some i ->
  names_wf (alter (repoint ep) i names) /\
  forall b ep', maps_to (alter (repoint ep) i names) b ep' <->
    (b = bytes /\ ep' = ep) \/ (b <> bytes /\ maps_to names b ep').
Proof.
  intros Hwf Hown Hpos. pose proof (position_hit _ _ _ Hpos) as (e & He & Hn).
  apply (named_spec names bytes i e) in Hn as [Hv Hk]; try done.
  rewrite (alter_as_insert _ _ _ e) by done. destruct (nwf_entry _ Hwf i e He).
  assert (forall j x, names !! j = Some x -> ne_valid x = true -> key x = bytes -> j = i) as Honly
    by (intros; eapply nwf_names; try done; congruence).
  split.
  - apply names_wf_store; try done. simpl. intros _ j x Hx Hvx Hji. split.
    + change (key (repoint ep e)) with (key e). intros Hkx. apply Hji.
      eapply Honly; try done. congruence.
    + intros Hepx. apply Hji. eapply Honly; try done. by eapply Hown.
  - intros b ep'. rewrite (maps_to_store names i e) by done. simpl.
    change (key (repoint ep e)) with (key e). rewrite Hk, Hv. split.
    + intros [(_ & <- & <-)|(j & x & Hji & Hx & Hvx & <- & <-)]; [by left|right].
      split; [|by exists j, x]. intros Hkx. apply Hji. by eapply Honly.
    + intros [[-> ->]|[Hne (j & x & Hx & Hvx & <- & <-)]]; [by left|right].
      exists j, x. split_and!; try done. intros ->. by simplify_eq.
Qed.

Lemma fresh_case (names : list NameEntry) (bytes : list Z) (ep : Z) (i : nat) :
  names_wf names -> (forall e j, names !! j = Some e -> ne_valid e = true -> ne_endpoint e = ep ->
    key e = bytes) -> (length bytes <= NAME_MAX)%nat ->
  position (named bytes) names = None ->
  position (fun e => negb (ne_valid e)) names = Some i ->
  names_wf (<[i := fresh_name bytes ep]> names) /\
  forall b ep', maps_to (<[i := fresh_name bytes ep]> names) b ep' <->
    (b = bytes /\ ep' = ep) \/ (b <> bytes /\ maps_to names b ep').
Proof.
  intros Hwf Hown Hle Hnone Hpos.
  pose proof (position_hit _ _ _ Hpos) as (e & He & Hv%negb_true_iff).
  destruct (fresh_name_key bytes ep Hle) as [Hk Hl].
  assert (forall j x, names !! j = Some x -> ne_valid x = true -> key x <> bytes) as Habs.
  { intros j x Hx Hvx Hkx. rewrite position_None in Hnone. specialize (Hnone j x Hx).
    assert (named bytes x = true) by (eapply (named_spec names); done). congruence. }
  split.
  - apply names_wf_store; try done. intros _ j x Hx Hvx Hji. rewrite Hk. simpl. split.
    + by eapply Habs.
    + intros Hepx. eapply (Habs j x); try done. by eapply Hown.
  - intros b ep'. rewrite (maps_to_store names i e) by done. rewrite Hk. simpl. split.
    + intros [(_ & <- & <-)|(j & x & Hji & Hx & Hvx & <- & <-)]; [by left|right].
      split; [by eapply Habs|by exists j, x].
    + intros [[-> ->]|[Hne (j & x & Hx & Hvx & <- & <-)]]; [by left|right].
      exists j, x. split_and!; try done. intros ->. congruence.
Qed.

Lemma register_name_cases (names : list NameEntry) (bytes : list Z) (ep : Z) :
  names_wf names -> (length bytes <= NAME_MAX)%nat ->
  (has_slot names bytes ep /\ names_wf (register_name names bytes ep) /\
   forall b ep', maps_to (register_name names bytes ep) b ep' <->
     (b = bytes /\ ep' = ep) \/ (b <> bytes /\ ep' <> ep /\ maps_to names b ep')) \/
  (~ has_slot names bytes ep /\ register_name names bytes ep = evict bytes ep names).
Proof.
  intros Hwf Hle. pose proof (evict_wf bytes ep names Hwf) as Hwf1. unfold register_name.
  destruct (Nat.ltb_spec NAME_MAX (length bytes)) as [|_]; [lia|].
  assert (forall e j, evict bytes ep names !! j = Some e -> ne_valid e = true ->
    ne_endpoint e = ep -> key e = bytes) as Hown
    by (intros e j He Hv; by destruct (evict_valid bytes ep names j e Hwf He Hv)).
  assert (forall b ep', (b = bytes /\ ep' = ep) \/ (b <> bytes /\ maps_to (evict bytes ep names) b ep') <->
    (b = bytes /\ ep' = ep) \/ (b <> bytes /\ ep' <> ep /\ maps_to names b ep')) as Heq.
  { intros b ep'. rewrite evict_maps_to by done. naive_solver. }
  destruct (position (named bytes) (evict bytes ep names)) as [i|] eqn:Hp.
  - left. split.
    { left. destruct (position_hit _ _ _ Hp) as (e & He & Hn).
      apply (named_spec (evict bytes ep names) bytes i e) in Hn as [? ?]; try done.
      exists (ne_endpoint e). apply lookup_name_spec; [done|]. by exists i, e. }
    destruct (repoint_case _ bytes ep i Hwf1 Hown Hp) as [? Hm]. split; [done|].
    intros b ep'. rewrite Hm. apply Heq.
  - destruct (position (fun e => negb (ne_valid e)) (evict bytes ep names)) as [i|] eqn:Hi.
    + left. destruct (position_hit _ _ _ Hi) as (e & He & Hv%negb_true_iff).
      split; [right; eauto|].
      destruct (fresh_case _ bytes ep i Hwf1 Hown Hle Hp Hi) as [? Hm]. split; [done|].
      intros b ep'. rewrite Hm. apply Heq.
    + right. split; [|done]. intros [[x Hx]|(i & e & He & Hv)].
      * apply lookup_name_spec in Hx as (i & e & He & Hv & Hk & _); [|done].
        rewrite position_None in Hp. specialize (Hp i e He).
        assert (named bytes e = true) by (eapply (named_spec (evict bytes ep names)); done). congruence.
      * rewrite position_None in Hi. specialize (Hi i e He). by rewrite Hv in Hi.
Qed.

Lemma register_name_wf (names : list NameEntry) (bytes : list Z) (ep : Z) :
  names_wf names -> names_wf (register_name names bytes ep).
Proof.
  intros Hwf. destruct (Nat.ltb_spec NAME_MAX (length bytes)) as [Hgt|Hle].
  - unfold register_name. apply Nat.ltb_lt in Hgt. by rewrite Hgt.
  - destruct (register_name_cases names bytes ep Hwf Hle) as [(_ & ? & _)|[_ ->]]; [done|].
    by apply evict_wf.
Qed.

Lemma invalidate_case (names : list NameEntry) (bytes : list Z) (i : nat) :
  names_wf names -> position (named bytes) names = Some i ->
  names_wf (alter invalidate i names) /\
  forall b ep, maps_to (alter invalidate i names) b ep <-> b <> bytes /\ maps_to names b ep.
Proof.
  intros Hwf Hp. destruct (position_hit _ _ _ Hp) as (e & He & Hn).
  apply (named_spec names bytes i e) in Hn as [Hv Hk]; try done.
  rewrite (alter_as_insert _ _ _ e) by done. destruct (nwf_entry _ Hwf i e He). split.
  - by apply names_wf_store.
  - intros b ep. rewrite (maps_to_store names i e) by done. simpl. split.
    + intros [(? & _)|(j & x & Hji & Hx & Hvx & <- & <-)]; [done|].
      split; [|by exists j, x]. intros Hkx. apply Hji. eapply nwf_names; try done. congruence.
    + intros [Hne (j & x & Hx & Hvx & <- & <-)]. right. exists j, x. split_and!; try done.
      intros ->. by simplify_eq.
Qed.

Lemma unregister_endpoint_cases (names : list NameEntry) (bytes : list Z) (ep : Z) :
  names_wf names ->
  match lookup_name names bytes with
  | Some ep' =>
      if ep' =? ep then
        exists names', unregister_endpoint names bytes ep = (names', Cleared) /\ names_wf names' /\
          forall b x, maps_to names' b x <-> b <> bytes /\ maps_to names b x
      else unregister_endpoint names bytes ep = (names, KeptNewer ep')
  | None => unregister_endpoint names bytes ep = (names, NotFound)
  end.
Proof.
  intros Hwf. unfold lookup_name, unregister_endpoint.
  destruct (NAME_MAX <? length bytes)%nat; [done|].
  destruct (position (named bytes) names) as [i|] eqn:Hp; simpl; [|done].
  destruct (position_hit _ _ _ Hp) as (e & He & _). rewrite He. simpl.
  destruct (ne_endpoint e =? ep); [|done]. eexists; split; [done|].
  by apply invalidate_case.
Qed.

(** ** Properties *)

(** The life of the endpoint-id allocator: ids handed out and given back. *)
Inductive ids_reachable : EndpointIds -> list Z -> Prop :=
| ids_boot : ids_reachable endpoint_ids_boot []
| ids_alloc s s' live id :
    ids_reachable s live -> alloc_endpoint_id s = Done (s', id) -> ids_reachable s' (id :: live)
| ids_free s live1 id live2 :
    ids_reachable s (live1 ++ id :: live2) ->
    ids_reachable (free_endpoint_id s id) (live1 ++ live2).

Lemma endpoint_ids_boot_wf : ids_wf endpoint_ids_boot [].
Proof.
  split; simpl; try done; try (unfold FREE_ID_CAP, DELEGATED_BASE; lia); try constructor;
    unfold reclaimed_ids; simpl; set_solver.
Qed.

Lemma ids_wf_perm (s : EndpointIds) (l l' : list Z) : l ≡ₚ l' -> ids_wf s l -> ids_wf s l'.
Proof.
  intros Hp [? ? ? ? ? ? ? ?]. split; try done.
  - by rewrite <- Hp.
  - intros id. rewrite <- Hp. auto.
  - intros id. rewrite <- Hp. auto.
Qed.

(** An endpoint id is never handed out while it is in use.  In every state
    reached by allocating ids and freeing ids in use, the next allocation
    returns an id that is not in use, at or above 100 and below the delegated
    band, or panics because the id space is exhausted; the free list never
    holds an id twice or an id in use. *)
Theorem alloc_endpoint_id_fresh (s s' : EndpointIds) (live : list Z) (id : Z) :
  ids_reachable s live -> alloc_endpoint_id s = Done (s', id) ->
  id ∉ live /\ 100 <= id < DELEGATED_BASE /\
  NoDup (reclaimed_ids s') /\ forall x, x ∈ reclaimed_ids s' -> x ∉ id :: live.
Proof.
  intros Hr Ha. assert (ids_wf s live) as Hwf.
  { clear Ha. induction Hr as [|s0 s1 live x _ IH Hal|s0 l1 x l2 _ IH].
    - apply endpoint_ids_boot_wf.
    - by eapply alloc_endpoint_id_wf.
    - eapply free_endpoint_id_wf, ids_wf_perm; [|done]. by rewrite Permutation_middle. }
  destruct (alloc_endpoint_id_wf _ _ _ _ Hwf Ha) as (H1 & H2 & Hwf').
  split; [exact H1|]. split; [exact H2|]. split; [by apply (iwf_free _ _ Hwf')|].
  by apply (iwf_disjoint _ _ Hwf').
Qed.

(** Registering a name.  When the directory has the name or a free entry,
    the name then resolves to the endpoint; a different name that still
    pointed at the same endpoint no longer resolves at all (so the endpoint
    is never reached under a stale name); every other name resolves as before;
    names and endpoints stay unique. *)
Theorem register_name_resolves (names : list NameEntry) (bytes : list Z) (ep : Z) :
  names_wf names -> (length bytes <= NAME_MAX)%nat -> has_slot names bytes ep ->
  names_wf (register_name names bytes ep) /\
  lookup_name (register_name names bytes ep) bytes = Some ep /\
  forall b, b <> bytes -> lookup_name (register_name names bytes ep) b =
    if decide (lookup_name names b = Some ep) then None else lookup_name names b.
Proof.
  intros Hwf Hle Hslot.
  destruct (register_name_cases names bytes ep Hwf Hle) as [(_ & Hwf' & Hm)|[Hno _]]; [|done].
  split_and!; [done|apply lookup_name_spec; [done|]; apply Hm; by left|].
  intros b Hne. case_decide as Hd.
  - apply lookup_name_None; [done|]. intros ep' [[? _]|(_ & Hep & Hb)]%Hm; [done|].
    apply lookup_name_spec in Hb; [|done]. congruence.
  - apply lookup_name_ext; [done..|]. intros ep'. rewrite Hm.
    rewrite <- (lookup_name_spec names) by done. naive_solver.
Qed.

(** A dying instance never unregisters its successor.  Removing a name for
    an endpoint clears it exactly when the name still maps to that endpoint;
    when it maps to another endpoint, that one is reported and kept; other
    names are untouched in every case. *)
Theorem unregister_endpoint_guarded (names names' : list NameEntry) (bytes : list Z) (ep : Z)
    (o : UnregisterOutcome) :
  names_wf names -> unregister_endpoint names bytes ep = (names', o) ->
  names_wf names' /\
  (forall b, b <> bytes -> lookup_name names' b = lookup_name names b) /\
  match o with
  | Cleared => lookup_name names bytes = Some ep /\ lookup_name names' bytes = None
  | KeptNewer ep' => ep' <> ep /\ lookup_name names' bytes = Some ep' /\ names' = names
  | NotFound => lookup_name names bytes = None /\ names' = names
  end.
Proof.
  intros Hwf Hu. pose proof (unregister_endpoint_cases names bytes ep Hwf) as Hc.
  destruct (lookup_name names bytes) as [x|] eqn:Hl.
  - destruct (x =? ep) eqn:E; to_prop.
    + destruct Hc as (n' & Hc & Hwf' & Hm). rewrite Hc in Hu. injection Hu as <- <-. subst x.
      split_and!; try done.
      * intros b Hne. apply lookup_name_ext; [done..|]. intros ep'. rewrite Hm. naive_solver.
      * apply lookup_name_None; [done|]. intros ep' [? _]%Hm. done.
    + rewrite Hc in Hu. injection Hu as <- <-. by split_and!.
  - rewrite Hc in Hu. injection Hu as <- <-. by split_and!.
Qed.

(** ** Witnesses *)

Lemma alloc_endpoint_id_fresh_witness :
  match alloc_endpoint_id endpoint_ids_boot with
  | Done (_, id) => id = 100 /\ id ∉ @nil Z
  | Panic => False
  end.
Proof.
  destruct (alloc_endpoint_id endpoint_ids_boot) as [[s' id]|] eqn:E.
  - split; [vm_compute in E; congruence|].
    apply (alloc_endpoint_id_fresh endpoint_ids_boot s' [] id ids_boot E).
  - vm_compute in E. discriminate E.
Defined.

(** A directory in which the dead [fs] still owns endpoint 100. *)
Definition sample_names : list NameEntry := register_name names_boot [102; 115] 100.

Lemma names_boot_wf : names_wf names_boot.
Proof.
  split; [done|..].
  - intros i e [-> _]%lookup_replicate. simpl. split; [done|unfold NAME_MAX; lia].
  - intros i j e e' [-> _]%lookup_replicate. done.
  - intros i j e e' [-> _]%lookup_replicate. done.
Qed.

Lemma sample_names_wf : names_wf sample_names.
Proof. apply register_name_wf, names_boot_wf. Qed.

Lemma register_name_resolves_witness :
  lookup_name (register_name sample_names [116; 105; 109; 101] 100) [102; 115] = None.
Proof.
  destruct (register_name_resolves sample_names [116; 105; 109; 101] 100 sample_names_wf) as (_ & _ & H).
  - simpl. unfold NAME_MAX. lia.
  - right. exists 1%nat, empty_name. split; vm_compute; reflexivity.
  - rewrite H by discriminate. rewrite decide_True by (vm_compute; reflexivity). reflexivity.
Defined.

Lemma unregister_endpoint_guarded_witness :
  lookup_name (unregister_endpoint sample_names [102; 115] 99).1 [102; 115] = Some 100.
Proof.
  destruct (unregister_endpoint sample_names [102; 115] 99) as [n' o] eqn:E.
  pose proof (unregister_endpoint_guarded sample_names n' [102; 115] 99 o sample_names_wf E) as H.
  assert (o = KeptNewer 100) as Ho.
  { change o with (n', o).2. rewrite <- E. vm_compute. reflexivity. }
  subst o. destruct H as (_ & _ & _ & H & _). exact H.
Defined.
