(* ===== verification/Clock.v ===== *)
(** * The wall clock

    [kernel/src/clock.rs]: the deglitch decision and the two conversions
    between Unix seconds and the packed calendar date.  The packed layout is
    sec[6] min[6] hour[5] day[5] month[4] year[12], least significant first.
    Rust's truncating [/] is [Z.quot]; [div_euclid] is [Z.div]. *)

From S2P Require Import Prelude.

Definition deglitch_epoch (raw last : Z) : Z :=
  if last =? 0 then raw
  else if (raw <? last) || (last + 86400 <? raw) then last
  else raw.

Definition epoch_secs (packed : Z) : Z :=
  let sec := Z.land packed 63 in
  let min := Z.land (Z.shiftr packed 6) 63 in
  let hour := Z.land (Z.shiftr packed 12) 31 in
  let day := Z.land (Z.shiftr packed 17) 31 in
  let month := Z.land (Z.shiftr packed 22) 15 in
  let y := Z.land (Z.shiftr packed 26) 4095 - (if month <=? 2 then 1 else 0) in
  let era := Z.quot (if 0 <=? y then y else y - 399) 400 in
  let yoe := y - era * 400 in
  let doy := Z.quot (153 * (month + (if 2 <? month then -3 else 9)) + 2) 5 + day - 1 in
  let doe := yoe * 365 + Z.quot yoe 4 - Z.quot yoe 100 + doy in
  let days := era * 146097 + doe - 719468 in
  days * 86400 + hour * 3600 + min * 60 + sec.

Definition CLOCK_MIN_PLAUSIBLE : Z := 1577836800.
Definition CLOCK_MAX_PLAUSIBLE : Z := 4102444800.

Definition packed_from_epoch (epoch : Z) : Z :=
  let days := epoch / 86400 in
  let rem := epoch mod 86400 in
  let hour := Z.quot rem 3600 in
  let min := Z.quot (Z.rem rem 3600) 60 in
  let sec := Z.rem rem 60 in
  let z := days + 719468 in
  let era := Z.quot (if 0 <=? z then z else z - 146096) 146097 in
  let doe := z - era * 146097 in
  let yoe := Z.quot (doe - Z.quot doe 1460 + Z.quot doe 36524 - Z.quot doe 146096) 365 in
  let y := yoe + era * 400 in
  let doy := doe - (365 * yoe + Z.quot yoe 4 - Z.quot yoe 100) in
  let mp := Z.quot (5 * doy + 2) 153 in
  let d := doy - Z.quot (153 * mp + 2) 5 + 1 in
  let m := if mp <? 10 then mp + 3 else mp - 9 in
  let year := y + (if m <=? 2 then 1 else 0) in
  Z.lor (Z.lor (Z.lor (Z.lor (Z.lor
    (Z.land (wrap64 sec) 63)
    (Z.shiftl (Z.land (wrap64 min) 63) 6))
    (Z.shiftl (Z.land (wrap64 hour) 31) 12))
    (Z.shiftl (Z.land (wrap64 d) 31) 17))
    (Z.shiftl (Z.land (wrap64 m) 15) 22))
    (Z.shiftl (Z.land (wrap64 year) 4095) 26).

(** ** Packing *)

Lemma lor_shiftl_add (a b n : Z) :
  0 <= n -> 0 <= a < 2 ^ n -> Z.lor a (Z.shiftl b n) = a + b * 2 ^ n.
Proof.
  intros Hn Ha. rewrite <- Z.shiftl_mul_pow2 by done.
  assert (Z.land a (Z.shiftl b n) = 0) as Hz.
  { apply Z.bits_inj'. intros i Hi. rewrite Z.land_spec, Z.bits_0, Z.shiftl_spec by done.
    destruct (decide (i < n)).
    - rewrite (Z.testbit_neg_r b) by lia. apply andb_false_r.
    - rewrite <- (Z.mod_small a (2 ^ n)) by done. by rewrite Z.mod_pow2_bits_high by lia. }
  rewrite Z.add_nocarry_lxor by done. by rewrite Z.lxor_lor.
Qed.

Lemma land_fields (a : Z) :
  Z.land a 63 = a mod 64 /\ Z.land a 31 = a mod 32 /\ Z.land a 15 = a mod 16 /\
  Z.land a 4095 = a mod 4096.
Proof.
  split_and!; [apply (Z.land_ones a 6)|apply (Z.land_ones a 5)|apply (Z.land_ones a 4)|
               apply (Z.land_ones a 12)]; lia.
Qed.

(** The packed word as the sum of its fields. *)
Definition packed_sum (sec min hour d m year : Z) : Z :=
  sec + min * 64 + hour * 4096 + d * 131072 + m * 4194304 + year * 67108864.

(** The ranges the packed layout has room for. *)
Definition fields_ok (sec min hour d m year : Z) : Prop :=
  0 <= sec < 64 /\ 0 <= min < 64 /\ 0 <= hour < 32 /\ 0 <= d < 32 /\ 0 <= m < 16 /\ 0 <= year < 4096.

Lemma pack_fields (sec min hour d m year : Z) :
  fields_ok sec min hour d m year ->
  Z.lor (Z.lor (Z.lor (Z.lor (Z.lor
    (Z.land (wrap64 sec) 63) (Z.shiftl (Z.land (wrap64 min) 63) 6))
    (Z.shiftl (Z.land (wrap64 hour) 31) 12)) (Z.shiftl (Z.land (wrap64 d) 31) 17))
    (Z.shiftl (Z.land (wrap64 m) 15) 22)) (Z.shiftl (Z.land (wrap64 year) 4095) 26) =
  packed_sum sec min hour d m year.
Proof.
  intros (? & ? & ? & ? & ? & ?).
  rewrite !wrap64_small by (unfold u64_max; lia).
  destruct (land_fields sec) as (-> & _), (land_fields min) as (-> & _),
    (land_fields hour) as (_ & -> & _), (land_fields d) as (_ & -> & _),
    (land_fields m) as (_ & _ & -> & _), (land_fields year) as (_ & _ & _ & ->).
  rewrite !Z.mod_small by lia. unfold packed_sum.
  rewrite (lor_shiftl_add sec min 6), (lor_shiftl_add _ hour 12), (lor_shiftl_add _ d 17),
    (lor_shiftl_add _ m 22), (lor_shiftl_add _ year 26) by lia. lia.
Qed.

Lemma unpack_fields (sec min hour d m year : Z) :
  fields_ok sec min hour d m year ->
  let p := packed_sum sec min hour d m year in
  Z.land p 63 = sec /\ Z.land (Z.shiftr p 6) 63 = min /\ Z.land (Z.shiftr p 12) 31 = hour /\
  Z.land (Z.shiftr p 17) 31 = d /\ Z.land (Z.shiftr p 22) 15 = m /\
  Z.land (Z.shiftr p 26) 4095 = year.
Proof.
  intros (? & ? & ? & ? & ? & ?). cbv zeta. rewrite !Z.shiftr_div_pow2 by lia.
  set (p := packed_sum sec min hour d m year).
  destruct (land_fields p) as (-> & _), (land_fields (p / 2 ^ 6)) as (-> & _),
    (land_fields (p / 2 ^ 12)) as (_ & -> & _), (land_fields (p / 2 ^ 17)) as (_ & -> & _),
    (land_fields (p / 2 ^ 22)) as (_ & _ & -> & _), (land_fields (p / 2 ^ 26)) as (_ & _ & _ & ->).
  change (2 ^ 6) with 64. change (2 ^ 12) with 4096. change (2 ^ 17) with 131072.
  change (2 ^ 22) with 4194304. change (2 ^ 26) with 67108864.
  unfold p, packed_sum. split_and!; dlia.
Qed.

(** ** The calendar, on one 400-year era *)

Definition year_of_era (doe : Z) : Z := (doe - doe / 1460 + doe / 36524 - doe / 146096) / 365.
Definition days_before_year (yoe : Z) : Z := 365 * yoe + yoe / 4 - yoe / 100.

Lemma year_of_era_range (doe : Z) :
  0 <= doe <= 146096 ->
  0 <= year_of_era doe <= 399 /\
  0 <= doe - days_before_year (year_of_era doe) <= 365.
Proof.
  intros Hd. unfold year_of_era, days_before_year.
  assert (doe / 36524 = 0 \/ doe / 36524 = 1 \/ doe / 36524 = 2 \/ doe / 36524 = 3 \/ doe / 36524 = 4)
    as Hc by dlia.
  assert (doe / 146096 = 0 \/ doe = 146096) as [H6| ->] by dlia; [|vm_compute; split; split; discriminate].
  rewrite H6. split; [dlia|].
  destruct Hc as [Hc|[Hc|[Hc|[Hc|Hc]]]]; rewrite Hc; dlia.
Qed.

(** The era division of the source is floor division. *)
Lemma floor_quot_400 (y : Z) : Z.quot (if 0 <=? y then y else y - 399) 400 = y / 400.
Proof. destruct (0 <=? y) eqn:E; to_prop; dlia. Qed.

Lemma floor_quot_era (z : Z) : Z.quot (if 0 <=? z then z else z - 146096) 146097 = z / 146097.
Proof. destruct (0 <=? z) eqn:E; to_prop; dlia. Qed.

Lemma month_day_range (doy : Z) :
  0 <= doy <= 365 ->
  0 <= (5 * doy + 2) / 153 <= 11 /\
  1 <= doy - (153 * ((5 * doy + 2) / 153) + 2) / 5 + 1 <= 31.
Proof. intros. dlia. Qed.

(** The year is recovered from the day of the era; the 366th day exists only
    where the following February has a 29th. *)
Lemma year_of_era_inverse (yoe doy : Z) :
  0 <= yoe <= 399 -> 0 <= doy <= 365 ->
  (doy = 365 -> yoe mod 4 = 3 /\ (yoe mod 100 <> 99 \/ yoe = 399)) ->
  year_of_era (days_before_year yoe + doy) = yoe.
Proof.
  intros. unfold year_of_era, days_before_year.
  set (c := yoe / 100). assert (c = 0 \/ c = 1 \/ c = 2 \/ c = 3) as Hc by (unfold c; dlia).
  destruct Hc as [Hc|[Hc|[Hc|Hc]]]; rewrite Hc; unfold c in Hc; dlia.
Qed.

(** The two conversions with every division in floor form. *)
Definition date_of_days (days : Z) : Z * Z * Z :=
  let z := days + 719468 in
  let era := z / 146097 in
  let doe := z mod 146097 in
  let yoe := year_of_era doe in
  let doy := doe - days_before_year yoe in
  let mp := (5 * doy + 2) / 153 in
  let m := if mp <? 10 then mp + 3 else mp - 9 in
  (yoe + era * 400 + (if m <=? 2 then 1 else 0), m, doy - (153 * mp + 2) / 5 + 1).

Definition days_of_date (year m d : Z) : Z :=
  let y := year - (if m <=? 2 then 1 else 0) in
  let doy := (153 * (m + (if 2 <? m then -3 else 9)) + 2) / 5 + d - 1 in
  y / 400 * 146097 + (days_before_year (y mod 400) + doy) - 719468.

Lemma packed_from_epoch_fields (epoch year m d : Z) :
  date_of_days (epoch / 86400) = (year, m, d) -> 0 <= year < 4096 ->
  packed_from_epoch epoch =
    packed_sum (epoch mod 86400 mod 60) (epoch mod 86400 mod 3600 / 60) (epoch mod 86400 / 3600) d m year /\
  fields_ok (epoch mod 86400 mod 60) (epoch mod 86400 mod 3600 / 60) (epoch mod 86400 / 3600) d m year /\
  1 <= m <= 12.
Proof.
  intros Hdate Hyear. unfold date_of_days in Hdate. set (rem := epoch mod 86400).
  assert (0 <= rem < 86400) as Hrem by (unfold rem; dlia).
  set (z := epoch / 86400 + 719468) in *.
  assert (0 <= z mod 146097 <= 146096) as Hdoe by dlia.
  pose proof (year_of_era_range (z mod 146097) Hdoe) as [Hyoe Hdoy].
  pose proof (month_day_range _ Hdoy) as [Hmp Hd].
  assert (z - z / 146097 * 146097 = z mod 146097) as Hdoe' by dlia.
  unfold packed_from_epoch. fold rem. fold z. rewrite floor_quot_era, Hdoe'. cbv zeta.
  rewrite !(Z.quot_div_nonneg rem), !Z.rem_mod_nonneg by lia.
  rewrite !(Z.quot_div_nonneg (z mod 146097)) by lia.
  assert (0 <= z mod 146097 - z mod 146097 / 1460 + z mod 146097 / 36524 - z mod 146097 / 146096)
    as Hpos by dlia.
  rewrite (Z.quot_div_nonneg _ 365) by lia. fold (year_of_era (z mod 146097)).
  rewrite !(Z.quot_div_nonneg (year_of_era _)) by lia. fold (days_before_year (year_of_era (z mod 146097))).
  rewrite (Z.quot_div_nonneg _ 153), (Z.quot_div_nonneg _ 5), (Z.quot_div_nonneg (rem mod 3600)) by dlia.
  simplify_eq. set (mp := (5 * _ + 2) / 153) in *.
  assert (1 <= (if mp <? 10 then mp + 3 else mp - 9) <= 12) as Hm by (destruct (mp <? 10) eqn:?; to_prop; lia).
  assert (fields_ok (rem mod 60) (rem mod 3600 / 60) (rem / 3600)
    (z mod 146097 - days_before_year (year_of_era (z mod 146097)) - (153 * mp + 2) / 5 + 1)
    (if mp <? 10 then mp + 3 else mp - 9)
    (year_of_era (z mod 146097) + z / 146097 * 400 +
     (if (if mp <? 10 then mp + 3 else mp - 9) <=? 2 then 1 else 0))) as Hok.
  { unfold fields_ok. split_and!; try lia; dlia. }
  split; [by apply pack_fields|done].
Qed.

Lemma epoch_secs_fields (sec min hour d m year : Z) :
  fields_ok sec min hour d m year -> 1 <= m ->
  epoch_secs (packed_sum sec min hour d m year) =
  days_of_date year m d * 86400 + hour * 3600 + min * 60 + sec.
Proof.
  intros Hok Hm. pose proof (unpack_fields _ _ _ _ _ _ Hok) as (Es & Emi & Eh & Ed & Em & Ey).
  destruct Hok as (? & ? & ? & ? & ? & ?).
  unfold epoch_secs, days_of_date. rewrite Es, Emi, Eh, Ed, Em, Ey. cbv zeta.
  rewrite floor_quot_400. set (y := year - _).
  replace (y - y / 400 * 400) with (y mod 400) by dlia.
  assert (0 <= y mod 400) by dlia. rewrite !(Z.quot_div_nonneg (y mod 400)) by lia.
  rewrite (Z.quot_div_nonneg _ 5) by (destruct (2 <? m) eqn:?; to_prop; lia).
  unfold days_before_year. f_equal. lia.
Qed.

Lemma days_of_date_of_days (days year m d : Z) :
  date_of_days days = (year, m, d) -> days_of_date year m d = days.
Proof.
  unfold date_of_days, days_of_date. cbv zeta. set (z := days + 719468).
  assert (0 <= z mod 146097 <= 146096) as Hdoe by dlia.
  pose proof (year_of_era_range (z mod 146097) Hdoe) as [Hyoe Hdoy].
  pose proof (month_day_range _ Hdoy) as [Hmp Hd]. set (doe := z mod 146097) in *.
  set (doy := doe - days_before_year (year_of_era doe)) in *.
  set (mp := (5 * doy + 2) / 153) in *. set (yoe := year_of_era doe) in *.
  intros [= <- <- <-].
  assert (forall k, yoe + z / 146097 * 400 + k - k = z / 146097 * 400 + yoe) as Hk by lia.
  rewrite Hk. replace ((z / 146097 * 400 + yoe) / 400) with (z / 146097) by dlia.
  replace ((z / 146097 * 400 + yoe) mod 400) with yoe by dlia.
  replace ((if mp <? 10 then mp + 3 else mp - 9) +
    (if 2 <? (if mp <? 10 then mp + 3 else mp - 9) then -3 else 9)) with mp.
  2: { destruct (mp <? 10) eqn:E1; to_prop; [|]; match goal with |- context [2 <? ?x] =>
         destruct (2 <? x) eqn:E2; to_prop end; lia. }
  unfold doy. assert (z = z / 146097 * 146097 + doe) by (unfold doe; dlia). unfold z in *. lia.
Qed.

Lemma year_range (days year m d : Z) :
  -719528 <= days < 776506 -> date_of_days days = (year, m, d) -> 0 <= year < 4096.
Proof.
  intros Hdays. unfold date_of_days. cbv zeta. set (z := days + 719468).
  assert (0 <= z mod 146097 <= 146096) as Hdoe by dlia.
  pose proof (year_of_era_range (z mod 146097) Hdoe) as [Hyoe Hdoy].
  set (doe := z mod 146097) in *. set (yoe := year_of_era doe) in *.
  set (doy := doe - days_before_year yoe) in *. set (mp := (5 * doy + 2) / 153) in *.
  intros [= <- _ _].
  assert (z = z / 146097 * 146097 + doe) as Hz by (unfold doe; dlia).
  assert (days_before_year yoe = doe - doy) as Hb by (unfold doy; lia).
  unfold days_before_year in Hb.
  assert (z / 146097 = -1 \/ 0 <= z / 146097 <= 9 \/ z / 146097 = 10) as [He|[He|He]]
    by (unfold z; dlia).
  - assert (doe >= 146037) by (unfold z in *; lia).
    assert (yoe = 399 /\ 306 <= doy) as [Hy Hd] by dlia.
    assert (10 <= mp) by (unfold mp; dlia).
    replace (mp <? 10) with false by (symmetry; apply Z.ltb_ge; lia).
    destruct (mp - 9 <=? 2) eqn:E; to_prop; [lia|]. unfold mp in *. dlia.
  - destruct (_ <=? 2); lia.
  - assert (doe < 35004) by (unfold z in *; lia).
    assert (yoe <= 94 \/ yoe = 95 /\ doy < 306) as [Hy|[Hy Hd]] by dlia.
    + destruct (_ <=? 2); lia.
    + assert (mp < 10) by (unfold mp; dlia).
      replace (mp <? 10) with true by (symmetry; apply Z.ltb_lt; lia).
      assert (0 <= mp) by (unfold mp; dlia).
      destruct (mp + 3 <=? 2) eqn:E; to_prop; lia.
Qed.

(** A date of the Gregorian calendar with a time of day. *)
Definition is_leap (year : Z) : bool :=
  (year mod 4 =? 0) && negb (year mod 100 =? 0) || (year mod 400 =? 0).

Definition days_in_month (year m : Z) : Z :=
  if m =? 2 then (if is_leap year then 29 else 28)
  else if (m =? 4) || (m =? 6) || (m =? 9) || (m =? 11) then 30 else 31.

Definition valid_datetime (sec min hour d m year : Z) : Prop :=
  0 <= sec < 60 /\ 0 <= min < 60 /\ 0 <= hour < 24 /\
  1 <= m <= 12 /\ 1 <= d <= days_in_month year m /\ 0 <= year < 4096.

(** The month and day are recovered from the day of the year counted from
    March. *)
Lemma month_day_inverse (year m d : Z) :
  1 <= m <= 12 -> 1 <= d <= days_in_month year m ->
  let mp := m + (if 2 <? m then -3 else 9) in
  let doy := (153 * mp + 2) / 5 + d - 1 in
  0 <= mp <= 11 /\ 0 <= doy <= 365 /\ (5 * doy + 2) / 153 = mp /\
  (if mp <? 10 then mp + 3 else mp - 9) = m /\
  (doy = 365 -> m = 2 /\ is_leap year = true).
Proof.
  intros Hm Hd. unfold days_in_month in Hd. cbv zeta.
  assert (m = 1 \/ m = 2 \/ m = 3 \/ m = 4 \/ m = 5 \/ m = 6 \/ m = 7 \/ m = 8 \/ m = 9 \/
          m = 10 \/ m = 11 \/ m = 12) as Hcase by lia.
  destruct (is_leap year); repeat destruct Hcase as [->|Hcase]; try subst m; simpl in *;
    split_and!; try dlia; try (intros; exfalso; dlia); auto.
Qed.

Lemma date_of_days_of_date (year m d : Z) :
  1 <= m <= 12 -> 1 <= d <= days_in_month year m ->
  date_of_days (days_of_date year m d) = (year, m, d).
Proof.
  intros Hm Hd. pose proof (month_day_inverse year m d Hm Hd) as (Hmp & Hdoy & Hinv & Hmonth & Hleap).
  unfold date_of_days, days_of_date. cbv zeta in *.
  set (y := year - (if m <=? 2 then 1 else 0)) in *.
  set (mp := m + (if 2 <? m then -3 else 9)) in *. set (doy := (153 * mp + 2) / 5 + d - 1) in *.
  assert (0 <= y mod 400 <= 399) as Hyoe by dlia.
  assert (0 <= days_before_year (y mod 400) + doy <= 146096) as Hdoe.
  { unfold days_before_year. assert (doy = 365 -> y mod 400 mod 4 = 3) as H4; [|dlia].
    intros H%Hleap. destruct H as [-> Hl]. unfold is_leap in Hl. unfold y. simpl. to_prop. dlia. }
  replace (y / 400 * 146097 + (days_before_year (y mod 400) + doy) - 719468 + 719468)
    with (y / 400 * 146097 + (days_before_year (y mod 400) + doy)) by lia.
  replace ((y / 400 * 146097 + (days_before_year (y mod 400) + doy)) mod 146097)
    with (days_before_year (y mod 400) + doy) by dlia.
  replace ((y / 400 * 146097 + (days_before_year (y mod 400) + doy)) / 146097) with (y / 400) by dlia.
  rewrite year_of_era_inverse; [|done|done|].
  2: { intros H%Hleap. destruct H as [-> Hl]. unfold is_leap in Hl. unfold y. simpl. to_prop.
       destruct Hl as [Hl|Hl]; to_prop; dlia. }
  replace (days_before_year (y mod 400) + doy - days_before_year (y mod 400)) with doy by lia.
  rewrite Hinv, Hmonth. f_equal; [f_equal|]; [|unfold doy; lia].
  unfold y. destruct (m <=? 2); dlia.
Qed.

(** ** Properties *)

(** Converting Unix seconds to a calendar date and back is the identity,
    for every second of the years 0 to 4095, the whole range the packed
    year field can represent. *)
Theorem epoch_roundtrip (epoch : Z) :
  -62167219200 <= epoch < 67090118400 -> epoch_secs (packed_from_epoch epoch) = epoch.
Proof.
  intros He. destruct (date_of_days (epoch / 86400)) as [[year m] d] eqn:Hdate.
  pose proof (year_range (epoch / 86400) year m d ltac:(dlia) Hdate) as Hyear.
  destruct (packed_from_epoch_fields epoch year m d Hdate Hyear) as (-> & Hok & Hm).
  rewrite epoch_secs_fields by (done || lia). rewrite (days_of_date_of_days _ _ _ _ Hdate). dlia.
Qed.

(** Conversely, packing the Unix seconds of a valid Gregorian date (leap
    years included) gives back the same packed date. *)
Theorem packed_roundtrip (sec min hour d m year : Z) :
  valid_datetime sec min hour d m year ->
  packed_from_epoch (epoch_secs (packed_sum sec min hour d m year)) =
  packed_sum sec min hour d m year.
Proof.
  intros (Hs & Hmi & Hh & Hm & Hd & Hy).
  assert (d <= 31) as Hd31 by (unfold days_in_month in Hd; repeat case_match; lia).
  assert (fields_ok sec min hour d m year) as Hok by (unfold fields_ok; lia).
  rewrite epoch_secs_fields by (done || lia). set (days := days_of_date year m d).
  set (e := days * 86400 + hour * 3600 + min * 60 + sec).
  assert (e / 86400 = days) as Hdays by (unfold e; dlia).
  assert (e mod 86400 = hour * 3600 + min * 60 + sec) as Hrem by (unfold e; dlia).
  destruct (packed_from_epoch_fields e year m d) as (-> & _); [|done|].
  - rewrite Hdays. by apply date_of_days_of_date.
  - rewrite Hrem. f_equal; dlia.
Qed.

(** The clock adopts a sequence of raw reads, each against the last accepted
    value. *)
Definition adopt_reads (last : Z) (raws : list Z) : Z :=
  foldl (fun last raw => deglitch_epoch raw last) last raws.

(** Once a clock value has been accepted, no sequence of raw reads,
    however wrong, ever moves the clock backwards, and no read moves it
    forward by more than a day. *)
Theorem deglitch_monotone (last : Z) (raws : list Z) :
  0 < last ->
  last <= adopt_reads last raws <= last + 86400 * Z.of_nat (length raws).
Proof.
  unfold adopt_reads. revert last. induction raws as [|raw raws IH]; intros last Hl; simpl; [lia|].
  assert (last <= deglitch_epoch raw last <= last + 86400) as Hstep.
  { unfold deglitch_epoch. destruct (last =? 0) eqn:E0; [to_prop; lia|].
    destruct (_ || _) eqn:E; to_prop; lia. }
  specialize (IH (deglitch_epoch raw last) ltac:(lia)). lia.
Qed.

(** ** Witnesses *)

Lemma epoch_roundtrip_witness : epoch_secs (packed_from_epoch CLOCK_MIN_PLAUSIBLE) = 1577836800.
Proof. exact (epoch_roundtrip CLOCK_MIN_PLAUSIBLE ltac:(unfold CLOCK_MIN_PLAUSIBLE; lia)). Defined.

Lemma packed_roundtrip_witness :
  packed_from_epoch (epoch_secs (packed_sum 59 59 23 29 2 2024)) = packed_sum 59 59 23 29 2 2024.
Proof.
  apply (packed_roundtrip 59 59 23 29 2 2024). unfold valid_datetime.
  replace (days_in_month 2024 2) with 29 by reflexivity. lia.
Defined.

Lemma deglitch_monotone_witness : 1000 <= adopt_reads 1000 [5; 999999999; 1001].
Proof. apply (deglitch_monotone 1000 [5; 999999999; 1001]). lia. Defined.
