(* ===== verification/Frames.v ===== *)
(** * Physical frames and the bitmap allocator

    [kernel/src/memory/frame.rs] and [kernel/src/memory/allocator.rs].  The
    free map and the kernel-page-table map are the source's byte arrays, one
    bit per frame.  Frame numbers and addresses are [Z]; an index into a
    bitmap is [nat].  The allocator lock makes each public function atomic, so
    each is one state transformer. *)

From stdpp Require Import gmap.
From S2P Require Import Prelude.

Definition FRAME_SIZE : Z := 4096.
Definition MAX_DMA_RESERVES : nat := 6.

(** [Frame] is the page-aligned physical address it wraps. *)
Definition frame_number (frame : Z) : Z := frame / FRAME_SIZE.
Definition align_down (addr : Z) : Z := Z.land addr (Z.lnot (FRAME_SIZE - 1)).
Definition is_aligned (addr : Z) : bool := addr mod FRAME_SIZE =? 0.

Definition frame_align_up (addr : Z) : Z :=
  Z.land (wrap64 (addr + FRAME_SIZE - 1)) (Z.lnot (FRAME_SIZE - 1)).
Definition frame_align_down (addr : Z) : Z := Z.land addr (Z.lnot (FRAME_SIZE - 1)).

(** ** Bits of a bitmap *)

Definition bit_mask (i : nat) : Z := Z.shiftl 1 (Z.of_nat (i mod 8)).

(** [bm[i / 8] & (1u8 << (i % 8)) != 0] *)
Definition get_bit (bm : list Z) (i : nat) : bool :=
  match bm !! (i / 8)%nat with
  | Some b => negb (Z.land b (bit_mask i) =? 0)
  | None => false
  end.

(** [bm[i / 8] |= 1u8 << (i % 8)] *)
Definition set_bit (bm : list Z) (i : nat) : list Z :=
  alter (fun b => Z.lor b (bit_mask i)) (i / 8)%nat bm.

(** [bm[i / 8] &= !(1u8 << (i % 8))] *)
Definition clear_bit (bm : list Z) (i : nat) : list Z :=
  alter (fun b => Z.land b (u8_not (bit_mask i))) (i / 8)%nat bm.

(** [u8::trailing_zeros] *)
Definition trailing_zeros8 (b : Z) : nat :=
  default 8%nat (position (fun i => Z.testbit b (Z.of_nat i)) (seq 0 8)).

Definition scan_free (bm : list Z) (start end_ : nat) : option nat :=
  match position (fun i => negb (default 0 (bm !! i) =? 0)) (seq start (end_ - start)) with
  | Some k => Some ((start + k) * 8 + trailing_zeros8 (default 0%Z (bm !! (start + k))))%nat
  | None => None
  end.

(** ** The allocator *)

Record BitmapAllocator := mkAllocator {
  BITMAP : list Z;
  KPT : list Z;
  free_frames : Z;
  total_frames : Z;
  next_byte : nat;
  max_valid_frame : Z;
  max_ram_frame : Z;
  min_ram_frame : Z;
  double_frees : Z;
  dma_reserves : list (Z * Z);
  (** the kernel image, [GUARD_START] and [GUARD_END] *)
  GUARD_START : Z;
  GUARD_END : Z
}.

Definition allocator_new : BitmapAllocator :=
  mkAllocator [] [] 0 0 0 0 0 u64_max 0 (replicate MAX_DMA_RESERVES (0, 0)) 0 0.

Definition with_bits (a : BitmapAllocator) (bm : list Z) (free : Z) (next : nat) : BitmapAllocator :=
  mkAllocator bm (KPT a) free (total_frames a) next (max_valid_frame a) (max_ram_frame a)
    (min_ram_frame a) (double_frees a) (dma_reserves a) (GUARD_START a) (GUARD_END a).

Definition with_reserves (a : BitmapAllocator) (r : list (Z * Z)) : BitmapAllocator :=
  mkAllocator (BITMAP a) (KPT a) (free_frames a) (total_frames a) (next_byte a) (max_valid_frame a)
    (max_ram_frame a) (min_ram_frame a) (double_frees a) r (GUARD_START a) (GUARD_END a).

(** [alloc] under the lock; [guard_bugcheck] panics on a kernel-image frame. *)
Definition alloc (a : BitmapAllocator) : outcome (BitmapAllocator * option Z) :=
  let len := length (BITMAP a) in
  let hit := match scan_free (BITMAP a) (next_byte a) len with
             | Some i => Some i
             | None => scan_free (BITMAP a) 0 (next_byte a)
             end in
  match hit with
  | None => Done (a, None)
  | Some idx =>
      let a' := with_bits a (clear_bit (BITMAP a) idx) (free_frames a - 1)
                  (Nat.min (idx / 8 + 1) (len - 1)) in
      let phys := Z.of_nat idx * FRAME_SIZE in
      if (GUARD_START a <? GUARD_END a) && (GUARD_START a <=? phys) && (phys <? GUARD_END a)
      then Panic
      else Done (a', Some phys)
  end.

(** The scan of [alloc_contiguous]: [k] frames left to look at, [run] free
    ones seen in a row, beginning at [start]. *)
Fixpoint find_run (bm : list Z) (n k idx run start : nat) : option nat :=
  match k with
  | O => None
  | S k =>
      if get_bit bm idx then
        let start := if (run =? 0)%nat then idx else start in
        if (run + 1 =? n)%nat then Some start
        else find_run bm n k (idx + 1) (run + 1) start
      else find_run bm n k (idx + 1) 0 start
  end.

Definition alloc_contiguous (a : BitmapAllocator) (n : nat) : BitmapAllocator * option Z :=
  if (n =? 0)%nat then (a, None)
  else
    let max := Z.to_nat (Z.min (max_valid_frame a + 1) (max_ram_frame a)) in
    match find_run (BITMAP a) n max 0 0 0 with
    | None => (a, None)
    | Some start =>
        (with_bits a (foldl clear_bit (BITMAP a) (seq start n))
           (free_frames a - Z.of_nat n) (next_byte a),
         Some (Z.of_nat start * FRAME_SIZE))
    end.

Definition empty_reserve (r : Z * Z) : bool := r.2 =? 0.

Definition alloc_dma_arena (a : BitmapAllocator) (n : nat) : BitmapAllocator * option Z :=
  match alloc_contiguous a n with
  | (a, None) => (a, None)
  | (a, Some phys) =>
      let base := phys / FRAME_SIZE in
      match position empty_reserve (dma_reserves a) with
      | Some i => (with_reserves a (<[i := (base, Z.of_nat n)]> (dma_reserves a)), Some phys)
      | None =>
          (with_bits a (foldl set_bit (BITMAP a) (seq (Z.to_nat base) n))
             (free_frames a + Z.of_nat n) (next_byte a), None)
      end
  end.

Definition in_reserve (idx : Z) (r : Z * Z) : bool :=
  negb (r.2 =? 0) && (r.1 <=? idx) && (idx <? r.1 + r.2).

Definition free (a : BitmapAllocator) (frame : Z) : BitmapAllocator :=
  let idx := frame_number frame in
  if (max_valid_frame a <=? idx) || (max_ram_frame a <=? idx) then a
  else
    let i := Z.to_nat idx in
    if get_bit (KPT a) i then a
    else if existsb (in_reserve idx) (dma_reserves a) then a
    else if get_bit (BITMAP a) i then
      mkAllocator (set_bit (BITMAP a) i) (KPT a) (free_frames a) (total_frames a) (next_byte a)
        (max_valid_frame a) (max_ram_frame a) (min_ram_frame a) (double_frees a + 1)
        (dma_reserves a) (GUARD_START a) (GUARD_END a)
    else
      with_bits a (set_bit (BITMAP a) i) (free_frames a + 1)
        (if (i / 8 <? next_byte a)%nat then (i / 8)%nat else next_byte a).

(** ** Queries *)

Definition phys_in_ram (a : BitmapAllocator) (phys : Z) : bool :=
  (min_ram_frame a <=? phys / FRAME_SIZE) && (phys / FRAME_SIZE <? max_ram_frame a).

Definition frame_is_free (a : BitmapAllocator) (phys : Z) : option bool :=
  if negb (phys_in_ram a phys) then None
  else Some (get_bit (BITMAP a) (Z.to_nat (phys / FRAME_SIZE))).

Definition ram_limit_phys (a : BitmapAllocator) : Z := max_ram_frame a * FRAME_SIZE.

(** ** Reservations and protected frames *)

Definition covers (base n : Z) (r : Z * Z) : bool :=
  negb (r.2 =? 0) && (r.1 <=? base) && (base + n <=? r.1 + r.2).

Definition reserve_no_free (a : BitmapAllocator) (phys n : Z) : BitmapAllocator * bool :=
  if n =? 0 then (a, true)
  else
    let base := phys / FRAME_SIZE in
    if existsb (covers base n) (dma_reserves a) then (a, true)
    else match position empty_reserve (dma_reserves a) with
         | Some i => (with_reserves a (<[i := (base, n)]> (dma_reserves a)), true)
         | None => (a, false)
         end.

Definition phys_dma_proximity (a : BitmapAllocator) (phys slack : Z) : bool * Z :=
  let idx := phys / FRAME_SIZE in
  let step (acc : option Z) (r : Z * Z) : option Z :=
    match acc with
    | None => None
    | Some nearest =>
        if r.2 =? 0 then Some nearest
        else if (r.1 <=? idx) && (idx <? r.1 + r.2) then None
        else Some (Z.min nearest (if idx <? r.1 then r.1 - idx else idx - (r.1 + r.2) + 1))
    end in
  match foldl step (Some u64_max) (dma_reserves a) with
  | None => (true, 0)
  | Some nearest => (false, if nearest <=? slack then nearest else u64_max)
  end.

Definition mark_pt_frame_used (a : BitmapAllocator) (phys : Z) : BitmapAllocator :=
  let idx := phys / FRAME_SIZE in
  if max_ram_frame a <=? idx then a
  else
    let i := Z.to_nat idx in
    let a1 := if get_bit (BITMAP a) i
              then with_bits a (clear_bit (BITMAP a) i) (free_frames a - 1) (next_byte a)
              else a in
    mkAllocator (BITMAP a1) (set_bit (KPT a1) i) (free_frames a1) (total_frames a1) (next_byte a1)
      (max_valid_frame a1) (max_ram_frame a1) (min_ram_frame a1) (double_frees a1)
      (dma_reserves a1) (GUARD_START a1) (GUARD_END a1).

(** [pt_read] is the memory the tables live in; [placed] and [hhdm] are the
    architecture's [BOOTLOADER_PLACED_TABLES] and direct-map offset. *)
Section PageTableWalk.
Variable pt_read : Z -> nat -> Z.

Definition PT_ADDR_MASK : Z := 0x000FFFFFFFFFF000.
Definition entry_present (e : Z) : bool := negb (Z.land e 1 =? 0).
Definition entry_huge (e : Z) : bool := negb (Z.land e (Z.shiftl 1 7) =? 0).
Definition entry_phys (e : Z) : Z := Z.land e PT_ADDR_MASK.

Definition protect_pde (pd_phys : Z) (a : BitmapAllocator) (pd_i : nat) : BitmapAllocator :=
  let pde := pt_read pd_phys pd_i in
  if negb (entry_present pde) then a
  else if entry_huge pde then a
  else mark_pt_frame_used a (entry_phys pde).

Definition protect_pd (a : BitmapAllocator) (pd_phys : Z) : BitmapAllocator :=
  foldl (protect_pde pd_phys) a (seq 0 512).

Definition protect_pdpte (pdpt_phys : Z) (a : BitmapAllocator) (pdpt_i : nat) : BitmapAllocator :=
  let pdpte := pt_read pdpt_phys pdpt_i in
  if negb (entry_present pdpte) then a
  else if entry_huge pdpte then a
  else protect_pd (mark_pt_frame_used a (entry_phys pdpte)) (entry_phys pdpte).

Definition protect_pdpt (a : BitmapAllocator) (pdpt_phys : Z) : BitmapAllocator :=
  foldl (protect_pdpte pdpt_phys) a (seq 0 512).

Definition protect_pml4e (pml4_phys : Z) (a : BitmapAllocator) (pml4_i : nat) : BitmapAllocator :=
  let pml4e := pt_read pml4_phys pml4_i in
  if negb (entry_present pml4e) then a
  else protect_pdpt (mark_pt_frame_used a (entry_phys pml4e)) (entry_phys pml4e).

Definition protect_kernel_page_table_frames (placed : bool) (hhdm page_table_base : Z)
    (a : BitmapAllocator) : BitmapAllocator :=
  if negb placed then a
  else if hhdm =? 0 then a
  else
    let pml4_phys := Z.land page_table_base (Z.lnot 0xFFF) in
    foldl (protect_pml4e pml4_phys) (mark_pt_frame_used a pml4_phys) (seq 256 256).

End PageTableWalk.

(** ** Initialisation from the boot memory map *)

Inductive MemoryKind :=
| Usable
| Reserved
| AcpiReclaimable
| KernelImage
| BootloaderReclaimable.

#[export] Instance MemoryKind_eq_dec : EqDecision MemoryKind.
Proof. solve_decision. Defined.

Record MemoryRegion := mkRegion {
  base : Z;
  len : Z;
  kind : MemoryKind
}.

Record BootInfo := mkBootInfo {
  memory_map : list MemoryRegion;
  kernel_phys_start : Z;
  kernel_phys_end : Z;
  hhdm_offset : Z
}.

Definition is_ram (k : MemoryKind) : bool := negb (bool_decide (k = Reserved)).
Definition is_usable (k : MemoryKind) : bool := bool_decide (k = Usable).

(** What pass 1 measures. *)
Record survey := mkSurvey {
  sv_max_ram : Z;
  sv_min_ram : Z;
  sv_max_valid : Z;
  sv_largest_start : Z;
  sv_largest_len : Z
}.

Definition region_start (r : MemoryRegion) : Z := frame_align_up (base r).
Definition region_end (r : MemoryRegion) : Z := frame_align_down (wrap64 (base r + len r)).

Definition survey_region (s : survey) (r : MemoryRegion) : survey :=
  let s := if is_ram (kind r) then
             let ram_last := wrap64 (base r + len r + FRAME_SIZE - 1) / FRAME_SIZE in
             let ram_first := base r / FRAME_SIZE in
             mkSurvey (if sv_max_ram s <? ram_last then ram_last else sv_max_ram s)
                      (if ram_first <? sv_min_ram s then ram_first else sv_min_ram s)
                      (sv_max_valid s) (sv_largest_start s) (sv_largest_len s)
           else s in
  if negb (is_usable (kind r)) then s
  else
    let start := region_start r in
    let end_ := region_end r in
    if end_ <=? start then s
    else
      let last := end_ / FRAME_SIZE in
      let bigger := sv_largest_len s <? end_ - start in
      mkSurvey (sv_max_ram s) (sv_min_ram s)
               (if sv_max_valid s <? last then last else sv_max_valid s)
               (if bigger then start else sv_largest_start s)
               (if bigger then end_ - start else sv_largest_len s).

Definition survey_map (a : BitmapAllocator) (regions : list MemoryRegion) : survey :=
  foldl survey_region (mkSurvey (max_ram_frame a) (min_ram_frame a) (max_valid_frame a) 0 0) regions.

(** Pass 2 on one frame: skip the kernel image and the bitmaps' own storage. *)
Definition open_frame (kstart kend carve_first carve_last : Z) (a : BitmapAllocator) (i : nat)
    : BitmapAllocator :=
  let frame_phys := Z.of_nat i * FRAME_SIZE in
  if (kstart <? kend) && (kstart <=? frame_phys) && (frame_phys <? kend) then a
  else if (carve_first <=? Z.of_nat i) && (Z.of_nat i <? carve_last) then a
  else with_bits a (set_bit (BITMAP a) i) (free_frames a + 1) (next_byte a).

Definition open_region (kstart kend carve_first carve_last frame_cap : Z) (a : BitmapAllocator)
    (r : MemoryRegion) : BitmapAllocator :=
  if negb (is_usable (kind r)) then a
  else
    let start := region_start r in
    let end_ := region_end r in
    if end_ <=? start then a
    else
      let first := start / FRAME_SIZE in
      let last := Z.min (end_ / FRAME_SIZE) frame_cap in
      foldl (open_frame kstart kend carve_first carve_last) a
        (seq (Z.to_nat first) (Z.to_nat (last - first))).

(** [phys_is_identity] is the architecture's [PHYS_IS_IDENTITY]. *)
Definition init_from_map (phys_is_identity : bool) (a : BitmapAllocator) (boot : BootInfo)
    : outcome BitmapAllocator :=
  let kstart := kernel_phys_start boot in
  let kend := kernel_phys_end boot in
  if (hhdm_offset boot =? 0) && negb phys_is_identity then Panic
  else
    let s := survey_map a (memory_map boot) in
    let frame_cap := sv_max_ram s in
    let bitmap_len := (frame_cap + 7) / 8 in
    let need := 2 * bitmap_len in
    let need_frames := (need + FRAME_SIZE - 1) / FRAME_SIZE in
    if sv_largest_len s / FRAME_SIZE <? need_frames then Panic
    else
      let carve_last := (sv_largest_start s + sv_largest_len s) / FRAME_SIZE in
      let carve_first := carve_last - need_frames in
      let zeroed := replicate (Z.to_nat bitmap_len) 0 in
      let a0 := mkAllocator zeroed zeroed (free_frames a) (total_frames a) (next_byte a)
                  (sv_max_valid s) (sv_max_ram s) (sv_min_ram s) (double_frees a)
                  (dma_reserves a) (GUARD_START a) (GUARD_END a) in
      let a1 := foldl (open_region kstart kend carve_first carve_last frame_cap) a0 (memory_map boot) in
      Done (mkAllocator (BITMAP a1) (KPT a1) (free_frames a1) (free_frames a1) (next_byte a1)
              (max_valid_frame a1) (max_ram_frame a1) (min_ram_frame a1) (double_frees a1)
              (dma_reserves a1) (GUARD_START a1) (GUARD_END a1)).

(** [allocator::init]: the guard range, then the map. *)
Definition allocator_init (phys_is_identity : bool) (boot : BootInfo) : outcome BitmapAllocator :=
  let a := allocator_new in
  init_from_map phys_is_identity
    (mkAllocator (BITMAP a) (KPT a) (free_frames a) (total_frames a) (next_byte a)
       (max_valid_frame a) (max_ram_frame a) (min_ram_frame a) (double_frees a) (dma_reserves a)
       (kernel_phys_start boot) (kernel_phys_end boot)) boot.

(** ** The invariant *)

(** The frame indices a bitmap covers. *)
Definition frames_of (bm : list Z) : list nat := seq 0 (8 * length bm).

Definition popcount (bm : list Z) : nat := count (get_bit bm) (frames_of bm).

Definition reserved_frame (a : BitmapAllocator) (i : nat) : Prop :=
  existsb (in_reserve (Z.of_nat i)) (dma_reserves a) = true.

Record alloc_inv (a : BitmapAllocator) : Prop := mk_alloc_inv {
  ai_len : length (BITMAP a) = Z.to_nat ((max_ram_frame a + 7) / 8);
  ai_kpt_len : length (KPT a) = length (BITMAP a);
  ai_bytes : forall i b, BITMAP a !! i = Some b -> 0 <= b <= u8_max;
  ai_count : free_frames a = Z.of_nat (popcount (BITMAP a));
  ai_next : (next_byte a <= length (BITMAP a))%nat;
  ai_valid : 0 <= max_valid_frame a <= max_ram_frame a;
  ai_free_valid : forall i, get_bit (BITMAP a) i = true -> Z.of_nat i < max_valid_frame a;
  (** a protected page-table frame and a reserved DMA frame are never free *)
  ai_kpt : forall i, get_bit (KPT a) i = true -> get_bit (BITMAP a) i = false;
  ai_dma : forall i, reserved_frame a i -> get_bit (BITMAP a) i = false;
  (** the kernel image is never free *)
  ai_guard : forall i, get_bit (BITMAP a) i = true -> GUARD_START a < GUARD_END a ->
    ~ (GUARD_START a <= Z.of_nat i * FRAME_SIZE < GUARD_END a)
}.

(** The frames of the kernel's page tables: the root, and every table the
    upper half of it reaches through present, non-huge entries. *)
Inductive table_frame (pt_read : Z -> nat -> Z) (pml4 : Z) : Z -> Prop :=
| tf_root : table_frame pt_read pml4 pml4
| tf_pdpt i :
    (256 <= i < 512)%nat -> entry_present (pt_read pml4 i) = true ->
    table_frame pt_read pml4 (entry_phys (pt_read pml4 i))
| tf_pd i j (pdpt := entry_phys (pt_read pml4 i)) :
    (256 <= i < 512)%nat -> entry_present (pt_read pml4 i) = true ->
    (j < 512)%nat -> entry_present (pt_read pdpt j) = true -> entry_huge (pt_read pdpt j) = false ->
    table_frame pt_read pml4 (entry_phys (pt_read pdpt j))
| tf_pt i j k (pdpt := entry_phys (pt_read pml4 i)) (pd := entry_phys (pt_read pdpt j)) :
    (256 <= i < 512)%nat -> entry_present (pt_read pml4 i) = true ->
    (j < 512)%nat -> entry_present (pt_read pdpt j) = true -> entry_huge (pt_read pdpt j) = false ->
    (k < 512)%nat -> entry_present (pt_read pd k) = true -> entry_huge (pt_read pd k) = false ->
    table_frame pt_read pml4 (entry_phys (pt_read pd k)).

(** ** What the boot map must satisfy

    Regions fit the address space and usable regions do not overlap. *)

Definition region_fits (r : MemoryRegion) : bool :=
  (0 <=? base r) && (0 <=? len r) && (base r + len r + FRAME_SIZE - 1 <=? u64_max).

Definition apart (r1 r2 : MemoryRegion) : bool :=
  (base r1 + len r1 <=? base r2) || (base r2 + len r2 <=? base r1) ||
  negb (is_usable (kind r1)) || negb (is_usable (kind r2)).

Fixpoint regions_disjoint (l : list MemoryRegion) : bool :=
  match l with
  | [] => true
  | r :: l => forallb (apart r) l && regions_disjoint l
  end.

(** Frame [i] lies wholly inside usable region [r]. *)
Definition inside (r : MemoryRegion) (i : nat) : Prop :=
  is_usable (kind r) = true /\
  base r <= Z.of_nat i * FRAME_SIZE /\ (Z.of_nat i + 1) * FRAME_SIZE <= base r + len r.

(** Frame [i] lies in the kernel image. *)
Definition in_kernel (boot : BootInfo) (i : nat) : Prop :=
  kernel_phys_start boot < kernel_phys_end boot /\
  kernel_phys_start boot <= Z.of_nat i * FRAME_SIZE < kernel_phys_end boot.

(** Frames the two bitmaps take. *)
Definition bitmap_frames (cap : Z) : Z := (2 * ((cap + 7) / 8) + FRAME_SIZE - 1) / FRAME_SIZE.

(** ** Ownership

    A [heap] is the allocator together with the frames the rest of the kernel
    holds.  A step is one call of the allocator's interface; [free] is called
    by the owner of a frame, or on a frame the allocator itself refuses. *)

Record heap := mkHeap {
  h_alloc : BitmapAllocator;
  h_owned : gset nat
}.

Definition frame_idx (phys : Z) : nat := Z.to_nat (frame_number phys).

(** What [free]'s caller may pass: a frame it owns, or one [free] ignores. *)
Definition may_free (h : heap) (frame : Z) : Prop :=
  0 <= frame /\
  (frame_idx frame ∈ h_owned h \/
   max_valid_frame (h_alloc h) <= frame_number frame \/
   get_bit (BITMAP (h_alloc h)) (frame_idx frame) = true \/
   get_bit (KPT (h_alloc h)) (frame_idx frame) = true \/
   reserved_frame (h_alloc h) (frame_idx frame)).

Inductive heap_step : heap -> heap -> Prop :=
| hs_alloc a O a' phys :
    alloc a = Done (a', Some phys) ->
    heap_step (mkHeap a O) (mkHeap a' ({[frame_idx phys]} ∪ O))
| hs_alloc_none a O a' :
    alloc a = Done (a', None) -> heap_step (mkHeap a O) (mkHeap a' O)
| hs_contiguous a O n a' phys :
    alloc_contiguous a n = (a', Some phys) ->
    heap_step (mkHeap a O) (mkHeap a' (set_seq (frame_idx phys) n ∪ O))
| hs_contiguous_none a O n a' :
    alloc_contiguous a n = (a', None) -> heap_step (mkHeap a O) (mkHeap a' O)
| hs_dma a O n a' phys :
    alloc_dma_arena a n = (a', Some phys) ->
    heap_step (mkHeap a O) (mkHeap a' (set_seq (frame_idx phys) n ∪ O))
| hs_dma_none a O n a' :
    alloc_dma_arena a n = (a', None) -> heap_step (mkHeap a O) (mkHeap a' O)
| hs_free a O frame :
    may_free (mkHeap a O) frame ->
    heap_step (mkHeap a O) (mkHeap (free a frame) (O ∖ {[frame_idx frame]}))
| hs_reserve a O phys n a' ok :
    0 <= phys -> 0 <= n ->
    (forall j, phys / FRAME_SIZE <= Z.of_nat j < phys / FRAME_SIZE + n ->
               get_bit (BITMAP a) j = false) ->
    reserve_no_free a phys n = (a', ok) -> heap_step (mkHeap a O) (mkHeap a' O)
| hs_protect a O phys :
    0 <= phys -> heap_step (mkHeap a O) (mkHeap (mark_pt_frame_used a phys) O).

(** [F0] is the set of frames opened at boot. *)
Record heap_wf (F0 : gset nat) (h : heap) : Prop := mk_heap_wf {
  hw_inv : alloc_inv (h_alloc h);
  hw_total : total_frames (h_alloc h) = Z.of_nat (size F0);
  hw_free : forall i, get_bit (BITMAP (h_alloc h)) i = true -> i ∈ F0;
  hw_owned : forall i, i ∈ h_owned h -> i ∈ F0 /\ get_bit (BITMAP (h_alloc h)) i = false;
  hw_F0 : forall i, i ∈ F0 ->
    Z.of_nat i < max_valid_frame (h_alloc h) /\
    ~ (GUARD_START (h_alloc h) < GUARD_END (h_alloc h) /\
       GUARD_START (h_alloc h) <= Z.of_nat i * FRAME_SIZE < GUARD_END (h_alloc h))
}.

(** ** Facts about bits *)

Module FrameFacts.

Lemma land_mask_testbit (b k : Z) :
  0 <= k -> negb (Z.land b (Z.shiftl 1 k) =? 0) = Z.testbit b k.
Proof.
  intros Hk. rewrite Z.shiftl_1_l. destruct (Z.testbit b k) eqn:Hb.
  - apply negb_true_iff, Z.eqb_neq. intros H0.
    assert (Z.testbit (Z.land b (2 ^ k)) k = false) as H by (rewrite H0; apply Z.bits_0).
    rewrite Z.land_spec, Z.pow2_bits_true, Hb in H by done. done.
  - apply negb_false_iff, Z.eqb_eq, Z.bits_inj'. intros n Hn.
    rewrite Z.land_spec, Z.bits_0. destruct (decide (n = k)) as [->|Hne]; [by rewrite Hb|].
    rewrite Z.pow2_bits_false by done. by rewrite andb_false_r.
Qed.

Lemma get_bit_testbit (bm : list Z) (i : nat) :
  get_bit bm i = Z.testbit (default 0 (bm !! (i / 8)%nat)) (Z.of_nat (i mod 8)).
Proof.
  unfold get_bit, bit_mask. destruct (bm !! _); simpl; [|by rewrite Z.bits_0].
  apply land_mask_testbit. lia.
Qed.

Lemma get_bit_range (bm : list Z) (i : nat) :
  get_bit bm i = true -> (i < 8 * length bm)%nat.
Proof.
  unfold get_bit. destruct (bm !! _) eqn:E; [|done]. intros _.
  apply lookup_lt_Some in E. pose proof (Nat.div_mod i 8). 
  pose proof (Nat.mod_upper_bound i 8). lia.
Qed.

Lemma bit_mask_testbit (i k : nat) :
  Z.testbit (bit_mask i) (Z.of_nat k) = bool_decide (i mod 8 = k)%nat.
Proof.
  unfold bit_mask. rewrite Z.shiftl_1_l. case_bool_decide as H.
  - subst. apply Z.pow2_bits_true. lia.
  - apply Z.pow2_bits_false. lia.
Qed.

Lemma same_slot (i j : nat) : (i / 8 = j / 8 -> i mod 8 = j mod 8 -> i = j)%nat.
Proof. pose proof (Nat.div_mod i 8); pose proof (Nat.div_mod j 8). lia. Qed.

Lemma get_set_bit (bm : list Z) (i j : nat) :
  (i / 8 < length bm)%nat ->
  get_bit (set_bit bm i) j = if decide (i = j) then true else get_bit bm j.
Proof.
  intros Hi. rewrite !get_bit_testbit. unfold set_bit.
  destruct (lookup_lt_is_Some_2 bm _ Hi) as [b Hb].
  destruct (decide (i / 8 = j / 8)%nat) as [He|Hne].
  - rewrite <- He, list_lookup_alter_eq, Hb. simpl.
    rewrite Z.lor_spec, bit_mask_testbit. case_decide as Hij.
    + subst. rewrite bool_decide_true by done. by rewrite orb_true_r.
    + rewrite bool_decide_false; [by rewrite orb_false_r|].
      intros Hm. by apply Hij, same_slot.
  - rewrite list_lookup_alter_ne by done. rewrite decide_False; [done|congruence].
Qed.

Lemma get_clear_bit (bm : list Z) (i j : nat) :
  get_bit (clear_bit bm i) j = if decide (i = j) then false else get_bit bm j.
Proof.
  rewrite !get_bit_testbit. unfold clear_bit.
  pose proof (Nat.mod_upper_bound j 8 ltac:(lia)) as Hj8.
  destruct (decide (i / 8 = j / 8)%nat) as [He|Hne].
  - rewrite <- He, list_lookup_alter_eq. destruct (bm !! (i / 8)%nat); simpl.
    + rewrite Z.land_spec, u8_not_testbit, bit_mask_testbit by lia.
      assert (Z.of_nat (j mod 8) <? 8 = true) as -> by (apply Z.ltb_lt; lia).
      rewrite andb_true_r. case_decide as Hij.
      * subst. rewrite bool_decide_true by done. by rewrite andb_false_r.
      * rewrite bool_decide_false; [by rewrite andb_true_r|].
        intros Hm. by apply Hij, same_slot.
    + rewrite Z.bits_0. by case_decide.
  - rewrite list_lookup_alter_ne by done. rewrite decide_False; [done|congruence].
Qed.

Lemma length_set_bit (bm : list Z) (i : nat) : length (set_bit bm i) = length bm.
Proof. apply length_alter. Qed.

Lemma length_clear_bit (bm : list Z) (i : nat) : length (clear_bit bm i) = length bm.
Proof. apply length_alter. Qed.

(** Bytes stay bytes. *)
Definition bytes_ok (bm : list Z) : Prop := forall i b, bm !! i = Some b -> 0 <= b <= u8_max.

Lemma byte_bits (b : Z) : 0 <= b <= u8_max <-> 0 <= b /\ forall k, 8 <= k -> Z.testbit b k = false.
Proof.
  unfold u8_max. split.
  - intros Hb. split; [lia|]. intros k Hk. destruct (decide (b = 0)) as [->|]; [apply Z.bits_0|].
    apply Z.bits_above_log2; [lia|]. apply Z.log2_lt_pow2; [lia|].
    apply Z.lt_le_trans with (2 ^ 8); [lia|]. apply Z.pow_le_mono_r; lia.
  - intros [H0 Hk]. split; [done|]. 
    assert (b = b mod 2 ^ 8) as ->; [|pose proof (Z.mod_pos_bound b (2 ^ 8)); lia].
    apply Z.bits_inj'. intros n Hn. destruct (decide (n < 8)).
    + by rewrite Z.mod_pow2_bits_low.
    + rewrite Z.mod_pow2_bits_high by lia. apply Hk. lia.
Qed.

Lemma bytes_ok_set (bm : list Z) (i : nat) : bytes_ok bm -> bytes_ok (set_bit bm i).
Proof.
  intros H j b. unfold set_bit. intros Hj. apply lookup_alter_cases in Hj.
  destruct Hj as [(_ & c & Hc & ->)|[_ Hb]]; [|by eapply H].
  apply H, byte_bits in Hc as [Hc0 Hc8]. apply byte_bits.
  assert (0 <= bit_mask i) by (unfold bit_mask; rewrite Z.shiftl_1_l; apply Z.pow_nonneg; lia).
  split; [by apply Z.lor_nonneg|]. intros k Hk. rewrite Z.lor_spec, Hc8 by done.
  unfold bit_mask. rewrite Z.shiftl_1_l. apply Z.pow2_bits_false.
  pose proof (Nat.mod_upper_bound i 8). lia.
Qed.

Lemma bytes_ok_clear (bm : list Z) (i : nat) : bytes_ok bm -> bytes_ok (clear_bit bm i).
Proof.
  intros H j b. unfold clear_bit. intros Hj. apply lookup_alter_cases in Hj.
  destruct Hj as [(_ & c & Hc & ->)|[_ Hb]]; [|by eapply H].
  apply H, byte_bits in Hc as [Hc0 Hc8]. apply byte_bits.
  split; [apply Z.land_nonneg; by left|]. intros k Hk. by rewrite Z.land_spec, Hc8.
Qed.

(** ** Scanning *)

Lemma byte_nonzero_bit (b : Z) :
  0 <= b <= u8_max -> b <> 0 -> exists k, (k < 8)%nat /\ Z.testbit b (Z.of_nat k) = true.
Proof.
  intros Hb Hnz. destruct (position (fun i => Z.testbit b (Z.of_nat i)) (seq 0 8)) as [k|] eqn:E.
  - apply position_hit in E as (x & Hx & Ht). apply lookup_seq in Hx. exists x. naive_solver lia.
  - exfalso. apply Hnz, Z.bits_inj'. intros n Hn. rewrite Z.bits_0.
    destruct (decide (n < 8)); [|apply byte_bits; [done|lia]].
    rewrite position_None in E. specialize (E (Z.to_nat n) (Z.to_nat n)).
    rewrite Z2Nat.id in E by done. apply E, (lookup_seq 0 8). lia.
Qed.

Lemma trailing_zeros8_spec (b : Z) :
  0 <= b <= u8_max -> b <> 0 ->
  (trailing_zeros8 b < 8)%nat /\ Z.testbit b (Z.of_nat (trailing_zeros8 b)) = true.
Proof.
  intros Hb Hnz. destruct (byte_nonzero_bit b Hb Hnz) as (k & Hk & Ht). unfold trailing_zeros8.
  destruct (position _ (seq 0 8)) as [j|] eqn:E; simpl.
  - apply position_hit in E as (x & Hx & Hx'). apply lookup_seq in Hx as [-> ?]. done.
  - rewrite position_None in E. rewrite (E k k) in Ht; [done|]. apply lookup_seq. lia.
Qed.

Lemma scan_free_Some (bm : list Z) (s e i : nat) :
  bytes_ok bm -> scan_free bm s e = Some i ->
  get_bit bm i = true /\ (s <= i / 8 < e)%nat.
Proof.
  intros Hok. unfold scan_free. destruct (position _ _) as [k|] eqn:E; [|done]. intros [= <-].
  apply position_hit in E as (x & [-> Hk]%lookup_seq & Hx).
  destruct (bm !! (s + k)%nat) as [b|] eqn:Eb; [|done]. simpl in *. to_prop.
  destruct (trailing_zeros8_spec b (Hok _ _ Eb) Hx) as [Ht8 Ht].
  rewrite get_bit_testbit.
  rewrite (Nat.add_comm (_ * 8)), Nat.div_add, Nat.Div0.mod_add, Nat.div_small, Nat.mod_small by lia.
  simpl. rewrite Eb. simpl. split; [done|lia].
Qed.

Lemma scan_free_None (bm : list Z) (s e i : nat) :
  scan_free bm s e = None -> (s <= i / 8 < e)%nat -> get_bit bm i = false.
Proof.
  unfold scan_free. destruct (position _ _) as [k|] eqn:E; [done|]. intros _ Hi.
  rewrite position_None in E. specialize (E (i / 8 - s)%nat (i / 8)%nat).
  rewrite get_bit_testbit. destruct (bm !! (i / 8)%nat); [|apply Z.bits_0].
  simpl in *. assert (z = 0) as ->; [|apply Z.bits_0].
  apply Z.eqb_eq, negb_false_iff, E, lookup_seq. lia.
Qed.

(** ** Counting *)

Lemma frames_of_elem (bm : list Z) (i : nat) : i ∈ frames_of bm <-> (i < 8 * length bm)%nat.
Proof. unfold frames_of. rewrite elem_of_seq. lia. Qed.

Lemma popcount_set (bm : list Z) (i : nat) :
  (i / 8 < length bm)%nat -> get_bit bm i = false ->
  popcount (set_bit bm i) = S (popcount bm).
Proof.
  intros Hi Hb. unfold popcount.
  replace (frames_of (set_bit bm i)) with (frames_of bm)
    by (unfold frames_of; by rewrite length_set_bit).
  pose proof (count_split (get_bit bm) (get_bit (set_bit bm i)) (frames_of bm) i) as H.
  rewrite get_set_bit, decide_True, Hb in H by done.
  rewrite Nat.add_0_r in H. rewrite H; [lia|apply NoDup_seq| |].
  - apply frames_of_elem. pose proof (Nat.div_mod i 8). pose proof (Nat.mod_upper_bound i 8). lia.
  - intros j Hj. by rewrite get_set_bit, decide_False.
Qed.

Lemma popcount_clear (bm : list Z) (i : nat) :
  get_bit bm i = true -> S (popcount (clear_bit bm i)) = popcount bm.
Proof.
  intros Hb. unfold popcount.
  replace (frames_of (clear_bit bm i)) with (frames_of bm)
    by (unfold frames_of; by rewrite length_clear_bit).
  pose proof (count_split (get_bit bm) (get_bit (clear_bit bm i)) (frames_of bm) i) as H.
  rewrite get_clear_bit, decide_True, Hb in H by done.
  rewrite Nat.add_0_r, Nat.add_1_r in H. apply H; [apply NoDup_seq| |].
  - by apply frames_of_elem, get_bit_range.
  - intros j Hj. by rewrite get_clear_bit, decide_False.
Qed.

Lemma popcount_zero (bm : list Z) :
  popcount bm = 0%nat <-> forall i, get_bit bm i = false.
Proof.
  split.
  - intros H i. destruct (get_bit bm i) eqn:Hi; [|done].
    pose proof (popcount_clear bm i Hi). lia.
  - intros H. apply count_zero, position_None. intros. apply H.
Qed.

Lemma get_foldl_clear (l : list nat) (bm : list Z) (j : nat) :
  get_bit (foldl clear_bit bm l) j = if decide (j ∈ l) then false else get_bit bm j.
Proof.
  revert bm. induction l as [|i l IH]; intros bm; simpl; [done|]. rewrite IH, get_clear_bit.
  repeat case_decide; set_solver.
Qed.

Lemma get_foldl_set (l : list nat) (bm : list Z) (j : nat) :
  (forall i, i ∈ l -> (i / 8 < length bm)%nat) ->
  get_bit (foldl set_bit bm l) j = if decide (j ∈ l) then true else get_bit bm j.
Proof.
  revert bm. induction l as [|i l IH]; intros bm Hl; simpl; [done|].
  rewrite IH by (intros; rewrite length_set_bit; set_solver).
  rewrite get_set_bit by set_solver. repeat case_decide; set_solver.
Qed.

(** ** The contiguous scan *)

Definition run_free (bm : list Z) (s n : nat) : Prop :=
  forall j, (s <= j < s + n)%nat -> get_bit bm j = true.

Lemma find_run_Some (bm : list Z) (n k idx run start s : nat) :
  find_run bm n k idx run start = Some s ->
  ((0 < run)%nat -> (start + run = idx)%nat /\ run_free bm start run) ->
  run_free bm s n /\ (s + n <= idx + k)%nat.
Proof.
  revert idx run start. induction k as [|k IH]; intros idx run start; simpl; [done|].
  intros H Hrun. destruct (get_bit bm idx) eqn:Hb.
  - assert (Hext : forall st, (run = 0 /\ st = idx)%nat \/ (0 < run /\ st = start)%nat ->
      (st + (run + 1) = idx + 1)%nat /\ run_free bm st (run + 1)).
    { intros st [[-> ->]|[Hp ->]].
      - split; [lia|]. intros j Hj. assert (j = idx) as -> by lia. done.
      - destruct (Hrun Hp) as [He Hf]. split; [lia|]. intros j Hj.
        destruct (decide (j = idx)) as [->|]; [done|]. apply Hf. lia. }
    destruct (Nat.eqb_spec run 0); destruct (Nat.eqb_spec (run + 1) n) as [<-|];
      try (injection H as <-; destruct (Hext _ ltac:(eauto with lia)) as [He Hf];
           split; [done|lia]);
      apply IH in H as [Hf ?]; try (intros _; apply Hext; lia); split; try done; lia.
  - apply IH in H as [Hf ?]; [split; [done|lia]|lia].
Qed.

Lemma find_run_None (bm : list Z) (n k idx run start s : nat) :
  find_run bm n k idx run start = None -> (run < n)%nat ->
  (idx <= s + run)%nat -> (s + n <= idx + k)%nat -> ~ run_free bm s n.
Proof.
  revert idx run start. induction k as [|k IH]; intros idx run start; simpl; [lia|].
  intros H Hlt Hs Hk Hfree. destruct (get_bit bm idx) eqn:Hb.
  - destruct (Nat.eqb_spec (run + 1) n); [done|].
    eapply (IH (idx + 1)%nat (run + 1)%nat); [exact H|lia..|done].
  - destruct (decide (s <= idx)%nat).
    + rewrite (Hfree idx) in Hb by lia. done.
    + eapply (IH (idx + 1)%nat 0%nat); [exact H|lia..|done].
Qed.

(** ** Moving one frame in or out of the pool *)

Lemma idx_in_bitmap (a : BitmapAllocator) (i : nat) :
  alloc_inv a -> Z.of_nat i < max_ram_frame a -> (i / 8 < length (BITMAP a))%nat.
Proof.
  intros Hinv Hi. rewrite (ai_len _ Hinv). apply Nat2Z.inj_lt. rewrite Nat2Z.inj_div.
  rewrite Z2Nat.id by dlia. dlia.
Qed.

Lemma inv_take (a : BitmapAllocator) (i next : nat) :
  alloc_inv a -> get_bit (BITMAP a) i = true -> (next <= length (BITMAP a))%nat ->
  alloc_inv (with_bits a (clear_bit (BITMAP a) i) (free_frames a - 1) next).
Proof.
  intros Hinv Hb Hn. pose proof Hinv as [].
  split; cbn [with_bits BITMAP KPT free_frames next_byte max_valid_frame max_ram_frame
              dma_reserves GUARD_START GUARD_END];
    rewrite ?length_clear_bit; try done.
  - by apply bytes_ok_clear.
  - rewrite ai_count0. pose proof (popcount_clear _ _ Hb). lia.
  - intros j. rewrite get_clear_bit. case_decide; [done|]. apply ai_free_valid0.
  - intros j Hj. rewrite get_clear_bit. case_decide; [done|]. by apply ai_kpt0.
  - intros j Hj. rewrite get_clear_bit. case_decide; [done|]. by apply ai_dma0.
  - intros j. rewrite get_clear_bit. case_decide; [done|]. apply ai_guard0.
Qed.

(** A frame that may enter the pool. *)
Definition admissible (a : BitmapAllocator) (i : nat) : Prop :=
  Z.of_nat i < max_valid_frame a /\ get_bit (KPT a) i = false /\ ~ reserved_frame a i /\
  ~ (GUARD_START a < GUARD_END a /\ GUARD_START a <= Z.of_nat i * FRAME_SIZE < GUARD_END a).

Lemma inv_give (a : BitmapAllocator) (i next : nat) :
  alloc_inv a -> get_bit (BITMAP a) i = false -> admissible a i ->
  (next <= length (BITMAP a))%nat ->
  alloc_inv (with_bits a (set_bit (BITMAP a) i) (free_frames a + 1) next).
Proof.
  intros Hinv Hb (Hv & Hk & Hd & Hg) Hn.
  assert (i / 8 < length (BITMAP a))%nat as Hi
    by (apply idx_in_bitmap; [done|pose proof (ai_valid _ Hinv); lia]).
  pose proof Hinv as [].
  split; cbn [with_bits BITMAP KPT free_frames next_byte max_valid_frame max_ram_frame
              dma_reserves GUARD_START GUARD_END];
    rewrite ?length_set_bit; try done.
  - by apply bytes_ok_set.
  - rewrite ai_count0, popcount_set by done. lia.
  - intros j. rewrite get_set_bit by done. case_decide; [by subst|]. apply ai_free_valid0.
  - intros j Hj. rewrite get_set_bit by done. case_decide; [congruence|]. by apply ai_kpt0.
  - intros j Hj. rewrite get_set_bit by done. case_decide; [by subst|]. by apply ai_dma0.
  - intros j. rewrite get_set_bit by done. case_decide; [subst; tauto|]. apply ai_guard0.
Qed.

Lemma inv_take_list (l : list nat) (a : BitmapAllocator) :
  alloc_inv a -> NoDup l -> (forall i, i ∈ l -> get_bit (BITMAP a) i = true) ->
  alloc_inv (with_bits a (foldl clear_bit (BITMAP a) l)
               (free_frames a - Z.of_nat (length l)) (next_byte a)).
Proof.
  revert a. induction l as [|i l IH]; intros a Hinv Hnd Hl; simpl.
  - rewrite Z.sub_0_r. by destruct a.
  - apply NoDup_cons in Hnd as [Hi Hnd].
    specialize (IH (with_bits a (clear_bit (BITMAP a) i) (free_frames a - 1) (next_byte a))).
    cbn [with_bits BITMAP free_frames next_byte] in IH.
    replace (free_frames a - Z.of_nat (S (length l)))
      with (free_frames a - 1 - Z.of_nat (length l)) by lia.
    apply IH; [apply inv_take; [done|set_solver|apply Hinv]|done|].
    intros j Hj. rewrite get_clear_bit, decide_False by (intros ->; done). set_solver.
Qed.

Lemma inv_give_list (l : list nat) (a : BitmapAllocator) :
  alloc_inv a -> NoDup l ->
  (forall i, i ∈ l -> get_bit (BITMAP a) i = false /\ admissible a i) ->
  alloc_inv (with_bits a (foldl set_bit (BITMAP a) l)
               (free_frames a + Z.of_nat (length l)) (next_byte a)).
Proof.
  revert a. induction l as [|i l IH]; intros a Hinv Hnd Hl; simpl.
  - rewrite Z.add_0_r. by destruct a.
  - apply NoDup_cons in Hnd as [Hi Hnd].
    destruct (Hl i) as [Hb Ha]; [set_solver|].
    specialize (IH (with_bits a (set_bit (BITMAP a) i) (free_frames a + 1) (next_byte a))).
    cbn [with_bits BITMAP free_frames next_byte] in IH.
    replace (free_frames a + Z.of_nat (S (length l)))
      with (free_frames a + 1 + Z.of_nat (length l)) by lia.
    apply IH; [apply inv_give; [done..|apply Hinv]|done|].
    intros j Hj. destruct (Hl j) as [Hbj Haj]; [set_solver|]. split; [|done].
    rewrite get_set_bit, decide_False; [done|by intros ->|].
    apply idx_in_bitmap; [done|]. destruct Ha. pose proof (ai_valid _ Hinv). lia.
Qed.

Lemma free_admissible (a : BitmapAllocator) (i : nat) :
  alloc_inv a -> get_bit (BITMAP a) i = true -> admissible a i.
Proof.
  intros [] Hb. split_and!; [by apply ai_free_valid0| | |].
  - destruct (get_bit (KPT a) i) eqn:E; [|done]. rewrite (ai_kpt0 _ E) in Hb. done.
  - intros E. rewrite (ai_dma0 _ E) in Hb. done.
  - intros [Hg ?]. by apply (ai_guard0 i Hb Hg).
Qed.

(** ** The operations *)

Lemma frame_idx_mul (i : nat) : frame_idx (Z.of_nat i * FRAME_SIZE) = i.
Proof. unfold frame_idx, frame_number, FRAME_SIZE. rewrite Z.div_mul by lia. lia. Qed.

Lemma alloc_cases (a : BitmapAllocator) :
  alloc_inv a ->
  (alloc a = Done (a, None) /\ forall i, get_bit (BITMAP a) i = false) \/
  (exists i next, get_bit (BITMAP a) i = true /\ (next <= length (BITMAP a))%nat /\
     alloc a = Done (with_bits a (clear_bit (BITMAP a) i) (free_frames a - 1) next,
                     Some (Z.of_nat i * FRAME_SIZE))).
Proof.
  intros Hinv. unfold alloc.
  assert (Hhit : forall i, get_bit (BITMAP a) i = true ->
    (GUARD_START a <? GUARD_END a) && (GUARD_START a <=? Z.of_nat i * FRAME_SIZE) &&
    (Z.of_nat i * FRAME_SIZE <? GUARD_END a) = false).
  { intros i Hi. apply not_true_is_false. intros H. to_prop.
    by apply (ai_guard _ Hinv i Hi). }
  destruct (scan_free (BITMAP a) (next_byte a) _) as [i|] eqn:E1.
  - apply scan_free_Some in E1 as [Hi ?]; [|exact (ai_bytes _ Hinv)]. rewrite (Hhit i Hi). right.
    eexists i, _. split_and!; [done| |done]. lia.
  - destruct (scan_free (BITMAP a) 0 _) as [i|] eqn:E2.
    + apply scan_free_Some in E2 as [Hi ?]; [|exact (ai_bytes _ Hinv)]. rewrite (Hhit i Hi). right.
      eexists i, _. split_and!; [done| |done]. lia.
    + left. split; [done|]. intros i. destruct (get_bit (BITMAP a) i) eqn:Hi; [|done].
      pose proof (get_bit_range _ _ Hi). destruct (decide (i / 8 < next_byte a)%nat).
      * rewrite (scan_free_None _ _ _ i E2) in Hi by lia. done.
      * rewrite (scan_free_None _ _ _ i E1) in Hi; [done|].
        split; [lia|]. apply Nat.Div0.div_lt_upper_bound. lia.
Qed.

Lemma alloc_contiguous_cases (a : BitmapAllocator) (n : nat) :
  alloc_inv a ->
  (alloc_contiguous a n = (a, None) /\
   (n = 0%nat \/ forall s, ~ run_free (BITMAP a) s n)) \/
  (exists s, (0 < n)%nat /\ run_free (BITMAP a) s n /\
     alloc_contiguous a n =
       (with_bits a (foldl clear_bit (BITMAP a) (seq s n)) (free_frames a - Z.of_nat n)
          (next_byte a), Some (Z.of_nat s * FRAME_SIZE))).
Proof.
  intros Hinv. unfold alloc_contiguous. destruct (Nat.eqb_spec n 0) as [->|Hn]; [auto|].
  destruct (find_run _ _ _ _ _ _) as [s|] eqn:E.
  - apply find_run_Some in E as [Hf _]; [|lia]. right. exists s. split_and!; [lia|done..].
  - left. split; [done|right]. intros s Hf. eapply find_run_None; [exact E|lia|lia| |exact Hf].
    pose proof (ai_free_valid _ Hinv (s + n - 1) ltac:(apply Hf; lia)).
    pose proof (ai_valid _ Hinv). lia.
Qed.

Lemma inv_contiguous (a : BitmapAllocator) (s n : nat) :
  alloc_inv a -> run_free (BITMAP a) s n ->
  alloc_inv (with_bits a (foldl clear_bit (BITMAP a) (seq s n)) (free_frames a - Z.of_nat n)
               (next_byte a)).
Proof.
  intros Hinv Hf. pose proof (inv_take_list (seq s n) a Hinv (NoDup_seq s n)) as H.
  rewrite length_seq in H. apply H. intros i Hi%elem_of_seq. by apply Hf.
Qed.

Lemma reserved_insert (a : BitmapAllocator) (k : nat) (r : Z * Z) (i : nat) :
  position empty_reserve (dma_reserves a) = Some k ->
  reserved_frame (with_reserves a (<[k := r]> (dma_reserves a))) i <->
  in_reserve (Z.of_nat i) r = true \/ reserved_frame a i.
Proof.
  intros Hk. pose proof (position_lt _ _ _ Hk). apply position_hit in Hk as (old & Hold & He).
  unfold reserved_frame. cbn [with_reserves dma_reserves]. rewrite !existsb_lookup. split.
  - intros (j & x & [[-> ->]|[Hne Hj]]%lookup_insert_cases & Hin); [by left|right]. eauto.
  - intros [Hr|(j & x & Hj & Hin)].
    + exists k, r. by rewrite list_lookup_insert_eq.
    + exists j, x. split; [|done]. rewrite list_lookup_insert_ne; [done|].
      intros ->. rewrite Hold in Hj. injection Hj as <-. unfold in_reserve in Hin.
      unfold empty_reserve in He. rewrite He in Hin. done.
Qed.

Lemma inv_reserve (a : BitmapAllocator) (k : nat) (b n : Z) :
  alloc_inv a -> position empty_reserve (dma_reserves a) = Some k ->
  (forall j, b <= Z.of_nat j < b + n -> get_bit (BITMAP a) j = false) ->
  alloc_inv (with_reserves a (<[k := (b, n)]> (dma_reserves a))).
Proof.
  intros [] Hk Hf. split; try done.
  intros i. rewrite reserved_insert by done. cbn [with_reserves BITMAP].
  intros [Hin|Hr]; [|by apply ai_dma0]. unfold in_reserve in Hin. simpl in Hin. to_prop.
  apply Hf. lia.
Qed.

Lemma set_bit_id (bm : list Z) (i : nat) : get_bit bm i = true -> set_bit bm i = bm.
Proof.
  intros Hb. unfold set_bit. apply list_eq. intros j.
  destruct (decide (i / 8 = j)%nat) as [<-|]; [|by rewrite list_lookup_alter_ne].
  rewrite list_lookup_alter_eq. rewrite get_bit_testbit in Hb.
  destruct (bm !! (i / 8)%nat) as [b|]; [|done]. simpl in *. f_equal.
  apply Z.bits_inj'. intros n Hn. rewrite Z.lor_spec.
  destruct (Z.testbit b n) eqn:E; [done|]. simpl.
  rewrite <- (Z2Nat.id n), bit_mask_testbit by done. apply bool_decide_false. intros Hm.
  rewrite Hm, Z2Nat.id in Hb by done. congruence.
Qed.

(** [free] takes the frame back. *)
Definition accepts (a : BitmapAllocator) (frame : Z) : bool :=
  (frame_number frame <? max_valid_frame a) && (frame_number frame <? max_ram_frame a) &&
  negb (get_bit (KPT a) (frame_idx frame)) &&
  negb (existsb (in_reserve (frame_number frame)) (dma_reserves a)).

Definition count_double_free (a : BitmapAllocator) : BitmapAllocator :=
  mkAllocator (BITMAP a) (KPT a) (free_frames a) (total_frames a) (next_byte a)
    (max_valid_frame a) (max_ram_frame a) (min_ram_frame a) (double_frees a + 1)
    (dma_reserves a) (GUARD_START a) (GUARD_END a).

Lemma free_cases (a : BitmapAllocator) (frame : Z) :
  free a frame =
    if negb (accepts a frame) then a
    else if get_bit (BITMAP a) (frame_idx frame) then count_double_free a
    else with_bits a (set_bit (BITMAP a) (frame_idx frame)) (free_frames a + 1)
           (Nat.min (frame_idx frame / 8) (next_byte a)).
Proof.
  unfold free, accepts, frame_idx. rewrite !Z.ltb_antisym.
  destruct (max_valid_frame a <=? _), (max_ram_frame a <=? _); simpl; try done.
  destruct (get_bit (KPT a) _); simpl; [done|].
  destruct (existsb _ _); simpl; [done|].
  destruct (get_bit (BITMAP a) _) eqn:Hb.
  - unfold count_double_free. by rewrite set_bit_id.
  - f_equal. destruct (Nat.ltb_spec (Z.to_nat (frame_number frame) / 8) (next_byte a)); lia.
Qed.

Lemma frame_idx_number (frame : Z) : 0 <= frame -> Z.of_nat (frame_idx frame) = frame_number frame.
Proof. unfold frame_idx, frame_number, FRAME_SIZE. intros. dlia. Qed.

Lemma inv_count_double_free (a : BitmapAllocator) : alloc_inv a -> alloc_inv (count_double_free a).
Proof. intros []. by split. Qed.

Lemma accepts_admissible (a : BitmapAllocator) (frame : Z) :
  0 <= frame -> accepts a frame = true ->
  ~ (GUARD_START a < GUARD_END a /\
     GUARD_START a <= Z.of_nat (frame_idx frame) * FRAME_SIZE < GUARD_END a) ->
  admissible a (frame_idx frame).
Proof.
  intros Hf Ha Hg. unfold accepts in Ha. to_prop. split_and!; [|done| |done].
  - by rewrite frame_idx_number.
  - unfold reserved_frame. rewrite frame_idx_number by done. congruence.
Qed.

Lemma inv_free (a : BitmapAllocator) (frame : Z) :
  alloc_inv a -> 0 <= frame ->
  (accepts a frame = true -> get_bit (BITMAP a) (frame_idx frame) = false ->
   ~ (GUARD_START a < GUARD_END a /\
      GUARD_START a <= Z.of_nat (frame_idx frame) * FRAME_SIZE < GUARD_END a)) ->
  alloc_inv (free a frame).
Proof.
  intros Hinv Hf Hg. rewrite free_cases. destruct (accepts a frame) eqn:Ha; simpl; [|done].
  destruct (get_bit (BITMAP a) _) eqn:Hb; [by apply inv_count_double_free|].
  apply inv_give; [done|done|apply accepts_admissible; auto|]. pose proof (ai_next _ Hinv). lia.
Qed.

Lemma get_bit_free (a : BitmapAllocator) (frame : Z) (j : nat) :
  alloc_inv a -> 0 <= frame ->
  get_bit (BITMAP (free a frame)) j =
    get_bit (BITMAP a) j || (accepts a frame && bool_decide (frame_idx frame = j)).
Proof.
  intros Hinv Hf. rewrite free_cases. destruct (accepts a frame) eqn:Ha; simpl;
    [|by rewrite orb_false_r].
  destruct (get_bit (BITMAP a) (frame_idx frame)) eqn:Hb; simpl.
  - case_bool_decide; [subst; by rewrite Hb|by rewrite orb_false_r].
  - rewrite get_set_bit.
    + case_decide; [rewrite bool_decide_true by done; by rewrite orb_true_r|].
      rewrite bool_decide_false by done. by rewrite orb_false_r.
    + apply idx_in_bitmap; [done|]. unfold accepts in Ha. to_prop.
      by rewrite frame_idx_number.
Qed.

(** ** Evolution

    What no operation gives back: the geometry, the protected page-table
    frames and the reservations. *)
Record evolves (a a' : BitmapAllocator) : Prop := mk_evolves {
  ev_total : total_frames a' = total_frames a;
  ev_valid : max_valid_frame a' = max_valid_frame a;
  ev_ram : max_ram_frame a' = max_ram_frame a;
  ev_gs : GUARD_START a' = GUARD_START a;
  ev_ge : GUARD_END a' = GUARD_END a;
  ev_kpt : forall i, get_bit (KPT a) i = true -> get_bit (KPT a') i = true;
  ev_dma : forall i, reserved_frame a i -> reserved_frame a' i
}.

#[export] Instance evolves_preorder : PreOrder evolves.
Proof.
  split.
  - intros a. by split.
  - intros a b c [] []. split; try congruence; auto.
Qed.

Lemma evolves_with_bits (a : BitmapAllocator) bm f next : evolves a (with_bits a bm f next).
Proof. by split. Qed.

Lemma evolves_reserve (a : BitmapAllocator) (k : nat) (r : Z * Z) :
  position empty_reserve (dma_reserves a) = Some k ->
  evolves a (with_reserves a (<[k := r]> (dma_reserves a))).
Proof. intros Hk. split; try done. intros i Hi. apply reserved_insert; auto. Qed.

Lemma evolves_free (a : BitmapAllocator) (frame : Z) : evolves a (free a frame).
Proof.
  rewrite free_cases. destruct (accepts a frame); simpl; [|reflexivity].
  destruct (get_bit _ _); by split.
Qed.

#[local] Hint Resolve evolves_with_bits evolves_reserve evolves_free : gs.

Lemma dma_arena_cases (a : BitmapAllocator) (n : nat) :
  alloc_inv a ->
  match alloc_dma_arena a n with
  | (a', None) =>
      alloc_inv a' /\ evolves a a' /\ forall j, get_bit (BITMAP a') j = get_bit (BITMAP a) j
  | (a', Some phys) =>
      alloc_inv a' /\ evolves a a' /\
      exists s, phys = Z.of_nat s * FRAME_SIZE /\ run_free (BITMAP a) s n /\
        forall j, get_bit (BITMAP a') j = (if decide (j ∈ seq s n) then false else get_bit (BITMAP a) j) /\
                  (j ∈ seq s n -> reserved_frame a' j)
  end.
Proof.
  intros Hinv. unfold alloc_dma_arena.
  destruct (alloc_contiguous_cases a n Hinv) as [[-> _]|(s & Hn & Hf & ->)]; [by split_and!|].
  pose proof (inv_contiguous a s n Hinv Hf) as Hinv1.
  set (a1 := with_bits _ _ _ _) in *.
  assert (Hbits : forall j, get_bit (BITMAP a1) j = if decide (j ∈ seq s n) then false
                            else get_bit (BITMAP a) j) by (intros; apply get_foldl_clear).
  replace (Z.of_nat s * FRAME_SIZE / FRAME_SIZE) with (Z.of_nat s)
    by (unfold FRAME_SIZE; by rewrite Z.div_mul).
  destruct (position empty_reserve (dma_reserves a1)) as [k|] eqn:Ek.
  - split_and!.
    + apply inv_reserve; [done..|]. intros j Hj. rewrite Hbits, decide_True; [done|].
      apply elem_of_seq. lia.
    + etransitivity; [apply evolves_with_bits|by apply evolves_reserve].
    + exists s. split_and!; [done|done|]. intros j. split; [apply Hbits|].
      intros Hj%elem_of_seq. apply reserved_insert; [done|]. left. unfold in_reserve. simpl.
      repeat (apply andb_true_iff; split); to_prop; try apply negb_true_iff;
        (apply Z.eqb_neq || apply Z.leb_le || apply Z.ltb_lt); lia.
  - rewrite Nat2Z.id. split_and!; [|by etransitivity; apply evolves_with_bits|].
    + pose proof (inv_give_list (seq s n) a1 Hinv1 (NoDup_seq s n)) as H.
      rewrite length_seq in H. apply H. intros i Hi. split.
      * rewrite Hbits, decide_True; done.
      * change (admissible a i). apply free_admissible; [done|]. by apply Hf, elem_of_seq.
    + intros j. cbn [with_bits BITMAP]. rewrite get_foldl_set.
      * case_decide as Hj; [symmetry; by apply Hf, elem_of_seq|].
        rewrite Hbits. by rewrite decide_False.
      * intros i Hi%elem_of_seq. apply idx_in_bitmap; [done|].
        pose proof (ai_free_valid _ Hinv i ltac:(by apply Hf)).
        pose proof (ai_valid _ Hinv). simpl. lia.
Qed.

Definition protect_bit (a : BitmapAllocator) (i : nat) : BitmapAllocator :=
  mkAllocator (BITMAP a) (set_bit (KPT a) i) (free_frames a) (total_frames a) (next_byte a)
    (max_valid_frame a) (max_ram_frame a) (min_ram_frame a) (double_frees a)
    (dma_reserves a) (GUARD_START a) (GUARD_END a).

Lemma inv_protect_bit (a : BitmapAllocator) (i : nat) :
  alloc_inv a -> (i / 8 < length (BITMAP a))%nat -> get_bit (BITMAP a) i = false ->
  alloc_inv (protect_bit a i).
Proof.
  intros [] Hi Hb. split; try done; cbn [protect_bit KPT BITMAP].
  - by rewrite length_set_bit.
  - intros j. rewrite get_set_bit by congruence. case_decide; [by subst|apply ai_kpt0].
Qed.

Lemma mark_pt_cases (a : BitmapAllocator) (phys : Z) :
  alloc_inv a -> 0 <= phys ->
  let a' := mark_pt_frame_used a phys in
  alloc_inv a' /\ evolves a a' /\
  (forall j, get_bit (BITMAP a') j = true -> get_bit (BITMAP a) j = true) /\
  (frame_number phys < max_ram_frame a -> get_bit (KPT a') (frame_idx phys) = true).
Proof.
  intros Hinv Hp. unfold mark_pt_frame_used. fold (frame_number phys).
  destruct (Z.leb_spec (max_ram_frame a) (frame_number phys)) as [?|Hlt].
  { split_and!; [done|reflexivity|done|lia]. }
  fold (frame_idx phys). set (i := frame_idx phys).
  assert (Hi : (i / 8 < length (BITMAP a))%nat)
    by (apply idx_in_bitmap; [done|]; unfold i; by rewrite frame_idx_number).
  assert (Hk : (i / 8 < length (KPT a))%nat) by (by rewrite (ai_kpt_len _ Hinv)).
  destruct (get_bit (BITMAP a) i) eqn:Hb; cbn zeta.
  - split_and!.
    + apply (inv_protect_bit (with_bits a _ _ _)); [by apply inv_take; [..|apply Hinv]| |].
      * cbn. by rewrite length_clear_bit.
      * cbn. by rewrite get_clear_bit, decide_True.
    + split; try done. intros j Hj. cbn. rewrite get_set_bit by done. by case_decide.
    + intros j. cbn. rewrite get_clear_bit. by case_decide.
    + intros _. cbn. by rewrite get_set_bit, decide_True.
  - split_and!.
    + by apply inv_protect_bit.
    + split; try done. intros j Hj. cbn. rewrite get_set_bit by done. by case_decide.
    + done.
    + intros _. cbn. by rewrite get_set_bit, decide_True.
Qed.

(** ** The heap *)

Lemma heap_wf_evolve (F0 : gset nat) (a a' : BitmapAllocator) (O O' : gset nat) :
  heap_wf F0 (mkHeap a O) -> alloc_inv a' -> evolves a a' ->
  (forall i, get_bit (BITMAP a') i = true -> i ∈ F0) ->
  (forall i, i ∈ O' -> i ∈ F0 /\ get_bit (BITMAP a') i = false) ->
  heap_wf F0 (mkHeap a' O').
Proof.
  intros [] Hinv [] Hfree Hown. simpl in *. split; simpl; try done; [congruence|].
  rewrite ev_valid0, ev_gs0, ev_ge0. apply hw_F1.
Qed.

Lemma heap_wf_take (F0 : gset nat) (a a' : BitmapAllocator) (O T : gset nat) :
  heap_wf F0 (mkHeap a O) -> alloc_inv a' -> evolves a a' ->
  (forall i, i ∈ T -> get_bit (BITMAP a) i = true) ->
  (forall i, get_bit (BITMAP a') i = if decide (i ∈ T) then false else get_bit (BITMAP a) i) ->
  heap_wf F0 (mkHeap a' (T ∪ O)).
Proof.
  intros Hwf Hinv Hev HT Hbits. eapply heap_wf_evolve; [done..| |].
  - intros i. rewrite Hbits. case_decide; [done|]. apply Hwf.
  - intros i [Hi|Hi]%elem_of_union; rewrite Hbits.
    + rewrite decide_True by done. split; [|done]. by apply Hwf, HT.
    + destruct (hw_owned _ _ Hwf i Hi) as [? Hb]. simpl in Hb. case_decide; done.
Qed.

Lemma heap_wf_same (F0 : gset nat) (a a' : BitmapAllocator) (O : gset nat) :
  heap_wf F0 (mkHeap a O) -> alloc_inv a' -> evolves a a' ->
  (forall i, get_bit (BITMAP a') i = true -> get_bit (BITMAP a) i = true) ->
  heap_wf F0 (mkHeap a' O).
Proof.
  intros Hwf Hinv Hev Hbits. eapply heap_wf_evolve; [done..| |].
  - intros i Hi. by apply Hwf, Hbits.
  - intros i Hi. destruct (hw_owned _ _ Hwf i Hi) as [? Hb]. split; [done|].
    apply not_true_is_false. intros Ht%Hbits. simpl in *. congruence.
Qed.

Lemma heap_wf_free (F0 : gset nat) (a : BitmapAllocator) (O : gset nat) (frame : Z) :
  heap_wf F0 (mkHeap a O) -> may_free (mkHeap a O) frame ->
  heap_wf F0 (mkHeap (free a frame) (O ∖ {[frame_idx frame]})).
Proof.
  intros Hwf [Hf Hmay]. pose proof (hw_inv _ _ Hwf) as Hinv. simpl in *.
  assert (Hacc : accepts a frame = true -> get_bit (BITMAP a) (frame_idx frame) = false ->
                 frame_idx frame ∈ F0).
  { intros Ha Hb. destruct Hmay as [Ho|[Hv|[Hb'|[Hk|Hr]]]].
    - by apply (hw_owned _ _ Hwf) in Ho as [].
    - unfold accepts in Ha. to_prop. lia.
    - congruence.
    - unfold accepts in Ha. rewrite Hk in Ha. to_prop. done.
    - unfold accepts in Ha. unfold reserved_frame in Hr.
      rewrite frame_idx_number in Hr by done. rewrite Hr in Ha. to_prop. done. }
  eapply heap_wf_evolve; [done| |apply evolves_free| |].
  - apply inv_free; [done..|]. intros Ha Hb. by apply (hw_F0 _ _ Hwf), Hacc.
  - intros i. rewrite get_bit_free by done. intros [Hi|Hi]%orb_true_iff; [by apply Hwf|].
    apply andb_true_iff in Hi as [Ha <-%bool_decide_eq_true].
    destruct (get_bit (BITMAP a) (frame_idx frame)) eqn:Hb; [by apply Hwf|auto].
  - intros i [Hi Hne]%elem_of_difference. destruct (hw_owned _ _ Hwf i Hi) as [? Hb].
    split; [done|]. simpl in Hb. rewrite get_bit_free, Hb by done. simpl.
    rewrite bool_decide_false by set_solver. by rewrite andb_false_r.
Qed.

Lemma contiguous_wf (F0 : gset nat) (a : BitmapAllocator) (O : gset nat) (s n : nat) :
  heap_wf F0 (mkHeap a O) -> run_free (BITMAP a) s n ->
  heap_wf F0 (mkHeap (with_bits a (foldl clear_bit (BITMAP a) (seq s n))
                        (free_frames a - Z.of_nat n) (next_byte a)) (set_seq s n ∪ O)).
Proof.
  intros Hwf Hf. pose proof (hw_inv _ _ Hwf) as Hinv. simpl in Hinv.
  apply (heap_wf_take F0 a); auto with gs.
  - by apply inv_contiguous.
  - intros i Hi%elem_of_set_seq. by apply Hf.
  - intros i. cbn. rewrite get_foldl_clear. repeat case_decide; try done;
      rewrite elem_of_set_seq, elem_of_seq in *; lia.
Qed.

Lemma heap_step_wf (F0 : gset nat) (h h' : heap) :
  heap_wf F0 h -> heap_step h h' -> heap_wf F0 h' /\ evolves (h_alloc h) (h_alloc h').
Proof.
  intros Hwf Hstep. pose proof (hw_inv _ _ Hwf) as Hinv. destruct Hstep; simpl in Hinv.
  - destruct (alloc_cases a Hinv) as [[E _]|(i & next & Hb & Hn & E)]; rewrite E in H; simplify_eq.
    split; [|simpl; auto with gs]. rewrite frame_idx_mul. eapply heap_wf_take; eauto with gs.
    + by apply inv_take.
    + by intros j ->%elem_of_singleton.
    + intros j. cbn. rewrite get_clear_bit. repeat case_decide; set_solver.
  - destruct (alloc_cases a Hinv) as [[E _]|(i & next & Hb & Hn & E)]; rewrite E in H; simplify_eq. done.
  - destruct (alloc_contiguous_cases a n Hinv) as [[E _]|(s & Hn & Hf & E)]; rewrite E in H; simplify_eq.
    rewrite frame_idx_mul. split; [by apply contiguous_wf|simpl; auto with gs].
  - destruct (alloc_contiguous_cases a n Hinv) as [[E _]|(s & Hn & Hf & E)]; rewrite E in H; simplify_eq. done.
  - pose proof (dma_arena_cases a n Hinv) as Hc. rewrite H in Hc.
    destruct Hc as (Hi & He & s & -> & Hf & Hbits). rewrite frame_idx_mul. split; [|done].
    eapply heap_wf_take; [done..| |].
    + intros i Hs%elem_of_set_seq. by apply Hf.
    + intros i. destruct (Hbits i) as [-> _]. repeat case_decide; try done;
        rewrite elem_of_set_seq, elem_of_seq in *; lia.
  - pose proof (dma_arena_cases a n Hinv) as Hc. rewrite H in Hc.
    destruct Hc as (Hi & He & Hbits). split; [|done]. eapply heap_wf_same; [done..|].
    intros i. by rewrite Hbits.
  - split; [by apply heap_wf_free|apply evolves_free].
  - unfold reserve_no_free in *. split_match; try (by split).
    split; [|simpl; auto with gs]. eapply heap_wf_same; [done| |by apply evolves_reserve|done].
    by apply inv_reserve.
  - pose proof (mark_pt_cases a phys Hinv ltac:(done)) as (Hi & He & Hb & _). split; [|done].
    by eapply heap_wf_same.
Qed.

Lemma heap_steps_wf (F0 : gset nat) (h h' : heap) :
  heap_wf F0 h -> rtc heap_step h h' -> heap_wf F0 h' /\ evolves (h_alloc h) (h_alloc h').
Proof.
  intros Hwf Hs. induction Hs as [h|h1 h2 h3 H1 _ IH]; [split; [done|reflexivity]|].
  destruct (heap_step_wf _ _ _ Hwf H1) as [Hwf2 He1]. destruct (IH Hwf2) as [? He2].
  split; [done|]. by etransitivity.
Qed.

(** The free frames, as a set. *)
Lemma popcount_le (bm : list Z) (F0 : gset nat) :
  (forall i, get_bit bm i = true -> i ∈ F0) -> (popcount bm <= size F0)%nat.
Proof.
  intros H. unfold popcount, count.
  set (l := List.filter _ _).
  assert (NoDup l) as Hnd by (apply NoDup_ListNoDup, List.NoDup_filter, NoDup_ListNoDup, NoDup_seq).
  rewrite <- (size_list_to_set (C := gset nat) l Hnd). apply subseteq_size.
  intros i Hi%elem_of_list_to_set. apply H. unfold l in Hi.
  by apply list_elem_of_In, filter_In in Hi as [_ Hi].
Qed.

(** ** Initialisation *)

Lemma align_down_eq (x : Z) : Z.land x (Z.lnot (FRAME_SIZE - 1)) = x / FRAME_SIZE * FRAME_SIZE.
Proof.
  change (FRAME_SIZE - 1) with (Z.ones 12). rewrite <- Z.ldiff_land, Z.ldiff_ones_r by lia.
  rewrite Z.shiftl_mul_pow2, Z.shiftr_div_pow2 by lia. done.
Qed.

Lemma region_start_eq (r : MemoryRegion) :
  region_fits r = true -> region_start r = (base r + FRAME_SIZE - 1) / FRAME_SIZE * FRAME_SIZE.
Proof.
  intros H. unfold region_fits in H. to_prop. unfold region_start, frame_align_up.
  rewrite align_down_eq, wrap64_small; [done|]. unfold FRAME_SIZE in *. lia.
Qed.

Lemma region_end_eq (r : MemoryRegion) :
  region_fits r = true -> region_end r = (base r + len r) / FRAME_SIZE * FRAME_SIZE.
Proof.
  intros H. unfold region_fits in H. to_prop. unfold region_end, frame_align_down.
  rewrite align_down_eq, wrap64_small; [done|]. unfold FRAME_SIZE in *. lia.
Qed.

(** The frames pass 2 visits in a region. *)
Definition region_list (cap : Z) (r : MemoryRegion) : list nat :=
  if negb (is_usable (kind r)) then []
  else if region_end r <=? region_start r then []
  else seq (Z.to_nat (region_start r / FRAME_SIZE))
         (Z.to_nat (Z.min (region_end r / FRAME_SIZE) cap - region_start r / FRAME_SIZE)).

Lemma region_list_inside (cap : Z) (r : MemoryRegion) (i : nat) :
  region_fits r = true -> i ∈ region_list cap r <-> inside r i /\ Z.of_nat i < cap.
Proof.
  intros Hf. unfold region_list, inside. rewrite region_start_eq, region_end_eq by done.
  unfold region_fits in Hf. to_prop. unfold FRAME_SIZE in *.
  destruct (is_usable (kind r)); simpl; [|split; [set_solver|naive_solver]].
  destruct (Z.leb_spec ((base r + len r) / 4096 * 4096) ((base r + 4096 - 1) / 4096 * 4096)).
  - split; [set_solver|]. intros ((_ & ? & ?) & ?). exfalso. dlia.
  - rewrite elem_of_seq, !Z.div_mul by lia. split.
    + intros Hi. split_and!; [done|dlia..].
    + intros ((_ & ? & ?) & ?). dlia.
Qed.

Lemma NoDup_region_list (cap : Z) (r : MemoryRegion) : NoDup (region_list cap r).
Proof. unfold region_list. repeat case_match; (apply NoDup_nil_2 || apply NoDup_seq). Qed.

Lemma apart_disjoint (r1 r2 : MemoryRegion) (i : nat) :
  apart r1 r2 = true -> inside r1 i -> inside r2 i -> False.
Proof.
  unfold apart, inside, FRAME_SIZE. intros Ha (U1 & ? & ?) (U2 & ? & ?). rewrite U1, U2 in Ha.
  rewrite !orb_false_r in Ha. apply orb_true_iff in Ha as [?%Z.leb_le|?%Z.leb_le]; lia.
Qed.

Definition all_frames (cap : Z) (l : list MemoryRegion) : list nat := concat (region_list cap <$> l).

Lemma all_frames_elem (cap : Z) (l : list MemoryRegion) (i : nat) :
  forallb region_fits l = true ->
  i ∈ all_frames cap l <-> (exists r, r ∈ l /\ inside r i) /\ Z.of_nat i < cap.
Proof.
  unfold all_frames. induction l as [|r l IH]; intros Hf; simpl in *.
  - split; [set_solver|]. intros [(r & Hr & _) _]. set_solver.
  - apply andb_true_iff in Hf as [Hr Hl].
    rewrite elem_of_app, region_list_inside, IH by done. split.
    + intros [[Hi ?]|[(r' & ? & ?) ?]]; (split; [|done]); [exists r|exists r']; set_solver.
    + intros [(r' & [->|Hr']%elem_of_cons & Hi) ?]; [by left|right]. eauto.
Qed.

Lemma NoDup_all_frames (cap : Z) (l : list MemoryRegion) :
  forallb region_fits l = true -> regions_disjoint l = true -> NoDup (all_frames cap l).
Proof.
  induction l as [|r l IH]; intros Hf Hd; [apply NoDup_nil_2|].
  simpl in Hf, Hd. apply andb_true_iff in Hf as [Hr Hl], Hd as [Ha Hd].
  unfold all_frames. cbn [fmap list_fmap concat]. fold (all_frames cap l).
  apply NoDup_app. split_and!; [apply NoDup_region_list| |by apply IH].
  intros i Hi. rewrite all_frames_elem by done. intros [(r' & Hr' & Hi') _].
  apply region_list_inside in Hi as [Hi _]; [|done].
  rewrite forallb_forall in Ha. eapply apart_disjoint; [|exact Hi|exact Hi'].
  by apply Ha, list_elem_of_In.
Qed.

(** Whole frames in a usable region. *)
Definition region_frames (r : MemoryRegion) : Z :=
  (base r + len r) / FRAME_SIZE - (base r + FRAME_SIZE - 1) / FRAME_SIZE.

Record survey_le (s s' : survey) : Prop := mk_survey_le {
  sl_ram : sv_max_ram s <= sv_max_ram s';
  sl_valid : sv_max_valid s <= sv_max_valid s';
  sl_len : sv_largest_len s <= sv_largest_len s'
}.

#[export] Instance survey_le_preorder : PreOrder survey_le.
Proof. split; [intros s; split; lia|]. intros s t u [] []. split; lia. Qed.

(** The largest region recorded is a usable region of [l]. *)
Definition largest_in (l : list MemoryRegion) (s : survey) : Prop :=
  sv_largest_len s = 0 /\ sv_largest_start s = 0 \/
  exists r, r ∈ l /\ is_usable (kind r) = true /\ region_fits r = true /\
    sv_largest_start s = region_start r /\ sv_largest_len s = region_end r - region_start r.

Lemma survey_region_spec (s : survey) (r : MemoryRegion) :
  region_fits r = true -> 0 <= sv_max_valid s <= sv_max_ram s ->
  let s' := survey_region s r in
  survey_le s s' /\ sv_max_valid s' <= sv_max_ram s' /\
  (forall i, inside r i -> Z.of_nat i < sv_max_valid s') /\
  (is_usable (kind r) = true -> region_frames r * FRAME_SIZE <= Z.max 0 (sv_largest_len s')) /\
  (sv_largest_len s' = sv_largest_len s /\ sv_largest_start s' = sv_largest_start s \/
   is_usable (kind r) = true /\ sv_largest_start s' = region_start r /\
   sv_largest_len s' = region_end r - region_start r).
Proof.
  intros Hf Hs s'. unfold s', survey_region, inside, region_frames.
  rewrite region_start_eq, region_end_eq by done.
  unfold region_fits in Hf. to_prop. unfold FRAME_SIZE in *.
  assert (Hu : is_usable (kind r) = true -> is_ram (kind r) = true)
    by (unfold is_usable, is_ram; by destruct (kind r)).
  destruct (is_usable (kind r)); [rewrite Hu by done|].
  - rewrite wrap64_small by (unfold u64_max in *; lia). cbn [negb].
    destruct (Z.leb_spec ((base r + len r) / 4096 * 4096) ((base r + 4096 - 1) / 4096 * 4096));
      cbn [sv_max_ram sv_min_ram sv_max_valid sv_largest_start sv_largest_len].
    + split_and!; [split; simpl; try case_match; to_prop; lia|case_match; to_prop; lia
        |intros i (_ & ? & ?); exfalso; dlia|intros _; lia|by left].
    + rewrite Z.div_mul by lia. split_and!.
      * split; simpl; case_match; to_prop; lia.
      * repeat case_match; to_prop; dlia.
      * intros i (_ & ? & ?). case_match; to_prop; dlia.
      * intros _. case_match; to_prop; lia.
      * case_match; [right|left]; done.
  - cbn [negb]. split_and!; try (destruct (is_ram (kind r)); simpl; try case_match; to_prop; lia);
      try naive_solver; destruct (is_ram (kind r)); try (split; simpl; try case_match; to_prop; lia);
      by left.
Qed.

Lemma survey_fold_spec (l : list MemoryRegion) (s : survey) (seen : list MemoryRegion) :
  forallb region_fits l = true -> 0 <= sv_max_valid s <= sv_max_ram s -> largest_in seen s ->
  let s' := foldl survey_region s l in
  survey_le s s' /\ sv_max_valid s' <= sv_max_ram s' /\
  (forall r i, r ∈ l -> inside r i -> Z.of_nat i < sv_max_valid s') /\
  (forall r, r ∈ l -> is_usable (kind r) = true ->
     region_frames r * FRAME_SIZE <= Z.max 0 (sv_largest_len s')) /\
  largest_in (seen ++ l) s'.
Proof.
  revert s seen. induction l as [|r l IH]; intros s seen Hf Hs Hseen; cbn [foldl].
  - rewrite app_nil_r. split_and!; [reflexivity|lia|set_solver|set_solver|done].
  - simpl in Hf. apply andb_true_iff in Hf as [Hr Hl].
    destruct (survey_region_spec s r Hr Hs) as (Hle & Hv & Hcov & Hbig & Hlar).
    destruct (IH (survey_region s r) (seen ++ [r]) Hl) as (Hle' & Hv' & Hcov' & Hbig' & Hlar').
    + destruct Hle. lia.
    + destruct Hlar as [[E1 E2]|(Hu & E1 & E2)].
      * destruct Hseen as [?|(r' & Hr' & ?)]; [left; by rewrite E1, E2|right].
        exists r'. rewrite E1, E2. set_solver.
      * right. exists r. split_and!; [set_solver|done..].
    + rewrite <- app_assoc in Hlar'. split_and!; [by etransitivity|done| | |done].
      * intros r' i [->|Hr']%elem_of_cons Hi; [|eauto].
        apply Hcov in Hi. destruct Hle'. lia.
      * intros r' [->|Hr']%elem_of_cons Hu; [|eauto].
        specialize (Hbig Hu). destruct Hle'. lia.
Qed.

Definition skipped (kstart kend carve_first carve_last : Z) (i : nat) : bool :=
  (kstart <? kend) && (kstart <=? Z.of_nat i * FRAME_SIZE) && (Z.of_nat i * FRAME_SIZE <? kend) ||
  (carve_first <=? Z.of_nat i) && (Z.of_nat i <? carve_last).

Lemma open_frames_eq (ks ke cf cl : Z) (L : list nat) (a : BitmapAllocator) :
  let L' := List.filter (fun i => negb (skipped ks ke cf cl i)) L in
  foldl (open_frame ks ke cf cl) a L =
  with_bits a (foldl set_bit (BITMAP a) L') (free_frames a + Z.of_nat (length L')) (next_byte a).
Proof.
  revert a. induction L as [|i L IH]; intros a; simpl.
  - rewrite Z.add_0_r. by destruct a.
  - rewrite IH. unfold open_frame, skipped.
    destruct ((ks <? ke) && _ && _); simpl; [done|].
    destruct ((cf <=? Z.of_nat i) && _); simpl; [done|]. f_equal. lia.
Qed.

Lemma open_regions_eq (ks ke cf cl cap : Z) (l : list MemoryRegion) (a : BitmapAllocator) :
  foldl (open_region ks ke cf cl cap) a l = foldl (open_frame ks ke cf cl) a (all_frames cap l).
Proof.
  revert a. induction l as [|r l IH]; intros a; [done|].
  cbn [foldl]. rewrite IH. unfold all_frames. cbn [fmap list_fmap concat].
  rewrite foldl_app. f_equal. unfold open_region, region_list. by repeat case_match.
Qed.

Lemma get_bit_zeroed (n i : nat) : get_bit (replicate n 0) i = false.
Proof.
  rewrite get_bit_testbit. destruct (replicate n 0 !! _) eqn:E; simpl; [|apply Z.bits_0].
  apply lookup_replicate in E as [-> _]. apply Z.bits_0.
Qed.

(** The allocator after pass 1: both bitmaps zeroed, nothing free. *)
Definition closed_alloc (boot : BootInfo) (s : survey) : BitmapAllocator :=
  let zeroed := replicate (Z.to_nat ((sv_max_ram s + 7) / 8)) 0 in
  mkAllocator zeroed zeroed 0 0 0 (sv_max_valid s) (sv_max_ram s) (sv_min_ram s) 0
    (replicate MAX_DMA_RESERVES (0, 0)) (kernel_phys_start boot) (kernel_phys_end boot).

Lemma closed_not_reserved (boot : BootInfo) (s : survey) (i : nat) :
  ~ reserved_frame (closed_alloc boot s) i.
Proof. unfold reserved_frame. by vm_compute. Qed.

Lemma closed_inv (boot : BootInfo) (s : survey) :
  0 <= sv_max_valid s <= sv_max_ram s -> alloc_inv (closed_alloc boot s).
Proof.
  intros Hs. split; cbn [closed_alloc BITMAP KPT free_frames next_byte max_valid_frame max_ram_frame].
  - by rewrite length_replicate.
  - done.
  - intros i b [-> _]%lookup_replicate. unfold u8_max. lia.
  - assert (popcount (replicate (Z.to_nat ((sv_max_ram s + 7) / 8)) 0) = 0%nat) as ->; [|done].
    apply popcount_zero. intros. apply get_bit_zeroed.
  - lia.
  - done.
  - intros i. by rewrite get_bit_zeroed.
  - intros i. by rewrite get_bit_zeroed.
  - intros i Hi. by apply closed_not_reserved in Hi.
  - intros i. by rewrite get_bit_zeroed.
Qed.

Definition opened (boot : BootInfo) (s : survey) : list nat :=
  let carve_last := (sv_largest_start s + sv_largest_len s) / FRAME_SIZE in
  List.filter (fun i => negb (skipped (kernel_phys_start boot) (kernel_phys_end boot)
                 (carve_last - bitmap_frames (sv_max_ram s)) carve_last i))
    (all_frames (sv_max_ram s) (memory_map boot)).

Definition boot_alloc (boot : BootInfo) (s : survey) : BitmapAllocator :=
  let a := closed_alloc boot s in
  let n := Z.of_nat (length (opened boot s)) in
  mkAllocator (foldl set_bit (BITMAP a) (opened boot s)) (KPT a) n n 0 (sv_max_valid s)
    (sv_max_ram s) (sv_min_ram s) 0 (dma_reserves a) (GUARD_START a) (GUARD_END a).

Definition boot_survey (boot : BootInfo) : survey := survey_map allocator_new (memory_map boot).

Lemma allocator_init_eq (pid : bool) (boot : BootInfo) :
  let s := boot_survey boot in
  hhdm_offset boot <> 0 \/ pid = true ->
  bitmap_frames (sv_max_ram s) <= sv_largest_len s / FRAME_SIZE ->
  allocator_init pid boot = Done (boot_alloc boot s).
Proof.
  intros s Hh Hfit. unfold allocator_init, init_from_map.
  assert ((hhdm_offset boot =? 0) && negb pid = false) as ->.
  { destruct Hh as [?| ->]; [|by rewrite andb_false_r].
    apply andb_false_iff. left. by apply Z.eqb_neq. }
  change (survey_map _ (memory_map boot)) with s.
  fold (bitmap_frames (sv_max_ram s)).
  destruct (Z.ltb_spec (sv_largest_len s / FRAME_SIZE) (bitmap_frames (sv_max_ram s))); [lia|].
  rewrite open_regions_eq, open_frames_eq. done.
Qed.

Lemma opened_elem (boot : BootInfo) (s : survey) (i : nat) :
  forallb region_fits (memory_map boot) = true ->
  let carve_last := (sv_largest_start s + sv_largest_len s) / FRAME_SIZE in
  i ∈ opened boot s <->
  ((exists r, r ∈ memory_map boot /\ inside r i) /\ Z.of_nat i < sv_max_ram s) /\
  ~ in_kernel boot i /\
  ~ (carve_last - bitmap_frames (sv_max_ram s) <= Z.of_nat i < carve_last).
Proof.
  intros Hf cl. unfold opened. fold cl.
  rewrite list_elem_of_In, filter_In, <- list_elem_of_In, all_frames_elem by done.
  apply and_iff_compat_l. rewrite negb_true_iff. unfold skipped, in_kernel.
  rewrite orb_false_iff, <- !not_true_iff_false, !andb_true_iff, !Z.ltb_lt, !Z.leb_le. tauto.
Qed.

Lemma boot_alloc_bits (boot : BootInfo) (i : nat) (s := boot_survey boot) :
  0 <= sv_max_valid s <= sv_max_ram s ->
  forallb region_fits (memory_map boot) = true ->
  get_bit (BITMAP (boot_alloc boot s)) i = bool_decide (i ∈ opened boot s).
Proof.
  intros Hs Hf. unfold boot_alloc. cbn [BITMAP]. rewrite get_foldl_set.
  - case_decide; [by rewrite bool_decide_true|]. rewrite bool_decide_false by done.
    apply get_bit_zeroed.
  - intros j Hj%opened_elem; [|done]. apply idx_in_bitmap; [by apply closed_inv|]. apply Hj.
Qed.

Lemma boot_alloc_wf (boot : BootInfo) (s := boot_survey boot) :
  forallb region_fits (memory_map boot) = true -> regions_disjoint (memory_map boot) = true ->
  0 <= sv_max_valid s <= sv_max_ram s ->
  (forall r i, r ∈ memory_map boot -> inside r i -> Z.of_nat i < sv_max_valid s) ->
  NoDup (opened boot s) /\ heap_wf (list_to_set (opened boot s)) (mkHeap (boot_alloc boot s) ∅).
Proof.
  intros Hf Hd Hs Hcov.
  assert (Hnd : NoDup (opened boot s))
    by (apply NoDup_ListNoDup, List.NoDup_filter, NoDup_ListNoDup; by apply NoDup_all_frames).
  assert (Hval : forall i, i ∈ opened boot s -> Z.of_nat i < sv_max_valid s /\ ~ in_kernel boot i).
  { intros i [[(r & Hr & Hi) _] [Hk _]]%opened_elem; [|done]. split; [by eapply Hcov|done]. }
  split; [done|]. split; cbn [h_alloc h_owned].
  - pose proof (inv_give_list (opened boot s) (closed_alloc boot s) (closed_inv boot s Hs) Hnd) as H.
    destruct H.
    + intros i Hi. split; [apply get_bit_zeroed|]. destruct (Hval i Hi) as [? Hk].
      split_and!; [done|apply get_bit_zeroed|apply closed_not_reserved|exact Hk].
    + by split.
  - by rewrite size_list_to_set.
  - intros i. rewrite boot_alloc_bits by done.
    intros Hi%bool_decide_eq_true. by apply elem_of_list_to_set.
  - set_solver.
  - intros i Hi%elem_of_list_to_set. by apply Hval.
Qed.

Lemma boot_survey_spec (boot : BootInfo) (s := boot_survey boot) :
  forallb region_fits (memory_map boot) = true ->
  0 <= sv_max_valid s <= sv_max_ram s /\
  (forall r i, r ∈ memory_map boot -> inside r i -> Z.of_nat i < sv_max_valid s) /\
  (forall r, r ∈ memory_map boot -> is_usable (kind r) = true ->
     region_frames r * FRAME_SIZE <= Z.max 0 (sv_largest_len s)) /\
  0 <= sv_largest_len s /\ largest_in (memory_map boot) s.
Proof.
  intros Hf.
  pose proof (survey_fold_spec (memory_map boot) (mkSurvey 0 u64_max 0 0 0) [] Hf) as H.
  change (foldl survey_region _ _) with s in H. cbv zeta in H.
  destruct H as ([] & Hv & Hcov & Hlen & Hlar); [done|by left|].
  cbn [sv_max_ram sv_max_valid sv_largest_len] in *. split_and!; try done; lia.
Qed.

Lemma carve_inside (boot : BootInfo) (s : survey) (i : nat) :
  largest_in (memory_map boot) s ->
  bitmap_frames (sv_max_ram s) <= sv_largest_len s / FRAME_SIZE ->
  let carve_last := (sv_largest_start s + sv_largest_len s) / FRAME_SIZE in
  carve_last - bitmap_frames (sv_max_ram s) <= Z.of_nat i < carve_last ->
  exists r, r ∈ memory_map boot /\ inside r i.
Proof.
  intros [[E1 E2]|(r & Hr & Hu & Hf & E1 & E2)] Hfit cl Hi.
  - unfold cl in Hi. rewrite E1, E2 in *. unfold FRAME_SIZE in *. dlia.
  - exists r. split; [done|]. unfold inside, cl in *. split; [done|].
    rewrite E1, E2 in *. rewrite region_start_eq, region_end_eq in * by done.
    unfold FRAME_SIZE in *. dlia.
Qed.

(** ** The page-table walk *)

(** The state after some frames were protected. *)
Record walked (a a' : BitmapAllocator) : Prop := mk_walked {
  wk_inv : alloc_inv a';
  wk_evolves : evolves a a';
  wk_free : forall j, get_bit (BITMAP a') j = true -> get_bit (BITMAP a) j = true
}.

Lemma walked_refl (a : BitmapAllocator) : alloc_inv a -> walked a a.
Proof. split; [done|reflexivity|done]. Qed.

Lemma walked_trans (a b c : BitmapAllocator) : walked a b -> walked b c -> walked a c.
Proof. intros [] []. split; [done|by etransitivity|auto]. Qed.

Lemma walked_mark (a : BitmapAllocator) (phys : Z) :
  alloc_inv a -> 0 <= phys -> walked a (mark_pt_frame_used a phys).
Proof. intros Hi Hp. destruct (mark_pt_cases a phys Hi Hp) as (? & ? & ? & _). by split. Qed.

Lemma walked_fold (f : BitmapAllocator -> nat -> BitmapAllocator) (l : list nat) (a : BitmapAllocator) :
  (forall b i, alloc_inv b -> walked b (f b i)) -> alloc_inv a -> walked a (foldl f a l).
Proof.
  intros Hf. revert a. induction l as [|i l IH]; intros a Ha; simpl; [by apply walked_refl|].
  eapply walked_trans; [by apply Hf|]. apply IH, Hf, Ha.
Qed.

Lemma walked_fold_at (f : BitmapAllocator -> nat -> BitmapAllocator) (l : list nat)
    (a : BitmapAllocator) (i : nat) :
  (forall b i, alloc_inv b -> walked b (f b i)) -> alloc_inv a -> i ∈ l ->
  exists b, walked a b /\ walked (f b i) (foldl f a l).
Proof.
  intros Hf Ha (l1 & l2 & ->)%list_elem_of_split. rewrite foldl_app. simpl.
  exists (foldl f a l1). pose proof (walked_fold f l1 a Hf Ha) as W1. split; [done|].
  apply walked_fold; [done|]. apply Hf, W1.
Qed.

Lemma entry_phys_nonneg (e : Z) : 0 <= entry_phys e.
Proof. apply Z.land_nonneg. by right. Qed.

Definition protected (a : BitmapAllocator) (phys : Z) : Prop :=
  frame_number phys < max_ram_frame a -> get_bit (KPT a) (frame_idx phys) = true.

Lemma protected_walked (a a' : BitmapAllocator) (phys : Z) :
  walked a a' -> protected a phys -> protected a' phys.
Proof. intros [_ [] _] Hp Hlt. apply ev_kpt0, Hp. by rewrite <- ev_ram0. Qed.

Lemma mark_protected (a : BitmapAllocator) (phys : Z) :
  alloc_inv a -> 0 <= phys -> protected (mark_pt_frame_used a phys) phys.
Proof.
  intros Hi Hp Hlt. destruct (mark_pt_cases a phys Hi Hp) as (_ & [] & _ & Hk).
  apply Hk. by rewrite <- ev_ram0.
Qed.

#[local] Hint Resolve walked_refl walked_mark entry_phys_nonneg mark_protected wk_inv : gs.

Lemma protect_pde_walked pt_read (pd : Z) (b : BitmapAllocator) (i : nat) :
  alloc_inv b -> walked b (protect_pde pt_read pd b i).
Proof. intros Hb. unfold protect_pde. cbv zeta. repeat case_match; auto with gs. Qed.

Lemma protect_pd_walked pt_read (a : BitmapAllocator) (pd : Z) :
  alloc_inv a -> walked a (protect_pd pt_read a pd).
Proof. apply walked_fold. intros. by apply protect_pde_walked. Qed.

Lemma protect_pdpte_walked pt_read (pdpt : Z) (b : BitmapAllocator) (i : nat) :
  alloc_inv b -> walked b (protect_pdpte pt_read pdpt b i).
Proof.
  intros Hb. unfold protect_pdpte. cbv zeta. repeat case_match; auto with gs.
  eapply walked_trans; [apply walked_mark|apply protect_pd_walked]; eauto with gs.
Qed.

Lemma protect_pdpt_walked pt_read (a : BitmapAllocator) (pdpt : Z) :
  alloc_inv a -> walked a (protect_pdpt pt_read a pdpt).
Proof. apply walked_fold. intros. by apply protect_pdpte_walked. Qed.

Lemma protect_pml4e_walked pt_read (pml4 : Z) (b : BitmapAllocator) (i : nat) :
  alloc_inv b -> walked b (protect_pml4e pt_read pml4 b i).
Proof.
  intros Hb. unfold protect_pml4e. cbv zeta. repeat case_match; auto with gs.
  eapply walked_trans; [apply walked_mark|apply protect_pdpt_walked]; eauto with gs.
Qed.

#[local] Hint Resolve protect_pde_walked protect_pdpte_walked protect_pml4e_walked
  protect_pd_walked protect_pdpt_walked : gs.

Lemma protect_pd_reaches pt_read (a : BitmapAllocator) (pd : Z) (k : nat) :
  alloc_inv a -> (k < 512)%nat ->
  entry_present (pt_read pd k) = true -> entry_huge (pt_read pd k) = false ->
  protected (protect_pd pt_read a pd) (entry_phys (pt_read pd k)).
Proof.
  intros Ha Hk Hp Hh.
  destruct (walked_fold_at (protect_pde pt_read pd) (seq 0 512) a k) as (b & Wb & W);
    [auto with gs|done|apply elem_of_seq; lia|].
  eapply protected_walked; [exact W|]. unfold protect_pde. rewrite Hp, Hh. cbn [negb].
  apply mark_protected; eauto with gs.
Qed.

Lemma protect_pdpt_reaches pt_read (a : BitmapAllocator) (pdpt : Z) (j : nat) (phys : Z) :
  alloc_inv a -> (j < 512)%nat ->
  entry_present (pt_read pdpt j) = true -> entry_huge (pt_read pdpt j) = false ->
  (forall b, alloc_inv b ->
     protected (protect_pd pt_read (mark_pt_frame_used b (entry_phys (pt_read pdpt j)))
                  (entry_phys (pt_read pdpt j))) phys) ->
  protected (protect_pdpt pt_read a pdpt) phys.
Proof.
  intros Ha Hj Hp Hh Hin.
  destruct (walked_fold_at (protect_pdpte pt_read pdpt) (seq 0 512) a j) as (b & Wb & W);
    [auto with gs|done|apply elem_of_seq; lia|].
  eapply protected_walked; [exact W|]. unfold protect_pdpte. rewrite Hp, Hh. cbn [negb].
  apply Hin, Wb.
Qed.

Lemma protect_pml4_reaches pt_read (a : BitmapAllocator) (pml4 : Z) (i : nat) (phys : Z) :
  alloc_inv a -> (256 <= i < 512)%nat -> entry_present (pt_read pml4 i) = true ->
  (forall b, alloc_inv b ->
     protected (protect_pdpt pt_read (mark_pt_frame_used b (entry_phys (pt_read pml4 i)))
                  (entry_phys (pt_read pml4 i))) phys) ->
  protected (foldl (protect_pml4e pt_read pml4) a (seq 256 256)) phys.
Proof.
  intros Ha Hi Hp Hin.
  destruct (walked_fold_at (protect_pml4e pt_read pml4) (seq 256 256) a i) as (b & Wb & W);
    [auto with gs|done|apply elem_of_seq; lia|].
  eapply protected_walked; [exact W|]. unfold protect_pml4e. rewrite Hp. cbn [negb].
  apply Hin, Wb.
Qed.

Lemma mark_inv (a : BitmapAllocator) (e : Z) :
  alloc_inv a -> alloc_inv (mark_pt_frame_used a (entry_phys e)).
Proof. intros Ha. apply (walked_mark a); auto with gs. Qed.

Lemma protect_pd_self pt_read (b : BitmapAllocator) (e : Z) :
  alloc_inv b ->
  protected (protect_pd pt_read (mark_pt_frame_used b (entry_phys e)) (entry_phys e)) (entry_phys e).
Proof.
  intros Hb. eapply protected_walked; [by apply protect_pd_walked, mark_inv|].
  apply mark_protected; auto with gs.
Qed.

Lemma protect_pdpt_self pt_read (b : BitmapAllocator) (e : Z) :
  alloc_inv b ->
  protected (protect_pdpt pt_read (mark_pt_frame_used b (entry_phys e)) (entry_phys e)) (entry_phys e).
Proof.
  intros Hb. eapply protected_walked; [by apply protect_pdpt_walked, mark_inv|].
  apply mark_protected; auto with gs.
Qed.

Lemma protect_walk pt_read (hhdm ptb : Z) (a : BitmapAllocator)
    (a' := protect_kernel_page_table_frames pt_read true hhdm ptb a) :
  alloc_inv a -> 0 <= ptb -> hhdm <> 0 ->
  walked a a' /\
  forall phys, table_frame pt_read (Z.land ptb (Z.lnot 0xFFF)) phys -> 0 <= phys /\ protected a' phys.
Proof.
  intros Ha Hp Hh. unfold a', protect_kernel_page_table_frames. cbn [negb].
  apply Z.eqb_neq in Hh. rewrite Hh. set (pml4 := Z.land ptb (Z.lnot 0xFFF)).
  assert (H4 : 0 <= pml4) by (apply Z.land_nonneg; by left).
  assert (Hm : alloc_inv (mark_pt_frame_used a pml4)) by eauto with gs.
  assert (W0 : walked (mark_pt_frame_used a pml4)
                 (foldl (protect_pml4e pt_read pml4) (mark_pt_frame_used a pml4) (seq 256 256)))
    by (apply walked_fold; auto with gs).
  split; [eapply walked_trans; [by apply walked_mark|exact W0]|].
  intros phys Ht. split; [destruct Ht; auto using entry_phys_nonneg|].
  destruct Ht as [|i Hi P1|i j pdpt Hi P1 Hj P2 U2|i j k pdpt pd Hi P1 Hj P2 U2 Hk P3 U3].
  - eapply protected_walked; [exact W0|]. by apply mark_protected.
  - apply (protect_pml4_reaches pt_read _ _ i); [done..|]. intros b Hb. by apply protect_pdpt_self.
  - apply (protect_pml4_reaches pt_read _ _ i); [done..|]. intros b Hb.
    apply (protect_pdpt_reaches pt_read _ _ j); [by apply mark_inv|done..|]. intros c Hc. by apply protect_pd_self.
  - apply (protect_pml4_reaches pt_read _ _ i); [done..|]. intros b Hb.
    apply (protect_pdpt_reaches pt_read _ _ j); [by apply mark_inv|done..|]. intros c Hc.
    apply (protect_pd_reaches pt_read _ _ k); [by apply mark_inv|done..].
Qed.

End FrameFacts.
Import FrameFacts.

(** ** Properties *)

(** Boot opens exactly the right frames.  For a memory map whose regions
    fit the address space and whose usable regions do not overlap, with one
    usable region large enough for the bitmaps, [allocator::init] succeeds;
    a frame is free afterwards exactly when it lies wholly inside a usable
    region, outside the kernel image and outside the frames [[cf, cl)] carved
    for the two bitmaps; the carved frames are usable RAM and hold both
    bitmaps; and the free count, the total and the number of set bits agree. *)
Theorem allocator_init_correct (pid : bool) (boot : BootInfo) :
  forallb region_fits (memory_map boot) = true ->
  regions_disjoint (memory_map boot) = true ->
  hhdm_offset boot <> 0 \/ pid = true ->
  (exists r, r ∈ memory_map boot /\ is_usable (kind r) = true /\
     bitmap_frames (sv_max_ram (boot_survey boot)) <= region_frames r) ->
  exists a F0 cf cl,
    allocator_init pid boot = Done a /\ heap_wf F0 (mkHeap a ∅) /\
    free_frames a = total_frames a /\
    (forall i, get_bit (BITMAP a) i = true <->
       (exists r, r ∈ memory_map boot /\ inside r i) /\ ~ in_kernel boot i /\
       ~ (cf <= Z.of_nat i < cl)) /\
    (forall i, cf <= Z.of_nat i < cl -> exists r, r ∈ memory_map boot /\ inside r i) /\
    2 * Z.of_nat (length (BITMAP a)) <= (cl - cf) * FRAME_SIZE.
Proof.
  intros Hf Hd Hh (r & Hr & Hu & Hbig). set (s := boot_survey boot) in *.
  destruct (boot_survey_spec boot Hf) as (Hs & Hcov & Hlen & Hl0 & Hlar). fold s in Hs, Hcov, Hlen, Hl0, Hlar.
  assert (Hn : 0 <= bitmap_frames (sv_max_ram s)) by (unfold bitmap_frames, FRAME_SIZE; dlia).
  assert (Hfit : bitmap_frames (sv_max_ram s) <= sv_largest_len s / FRAME_SIZE).
  { specialize (Hlen r Hr Hu). unfold FRAME_SIZE in *. dlia. }
  destruct (boot_alloc_wf boot Hf Hd Hs Hcov) as [_ Hwf].
  pose (cl := (sv_largest_start s + sv_largest_len s) / FRAME_SIZE).
  exists (boot_alloc boot s), (list_to_set (opened boot s)), (cl - bitmap_frames (sv_max_ram s)), cl.
  split_and!; [by apply allocator_init_eq|done|done| | |].
  - intros i. unfold s at 1. rewrite (boot_alloc_bits boot i Hs Hf), bool_decide_eq_true, opened_elem by done.
    split; [tauto|]. intros ((r' & Hr' & Hi) & ? & ?). split; [|tauto]. split; [eauto|].
    specialize (Hcov r' i Hr' Hi). fold s. lia.
  - intros i. by apply carve_inside.
  - pose proof (ai_len _ (hw_inv _ _ Hwf)) as Hl. cbn [h_alloc] in Hl. fold s in Hl. rewrite Hl.
    cbn [boot_alloc max_ram_frame]. unfold bitmap_frames, FRAME_SIZE. dlia.
Qed.

Definition sample_boot : BootInfo :=
  mkBootInfo [mkRegion 0x800 0x6000 Usable; mkRegion 0x7000 0x3000 Reserved;
              mkRegion 0xA000 0x2000 KernelImage; mkRegion 0x10000 0xA000 Usable]
    0x2000 0x4000 0xFFFF800000000000.

Lemma allocator_init_correct_witness :
  exists a F0 cf cl,
    allocator_init false sample_boot = Done a /\ heap_wf F0 (mkHeap a ∅) /\
    free_frames a = total_frames a /\
    (forall i, get_bit (BITMAP a) i = true <->
       (exists r, r ∈ memory_map sample_boot /\ inside r i) /\ ~ in_kernel sample_boot i /\
       ~ (cf <= Z.of_nat i < cl)) /\
    (forall i, cf <= Z.of_nat i < cl -> exists r, r ∈ memory_map sample_boot /\ inside r i) /\
    2 * Z.of_nat (length (BITMAP a)) <= (cl - cf) * FRAME_SIZE.
Proof.
  apply (allocator_init_correct false sample_boot); [by vm_compute|by vm_compute|by left|].
  exists (mkRegion 0x10000 0xA000 Usable). split_and!; [set_solver|done|by vm_compute].
Defined.

(** C19: No frame is ever handed out twice.  From a well-formed heap, after
    any sequence of allocator calls: the invariant holds, the free count
    never exceeds the boot total, [alloc] does not panic, and a frame [alloc]
    returns was free, is held by nobody, is page-aligned usable RAM opened at
    boot, and is neither a protected page table, nor a reserved DMA frame,
    nor part of the kernel image. *)
Theorem frames_never_shared (F0 : gset nat) (h h' : heap) :
  heap_wf F0 h -> rtc heap_step h h' ->
  heap_wf F0 h' /\ free_frames (h_alloc h') <= total_frames (h_alloc h') /\
  alloc (h_alloc h') <> Panic /\
  forall a' phys, alloc (h_alloc h') = Done (a', Some phys) ->
    is_aligned phys = true /\ frame_idx phys ∉ h_owned h' /\ frame_idx phys ∈ F0 /\
    get_bit (KPT (h_alloc h')) (frame_idx phys) = false /\
    ~ reserved_frame (h_alloc h') (frame_idx phys) /\
    (GUARD_START (h_alloc h') < GUARD_END (h_alloc h') ->
     ~ (GUARD_START (h_alloc h') <= phys < GUARD_END (h_alloc h'))).
Proof.
  intros Hwf Hs. destruct (heap_steps_wf _ _ _ Hwf Hs) as [Hwf' _].
  pose proof (hw_inv _ _ Hwf') as Hinv.
  split_and!; [done| | |].
  - rewrite (hw_total _ _ Hwf'), (ai_count _ Hinv). apply inj_le, popcount_le, Hwf'.
  - destruct (alloc_cases _ Hinv) as [[-> _]|(i & n & _ & _ & ->)]; done.
  - intros a' phys Ha.
    destruct (alloc_cases _ Hinv) as [[E _]|(i & n & Hb & _ & E)]; rewrite E in Ha; simplify_eq.
    rewrite frame_idx_mul. destruct (free_admissible _ _ Hinv Hb) as (_ & Hk & Hd & Hg).
    split_and!; [|intros Ho|by apply Hwf'|done|done|tauto].
    + unfold is_aligned, FRAME_SIZE. by rewrite Z_mod_mult.
    + apply (hw_owned _ _ Hwf') in Ho as [_ Ho]. congruence.
Qed.

(** A heap with one frame taken and given back. *)
Definition sample_alloc : BitmapAllocator :=
  match allocator_init false sample_boot with Done a => a | Panic => allocator_new end.

Lemma sample_wf : exists F0, heap_wf F0 (mkHeap sample_alloc ∅).
Proof.
  destruct (boot_survey_spec sample_boot) as (Hs & Hcov & _); [by vm_compute|].
  eexists. by apply (boot_alloc_wf sample_boot).
Qed.

Lemma sample_inv : alloc_inv sample_alloc.
Proof. destruct sample_wf as [F0 Hwf]. exact (hw_inv _ _ Hwf). Qed.

Lemma frames_never_shared_witness :
  exists F0, heap_wf F0 (mkHeap sample_alloc ∅) /\
    let h' := mkHeap (mark_pt_frame_used sample_alloc 0x1000) ∅ in
    match alloc (h_alloc h') with
    | Done (_, Some phys) => is_aligned phys = true /\ frame_idx phys ∈ F0
    | _ => False
    end.
Proof.
  destruct sample_wf as [F0 Hwf]. exists F0. split; [done|].
  intros h'.
  destruct (frames_never_shared F0 (mkHeap sample_alloc ∅) h' Hwf) as (_ & _ & Hp & Ha).
  { apply rtc_once. by constructor. }
  assert (match alloc (h_alloc h') with Done (_, Some _) => True | _ => False end) as Hc
    by (vm_compute; exact I).
  clearbody h'. destruct (alloc (h_alloc h')) as [[a' [phys|]]|]; [|destruct Hc..].
  destruct (Ha a' phys eq_refl) as (H1 & _ & H2 & _). exact (conj H1 H2).
Defined.

(** [alloc] is complete and takes exactly one frame.  Under the
    invariant it returns [None], leaving the state alone, exactly when no
    frame is free (the free count is zero); otherwise it returns some frame
    that was free, clears that bit and no other, drops the free count by one
    and keeps the invariant. *)
Theorem alloc_correct (a : BitmapAllocator) :
  alloc_inv a ->
  match alloc a with
  | Panic => False
  | Done (a', None) => a' = a /\ free_frames a = 0
  | Done (a', Some phys) =>
      0 < free_frames a /\ free_frames a' = free_frames a - 1 /\ alloc_inv a' /\
      exists i, phys = Z.of_nat i * FRAME_SIZE /\ get_bit (BITMAP a) i = true /\
        forall j, get_bit (BITMAP a') j = if decide (i = j) then false else get_bit (BITMAP a) j
  end.
Proof.
  intros Hinv. rewrite (ai_count _ Hinv).
  destruct (alloc_cases a Hinv) as [[-> Hnone]|(i & next & Hb & Hn & ->)].
  - apply popcount_zero in Hnone. by rewrite Hnone.
  - split_and!; [|by rewrite <- (ai_count _ Hinv)|by apply inv_take|].
    + pose proof (popcount_clear _ _ Hb). lia.
    + exists i. split_and!; [done..|]. intros j. apply get_clear_bit.
Qed.

Lemma alloc_correct_witness :
  match alloc sample_alloc with
  | Done (_, Some phys) => exists i, phys = Z.of_nat i * FRAME_SIZE /\ get_bit (BITMAP sample_alloc) i = true
  | _ => False
  end.
Proof.
  pose proof (alloc_correct sample_alloc sample_inv) as H.
  assert (match alloc sample_alloc with Done (_, Some _) => True | _ => False end) as Hc
    by (vm_compute; exact I).
  destruct (alloc sample_alloc) as [[a' [phys|]]|]; [|destruct Hc..].
  destruct H as (_ & _ & _ & i & H1 & H2 & _). exists i. exact (conj H1 H2).
Defined.

(** [alloc_contiguous] is sound and complete.  It fails, leaving the
    state alone, exactly when zero frames are asked for or no run of [n]
    consecutive free frames exists; otherwise it returns a run that was
    entirely free, clears those [n] bits and no other, and subtracts [n] from
    the free count. *)
Theorem alloc_contiguous_correct (a : BitmapAllocator) (n : nat) :
  alloc_inv a ->
  match alloc_contiguous a n with
  | (a', None) => a' = a /\ (n = 0%nat \/ forall s, ~ run_free (BITMAP a) s n)
  | (a', Some phys) =>
      (0 < n)%nat /\ free_frames a' = free_frames a - Z.of_nat n /\ alloc_inv a' /\
      exists s, phys = Z.of_nat s * FRAME_SIZE /\ run_free (BITMAP a) s n /\
        forall j, get_bit (BITMAP a') j =
          if decide (s <= j < s + n)%nat then false else get_bit (BITMAP a) j
  end.
Proof.
  intros Hinv. destruct (alloc_contiguous_cases a n Hinv) as [[-> Hnone]|(s & Hn & Hf & ->)];
    [done|]. split_and!; [done|done|by apply inv_contiguous|].
  exists s. split_and!; [done|done|]. intros j. cbn. rewrite get_foldl_clear.
  repeat case_decide; try done; rewrite elem_of_seq in *; lia.
Qed.

Lemma alloc_contiguous_correct_witness :
  match alloc_contiguous sample_alloc 4, alloc_contiguous sample_alloc 40 with
  | (_, Some phys), (a', None) =>
      (exists s, phys = Z.of_nat s * FRAME_SIZE /\ run_free (BITMAP sample_alloc) s 4) /\
      forall s, ~ run_free (BITMAP sample_alloc) s 40
  | _, _ => False
  end.
Proof.
  pose proof (alloc_contiguous_correct sample_alloc 4 sample_inv) as H4.
  pose proof (alloc_contiguous_correct sample_alloc 40 sample_inv) as H40.
  assert (match alloc_contiguous sample_alloc 4, alloc_contiguous sample_alloc 40 with
          | (_, Some _), (_, None) => True | _, _ => False end) as Hc by (vm_compute; exact I).
  destruct (alloc_contiguous sample_alloc 4) as [a4 [phys|]],
    (alloc_contiguous sample_alloc 40) as [a40 [p40|]]; try destruct Hc.
  destruct H4 as (_ & _ & _ & s & H1 & H2 & _). destruct H40 as [_ [Hz|Hn]]; [discriminate Hz|].
  split; [exists s; exact (conj H1 H2)|exact Hn].
Defined.

(** [free] on every branch.  A frame beyond usable RAM, a protected page
    table or a reserved DMA frame is refused and nothing changes; a frame
    already free is counted as a double free and otherwise nothing changes;
    any other frame becomes free and the count rises by one.  No other bit
    changes, and the invariant is kept unless the frame accepted is in the
    kernel image. *)
Theorem free_correct (a : BitmapAllocator) (frame : Z) :
  alloc_inv a -> 0 <= frame ->
  let i := frame_idx frame in
  let refused := max_valid_frame a <= frame_number frame \/ get_bit (KPT a) i = true \/
                 reserved_frame a i in
  (refused -> free a frame = a) /\
  (~ refused ->
     (forall j, get_bit (BITMAP (free a frame)) j =
        if decide (i = j) then true else get_bit (BITMAP a) j) /\
     free_frames (free a frame) =
       free_frames a + (if get_bit (BITMAP a) i then 0 else 1) /\
     double_frees (free a frame) =
       double_frees a + (if get_bit (BITMAP a) i then 1 else 0)) /\
  (~ (GUARD_START a < GUARD_END a /\ GUARD_START a <= Z.of_nat i * FRAME_SIZE < GUARD_END a) ->
   alloc_inv (free a frame)).
Proof.
  intros Hinv Hf i refused.
  assert (Hacc : accepts a frame = true <-> ~ refused).
  { unfold accepts, refused, reserved_frame. fold i. rewrite <- (frame_idx_number frame Hf). fold i.
    rewrite !andb_true_iff, !negb_true_iff, !Z.ltb_lt, <- !not_true_iff_false.
    pose proof (ai_valid _ Hinv). intuition lia. }
  split_and!.
  - intros Hr. rewrite free_cases. destruct (accepts a frame); [|done].
    exfalso. by apply Hacc.
  - intros Hr%Hacc. rewrite free_cases. rewrite Hr. cbn [negb]. fold i.
    assert (Hi : (i / 8 < length (BITMAP a))%nat).
    { apply idx_in_bitmap; [done|]. unfold i. rewrite frame_idx_number by done.
      unfold accepts in Hr. to_prop. done. }
    destruct (get_bit (BITMAP a) i) eqn:Hb; cbn; split_and!; try lia.
    + intros j. case_decide; [by subst|done].
    + intros j. by apply get_set_bit.
  - intros Hg. apply inv_free; auto.
Qed.

Lemma free_correct_witness :
  free_frames (free sample_alloc 0x2000) = free_frames sample_alloc + 1 /\
  double_frees (free sample_alloc 0x1000) = double_frees sample_alloc + 1 /\
  free sample_alloc 0x40000 = sample_alloc.
Proof.
  destruct (free_correct sample_alloc 0x2000 sample_inv) as (_ & H1 & _); [lia|].
  destruct (free_correct sample_alloc 0x1000 sample_inv) as (_ & H2 & _); [lia|].
  destruct (free_correct sample_alloc 0x40000 sample_inv) as (H3 & _ & _); [lia|].
  split_and!.
  - destruct H1 as (_ & E & _); [vm_compute; intuition congruence|]. rewrite E. by vm_compute.
  - destruct H2 as (_ & _ & E); [vm_compute; intuition congruence|]. rewrite E. by vm_compute.
  - apply H3. left. by vm_compute.
Defined.

(** Kernel page tables are never recycled.  After the boot walk
    [protect_kernel_page_table_frames] on a well-formed heap, the frame of
    every table reachable from the upper half of the root (the root
    included) is, in every later state, neither free nor returned by [alloc],
    whatever sequence of allocator calls, frees of that very frame included,
    leads there; and a reserved DMA frame has the same guarantee. *)
Theorem page_tables_protected (F0 : gset nat) (a : BitmapAllocator) (O : gset nat)
    (pt_read : Z -> nat -> Z) (hhdm ptb : Z) (h' : heap)
    (a1 := protect_kernel_page_table_frames pt_read true hhdm ptb a) :
  heap_wf F0 (mkHeap a O) -> 0 <= ptb -> hhdm <> 0 ->
  rtc heap_step (mkHeap a1 O) h' ->
  (forall phys, table_frame pt_read (Z.land ptb (Z.lnot 0xFFF)) phys ->
     frame_number phys < max_ram_frame a ->
     get_bit (BITMAP (h_alloc h')) (frame_idx phys) = false /\
     get_bit (KPT (h_alloc h')) (frame_idx phys) = true /\
     free (h_alloc h') phys = h_alloc h') /\
  (forall i, reserved_frame a1 i ->
     reserved_frame (h_alloc h') i /\ get_bit (BITMAP (h_alloc h')) i = false).
Proof.
  intros Hwf Hp Hh Hs. pose proof (hw_inv _ _ Hwf) as Hinv. simpl in Hinv.
  destruct (protect_walk pt_read hhdm ptb a Hinv Hp Hh) as [W Ht]. fold a1 in W, Ht.
  assert (Hwf1 : heap_wf F0 (mkHeap a1 O)) by (eapply heap_wf_same; [done|apply W..]).
  destruct (heap_steps_wf _ _ _ Hwf1 Hs) as [Hwf' He]. simpl in He.
  pose proof (hw_inv _ _ Hwf') as Hinv'. split.
  - intros phys Htf Hram. destruct (Ht phys Htf) as [Hp0 Hk].
    assert (Hk1 : get_bit (KPT (h_alloc h')) (frame_idx phys) = true).
    { apply (ev_kpt _ _ He), Hk. by rewrite (ev_ram _ _ (wk_evolves _ _ W)). }
    split_and!; [by apply (ai_kpt _ Hinv')|done|].
    rewrite free_cases. unfold accepts. rewrite Hk1. simpl. by rewrite andb_false_r.
  - intros i Hi. apply (ev_dma _ _ He) in Hi. split; [done|].
    by apply (ai_dma _ Hinv').
Qed.

(** A root at 0x1000 whose entry 256 points at a table at 0x5000. *)
Definition sample_tables (phys : Z) (i : nat) : Z :=
  if (phys =? 0x1000) && (i =? 256)%nat then 0x5001 else 0.

Lemma page_tables_protected_witness :
  let a1 := protect_kernel_page_table_frames sample_tables true 0x1000 0x1000 sample_alloc in
  free a1 0x5000 = a1 /\ get_bit (BITMAP a1) 5 = false /\ get_bit (BITMAP sample_alloc) 5 = true.
Proof.
  destruct sample_wf as [F0 Hwf].
  pose (a1 := protect_kernel_page_table_frames sample_tables true 0x1000 0x1000 sample_alloc).
  destruct (page_tables_protected F0 sample_alloc ∅ sample_tables 0x1000 0x1000 (mkHeap a1 ∅) Hwf)
    as [H _]; [lia|lia|apply rtc_refl|].
  destruct (H 0x5000) as (H1 & _ & H2).
  - apply (tf_pdpt sample_tables 0x1000 256); [lia|by vm_compute].
  - by vm_compute.
  - cbv zeta. split; [exact H2|]. split; [exact H1|by vm_compute].
Defined.
