(* ===== verification/Sched.v ===== *)
(** * The scheduler

    [kernel/src/task/scheduler.rs]: task slots and their states, the per-core
    round-robin pick, wake-ups, blocking, yielding, the timed wakes and the
    pending power action.  The source keeps one array per attribute, all
    indexed by the task slot; here slot [i] is a record holding element [i] of
    each.  This file is the sequential meaning of each function, one call at a
    time; the interleavings of its atomic accesses are in [Handshake]. *)

From S2P Require Import Prelude Capability Queue Routing.

Inductive TaskState := Ready | Running | BlockedOnRecv | BlockedOnSend | Dead.

#[export] Instance TaskState_eq_dec : EqDecision TaskState.
Proof. solve_decision. Defined.

Definition state_from_u8 (v : Z) : TaskState :=
  if v =? 0 then Ready else if v =? 1 then Running else if v =? 2 then BlockedOnRecv
  else if v =? 3 then BlockedOnSend else Dead.

Definition state_as_u8 (s : TaskState) : Z :=
  match s with Ready => 0 | Running => 1 | BlockedOnRecv => 2 | BlockedOnSend => 3 | Dead => 4 end.

(** No task is running: the scheduler's idle loop is. *)
Definition IDLE : nat := MAX_TASKS.

Record TaskSlot := mkSlot {
  t_state : TaskState;           (* TASK_STATE *)
  t_valid : bool;                (* TASK_VALID *)
  t_core : nat;                  (* TASK_CORE *)
  t_wakeup_err : Z;              (* TASK_WAKEUP_ERR *)
  t_wake_pending : bool;         (* TASK_WAKE_PENDING *)
  t_wake_deadline : Z;           (* TASK_WAKE_DEADLINE *)
  t_run_ticks : Z                (* TASK_RUN_TICKS *)
}.

Definition empty_slot : TaskSlot := mkSlot Dead false 0 0 false 0 0.

Record CoreState := mkCore {
  c_current : nat;               (* CORE_CURRENT *)
  c_leaving : nat;               (* CORE_LEAVING *)
  c_rr_slot : nat;               (* CORE_RR_SLOT *)
  c_wake_hint : nat;             (* CORE_WAKE_HINT *)
  c_total_ticks : Z;             (* CORE_TOTAL_TICKS *)
  c_active_ticks : Z             (* CORE_ACTIVE_TICKS *)
}.

Definition idle_core : CoreState := mkCore IDLE IDLE 0 MAX_TASKS 0 0.

Record Sched := mkSched {
  tasks : list TaskSlot;
  cores : list CoreState;
  MONOTONIC_TICKS : Z;
  POWER_PENDING : Z
}.

(** [init_arenas n] on the boot statics. *)
Definition sched_boot (n : nat) : Sched :=
  mkSched (replicate MAX_TASKS empty_slot) (replicate n idle_core) 0 0.

Definition task_at (s : Sched) (i : nat) : TaskSlot := default empty_slot (tasks s !! i).
Definition core_at (s : Sched) (c : nat) : CoreState := default idle_core (cores s !! c).

Definition upd_task (s : Sched) (i : nat) (f : TaskSlot -> TaskSlot) : Sched :=
  mkSched (alter f i (tasks s)) (cores s) (MONOTONIC_TICKS s) (POWER_PENDING s).
Definition upd_core (s : Sched) (c : nat) (f : CoreState -> CoreState) : Sched :=
  mkSched (tasks s) (alter f c (cores s)) (MONOTONIC_TICKS s) (POWER_PENDING s).
Definition set_power (s : Sched) (w : Z) : Sched :=
  mkSched (tasks s) (cores s) (MONOTONIC_TICKS s) w.

Definition set_state (st : TaskState) (t : TaskSlot) : TaskSlot :=
  mkSlot st (t_valid t) (t_core t) (t_wakeup_err t) (t_wake_pending t) (t_wake_deadline t) (t_run_ticks t).
Definition set_valid (v : bool) (t : TaskSlot) : TaskSlot :=
  mkSlot (t_state t) v (t_core t) (t_wakeup_err t) (t_wake_pending t) (t_wake_deadline t) (t_run_ticks t).
Definition set_pending (p : bool) (t : TaskSlot) : TaskSlot :=
  mkSlot (t_state t) (t_valid t) (t_core t) (t_wakeup_err t) p (t_wake_deadline t) (t_run_ticks t).
Definition set_deadline (d : Z) (t : TaskSlot) : TaskSlot :=
  mkSlot (t_state t) (t_valid t) (t_core t) (t_wakeup_err t) (t_wake_pending t) d (t_run_ticks t).
Definition tick_task (t : TaskSlot) : TaskSlot :=
  mkSlot (t_state t) (t_valid t) (t_core t) (t_wakeup_err t) (t_wake_pending t) (t_wake_deadline t)
    (wrap64 (t_run_ticks t + 1)).
Definition set_current (n : nat) (c : CoreState) : CoreState :=
  mkCore n (c_leaving c) (c_rr_slot c) (c_wake_hint c) (c_total_ticks c) (c_active_ticks c).
Definition set_leaving (n : nat) (c : CoreState) : CoreState :=
  mkCore (c_current c) n (c_rr_slot c) (c_wake_hint c) (c_total_ticks c) (c_active_ticks c).
Definition set_rr (n : nat) (c : CoreState) : CoreState :=
  mkCore (c_current c) (c_leaving c) n (c_wake_hint c) (c_total_ticks c) (c_active_ticks c).
Definition set_hint (n : nat) (c : CoreState) : CoreState :=
  mkCore (c_current c) (c_leaving c) (c_rr_slot c) n (c_total_ticks c) (c_active_ticks c).
Definition tick_core (active : bool) (c : CoreState) : CoreState :=
  mkCore (c_current c) (c_leaving c) (c_rr_slot c) (c_wake_hint c) (wrap64 (c_total_ticks c + 1))
    (if active then wrap64 (c_active_ticks c + 1) else c_active_ticks c).

(** ** Leaving a task *)

Definition core_still_using (s : Sched) (cid slot : nat) : bool :=
  (c_current (core_at s cid) =? slot)%nat || (c_leaving (core_at s cid) =? slot)%nat.

Definition core_release_current (s : Sched) (cid to : nat) : Sched :=
  let leaving := c_current (core_at s cid) in
  upd_core (upd_core s cid (set_leaving leaving)) cid (set_current to).

Definition core_finished_leaving (s : Sched) (cid : nat) : Sched := upd_core s cid (set_leaving IDLE).

(** [compare_exchange(from, to)] on a task's state; the flag is [is_ok]. *)
Definition cas_state (s : Sched) (i : nat) (from to : TaskState) : Sched * bool :=
  if bool_decide (t_state (task_at s i) = from) then (upd_task s i (set_state to), true) else (s, false).

(** ** Slots *)

Definition reserve_task_slot (s : Sched) (core_id : nat) : Sched * option nat :=
  match position (fun t => negb (t_valid t)) (tasks s) with
  | Some i =>
      (upd_task s i (fun t => mkSlot (t_state t) true core_id (t_wakeup_err t) (t_wake_pending t)
                                (t_wake_deadline t) (t_run_ticks t)), Some i)
  | None => (s, None)
  end.

Definition release_task_slot (s : Sched) (slot : nat) : Sched := upd_task s slot (set_valid false).

(** The last store of [commit_task]. *)
Definition commit_ready (s : Sched) (slot : nat) : Sched := upd_task s slot (set_state Ready).

Definition set_wake_deadline (s : Sched) (slot : nat) (deadline : Z) : Sched :=
  if (slot <? MAX_TASKS)%nat then upd_task s slot (set_deadline deadline) else s.
Definition clear_wake_deadline (s : Sched) (slot : nat) : Sched :=
  if (slot <? MAX_TASKS)%nat then upd_task s slot (set_deadline 0) else s.

Definition set_current_task (s : Sched) (core_id slot : nat) : Sched :=
  upd_core s core_id (set_current slot).
Definition current_task_slot (s : Sched) (cid : nat) : nat := c_current (core_at s cid).
Definition current_task_is_dead (s : Sched) (cid : nat) : outcome bool :=
  match tasks s !! current_task_slot s cid with
  | Some t => Done (bool_decide (t_state t = Dead))
  | None => Panic
  end.
Definition current_task_is_running (s : Sched) (cid : nat) : bool :=
  (current_task_slot s cid <? MAX_TASKS)%nat &&
  bool_decide (t_state (task_at s (current_task_slot s cid)) = Running).

(** ** Waking *)

(** The core that is sent a [WAKE_RECEIVER] interrupt, if any. *)
Definition wake_by_slot (s : Sched) (my_core slot : nat) (result : Z) : Sched * option nat :=
  let t := task_at s slot in
  if negb ((slot <? MAX_TASKS)%nat && t_valid t) then (s, None)
  else if bool_decide (t_state t = Dead) then (s, None)
  else
    let s := upd_task s slot (fun t => mkSlot Ready (t_valid t) (t_core t) result true
                                         (t_wake_deadline t) (t_run_ticks t)) in
    let task_core := t_core t in
    if (task_core =? my_core)%nat then (s, None)
    else
      (upd_core s task_core (fun c => if (c_wake_hint c =? MAX_TASKS)%nat then set_hint slot c else c),
       Some task_core).

(** ** Picking *)

Definition schedulable (s : Sched) (core_id i : nat) : bool :=
  let t := task_at s i in
  t_valid t && bool_decide (t_state t = Ready) && (t_core t =? core_id)%nat.

Definition rr_scan (s : Sched) (core_id : nat) : Sched * option nat :=
  let start := c_rr_slot (core_at s core_id) in
  match position (fun i => schedulable s core_id ((start + i) mod MAX_TASKS)%nat) (seq 0 MAX_TASKS) with
  | Some i =>
      let idx := ((start + i) mod MAX_TASKS)%nat in
      (upd_core s core_id (set_rr ((idx + 1) mod MAX_TASKS)%nat), Some idx)
  | None => (s, None)
  end.

Definition pick_next (s : Sched) (core_id : nat) : Sched * option nat :=
  let hint := c_wake_hint (core_at s core_id) in
  if (hint <? MAX_TASKS)%nat then
    let s := upd_core s core_id (set_hint MAX_TASKS) in
    if schedulable s core_id hint then (s, Some hint) else rr_scan s core_id
  else rr_scan s core_id.

(** ** Switching *)

(** Where the registers of the context being left are saved. *)
Inductive save := SchedCtx | DeadCtx | TaskCtx (slot : nat).

(** Where a core goes when a scheduling function ends: it stays in its
    context, enters a task, or enters its scheduler context. *)
Inductive switch := Stay | ToTask (from : save) (next : nat) | ToSched (from : save).

(** Claim [next], publish it, re-read its state: the switch-in handshake.
    [false] is [abort_to_sched]. *)
Definition claim_next (s : Sched) (cid next : nat) : Sched * bool :=
  let (s, ok) := cas_state s next Ready Running in
  if ok then
    let s := core_release_current s cid next in
    (s, bool_decide (t_state (task_at s next) = Running))
  else (s, false).

(** The live slot [prev] the core is running, counted and made [Ready]. *)
Definition is_live (s : Sched) (i : nat) : bool := (i <? MAX_TASKS)%nat && t_valid (task_at s i).

Definition account (s : Sched) (cid prev : nat) : Sched :=
  let live := is_live s prev in
  let s := upd_core s cid (tick_core live) in
  if live then upd_task s prev tick_task else s.

Definition demote (s : Sched) (prev : nat) : Sched :=
  if is_live s prev then (cas_state s prev Running Ready).1 else s.
Definition restore (s : Sched) (prev : nat) : Sched :=
  if is_live s prev then (cas_state s prev Ready Running).1 else s.

Definition to_sched (s : Sched) (cid : nat) (from : save) : Sched * switch :=
  (core_release_current s cid IDLE, ToSched from).

(** [current_ctx]: the idle loop's, a discarded one for a slot no longer
    valid, or the task's own. *)
Definition save_ctx (s : Sched) (prev : nat) : save :=
  if (MAX_TASKS <=? prev)%nat then SchedCtx
  else if negb (t_valid (task_at s prev)) then DeadCtx
  else TaskCtx prev.

(** The tail shared by [yield_current] and [timer_tick_from_irq]: pick and
    switch away from [prev]; [pending] is [supervisor_respawn_pending()]. *)
Definition reschedule (s : Sched) (cid prev : nat) (pending : bool) : Sched * switch :=
  let (s, next) := pick_next s cid in
  match next with
  | None =>
      if (prev <? MAX_TASKS)%nat && bool_decide (t_state (task_at s prev) = Dead)
      then to_sched s cid DeadCtx
      else (restore s prev, Stay)
  | Some next =>
      if (cid =? 0)%nat && pending then
        if (MAX_TASKS <=? prev)%nat then (s, Stay) else to_sched s cid (save_ctx s prev)
      else if (next =? prev)%nat then ((cas_state s prev Ready Running).1, Stay)
      else
        let (s, ok) := claim_next s cid next in
        if ok then (s, ToTask (save_ctx s prev) next)
        else if (MAX_TASKS <=? prev)%nat then (core_release_current s cid IDLE, Stay)
        else to_sched s cid (save_ctx s prev)
  end.

(** In [yield_current] the pending respawn is looked at only when a task is
    running. *)
Definition yield_current (s : Sched) (cid : nat) (pending : bool) : Sched * switch :=
  let s := core_finished_leaving s cid in
  let prev := current_task_slot s cid in
  let s := account s cid prev in
  let s := demote s prev in
  reschedule s cid prev (pending && (prev <? MAX_TASKS)%nat).

Inductive block_result := Returned (code : Z) | Switched (to : switch).

(** The value [block_and_reschedule] returns when the task runs again. *)
Definition resume_result (s : Sched) (slot : nat) : Z := t_wakeup_err (task_at s slot).

Definition block_and_reschedule (s : Sched) (cid : nat) (state : TaskState) : outcome (Sched * block_result) :=
  let s := core_finished_leaving s cid in
  let slot := current_task_slot s cid in
  if negb (is_live s slot) then Panic
  else if bool_decide (state = BlockedOnRecv) && t_wake_pending (task_at s slot) then
    Done (upd_task s slot (set_pending false), Returned 0)
  else
    let (s, ok) := cas_state s slot Running state in
    if negb ok then Done (s, Returned (resume_result s slot))
    else
      let (s, next) := pick_next s cid in
      match next with
      | Some next =>
          let (s, ok) := claim_next s cid next in
          if ok then Done (s, Switched (ToTask (TaskCtx slot) next))
          else let (s, sw) := to_sched s cid (TaskCtx slot) in Done (s, Switched sw)
      | None => let (s, sw) := to_sched s cid (TaskCtx slot) in Done (s, Switched sw)
      end.

(** One pass of [run]'s loop: the idle core tries to enter a task. *)
Definition run_once (s : Sched) (cid : nat) : Sched * switch :=
  let s := core_finished_leaving s cid in
  let (s, next) := pick_next s cid in
  match next with
  | None => (s, Stay)
  | Some next =>
      let (s, ok) := claim_next s cid next in
      if ok then (s, ToTask SchedCtx next) else (core_release_current s cid IDLE, Stay)
  end.

(** ** The pending power action *)

Definition POWER_OFF_MAX_SECS : Z := 24 * 3600.
Definition POWER_OFF_TICKS_PER_SEC : Z := 100.

Inductive PowerChange := PowerDone | Unchanged | OtherKind.

Definition is_reboot (word : Z) : bool := Z.land word 1 =? 1.

Definition power_arm (s : Sched) (secs : Z) (reboot : bool) : Sched * PowerChange :=
  let at_ := Z.max (saturating_add64 (MONOTONIC_TICKS s) (saturating_mul64 secs POWER_OFF_TICKS_PER_SEC)) 1 in
  let word := Z.lor (wrap64 (Z.shiftl at_ 1)) (if reboot then 1 else 0) in
  let cur := POWER_PENDING s in
  if negb (cur =? 0) && negb (Bool.eqb (is_reboot cur) reboot) then (s, OtherKind)
  else if negb (cur =? 0) && (Z.shiftr cur 1 <=? at_) then (s, Unchanged)
  else (set_power s word, PowerDone).

Definition power_disarm (s : Sched) (reboot : bool) : Sched * PowerChange :=
  let cur := POWER_PENDING s in
  if cur =? 0 then (s, Unchanged)
  else if negb (Bool.eqb (is_reboot cur) reboot) then (s, OtherKind)
  else (set_power s 0, PowerDone).

Definition power_pending (s : Sched) : option (Z * bool) :=
  let word := POWER_PENDING s in
  if word =? 0 then None
  else
    let left := saturating_sub (Z.shiftr word 1) (MONOTONIC_TICKS s) in
    Some ((left + POWER_OFF_TICKS_PER_SEC - 1) / POWER_OFF_TICKS_PER_SEC, is_reboot word).

(** ** The tick *)

(** A tick returns, or ends the machine. *)
Inductive tick := Ticked (s : Sched) (ipis : list nat) | RebootNow | PowerOffNow.

Definition wake_expired (now : Z) (acc : Sched * list nat) (slot : nat) : Sched * list nat :=
  let (s, ipis) := acc in
  let t := task_at s slot in
  if negb (t_wake_deadline t =? 0) && (t_wake_deadline t <=? now) &&
     bool_decide (t_state t = BlockedOnRecv)
  then
    let (s, ipi) := wake_by_slot (upd_task s slot (set_deadline 0)) 0 slot 0 in
    (s, ipis ++ option_list ipi)
  else (s, ipis).

(** Called on core 0 only. *)
Definition scan_timed_wakes (s : Sched) : tick :=
  let now := wrap64 (MONOTONIC_TICKS s + 1) in
  let s := mkSched (tasks s) (cores s) (wrap64 (MONOTONIC_TICKS s + 1)) (POWER_PENDING s) in
  let word := POWER_PENDING s in
  if negb (word =? 0) && (Z.shiftr word 1 <=? now) then
    if is_reboot word then RebootNow else PowerOffNow
  else
    let (s, ipis) := foldl (wake_expired now) (s, []) (seq 0 MAX_TASKS) in
    Ticked s ipis.

(** The scheduling part of [timer_tick_from_irq]; [in_progress] and [pending]
    are the two supervisor-respawn flags; [None] when the tick ends the
    machine. *)
Definition timer_tick_from_irq (s : Sched) (cid : nat) (in_progress pending : bool)
    : option (Sched * switch) :=
  let s := core_finished_leaving s cid in
  let ticked := if (cid =? 0)%nat then scan_timed_wakes s else Ticked s [] in
  match ticked with
  | Ticked s _ =>
      let prev := current_task_slot s cid in
      let s := account s cid prev in
      let s := demote s prev in
      if (cid =? 0)%nat && in_progress && (prev <? MAX_TASKS)%nat then
        Some (to_sched s cid (save_ctx s prev))
      else Some (reschedule s cid prev pending)
  | _ => None
  end.

Definition cycles_to_ticks (q cycles : Z) : Z := if q =? 0 then 1 else Z.max (cycles / q) 1.
Definition cycles_to_us (q cycles : Z) : Z :=
  if q =? 0 then 0 else saturating_mul64 cycles 10000 / q.

(** ** The invariant *)

(** A task in state [Running] is the current task of the core it is pinned
    to, and a core's current task is pinned to that core. *)
Record sched_inv (s : Sched) : Prop := mk_sched_inv {
  si_tasks : length (tasks s) = MAX_TASKS;
  si_rr : forall c, (c_rr_slot (core_at s c) < MAX_TASKS)%nat;
  si_running : forall i, t_state (task_at s i) = Running ->
    t_valid (task_at s i) = true /\ current_task_slot s (t_core (task_at s i)) = i;
  si_current : forall c, (current_task_slot s c < MAX_TASKS)%nat ->
    t_core (task_at s (current_task_slot s c)) = c;
  si_core : forall i, t_valid (task_at s i) = true -> (t_core (task_at s i) < length (cores s))%nat
}.

(** Nothing is left of an earlier occupant of the slot: no core runs it. *)
Definition slot_left (s : Sched) (slot : nat) : Prop :=
  forall c, current_task_slot s c <> slot.

(** One call of a scheduling function, on whichever core makes it.  A slot
    is handed to a new task only once every core has left it. *)
Inductive sched_step (s : Sched) : Sched -> Prop :=
| ss_wake my slot r : sched_step s (wake_by_slot s my slot r).1
| ss_yield c pending :
    (c < length (cores s))%nat -> sched_step s (yield_current s c pending).1
| ss_block c st s' r :
    (c < length (cores s))%nat -> st = BlockedOnRecv \/ st = BlockedOnSend ->
    block_and_reschedule s c st = Done (s', r) -> sched_step s s'
| ss_run c :
    (c < length (cores s))%nat -> current_task_slot s c = IDLE -> sched_step s (run_once s c).1
| ss_tick c p1 p2 s' sw :
    (c < length (cores s))%nat -> timer_tick_from_irq s c p1 p2 = Some (s', sw) -> sched_step s s'
| ss_reserve core slot s' :
    (core < length (cores s))%nat ->
    reserve_task_slot s core = (s', Some slot) -> slot_left s slot -> sched_step s s'
| ss_commit slot :
    t_state (task_at s slot) = Dead -> sched_step s (commit_ready s slot)
| ss_dead slot : sched_step s (upd_task s slot (set_state Dead))
| ss_release slot :
    t_state (task_at s slot) = Dead -> sched_step s (release_task_slot s slot)
| ss_deadline slot d : sched_step s (set_wake_deadline s slot d)
| ss_power p : sched_step s (set_power s p).

Module SchedFacts.

(** ** Reading after an update *)

Lemma task_at_upd (s : Sched) (i j : nat) (f : TaskSlot -> TaskSlot) :
  task_at (upd_task s i f) j =
    if decide (i = j /\ (j < length (tasks s))%nat) then f (task_at s j) else task_at s j.
Proof.
  unfold task_at. cbn [upd_task tasks]. destruct (decide (i = j)) as [->|Hne].
  - rewrite list_lookup_alter_eq. destruct (tasks s !! j) eqn:E; simpl.
    + rewrite decide_True; [done|]. split; [done|]. by eapply lookup_lt_Some.
    + rewrite decide_False; [done|]. apply lookup_ge_None in E. lia.
  - rewrite list_lookup_alter_ne by done. rewrite decide_False; [done|tauto].
Qed.

Lemma core_at_upd (s : Sched) (c d : nat) (f : CoreState -> CoreState) :
  core_at (upd_core s c f) d =
    if decide (c = d /\ (d < length (cores s))%nat) then f (core_at s d) else core_at s d.
Proof.
  unfold core_at. cbn [upd_core cores]. destruct (decide (c = d)) as [->|Hne].
  - rewrite list_lookup_alter_eq. destruct (cores s !! d) eqn:E; simpl.
    + rewrite decide_True; [done|]. split; [done|]. by eapply lookup_lt_Some.
    + rewrite decide_False; [done|]. apply lookup_ge_None in E. lia.
  - rewrite list_lookup_alter_ne by done. rewrite decide_False; [done|tauto].
Qed.

Lemma task_at_upd_core (s : Sched) (c i : nat) (f : CoreState -> CoreState) :
  task_at (upd_core s c f) i = task_at s i.
Proof. done. Qed.

Lemma core_at_upd_task (s : Sched) (i c : nat) (f : TaskSlot -> TaskSlot) :
  core_at (upd_task s i f) c = core_at s c.
Proof. done. Qed.

Lemma length_tasks_upd (s : Sched) (i : nat) (f : TaskSlot -> TaskSlot) :
  length (tasks (upd_task s i f)) = length (tasks s).
Proof. apply length_alter. Qed.

Lemma length_cores_upd (s : Sched) (c : nat) (f : CoreState -> CoreState) :
  length (cores (upd_core s c f)) = length (cores s).
Proof. apply length_alter. Qed.

Lemma task_at_range (s : Sched) (i : nat) :
  t_state (task_at s i) <> Dead \/ t_valid (task_at s i) = true -> (i < length (tasks s))%nat.
Proof.
  unfold task_at. destruct (tasks s !! i) eqn:E; simpl; [|naive_solver].
  intros _. by eapply lookup_lt_Some.
Qed.

Lemma core_range (s : Sched) (c : nat) :
  current_task_slot s c <> IDLE -> (c < length (cores s))%nat.
Proof.
  unfold current_task_slot, core_at. destruct (cores s !! c) eqn:E; simpl; [|done].
  intros _. by eapply lookup_lt_Some.
Qed.

(** ** Updates that keep the invariant *)

(** A core update that moves neither the current task nor, out of range, the
    round-robin pointer. *)
Definition core_neutral (f : CoreState -> CoreState) : Prop :=
  forall c, (c_rr_slot c < MAX_TASKS)%nat ->
    c_current (f c) = c_current c /\ (c_rr_slot (f c) < MAX_TASKS)%nat.

(** A task update that keeps state, validity and core. *)
Definition task_neutral (f : TaskSlot -> TaskSlot) : Prop :=
  forall t, t_state (f t) = t_state t /\ t_valid (f t) = t_valid t /\ t_core (f t) = t_core t.

Lemma inv_core_neutral (s : Sched) (c : nat) (f : CoreState -> CoreState) :
  core_neutral f -> sched_inv s -> sched_inv (upd_core s c f).
Proof.
  intros Hf [Hl Hrr Hrun Hcur Hcore].
  assert (Hc : forall d, current_task_slot (upd_core s c f) d = current_task_slot s d).
  { intros d. unfold current_task_slot. rewrite core_at_upd. case_decide; [|done].
    apply Hf, Hrr. }
  split.
  - done.
  - intros d. rewrite core_at_upd. case_decide; [apply Hf, Hrr|apply Hrr].
  - intros i Hi. rewrite Hc. by apply Hrun.
  - intros d. rewrite !Hc. apply Hcur.
  - intros i Hi. rewrite length_cores_upd. by apply Hcore.
Qed.

Lemma inv_task_neutral (s : Sched) (i : nat) (f : TaskSlot -> TaskSlot) :
  task_neutral f -> sched_inv s -> sched_inv (upd_task s i f).
Proof.
  intros Hf [Hl Hrr Hrun Hcur Hcore].
  assert (Ht : forall j, t_state (task_at (upd_task s i f) j) = t_state (task_at s j) /\
    t_valid (task_at (upd_task s i f) j) = t_valid (task_at s j) /\
    t_core (task_at (upd_task s i f) j) = t_core (task_at s j)).
  { intros j. rewrite task_at_upd. case_decide; [apply Hf|done]. }
  split.
  - by rewrite length_tasks_upd.
  - done.
  - intros j. destruct (Ht j) as (-> & -> & ->). apply Hrun.
  - intros d Hd. destruct (Ht (current_task_slot (upd_task s i f) d)) as (_ & _ & ->). by apply Hcur.
  - intros j. destruct (Ht j) as (_ & -> & ->). apply Hcore.
Qed.

Lemma inv_set_state (s : Sched) (i : nat) (st : TaskState) :
  sched_inv s ->
  (st = Running -> t_valid (task_at s i) = true /\ current_task_slot s (t_core (task_at s i)) = i) ->
  sched_inv (upd_task s i (set_state st)).
Proof.
  intros [Hl Hrr Hrun Hcur Hcore] Hst. split.
  - by rewrite length_tasks_upd.
  - done.
  - intros j. rewrite task_at_upd. case_decide as Hd; [|apply Hrun].
    destruct Hd as [-> _]. simpl. intros ->. by apply Hst.
  - intros d Hd. rewrite task_at_upd. case_decide; by apply Hcur.
  - intros j. rewrite task_at_upd. case_decide; apply Hcore.
Qed.

(** Moving a core's claim: to no task, or to a running task of its own. *)
Lemma inv_set_current (s : Sched) (c n : nat) :
  sched_inv s -> t_state (task_at s (current_task_slot s c)) <> Running ->
  (n = IDLE \/ t_core (task_at s n) = c) ->
  sched_inv (upd_core s c (set_current n)).
Proof.
  intros [Hl Hrr Hrun Hcur Hcore] Hnr Hn.
  assert (Hc : forall d, current_task_slot (upd_core s c (set_current n)) d =
    if decide (c = d /\ (d < length (cores s))%nat) then n else current_task_slot s d).
  { intros d. unfold current_task_slot. rewrite core_at_upd. by case_decide. }
  split.
  - done.
  - intros d. rewrite core_at_upd. case_decide; apply Hrr.
  - intros i Hi. destruct (Hrun i Hi) as [Hv Hi']. split; [done|]. rewrite Hc.
    case_decide as Hd; [|done]. destruct Hd as [Hd _]. exfalso. apply Hnr.
    rewrite Hd, task_at_upd_core in *. by rewrite Hi'.
  - intros d. rewrite Hc. case_decide as Hd; [|apply Hcur]. intros Hlt.
    destruct Hd as [-> _]. destruct Hn as [->|Hn]; [unfold IDLE in Hlt; lia|done].
  - intros i Hi. rewrite length_cores_upd. by apply Hcore.
Qed.

Lemma neutral_leaving n : core_neutral (set_leaving n).
Proof. by intros c. Qed.
Lemma neutral_hint n : core_neutral (set_hint n).
Proof. by intros c. Qed.
Lemma neutral_hint_cas slot :
  core_neutral (fun c => if (c_wake_hint c =? MAX_TASKS)%nat then set_hint slot c else c).
Proof. intros c Hc. by case_match. Qed.
Lemma neutral_rr n : core_neutral (set_rr (n mod MAX_TASKS)).
Proof. intros c Hc. split; [done|]. apply Nat.mod_upper_bound. unfold MAX_TASKS. lia. Qed.
Lemma neutral_tick b : core_neutral (tick_core b).
Proof. by intros c. Qed.
Lemma neutral_tick_task : task_neutral tick_task.
Proof. by intros t. Qed.
Lemma neutral_pending b : task_neutral (set_pending b).
Proof. by intros t. Qed.
Lemma neutral_deadline d : task_neutral (set_deadline d).
Proof. by intros t. Qed.

#[export] Hint Resolve inv_core_neutral inv_task_neutral neutral_leaving neutral_hint neutral_hint_cas
  neutral_rr neutral_tick neutral_tick_task neutral_pending neutral_deadline : gs.

(** ** Picking *)

Lemma max_tasks_pos : (0 < MAX_TASKS)%nat.
Proof. unfold MAX_TASKS. lia. Qed.

(** The round-robin distance from the scan pointer to a slot. *)
Definition rr_dist (start k : nat) : nat := ((k + MAX_TASKS - start) mod MAX_TASKS)%nat.

Lemma rr_dist_reach (start k : nat) :
  (start < MAX_TASKS)%nat -> (k < MAX_TASKS)%nat ->
  (rr_dist start k < MAX_TASKS)%nat /\ ((start + rr_dist start k) mod MAX_TASKS = k)%nat.
Proof.
  intros Hs Hk. unfold rr_dist. pose proof max_tasks_pos as Hp.
  split; [apply Nat.mod_upper_bound; lia|].
  destruct (decide (start <= k)%nat).
  - replace (k + MAX_TASKS - start)%nat with (k - start + 1 * MAX_TASKS)%nat by lia.
    rewrite Nat.Div0.mod_add, (Nat.mod_small (k - start)) by lia.
    replace (start + (k - start))%nat with k by lia. by apply Nat.mod_small.
  - rewrite (Nat.mod_small (k + MAX_TASKS - start)) by lia.
    replace (start + (k + MAX_TASKS - start))%nat with (k + 1 * MAX_TASKS)%nat by lia.
    rewrite Nat.Div0.mod_add. by apply Nat.mod_small.
Qed.

Lemma rr_dist_step (start k p : nat) :
  (start < MAX_TASKS)%nat -> (k < MAX_TASKS)%nat -> (p < rr_dist start k)%nat ->
  rr_dist (((start + p) mod MAX_TASKS + 1) mod MAX_TASKS) k = (rr_dist start k - p - 1)%nat.
Proof.
  intros Hs Hk Hp. destruct (rr_dist_reach start k Hs Hk) as [Hd Hr].
  set (d := rr_dist start k) in *. pose proof max_tasks_pos as Hpos.
  rewrite Nat.Div0.add_mod_idemp_l.
  set (start' := ((start + p + 1) mod MAX_TASKS)%nat).
  assert (Hs' : (start' < MAX_TASKS)%nat) by (apply Nat.mod_upper_bound; lia).
  assert (Hk' : ((start' + (d - p - 1)) mod MAX_TASKS = k)%nat).
  { unfold start'. rewrite Nat.Div0.add_mod_idemp_l.
    by replace (start + p + 1 + (d - p - 1))%nat with (start + d)%nat by lia. }
  destruct (rr_dist_reach start' k Hs' Hk) as [Hd' Hr'].
  assert (Heq : forall x y, (x < MAX_TASKS)%nat -> (y < MAX_TASKS)%nat ->
    ((start' + x) mod MAX_TASKS = (start' + y) mod MAX_TASKS)%nat -> x = y).
  { intros x y Hx Hy Hxy.
    pose proof (Nat.div_mod (start' + x) MAX_TASKS ltac:(lia)) as E1.
    pose proof (Nat.div_mod (start' + y) MAX_TASKS ltac:(lia)) as E2.
    assert ((start' + x) / MAX_TASKS < 2 /\ (start' + y) / MAX_TASKS < 2)%nat as [B1 B2]
      by (split; apply Nat.Div0.div_lt_upper_bound; lia).
    rewrite Hxy in E1. revert E1 E2 B1 B2.
    generalize ((start' + x) / MAX_TASKS)%nat ((start' + y) / MAX_TASKS)%nat.
    intros [|[|q1]] [|[|q2]] E1 E2 B1 B2; lia. }
  apply Heq; [done|lia|congruence].
Qed.

Lemma rr_scan_cases (s : Sched) (c : nat) (start := c_rr_slot (core_at s c)) :
  (start < MAX_TASKS)%nat -> length (tasks s) = MAX_TASKS ->
  (rr_scan s c = (s, None) /\ forall i, schedulable s c i = false) \/
  (exists p, (p < MAX_TASKS)%nat /\
     let i := ((start + p) mod MAX_TASKS)%nat in
     schedulable s c i = true /\
     (forall k, schedulable s c k = true -> (p <= rr_dist start k)%nat) /\
     rr_scan s c = (upd_core s c (set_rr ((i + 1) mod MAX_TASKS)), Some i)).
Proof.
  intros Hs Hl. unfold rr_scan. fold start.
  assert (Hk : forall k, schedulable s c k = true -> (k < MAX_TASKS)%nat).
  { intros k Hk. unfold schedulable in Hk. to_prop. rewrite <- Hl. apply task_at_range. auto. }
  destruct (position _ _) as [p|] eqn:E.
  - right. exists p. pose proof (position_lt _ _ _ E) as Hp. rewrite length_seq in Hp.
    apply position_Some in E as [(x & [-> _]%lookup_seq & Hx) Hmin].
    split_and!; [done|done| |done].
    intros k Hsk. destruct (rr_dist_reach start k Hs (Hk k Hsk)) as [Hd Hr].
    destruct (decide (p <= rr_dist start k)%nat); [done|].
    rewrite <- Hr in Hsk. rewrite (Hmin (rr_dist start k) (rr_dist start k)) in Hsk; [done|lia|].
    apply lookup_seq. lia.
  - left. split; [done|]. intros k. destruct (schedulable s c k) eqn:Hsk; [|done].
    destruct (rr_dist_reach start k Hs (Hk k Hsk)) as [Hd Hr].
    rewrite position_None in E. rewrite <- Hr in Hsk.
    rewrite (E (rr_dist start k) (rr_dist start k)) in Hsk; [done|]. apply lookup_seq. lia.
Qed.

Lemma schedulable_core (s : Sched) (c d i : nat) (f : CoreState -> CoreState) :
  schedulable (upd_core s d f) c i = schedulable s c i.
Proof. done. Qed.

(** What every pick leaves alone. *)
Record same_claims (s s' : Sched) : Prop := mk_same_claims {
  sc_tasks : tasks s' = tasks s;
  sc_cores : length (cores s') = length (cores s);
  sc_current : forall c, current_task_slot s' c = current_task_slot s c
}.

Lemma same_claims_task (s s' : Sched) (i : nat) : same_claims s s' -> task_at s' i = task_at s i.
Proof. intros [Ht _ _]. unfold task_at. by rewrite Ht. Qed.

Lemma upd_core_claims (s : Sched) (c : nat) (f : CoreState -> CoreState) :
  (forall x, c_current (f x) = c_current x) -> same_claims s (upd_core s c f).
Proof.
  intros Hf. split; [done|apply length_cores_upd|]. intros d. unfold current_task_slot.
  rewrite core_at_upd. by case_decide.
Qed.

Lemma pick_next_cases (s : Sched) (c : nat) :
  sched_inv s ->
  match pick_next s c with
  | (s', None) => sched_inv s' /\ same_claims s s' /\ forall i, schedulable s c i = false
  | (s', Some i) => sched_inv s' /\ same_claims s s' /\ schedulable s c i = true
  end.
Proof.
  intros Hinv.
  assert (Hscan : forall s, sched_inv s ->
    match rr_scan s c with
    | (s', None) => sched_inv s' /\ same_claims s s' /\ forall i, schedulable s c i = false
    | (s', Some i) => sched_inv s' /\ same_claims s s' /\ schedulable s c i = true
    end).
  { intros t Ht. destruct (rr_scan_cases t c) as [[-> Hn]|(p & _ & Hi & _ & ->)];
      [apply Ht..| |]; split_and!; auto with gs; [done|by apply upd_core_claims]. }
  unfold pick_next. destruct (Nat.ltb_spec (c_wake_hint (core_at s c)) MAX_TASKS); [|by apply Hscan].
  set (s1 := upd_core s c (set_hint MAX_TASKS)).
  assert (H1 : sched_inv s1) by (unfold s1; auto with gs).
  assert (C1 : same_claims s s1) by (by apply upd_core_claims).
  destruct (schedulable s1 c (c_wake_hint (core_at s c))) eqn:Hh; [by split_and!|].
  specialize (Hscan s1 H1). destruct (rr_scan s1 c) as [s2 [i|]];
    destruct Hscan as (H2 & [T2 L2 X2] & Hs); destruct C1 as [T1 L1 X1];
    (split_and!; [done|split; congruence|done]).
Qed.

(** ** Each function keeps the invariant *)

Lemma schedulable_spec (s : Sched) (c i : nat) :
  schedulable s c i = true <->
  t_valid (task_at s i) = true /\ t_state (task_at s i) = Ready /\ t_core (task_at s i) = c.
Proof.
  unfold schedulable. rewrite !andb_true_iff, bool_decide_eq_true, Nat.eqb_eq. tauto.
Qed.

Definition not_running (s : Sched) (i : nat) : Prop := t_state (task_at s i) <> Running.

Lemma claim_next_spec (s : Sched) (c next : nat) :
  sched_inv s -> schedulable s c next = true -> not_running s (current_task_slot s c) ->
  (c < length (cores s))%nat ->
  exists s', claim_next s c next = (s', true) /\ sched_inv s' /\
    current_task_slot s' c = next /\ t_state (task_at s' next) = Running /\
    (forall j, j <> next -> task_at s' j = task_at s j) /\
    c_leaving (core_at s' c) = current_task_slot s c.
Proof.
  intros Hinv (Hv & Hst & Hcore)%schedulable_spec Hnr Hc.
  assert (Hn : (next < length (tasks s))%nat) by (apply task_at_range; auto).
  pose (s' := upd_task (core_release_current s c next) next (set_state Running)).
  exists s'. unfold claim_next, cas_state. rewrite bool_decide_true by done.
  change (core_release_current (upd_task s next (set_state Running)) c next) with s'.
  assert (Hrun : t_state (task_at s' next) = Running)
    by (unfold s'; rewrite task_at_upd, decide_True; done).
  assert (Hcur : current_task_slot (core_release_current s c next) c = next).
  { unfold current_task_slot, core_release_current.
    rewrite core_at_upd, decide_True; [done|]. by rewrite length_cores_upd. }
  split_and!; [by rewrite bool_decide_true| |done|done| |].
  - apply inv_set_state.
    + apply inv_set_current; [auto with gs| |by right].
      unfold current_task_slot. rewrite core_at_upd. by case_decide.
    + intros _. change (task_at (core_release_current s c next) next) with (task_at s next).
      rewrite Hcore. by split.
  - intros j Hj. unfold s'. rewrite task_at_upd, decide_False; [done|naive_solver].
  - unfold s'. rewrite core_at_upd_task. unfold core_release_current.
    rewrite core_at_upd, decide_True by (by rewrite length_cores_upd).
    rewrite core_at_upd, decide_True by done. done.
Qed.

Lemma inv_release_idle (s : Sched) (c : nat) :
  sched_inv s -> not_running s (current_task_slot s c) -> sched_inv (core_release_current s c IDLE).
Proof.
  intros Hinv Hnr. apply inv_set_current; [auto with gs| |by left].
  unfold current_task_slot. rewrite core_at_upd. by case_decide.
Qed.

Lemma inv_cas (s : Sched) (i : nat) (from to : TaskState) :
  sched_inv s ->
  (to = Running -> t_valid (task_at s i) = true /\ current_task_slot s (t_core (task_at s i)) = i) ->
  sched_inv (cas_state s i from to).1.
Proof.
  intros Hinv Hto. unfold cas_state. case_bool_decide; [|done]. by apply inv_set_state.
Qed.

Lemma is_live_spec (s : Sched) (i : nat) :
  is_live s i = true <-> (i < MAX_TASKS)%nat /\ t_valid (task_at s i) = true.
Proof. unfold is_live. by rewrite andb_true_iff, Nat.ltb_lt. Qed.

Lemma inv_account (s : Sched) (c prev : nat) : sched_inv s -> sched_inv (account s c prev).
Proof. intros Hinv. unfold account. case_match; auto with gs. Qed.

Lemma inv_demote (s : Sched) (prev : nat) :
  sched_inv s -> sched_inv (demote s prev) /\ not_running (demote s prev) prev.
Proof.
  intros Hinv. unfold demote. destruct (is_live s prev) eqn:Hl.
  - split; [by apply inv_cas|]. unfold not_running, cas_state. case_bool_decide as Hr; [|done].
    cbn [fst]. rewrite task_at_upd. case_decide as Hd; [done|].
    destruct Hd. split; [done|]. apply is_live_spec in Hl as [? _]. by rewrite (si_tasks _ Hinv).
  - split; [done|]. intros Hr. pose proof (si_running _ Hinv _ Hr) as [Hv _].
    assert (prev < MAX_TASKS)%nat
      by (rewrite <- (si_tasks _ Hinv); apply task_at_range; auto).
    assert (is_live s prev = true) by (by apply is_live_spec). congruence.
Qed.

Lemma inv_restore (s : Sched) (c prev : nat) :
  sched_inv s -> current_task_slot s c = prev -> sched_inv (restore s prev).
Proof.
  intros Hinv Hp. unfold restore. destruct (is_live s prev) eqn:Hl; [|done].
  apply is_live_spec in Hl as [Hlt Hv]. apply inv_cas; [done|]. intros _. split; [done|].
  subst prev. by rewrite (si_current _ Hinv).
Qed.

Lemma inv_reschedule (s : Sched) (c prev : nat) (pending : bool) :
  sched_inv s -> (c < length (cores s))%nat -> current_task_slot s c = prev -> not_running s prev ->
  sched_inv (reschedule s c prev pending).1.
Proof.
  intros Hinv Hc Hp Hnr. unfold reschedule.
  pose proof (pick_next_cases s c Hinv) as Hpick.
  destruct (pick_next s c) as [s1 [next|]]; destruct Hpick as (H1 & Hsame & Hs).
  - assert (Hcur : current_task_slot s1 c = prev) by (by rewrite (sc_current _ _ Hsame)).
    assert (Hnr1 : not_running s1 prev) by (unfold not_running; by rewrite (same_claims_task _ _ _ Hsame)).
    assert (Hidle : sched_inv (core_release_current s1 c IDLE))
      by (apply inv_release_idle; [done|by rewrite Hcur]).
    assert (Hs1 : schedulable s1 c next = true)
      by (apply schedulable_spec; rewrite (same_claims_task _ _ _ Hsame); by apply schedulable_spec).
    destruct ((c =? 0)%nat && pending); [by case_match|].
    destruct (Nat.eqb_spec next prev) as [->|Hne].
    + apply schedulable_spec in Hs1 as (Hv & _ & Hcore).
      apply inv_cas; [done|]. intros _. rewrite Hcore. by split.
    + destruct (claim_next_spec s1 c next) as (s2 & -> & H2 & _); [done|done|by rewrite Hcur| |done].
      by rewrite (sc_cores _ _ Hsame).
  - assert (Hcur : current_task_slot s1 c = prev) by (by rewrite (sc_current _ _ Hsame)).
    case_match; [|by apply (inv_restore _ c)].
    apply inv_release_idle; [done|]. unfold not_running.
    by rewrite Hcur, (same_claims_task _ _ _ Hsame).
Qed.

Lemma finished_claims (s : Sched) (c : nat) : same_claims s (core_finished_leaving s c).
Proof. by apply upd_core_claims. Qed.

Lemma cas_claims (s : Sched) (i d : nat) (from to : TaskState) :
  current_task_slot (cas_state s i from to).1 d = current_task_slot s d /\
  length (cores (cas_state s i from to).1) = length (cores s).
Proof. unfold cas_state. by case_bool_decide. Qed.

Lemma account_claims (s : Sched) (c prev d : nat) :
  current_task_slot (account s c prev) d = current_task_slot s d /\
  length (cores (account s c prev)) = length (cores s).
Proof.
  unfold account. destruct (upd_core_claims s c (tick_core (is_live s prev))) as [_ Hl Hc]; [done|].
  specialize (Hc d). destruct (is_live s prev); split; assumption.
Qed.

Lemma demote_claims (s : Sched) (prev d : nat) :
  current_task_slot (demote s prev) d = current_task_slot s d /\
  length (cores (demote s prev)) = length (cores s).
Proof. unfold demote. case_match; [apply cas_claims|done]. Qed.

Lemma inv_yield (s : Sched) (c : nat) (pending : bool) :
  sched_inv s -> (c < length (cores s))%nat -> sched_inv (yield_current s c pending).1.
Proof.
  intros Hinv Hc. unfold yield_current.
  set (s1 := core_finished_leaving s c). set (prev := current_task_slot s1 c).
  destruct (account_claims s1 c prev c) as [Ca La]. set (s2 := account s1 c prev) in *.
  destruct (demote_claims s2 prev c) as [Cd Ld]. 
  assert (H1 : sched_inv s1) by (unfold s1, core_finished_leaving; auto with gs).
  destruct (inv_demote s2 prev) as [H3 Hnr]; [by apply inv_account|].
  apply inv_reschedule; [done| |by rewrite Cd, Ca|done].
  rewrite Ld, La. unfold s1. by rewrite (sc_cores _ _ (finished_claims s c)).
Qed.

Lemma inv_wake (s : Sched) (my slot : nat) (r : Z) :
  sched_inv s -> sched_inv (wake_by_slot s my slot r).1.
Proof.
  intros Hinv. unfold wake_by_slot. case_match; [done|]. case_match; [done|].
  set (s1 := upd_task s slot _).
  assert (Hi1 : sched_inv s1).
  { pose (s0 := upd_task s slot (set_state Ready)).
    assert (Hi0 : sched_inv s0) by (by apply inv_set_state).
    replace s1 with (upd_task s0 slot (fun t => mkSlot (t_state t) (t_valid t) (t_core t) r true
                                                  (t_wake_deadline t) (t_run_ticks t))).
    - apply inv_task_neutral; [by intros t|done].
    - unfold s1, s0, upd_task. cbn [tasks cores MONOTONIC_TICKS POWER_PENDING]. f_equal.
      by rewrite alter_alter. }
  case_match; [done|]. cbn [fst]. auto with gs.
Qed.

Lemma inv_block (s : Sched) (c : nat) (st : TaskState) (s' : Sched) (r : block_result) :
  sched_inv s -> (c < length (cores s))%nat -> st <> Running ->
  block_and_reschedule s c st = Done (s', r) -> sched_inv s'.
Proof.
  intros Hinv Hc Hst. unfold block_and_reschedule.
  set (s1 := core_finished_leaving s c). set (slot := current_task_slot s1 c).
  assert (H1 : sched_inv s1) by (unfold s1, core_finished_leaving; auto with gs).
  assert (L1 : length (cores s1) = length (cores s)) by (apply (finished_claims s c)).
  destruct (is_live s1 slot) eqn:Hl; [|done]. cbn [negb].
  apply is_live_spec in Hl as [Hlt Hv].
  destruct (bool_decide (st = BlockedOnRecv) && _); [intros [= <- _]; auto with gs|].
  pose proof (inv_cas s1 slot Running st H1 ltac:(done)) as H2.
  destruct (cas_claims s1 slot c Running st) as [C2 L2].
  unfold cas_state in *. case_bool_decide as Hrun; [|intros [= <- _]; done].
  cbn [negb fst] in *. set (s2 := upd_task s1 slot (set_state st)) in *.
  assert (Hnr : not_running s2 (current_task_slot s2 c)).
  { rewrite C2. fold slot. unfold not_running, s2. rewrite task_at_upd, decide_True; [done|].
    split; [done|]. by rewrite (si_tasks _ H1). }
  pose proof (pick_next_cases s2 c H2) as Hpick.
  destruct (pick_next s2 c) as [s3 [next|]]; destruct Hpick as (H3 & Hsame & Hs).
  - destruct (claim_next_spec s3 c next) as (s4 & -> & H4 & _); [done| | | |by intros [= <- _]].
    + apply schedulable_spec. rewrite (same_claims_task _ _ _ Hsame). by apply schedulable_spec.
    + unfold not_running. rewrite (sc_current _ _ Hsame), (same_claims_task _ _ _ Hsame). done.
    + rewrite (sc_cores _ _ Hsame). congruence.
  - intros [= <- _]. apply inv_release_idle; [done|]. unfold not_running.
    by rewrite (sc_current _ _ Hsame), (same_claims_task _ _ _ Hsame).
Qed.

Lemma inv_run (s : Sched) (c : nat) :
  sched_inv s -> (c < length (cores s))%nat -> current_task_slot s c = IDLE ->
  sched_inv (run_once s c).1.
Proof.
  intros Hinv Hc Hidle. unfold run_once. set (s1 := core_finished_leaving s c).
  assert (H1 : sched_inv s1) by (unfold s1, core_finished_leaving; auto with gs).
  pose proof (finished_claims s c) as [T1 L1 C1]. fold s1 in T1, L1, C1.
  pose proof (pick_next_cases s1 c H1) as Hpick.
  destruct (pick_next s1 c) as [s2 [next|]]; destruct Hpick as (H2 & Hsame & Hs); [|done].
  destruct (claim_next_spec s2 c next) as (s3 & -> & H3 & _); [done| | | |done].
  - apply schedulable_spec. rewrite (same_claims_task _ _ _ Hsame). by apply schedulable_spec.
  - rewrite (sc_current _ _ Hsame), C1, Hidle. intros Hr.
    pose proof (task_at_range s2 IDLE) as Hlt. rewrite (si_tasks _ H2) in Hlt. unfold IDLE in *.
    rewrite Hr in Hlt. specialize (Hlt ltac:(by left)). lia.
  - rewrite (sc_cores _ _ Hsame). lia.
Qed.

Lemma inv_ticks (s : Sched) (t : Z) :
  sched_inv s -> sched_inv (mkSched (tasks s) (cores s) t (POWER_PENDING s)).
Proof. intros []. by split. Qed.

Lemma inv_wake_expired (now : Z) (s : Sched) (ipis : list nat) (l : list nat) :
  sched_inv s -> sched_inv (foldl (wake_expired now) (s, ipis) l).1 /\
  length (cores (foldl (wake_expired now) (s, ipis) l).1) = length (cores s).
Proof.
  revert s ipis. induction l as [|i l IH]; intros s ipis Hinv; [done|]. cbn [foldl].
  unfold wake_expired at 2 4. case_match; [|by apply IH].
  pose proof (inv_wake (upd_task s i (set_deadline 0)) 0 i 0 ltac:(auto with gs)) as Hw.
  assert (Hl : length (cores (wake_by_slot (upd_task s i (set_deadline 0)) 0 i 0).1) =
               length (cores s)).
  { unfold wake_by_slot. repeat case_match; try done. cbn [fst]. by rewrite length_cores_upd. }
  destruct (wake_by_slot _ 0 i 0) as [s1 ipi]. cbn [fst] in *.
  destruct (IH s1 (ipis ++ option_list ipi) Hw) as [H2 L2]. by rewrite L2, Hl.
Qed.

Lemma inv_tick (s : Sched) (c : nat) (p1 p2 : bool) (s' : Sched) (sw : switch) :
  sched_inv s -> (c < length (cores s))%nat ->
  timer_tick_from_irq s c p1 p2 = Some (s', sw) -> sched_inv s'.
Proof.
  intros Hinv Hc. unfold timer_tick_from_irq. set (s1 := core_finished_leaving s c).
  assert (H1 : sched_inv s1) by (unfold s1, core_finished_leaving; auto with gs).
  assert (L1 : length (cores s1) = length (cores s)) by (apply (finished_claims s c)).
  assert (Ht : match (if (c =? 0)%nat then scan_timed_wakes s1 else Ticked s1 []) with
    | Ticked s2 _ => sched_inv s2 /\ length (cores s2) = length (cores s1) | _ => True end).
  { destruct (c =? 0)%nat; [|done]. unfold scan_timed_wakes.
    destruct (negb _ && _); [by destruct (is_reboot _)|].
    pose proof (inv_wake_expired (wrap64 (MONOTONIC_TICKS s1 + 1))
      (mkSched (tasks s1) (cores s1) (wrap64 (MONOTONIC_TICKS s1 + 1)) (POWER_PENDING s1)) []
      (seq 0 MAX_TASKS) (inv_ticks s1 _ H1)) as [H2 L2].
    destruct (foldl _ _ _) as [s2 ipis]. by split. }
  destruct (if (c =? 0)%nat then _ else _) as [s2 ipis| |]; [|done..]. destruct Ht as [H2 L2].
  set (prev := current_task_slot s2 c).
  destruct (account_claims s2 c prev c) as [Ca La]. set (s3 := account s2 c prev) in *.
  destruct (demote_claims s3 prev c) as [Cd Ld].
  destruct (inv_demote s3 prev) as [H4 Hnr]; [by apply inv_account|].
  assert (Hcur : current_task_slot (demote s3 prev) c = prev) by (by rewrite Cd, Ca).
  case_match.
  - intros [= <- _]. apply inv_release_idle; [done|]. by rewrite Hcur.
  - intros [= E]. replace s' with (reschedule (demote s3 prev) c prev p2).1 by (by rewrite E).
    apply inv_reschedule; [done|lia|done|done].
Qed.

Lemma inv_reserve_slot (s : Sched) (core slot : nat) (s' : Sched) :
  sched_inv s -> (core < length (cores s))%nat -> reserve_task_slot s core = (s', Some slot) ->
  slot_left s slot -> sched_inv s'.
Proof.
  intros [Hl Hrr Hrun Hcur Hcore] Hc Hr Hleft. unfold reserve_task_slot in Hr.
  destruct (position _ _) as [i|] eqn:E; [|done]. injection Hr as <- <-.
  apply position_hit in E as (t & Ht & Hv). apply negb_true_iff in Hv.
  assert (Hti : task_at s i = t) by (unfold task_at; by rewrite Ht). split.
  - by rewrite length_tasks_upd.
  - done.
  - intros j. rewrite task_at_upd. case_decide as Hd; [|apply Hrun].
    destruct Hd as [-> _]. cbn [t_state t_valid t_core]. intros Hst.
    destruct (Hrun j Hst) as [Hvj _]. congruence.
  - intros d Hd. rewrite task_at_upd. case_decide as Hdd; [|by apply Hcur].
    destruct Hdd as [E _]. by destruct (Hleft d).
  - intros j. rewrite task_at_upd. case_decide; [done|apply Hcore].
Qed.

Lemma inv_set_invalid (s : Sched) (slot : nat) :
  sched_inv s -> t_state (task_at s slot) = Dead -> sched_inv (release_task_slot s slot).
Proof.
  intros [Hl Hrr Hrun Hcur Hcore] Hd. unfold release_task_slot. split.
  - by rewrite length_tasks_upd.
  - done.
  - intros j. rewrite task_at_upd. case_decide as Hj; [|apply Hrun].
    destruct Hj as [-> _]. cbn [set_valid t_state]. congruence.
  - intros c Hc. rewrite task_at_upd. case_decide; by apply Hcur.
  - intros j. rewrite task_at_upd. case_decide; [done|apply Hcore].
Qed.

Lemma inv_step (s s' : Sched) : sched_inv s -> sched_step s s' -> sched_inv s'.
Proof.
  intros Hinv [].
  - by apply inv_wake.
  - by apply inv_yield.
  - eapply inv_block; [done|done| |done]. naive_solver.
  - by apply inv_run.
  - by eapply inv_tick.
  - by eapply inv_reserve_slot.
  - by apply inv_set_state.
  - by apply inv_set_state.
  - by apply inv_set_invalid.
  - unfold set_wake_deadline. case_match; auto with gs.
  - destruct Hinv. by split.
Qed.

Lemma inv_boot (n : nat) : sched_inv (sched_boot n).
Proof.
  assert (Ht : forall i, task_at (sched_boot n) i = empty_slot).
  { intros i. unfold task_at. cbn [sched_boot tasks].
    destruct (replicate MAX_TASKS empty_slot !! i) eqn:E; [|done].
    by apply lookup_replicate in E as [-> _]. }
  assert (Hc : forall c, core_at (sched_boot n) c = idle_core).
  { intros c. unfold core_at. cbn [sched_boot cores].
    destruct (replicate n idle_core !! c) eqn:E; [|done].
    by apply lookup_replicate in E as [-> _]. }
  split.
  - apply length_replicate.
  - intros c. rewrite Hc. apply max_tasks_pos.
  - intros i. by rewrite Ht.
  - intros c. unfold current_task_slot. rewrite Hc. simpl. unfold IDLE. lia.
  - intros i. by rewrite Ht.
Qed.

(** ** Timed wakes *)

Definition expired (now : Z) (t : TaskSlot) : bool :=
  negb (t_wake_deadline t =? 0) && (t_wake_deadline t <=? now) &&
  bool_decide (t_state t = BlockedOnRecv).

Lemma expired_spec (now : Z) (t : TaskSlot) :
  expired now t = true <->
  t_state t = BlockedOnRecv /\ t_wake_deadline t <> 0 /\ t_wake_deadline t <= now.
Proof.
  unfold expired.
  rewrite !andb_true_iff, negb_true_iff, Z.eqb_neq, Z.leb_le, bool_decide_eq_true. tauto.
Qed.

(** What the scan does to one slot. *)
Definition after_scan (now : Z) (t : TaskSlot) : TaskSlot :=
  if expired now t then
    if t_valid t then mkSlot Ready true (t_core t) 0 true 0 (t_run_ticks t) else set_deadline 0 t
  else t.

Lemma wake_expired_tasks (now : Z) (s : Sched) (ipis : list nat) (i j : nat) :
  length (tasks s) = MAX_TASKS ->
  task_at (wake_expired now (s, ipis) i).1 j =
    (if decide (i = j) then after_scan now (task_at s j) else task_at s j) /\
  length (tasks (wake_expired now (s, ipis) i).1) = MAX_TASKS.
Proof.
  intros Hl. unfold wake_expired, after_scan. fold (expired now (task_at s i)).
  destruct (expired now (task_at s i)) eqn:He.
  - assert (Hi : (i < length (tasks s))%nat).
    { apply task_at_range. left. unfold expired in He. to_prop.
      rewrite bool_decide_eq_true in *. congruence. }
    pose proof (task_at_upd s i i (set_deadline 0)) as Ei. rewrite decide_True in Ei by done.
    unfold wake_by_slot. rewrite Ei. cbn [set_deadline t_valid t_state t_core].
    assert (Hnd : bool_decide (t_state (task_at s i) = Dead) = false).
    { apply bool_decide_false. unfold expired in He. to_prop.
      rewrite bool_decide_eq_true in *. congruence. }
    assert (Hlt : (i <? MAX_TASKS)%nat = true) by (apply Nat.ltb_lt; lia).
    rewrite Hlt, Hnd. cbn [andb]. destruct (t_valid (task_at s i)) eqn:Hv; cbn [negb].
    + assert (Hup : forall s', task_at s' j = task_at (upd_task (upd_task s i (set_deadline 0)) i
          (fun t => mkSlot Ready (t_valid t) (t_core t) 0 true (t_wake_deadline t) (t_run_ticks t))) j ->
        task_at s' j = (if decide (i = j) then (if expired now (task_at s j)
          then if t_valid (task_at s j) then mkSlot Ready true (t_core (task_at s j)) 0 true 0 (t_run_ticks (task_at s j))
               else set_deadline 0 (task_at s j) else task_at s j) else task_at s j)).
      { intros s' ->. rewrite !task_at_upd, length_tasks_upd. destruct (decide (i = j)) as [<-|Hne].
        - rewrite !decide_True by done. rewrite He. cbn [set_deadline t_valid t_core t_wake_deadline t_run_ticks].
          by rewrite Hv.
        - rewrite !decide_False by tauto. done. }
      destruct (t_core (task_at s i) =? 0)%nat; cbn [fst];
        (split; [by apply Hup|]); cbn [upd_core upd_task tasks]; by rewrite !length_alter.
    + cbn [fst]. split; [|by rewrite length_tasks_upd]. rewrite task_at_upd.
      destruct (decide (i = j)) as [<-|Hne]; [rewrite decide_True by done; by rewrite He, Hv|].
      by rewrite decide_False by tauto.
  - cbn [fst]. split; [|done]. destruct (decide (i = j)) as [<-|]; [by rewrite He|done].
Qed.

Lemma scan_fold_tasks (now : Z) (l : list nat) (s : Sched) (ipis : list nat) (j : nat) :
  length (tasks s) = MAX_TASKS -> NoDup l ->
  task_at (foldl (wake_expired now) (s, ipis) l).1 j =
    if decide (j ∈ l) then after_scan now (task_at s j) else task_at s j.
Proof.
  revert s ipis. induction l as [|i l IH]; intros s ipis Hl Hnd; cbn [foldl]; [done|].
  apply NoDup_cons in Hnd as [Hi Hnd].
  destruct (wake_expired_tasks now s ipis i j Hl) as [Ht Hl'].
  destruct (wake_expired now (s, ipis) i) as [s1 ipis1]. cbn [fst] in *.
  rewrite IH by done. rewrite Ht. destruct (decide (i = j)) as [<-|Hne].
  - rewrite decide_False, decide_True by set_solver. done.
  - destruct (decide (j ∈ l)); [rewrite decide_True by set_solver|rewrite decide_False by set_solver]; done.
Qed.

(** ** The power word *)

Lemma power_word (at_ : Z) (reboot : bool) :
  0 <= at_ < 2 ^ 63 ->
  let word := Z.lor (wrap64 (Z.shiftl at_ 1)) (if reboot then 1 else 0) in
  Z.shiftr word 1 = at_ /\ is_reboot word = reboot /\ (0 < at_ -> word <> 0).
Proof.
  intros Hat word. unfold word. rewrite Z.shiftl_mul_pow2 by lia. change (2 ^ 1) with 2.
  rewrite wrap64_small by (unfold u64_max; lia).
  assert (Hw : Z.lor (at_ * 2) (if reboot then 1 else 0) = at_ * 2 + (if reboot then 1 else 0)).
  { destruct reboot; [|rewrite Z.lor_0_r; lia].
    rewrite <- Z.lxor_lor; [rewrite <- Z.add_nocarry_lxor; [done|]|];
      (apply Z.bits_inj'; intros n Hn; rewrite Z.land_spec, Z.bits_0;
       destruct (decide (n = 0)) as [->|];
       [by rewrite Z.mul_comm, Z.testbit_even_0|
        rewrite (Z.bits_above_log2 1 n) by (simpl; lia); by rewrite andb_false_r]). }
  rewrite Hw. split_and!.
  - rewrite Z.shiftr_div_pow2 by lia. change (2 ^ 1) with 2. destruct reboot; dlia.
  - unfold is_reboot. change 1 with (Z.ones 1) at 2. rewrite Z.land_ones by lia.
    change (2 ^ 1) with 2. destruct reboot; apply Z.eqb_eq || apply Z.eqb_neq; dlia.
  - destruct reboot; lia.
Qed.

End SchedFacts.
Import SchedFacts.

(** ** Histories *)

(** Core [c] picks [n] times in a row, passing over slot [k] each time,
    although [k] is schedulable at every pick and no wake hint is posted;
    between picks the tasks change arbitrarily. *)
Inductive passed_over (c k : nat) : nat -> Sched -> Prop :=
| po_done s : passed_over c k 0 s
| po_pick n s s1 i s2 :
    sched_inv s -> schedulable s c k = true -> c_wake_hint (core_at s c) = MAX_TASKS ->
    pick_next s c = (s1, Some i) -> i <> k ->
    c_rr_slot (core_at s2 c) = c_rr_slot (core_at s1 c) ->
    passed_over c k n s2 ->
    passed_over c k (S n) s.

Lemma passed_over_bound (c k n : nat) (s : Sched) :
  (c < length (cores s))%nat -> passed_over c k n s ->
  n = 0%nat \/ (n <= rr_dist (c_rr_slot (core_at s c)) k)%nat.
Proof.
  intros Hc H. revert Hc. induction H as [s|n s s1 i s2 Hinv Hk Hh Hp Hne Hrr Hrest IH];
    intros Hc; [by left|right].
  unfold pick_next in Hp. rewrite Hh, Nat.ltb_irrefl in Hp.
  destruct (rr_scan_cases s c (si_rr _ Hinv c) (si_tasks _ Hinv))
    as [[E _]|(p & Hp' & Hi & Hmin & E)]; [congruence|].
  rewrite E in Hp. injection Hp as <- <-. specialize (Hmin k Hk).
  assert (Hklt : (k < MAX_TASKS)%nat).
  { apply schedulable_spec in Hk as [Hv _]. rewrite <- (si_tasks _ Hinv). apply task_at_range. auto. }
  destruct (rr_dist_reach _ k (si_rr _ Hinv c) Hklt) as [Hd Hr].
  assert (Hlt : (p < rr_dist (c_rr_slot (core_at s c)) k)%nat).
  { destruct (decide (p = rr_dist (c_rr_slot (core_at s c)) k)) as [->|]; [|lia].
    by destruct Hne. }
  rewrite core_at_upd, decide_True in Hrr by done. cbn [set_rr c_rr_slot] in Hrr.
  pose proof (rr_dist_step _ k p (si_rr _ Hinv c) Hklt Hlt) as Hstep. rewrite <- Hrr in Hstep.
  destruct n as [|n]; [lia|].
  assert (Hc2 : (c < length (cores s2))%nat).
  { inversion Hrest; subst. apply schedulable_spec in H1 as (Hv & _ & Hcore).
    rewrite <- Hcore. by apply H0. }
  destruct (IH Hc2); lia.
Qed.

(** ** Properties *)


(** [pick_next] is sound and complete.  It changes no task and no core's
    current task; it returns a valid [Ready] task pinned to the asking core,
    and returns nothing only when there is none; a posted wake hint that
    names a schedulable task is served first and the scan pointer does not
    move. *)
Theorem pick_next_correct (s : Sched) (c : nat) :
  sched_inv s ->
  match pick_next s c with
  | (s', None) => same_claims s s' /\ forall i, schedulable s c i = false
  | (s', Some i) =>
      same_claims s s' /\ (i < MAX_TASKS)%nat /\
      t_valid (task_at s i) = true /\ t_state (task_at s i) = Ready /\ t_core (task_at s i) = c /\
      (schedulable s c (c_wake_hint (core_at s c)) = true ->
       i = c_wake_hint (core_at s c) /\ c_rr_slot (core_at s' c) = c_rr_slot (core_at s c))
  end.
Proof.
  intros Hinv. pose proof (pick_next_cases s c Hinv) as H.
  assert (Hlt : forall i, schedulable s c i = true -> (i < MAX_TASKS)%nat).
  { intros i [Hv _]%schedulable_spec. rewrite <- (si_tasks _ Hinv). apply task_at_range. auto. }
  destruct (pick_next s c) as [s' [i|]] eqn:E; [|tauto]. destruct H as (_ & Hc & Hi).
  pose proof (Hlt i Hi). apply schedulable_spec in Hi as (Hv & Hst & Hcore). split_and!; try done.
  intros Hh. unfold pick_next in E.
  assert ((c_wake_hint (core_at s c) <? MAX_TASKS)%nat = true) as El by (apply Nat.ltb_lt; auto).
  rewrite El, schedulable_core, Hh in E. injection E as <- <-. split; [done|].
  rewrite core_at_upd. by case_decide.
Qed.

(** C39: No starvation by the round-robin scan.  While no wake hint is posted
    for a core, a schedulable task is passed over at most [MAX_TASKS - 1]
    times: whatever the other tasks do between picks, it is picked within
    [MAX_TASKS] picks, and the bound is its distance from the scan pointer. *)
Theorem pick_next_fair (s : Sched) (c k n : nat) :
  (c < length (cores s))%nat -> sched_inv s -> (k < MAX_TASKS)%nat -> passed_over c k n s ->
  (n <= rr_dist (c_rr_slot (core_at s c)) k)%nat /\ (n < MAX_TASKS)%nat.
Proof.
  intros Hc Hinv Hk Hn.
  destruct (rr_dist_reach _ k (si_rr _ Hinv c) Hk) as [Hd _].
  destruct (passed_over_bound c k n s Hc Hn); lia.
Qed.

(** The tick wakes exactly the tasks whose deadline has passed.  One tick
    of core 0 either ends the machine, which it does exactly when a pending
    power action has fallen due and by that action, or advances the clock by
    one and changes precisely the slots blocked in a receive whose armed
    deadline is not after the new time: each valid one becomes [Ready] with
    result 0, its deadline disarmed and its wake recorded. *)
Theorem scan_timed_wakes_correct (s : Sched) :
  length (tasks s) = MAX_TASKS -> 0 <= MONOTONIC_TICKS s < u64_max ->
  let now := MONOTONIC_TICKS s + 1 in
  let due := POWER_PENDING s <> 0 /\ Z.shiftr (POWER_PENDING s) 1 <= now in
  match scan_timed_wakes s with
  | RebootNow => due /\ is_reboot (POWER_PENDING s) = true
  | PowerOffNow => due /\ is_reboot (POWER_PENDING s) = false
  | Ticked s' _ =>
      ~ due /\
      forall i, task_at s' i =
        let t := task_at s i in
        if decide (t_state t = BlockedOnRecv /\ t_wake_deadline t <> 0 /\ t_wake_deadline t <= now)
        then if t_valid t then mkSlot Ready true (t_core t) 0 true 0 (t_run_ticks t)
             else set_deadline 0 t
        else t
  end.
Proof.
  intros Hl Hm now due. unfold scan_timed_wakes.
  rewrite wrap64_small by lia. fold now. cbn [POWER_PENDING].
  destruct (negb (POWER_PENDING s =? 0) && _) eqn:Hdue.
  - assert (due) by (unfold due; to_prop; split; [done|lia]). by destruct (is_reboot _) eqn:Hr.
  - pose proof (scan_fold_tasks now (seq 0 MAX_TASKS)
      (mkSched (tasks s) (cores s) now (POWER_PENDING s)) []) as Hf.
    destruct (foldl _ _ _) as [s' ipis]. cbn [fst tasks] in Hf. split.
    + unfold due. intros [H1 H2]. apply Z.leb_le in H2. apply Z.eqb_neq in H1.
      by rewrite H1, H2 in Hdue.
    + intros i. rewrite (Hf i Hl (NoDup_seq _ _)).
      change (task_at (mkSched (tasks s) _ _ _) i) with (task_at s i). cbv zeta.
      unfold after_scan. case_decide as Hi.
      * destruct (expired now (task_at s i)) eqn:He.
        -- by rewrite decide_True by (by apply expired_spec).
        -- rewrite decide_False; [done|]. intros Hx%expired_spec. congruence.
      * rewrite decide_False; [done|]. intros (Hb & _). apply Hi, elem_of_seq.
        split; [lia|]. rewrite <- Hl. apply (task_at_range s i). left. congruence.
Qed.

(** Operations on the pending power action, and ticks. *)
Inductive power_op := PArm (secs : Z) (reboot : bool) | PDisarm (reboot : bool) | PTick.

Fixpoint power_run (s : Sched) (ops : list power_op) : tick :=
  match ops with
  | [] => Ticked s []
  | PArm secs reboot :: ops => power_run (power_arm s secs reboot).1 ops
  | PDisarm reboot :: ops => power_run (power_disarm s reboot).1 ops
  | PTick :: ops =>
      match scan_timed_wakes s with
      | Ticked s _ => power_run s ops
      | t => t
      end
  end.

Definition is_tick (o : power_op) : bool := match o with PTick => true | _ => false end.

Definition fires (t : tick) (reboot : bool) : Prop :=
  t = if reboot then RebootNow else PowerOffNow.

Lemma scan_power (s : Sched) :
  match scan_timed_wakes s with
  | Ticked s' _ => MONOTONIC_TICKS s' = wrap64 (MONOTONIC_TICKS s + 1) /\ POWER_PENDING s' = POWER_PENDING s
  | _ => True
  end.
Proof.
  unfold scan_timed_wakes. destruct (negb _ && _); [by destruct (is_reboot _)|].
  assert (H : forall l s0 ipis, MONOTONIC_TICKS (foldl (wake_expired (wrap64 (MONOTONIC_TICKS s + 1)))
      (s0, ipis) l).1 = MONOTONIC_TICKS s0 /\
    POWER_PENDING (foldl (wake_expired (wrap64 (MONOTONIC_TICKS s + 1))) (s0, ipis) l).1 = POWER_PENDING s0).
  { induction l as [|i l IH]; intros s0 ipis; [done|]. cbn [foldl].
    unfold wake_expired at 2 4. case_match; [|apply IH].
    destruct (wake_by_slot _ 0 i 0) as [s1 ipi] eqn:Ew. destruct (IH s1 (ipis ++ option_list ipi)) as [-> ->].
    unfold wake_by_slot in Ew. repeat case_match; by simplify_eq/=. }
  destruct (H (seq 0 MAX_TASKS) (mkSched (tasks s) (cores s) (wrap64 (MONOTONIC_TICKS s + 1)) (POWER_PENDING s)) [])
    as [H1 H2].
  destruct (foldl _ _ _) as [s' ipis]. by split.
Qed.

(** A pending action that has not been overtaken, and cannot overflow. *)
Definition armed (s : Sched) (due : Z) (reboot : bool) : Prop :=
  POWER_PENDING s <> 0 /\ Z.shiftr (POWER_PENDING s) 1 = due /\ is_reboot (POWER_PENDING s) = reboot /\
  0 <= MONOTONIC_TICKS s <= due /\ due < 2 ^ 62.

(** An operation that does not cancel the action of kind [reboot], with a
    delay the system call accepts. *)
Definition harmless (reboot : bool) (o : power_op) : Prop :=
  match o with
  | PArm secs _ => 0 <= secs <= POWER_OFF_MAX_SECS
  | PDisarm r => r = negb reboot
  | PTick => True
  end.

Lemma armed_set (s : Sched) (at_ : Z) (reboot : bool) :
  0 < at_ < 2 ^ 62 -> 0 <= MONOTONIC_TICKS s <= at_ ->
  armed (set_power s (Z.lor (wrap64 (Z.shiftl at_ 1)) (if reboot then 1 else 0))) at_ reboot.
Proof.
  intros Hat Hm. pose proof (power_word at_ reboot) as W. cbv zeta in W.
  destruct W as (W1 & W2 & W3); [lia|]. specialize (W3 ltac:(lia)).
  revert W1 W2 W3. generalize (Z.lor (wrap64 (Z.shiftl at_ 1)) (if reboot then 1 else 0)).
  intros w W1 W2 W3. unfold armed. cbn [set_power POWER_PENDING MONOTONIC_TICKS].
  split_and!; try done; lia.
Qed.

Definition arm_tick (s : Sched) (secs : Z) : Z :=
  Z.max (saturating_add64 (MONOTONIC_TICKS s) (saturating_mul64 secs POWER_OFF_TICKS_PER_SEC)) 1.

Lemma power_arm_cases (s : Sched) (secs : Z) (r : bool) :
  (power_arm s secs r).1 = s \/
  (power_arm s secs r).1 =
     set_power s (Z.lor (wrap64 (Z.shiftl (arm_tick s secs) 1)) (if r then 1 else 0)) /\
  (POWER_PENDING s = 0 \/
   is_reboot (POWER_PENDING s) = r /\ arm_tick s secs < Z.shiftr (POWER_PENDING s) 1).
Proof.
  unfold power_arm. fold (arm_tick s secs).
  destruct (Z.eqb_spec (POWER_PENDING s) 0); [right; auto|].
  destruct (Bool.eqb (is_reboot (POWER_PENDING s)) r) eqn:Hk; [|by left]. apply eqb_prop in Hk.
  destruct (Z.leb_spec (Z.shiftr (POWER_PENDING s) 1) (arm_tick s secs)); [by left|right; auto].
Qed.

Lemma arm_tick_range (s : Sched) (secs : Z) :
  0 <= MONOTONIC_TICKS s < 2 ^ 62 -> 0 <= secs -> 
  0 < arm_tick s secs /\ MONOTONIC_TICKS s <= arm_tick s secs.
Proof.
  unfold arm_tick, saturating_add64, saturating_mul64, POWER_OFF_TICKS_PER_SEC, u64_max. lia.
Qed.

Lemma armed_arm (s : Sched) (due secs : Z) (reboot r : bool) :
  armed s due reboot -> 0 <= secs ->
  exists due', armed (power_arm s secs r).1 due' reboot /\ due' <= due /\
    MONOTONIC_TICKS (power_arm s secs r).1 = MONOTONIC_TICKS s.
Proof.
  intros Ha Hsecs. destruct Ha as (Hp & Hd & Hr & Hm & Hdue) eqn:HA.
  destruct (arm_tick_range s secs ltac:(lia) Hsecs) as [Hat Hle].
  destruct (power_arm_cases s secs r) as [E|[E [?|[<- Hlt]]]]; rewrite E; [|done|].
  - exists due. split; [done|]. split; [lia|done].
  - rewrite Hd in Hlt. exists (arm_tick s secs). rewrite Hr.
    split; [apply armed_set; lia|]. split; [lia|done].
Qed.

(** A pending power action is never postponed and never lost.  Once one
    is armed, any sequence of further arms (of either kind), cancels of the
    other kind and ticks leaves it pending, of the same kind, due no later
    than before, or has fired it; after as many ticks as it had left it has
    fired, by its own kind. *)
Theorem power_action_never_postponed (s : Sched) (due : Z) (reboot : bool) (ops : list power_op) :
  armed s due reboot -> Forall (harmless reboot) ops ->
  (fires (power_run s ops) reboot \/
   exists s' ipis due', power_run s ops = Ticked s' ipis /\ armed s' due' reboot /\ due' <= due /\
     MONOTONIC_TICKS s' = MONOTONIC_TICKS s + Z.of_nat (count is_tick ops)) /\
  (Z.max 1 (due - MONOTONIC_TICKS s) <= Z.of_nat (count is_tick ops) ->
   fires (power_run s ops) reboot).
Proof.
  intros Ha Hops.
  assert (Hmain : fires (power_run s ops) reboot \/
    exists s' ipis due', power_run s ops = Ticked s' ipis /\ armed s' due' reboot /\ due' <= due /\
      MONOTONIC_TICKS s' = MONOTONIC_TICKS s + Z.of_nat (count is_tick ops) /\
      ((0 < count is_tick ops)%nat -> MONOTONIC_TICKS s' < due)).
  { revert s due Ha. induction Hops as [|o ops Ho _ IH]; intros s due Ha; cbn [power_run].
    { right. eexists s, [], due. rewrite count_nil. split_and!; [done|done|lia|lia|lia]. }
    rewrite count_cons. destruct o as [secs r|r|]; cbn [is_tick harmless] in *.
    - destruct (armed_arm s due secs reboot r Ha (proj1 Ho)) as (d1 & Ha1 & Hd1 & Hm1).
      destruct (IH _ _ Ha1) as [|(s' & ipis & d & E & ? & ? & Hm & ?)]; [by left|right].
      exists s', ipis, d. split_and!; [done|done|lia|lia|lia].
    - subst r. assert ((power_disarm s (negb reboot)).1 = s) as ->.
      { destruct Ha as (Hp & _ & Hr & _). unfold power_disarm. apply Z.eqb_neq in Hp. rewrite Hp, Hr.
        by destruct reboot. }
      by apply IH.
    - pose proof (scan_power s) as Hsc. destruct Ha as (Hp & Hd & Hr & Hm & Hdue).
      destruct (scan_timed_wakes s) as [s1 ipis| |] eqn:Es.
      + destruct Hsc as [Hm1 Hp1]. rewrite wrap64_small in Hm1 by (unfold u64_max; lia).
        assert (Hlt : MONOTONIC_TICKS s + 1 < due).
        { unfold scan_timed_wakes in Es. rewrite wrap64_small in Es by (unfold u64_max; lia).
          cbn [POWER_PENDING] in Es. apply Z.eqb_neq in Hp. rewrite Hp, Hd in Es. cbn [negb andb] in Es.
          destruct (Z.leb_spec due (MONOTONIC_TICKS s + 1)); [by destruct (is_reboot _)|done]. }
        destruct (IH s1 due) as [|(s' & ip & d & E & ? & ? & ? & ?)]; [|by left|right].
        * unfold armed. rewrite Hp1, Hm1. split_and!; [done..|lia|lia|lia].
        * exists s', ip, d. split_and!; [done|done|lia|lia|].
          intros _. destruct (count is_tick ops); lia.
      + left. unfold fires. unfold scan_timed_wakes in Es. cbn [POWER_PENDING] in Es.
        rewrite Hr in Es. destruct (negb _ && _); [|by destruct (foldl _ _ _)]. by destruct reboot.
      + left. unfold fires. unfold scan_timed_wakes in Es. cbn [POWER_PENDING] in Es.
        rewrite Hr in Es. destruct (negb _ && _); [|by destruct (foldl _ _ _)]. by destruct reboot. }
  split; [naive_solver|]. intros Hn.
  destruct Hmain as [|(s' & ipis & d & _ & _ & Hle & Heq & Hlt)]; [done|lia].
Qed.

Lemma pick_next_some (s : Sched) (c k : nat) :
  (c_rr_slot (core_at s c) < MAX_TASKS)%nat -> length (tasks s) = MAX_TASKS ->
  schedulable s c k = true ->
  exists s' i, pick_next s c = (s', Some i) /\ schedulable s c i = true /\ tasks s' = tasks s.
Proof.
  intros Hrr Hl Hk.
  assert (Hscan : forall s, (c_rr_slot (core_at s c) < MAX_TASKS)%nat -> length (tasks s) = MAX_TASKS ->
    schedulable s c k = true ->
    exists s' i, rr_scan s c = (s', Some i) /\ schedulable s c i = true /\ tasks s' = tasks s).
  { intros t Ht Hlt Hkt. destruct (rr_scan_cases t c Ht Hlt) as [[_ Hn]|(p & _ & Hi & _ & ->)]; [|eauto].
    rewrite Hn in Hkt. done. }
  unfold pick_next. case_match; [|by apply Hscan].
  set (s1 := upd_core s c (set_hint MAX_TASKS)).
  destruct (schedulable s1 c (c_wake_hint (core_at s c))) eqn:Hh; [by eauto|].
  destruct (Hscan s1) as (s' & i & ? & ? & ?); [|done|done|by eauto].
  unfold s1. rewrite core_at_upd. by case_decide.
Qed.

Lemma claim_next_ready (s : Sched) (c next : nat) :
  t_valid (task_at s next) = true -> t_state (task_at s next) = Ready ->
  exists s', claim_next s c next = (s', true) /\
    forall j, t_valid (task_at s' j) = t_valid (task_at s j).
Proof.
  intros Hv Hst. unfold claim_next, cas_state. rewrite bool_decide_true by done.
  assert (Hn : (next < length (tasks s))%nat) by (apply task_at_range; auto).
  set (s' := core_release_current _ c next). exists s'.
  assert (Ht : forall j, task_at s' j = task_at (upd_task s next (set_state Running)) j) by done.
  split; [rewrite Ht, task_at_upd, decide_True by done; by rewrite bool_decide_true|].
  intros j. rewrite Ht, task_at_upd. by case_decide.
Qed.

(** A core whose current slot is [Dead], with another task ready for it. *)
Lemma yield_from_dead (s : Sched) (c i k : nat) :
  length (tasks s) = MAX_TASKS -> (forall d, (c_rr_slot (core_at s d) < MAX_TASKS)%nat) ->
  current_task_slot s c = i -> (i < MAX_TASKS)%nat -> t_state (task_at s i) = Dead ->
  schedulable s c k = true ->
  exists next, (yield_current s c false).2 =
    ToTask (if t_valid (task_at s i) then TaskCtx i else DeadCtx) next.
Proof.
  intros Hl Hrr Hcur Hi Hdead Hk. unfold yield_current.
  destruct (finished_claims s c) as [T1 _ C1]. set (s1 := core_finished_leaving s c) in *.
  rewrite C1, Hcur. destruct (Nat.ltb_spec i MAX_TASKS) as [_|]; [|lia]. cbn [andb].
  assert (Hinert : forall j, t_state (task_at (demote (account s1 c i) i) j) = t_state (task_at s j) /\
    t_valid (task_at (demote (account s1 c i) i) j) = t_valid (task_at s j) /\
    t_core (task_at (demote (account s1 c i) i) j) = t_core (task_at s j)).
  { intros j. assert (Ha : forall j, t_state (task_at (account s1 c i) j) = t_state (task_at s j) /\
      t_valid (task_at (account s1 c i) j) = t_valid (task_at s j) /\
      t_core (task_at (account s1 c i) j) = t_core (task_at s j)).
    { intros j'. unfold account. case_match; [|done]. rewrite task_at_upd. by case_decide. }
    unfold demote. case_match; [|apply Ha]. unfold cas_state.
    rewrite bool_decide_false; [apply Ha|]. destruct (Ha i) as [-> _]. congruence. }
  set (s2 := demote (account s1 c i) i) in *.
  assert (Hs : forall j, schedulable s2 c j = schedulable s c j).
  { intros j. destruct (Hinert j) as (E1 & E2 & E3). unfold schedulable. by rewrite E1, E2, E3. }
  assert (L2 : length (tasks s2) = MAX_TASKS /\ (c_rr_slot (core_at s2 c) < MAX_TASKS)%nat).
  { unfold s2, demote, account, cas_state, s1, core_finished_leaving. split.
    - repeat case_match; cbn [fst upd_core upd_task tasks]; rewrite ?length_alter; done.
    - repeat case_match; cbn [fst]; rewrite ?core_at_upd_task, ?core_at_upd;
        repeat case_decide; apply Hrr. }
  unfold reschedule.
  destruct (pick_next_some s2 c k) as (s3 & next & -> & Hnext & T3); [tauto..|by rewrite Hs|].
  rewrite andb_false_r.
  assert (Ht3 : forall j, task_at s3 j = task_at s2 j) by (intros j; unfold task_at; by rewrite T3).
  apply schedulable_spec in Hnext as (Hv & Hst & _).
  destruct (Nat.eqb_spec next i) as [->|Hne].
  { destruct (Hinert i) as (E & _). congruence. }
  destruct (claim_next_ready s3 c next) as (s4 & -> & Hv4); [by rewrite Ht3..|].
  exists next. cbn [snd]. unfold save_ctx. destruct (Nat.leb_spec MAX_TASKS i); [lia|].
  rewrite Hv4, Ht3. destruct (Hinert i) as (_ & -> & _). by destruct (t_valid (task_at s i)).
Qed.

(** A slot reused before its self-killed task has left receives the dead
    task's registers.  A task that killed itself is [Dead] in a slot already
    released but is still current on its core; when that core yields it
    discards the registers, as the code means to.  If another core reserves
    the slot first, the validity test that selects the save area succeeds
    for the new occupant, and the dead registers go to its context. *)
Theorem self_killed_slot_reuse_saves_into_new_task (s : Sched) (c i k core : nat) (s1 : Sched) :
  sched_inv s -> current_task_slot s c = i -> (i < MAX_TASKS)%nat ->
  t_state (task_at s i) = Dead -> t_valid (task_at s i) = false ->
  schedulable s c k = true ->
  reserve_task_slot s core = (s1, Some i) ->
  (exists next, (yield_current s c false).2 = ToTask DeadCtx next) /\
  (exists next, (yield_current s1 c false).2 = ToTask (TaskCtx i) next).
Proof.
  intros Hinv Hcur Hi Hd Hv Hk Hr.
  split; [destruct (yield_from_dead s c i k) as [next E]; try done; [apply Hinv..|];
          rewrite Hv in E; by exists next|].
  unfold reserve_task_slot in Hr. destruct (position _ _) as [i'|] eqn:E; [|done].
  injection Hr as <- <-. set (s1 := upd_task s i' _).
  assert (Hlt : (i' < length (tasks s))%nat) by (by eapply position_lt).
  assert (Hti : task_at s1 i' = mkSlot Dead true core (t_wakeup_err (task_at s i'))
    (t_wake_pending (task_at s i')) (t_wake_deadline (task_at s i')) (t_run_ticks (task_at s i'))).
  { unfold s1. rewrite task_at_upd, decide_True by done. by rewrite Hd. }
  destruct (yield_from_dead s1 c i' k) as [next E1]; try done.
  - unfold s1. rewrite length_tasks_upd. apply Hinv.
  - apply Hinv.
  - by rewrite Hti.
  - unfold schedulable. destruct (decide (k = i')) as [->|Hne].
    + apply schedulable_spec in Hk as (_ & Hst & _). congruence.
    + unfold s1. rewrite task_at_upd, decide_False by naive_solver. exact Hk.
  - rewrite Hti in E1. by exists next.
Qed.

(** ** Witnesses *)

(** Two tasks pinned to core 1 of two cores, both ready. *)
Definition sample_reserved (s : Sched) (core : nat) : Sched := (reserve_task_slot s core).1.
Definition sample_ready : Sched :=
  commit_ready (sample_reserved (commit_ready (sample_reserved (sched_boot 2) 1) 0) 1) 1.
(** Core 1 runs the first of them. *)
Definition sample_running : Sched := (run_once sample_ready 1).1.
(** The running task kills itself and its slot is released. *)
Definition sample_self_killed : Sched :=
  release_task_slot (upd_task sample_running 0 (set_state Dead)) 0.

Lemma boot_left (s : Sched) (slot : nat) : cores s = replicate 2 idle_core -> (slot < 224)%nat -> slot_left s slot.
Proof.
  intros Hs Hlt c. unfold current_task_slot, core_at. rewrite Hs.
  destruct (replicate 2 idle_core !! c) eqn:E.
  - apply lookup_replicate in E as [-> _]. cbn. unfold IDLE, MAX_TASKS. lia.
  - cbn. unfold IDLE, MAX_TASKS. lia.
Qed.

Lemma sample_ready_reachable : rtc sched_step (sched_boot 2) sample_ready.
Proof.
  eapply rtc_l; [apply (ss_reserve (sched_boot 2) 1 0 (sample_reserved (sched_boot 2) 1)); [vm_compute; lia|done|by apply boot_left; [|lia]]|].
  eapply rtc_l; [apply (ss_commit _ 0); done|].
  eapply rtc_l; [apply (ss_reserve _ 1 1 (sample_reserved (commit_ready (sample_reserved (sched_boot 2) 1) 0) 1)); [vm_compute; lia|done|by apply boot_left; [|lia]]|].
  eapply rtc_l; [apply (ss_commit _ 1); done|]. apply rtc_refl.
Qed.

Lemma sample_running_reachable : rtc sched_step (sched_boot 2) sample_running.
Proof.
  eapply rtc_r; [apply sample_ready_reachable|]. apply (ss_run sample_ready 1); [vm_compute; lia|done].
Qed.

Lemma sched_reachable_inv (n : nat) (s : Sched) : rtc sched_step (sched_boot n) s -> sched_inv s.
Proof.
  intros Hs. pose proof (inv_boot n) as Hb. induction Hs; [done|]. by eapply IHHs, inv_step.
Qed.


Lemma pick_next_correct_witness :
  match pick_next sample_ready 1 with
  | (_, Some i) => t_state (task_at sample_ready i) = Ready /\ t_core (task_at sample_ready i) = 1%nat
  | (_, None) => False
  end.
Proof.
  pose proof (pick_next_correct sample_ready 1 (sched_reachable_inv 2 _ sample_ready_reachable)) as H.
  assert (match pick_next sample_ready 1 with (_, Some _) => True | (_, None) => False end) as Hc
    by (vm_compute; exact I).
  destruct (pick_next sample_ready 1) as [s' [i|]]; [|destruct Hc].
  destruct H as (_ & _ & _ & H1 & H2 & _). exact (conj H1 H2).
Defined.

(** Slot 1 waits while slot 0 is picked: once, and no more than its distance. *)
Lemma pick_next_fair_witness :
  passed_over 1 1 1 sample_ready /\ (1 <= rr_dist (c_rr_slot (core_at sample_ready 1)) 1)%nat.
Proof.
  pose proof (sched_reachable_inv 2 _ sample_ready_reachable) as Hinv.
  assert (Hpo : passed_over 1 1 1 sample_ready).
  { assert (match pick_next sample_ready 1 with (_, Some i) => i = 0%nat | _ => False end) as Hc
      by (vm_compute; reflexivity).
    destruct (pick_next sample_ready 1) as [s1 [i|]] eqn:E; [|destruct Hc]. subst i.
    apply (po_pick 1 1 0 sample_ready s1 0 s1);
      [exact Hinv|reflexivity|reflexivity|exact E|lia|reflexivity|constructor]. }
  split; [exact Hpo|].
  apply (pick_next_fair sample_ready 1 1 1); [vm_compute; lia|exact Hinv|unfold MAX_TASKS; lia|exact Hpo].
Defined.

(** Slot 0 blocked in a receive until tick 1. *)
Definition sample_blocked : Sched :=
  upd_task sample_ready 0 (fun t => mkSlot BlockedOnRecv true 1 0 false 1 0).

Lemma scan_timed_wakes_correct_witness :
  match scan_timed_wakes sample_blocked with
  | Ticked s' _ => t_state (task_at s' 0) = Ready /\ t_wake_deadline (task_at s' 0) = 0
  | _ => False
  end.
Proof.
  pose proof (scan_timed_wakes_correct sample_blocked) as H. cbv zeta in H.
  assert (Hm : MONOTONIC_TICKS sample_blocked = 0) by reflexivity. rewrite Hm in H.
  assert (Hc : match scan_timed_wakes sample_blocked with Ticked _ _ => True | _ => False end)
    by (vm_compute; exact I).
  assert (E : task_at sample_blocked 0 = mkSlot BlockedOnRecv true 1 0 false 1 0) by reflexivity.
  destruct (scan_timed_wakes sample_blocked) as [s' ipis| |]; [|destruct Hc..].
  destruct H as [_ H]; [reflexivity|unfold u64_max; lia|].
  rewrite (H 0%nat), E. cbn [t_state t_wake_deadline t_valid].
  rewrite decide_True; [split; reflexivity|]. split; [reflexivity|lia].
Defined.

(** A power-off in two seconds, and a reboot request that cannot displace it. *)
Definition sample_armed : Sched := (power_arm (sched_boot 1) 2 false).1.

Lemma sample_armed_ok : armed sample_armed 200 false.
Proof. unfold armed. split_and!; vm_compute; congruence. Qed.

Lemma power_action_never_postponed_witness :
  fires (power_run sample_armed (PArm 1 true :: PArm 4 false :: replicate 200 PTick)) false.
Proof.
  apply (power_action_never_postponed sample_armed 200 false); [exact sample_armed_ok| |].
  - apply Forall_cons. split; [unfold harmless, POWER_OFF_MAX_SECS; lia|].
    apply Forall_cons. split; [unfold harmless, POWER_OFF_MAX_SECS; lia|].
    apply Forall_replicate. exact I.
  - vm_compute. congruence.
Defined.

Lemma sample_self_killed_inv : sched_inv sample_self_killed.
Proof.
  apply (sched_reachable_inv 2).
  eapply rtc_r; [eapply rtc_r; [apply sample_running_reachable|apply (ss_dead _ 0)]|].
  by apply (ss_release _ 0).
Qed.

Lemma self_killed_slot_reuse_witness :
  exists next,
    (yield_current (reserve_task_slot sample_self_killed 0).1 1 false).2 = ToTask (TaskCtx 0) next.
Proof.
  apply (self_killed_slot_reuse_saves_into_new_task sample_self_killed 1 0 1 0 _ sample_self_killed_inv);
    [reflexivity|unfold MAX_TASKS; lia|reflexivity|reflexivity|reflexivity|].
  assert ((reserve_task_slot sample_self_killed 0).2 = Some 0%nat) as E by reflexivity.
  destruct (reserve_task_slot sample_self_killed 0) as [s1 r]. cbn in *. by rewrite E.
Defined.
