(* ===== verification/Handshake.v ===== *)
(** * The scheduler's races

    [Sched] gives the meaning of each scheduling function when nothing else
    runs.  Here the same functions run on several cores at once, one atomic
    access of [kernel/src/task/scheduler.rs] at a time, in any order:

    - [Wake]: [block_and_reschedule] in a receiver against [wake_by_slot] in
      its senders;
    - [Leave]: cores entering and leaving tasks ([core_release_current],
      [core_finished_leaving]) against [kill_task_by_slot] reclaiming a
      task's kernel stack and page-table root.

    All the accesses involved are sequentially consistent in the source, or
    are to one location, so an execution is a sequence of steps. *)

From S2P Require Import Prelude Capability Queue Routing Sched.

Module Wake.

(** Where the receiving task stands: outside a receive; registered as the
    endpoint's blocked receiver, interrupts on; in [block_and_reschedule]
    past the swap of [TASK_WAKE_PENDING], interrupts off; switched out by it. *)
Inductive rpc := Working | Waiting | Swapped | Parked.

(** Where a sender stands: outside [wake_by_slot]; about to call it, having
    taken the registration; holding the state it loaded, before and after the
    store to [TASK_WAKE_PENDING]. *)
Inductive wpc := Idle | Took | Loaded (first : TaskState) | Stored (current : TaskState).

#[export] Instance wpc_eq_dec : EqDecision wpc.
Proof. solve_decision. Defined.

(** One endpoint, its receiver, and the senders. *)
Record state := mk {
  queued : nat;          (* messages in the endpoint's queue *)
  registered : bool;     (* the entry's blocked_receiver is the receiver *)
  st : TaskState;        (* TASK_STATE[receiver] *)
  pending : bool;        (* TASK_WAKE_PENDING[receiver] *)
  oncpu : bool;          (* the receiver is in its core's registers *)
  recv : rpc;
  wk : list wpc
}.

Inductive act :=
| Recv | Preempt | Resume | Swap | Cas
| Send (i : nat) | Load (i : nat) | Store (i : nat) | Retry (i : nat).

Definition boot (senders : nat) : state := mk 0 false Running false true Working (replicate senders Idle).

(** [handle_recv] up to [block_and_reschedule]: the dequeue, under the lock. *)
Definition do_recv (s : state) : option state :=
  match oncpu s, recv s with
  | true, Working =>
      match queued s with
      | S q => Some (mk q (registered s) (st s) (pending s) true Working (wk s))
      | O => Some (mk 0 true (st s) (pending s) true Waiting (wk s))
      end
  | _, _ => None
  end.

(** The timer takes the receiver off its core. *)
Definition preempt (s : state) : option state :=
  match oncpu s, recv s with
  | true, (Working | Waiting) =>
      Some (mk (queued s) (registered s) (if decide (st s = Running) then Ready else st s) (pending s)
              false (recv s) (wk s))
  | _, _ => None
  end.

(** The receiver's core picks and claims it. *)
Definition resume (s : state) : option state :=
  if oncpu s then None
  else if decide (st s = Ready) then
    Some (mk (queued s) (registered s) Running (pending s) true
            (match recv s with Parked => Working | r => r end) (wk s))
  else None.

(** [TASK_WAKE_PENDING[slot].swap(false)]: a wake already arrived, or not. *)
Definition swap_pending (s : state) : option state :=
  match oncpu s, recv s with
  | true, Waiting =>
      Some (mk (queued s) (registered s) (st s) false true (if pending s then Working else Swapped) (wk s))
  | _, _ => None
  end.

(** The compare-exchange Running to BlockedOnRecv. *)
Definition block_cas (s : state) : option state :=
  match recv s with
  | Swapped =>
      if decide (st s = Running)
      then Some (mk (queued s) (registered s) BlockedOnRecv (pending s) false Parked (wk s))
      else Some (mk (queued s) (registered s) (st s) (pending s) true Working (wk s))
  | _ => None
  end.

(** A sender's enqueue, under the lock; it takes the registration. *)
Definition send (s : state) (i : nat) : option state :=
  if (queued s <? QUEUE_DEPTH)%nat && bool_decide (wk s !! i = Some Idle) then
    Some (mk (S (queued s)) false (st s) (pending s) (oncpu s) (recv s)
            (if registered s then <[i := Took]> (wk s) else wk s))
  else None.

(** [wake_by_slot]: the first load of the state. *)
Definition wake_load (s : state) (i : nat) : option state :=
  match wk s !! i with
  | Some Took =>
      Some (mk (queued s) (registered s) (st s) (pending s) (oncpu s) (recv s)
              (<[i := if decide (st s = Dead) then Idle else Loaded (st s)]> (wk s)))
  | _ => None
  end.

(** [wake_by_slot]: the store to [TASK_WAKE_PENDING]. *)
Definition wake_store (s : state) (i : nat) : option state :=
  match wk s !! i with
  | Some (Loaded x) =>
      Some (mk (queued s) (registered s) (st s) true (oncpu s) (recv s) (<[i := Stored x]> (wk s)))
  | _ => None
  end.

(** [wake_by_slot]: one round of the compare-exchange loop. *)
Definition wake_retry (s : state) (i : nat) : option state :=
  match wk s !! i with
  | Some (Stored x) =>
      Some (if decide (x = Dead \/ x = Ready) then
              mk (queued s) (registered s) (st s) (pending s) (oncpu s) (recv s) (<[i := Idle]> (wk s))
            else if decide (st s = x) then
              mk (queued s) (registered s) Ready (pending s) (oncpu s) (recv s) (<[i := Idle]> (wk s))
            else
              mk (queued s) (registered s) (st s) (pending s) (oncpu s) (recv s) (<[i := Stored (st s)]> (wk s)))
  | _ => None
  end.

Definition exec (s : state) (a : act) : option state :=
  match a with
  | Recv => do_recv s | Preempt => preempt s | Resume => resume s
  | Swap => swap_pending s | Cas => block_cas s
  | Send i => send s i | Load i => wake_load s i | Store i => wake_store s i | Retry i => wake_retry s i
  end.

(** The receiver is resumed while a sender holds a state it loaded as Ready
    and has not yet recorded its wake. *)
Definition stale_ready (s : state) (a : act) : bool :=
  match a with Resume => bool_decide (Loaded Ready ∈ wk s) | _ => false end.

(** A sender that will still change the receiver's state. *)
Definition will_wake (w : wpc) : Prop :=
  match w with
  | Idle => False
  | Took => True
  | Loaded x | Stored x => x <> Ready
  end.

Definition will_record (w : wpc) : Prop := match w with Took | Loaded _ => True | _ => False end.

Record inv (s : state) : Prop := mk_inv {
  i_reg : registered s = true -> queued s = 0%nat;
  i_fresh : Loaded Ready ∈ wk s -> st s = Ready;
  i_alive : st s <> Dead /\ Loaded Dead ∉ wk s /\ Stored Dead ∉ wk s;
  i_on : oncpu s = true -> recv s <> Parked /\ (st s = Running \/ st s = Ready);
  i_off : oncpu s = false -> recv s <> Swapped /\ (recv s <> Parked -> st s = Ready);
  i_wait : recv s = Waiting ->
    registered s = true \/ pending s = true \/ exists w, w ∈ wk s /\ will_record w;
  i_swap : recv s = Swapped -> st s = Running ->
    registered s = true \/ exists w, w ∈ wk s /\ will_wake w;
  i_park : recv s = Parked -> st s = BlockedOnRecv ->
    registered s = true \/ exists w, w ∈ wk s /\ will_wake w
}.

(** The receiver sleeps, its registration is gone, and no sender is left in
    [wake_by_slot]: nothing will wake it. *)
Definition lost (s : state) : Prop :=
  recv s = Parked /\ st s = BlockedOnRecv /\ (0 < queued s)%nat /\ registered s = false /\
  oncpu s = false /\ Forall (eq Idle) (wk s).

End Wake.

Module Leave.

(** The four entries to the scheduler. *)
Inductive entry := Yield | Tick | Block | Loop.

(** Where a core stands.  [p] is the slot it was running when it entered
    ([prev]), [n] the slot it is going to ([next]). *)
Inductive pc :=
| Run                                (* in a task or in its scheduler context *)
| Doomed                             (* back from killing its own task: yields next *)
| Draining (e : entry)               (* entered; deferred stacks not yet freed *)
| Entered (e : entry) (p : nat)
| Picking (e : entry) (p : nat)      (* own task demoted or blocked *)
| Restoring (p : nat)                (* nothing to run: goes back to its task *)
| Picked (e : entry) (p n : nat)
| Claimed (p n : nat)                (* next is Running *)
| Releasing (p n : nat)              (* CORE_LEAVING stored *)
| Published (p n : nat)              (* CORE_CURRENT stored *)
| Commit (p n : nat)                 (* state re-read as Running *)
| Idle1 (p : nat)                    (* core_release_current(cid, IDLE) begins *)
| Idle2 (p : nat)                    (* its CORE_LEAVING stored *)
| Idle3 (p : nat)                    (* its CORE_CURRENT stored; a task's context is left *)
| KWait1 (s i : nat)                 (* killing s: reads CORE_CURRENT[i] *)
| KWait2 (s i : nat)                 (* then CORE_LEAVING[i] *)
| KFree (s : nat)                    (* no core uses s *)
| KDone (s : nat).                   (* memory freed *)

#[export] Instance entry_eq_dec : EqDecision entry.
Proof. solve_decision. Defined.
#[export] Instance pc_eq_dec : EqDecision pc.
Proof. solve_decision. Defined.

Record state := mk {
  ncores : nat;
  st : nat -> TaskState;         (* TASK_STATE *)
  valid : nat -> bool;           (* TASK_VALID *)
  fresh : nat -> bool;           (* reserved by a spawn that has not committed *)
  cur : nat -> nat;              (* CORE_CURRENT *)
  leav : nat -> nat;             (* CORE_LEAVING *)
  pcs : nat -> pc;
  pend : nat -> list nat;        (* CORE_PENDING_KSTACK *)
  pend_root : nat -> nat;        (* CORE_PENDING_PML4, IDLE if none *)
  on : nat -> nat;               (* whose stack and page tables the core is on; IDLE: the scheduler's *)
  stack : nat -> bool;           (* the slot's kernel stack is allocated *)
  root : nat -> bool             (* the slot's page-table root is allocated *)
}.

Definition boot (n : nat) : state :=
  mk n (fun _ => Dead) (fun _ => false) (fun _ => false) (fun _ => IDLE) (fun _ => IDLE) (fun _ => Run)
    (fun _ => []) (fun _ => IDLE) (fun _ => IDLE) (fun _ => false) (fun _ => false).

Definition PENDING_KSTACK_CAP : nat := 8.

Definition with_st h x := mk (ncores h) x (valid h) (fresh h) (cur h) (leav h) (pcs h) (pend h) (pend_root h) (on h) (stack h) (root h).
Definition with_valid h x := mk (ncores h) (st h) x (fresh h) (cur h) (leav h) (pcs h) (pend h) (pend_root h) (on h) (stack h) (root h).
Definition with_fresh h x := mk (ncores h) (st h) (valid h) x (cur h) (leav h) (pcs h) (pend h) (pend_root h) (on h) (stack h) (root h).
Definition with_cur h x := mk (ncores h) (st h) (valid h) (fresh h) x (leav h) (pcs h) (pend h) (pend_root h) (on h) (stack h) (root h).
Definition with_leav h x := mk (ncores h) (st h) (valid h) (fresh h) (cur h) x (pcs h) (pend h) (pend_root h) (on h) (stack h) (root h).
Definition with_pend h x y := mk (ncores h) (st h) (valid h) (fresh h) (cur h) (leav h) (pcs h) x y (on h) (stack h) (root h).
Definition with_on h x := mk (ncores h) (st h) (valid h) (fresh h) (cur h) (leav h) (pcs h) (pend h) (pend_root h) x (stack h) (root h).
Definition with_mem h x y := mk (ncores h) (st h) (valid h) (fresh h) (cur h) (leav h) (pcs h) (pend h) (pend_root h) (on h) x y.
Definition goto h c p := mk (ncores h) (st h) (valid h) (fresh h) (cur h) (leav h) (upd (pcs h) c p) (pend h) (pend_root h) (on h) (stack h) (root h).

(** [compare_exchange] on a task's state. *)
Definition cas (h : state) (i : nat) (from to : TaskState) : state :=
  if decide (st h i = from) then with_st h (upd (st h) i to) else h.

Definition is_task (p : nat) : bool := (p <? MAX_TASKS)%nat.

(** [core_finished_leaving], at each entry. *)
Definition enter (h : state) (c : nat) (e : entry) : option state :=
  let h' := with_leav h (upd (leav h) c IDLE) in
  match pcs h c, e with
  | Run, (Tick | Loop) => if decide (e = Loop -> cur h c = IDLE) then Some (goto h' c (Draining e)) else None
  | Run, Block => if is_task (cur h c) && valid h (cur h c) then Some (goto h' c (Entered Block (cur h c))) else None
  | (Run | Doomed), Yield => Some (goto h' c (Entered Yield (cur h c)))
  | _, _ => None
  end.

(** [drain_pending_kstack]: the stacks and the root of tasks that killed
    themselves on this core. *)
Definition drain (h : state) (c : nat) : option state :=
  match pcs h c with
  | Draining e =>
      let h1 := with_mem h (fun s => stack h s && bool_decide (s ∉ pend h c))
                  (fun s => root h s && bool_decide (s <> pend_root h c)) in
      let h2 := with_pend h1 (upd (pend h) c []) (upd (pend_root h) c IDLE) in
      Some (goto h2 c (Entered e (cur h c)))
  | _ => None
  end.

(** The core gives up its own task's [Running]: a yield or a tick makes it
    Ready, a block makes it Blocked or, losing the exchange, returns. *)
Definition demote (h : state) (c : nat) : option state :=
  match pcs h c with
  | Entered Block p =>
      Some (if decide (st h p = Running)
            then goto (with_st h (upd (st h) p BlockedOnRecv)) c (Picking Block p)
            else goto h c Run)
  | Entered Loop p => Some (goto h c (Picking Loop p))
  | Entered e p =>
      Some (goto (if is_task p && valid h p then cas h p Running Ready else h) c (Picking e p))
  | _ => None
  end.

(** [block_and_reschedule] finds a wake already recorded. *)
Definition decline (h : state) (c : nat) : option state :=
  match pcs h c with Entered Block p => Some (goto h c Run) | _ => None end.

(** [pick_next] returns a slot it saw Ready; its other reads only narrow the
    choice. *)
Definition pick (h : state) (c n : nat) : option state :=
  match pcs h c with
  | Picking e p => if is_task n && bool_decide (st h n = Ready) then Some (goto h c (Picked e p n)) else None
  | _ => None
  end.

(** [pick_next] returns nothing. *)
Definition pick_none (h : state) (c : nat) : option state :=
  match pcs h c with
  | Picking Block p => Some (goto h c (Idle1 p))
  | Picking Loop p => Some (goto h c Run)
  | Picking e p =>
      Some (goto h c (if is_task p && bool_decide (st h p = Dead) then Idle1 p else Restoring p))
  | _ => None
  end.

Definition restore (h : state) (c : nat) : option state :=
  match pcs h c with
  | Restoring p => Some (goto (if is_task p && valid h p then cas h p Ready Running else h) c Run)
  | _ => None
  end.

(** Core 0 hands over to its scheduler loop for a supervisor respawn. *)
Definition defer (h : state) (c : nat) : option state :=
  match pcs h c with
  | Picking Tick p => if is_task p then Some (goto h c (Idle1 p)) else None
  | Picked (Yield | Tick) p n => Some (goto h c (if is_task p then Idle1 p else Run))
  | _ => None
  end.

(** The exchange Ready to Running that claims [n]. *)
Definition claim (h : state) (c : nat) : option state :=
  match pcs h c with
  | Picked e p n =>
      Some (if decide (e <> Block /\ e <> Loop /\ n = p) then goto (cas h p Ready Running) c Run
            else if decide (st h n = Ready) then goto (with_st h (upd (st h) n Running)) c (Claimed p n)
            else goto h c (Idle1 p))
  | _ => None
  end.

(** [core_release_current(cid, next)]: its two stores. *)
Definition release (h : state) (c : nat) : option state :=
  match pcs h c with
  | Claimed p n => Some (goto (with_leav h (upd (leav h) c (cur h c))) c (Releasing p n))
  | Releasing p n => Some (goto (with_cur h (upd (cur h) c n)) c (Published p n))
  | _ => None
  end.

(** The re-read of the state after the fence. *)
Definition recheck (h : state) (c : nat) : option state :=
  match pcs h c with
  | Published p n => Some (goto h c (if decide (st h n = Running) then Commit p n else Idle1 p))
  | _ => None
  end.

(** [core_release_current(cid, IDLE)]: its two stores. *)
Definition release_idle (h : state) (c : nat) : option state :=
  match pcs h c with
  | Idle1 p => Some (goto (with_leav h (upd (leav h) c (cur h c))) c (Idle2 p))
  | Idle2 p => Some (goto (with_cur h (upd (cur h) c IDLE)) c (if is_task p then Idle3 p else Run))
  | _ => None
  end.

(** [switch_context]. *)
Definition switch (h : state) (c : nat) : option state :=
  match pcs h c with
  | Commit p n => Some (goto (with_on h (upd (on h) c n)) c Run)
  | Idle3 p => Some (goto (with_on h (upd (on h) c IDLE)) c Run)
  | _ => None
  end.

(** [kill_task_by_slot], the claim of the kill under the slot lock. *)
Definition kill (h : state) (c s : nat) : option state :=
  match pcs h c with
  | Run =>
      if is_task s && valid h s && bool_decide (st h s <> Dead)
      then Some (goto (with_st h (upd (st h) s Dead)) c (KWait1 s 0)) else None
  | _ => None
  end.

(** The spin-wait: each other core in turn, until it neither runs the slot
    nor is leaving it. *)
Definition kill_wait (h : state) (c : nat) : option state :=
  match pcs h c with
  | KWait1 s i =>
      if (ncores h <=? i)%nat then Some (goto h c (KFree s))
      else if (i =? c)%nat then Some (goto h c (KWait1 s (S i)))
      else Some (goto h c (if (cur h i =? s)%nat then KWait1 s i else KWait2 s i))
  | KWait2 s i => Some (goto h c (if (leav h i =? s)%nat then KWait1 s i else KWait1 s (S i)))
  | _ => None
  end.

(** The wait gives up: the slot keeps its memory and stays valid. *)
Definition kill_abandon (h : state) (c : nat) : option state :=
  match pcs h c with
  | KWait1 s i | KWait2 s i => Some (goto h c (if (cur h c =? s)%nat then Doomed else Run))
  | _ => None
  end.

(** The reclaim: at once for another core's task, deferred for the core's
    own; then the release of the slot. *)
Definition kill_free (h : state) (c : nat) : option state :=
  match pcs h c with
  | KFree s =>
      if (cur h c =? s)%nat then
        let h := with_valid h (upd (valid h) s false) in
        if (length (pend h c) <? PENDING_KSTACK_CAP)%nat
        then Some (goto (with_pend h (upd (pend h) c (pend h c ++ [s])) (upd (pend_root h) c s)) c Doomed)
        else Some (goto (with_pend (with_mem h (upd (stack h) s false) (root h)) (pend h) (upd (pend_root h) c s)) c Doomed)
      else Some (goto (with_mem h (upd (stack h) s false) (upd (root h) s false)) c (KDone s))
  | KDone s => Some (goto (with_valid (with_st h (upd (st h) s Dead)) (upd (valid h) s false)) c Run)
  | _ => None
  end.

(** [reserve_task_slot], and the stack and root the spawn allocates. *)
Definition reserve (h : state) (s : nat) : option state :=
  if is_task s && negb (valid h s) then
    Some (with_mem (with_fresh (with_valid h (upd (valid h) s true)) (upd (fresh h) s true))
            (upd (stack h) s true) (upd (root h) s true))
  else None.

(** [commit_task]. *)
Definition commit (h : state) (s : nat) : option state :=
  if fresh h s then Some (with_st (with_fresh h (upd (fresh h) s false)) (upd (st h) s Ready)) else None.

(** [release_task_slot], by a spawn that failed. *)
Definition unreserve (h : state) (s : nat) : option state :=
  if fresh h s then
    Some (with_mem (with_valid (with_fresh h (upd (fresh h) s false)) (upd (valid h) s false))
            (upd (stack h) s false) (upd (root h) s false))
  else None.

(** The exchange of [wake_by_slot]. *)
Definition wake (h : state) (s : nat) : option state :=
  if is_task s && valid h s && bool_decide (st h s <> Dead)
  then Some (with_st h (upd (st h) s Ready)) else None.

(** One step of one core. *)
Inductive move :=
| Enter (e : entry) | Drain | Demote | Decline | Pick (n : nat) | PickNone | Restore | Defer | Claim
| Release | Recheck | ReleaseIdle | Switch | Kill (s : nat) | KillWait | KillAbandon | KillFree
| Reserve (s : nat) | CommitTask (s : nat) | Unreserve (s : nat) | WakeUp (s : nat).

Definition exec (h : state) (a : nat * move) : option state :=
  let c := a.1 in
  if (ncores h <=? c)%nat then None
  else match a.2 with
  | Enter e => enter h c e | Drain => drain h c | Demote => demote h c | Decline => decline h c
  | Pick n => pick h c n | PickNone => pick_none h c | Restore => restore h c | Defer => defer h c
  | Claim => claim h c | Release => release h c | Recheck => recheck h c
  | ReleaseIdle => release_idle h c | Switch => switch h c
  | Kill s => kill h c s | KillWait => kill_wait h c | KillAbandon => kill_abandon h c
  | KillFree => kill_free h c
  | Reserve s => reserve h s | CommitTask s => commit h s | Unreserve s => unreserve h s
  | WakeUp s => wake h s
  end.

(** A core aborts a switch it has already published, while it stands on a
    task. *)
Definition abort_after_publish (h : state) (a : nat * move) : bool :=
  match a.2, pcs h a.1 with
  | Recheck, Published p n => is_task p && bool_decide (st h n <> Running)
  | _, _ => false
  end.

(** A slot is reserved while a core stands on its last task or has yet to
    free it. *)
Definition reserve_too_early (h : state) (a : nat * move) : bool :=
  match a.2 with
  | Reserve s => existsb (fun c => (on h c =? s)%nat || bool_decide (s ∈ pend h c) || (pend_root h c =? s)%nat)
                   (seq 0 (ncores h))
  | _ => false
  end.

(** A task kills itself on a core whose list of deferred stacks is full. *)
Definition pending_overflow (h : state) (a : nat * move) : bool :=
  match a.2, pcs h a.1 with
  | KillFree, KFree s => (cur h a.1 =? s)%nat && (PENDING_KSTACK_CAP <=? length (pend h a.1))%nat
  | _, _ => false
  end.

Definition hazard (h : state) (a : nat * move) : bool :=
  abort_after_publish h a || reserve_too_early h a || pending_overflow h a.

(** Every core stands on memory that is still its task's. *)
Definition safe (h : state) : Prop :=
  forall c, (c < ncores h)%nat -> (on h c < MAX_TASKS)%nat -> stack h (on h c) = true /\ root h (on h c) = true.

End Leave.

(** ** The receiver and its senders *)

Module WakeFacts.
Import Wake.

Lemma wake_boot_inv (n : nat) : inv (boot n).
Proof.
  split; simpl; try done; try naive_solver.
  - by intros ?%elem_of_replicate_inv.
  - split_and!; [done|by intros ?%elem_of_replicate_inv..].
Qed.

(** One sender moves from [w] to [w']: what the others do stands, and what
    it did stands if its own move keeps it. *)
Lemma others_stand (l : list wpc) (i : nat) (w w' : wpc) (P Q : wpc -> Prop) :
  l !! i = Some w -> (forall x, P x -> Q x) -> (P w -> Q w') ->
  (exists x, x ∈ l /\ P x) -> exists x, x ∈ <[i := w']> l /\ Q x.
Proof.
  intros Hi HPQ Hw (x & Hx & HP). apply list_elem_of_lookup in Hx as [j Hj].
  destruct (decide (i = j)) as [<-|Hne].
  - simplify_eq. exists w'. split; [|auto]. apply list_elem_of_lookup. exists i.
    apply list_lookup_insert_eq. by eapply lookup_lt_Some.
  - exists x. split; [|auto]. apply list_elem_of_lookup. exists j. by rewrite list_lookup_insert_ne.
Qed.

Lemma member_insert (l : list wpc) (i : nat) (x w : wpc) : x ∈ <[i := w]> l -> x = w \/ x ∈ l.
Proof.
  intros [j Hj]%list_elem_of_lookup. apply lookup_insert_cases in Hj as [(_ & ->)|(_ & Hj)]; [by left|].
  right. by eapply list_elem_of_lookup_2.
Qed.

Lemma member_new (l : list wpc) (i : nat) (w w' : wpc) : l !! i = Some w -> w' ∈ <[i := w']> l.
Proof.
  intros Hi. apply list_elem_of_lookup. exists i. apply list_lookup_insert_eq. by eapply lookup_lt_Some.
Qed.

Ltac members :=
  repeat match goal with
  | H : _ ∈ <[_ := _]> _ |- _ => apply member_insert in H as [H|H]
  | |- _ ∉ <[_ := _]> _ => intros [?|?]%member_insert
  end.

Lemma inv_recv (s s' : state) : inv s -> do_recv s = Some s' -> inv s'.
Proof. intros [] H. unfold do_recv in H. split_match; split; simpl; naive_solver. Qed.

Lemma inv_preempt (s s' : state) : inv s -> preempt s = Some s' -> inv s'.
Proof.
  intros [] H. unfold preempt in H. destruct (oncpu s) eqn:Eo; [|done].
  destruct (i_on0 eq_refl) as [_ Hon].
  assert (Hst : (if decide (st s = Running) then Ready else st s) = Ready) by (case_decide; naive_solver).
  rewrite Hst in H. destruct (recv s) eqn:Er; simplify_eq; split; simpl; try done; by destruct i_alive0.
Qed.

Lemma inv_resume (s s' : state) :
  inv s -> Loaded Ready ∉ wk s -> resume s = Some s' -> inv s'.
Proof. intros [] Hst H. unfold resume in H. split_match; split; simpl; naive_solver. Qed.

Lemma inv_swap (s s' : state) : inv s -> swap_pending s = Some s' -> inv s'.
Proof.
  intros [] H. unfold swap_pending in H. destruct (oncpu s) eqn:Eo; [|done].
  destruct (recv s) eqn:Er; try done. simplify_eq.
  clear i_swap0 i_park0. destruct (i_on0 eq_refl) as [_ Hon].
  destruct (pending s) eqn:Ep; split; simpl; try done.
  intros _ Hrun. destruct (i_wait0 eq_refl) as [?|[?|(w & Hw & Hrec)]]; [by left|done|right].
  exists w. split; [done|]. destruct w as [| |x|x]; try done. intros ->.
  rewrite (i_fresh0 Hw) in Hrun. done.
Qed.

Lemma wake_inv_cas (s s' : state) : inv s -> block_cas s = Some s' -> inv s'.
Proof.
  intros [] H. unfold block_cas in H. destruct (recv s) eqn:Er; try done.
  destruct (oncpu s) eqn:Eo; [|by destruct (i_off0 eq_refl)].
  destruct (i_on0 eq_refl) as [_ Hon]. destruct i_alive0 as (_ & Hl & Hs).
  case_decide as Hst; simplify_eq; split; simpl; try done.
  - intros Hl'. apply i_fresh0 in Hl'. congruence.
  - intros _ _. by apply i_swap0.
  - split_and!; [|done..]. by destruct Hon as [->| ->].
Qed.

Lemma inv_send (s s' : state) (i : nat) : inv s -> send s i = Some s' -> inv s'.
Proof.
  intros [] H. unfold send in H. destruct (_ && _) eqn:E; [|done].
  apply andb_true_iff in E as [_ E%bool_decide_eq_true]. simplify_eq. destruct i_alive0 as (Ha & Hl & Hs).
  destruct (registered s) eqn:Er; split; simpl; try done.
  all: try (intros; right; exists Took; split; [by eapply member_new|done]).
  - intros; members; [done|auto].
  - split_and!; [done|members; [done|auto]..].
  - intros. right; right. exists Took. split; [by eapply member_new|done].
Qed.

Lemma inv_load (s s' : state) (i : nat) : inv s -> wake_load s i = Some s' -> inv s'.
Proof.
  intros [] H. unfold wake_load in H. destruct (wk s !! i) as [[]|] eqn:E; try done.
  destruct i_alive0 as (Ha & Hl & Hs). rewrite decide_False in H by done. simplify_eq.
  split; simpl; try done.
  - intros; members; [congruence|auto].
  - split_and!; [done|members; congruence..].
  - intros Hr. destruct (i_wait0 Hr) as [?|[?|?]]; [by left|by right; left|right; right].
    by eapply others_stand; [..|done].
  - intros Hr Hst. destruct (i_swap0 Hr Hst) as [?|?]; [by left|right].
    eapply others_stand; [done|done| |done]. intros _. simpl. congruence.
  - intros Hr Hst. destruct (i_park0 Hr Hst) as [?|?]; [by left|right].
    eapply others_stand; [done|done| |done]. intros _. simpl. congruence.
Qed.

Lemma inv_store (s s' : state) (i : nat) : inv s -> wake_store s i = Some s' -> inv s'.
Proof.
  intros [] H. unfold wake_store in H. destruct (wk s !! i) as [[| |x|]|] eqn:E; try done. simplify_eq.
  destruct i_alive0 as (Ha & Hl & Hs). split; simpl; try done.
  - intros; members; [congruence|auto].
  - split_and!; [done|members; [congruence|auto]|members; [|auto]].
    simplify_eq. apply Hl. by eapply list_elem_of_lookup_2.
  - auto.
  - intros Hr Hst. destruct (i_swap0 Hr Hst) as [?|?]; [by left|right]. by eapply others_stand; [..|done].
  - intros Hr Hst. destruct (i_park0 Hr Hst) as [?|?]; [by left|right]. by eapply others_stand; [..|done].
Qed.

(** A sender's round of the loop that ends it, or that lost the exchange. *)
Lemma inv_retry (s s' : state) (i : nat) : inv s -> wake_retry s i = Some s' -> inv s'.
Proof.
  intros [] H. unfold wake_retry in H. destruct (wk s !! i) as [[| | |x]|] eqn:E; try done.
  destruct i_alive0 as (Ha & Hl & Hs).
  assert (Hx : x <> Dead) by (intros ->; apply Hs; by eapply list_elem_of_lookup_2).
  assert (Hrec : forall w', (exists w, w ∈ wk s /\ will_record w) ->
                 exists w, w ∈ <[i := w']> (wk s) /\ will_record w)
    by (intros w' Hw; by eapply others_stand; [..|done]).
  case_decide as Hd; [|case_decide as Hc]; simplify_eq; split; simpl; try done.
  all: try (by intros Hin; members; [congruence|auto]).
  all: try (intros Hr; destruct (i_wait0 Hr) as [?|[?|?]]; [by left|by right; left|by right; right; apply Hrec]).
  all: try (split_and!; [done|members; [congruence|auto]..]).
  all: try (by intros Ho; destruct (i_off0 Ho); auto).
  all: try (by intros Ho; destruct (i_on0 Ho); auto).
  - intros Hr Hst. destruct (i_swap0 Hr Hst) as [?|?]; [by left|right].
    eapply others_stand; [done|done| |done]. simpl. intuition congruence.
  - intros Hr Hst. destruct (i_park0 Hr Hst) as [?|?]; [by left|right].
    eapply others_stand; [done|done| |done]. simpl. intuition congruence.
  - intros Hr Hst. destruct (i_swap0 Hr Hst) as [?|?]; [by left|right].
    eapply others_stand; [done|done| |done]. simpl. intuition congruence.
  - intros Hr Hst. destruct (i_park0 Hr Hst) as [?|?]; [by left|right].
    eapply others_stand; [done|done| |done]. simpl. intuition congruence.
Qed.

Lemma inv_exec (s : state) (a : act) (s' : state) :
  inv s -> stale_ready s a = false -> exec s a = Some s' -> inv s'.
Proof.
  intros Hs Hh He. destruct a; simpl in *;
    [by eapply inv_recv|by eapply inv_preempt|apply bool_decide_eq_false in Hh; by eapply inv_resume
    |by eapply inv_swap|by eapply wake_inv_cas|by eapply inv_send|by eapply inv_load|by eapply inv_store
    |by eapply inv_retry].
Qed.

Lemma lost_exec (s : state) (a : act) (s' : state) :
  lost s -> no_hazard s a = false -> exec s a = Some s' -> lost s'.
Proof.
  intros (Hr & Hst & Hq & Hg & Ho & Hw) _ He.
  assert (Hidle : forall i w, wk s !! i = Some w -> w = Idle).
  { intros i w Hi. rewrite Forall_lookup in Hw. by rewrite (Hw i w Hi). }
  destruct a; simpl in He.
  1-5: unfold do_recv, preempt, resume, swap_pending, block_cas in He; rewrite ?Ho, ?Hr in He; try done.
  1: by rewrite Hst in He.
  - unfold send in He. destruct (_ && _); [|done]. rewrite Hg in He. simplify_eq.
    unfold lost; simpl. split_and!; try done; lia.
  - unfold wake_load in He. destruct (wk s !! i) as [w|] eqn:E; [|done]. by rewrite (Hidle i w E) in He.
  - unfold wake_store in He. destruct (wk s !! i) as [w|] eqn:E; [|done]. by rewrite (Hidle i w E) in He.
  - unfold wake_retry in He. destruct (wk s !! i) as [w|] eqn:E; [|done]. by rewrite (Hidle i w E) in He.
Qed.
End WakeFacts.

(** ** Entering, leaving and reclaiming tasks *)

Module LeaveFacts.
Import Leave.

(** What a core's position says about its published slots. *)
Definition position_ok (p : pc) (on cur leav : nat) : Prop :=
  match p with
  | Run | Doomed | KWait1 _ _ | KWait2 _ _ | KFree _ | KDone _ => cur = on
  | Draining e => cur = on /\ (e = Loop -> on = IDLE)
  | Entered e p => cur = on /\ on = p /\ (e = Loop -> p = IDLE)
  | Picking e p => cur = on /\ on = p /\ (e = Loop -> p = IDLE)
  | Restoring p | Picked _ p _ | Claimed p _ => cur = on /\ on = p
  | Releasing p _ => cur = on /\ on = p /\ leav = p
  | Published p n | Commit p n => cur = n /\ on = p /\ leav = p
  | Idle1 p => on = p /\ (cur = p \/ (MAX_TASKS <= p)%nat)
  | Idle2 p => on = p /\ ((cur = p /\ leav = p) \/ (MAX_TASKS <= p)%nat)
  | Idle3 p => on = p /\ leav = p /\ cur = IDLE
  end.

(** The slot a core is going to. *)
Definition target (p : pc) : option nat :=
  match p with
  | Picked _ _ n | Claimed _ n | Releasing _ n | Published _ n | Commit _ n => Some n
  | _ => None
  end.

Definition committed (p : pc) : option nat := match p with Commit _ n => Some n | _ => None end.

Definition killing (p : pc) : option nat :=
  match p with KWait1 s _ | KWait2 s _ | KFree s | KDone s => Some s | _ => None end.

(** A killer of [s] at [p] has found core [j] clear. *)
Definition scanned (p : pc) (n j : nat) : Prop :=
  match p with
  | KWait1 _ i | KWait2 _ i => (j < i)%nat
  | KFree _ | KDone _ => (j < n)%nat
  | _ => False
  end.

(** From these positions a core may go back to its task. *)
Definition resting (p : pc) : bool :=
  match p with
  | Run | Draining _ | Restoring _ | KWait1 _ _ | KWait2 _ _ | KFree _ | KDone _ => true
  | Entered e _ => bool_decide (e <> Yield)
  | _ => false
  end.

Definition clear (h : state) (j s : nat) : Prop := on h j <> s /\ committed (pcs h j) <> Some s.

(** Core [j] was read as not running [s]: if it still stands on it, it is past
    the store that says it is leaving. *)
Definition half_clear (h : state) (j s : nat) : Prop :=
  committed (pcs h j) <> Some s /\
  (on h j = s -> match pcs h j with Published _ _ | Commit _ _ | Idle3 _ => True | _ => False end).

(** Slot [s] is dead and no spawn has it. *)
Definition gone (h : state) (s : nat) : Prop := st h s = Dead /\ fresh h s = false /\ (s < MAX_TASKS)%nat.

Definition deferred (h : state) (c s : nat) : Prop := s ∈ pend h c \/ (pend_root h c = s /\ (s < MAX_TASKS)%nat).

#[export] Instance deferred_dec (h : state) (c s : nat) : Decision (deferred h c s).
Proof. unfold deferred. apply _. Defined.

Definition mem_ok (h : state) (s : nat) : Prop := stack h s = true /\ root h s = true.

Record inv (h : state) : Prop := mk_inv {
  v_pos : forall c, position_ok (pcs h c) (on h c) (cur h c) (leav h c);
  v_live : forall s, st h s <> Dead -> valid h s = true /\ mem_ok h s;
  v_fresh : forall s, fresh h s = true ->
    (st h s = Dead /\ valid h s = true /\ mem_ok h s) /\ forall j, clear h j s;
  v_on : forall c, (on h c < MAX_TASKS)%nat -> mem_ok h (on h c);
  v_commit : forall c n, committed (pcs h c) = Some n -> valid h n = true /\ mem_ok h n;
  v_kill : forall k s, killing (pcs h k) = Some s -> gone h s /\ valid h s = true;
  v_one : forall k k' s, killing (pcs h k) = Some s -> killing (pcs h k') = Some s -> k = k';
  v_scan : forall k s j, killing (pcs h k) = Some s -> scanned (pcs h k) (ncores h) j -> j <> k -> clear h j s;
  v_half : forall k s j, pcs h k = KWait2 s j -> half_clear h j s;
  v_done : forall k s, pcs h k = KDone s -> on h k <> s;
  v_pend : forall c s, deferred h c s -> gone h s /\ valid h s = false;
  v_others : forall c s j, deferred h c s -> j <> c -> clear h j s;
  v_rest : forall c s, deferred h c s -> resting (pcs h c) = true -> on h c <> s;
  v_target : forall c s, deferred h c s -> target (pcs h c) <> Some s;
  v_task : forall s, st h s <> Dead \/ fresh h s = true -> (s < MAX_TASKS)%nat;
  v_range : forall c, (on h c <= MAX_TASKS)%nat /\ forall n, target (pcs h c) = Some n -> (n < MAX_TASKS)%nat;
  v_cores : forall c, (ncores h <= c)%nat -> pcs h c = Run /\ on h c = IDLE /\ pend h c = [] /\ pend_root h c = IDLE
}.

Lemma leave_boot_inv (n : nat) : inv (boot n).
Proof.
  assert (Hd : forall c s, ~ deferred (boot n) c s).
  { intros c s [H|[H Hlt]]; simpl in H; [set_solver|]. unfold IDLE in H. lia. }
  split; simpl; try done; try (intros c Hlt; unfold IDLE in *; lia); try (intros; exfalso; by eapply Hd).
  naive_solver.
Qed.

(** What one core's step may change when it touches only its own position and
    its own published slots. *)
Record local_step (h h' : state) (c : nat) : Prop := mk_local {
  l_c : (c < ncores h)%nat;
  l_n : ncores h' = ncores h;
  l_st : st h' = st h;
  l_valid : valid h' = valid h;
  l_fresh : fresh h' = fresh h;
  l_pend : pend h' = pend h /\ pend_root h' = pend_root h;
  l_mem : stack h' = stack h /\ root h' = root h;
  l_others : forall j, j <> c ->
    pcs h' j = pcs h j /\ on h' j = on h j /\ cur h' j = cur h j /\ leav h' j = leav h j;
  l_pos : position_ok (pcs h' c) (on h' c) (cur h' c) (leav h' c);
  l_on : on h' c = on h c \/ on h' c = IDLE \/ committed (pcs h c) = Some (on h' c);
  l_commit : forall n, committed (pcs h' c) = Some n -> st h n <> Dead;
  l_target : forall n, target (pcs h' c) = Some n -> target (pcs h c) = Some n \/ st h n <> Dead;
  l_kill : forall s, killing (pcs h' c) = Some s -> killing (pcs h c) = Some s;
  l_scan : forall s j, killing (pcs h' c) = Some s -> scanned (pcs h' c) (ncores h) j -> j <> c ->
    scanned (pcs h c) (ncores h) j \/ clear h j s;
  l_half : forall s j, pcs h' c = KWait2 s j -> j <> c /\ half_clear h j s;
  l_done : forall s, pcs h' c = KDone s -> on h' c <> s;
  l_rest : forall s, deferred h c s -> resting (pcs h' c) = true -> on h' c <> s;
  l_keep : forall s, (s < MAX_TASKS)%nat -> half_clear h c s ->
    on h' c = s -> match pcs h' c with Published _ _ | Commit _ _ | Idle3 _ => True | _ => False end
}.

Section Local.
Context (h h' : state) (c : nat) (Hi : inv h) (Hl : local_step h h' c).

Lemma local_mem (s : nat) : mem_ok h s -> mem_ok h' s.
  Proof. destruct (l_mem _ _ _ Hl) as [E1 E2]. unfold mem_ok. by rewrite E1, E2. Qed.

Lemma local_gone (s : nat) : gone h' s <-> gone h s.
  Proof. unfold gone. by rewrite (l_st _ _ _ Hl), (l_fresh _ _ _ Hl). Qed.

Lemma local_deferred (k s : nat) : deferred h' k s <-> deferred h k s.
  Proof. unfold deferred. destruct (l_pend _ _ _ Hl) as [-> ->]. done. Qed.

Lemma local_clear (j s : nat) : st h s = Dead -> (s < MAX_TASKS)%nat -> clear h j s -> clear h' j s.
  Proof.
    intros Hd Hlt [Hon Hco]. destruct (decide (j = c)) as [->|Hne].
    - split.
      + destruct (l_on _ _ _ Hl) as [->|[->|E]]; [done|unfold IDLE; lia|congruence].
      + intros E. by apply (l_commit _ _ _ Hl) in E.
    - destruct (l_others _ _ _ Hl j Hne) as (E1 & E2 & _). unfold clear. by rewrite E1, E2.
  Qed.

Lemma local_half (j s : nat) : gone h s -> half_clear h j s -> half_clear h' j s.
  Proof.
    intros (Hd & _ & Hlt) Hh. destruct (decide (j = c)) as [->|Hne].
    - split; [|by apply (l_keep _ _ _ Hl)]. intros E. by apply (l_commit _ _ _ Hl) in E.
    - destruct (l_others _ _ _ Hl j Hne) as (E1 & E2 & _). unfold half_clear. by rewrite E1, E2.
  Qed.

Lemma local_killing (k s : nat) : killing (pcs h' k) = Some s -> killing (pcs h k) = Some s.
  Proof.
    intros E. destruct (decide (k = c)) as [->|Hne]; [by apply (l_kill _ _ _ Hl)|].
    by destruct (l_others _ _ _ Hl k Hne) as (<- & _).
  Qed.

Lemma inv_local : inv h'.
  Proof.
    destruct Hi. split.
    - intros j. destruct (decide (j = c)) as [->|Hne]; [apply (l_pos _ _ _ Hl)|].
      destruct (l_others _ _ _ Hl j Hne) as (-> & -> & -> & ->). done.
    - intros s. rewrite (l_st _ _ _ Hl), (l_valid _ _ _ Hl). intros H.
      destruct (v_live0 s H). split; [done|by apply local_mem].
    - intros s. rewrite (l_fresh _ _ _ Hl), (l_st _ _ _ Hl), (l_valid _ _ _ Hl). intros H.
      destruct (v_fresh0 s H) as [(? & ? & ?) Hcl]. split_and!; [done..|by apply local_mem|].
      intros j. apply local_clear; [done|by apply v_task0; right|done].
    - intros j Hlt. apply local_mem. destruct (decide (j = c)) as [->|Hne].
      + destruct (l_on _ _ _ Hl) as [E|[E|E]]; [rewrite E in *; auto|unfold IDLE in *; lia|by apply (v_commit0 c)].
      + destruct (l_others _ _ _ Hl j Hne) as (_ & E & _). rewrite E in *. auto.
    - intros j n E. rewrite (l_valid _ _ _ Hl).
      assert (valid h n = true /\ mem_ok h n) as [? ?]; [|split; [done|by apply local_mem]].
      destruct (decide (j = c)) as [->|Hne]; [by apply v_live0, (l_commit _ _ _ Hl)|].
      destruct (l_others _ _ _ Hl j Hne) as (E' & _). rewrite E' in E. eauto.
    - intros k s E%local_killing. rewrite local_gone, (l_valid _ _ _ Hl). eauto.
    - intros k k' s E%local_killing E'%local_killing. eauto.
    - intros k s j E Hsc Hjk. rewrite (l_n _ _ _ Hl) in Hsc.
      pose proof (local_killing _ _ E) as E0. destruct (v_kill0 k s E0) as [(? & ? & ?) _].
      apply local_clear; [done..|]. destruct (decide (k = c)) as [->|Hne].
      + destruct (l_scan _ _ _ Hl s j E Hsc Hjk); eauto.
      + destruct (l_others _ _ _ Hl k Hne) as (E' & _). rewrite E' in Hsc. eauto.
    - intros k s j E. assert (E1 : killing (pcs h' k) = Some s) by by rewrite E.
      apply local_killing in E1. destruct (v_kill0 k s E1) as [Hg _]. apply local_half; [done|].
      destruct (decide (k = c)) as [->|Hne]; [by apply (l_half _ _ _ Hl)|].
      destruct (l_others _ _ _ Hl k Hne) as (E' & _). rewrite E' in E. eauto.
    - intros k s E. destruct (decide (k = c)) as [->|Hne]; [by apply (l_done _ _ _ Hl)|].
      destruct (l_others _ _ _ Hl k Hne) as (E' & E2 & _). rewrite E' in E. rewrite E2. eauto.
    - intros k s E%local_deferred. rewrite local_gone, (l_valid _ _ _ Hl). eauto.
    - intros k s j E%local_deferred Hne. apply local_clear; [by apply (v_pend0 k)..|eauto].
    - intros k s E%local_deferred. destruct (decide (k = c)) as [->|Hne]; [by apply (l_rest _ _ _ Hl)|].
      destruct (l_others _ _ _ Hl k Hne) as (-> & -> & _). eauto.
    - intros k s E%local_deferred. destruct (decide (k = c)) as [->|Hne].
      + intros [Ht|Ht]%(l_target _ _ _ Hl); [by eapply v_target0|]. by destruct (v_pend0 c s E) as [[? _] _].
      + destruct (l_others _ _ _ Hl k Hne) as (-> & _). eauto.
    - intros s. rewrite (l_st _ _ _ Hl), (l_fresh _ _ _ Hl). auto.
    - intros k. destruct (decide (k = c)) as [->|Hne].
      + destruct (v_range0 c) as [Hon Ht]. split.
        * destruct (l_on _ _ _ Hl) as [->|[->|E]]; [done|unfold IDLE; lia|].
          destruct (pcs h c); try done. simplify_eq/=. apply Nat.lt_le_incl. auto.
        * intros n [H|H]%(l_target _ _ _ Hl); auto.
      + destruct (l_others _ _ _ Hl k Hne) as (-> & -> & _). auto.
    - intros k. rewrite (l_n _ _ _ Hl). intros Hk.
      assert (Hne : k <> c) by (intros ->; pose proof (l_c _ _ _ Hl); lia).
      destruct (l_others _ _ _ Hl k Hne) as (-> & -> & _). destruct (l_pend _ _ _ Hl) as [-> ->]. auto.
  Qed.
End Local.

(** A state change between two states other than Dead. *)
Lemma inv_with_st (h : state) (i : nat) (x : TaskState) :
  inv h -> st h i <> Dead -> x <> Dead -> inv (with_st h (upd (st h) i x)).
Proof.
  intros [] Hi Hx.
  assert (Hdead : forall s, upd (st h) i x s = Dead <-> st h s = Dead).
  { intros s. unfold upd. case_decide; [subst|done]. split; [done|congruence]. }
  assert (Hgone : forall s, gone (with_st h (upd (st h) i x)) s <-> gone h s).
  { intros s. unfold gone. simpl. by rewrite Hdead. }
  split; simpl; try done.
  - intros s. rewrite Hdead. apply v_live0.
  - intros s Hs. rewrite Hdead. by apply v_fresh0.
  - intros k s E. rewrite Hgone. eauto.
  - intros k s E. rewrite Hgone. eauto.
  - intros s. rewrite Hdead. auto.
Qed.

Lemma inv_cas_state (h : state) (i : nat) (x y : TaskState) :
  inv h -> x <> Dead -> y <> Dead -> inv (cas h i x y).
Proof. intros Hi Hx Hy. unfold cas. case_decide; [|done]. apply inv_with_st; congruence. Qed.

Lemma cas_fields (h : state) (i : nat) (x y : TaskState) :
  on (cas h i x y) = on h /\ cur (cas h i x y) = cur h /\ pcs (cas h i x y) = pcs h /\
  ncores (cas h i x y) = ncores h /\ pend (cas h i x y) = pend h /\ pend_root (cas h i x y) = pend_root h.
Proof. unfold cas. by case_decide. Qed.

Lemma deferred_task (h : state) (c s : nat) : inv h -> deferred h c s -> (s < MAX_TASKS)%nat.
Proof. intros Hi H. by destruct (v_pend _ Hi c s H) as [(_ & _ & ?) _]. Qed.

Lemma is_task_false (p : nat) : is_task p = false -> (MAX_TASKS <= p)%nat.
Proof. unfold is_task. intros ?%Nat.ltb_ge. done. Qed.

(** The fields of [local_step] that hold by computation, and those that
    follow from the position the core comes from. *)
Ltac local_tac c :=
  split; simpl; rewrite ?upd_eq; try done;
  try (intros ? Hj; by rewrite ?upd_ne by done);
  try (by left);
  try (intros ? _ [_ Hk] Hon; exact (Hk Hon)).

Section Moves.
Context (h : state) (c : nat) (Hi : inv h) (Hc : (c < ncores h)%nat).

  (** A core moves without storing anything. *)
Lemma goto_local (p' : pc) :
    position_ok p' (on h c) (cur h c) (leav h c) ->
    committed p' = None ->
    (forall n, target p' = Some n -> target (pcs h c) = Some n \/ st h n <> Dead) ->
    killing p' = None ->
    (forall s, deferred h c s -> resting p' = true -> on h c <> s) ->
    (match pcs h c with Published _ _ | Commit _ _ | Idle3 _ => (MAX_TASKS <= on h c)%nat | _ => True end) ->
    inv (goto h c p').
  Proof.
    intros Hpos Hco Ht Hk Hr Hkeep. apply (inv_local h _ c Hi).
    split; simpl; rewrite ?upd_eq; try done; try congruence.
    - intros j Hj. by rewrite upd_ne by done.
    - by left.
    - intros s j E. rewrite E in Hk. done.
    - intros s ->. done.
    - intros s Hlt [_ Hh] Hon. specialize (Hh Hon). destruct (pcs h c); try done; lia.
  Qed.
End Moves.

Lemma inv_enter (h h' : state) (c : nat) (e : entry) :
  inv h -> (c < ncores h)%nat -> enter h c e = Some h' -> inv h'.
Proof.
  intros Hi Hc H. pose proof (v_pos _ Hi c) as Hp. pose proof (v_rest _ Hi c) as Hr.
  unfold enter in H.
  destruct (pcs h c) eqn:Hpc; try done; destruct e; try done; simpl in Hp, Hr; split_match; simplify_eq;
    apply (inv_local h _ c Hi); local_tac c; rewrite ?Hpc; simpl; auto.
  all: try (intros ? _ [_ Hk] Hon; rewrite Hpc in Hk; exact (Hk Hon)).
  all: rewrite <- Hp; auto.
Qed.

Lemma leave_inv_demote (h h' : state) (c : nat) :
  inv h -> (c < ncores h)%nat -> demote h c = Some h' -> inv h'.
Proof.
  intros Hi Hc H. pose proof (v_pos _ Hi c) as Hp. pose proof (v_rest _ Hi c) as Hr.
  unfold demote in H. destruct (pcs h c) as [| | |e p| | | | | | | | | | | | | |] eqn:Hpc; try done.
  destruct Hp as (Hcur & Hon & Hloop).
  assert (Hgo : forall h0 e', inv h0 -> on h0 = on h -> cur h0 = cur h -> pcs h0 = pcs h -> ncores h0 = ncores h ->
                (e' = Loop -> p = IDLE) -> inv (goto h0 c (Picking e' p))).
  { intros h0 e' H0 E1 E2 E3 E4 He. apply goto_local; try done; rewrite ?E1, ?E2, ?E3, ?E4, ?Hpc; done. }
  assert (Hcas : forall (b : bool) x y, x <> Dead -> y <> Dead ->
                 let h0 := if b then cas h p x y else h in
                 inv h0 /\ on h0 = on h /\ cur h0 = cur h /\ pcs h0 = pcs h /\ ncores h0 = ncores h).
  { intros b x y Hx Hy. destruct b; cbv zeta; [|done]. split; [by apply inv_cas_state|].
    destruct (cas_fields h p x y) as (-> & -> & -> & -> & _). done. }
  destruct e; [| |destruct (decide (st h p = Running)) in H|]; injection H as <-.
  - destruct (Hcas (is_task p && valid h p) Running Ready) as (? & ? & ? & ? & ?); [done..|]. by apply Hgo.
  - destruct (Hcas (is_task p && valid h p) Running Ready) as (? & ? & ? & ? & ?); [done..|]. by apply Hgo.
  - apply Hgo; try done. apply inv_with_st; congruence.
  - apply goto_local; try done. by rewrite Hpc.
  - by apply Hgo.
Qed.

Lemma inv_decline (h h' : state) (c : nat) :
  inv h -> (c < ncores h)%nat -> decline h c = Some h' -> inv h'.
Proof.
  intros Hi Hc H. pose proof (v_pos _ Hi c) as Hp. pose proof (v_rest _ Hi c) as Hr.
  unfold decline in H. destruct (pcs h c) as [| | |[] p| | | | | | | | | | | | | |] eqn:Hpc; simplify_eq.
  destruct Hp as (Hcur & Hon & _). apply goto_local; try done. by rewrite Hpc.
Qed.

Lemma inv_pick (h h' : state) (c n : nat) :
  inv h -> (c < ncores h)%nat -> pick h c n = Some h' -> inv h'.
Proof.
  intros Hi Hc H. pose proof (v_pos _ Hi c) as Hp.
  unfold pick in H. destruct (pcs h c) as [| | | |e p| | | | | | | | | | | | |] eqn:Hpc; try done.
  destruct (_ && _) eqn:E; [|done]. apply andb_true_iff in E as [_ E%bool_decide_eq_true]. simplify_eq.
  destruct Hp as (Hcur & Hon & _). apply goto_local; try done; rewrite ?Hpc; try done.
  intros m [= ->]. right. congruence.
Qed.

Lemma deferred_on (h : state) (c s p : nat) : inv h -> deferred h c s -> (MAX_TASKS <= p)%nat -> p <> s.
Proof. intros Hi H Hp ->. apply deferred_task in H; [lia|done]. Qed.

Lemma inv_pick_none (h h' : state) (c : nat) :
  inv h -> (c < ncores h)%nat -> pick_none h c = Some h' -> inv h'.
Proof.
  intros Hi Hc H. pose proof (v_pos _ Hi c) as Hp.
  unfold pick_none in H. destruct (pcs h c) as [| | | |e p| | | | | | | | | | | | |] eqn:Hpc; try done.
  destruct Hp as (Hcur & Hon & Hloop).
  assert (Hdead : forall s, deferred h c s -> is_task p && bool_decide (st h p = Dead) = false -> on h c <> s).
  { intros s Hs Hf Hs'. destruct (v_pend _ Hi c s Hs) as [(Hd & _ & Hlt) _].
    rewrite Hon in Hs'. subst s. unfold is_task in Hf. rewrite (proj2 (Nat.ltb_lt _ _) Hlt), bool_decide_true in Hf; done. }
  assert (Hidle : inv (goto h c (Idle1 p))).
  { apply goto_local; try done; rewrite ?Hpc; try done. simpl. split; [done|left; congruence]. }
  destruct e; injection H as <-; try done.
  1,2: case_match; [done|]; apply goto_local; try done; rewrite ?Hpc; auto.
  apply goto_local; try done; rewrite ?Hpc; try done. intros s Hs _. rewrite Hon, Hloop by done.
  by apply (deferred_on h c).
Qed.

Lemma leave_inv_restore (h h' : state) (c : nat) :
  inv h -> (c < ncores h)%nat -> restore h c = Some h' -> inv h'.
Proof.
  intros Hi Hc H. pose proof (v_pos _ Hi c) as Hp. pose proof (v_rest _ Hi c) as Hr.
  unfold restore in H. destruct (pcs h c) as [| | | | |p| | | | | | | | | | | |] eqn:Hpc; simplify_eq.
  destruct Hp as (Hcur & Hon).
  assert (Hgo : forall h0, inv h0 -> on h0 = on h -> cur h0 = cur h -> pcs h0 = pcs h -> ncores h0 = ncores h ->
                pend h0 = pend h -> pend_root h0 = pend_root h -> inv (goto h0 c Run)).
  { intros h0 H0 E1 E2 E3 E4 E5 E6. apply goto_local; try done; rewrite ?E1, ?E2, ?E3, ?E4, ?Hpc; try done.
    intros s. unfold deferred. rewrite E5, E6. intros Hs _. by apply Hr. }
  case_match; [|by apply Hgo]. apply Hgo; [by apply inv_cas_state|apply cas_fields..].
Qed.

Lemma inv_defer (h h' : state) (c : nat) :
  inv h -> (c < ncores h)%nat -> defer h c = Some h' -> inv h'.
Proof.
  intros Hi Hc H. pose proof (v_pos _ Hi c) as Hp. unfold defer in H.
  assert (Hidle : forall p, cur h c = on h c -> on h c = p ->
            match pcs h c with Published _ _ | Commit _ _ | Idle3 _ => False | _ => True end ->
            inv (goto h c (Idle1 p))).
  { intros p E1 E2 E3. apply goto_local; try done; [|by destruct (pcs h c)]. simpl. split; [done|left; congruence]. }
  destruct (pcs h c) as [| | | |[] p| |[] p n| | | | | | | | | | |] eqn:Hpc; try done; simpl in Hp.
  1: case_match; [injection H as <-; destruct Hp as (? & ? & _); by apply Hidle|done].
  all: destruct Hp as [Hcur Hon]; injection H as <-; case_match eqn:E; [by apply Hidle|].
  all: apply is_task_false in E; apply goto_local; try done; rewrite ?Hpc; try done.
  all: intros s Hs _; rewrite Hon; by apply (deferred_on h c).
Qed.

Lemma inv_claim (h h' : state) (c : nat) :
  inv h -> (c < ncores h)%nat -> claim h c = Some h' -> inv h'.
Proof.
  intros Hi Hc H. pose proof (v_pos _ Hi c) as Hp. pose proof (v_target _ Hi c) as Ht.
  unfold claim in H. destruct (pcs h c) as [| | | | | |e p n| | | | | | | | | | |] eqn:Hpc; try done.
  destruct Hp as [Hcur Hon]. simpl in Ht.
  destruct (decide (e <> Block /\ e <> Loop /\ n = p)) as [(_ & _ & ->)|_].
  - injection H as <-. destruct (cas_fields h p Ready Running) as (E1 & E2 & E3 & E4 & E5 & E6).
    apply goto_local; [by apply inv_cas_state|by rewrite E4|by rewrite E1, E2|done|done|done| |by rewrite E3, Hpc].
    intros s. unfold deferred. rewrite E1, E5, E6, Hon. intros Hs _ <-. by apply (Ht p).
  - destruct (decide (st h n = Ready)) as [Hn|Hn]; injection H as <-.
    + apply goto_local; simpl; rewrite ?Hpc; try done; [apply inv_with_st; congruence|by left].
    + apply goto_local; rewrite ?Hpc; try done. simpl. split; [done|left; congruence].
Qed.

Lemma inv_release (h h' : state) (c : nat) :
  inv h -> (c < ncores h)%nat -> release h c = Some h' -> inv h'.
Proof.
  intros Hi Hc H. pose proof (v_pos _ Hi c) as Hp. unfold release in H.
  destruct (pcs h c) eqn:Hpc; try done; injection H as <-; simpl in Hp;
    apply (inv_local h _ c Hi); local_tac c; rewrite ?Hpc; simpl; auto.
  1,3: split_and!; intuition congruence.
  intros s _ [_ Hk] Hon. rewrite Hpc in Hk. exact (Hk Hon).
Qed.

Lemma inv_recheck (h h' : state) (c : nat) :
  inv h -> (c < ncores h)%nat -> abort_after_publish h (c, Recheck) = false ->
  recheck h c = Some h' -> inv h'.
Proof.
  intros Hi Hc Hh H. pose proof (v_pos _ Hi c) as Hp. unfold recheck in H. unfold abort_after_publish in Hh.
  simpl in Hh. destruct (pcs h c) as [| | | | | | | | |p n| | | | | | | |] eqn:Hpc; try done.
  destruct Hp as (Hcur & Hon & Hle). injection H as <-. case_decide as Hn.
  - apply (inv_local h _ c Hi); local_tac c; rewrite ?Hpc; simpl; auto. intros m [= ->]. congruence.
  - rewrite bool_decide_true, andb_true_r in Hh by done. apply is_task_false in Hh.
    apply (inv_local h _ c Hi); local_tac c; rewrite ?Hpc; simpl; auto.
    intros s Hlt _ Hs. lia.
Qed.

Lemma leave_inv_release_idle (h h' : state) (c : nat) :
  inv h -> (c < ncores h)%nat -> release_idle h c = Some h' -> inv h'.
Proof.
  intros Hi Hc H. pose proof (v_pos _ Hi c) as Hp. unfold release_idle in H.
  destruct (pcs h c) eqn:Hpc; try done; destruct Hp as [Hon Hc']; [|case_match eqn:E]; injection H as <-;
    apply (inv_local h _ c Hi); local_tac c; rewrite ?Hpc; simpl; auto.
  all: try (intros s _ [_ Hk] Hon'; rewrite Hpc in Hk; exact (Hk Hon')).
  - split; [done|]. destruct Hc'; [by left|by right].
  - apply Nat.ltb_lt in E. split_and!; [done| |done]. destruct Hc' as [[_ ?]|?]; [done|lia].
  - apply is_task_false in E. destruct (v_range _ Hi c) as [Hle _]. unfold IDLE. lia.
  - apply is_task_false in E. rewrite Hon. intros s Hs _. by apply (deferred_on h c).
Qed.

Lemma inv_switch (h h' : state) (c : nat) :
  inv h -> (c < ncores h)%nat -> switch h c = Some h' -> inv h'.
Proof.
  intros Hi Hc H. pose proof (v_pos _ Hi c) as Hp. unfold switch in H.
  pose proof (v_target _ Hi c) as Ht.
  destruct (pcs h c) eqn:Hpc; try done; simpl in Hp, Ht; injection H as <-;
    apply (inv_local h _ c Hi); local_tac c; rewrite ?Hpc; simpl; auto.
  - by destruct Hp.
  - intros s Hs _ ->. by apply (Ht s).
  - intros s _ [Hco _] ->. rewrite Hpc in Hco. by apply Hco.
  - by destruct Hp as (_ & _ & ?).
  - intros s Hs _. by apply (deferred_on h c).
  - unfold IDLE. intros. lia.
Qed.

(** The killer's two reads of a core. *)
Lemma read_current (h : state) (i s : nat) :
  inv h -> (s < MAX_TASKS)%nat -> cur h i <> s -> half_clear h i s.
Proof.
  intros Hi Hs Hc. pose proof (v_pos _ Hi i) as Hp. split.
  - destruct (pcs h i); try done. intros [= ->]. by destruct Hp.
  - intros Hon. destruct (pcs h i); simpl in Hp; try done; intuition (try congruence; lia).
Qed.

Lemma read_leaving (h : state) (i s : nat) : inv h -> half_clear h i s -> leav h i <> s -> clear h i s.
Proof.
  intros Hi [Hco Hh] Hle. pose proof (v_pos _ Hi i) as Hp. split; [|done].
  intros Hon. specialize (Hh Hon). destruct (pcs h i); try done; simpl in Hp; intuition congruence.
Qed.

Lemma inv_kill_wait (h h' : state) (c : nat) :
  inv h -> (c < ncores h)%nat -> kill_wait h c = Some h' -> inv h'.
Proof.
  intros Hi Hc H. pose proof (v_pos _ Hi c) as Hp. pose proof (v_rest _ Hi c) as Hr.
  assert (Hgo : forall s p', killing (pcs h c) = Some s -> killing p' = Some s -> resting p' = true ->
            cur h c = on h c -> resting (pcs h c) = true ->
            match p' with KWait1 _ _ | KWait2 _ _ | KFree _ => True | _ => False end ->
            match pcs h c with KWait1 _ _ | KWait2 _ _ => True | _ => False end ->
            (forall j, scanned p' (ncores h) j -> j <> c -> scanned (pcs h c) (ncores h) j \/ clear h j s) ->
            (forall j, p' = KWait2 s j -> j <> c /\ half_clear h j s) -> inv (goto h c p')).
  { intros s p' E1 E2 E3 E4 E5 E6 E7 Hsc Hha.
    apply (inv_local h _ c Hi); local_tac c; auto.
    1-4: destruct p'; try done; simplify_eq/=; congruence.
    - intros s' j Hk Hs Hj. assert (s' = s) as -> by congruence. auto.
    - intros s' j ->. simplify_eq/=. auto.
    - destruct p'; try done.
    - intros s' _ [_ Hk] Hon. specialize (Hk Hon). by destruct (pcs h c). }
  unfold kill_wait in H. destruct (pcs h c) as [| | | | | | | | | | | | | |s i|s i| |] eqn:Hpc; try done.
  - destruct (v_kill _ Hi c s) as [(_ & _ & Hlt) _]; [by rewrite Hpc|].
    destruct (ncores h <=? i)%nat eqn:E1; [|destruct (i =? c)%nat eqn:E2]; injection H as <-.
    + apply Nat.leb_le in E1. eapply Hgo; simpl; try done. intros j Hj _. left. lia.
    + apply Nat.eqb_eq in E2. subst i. eapply Hgo; simpl; try done. intros j Hj Hne. left. lia.
    + apply Nat.eqb_neq in E2. destruct (cur h i =? s)%nat eqn:E3.
      * eapply Hgo; simpl; try done. auto.
      * apply Nat.eqb_neq in E3. eapply Hgo; simpl; try done; [auto|].
        intros j [= <-]. split; [done|]. by apply read_current.
  - injection H as <-. destruct (leav h i =? s)%nat eqn:E.
    + eapply Hgo; simpl; try done. auto.
    + apply Nat.eqb_neq in E. eapply Hgo; simpl; try done. intros j Hj Hne.
      destruct (decide (j = i)) as [->|]; [right|left; lia].
      apply read_leaving; [done| |done]. by apply (v_half _ Hi c).
Qed.

Lemma inv_kill_abandon (h h' : state) (c : nat) :
  inv h -> (c < ncores h)%nat -> kill_abandon h c = Some h' -> inv h'.
Proof.
  intros Hi Hc H. pose proof (v_pos _ Hi c) as Hp. pose proof (v_rest _ Hi c) as Hr.
  unfold kill_abandon in H. destruct (pcs h c) eqn:Hpc; try done; injection H as <-;
    case_match; apply goto_local; rewrite ?Hpc; done || auto.
Qed.

(** Freeing memory no core stands on, of tasks that are gone. *)
Lemma inv_mem (h : state) (x y : nat -> bool) :
  inv h ->
  (forall s, (s < MAX_TASKS)%nat -> mem_ok h s ->
     mem_ok (with_mem h x y) s \/ (gone h s /\ forall j, clear h j s)) ->
  inv (with_mem h x y).
Proof.
  intros Hi Hm. destruct Hi. split; simpl; try done.
  - intros s Hs. destruct (v_live0 s Hs) as [Hv Hok]. split; [done|].
    destruct (Hm s) as [?|[[? _] _]]; [by apply v_task0; left|done..].
  - intros s Hs. destruct (v_fresh0 s Hs) as [(Hd & Hv & Hok) Hcl]. split_and!; [done..| |done].
    destruct (Hm s) as [?|[(_ & ? & _) _]]; [by apply v_task0; right|done| |congruence]. done.
  - intros c Hc. destruct (Hm (on h c) Hc (v_on0 c Hc)) as [?|[_ Hcl]]; [done|]. by destruct (Hcl c).
  - intros c n E. destruct (v_commit0 c n E) as [Hv Hok]. split; [done|].
    destruct (v_range0 c) as [_ Ht]. destruct (Hm n) as [?|[_ Hcl]]; [|done..|by destruct (Hcl c)].
    apply Ht. by destruct (pcs h c).
Qed.

(** Forgetting deferred slots. *)
Lemma inv_with_pend (h : state) (x : nat -> list nat) (y : nat -> nat) :
  inv h -> (forall c s, deferred (with_pend h x y) c s -> deferred h c s) ->
  (forall c, (ncores h <= c)%nat -> x c = [] /\ y c = IDLE) -> inv (with_pend h x y).
Proof.
  intros Hi Hd Hx. destruct Hi. split; simpl; eauto.
  intros c Hc. destruct (v_cores0 c Hc) as (? & ? & _). destruct (Hx c Hc). done.
Qed.

Lemma inv_drain (h h' : state) (c : nat) :
  inv h -> (c < ncores h)%nat -> drain h c = Some h' -> inv h'.
Proof.
  intros Hi Hc H. pose proof (v_pos _ Hi c) as Hp. pose proof (v_rest _ Hi c) as Hr.
  unfold drain in H. destruct (pcs h c) as [| |e| | | | | | | | | | | | | | |] eqn:Hpc; try done.
  injection H as <-. destruct Hp as [Hcur Hloop].
  assert (Hnew : forall k s, deferred (with_pend h (upd (pend h) c []) (upd (pend_root h) c IDLE)) k s ->
                 k <> c /\ deferred h k s).
  { intros k s. unfold deferred. simpl. destruct (decide (k = c)) as [->|Hne].
    - rewrite !upd_eq. intros [?|[<- ?]]; [set_solver|unfold IDLE in *; lia].
    - by rewrite !upd_ne by done. }
  apply goto_local; simpl; rewrite ?Hpc; try done.
  2: by split_and!; [done|congruence|rewrite Hcur].
  2: intros s [? _]%Hnew; done.
  apply (inv_with_pend (with_mem h _ _)); simpl.
  - apply inv_mem; [done|]. intros s Hs [Hst Hro].
    destruct (decide (deferred h c s)) as [Hd|Hd].
    + right. destruct (v_pend _ Hi c s Hd) as [Hg _]. split; [done|]. intros j.
      destruct (decide (j = c)) as [->|]; [|by apply (v_others _ Hi c)]. split; [by apply Hr|by rewrite Hpc].
    + left. unfold mem_ok. simpl. rewrite Hst, Hro, !bool_decide_true; [done| |].
      * intros ->. apply Hd. by right.
      * intros ?. apply Hd. by left.
  - intros k s [_ H]%Hnew. done.
  - intros k Hk. rewrite !upd_ne by lia. by apply (v_cores _ Hi).
Qed.

(** A slot's state becomes Dead. *)
Lemma inv_dead (h : state) (s : nat) : inv h -> inv (with_st h (upd (st h) s Dead)).
Proof.
  intros [].
  assert (Hd : forall i, st h i = Dead -> upd (st h) s Dead i = Dead).
  { intros i. unfold upd. by case_decide. }
  assert (Hn : forall i, upd (st h) s Dead i <> Dead -> st h i <> Dead) by naive_solver.
  assert (Hg : forall i, gone h i -> gone (with_st h (upd (st h) s Dead)) i).
  { intros i (? & ? & ?). unfold gone. simpl. auto. }
  split; simpl; try done.
  - auto.
  - intros i Hi. destruct (v_fresh0 i Hi) as [(? & ? & ?) ?]. auto.
  - intros k i E. destruct (v_kill0 k i E). auto.
  - intros k i E. destruct (v_pend0 k i E). auto.
  - intros i [?|?]; auto.
Qed.

(** A kill begins: the core that claimed it starts its scan. *)
Lemma inv_begin_kill (h : state) (c s : nat) :
  inv h -> (c < ncores h)%nat -> pcs h c = Run -> gone h s -> valid h s = true ->
  (forall k, killing (pcs h k) <> Some s) -> inv (goto h c (KWait1 s 0)).
Proof.
  intros [] Hc Hpc Hg Hv Hno.
  assert (Hcl : forall j i, clear h j i -> clear (goto h c (KWait1 s 0)) j i).
  { intros j i [? ?]. unfold clear. simpl. unfold upd. by case_decide. }
  assert (Hold : forall k i, killing (upd (pcs h) c (KWait1 s 0) k) = Some i ->
            (k = c /\ i = s) \/ (k <> c /\ killing (pcs h k) = Some i)).
  { intros k i. unfold upd. case_decide; [intros [= ->]; auto|auto]. }
  split; simpl; try done.
  - intros j. unfold upd. case_decide; [subst|done]. specialize (v_pos0 c). by rewrite Hpc in v_pos0.
  - intros i Hi. destruct (v_fresh0 i Hi) as [? ?]. auto.
  - intros j n. unfold upd. case_decide; [done|]. apply v_commit0.
  - intros k i [[-> ->]|[_ E]]%Hold; [done|]. by apply (v_kill0 k).
  - intros k k' i [[-> ->]|[_ E]]%Hold [[-> E2]|[_ E']]%Hold; [done| |subst|]; [by apply Hno in E'|by apply Hno in E|eauto].
  - intros k i j E Hsc Hj. apply Hold in E as [[-> ->]|[Hne E]].
    + rewrite upd_eq in Hsc. simpl in Hsc. lia.
    + rewrite upd_ne in Hsc by done. eauto.
  - intros k i j. unfold upd at 1. case_decide; [done|]. intros E. destruct (v_half0 k i j E) as [H1 H2].
    unfold half_clear. simpl. unfold upd. case_decide; [|done]. subst. split; [done|]. intros Hon.
    specialize (H2 Hon). by rewrite Hpc in H2.
  - intros k i. unfold upd. case_decide; [done|]. apply v_done0.
  - intros k i j Hd Hj. apply Hcl. by apply (v_others0 k).
  - intros k i Hd. unfold upd. case_decide; [subst|by apply v_rest0]. intros _. apply v_rest0; [done|by rewrite Hpc].
  - intros k i Hd. unfold upd. case_decide; [done|by apply v_target0].
  - intros k. unfold upd. case_decide; [|done]. split; [|done]. apply v_range0.
  - intros k Hk. rewrite upd_ne by lia. auto.
Qed.

Lemma inv_kill (h h' : state) (c s : nat) :
  inv h -> (c < ncores h)%nat -> kill h c s = Some h' -> inv h'.
Proof.
  intros Hi Hc H. unfold kill in H. destruct (pcs h c) eqn:Hpc; try done.
  destruct (_ && _) eqn:E; [|done]. apply andb_true_iff in E as [[Hs%Nat.ltb_lt Hv]%andb_true_iff Hd%bool_decide_eq_true].
  injection H as <-.
  assert (Hf : fresh h s = false).
  { destruct (fresh h s) eqn:Ef; [|done]. by destruct (v_fresh _ Hi s Ef) as [[? _] _]. }
  apply inv_begin_kill; simpl; [by apply inv_dead|done|done| |done|].
  - unfold gone. simpl. by rewrite upd_eq.
  - intros k E. by destruct (v_kill _ Hi k s E) as [[? _] _].
Qed.

(** A slot whose task is gone and that no kill holds is released. *)
Lemma inv_invalid (h : state) (s : nat) :
  inv h -> gone h s -> (forall j, committed (pcs h j) <> Some s) ->
  (forall k, killing (pcs h k) <> Some s) -> inv (with_valid h (upd (valid h) s false)).
Proof.
  intros [] (Hd & Hf & _) Hcl Hno.
  assert (Hv : forall i, i <> s -> upd (valid h) s false i = valid h i) by (intros; by apply upd_ne).
  split; simpl; try done.
  - intros i Hi. rewrite Hv by congruence. auto.
  - intros i Hi. rewrite Hv by congruence. auto.
  - intros c n E. rewrite Hv; [eauto|]. intros ->. by apply (Hcl c).
  - intros k i E. rewrite Hv; [eauto|]. intros ->. by eapply Hno.
  - intros k i E. destruct (v_pend0 k i E) as [? Hi]. split; [done|].
    unfold upd. by case_decide.
Qed.

(** A killer that has scanned every other core. *)
Lemma scan_complete (h : state) (c s j : nat) :
  inv h -> pcs h c = KFree s \/ pcs h c = KDone s -> j <> c -> clear h j s.
Proof.
  intros Hi Hpc Hj.
  assert (Hk : killing (pcs h c) = Some s) by by destruct Hpc as [-> | ->].
  destruct (decide (j < ncores h)%nat) as [Hlt|Hge].
  - apply (v_scan _ Hi c); [done| |done]. by destruct Hpc as [-> | ->].
  - destruct (v_cores _ Hi j) as (E1 & E2 & _); [lia|].
    destruct (v_kill _ Hi c s Hk) as [(_ & _ & ?) _].
    unfold clear. rewrite E1, E2. unfold IDLE. split; [lia|done].
Qed.

(** A core that killed its own task puts off freeing it. *)
Lemma inv_defer_slot (h : state) (c s : nat) :
  inv h -> (c < ncores h)%nat -> pcs h c = Doomed -> gone h s -> valid h s = false -> (forall j, j <> c -> clear h j s) ->
  inv (with_pend h (upd (pend h) c (pend h c ++ [s])) (upd (pend_root h) c s)).
Proof.
  intros [] Hc Hpc Hg Hv Hcl.
  assert (Hnew : forall k i, deferred (with_pend h (upd (pend h) c (pend h c ++ [s])) (upd (pend_root h) c s)) k i ->
                 (k = c /\ i = s) \/ deferred h k i).
  { intros k i. unfold deferred. simpl. destruct (decide (k = c)) as [->|Hne].
    - rewrite !upd_eq. intros [[?|?%list_elem_of_singleton]%elem_of_app|[<- ?]]; auto.
    - rewrite !upd_ne by done. auto. }
  split; simpl; try done.
  - intros k i [[-> ->]|Hd]%Hnew; [done|by apply (v_pend0 k)].
  - intros k i j [[-> ->]|Hd]%Hnew Hj; [by apply Hcl|by apply (v_others0 k)].
  - intros k i [[-> ->]|Hd]%Hnew; [by rewrite Hpc|by apply v_rest0].
  - intros k i [[-> ->]|Hd]%Hnew; [by rewrite Hpc|by apply v_target0].
  - intros k Hk. rewrite !upd_ne by lia. auto.
Qed.

Lemma inv_kill_free (h h' : state) (c : nat) :
  inv h -> (c < ncores h)%nat -> pending_overflow h (c, KillFree) = false ->
  kill_free h c = Some h' -> inv h'.
Proof.
  intros Hi Hc Ho H. pose proof (v_pos _ Hi c) as Hp. pose proof (v_rest _ Hi c) as Hr.
  unfold kill_free in H. unfold pending_overflow in Ho. cbn [fst snd] in Ho.
  destruct (pcs h c) as [| | | | | | | | | | | | | | | |s|s] eqn:Hpc; try done; simpl in Hp, Hr.
  - destruct (v_kill _ Hi c s) as [Hg Hv]; [by rewrite Hpc|].
    assert (Hcl : forall j, j <> c -> clear h j s) by (intros; apply (scan_complete h c); auto).
    destruct (cur h c =? s)%nat eqn:E.
    + rewrite andb_true_l in Ho. apply Nat.leb_gt in Ho. cbn [pend with_valid] in H. rewrite (proj2 (Nat.ltb_lt _ _) Ho) in H. injection H as <-.
      assert (Hi1 : inv (goto h c Doomed)) by (apply goto_local; rewrite ?Hpc; done).
      assert (Hi2 : inv (with_valid (goto h c Doomed) (upd (valid h) s false))).
      { apply (inv_invalid (goto h c Doomed)); [done..| |]; simpl; intros j; unfold upd; case_decide; try done.
        - by apply Hcl.
        - intros Hk. eapply H, (v_one _ Hi); [done|by rewrite Hpc]. }
      apply (inv_defer_slot (with_valid (goto h c Doomed) (upd (valid h) s false))); simpl; try done; [apply upd_eq..|].
      intros j Hj. unfold clear. simpl. rewrite upd_ne by done. by apply Hcl.
    + apply Nat.eqb_neq in E. injection H as <-.
      assert (Hcl' : forall j, clear h j s).
      { intros j. destruct (decide (j = c)) as [->|]; [|auto]. split; [congruence|by rewrite Hpc]. }
      set (h1 := with_mem h _ _).
      assert (Hi1 : inv h1).
      { apply inv_mem; [done|]. intros i _ [H1 H2]. destruct (decide (i = s)) as [->|]; [by right|left].
        unfold mem_ok. simpl. by rewrite !upd_ne. }
      apply (inv_local h1 _ c Hi1); local_tac c; rewrite ?Hpc; simpl; auto.
      * intros i [= <-]. congruence.
      * intros i _ [_ Hk] Hon. change (pcs h1 c) with (pcs h c) in Hk. rewrite Hpc in Hk. exact (Hk Hon).
  - destruct (v_kill _ Hi c s) as [Hg Hv]; [by rewrite Hpc|]. injection H as <-.
    assert (Hi1 : inv (goto h c Run)) by (apply goto_local; rewrite ?Hpc; done).
    apply (inv_invalid (with_st (goto h c Run) (upd (st h) s Dead))); simpl.
    + by apply (inv_dead (goto h c Run)).
    + destruct Hg as (? & ? & ?). unfold gone. simpl. by rewrite upd_eq.
    + intros j. unfold upd. case_decide; [done|]. apply (scan_complete h c); auto.
    + intros k. unfold upd. case_decide as Hk; [done|]. intros E. eapply Hk, (v_one _ Hi); [done|by rewrite Hpc].
Qed.

Lemma leave_inv_reserve (h h' : state) (c s : nat) :
  inv h -> reserve_too_early h (c, Reserve s) = false -> reserve h s = Some h' -> inv h'.
Proof.
  intros Hi Hh H. unfold reserve in H. destruct (_ && _) eqn:E; [|done].
  apply andb_true_iff in E as [Hs%Nat.ltb_lt Hv%negb_true_iff]. injection H as <-.
  assert (Hd : st h s = Dead).
  { destruct (decide (st h s = Dead)) as [|Hn]; [done|]. destruct (v_live _ Hi s Hn). congruence. }
  assert (Hno : forall k, on h k <> s /\ ~ deferred h k s).
  { intros k. destruct (decide (k < ncores h)%nat) as [Hlt|Hge].
    - unfold reserve_too_early in Hh. simpl in Hh.
      assert (Hk : (on h k =? s)%nat || bool_decide (s ∈ pend h k) || (pend_root h k =? s)%nat = false).
      { destruct (_ || _) eqn:E; [|done]. rewrite <- Hh. symmetry. apply existsb_exists. exists k.
        split; [apply in_seq; lia|done]. }
      apply orb_false_iff in Hk as [[H1%Nat.eqb_neq H2%bool_decide_eq_false]%orb_false_iff H3%Nat.eqb_neq].
      split; [done|]. intros [?|[? _]]; done.
    - destruct (v_cores _ Hi k) as (_ & E1 & E2 & E3); [lia|]. unfold deferred. rewrite E1, E2, E3. unfold IDLE.
      split; [lia|]. intros [?|[? _]]; [set_solver|lia]. }
  assert (Hm : forall i, mem_ok h i -> upd (stack h) s true i = true /\ upd (root h) s true i = true).
  { intros i [? ?]. unfold upd. by case_decide. }
  destruct Hi. split; simpl; try done.
  - intros i Hi. destruct (v_live0 i Hi) as [? ?]. unfold mem_ok. simpl. rewrite upd_ne by congruence. auto.
  - intros i Hf. destruct (decide (i = s)) as [->|Hne].
    + unfold mem_ok. simpl. rewrite !upd_eq. split; [done|]. intros j. split; [by apply Hno|].
      intros E. simpl in E. destruct (v_commit0 j s E). congruence.
    + unfold mem_ok. simpl. rewrite upd_ne in * by done. destruct (v_fresh0 i Hf) as [(? & ? & ?) ?]. auto.
  - intros c' Hc'. unfold mem_ok. simpl. auto.
  - intros c' n E. destruct (v_commit0 c' n E) as [Hv' ?]. unfold mem_ok. simpl. rewrite upd_ne by congruence. auto.
  - intros k i E. destruct (v_kill0 k i E) as [(? & ? & ?) Hv']. unfold gone. simpl.
    rewrite !upd_ne by congruence. auto.
  - intros k i E. assert (i <> s) by (intros ->; by apply (Hno k)).
    destruct (v_pend0 k i E) as [(? & ? & ?) Hv']. unfold gone. simpl. rewrite !upd_ne by done. auto.
  - intros i. unfold upd. case_decide; [subst; auto|auto].
Qed.

Lemma inv_unfresh (h : state) (s : nat) (x : nat -> TaskState) :
  inv h -> fresh h s = true -> (forall i, i <> s -> x i = st h i) ->
  inv (with_st (with_fresh h (upd (fresh h) s false)) x).
Proof.
  intros [] Hf Hx. destruct (v_fresh0 s Hf) as [(Hd & Hv & Hm) Hcl].
  assert (Hg : forall i, gone h i -> gone (with_st (with_fresh h (upd (fresh h) s false)) x) i).
  { intros i (? & ? & ?). unfold gone. simpl. assert (i <> s) by congruence. rewrite Hx, upd_ne by done. auto. }
  split; simpl; try done.
  - intros i Hi. destruct (decide (i = s)) as [->|]; [done|]. rewrite Hx in Hi by done. auto.
  - intros i. destruct (decide (i = s)) as [->|]; [by rewrite upd_eq|]. rewrite upd_ne, Hx by done. apply v_fresh0.
  - intros k i E. destruct (v_kill0 k i E). auto.
  - intros k i E. destruct (v_pend0 k i E). auto.
  - intros i Hi. destruct (decide (i = s)) as [->|]; [auto|]. rewrite Hx, upd_ne in Hi by done. auto.
Qed.

Lemma inv_unreserve (h h' : state) (s : nat) : inv h -> unreserve h s = Some h' -> inv h'.
Proof.
  intros Hi H. unfold unreserve in H. destruct (fresh h s) eqn:Hf; [|done]. injection H as <-.
  destruct (v_fresh _ Hi s Hf) as [(Hd & Hv & Hm) Hcl].
  assert (Hlt : (s < MAX_TASKS)%nat) by (apply (v_task _ Hi); auto).
  assert (Hi1 : inv (with_fresh h (upd (fresh h) s false))) by (by apply (inv_unfresh h s (st h))).
  assert (Hg : gone (with_fresh h (upd (fresh h) s false)) s) by (unfold gone; simpl; by rewrite upd_eq).
  apply (inv_mem (with_valid (with_fresh h (upd (fresh h) s false)) _)).
  - apply (inv_invalid (with_fresh h (upd (fresh h) s false))); [done..| |].
    + intros j. apply Hcl.
    + intros k E. simpl in E. destruct (v_kill _ Hi k s E) as [(_ & ? & _) _]. congruence.
  - intros i _ [H1 H2]. destruct (decide (i = s)) as [->|]; [by right|left].
    unfold mem_ok. simpl. by rewrite !upd_ne.
Qed.

Lemma inv_leave_exec (h : state) (a : nat * move) (h' : state) :
  inv h -> hazard h a = false -> exec h a = Some h' -> inv h'.
Proof.
  intros Hi Hh H. unfold hazard in Hh. apply orb_false_iff in Hh as [[H1 H2]%orb_false_iff H3].
  destruct a as [c a]. unfold exec in H. simpl in H.
  destruct (ncores h <=? c)%nat eqn:Hc; [done|]. apply Nat.leb_gt in Hc. destruct a;
    [by eapply inv_enter|by eapply inv_drain|by eapply leave_inv_demote|by eapply inv_decline|by eapply inv_pick
    |by eapply inv_pick_none|by eapply leave_inv_restore|by eapply inv_defer|by eapply inv_claim|by eapply inv_release
    |by eapply inv_recheck|by eapply leave_inv_release_idle|by eapply inv_switch|by eapply inv_kill
    |by eapply inv_kill_wait|by eapply inv_kill_abandon|by eapply inv_kill_free|by eapply leave_inv_reserve
    | |by eapply inv_unreserve|].
  - unfold commit in H. destruct (fresh h s) eqn:Hf; [|done]. injection H as <-.
    apply inv_unfresh; [done..|]. intros i Hne. by apply upd_ne.
  - unfold wake in H. destruct (_ && _) eqn:E; [|done]. injection H as <-.
    apply andb_true_iff in E as [_ E%bool_decide_eq_true]. by apply inv_with_st.
Qed.
End LeaveFacts.

(** ** Theorems *)

Import WakeFacts LeaveFacts.

(** A sender inside [wake_by_slot] finishes by itself: whatever it loaded, at
    most four of its own steps make a blocked receiver Ready. *)
Lemma sender_finishes (s : Wake.state) (i : nat) (w : Wake.wpc) :
  Wake.wk s !! i = Some w -> Wake.will_wake w -> Wake.st s = BlockedOnRecv ->
  (forall x, w = Wake.Loaded x \/ w = Wake.Stored x -> x <> Dead) ->
  exists acts s', Forall (fun a => a ∈ [Wake.Load i; Wake.Store i; Wake.Retry i]) acts /\
    (length acts <= 4)%nat /\ run Wake.exec s acts = Some s' /\ Wake.st s' = Ready.
Proof.
  intros Hw Hwill Hst Hd. pose proof (lookup_lt_Some _ _ _ Hw) as Hlt.
  assert (Hlast : forall s x, Wake.wk s !! i = Some (Wake.Stored x) -> Wake.st s = BlockedOnRecv ->
            x <> Dead -> x <> Ready ->
            exists s', run Wake.exec s (if decide (x = BlockedOnRecv) then [Wake.Retry i] else [Wake.Retry i; Wake.Retry i])
                       = Some s' /\ Wake.st s' = Ready).
  { intros s0 x Hx Hs Hnd Hnr. case_decide as Hb; simpl; unfold Wake.wake_retry; rewrite Hx.
    - subst x. rewrite decide_False, decide_True by naive_solver. eauto.
    - rewrite decide_False by naive_solver. rewrite decide_False by congruence. simpl.
      rewrite list_lookup_insert_eq by by eapply lookup_lt_Some. rewrite Hs.
      rewrite decide_False, decide_True by naive_solver. eauto. }
  assert (Hstored : forall s x, Wake.wk s !! i = Some (Wake.Loaded x) -> Wake.st s = BlockedOnRecv ->
            exists s', Wake.exec s (Wake.Store i) = Some s' /\ Wake.wk s' !! i = Some (Wake.Stored x) /\
                       Wake.st s' = BlockedOnRecv).
  { intros s0 x Hx Hs. simpl. unfold Wake.wake_store. rewrite Hx. eexists. split; [done|]. simpl.
    split; [|done]. apply list_lookup_insert_eq. by eapply lookup_lt_Some. }
  destruct w as [| |x|x]; [done|..].
  - destruct (Hstored (Wake.mk (Wake.queued s) (Wake.registered s) (Wake.st s) (Wake.pending s) (Wake.oncpu s)
                (Wake.recv s) (<[i := Wake.Loaded (Wake.st s)]> (Wake.wk s))) (Wake.st s)) as (s2 & E2 & Hw2 & Hs2).
    { simpl. by apply list_lookup_insert_eq. }
    { done. }
    destruct (Hlast s2 (Wake.st s) Hw2 Hs2) as (s3 & E3 & H3); [congruence..|].
    rewrite decide_True in E3 by done.
    exists [Wake.Load i; Wake.Store i; Wake.Retry i], s3. split; [repeat constructor; set_solver|]. split; [simpl; lia|].
    split; [|done]. unfold run at 1. cbn [Wake.exec]. unfold Wake.wake_load. rewrite Hw, decide_False by congruence.
    cbn [Wake.exec] in E2. rewrite E2. exact E3.
  - destruct (Hstored s x Hw Hst) as (s2 & E2 & Hw2 & Hs2).
    destruct (Hlast s2 x Hw2 Hs2) as (s3 & E3 & H3); [naive_solver|done|].
    eexists (Wake.Store i :: _), s3. cbn [run]. rewrite E2. split; [|split; [|split; [exact E3|done]]].
    + constructor; [set_solver|]. case_decide; repeat constructor; set_solver.
    + case_decide; simpl; lia.
  - destruct (Hlast s x Hw Hst) as (s3 & E3 & H3); [naive_solver|done|].
    eexists _, s3. split; [|split; [|split; [exact E3|done]]]; case_decide; repeat constructor; set_solver.
Qed.


(** The window that remains.  There is an interleaving, with one sender,
    that ends with the receiver blocked, its message queued and the sender
    gone: [wake_by_slot] loads the receiver's state while the receiver is
    preempted (Ready), the receiver is resumed and swaps [TASK_WAKE_PENDING]
    before the sender stores it, and the sender's loop stops on the Ready it
    loaded without reading the state again.  Whatever happens next, the
    receiver stays blocked. *)
Theorem stale_ready_loses_wakeup :
  exists acts s, run Wake.exec (Wake.boot 1) acts = Some s /\ Wake.lost s /\
    forall more s', run Wake.exec s more = Some s' -> Wake.lost s'.
Proof.
  exists [Wake.Recv; Wake.Preempt; Wake.Send 0; Wake.Load 0; Wake.Resume; Wake.Swap; Wake.Store 0; Wake.Cas;
          Wake.Retry 0].
  exists (Wake.mk 1 false BlockedOnRecv true false Wake.Parked [Wake.Idle]). split; [reflexivity|].
  assert (Hl : Wake.lost (Wake.mk 1 false BlockedOnRecv true false Wake.Parked [Wake.Idle])).
  { unfold Wake.lost. simpl. split_and!; try done; [lia|by repeat constructor]. }
  split; [exact Hl|]. intros more s' Hr. eapply run_invariant; [apply lost_exec|exact Hl|apply no_hazard_free|exact Hr].
Qed.

(** C20: No reclaim under a core.  In every interleaving of any number of
    cores entering, leaving and killing tasks, one atomic access at a time, in
    which no core aborts a switch after publishing it while it stands on a
    task, no slot is reserved again before the core its last task died on has
    left and freed it, and no core's list of deferred stacks overflows: the
    kernel stack and the page-table root a core is on are still allocated. *)
Theorem reclaim_never_under_a_core (n : nat) (acts : list (nat * Leave.move)) (h : Leave.state) :
  hazard_free Leave.exec Leave.hazard (Leave.boot n) acts = true ->
  run Leave.exec (Leave.boot n) acts = Some h -> Leave.safe h.
Proof.
  intros Hf Hr c _ Hc.
  assert (Hi : inv h) by (eapply run_invariant; [apply inv_leave_exec|apply leave_boot_inv|done..]).
  by apply (v_on _ Hi).
Qed.

(** Core [c] picks slot [n] from its idle loop and runs it. *)
Definition start (c n : nat) : list (nat * Leave.move) :=
  (fun a => (c, a)) <$>
  [Leave.Enter Leave.Loop; Leave.Drain; Leave.Demote; Leave.Pick n; Leave.Claim; Leave.Release; Leave.Release;
   Leave.Recheck; Leave.Switch].

(** Core [c] yields its task and gets as far as publishing slot [n]. *)
Definition yield_to (c n : nat) : list (nat * Leave.move) :=
  (fun a => (c, a)) <$>
  [Leave.Enter Leave.Yield; Leave.Demote; Leave.Pick n; Leave.Claim; Leave.Release; Leave.Release].

Definition spawn (c n : nat) : list (nat * Leave.move) := [(c, Leave.Reserve n); (c, Leave.CommitTask n)].

(** Slot 0 runs on core 1, slot 2 on core 0; slot 1 is ready on core 1. *)
Definition two_running : list (nat * Leave.move) := spawn 0 0 ++ spawn 0 1 ++ spawn 0 2 ++ start 1 0 ++ start 0 2.

(** Core 0 kills slot [s], the other core of two being clear of it. *)
Definition kill_from_0 (s : nat) : list (nat * Leave.move) :=
  (fun a => (0%nat, a)) <$>
  [Leave.Kill s; Leave.KillWait; Leave.KillWait; Leave.KillWait; Leave.KillWait; Leave.KillFree].

(** What the abort path gives up.  There is an interleaving of two cores,
    with no other hazard, after which core 1 stands on a kernel stack and a
    page-table root that core 0 has freed: core 1 leaves slot 0 for slot 1 and
    publishes it; a wake makes slot 1 Ready again, so core 1 aborts, and the
    second [core_release_current] of the abort replaces its claim on slot 0 by
    one on slot 1; core 0 then kills slot 0 and finds no core using it. *)
Theorem abort_after_publish_frees_live_stack :
  exists acts h,
    hazard_free Leave.exec (fun h a => Leave.reserve_too_early h a || Leave.pending_overflow h a) (Leave.boot 2) acts = true /\
    run Leave.exec (Leave.boot 2) acts = Some h /\
    Leave.on h 1 = 0%nat /\ Leave.stack h 0 = false /\ Leave.root h 0 = false.
Proof.
  eexists (two_running ++ yield_to 1 1 ++ [(0%nat, Leave.WakeUp 1); (1%nat, Leave.Recheck);
             (1%nat, Leave.ReleaseIdle); (1%nat, Leave.ReleaseIdle)] ++ kill_from_0 0).
  destruct (run Leave.exec (Leave.boot 2) _) as [h|] eqn:E; [|vm_compute in E; discriminate].
  exists h. split; [vm_compute; reflexivity|]. split; [reflexivity|].
  vm_compute in E. injection E as <-. vm_compute. done.
Qed.

(** The core's task kills itself, on a machine of one core. *)
Definition kill_self (s : nat) : list (nat * Leave.move) :=
  (fun a => (0%nat, a)) <$> [Leave.Kill s; Leave.KillWait; Leave.KillWait; Leave.KillFree].

(** A page-table root that is allocated though its slot is free and no core
    has it to free. *)
Definition leaked_root (h : Leave.state) (s : nat) : bool :=
  Leave.root h s && negb (Leave.valid h s) &&
  negb (existsb (fun c => (Leave.pend_root h c =? s)%nat) (seq 0 (Leave.ncores h))).

(** A second self-kill leaks the first one's page tables.  [CORE_PENDING_PML4]
    holds one root per core and [yield_current] does not drain it: there is an
    interleaving with no hazard in which two tasks kill themselves on a core
    one after the other and, after the core's next idle pass has freed what
    was deferred, both kernel stacks are free, the second root is free and
    the first is allocated with nothing left that refers to it. *)
Theorem second_self_kill_leaks_root :
  exists acts h,
    hazard_free Leave.exec Leave.hazard (Leave.boot 1) acts = true /\
    run Leave.exec (Leave.boot 1) acts = Some h /\
    Leave.stack h 0 = false /\ Leave.stack h 1 = false /\ Leave.root h 1 = false /\ leaked_root h 0 = true.
Proof.
  exists (spawn 0 0 ++ spawn 0 1 ++ start 0 0 ++ kill_self 0 ++ yield_to 0 1 ++
          [(0%nat, Leave.Recheck); (0%nat, Leave.Switch)] ++ kill_self 1 ++
          ((fun a => (0%nat, a)) <$> [Leave.Enter Leave.Yield; Leave.Demote; Leave.PickNone; Leave.ReleaseIdle;
             Leave.ReleaseIdle; Leave.Switch; Leave.Enter Leave.Loop; Leave.Drain])).
  destruct (run Leave.exec (Leave.boot 1) _) as [h|] eqn:E; [|vm_compute in E; discriminate].
  exists h. split; [vm_compute; reflexivity|]. split; [reflexivity|].
  vm_compute in E. injection E as <-. vm_compute. done.
Qed.


(** Core 1 leaves slot 0 for slot 1 in full, and core 0 kills slot 0. *)
Definition sample_clean : list (nat * Leave.move) :=
  two_running ++ yield_to 1 1 ++
  [(1%nat, Leave.Recheck); (1%nat, Leave.Switch); (1%nat, Leave.Enter Leave.Tick)] ++ kill_from_0 0.

Lemma reclaim_never_under_a_core_witness :
  match run Leave.exec (Leave.boot 2) sample_clean with Some h => Leave.safe h | None => False end.
Proof.
  assert (Hc : match run Leave.exec (Leave.boot 2) sample_clean with Some _ => True | None => False end)
    by (vm_compute; exact I).
  destruct (run Leave.exec (Leave.boot 2) sample_clean) as [h|] eqn:E; [|exact Hc].
  apply (reclaim_never_under_a_core 2 sample_clean h); [vm_compute; reflexivity|exact E].
Defined.
