(* ===== verification/TaskData.v ===== *)
(** * Per-task data

    The parts of [kernel/src/task/scheduler.rs] that keep data for each task
    beside its scheduling state: its name and declared peers (the tables of
    [kernel/src/smp/names.rs]), its capability table, the capabilities and the
    badge a receive left for it, its memory budget, its endpoints, and the
    restart counters kept per service name. *)

From S2P Require Import Prelude Capability CapTable Queue Routing Sched.

(** ** [smp/names.rs] *)

(** [core::str::from_utf8(b).is_ok()]. *)
Definition continuation (b : Z) : bool := (128 <=? b) && (b <=? 191).

Fixpoint utf8_valid (l : list Z) : bool :=
  match l with
  | [] => true
  | b0 :: l1 =>
      if b0 <=? 127 then utf8_valid l1
      else match l1 with
      | [] => false
      | b1 :: l2 =>
          if (194 <=? b0) && (b0 <=? 223) then continuation b1 && utf8_valid l2
          else match l2 with
          | [] => false
          | b2 :: l3 =>
              if (224 <=? b0) && (b0 <=? 239) then
                continuation b1 && continuation b2 &&
                (negb (b0 =? 224) || (160 <=? b1)) && (negb (b0 =? 237) || (b1 <=? 159)) && utf8_valid l3
              else match l3 with
              | [] => false
              | b3 :: l4 =>
                  (240 <=? b0) && (b0 <=? 244) && continuation b1 && continuation b2 && continuation b3 &&
                  (negb (b0 =? 240) || (144 <=? b1)) && (negb (b0 =? 244) || (b1 <=? 143)) && utf8_valid l4
              end
          end
      end
  end.

(** [N] rows of [L] bytes, and the length of the name in each. *)
Record NameRows := mkRows {
  row_bytes : list (list Z);
  row_lens : list Z
}.

Definition rows_new (N L : nat) : NameRows := mkRows (replicate N (replicate L 0)) (replicate N 0).

(** The [L] bytes of a row that holds the first [L] bytes of a name. *)
Definition padded (L : nat) (name : list Z) : list Z := take L name ++ replicate (L - length name) 0.

(** [AtomicNameSet::set], and [NameTable::set], which stores the same row. *)
Definition rows_set (N L : nat) (t : NameRows) (slot : nat) (name : list Z) : NameRows :=
  if (N <=? slot)%nat then t
  else mkRows (<[slot := padded L name]> (row_bytes t))
         (<[slot := Z.of_nat (Nat.min (length name) L) mod 256]> (row_lens t)).

(** [AtomicNameSet::matches]. *)
Definition rows_match (N L : nat) (t : NameRows) (slot : nat) (name : list Z) : bool :=
  if (N <=? slot)%nat then false
  else
    let n := Z.to_nat (default 0 (row_lens t !! slot)) in
    if negb (n =? length name)%nat || (L <? n)%nat then false
    else bool_decide (take n (default [] (row_bytes t !! slot)) = name).

(** [NameTable::get]. *)
Definition rows_get (N L : nat) (t : NameRows) (slot : nat) : list Z :=
  if (N <=? slot)%nat then []
  else
    let len := Z.to_nat (default 0 (row_lens t !! slot)) in
    let b := take (Nat.min len L) (default [] (row_bytes t !! slot)) in
    if utf8_valid b then b else [].

(** ** Restart counters *)

Definition PEER_NAME_BYTES : nat := 128.
Definition TASK_NAME_MAX : nat := PEER_NAME_BYTES.
Definition MAX_SEND_PEERS : nat := 6.
Definition NAME_RESTART_MAX : nat := 64.

Record NameRestart := mkNameRestart {
  nr_name : list Z;
  nr_len : Z;
  nr_count : Z
}.

(** The entries below [tbl.len]. *)
Notation NameRestartTable := (list NameRestart) (only parsing).

Definition nr_matches (name : list Z) (e : NameRestart) : bool :=
  bool_decide (take (Z.to_nat (nr_len e)) (nr_name e) = name).

Definition next_restart_count (tbl : NameRestartTable) (name : list Z) : Z :=
  if bool_decide (name = []) then 0
  else match position (nr_matches name) tbl with
       | Some i => default 0 (nr_count <$> tbl !! i)
       | None => 0
       end.

Definition bump_name_restart (tbl : NameRestartTable) (name : list Z) : NameRestartTable :=
  if bool_decide (name = []) then tbl
  else match position (nr_matches name) tbl with
       | Some i => alter (fun e => mkNameRestart (nr_name e) (nr_len e) (saturating_add64 (nr_count e) 1)) i tbl
       | None =>
           if (length tbl <? NAME_RESTART_MAX)%nat then
             tbl ++ [mkNameRestart (padded TASK_NAME_MAX name)
                       (Z.of_nat (Nat.min (length name) TASK_NAME_MAX) mod 256) 1]
           else tbl
       end.

(** ** The data of a task *)

Definition MAX_PENDING_RECV_CAPS : nat := 4.
Definition TASK_HEAP_VA_START : Z := 68719476736.

Record TaskData := mkData {
  d_caps : list (option Capability);     (* TASK_CAP *)
  d_is_user : bool;                      (* TASK_IS_USER *)
  d_kernel_stack_top : Z;                (* TASK_KERNEL_STACK_TOP *)
  d_endpoint : Z;                        (* TASK_ENDPOINT *)
  d_reply_endpoint : Z;                  (* TASK_REPLY_ENDPOINT *)
  d_recv_buf : option Message;           (* TASK_RECV_BUF *)
  d_pending_caps : list Z;               (* TASK_PENDING_RECV_CAPS *)
  d_pending_count : nat;                 (* TASK_PENDING_RECV_CAP_COUNT *)
  d_last_badge : Z;                      (* TASK_LAST_BADGE *)
  d_hw_bdf : Z;                          (* TASK_HW_BDF *)
  d_watched : bool;                      (* TASK_WATCHED *)
  d_hw_kind : Z;                         (* TASK_HW_KIND *)
  d_alloc_bytes : Z;                     (* TASK_ALLOC_BYTES *)
  d_limit_bytes : Z;                     (* TASK_LIMIT_BYTES *)
  d_next_alloc_va : Z                    (* TASK_NEXT_ALLOC_VA *)
}.

Definition boot_data : TaskData :=
  mkData CapTable.empty false 0 0 0 None (replicate MAX_PENDING_RECV_CAPS 0) 0 0 65535 false 0 0 0 0.

(** The scheduler's arrays and the per-task arrays. *)
Record Tasks := mkTasks {
  sched : Sched;
  data : list TaskData;
  task_names : NameRows;
  task_peers : NameRows;
  name_restart : list NameRestart
}.

Definition tasks_boot (cores : nat) : Tasks :=
  mkTasks (sched_boot cores) (replicate MAX_TASKS boot_data) (rows_new MAX_TASKS TASK_NAME_MAX)
    (rows_new (MAX_TASKS * MAX_SEND_PEERS) PEER_NAME_BYTES) [].

Definition data_at (k : Tasks) (slot : nat) : TaskData := default boot_data (data k !! slot).
Definition upd_data (k : Tasks) (slot : nat) (f : TaskData -> TaskData) : Tasks :=
  mkTasks (sched k) (alter f slot (data k)) (task_names k) (task_peers k) (name_restart k).
Definition with_sched (k : Tasks) (s : Sched) : Tasks :=
  mkTasks s (data k) (task_names k) (task_peers k) (name_restart k).

Definition set_caps (x : list (option Capability)) (d : TaskData) : TaskData :=
  mkData x (d_is_user d) (d_kernel_stack_top d) (d_endpoint d) (d_reply_endpoint d) (d_recv_buf d)
    (d_pending_caps d) (d_pending_count d) (d_last_badge d) (d_hw_bdf d) (d_watched d) (d_hw_kind d)
    (d_alloc_bytes d) (d_limit_bytes d) (d_next_alloc_va d).
Definition set_endpoints (e r : Z) (d : TaskData) : TaskData :=
  mkData (d_caps d) (d_is_user d) (d_kernel_stack_top d) e r (d_recv_buf d)
    (d_pending_caps d) (d_pending_count d) (d_last_badge d) (d_hw_bdf d) (d_watched d) (d_hw_kind d)
    (d_alloc_bytes d) (d_limit_bytes d) (d_next_alloc_va d).
Definition set_user (u : bool) (kst : Z) (d : TaskData) : TaskData :=
  mkData (d_caps d) u kst (d_endpoint d) (d_reply_endpoint d) (d_recv_buf d)
    (d_pending_caps d) (d_pending_count d) (d_last_badge d) (d_hw_bdf d) (d_watched d) (d_hw_kind d)
    (d_alloc_bytes d) (d_limit_bytes d) (d_next_alloc_va d).
Definition set_recv_buf (m : option Message) (d : TaskData) : TaskData :=
  mkData (d_caps d) (d_is_user d) (d_kernel_stack_top d) (d_endpoint d) (d_reply_endpoint d) m
    (d_pending_caps d) (d_pending_count d) (d_last_badge d) (d_hw_bdf d) (d_watched d) (d_hw_kind d)
    (d_alloc_bytes d) (d_limit_bytes d) (d_next_alloc_va d).
Definition set_pending_caps (l : list Z) (n : nat) (d : TaskData) : TaskData :=
  mkData (d_caps d) (d_is_user d) (d_kernel_stack_top d) (d_endpoint d) (d_reply_endpoint d) (d_recv_buf d)
    l n (d_last_badge d) (d_hw_bdf d) (d_watched d) (d_hw_kind d)
    (d_alloc_bytes d) (d_limit_bytes d) (d_next_alloc_va d).
Definition set_badge (b : Z) (d : TaskData) : TaskData :=
  mkData (d_caps d) (d_is_user d) (d_kernel_stack_top d) (d_endpoint d) (d_reply_endpoint d) (d_recv_buf d)
    (d_pending_caps d) (d_pending_count d) b (d_hw_bdf d) (d_watched d) (d_hw_kind d)
    (d_alloc_bytes d) (d_limit_bytes d) (d_next_alloc_va d).
Definition set_device (bdf : Z) (w : bool) (kind : Z) (d : TaskData) : TaskData :=
  mkData (d_caps d) (d_is_user d) (d_kernel_stack_top d) (d_endpoint d) (d_reply_endpoint d) (d_recv_buf d)
    (d_pending_caps d) (d_pending_count d) (d_last_badge d) bdf w kind
    (d_alloc_bytes d) (d_limit_bytes d) (d_next_alloc_va d).
Definition set_budget (a l v : Z) (d : TaskData) : TaskData :=
  mkData (d_caps d) (d_is_user d) (d_kernel_stack_top d) (d_endpoint d) (d_reply_endpoint d) (d_recv_buf d)
    (d_pending_caps d) (d_pending_count d) (d_last_badge d) (d_hw_bdf d) (d_watched d) (d_hw_kind d)
    a l v.

(** ** Identity *)

Definition task_name (k : Tasks) (slot : nat) : list Z := rows_get MAX_TASKS TASK_NAME_MAX (task_names k) slot.

Definition set_task_name (k : Tasks) (slot : nat) (name : list Z) : Tasks :=
  mkTasks (sched k) (data k) (rows_set MAX_TASKS TASK_NAME_MAX (task_names k) slot name) (task_peers k)
    (name_restart k).

Definition set_task_peers (k : Tasks) (slot : nat) (peers : list (list Z)) : Tasks :=
  if (MAX_TASKS <=? slot)%nat then k
  else
    mkTasks (sched k) (data k) (task_names k)
      (foldl (fun t i => rows_set (MAX_TASKS * MAX_SEND_PEERS) PEER_NAME_BYTES t
                           (slot * MAX_SEND_PEERS + i) (default [] (peers !! i)))
             (task_peers k) (seq 0 MAX_SEND_PEERS))
      (name_restart k).

Definition task_declares_peer (k : Tasks) (slot : nat) (peer : list Z) : bool :=
  if (MAX_TASKS <=? slot)%nat || bool_decide (peer = []) then false
  else existsb (fun i => rows_match (MAX_TASKS * MAX_SEND_PEERS) PEER_NAME_BYTES (task_peers k)
                           (slot * MAX_SEND_PEERS + i) peer) (seq 0 MAX_SEND_PEERS).

Definition find_task_by_name_excluding (k : Tasks) (name : list Z) (exclude : option nat) : option nat :=
  position (fun i => negb (bool_decide (exclude = Some i)) && t_valid (task_at (sched k) i) &&
                     bool_decide (task_name k i = name) && negb (bool_decide (t_state (task_at (sched k) i) = Dead)))
    (seq 0 MAX_TASKS).

(** [usize::MAX] excludes nothing. *)
Definition find_task_by_name (k : Tasks) (name : list Z) : option nat :=
  find_task_by_name_excluding k name None.

(** ** Endpoints, devices *)

Definition ep_to_u64 (e : option Z) : Z := match e with Some id => id | None => 0 end.
Definition ep_from_u64 (v : Z) : option Z := if v =? 0 then None else Some v.

Definition take_task_reply_endpoint (k : Tasks) (slot : nat) : Tasks * option Z :=
  if (MAX_TASKS <=? slot)%nat then (k, None)
  else (upd_data k slot (fun d => set_endpoints (d_endpoint d) 0 d), ep_from_u64 (d_reply_endpoint (data_at k slot))).

Definition set_task_reply_endpoint (k : Tasks) (slot : nat) (e : option Z) : Tasks :=
  if (slot <? MAX_TASKS)%nat then upd_data k slot (fun d => set_endpoints (d_endpoint d) (ep_to_u64 e) d) else k.

Definition set_task_hw_bdf (k : Tasks) (slot : nat) (bdf : Z) : Tasks :=
  if (slot <? MAX_TASKS)%nat then upd_data k slot (fun d => set_device bdf (d_watched d) (d_hw_kind d) d) else k.
Definition task_hw_bdf (k : Tasks) (slot : nat) : Z :=
  if (slot <? MAX_TASKS)%nat then d_hw_bdf (data_at k slot) else 65535.
Definition take_task_hw_bdf (k : Tasks) (slot : nat) : Tasks * Z :=
  if (slot <? MAX_TASKS)%nat
  then (upd_data k slot (fun d => set_device 65535 (d_watched d) (d_hw_kind d) d), d_hw_bdf (data_at k slot))
  else (k, 65535).

Definition set_task_watched (k : Tasks) (slot : nat) (w : bool) : Tasks :=
  if (slot <? MAX_TASKS)%nat then upd_data k slot (fun d => set_device (d_hw_bdf d) w (d_hw_kind d) d) else k.
Definition task_watched (k : Tasks) (slot : nat) : bool :=
  (slot <? MAX_TASKS)%nat && d_watched (data_at k slot).
Definition set_task_hw_kind (k : Tasks) (slot : nat) (kind : Z) : Tasks :=
  if (slot <? MAX_TASKS)%nat then upd_data k slot (fun d => set_device (d_hw_bdf d) (d_watched d) kind d) else k.
Definition task_hw_kind (k : Tasks) (slot : nat) : Z :=
  if (slot <? MAX_TASKS)%nat then d_hw_kind (data_at k slot) else 0.

Definition live_endpoint_of_kind (k : Tasks) (kind : Z) : option Z :=
  match position (fun i => t_valid (task_at (sched k) i) && (d_hw_kind (data_at k i) =? kind) &&
                           negb (bool_decide (t_state (task_at (sched k) i) = Dead))) (seq 0 MAX_TASKS) with
  | Some i => ep_from_u64 (d_endpoint (data_at k i))
  | None => None
  end.

(** ** The task a core is running *)

(** [cur < MAX_TASKS && TASK_VALID[cur]], for core [cid]. *)
Definition current (k : Tasks) (cid : nat) : option nat :=
  let cur := current_task_slot (sched k) cid in
  if (cur <? MAX_TASKS)%nat && t_valid (task_at (sched k) cur) then Some cur else None.

Definition current_task_lookup_cap (R : GRT) (k : Tasks) (cid slot : nat) (right : Rights)
    : result Capability CapError :=
  match current k cid with
  | Some cur => CapTable.get R (d_caps (data_at k cur)) slot right
  | None => Err CapNotHeld
  end.

Definition current_task_holds_resource (k : Tasks) (cid : nat) (rid : ResourceId) (right : Rights) : bool :=
  match current k cid with
  | Some cur => CapTable.holds_resource (d_caps (data_at k cur)) rid right
  | None => false
  end.

Definition current_task_endpoint (k : Tasks) (cid : nat) : option Z :=
  match current k cid with
  | Some cur => ep_from_u64 (d_endpoint (data_at k cur))
  | None => None
  end.

Definition current_task_remove_cap (k : Tasks) (cid slot : nat) : Tasks * option Capability :=
  match current k cid with
  | Some cur =>
      let (caps, c) := CapTable.remove (d_caps (data_at k cur)) slot in (upd_data k cur (set_caps caps), c)
  | None => (k, None)
  end.

Definition current_task_insert_cap (k : Tasks) (cid : nat) (cap : Capability) : Tasks * result nat CapError :=
  match current k cid with
  | Some cur =>
      let (caps, r) := CapTable.insert (d_caps (data_at k cur)) cap in (upd_data k cur (set_caps caps), r)
  | None => (k, Err CapNotHeld)
  end.

Definition current_task_read_cap_rights (k : Tasks) (cid slot : nat) : option Rights :=
  match current k cid with
  | Some cur => cap_read_rights (d_caps (data_at k cur)) slot
  | None => None
  end.

(** The capabilities [for_each_cap_of] visits. *)
Definition for_each_cap_of (k : Tasks) (slot : nat) : list Capability :=
  if (MAX_TASKS <=? slot)%nat then []
  else if t_valid (task_at (sched k) slot) then CapTable.for_each_slot (d_caps (data_at k slot)) else [].
Definition for_each_active_cap (k : Tasks) : list Capability := mjoin (for_each_cap_of k <$> seq 0 MAX_TASKS).

(** ** What a receive leaves for its task *)

Definition pack_badge (id right : Z) : Z := if id =? 0 then 0 else Z.lor (Z.shiftl right 32) id.

Definition set_last_recv_badge (k : Tasks) (cid : nat) (id right : Z) : Tasks :=
  let cur := current_task_slot (sched k) cid in
  if (cur <? MAX_TASKS)%nat then upd_data k cur (set_badge (pack_badge id right)) else k.

Definition take_last_recv_badge (k : Tasks) (cid : nat) : Tasks * Z :=
  let cur := current_task_slot (sched k) cid in
  if (cur <? MAX_TASKS)%nat then (upd_data k cur (set_badge 0), d_last_badge (data_at k cur)) else (k, 0).

Definition push_pending_recv_cap (k : Tasks) (cid : nat) (cap_slot : Z) : Tasks * bool :=
  let cur := current_task_slot (sched k) cid in
  let d := data_at k cur in
  if (cur <? MAX_TASKS)%nat && (d_pending_count d <? MAX_PENDING_RECV_CAPS)%nat
  then (upd_data k cur (set_pending_caps (<[d_pending_count d := cap_slot]> (d_pending_caps d))
                          (S (d_pending_count d))), true)
  else (k, false).

(** [for i in 0..n { a[i] = a[i + 1] }] *)
Definition shift_left (a : list Z) (n : nat) : list Z :=
  foldl (fun a i => <[i := default 0 (a !! S i)]> a) a (seq 0 n).

Definition pop_pending_recv_cap (k : Tasks) (cid : nat) : Tasks * option Z :=
  let cur := current_task_slot (sched k) cid in
  let d := data_at k cur in
  if (cur <? MAX_TASKS)%nat && (0 <? d_pending_count d)%nat
  then (upd_data k cur (set_pending_caps (shift_left (d_pending_caps d) (d_pending_count d - 1))
                          (d_pending_count d - 1)),
        d_pending_caps d !! 0%nat)
  else (k, None).

Definition store_recv_message (k : Tasks) (cid : nat) (m : Message) : Tasks :=
  let cur := current_task_slot (sched k) cid in
  if (cur <? MAX_TASKS)%nat then upd_data k cur (set_recv_buf (Some m)) else k.

Definition take_recv_message (k : Tasks) (cid : nat) : Tasks * option Message :=
  let cur := current_task_slot (sched k) cid in
  if (cur <? MAX_TASKS)%nat then (upd_data k cur (set_recv_buf None), d_recv_buf (data_at k cur)) else (k, None).

(** ** The memory budget *)

Definition set_task_memory_budget (k : Tasks) (slot : nat) (limit base_bytes : Z) : Tasks :=
  if (MAX_TASKS <=? slot)%nat then k
  else upd_data k slot (set_budget base_bytes limit TASK_HEAP_VA_START).

(** [size] rounded up to a page, or [u64::MAX] where that overflows. *)
Definition page_round (size : Z) : Z :=
  match checked_add64 size 4095 with
  | Some v => Z.land v (Z.lnot 4095)
  | None => u64_max
  end.

Definition current_task_claim_alloc (k : Tasks) (cid : nat) (size : Z) : Tasks * option Z :=
  match current k cid with
  | None => (k, None)
  | Some cur =>
      let d := data_at k cur in
      let aligned := page_round size in
      let already := d_alloc_bytes d in
      if d_limit_bytes d <? saturating_add64 already aligned then (k, None)
      else
        let va := d_next_alloc_va d in
        (upd_data k cur (set_budget (saturating_add64 already aligned) (d_limit_bytes d)
                           (saturating_add64 va aligned)), Some va)
  end.

Definition current_task_alloc_bytes (k : Tasks) (cid : nat) : Z :=
  match current k cid with Some cur => d_alloc_bytes (data_at k cur) | None => 0 end.

(** ** A spawn's writes to a slot *)

(** [reserve_task_slot], with the reset of the pending capabilities. *)
Definition reserve_slot (k : Tasks) (core_id : nat) : Tasks * option nat :=
  let (s, r) := reserve_task_slot (sched k) core_id in
  match r with
  | Some i => (upd_data (with_sched k s) i (fun d => set_pending_caps (d_pending_caps d) 0 d), Some i)
  | None => (k, None)
  end.

Definition task_cap_init_empty (k : Tasks) (slot : nat) : Tasks := upd_data k slot (set_caps CapTable.empty).

(** [commit_task]; the register context is not modelled. *)
Definition commit_task (k : Tasks) (slot : nat) (name : list Z) (is_user : bool) (kernel_stack_top : Z)
    (endpoint : option Z) : Tasks :=
  let k := set_task_name k slot name in
  let k := upd_data k slot (fun d => set_endpoints (ep_to_u64 endpoint) (d_reply_endpoint d)
                                       (set_user is_user kernel_stack_top d)) in
  with_sched k (commit_ready (sched k) slot).

(** ** Statistics *)

Record TaskStatRaw := mkStat {
  ts_valid : bool;
  ts_state : Z;
  ts_core : nat;
  ts_mem_used : Z;
  ts_mem_limit : Z;
  ts_name : list Z;
  ts_restart_count : Z;
  ts_queue_depth : Z;
  ts_run_ticks : Z;
  ts_endpoint : Z
}.

(** Without the uptime, which reads the arch clock. *)
Definition task_stat (k : Tasks) (r : RoutingState) (slot : nat) : TaskStatRaw :=
  if (MAX_TASKS <=? slot)%nat then mkStat false 0 0 0 0 [] 0 0 0 0
  else
    let t := task_at (sched k) slot in
    let d := data_at k slot in
    let endpoint := ep_from_u64 (d_endpoint d) in
    mkStat (t_valid t) (state_as_u8 (t_state t)) (t_core t) (d_alloc_bytes d) (d_limit_bytes d)
      (task_name k slot) (next_restart_count (name_restart k) (task_name k slot))
      (match endpoint with Some ep => Z.of_nat (endpoint_queue_depth r ep) mod 256 | None => 0 end)
      (t_run_ticks t) (default 0 endpoint).

(** ** Well-formedness *)

Record rows_wf (N L : nat) (t : NameRows) : Prop := mk_rows_wf {
  rw_bytes : length (row_bytes t) = N;
  rw_lens : length (row_lens t) = N
}.

Record tasks_wf (k : Tasks) : Prop := mk_tasks_wf {
  tw_sched : length (tasks (sched k)) = MAX_TASKS;
  tw_data : length (data k) = MAX_TASKS;
  tw_names : rows_wf MAX_TASKS TASK_NAME_MAX (task_names k);
  tw_peers : rows_wf (MAX_TASKS * MAX_SEND_PEERS) PEER_NAME_BYTES (task_peers k)
}.

(** The pending capabilities as the queue they implement. *)
Definition pending_queue (d : TaskData) : list Z := take (d_pending_count d) (d_pending_caps d).

Definition pending_wf (d : TaskData) : Prop :=
  length (d_pending_caps d) = MAX_PENDING_RECV_CAPS /\ (d_pending_count d <= MAX_PENDING_RECV_CAPS)%nat.

(** A task's claims, one after the other: each granted claim's address and
    rounded size. *)
Fixpoint claims (k : Tasks) (cid : nat) (sizes : list Z) : Tasks * list (Z * Z) :=
  match sizes with
  | [] => (k, [])
  | size :: sizes =>
      let (k, r) := current_task_claim_alloc k cid size in
      let (k', l) := claims k cid sizes in
      (k', match r with Some va => (va, page_round size) :: l | None => l end)
  end.

(** Regions one after the other, from [lo] up to [hi], each page aligned. *)
Fixpoint consecutive (lo hi : Z) (l : list (Z * Z)) : Prop :=
  match l with
  | [] => lo = hi
  | (va, len) :: l => va = lo /\ 0 <= len /\ va mod 4096 = 0 /\ len mod 4096 = 0 /\ consecutive (lo + len) hi l
  end.

(** ** Lemmas *)

Module TaskDataFacts.

Lemma data_at_upd (k : Tasks) (i j : nat) (f : TaskData -> TaskData) :
  (i < length (data k))%nat ->
  data_at (upd_data k i f) j = if decide (i = j) then f (data_at k i) else data_at k j.
Proof.
  intros Hi. unfold data_at, upd_data. simpl. case_decide as Hij.
  - subst. rewrite list_lookup_alter_eq. apply lookup_lt_is_Some in Hi as [d ->]. done.
  - by rewrite list_lookup_alter_ne.
Qed.

Lemma current_upd (k : Tasks) (i cid : nat) (f : TaskData -> TaskData) :
  current (upd_data k i f) cid = current k cid.
Proof. done. Qed.

Lemma current_lt (k : Tasks) (cid cur : nat) : current k cid = Some cur -> (cur < MAX_TASKS)%nat.
Proof.
  unfold current. intros H. destruct (_ && _) eqn:E; [|done]. apply andb_true_iff in E as [E%Nat.ltb_lt _].
  simplify_eq. done.
Qed.

(** *** Names *)

Lemma padded_length (L : nat) (name : list Z) : length (padded L name) = L.
Proof. unfold padded. rewrite length_app, length_take, length_replicate. lia. Qed.

Lemma padded_take (L : nat) (name : list Z) : (length name <= L)%nat -> take (length name) (padded L name) = name.
Proof. intros H. unfold padded. rewrite take_ge with (n := L) by done. by rewrite take_app_length. Qed.

Lemma rows_set_wf (N L : nat) (t : NameRows) (i : nat) (name : list Z) :
  rows_wf N L t -> rows_wf N L (rows_set N L t i name).
Proof. intros [H1 H2]. unfold rows_set. case_match; [done|]. split; simpl; by rewrite length_insert. Qed.

Lemma rows_set_row (N L : nat) (t : NameRows) (i j : nat) (name : list Z) :
  rows_wf N L t -> (i < N)%nat -> (L < 256)%nat ->
  (row_bytes (rows_set N L t i name) !! j, row_lens (rows_set N L t i name) !! j) =
  if decide (i = j) then (Some (padded L name), Some (Z.of_nat (Nat.min (length name) L)))
  else (row_bytes t !! j, row_lens t !! j).
Proof.
  intros [H1 H2] Hi HL. unfold rows_set. rewrite (proj2 (Nat.leb_gt _ _) Hi). simpl. case_decide as Hij.
  - subst j. rewrite !list_lookup_insert_eq by lia. rewrite Z.mod_small by lia. done.
  - by rewrite !list_lookup_insert_ne.
Qed.

Lemma rows_match_row (N L : nat) (t : NameRows) (i : nat) (stored name : list Z) :
  (i < N)%nat -> row_bytes t !! i = Some (padded L stored) ->
  row_lens t !! i = Some (Z.of_nat (Nat.min (length stored) L)) ->
  rows_match N L t i name = bool_decide (take L stored = name).
Proof.
  intros Hi Hb Hl. unfold rows_match. rewrite (proj2 (Nat.leb_gt _ _) Hi), Hb, Hl. simpl.
  rewrite Nat2Z.id, Nat.min_comm.
  assert (Ht : take (Nat.min L (length stored)) (padded L stored) = take L stored).
  { unfold padded. rewrite take_app_le by (rewrite length_take; lia).
    rewrite take_take. destruct (decide (L <= length stored)%nat); [f_equal; lia|].
    by rewrite !take_ge by lia. }
  rewrite Ht. destruct (_ || _) eqn:E; [|done]. symmetry. apply bool_decide_eq_false. intros <-.
  rewrite length_take in E. apply orb_true_iff in E as [E%negb_true_iff%Nat.eqb_neq|E%Nat.ltb_lt]; lia.
Qed.

(** *** Restart counters *)

Lemma restart_entry_matches (name : list Z) (c : Z) (other : list Z) :
  (length name <= TASK_NAME_MAX)%nat ->
  nr_matches other (mkNameRestart (padded TASK_NAME_MAX name)
                      (Z.of_nat (Nat.min (length name) TASK_NAME_MAX) mod 256) c) = bool_decide (name = other).
Proof.
  intros Hn. unfold nr_matches. simpl. rewrite Nat.min_l by done.
  rewrite Z.mod_small by (unfold TASK_NAME_MAX, PEER_NAME_BYTES in *; lia).
  by rewrite Nat2Z.id, padded_take.
Qed.


(** A table with one entry for each name it counts: the distinct names,
    in order of first death. *)
Definition restart_repr (tbl : NameRestartTable) (names : list (list Z)) : Prop :=
  NoDup names /\ Forall2 (fun e n => nr_name e = padded TASK_NAME_MAX n /\ nr_len e = Z.of_nat (length n) /\
                                     n <> [] /\ (length n <= TASK_NAME_MAX)%nat) tbl names.

Lemma restart_position (tbl : NameRestartTable) (names : list (list Z)) (name : list Z) :
  restart_repr tbl names -> position (nr_matches name) tbl = position (fun n => bool_decide (n = name)) names.
Proof.
  intros [_ H]. induction H as [|e n tbl names (H1 & H2 & _ & H3) _ IH]; [done|]. simpl. rewrite IH.
  unfold nr_matches. by rewrite H1, H2, Nat2Z.id, padded_take.
Qed.

Lemma restart_count_eq (tbl : NameRestartTable) (names : list (list Z)) (name : list Z) (i : nat) :
  restart_repr tbl names -> names !! i = Some name ->
  position (nr_matches name) tbl = Some i /\ name <> [].
Proof.
  intros Hr Hi. rewrite (restart_position tbl names) by done. destruct Hr as [Hnd Hf]. split.
  - apply position_Some. split; [by exists name; rewrite bool_decide_true|].
    intros j y Hj Hy. apply bool_decide_eq_false. intros ->.
    pose proof (NoDup_lookup _ _ _ _ Hnd Hi Hy). lia.
  - destruct (Forall2_lookup_r _ _ _ _ _ Hf Hi) as (e & _ & _ & _ & ? & _). done.
Qed.

Lemma restart_absent (tbl : NameRestartTable) (names : list (list Z)) (name : list Z) :
  restart_repr tbl names -> name ∉ names -> position (nr_matches name) tbl = None.
Proof.
  intros Hr Hn. rewrite (restart_position tbl names) by done. apply position_None.
  intros i x Hx. apply bool_decide_eq_false. intros ->. apply Hn. by eapply list_elem_of_lookup_2.
Qed.

(** The deaths of [name] in a sequence. *)
Definition deaths (name : list Z) (l : list (list Z)) : nat := count (fun n => bool_decide (n = name)) l.

(** What the table says of a sequence of deaths, given the names it has an
    entry for. *)
Definition counts_ok (tbl : NameRestartTable) (names l : list (list Z)) : Prop :=
  restart_repr tbl names /\
  (forall n, n ∈ l -> n ∈ names) /\
  forall n, next_restart_count tbl n = Z.min (Z.of_nat (deaths n l)) u64_max.

Lemma counts_bump_known (tbl : NameRestartTable) (names l : list (list Z)) (name : list Z) :
  counts_ok tbl names l -> name ∈ names -> counts_ok (bump_name_restart tbl name) names (l ++ [name]).
Proof.
  intros (Hr & Hsub & Hc) [i Hi]%list_elem_of_lookup.
  destruct (restart_count_eq tbl names name i Hr Hi) as [Hp Hne].
  unfold bump_name_restart. rewrite bool_decide_false, Hp by done.
  set (tbl' := alter _ i tbl).
  assert (Hr' : restart_repr tbl' names).
  { destruct Hr as [Hnd Hf]. split; [done|]. clear -Hf. revert i tbl'. induction Hf; intros [|i]; simpl; constructor; auto.
    apply IHHf. }
  split_and!; [done| |].
  { intros n [?|Heq%list_elem_of_singleton]%elem_of_app; [auto|]. subst n. by eapply list_elem_of_lookup_2. }
  intros n. unfold deaths. rewrite count_app, count_cons, count_nil. specialize (Hc n).
  destruct (decide (n = name)) as [->|Hn].
  - rewrite bool_decide_true by done. revert Hc. unfold next_restart_count.
    rewrite bool_decide_false by done. destruct (restart_count_eq tbl' names name i Hr' Hi) as [-> _]. rewrite Hp.
    unfold tbl'. rewrite list_lookup_alter_eq. destruct (position_hit _ _ _ Hp) as (e & He & _). rewrite He. simpl.
    unfold saturating_add64, deaths. intros ->. unfold u64_max. lia.
  - rewrite (bool_decide_false (name = n)) by congruence.
    replace (next_restart_count tbl' n) with (next_restart_count tbl n); [rewrite Hc; unfold deaths; f_equal; lia|].
    unfold next_restart_count. case_bool_decide; [done|].
    rewrite (restart_position tbl names), (restart_position tbl' names) by done.
    destruct (position _ names) as [j|] eqn:Ej; [|done].
    assert (i <> j).
    { intros ->. apply position_hit in Ej as (x & Hx & Hb%bool_decide_eq_true). congruence. }
    unfold tbl'. by rewrite list_lookup_alter_ne.
Qed.

Lemma counts_bump_new (tbl : NameRestartTable) (names l : list (list Z)) (name : list Z) :
  counts_ok tbl names l -> name ∉ names -> name <> [] -> (length name <= TASK_NAME_MAX)%nat ->
  (length names < NAME_RESTART_MAX)%nat ->
  counts_ok (bump_name_restart tbl name) (names ++ [name]) (l ++ [name]).
Proof.
  intros (Hr & Hsub & Hc) Hn Hne Hlen Hroom.
  assert (Hl : length tbl = length names) by (destruct Hr as [_ Hf]; by apply Forall2_length in Hf).
  unfold bump_name_restart. rewrite bool_decide_false by done. rewrite (restart_absent tbl names) by done.
  rewrite Hl, (proj2 (Nat.ltb_lt _ _) Hroom).
  rewrite Nat.min_l, Z.mod_small by (unfold TASK_NAME_MAX, PEER_NAME_BYTES in *; lia).
  set (tbl' := tbl ++ _).
  assert (Hr' : restart_repr tbl' (names ++ [name])).
  { destruct Hr as [Hnd Hf]. split.
    - apply NoDup_app. split_and!; [done|set_solver|apply NoDup_singleton].
    - apply Forall2_app; [done|]. constructor; [|constructor]. by split_and!. }
  split_and!; [done|set_solver|].
  intros n. unfold deaths. rewrite count_app, count_cons, count_nil. specialize (Hc n).
  destruct (decide (n = name)) as [->|Hn'].
  - rewrite bool_decide_true by done. unfold next_restart_count. rewrite bool_decide_false by done.
    destruct (restart_count_eq tbl' (names ++ [name]) name (length names) Hr') as [-> _].
    { rewrite lookup_app_r, Nat.sub_diag by done. done. }
    unfold tbl'. rewrite lookup_app_r, <- Hl, Nat.sub_diag by lia. simpl.
    assert (count (fun n => bool_decide (n = name)) l = 0%nat) as ->; [|unfold u64_max; lia].
    apply count_zero, position_None. intros j y Hy. apply bool_decide_eq_false. intros ->.
    apply Hn, Hsub. by eapply list_elem_of_lookup_2.
  - rewrite (bool_decide_false (name = n)) by congruence.
    replace (next_restart_count tbl' n) with (next_restart_count tbl n); [rewrite Hc; unfold deaths; f_equal; lia|].
    unfold next_restart_count. case_bool_decide; [done|]. unfold tbl'.
    rewrite (restart_position tbl names), (restart_position (tbl ++ _) (names ++ [name])) by done.
    destruct (position (fun m => bool_decide (m = n)) names) as [j|] eqn:Ej.
    + assert (position (fun m => bool_decide (m = n)) (names ++ [name]) = Some j) as ->.
      { apply position_Some in Ej as [(x & Hx & Hb) Hbefore]. apply position_Some.
        pose proof (lookup_lt_Some _ _ _ Hx).
        split; [exists x; by rewrite lookup_app_l|]. intros i y Hi Hy. rewrite lookup_app_l in Hy by lia. eauto. }
      apply position_lt in Ej. by rewrite lookup_app_l by lia.
    + assert (position (fun m => bool_decide (m = n)) (names ++ [name]) = None) as ->; [|done].
      rewrite position_None in *. intros i y [Hy|[_ Hy]]%lookup_app_Some; [eauto|].
      apply list_lookup_singleton_Some in Hy as [_ <-]. by apply bool_decide_eq_false.
Qed.


(** *** Peers *)

(** A run of stores to the rows from [b]. *)
Lemma rows_fold (N L b m : nat) (f : nat -> list Z) (t : NameRows) :
  rows_wf N L t -> (b + m <= N)%nat -> (L < 256)%nat ->
  let t' := foldl (fun t i => rows_set N L t (b + i) (f i)) t (seq 0 m) in
  rows_wf N L t' /\
  forall j, (row_bytes t' !! j, row_lens t' !! j) =
    if decide (b <= j < b + m)%nat
    then (Some (padded L (f (j - b)%nat)), Some (Z.of_nat (Nat.min (length (f (j - b)%nat)) L)))
    else (row_bytes t !! j, row_lens t !! j).
Proof.
  intros Hwf Hb HL. induction m as [|m IH]; intros t'.
  - split; [done|]. intros j. by rewrite decide_False by lia.
  - unfold t'. rewrite seq_S, foldl_snoc. destruct IH as [Hwf' IH]; [lia|]. simpl in *.
    split; [by apply rows_set_wf|]. intros j.
    rewrite rows_set_row by (done || lia). case_decide as Hj.
    + rewrite decide_True by lia. subst j. by replace (b + m - b)%nat with m by lia.
    + rewrite IH. destruct (decide (b <= j < b + m)%nat); [by rewrite decide_True by lia|by rewrite decide_False by lia].
Qed.

(** *** Pending capabilities *)

Lemma shift_left_spec (a : list Z) (n : nat) :
  (n < length a)%nat -> take n (shift_left a n) = take n (drop 1 a) /\ length (shift_left a n) = length a /\
                        forall j, (n <= j)%nat -> shift_left a n !! j = a !! j.
Proof.
  unfold shift_left. induction n as [|n IH]; intros Hn; [done|].
  rewrite seq_S, foldl_snoc. destruct IH as (H1 & H2 & H3); [lia|]. simpl.
  set (a' := foldl _ a (seq 0 n)) in *. rewrite length_insert. split_and!; [|done|].
  - rewrite (H3 (S n)) by lia. destruct (lookup_lt_is_Some_2 a (S n) Hn) as [x Hx]. rewrite Hx. simpl.
    rewrite (take_S_r _ _ x), (take_S_r (drop 1 a) _ x).
    + by rewrite take_insert_ge, H1 by lia.
    + by rewrite lookup_drop.
    + rewrite list_lookup_insert_eq; [done|lia].
  - intros j Hj. rewrite list_lookup_insert_ne by lia. apply H3. lia.
Qed.

Lemma push_queue (k : Tasks) (cid : nat) (x : Z) :
  let cur := current_task_slot (sched k) cid in
  tasks_wf k -> (cur < MAX_TASKS)%nat -> pending_wf (data_at k cur) ->
  let (k', ok) := push_pending_recv_cap k cid x in
  pending_wf (data_at k' cur) /\
  if ok then pending_queue (data_at k' cur) = pending_queue (data_at k cur) ++ [x]
  else k' = k /\ length (pending_queue (data_at k cur)) = MAX_PENDING_RECV_CAPS.
Proof.
  intros cur Hwf Hcur [Hl Hc]. unfold push_pending_recv_cap. fold cur.
  rewrite (proj2 (Nat.ltb_lt _ _) Hcur). simpl.
  destruct (_ <? _)%nat eqn:E.
  - apply Nat.ltb_lt in E. rewrite data_at_upd by (rewrite (tw_data _ Hwf); done). rewrite decide_True by done.
    unfold pending_wf, pending_queue. simpl. rewrite length_insert. split; [split; [done|lia]|].
    rewrite (take_S_r _ _ x) by (rewrite list_lookup_insert_eq; [done|lia]). by rewrite take_insert_ge.
  - apply Nat.ltb_ge in E. split; [done|]. split; [done|]. unfold pending_queue. rewrite length_take.
    unfold MAX_PENDING_RECV_CAPS in *. lia.
Qed.

Lemma pop_queue (k : Tasks) (cid : nat) :
  let cur := current_task_slot (sched k) cid in
  tasks_wf k -> (cur < MAX_TASKS)%nat -> pending_wf (data_at k cur) ->
  let (k', r) := pop_pending_recv_cap k cid in
  pending_wf (data_at k' cur) /\
  pending_queue (data_at k cur) = option_list r ++ pending_queue (data_at k' cur).
Proof.
  intros cur Hwf Hcur [Hl Hc]. unfold pop_pending_recv_cap. fold cur.
  rewrite (proj2 (Nat.ltb_lt _ _) Hcur). simpl. set (d := data_at k cur) in *.
  assert (Hpw : pending_wf d) by done.
  destruct (d_pending_count d) as [|n] eqn:En.
  - split; [exact Hpw|]. done.
  - change (0 <? S n)%nat with true. cbv iota. rewrite data_at_upd by (rewrite (tw_data _ Hwf); done).
    rewrite decide_True by done. fold d. unfold pending_wf, pending_queue. simpl. rewrite En, Nat.sub_0_r.
    destruct (shift_left_spec (d_pending_caps d) n) as (H1 & H2 & _); [lia|].
    rewrite H2. split; [split; [done|lia]|]. rewrite H1.
    destruct (d_pending_caps d) as [|x l]; [simpl in *; lia|]. done.
Qed.

(** *** The memory budget *)

Lemma page_round_spec (size : Z) :
  0 <= size <= u64_max - 4095 -> size <= page_round size < size + 4096 /\ page_round size mod 4096 = 0.
Proof.
  intros H. unfold page_round, checked_add64, u64_max in *. rewrite (proj2 (Z.leb_le _ _)) by lia.
  rewrite <- Z.ldiff_land. change 4095 with (Z.ones 12). rewrite Z.ldiff_ones_r by lia.
  rewrite Z.shiftr_div_pow2, Z.shiftl_mul_pow2 by lia. change (2 ^ 12) with 4096. change (Z.ones 12) with 4095.
  split; [dlia|apply Z.mod_mul; lia].
Qed.

Lemma page_round_big (size : Z) : u64_max - 4095 < size -> page_round size = u64_max.
Proof. intros H. unfold page_round, checked_add64. by rewrite (proj2 (Z.leb_gt _ _)) by lia. Qed.

(** One claim: granted exactly when it fits, and then the next region. *)
Lemma claim_spec (k : Tasks) (cid cur : nat) (size : Z) :
  let d := data_at k cur in
  tasks_wf k -> current k cid = Some cur -> 0 <= size <= u64_max ->
  0 <= d_alloc_bytes d -> 0 <= d_next_alloc_va d -> d_limit_bytes d < u64_max ->
  d_next_alloc_va d + (d_limit_bytes d - d_alloc_bytes d) <= u64_max ->
  let (k', r) := current_task_claim_alloc k cid size in
  match r with
  | Some va =>
      d_alloc_bytes d + page_round size <= d_limit_bytes d /\ va = d_next_alloc_va d /\
      0 <= page_round size /\ page_round size mod 4096 = 0 /\
      k' = upd_data k cur (set_budget (d_alloc_bytes d + page_round size) (d_limit_bytes d)
                             (d_next_alloc_va d + page_round size))
  | None => k' = k /\ d_limit_bytes d < d_alloc_bytes d + page_round size
  end.
Proof.
  intros d Hwf Hcur Hs Ha Hv Hl Htop. unfold current_task_claim_alloc. rewrite Hcur. fold d.
  assert (Hr : 0 <= page_round size /\ (page_round size = u64_max \/ page_round size mod 4096 = 0)).
  { destruct (decide (size <= u64_max - 4095)) as [Hle|Hgt].
    - destruct (page_round_spec size) as [? ?]; [lia|]. split; [lia|by right].
    - rewrite page_round_big by lia. unfold u64_max. lia. }
  unfold saturating_add64. destruct (_ <? _) eqn:E; to_prop.
  - split; [done|]. lia.
  - assert (page_round size <> u64_max) by lia.
    split_and!; [lia|done|lia|by destruct Hr as [_ [?|?]]|]. by rewrite !Z.min_l by lia.
Qed.

End TaskDataFacts.

Import TaskDataFacts.

(** ** Theorems *)

Lemma current_budget (k : Tasks) (cid cur : nat) (a l v : Z) :
  tasks_wf k -> (cur < MAX_TASKS)%nat ->
  let k' := upd_data k cur (set_budget a l v) in
  tasks_wf k' /\ d_alloc_bytes (data_at k' cur) = a /\ d_limit_bytes (data_at k' cur) = l /\
  d_next_alloc_va (data_at k' cur) = v /\ current k' cid = current k cid.
Proof.
  intros Hwf Hc k'. pose proof (tw_data _ Hwf) as Hd. unfold k'. rewrite data_at_upd by lia. rewrite decide_True by done.
  split; [|done]. destruct Hwf. split; simpl; try done. by rewrite length_alter.
Qed.

(** From any point, the granted regions follow on from the next address. *)
Lemma claims_follow (sizes : list Z) (k : Tasks) (cid cur : nat) :
  tasks_wf k -> current k cid = Some cur -> Forall (fun s => 0 <= s <= u64_max) sizes ->
  let d := data_at k cur in
  0 <= d_alloc_bytes d -> 0 <= d_next_alloc_va d -> d_next_alloc_va d mod 4096 = 0 -> d_limit_bytes d < u64_max ->
  d_next_alloc_va d + (d_limit_bytes d - d_alloc_bytes d) <= u64_max ->
  let (k', l) := claims k cid sizes in
  let d' := data_at k' cur in
  consecutive (d_next_alloc_va d) (d_next_alloc_va d') l /\
  d_next_alloc_va d' - d_next_alloc_va d = d_alloc_bytes d' - d_alloc_bytes d /\
  d_alloc_bytes d <= d_alloc_bytes d' <= Z.max (d_alloc_bytes d) (d_limit_bytes d).
Proof.
  revert k. induction sizes as [|size sizes IH]; intros k Hwf Hcur Hs d Ha Hv Hal Hl Htop.
  { simpl. fold d. split_and!; [done|lia..]. }
  apply Forall_cons in Hs as [Hs0 Hs]. simpl.
  pose proof (claim_spec k cid cur size Hwf Hcur Hs0 Ha Hv Hl Htop) as Hspec.
  destruct (current_task_claim_alloc k cid size) as [k1 [va|]]; fold d in Hspec.
  - destruct Hspec as (Hfit & -> & Hp & Hpa & ->).
    destruct (current_budget k cid cur (d_alloc_bytes d + page_round size) (d_limit_bytes d)
                (d_next_alloc_va d + page_round size) Hwf) as (Hwf' & E1 & E2 & E3 & E4); [by eapply current_lt|].
    specialize (IH _ Hwf'). rewrite E4 in IH. specialize (IH Hcur Hs). cbv zeta in IH. rewrite E1, E2, E3 in IH.
    destruct (claims _ cid sizes) as [k' l]. destruct IH as (H1 & H2 & H3); [lia|lia| |lia|lia|].
    { rewrite Z.add_mod, Hal, Hpa by lia. done. }
    split_and!; [|lia..]. simpl. split_and!; try done; lia.
  - destruct Hspec as [-> _]. specialize (IH k Hwf Hcur Hs Ha Hv Hal Hl Htop).
    destruct (claims k cid sizes) as [k' l]. exact IH.
Qed.

(** Memory budget.  Whatever sizes a task asks for, in any order and
    including those whose rounding overflows, the regions it is granted are
    page aligned, follow one another from the start of its heap without
    overlapping, and their total on top of the task's base footprint never
    exceeds its limit. *)
Theorem claims_within_budget (k : Tasks) (cid cur : nat) (limit base : Z) (sizes : list Z) :
  tasks_wf k -> current k cid = Some cur ->
  0 <= base <= limit -> limit <= u64_max - TASK_HEAP_VA_START ->
  Forall (fun s => 0 <= s <= u64_max) sizes ->
  let (k', l) := claims (set_task_memory_budget k cur limit base) cid sizes in
  let d := data_at k' cur in
  consecutive TASK_HEAP_VA_START (d_next_alloc_va d) l /\
  d_alloc_bytes d = base + (d_next_alloc_va d - TASK_HEAP_VA_START) /\
  d_alloc_bytes d <= limit.
Proof.
  intros Hwf Hcur Hb Hl Hs. pose proof (current_lt _ _ _ Hcur) as Hlt. unfold TASK_HEAP_VA_START in Hl.
  unfold set_task_memory_budget. rewrite (proj2 (Nat.leb_gt _ _) Hlt).
  destruct (current_budget k cid cur base limit TASK_HEAP_VA_START Hwf Hlt) as (Hwf' & E1 & E2 & E3 & E4).
  pose proof (claims_follow sizes _ cid cur Hwf') as H. rewrite E4 in H. specialize (H Hcur Hs). cbv zeta in H.
  rewrite E1, E2, E3 in H. destruct (claims _ cid sizes) as [k' l]. unfold TASK_HEAP_VA_START, u64_max in *.
  destruct H as (H1 & H2 & H3); [lia|lia|done|lia|lia|]. split_and!; [done|lia|lia].
Qed.

(** Restart counts.  After any sequence of deaths of services with at
    most 64 distinct non-empty names of at most 128 bytes, the count reported
    for each name is the number of its deaths, saturating at [u64::MAX], and
    0 for a name that never died. *)
Theorem restart_counts_deaths (l names : list (list Z)) (name : list Z) :
  (length names <= NAME_RESTART_MAX)%nat ->
  Forall (fun n => n ∈ names /\ n <> [] /\ (length n <= TASK_NAME_MAX)%nat) l ->
  next_restart_count (foldl bump_name_restart [] l) name = Z.min (Z.of_nat (deaths name l)) u64_max.
Proof.
  intros Hn Hl. cut (exists seen, counts_ok (foldl bump_name_restart [] l) seen l /\ seen ⊆ names /\ NoDup seen).
  { intros (seen & (_ & _ & H) & _). apply H. }
  induction l as [|n l IH] using rev_ind.
  - exists []. split; [|split; [set_solver|constructor]]. split_and!; [split; constructor|set_solver|].
    intros m. unfold next_restart_count. by case_bool_decide.
  - apply Forall_app in Hl as [Hl [(Hin & Hne & Hlen) _]%Forall_cons].
    destruct (IH Hl) as (seen & Hok & Hsub & Hnd). rewrite foldl_snoc.
    destruct (decide (n ∈ seen)) as [Hs|Hs].
    + exists seen. split; [by apply counts_bump_known|done].
    + assert (Hnd' : NoDup (seen ++ [n])).
      { apply NoDup_app. split_and!; [done|set_solver|apply NoDup_singleton]. }
      exists (seen ++ [n]). split; [|split; [set_solver|done]]. apply counts_bump_new; try done.
      assert (Hle : (length (seen ++ [n]) <= length names)%nat).
      { apply submseteq_length, NoDup_submseteq; [done|]. set_solver. }
      rewrite length_app in Hle. simpl in Hle. lia.
Qed.

(** Declared peers.  Once a spawn has recorded a task's peers, the kernel
    answers that the task declared a name exactly when it is the non-empty
    first 128 bytes of one of the first six; no other task's answer changes. *)
Theorem declared_peers_exact (k : Tasks) (slot other : nat) (peers : list (list Z)) (peer : list Z) :
  tasks_wf k -> (slot < MAX_TASKS)%nat -> (other < MAX_TASKS)%nat ->
  let k' := set_task_peers k slot peers in
  (task_declares_peer k' slot peer = true <->
   peer <> [] /\ exists i p, (i < MAX_SEND_PEERS)%nat /\ peers !! i = Some p /\ take PEER_NAME_BYTES p = peer) /\
  (other <> slot -> task_declares_peer k' other peer = task_declares_peer k other peer).
Proof.
  intros Hwf Hs Ho k'. unfold k', set_task_peers, task_declares_peer.
  rewrite (proj2 (Nat.leb_gt _ _) Hs), (proj2 (Nat.leb_gt _ _) Ho), !orb_false_l. cbn [task_peers].
  destruct (rows_fold (MAX_TASKS * MAX_SEND_PEERS) PEER_NAME_BYTES (slot * MAX_SEND_PEERS) MAX_SEND_PEERS
              (fun i => default [] (peers !! i)) (task_peers k)) as [_ Hrow];
    [apply (tw_peers _ Hwf)|unfold MAX_TASKS, MAX_SEND_PEERS in *; lia|unfold PEER_NAME_BYTES; lia|].
  set (t' := foldl _ _ _) in *.
  assert (Hm : forall i, (i < MAX_SEND_PEERS)%nat ->
            rows_match (MAX_TASKS * MAX_SEND_PEERS) PEER_NAME_BYTES t' (slot * MAX_SEND_PEERS + i) peer =
            bool_decide (take PEER_NAME_BYTES (default [] (peers !! i)) = peer)).
  { intros i Hi. pose proof (Hrow (slot * MAX_SEND_PEERS + i)%nat) as Hr. rewrite decide_True in Hr by lia.
    replace (slot * MAX_SEND_PEERS + i - slot * MAX_SEND_PEERS)%nat with i in Hr by lia.
    injection Hr as H1 H2. apply rows_match_row; [unfold MAX_TASKS, MAX_SEND_PEERS in *; lia|done..]. }
  split.
  - case_bool_decide as Hp; [split; [done|naive_solver]|]. rewrite existsb_exists. split.
    + intros (i & Hi%in_seq & Ht). rewrite Hm in Ht by lia. apply bool_decide_eq_true in Ht. split; [done|].
      exists i. destruct (peers !! i) as [p|] eqn:E; [exists p; split_and!; [lia|done..]|]. by simpl in Ht.
    + intros (_ & i & p & Hi & Hpi & Ht). exists i. split; [apply in_seq; lia|].
      rewrite Hm, Hpi by done. by apply bool_decide_eq_true.
  - intros Hne. case_bool_decide; [done|].
    assert (Hsame : forall i, (i < MAX_SEND_PEERS)%nat ->
      row_bytes t' !! (other * MAX_SEND_PEERS + i)%nat = row_bytes (task_peers k) !! (other * MAX_SEND_PEERS + i)%nat /\
      row_lens t' !! (other * MAX_SEND_PEERS + i)%nat = row_lens (task_peers k) !! (other * MAX_SEND_PEERS + i)%nat).
    { intros i Hi. pose proof (Hrow (other * MAX_SEND_PEERS + i)%nat) as Hr.
      rewrite decide_False in Hr by (unfold MAX_SEND_PEERS in *; lia). by injection Hr. }
    assert (Heq : forall i, i ∈ seq 0 MAX_SEND_PEERS ->
      rows_match (MAX_TASKS * MAX_SEND_PEERS) PEER_NAME_BYTES t' (other * MAX_SEND_PEERS + i) peer =
      rows_match (MAX_TASKS * MAX_SEND_PEERS) PEER_NAME_BYTES (task_peers k) (other * MAX_SEND_PEERS + i) peer).
    { intros i Hi%elem_of_seq. unfold rows_match. destruct (Hsame i) as [-> ->]; [lia|done]. }
    by apply existsb_ext.
Qed.

(** ** Witnesses *)

(** One core running the task in slot 0. *)
Definition sample_tasks : Tasks :=
  with_sched (tasks_boot 1)
    (run_once (commit_ready (reserve_task_slot (sched (tasks_boot 1)) 0).1 0) 0).1.

Lemma sample_tasks_wf : tasks_wf sample_tasks.
Proof.
  split; [vm_compute; reflexivity..| |]; split; unfold sample_tasks, with_sched, tasks_boot, rows_new;
    cbn [task_names task_peers row_bytes row_lens]; by rewrite length_replicate.
Qed.

Lemma claims_within_budget_witness :
  let (k', l) := claims (set_task_memory_budget sample_tasks 0 20000 4096) 0 [1; u64_max; 8192; 8192] in
  consecutive TASK_HEAP_VA_START (d_next_alloc_va (data_at k' 0)) l /\ d_alloc_bytes (data_at k' 0) <= 20000.
Proof.
  pose proof (claims_within_budget sample_tasks 0 0 20000 4096 [1; u64_max; 8192; 8192] sample_tasks_wf) as H.
  assert (Hc : current sample_tasks 0 = Some 0%nat) by (vm_compute; reflexivity).
  destruct (claims _ 0 _) as [k' l].
  destruct H as (H1 & _ & H2); [exact Hc|lia|unfold u64_max, TASK_HEAP_VA_START; lia| |exact (conj H1 H2)].
  unfold u64_max. repeat (apply Forall_cons; split; [lia|]). apply Forall_nil. exact I.
Defined.

Lemma restart_counts_deaths_witness :
  next_restart_count (foldl bump_name_restart [] [[102]; [112]; [102]]) [102] = 2.
Proof.
  rewrite (restart_counts_deaths [[102]; [112]; [102]] [[102]; [112]] [102]).
  - vm_compute. reflexivity.
  - vm_compute. lia.
  - repeat (apply Forall_cons; split; [split; [set_solver|split; [discriminate|vm_compute; lia]]|]).
    apply Forall_nil. exact I.
Defined.

Lemma declared_peers_exact_witness :
  task_declares_peer (set_task_peers sample_tasks 0 [[102]; [112]]) 0 [112] = true.
Proof.
  destruct (declared_peers_exact sample_tasks 0 1 [[102]; [112]] [112] sample_tasks_wf) as [H _];
    [unfold MAX_TASKS; lia|unfold MAX_TASKS; lia|].
  apply H. split; [discriminate|]. exists 1%nat, [112]. split; [unfold MAX_SEND_PEERS; lia|]. split; reflexivity.
Defined.
