(* ===== verification/Interrupt.v ===== *)
(** * Interrupt routing

    [kernel/src/interrupt/route.rs]: the table from interrupt vectors to driver
    endpoints, registration, release at a driver's death, and delivery of an
    interrupt as a message; and the part of [kernel/src/arch/x86_64/ioapic.rs]
    it gates lines with.  The state of the interrupt controller is the low
    half of each redirection entry; [eois] counts the end-of-interrupt
    commands sent to the local APIC. *)

From S2P Require Import Prelude Capability Queue Routing Sched.

Definition MAX_IRQ : nat := 256.
Definition MAX_LEVEL_ROUTES : nat := 16.

Record Irq := mkIrq {
  IRQ_TABLE : list (option Z);
  level_vec : list Z;            (* LEVEL_ROUTE_VEC *)
  level_gsi : list nat;          (* LEVEL_ROUTE_GSI *)
  ioapic_mapped : bool;          (* IOAPIC_VA <> 0 *)
  redir : list Z;                (* low dword of each redirection entry *)
  VECTOR_SEEN : list Z;
  eois : Z
}.

Definition irq_boot (mapped : bool) : Irq :=
  mkIrq (replicate MAX_IRQ None) (replicate MAX_LEVEL_ROUTES 255) (replicate MAX_LEVEL_ROUTES 255%nat)
    mapped (replicate MAX_IRQ 65536) (replicate 4 0) 0.

Definition with_irq_table (i : Irq) (t : list (option Z)) : Irq :=
  mkIrq t (level_vec i) (level_gsi i) (ioapic_mapped i) (redir i) (VECTOR_SEEN i) (eois i).
Definition with_redir (i : Irq) (r : list Z) : Irq :=
  mkIrq (IRQ_TABLE i) (level_vec i) (level_gsi i) (ioapic_mapped i) r (VECTOR_SEEN i) (eois i).
Definition with_levels (i : Irq) (v : list Z) (g : list nat) : Irq :=
  mkIrq (IRQ_TABLE i) v g (ioapic_mapped i) (redir i) (VECTOR_SEEN i) (eois i).
Definition with_seen (i : Irq) (v : list Z) : Irq :=
  mkIrq (IRQ_TABLE i) (level_vec i) (level_gsi i) (ioapic_mapped i) (redir i) v (eois i).
Definition send_eoi (i : Irq) : Irq :=
  mkIrq (IRQ_TABLE i) (level_vec i) (level_gsi i) (ioapic_mapped i) (redir i) (VECTOR_SEEN i) (eois i + 1).

(** ** [ioapic.rs] *)

(** Level-triggered, active-low, fixed delivery to [vector]. *)
Definition set_redir (i : Irq) (gsi : nat) (vector : Z) (masked : bool) : Irq :=
  if ioapic_mapped i then
    let low := Z.lor (Z.lor (Z.lor vector (Z.shiftl 1 13)) (Z.shiftl 1 15)) (Z.shiftl (if masked then 1 else 0) 16) in
    with_redir i (<[gsi := low]> (redir i))
  else i.

Definition mask_bit (masked : bool) (low : Z) : Z :=
  if masked then Z.lor low (Z.shiftl 1 16) else Z.ldiff low (Z.shiftl 1 16).

Definition set_mask (i : Irq) (gsi : nat) (masked : bool) : Irq :=
  if ioapic_mapped i then with_redir i (alter (mask_bit masked) gsi (redir i)) else i.

Definition set_level_route (i : Irq) (vector : Z) (gsi : nat) : Irq :=
  if existsb (fun j => (default 255 (level_vec i !! j) =? vector) &&
                       (default 255 (level_gsi i !! j) =? gsi)%nat) (seq 0 MAX_LEVEL_ROUTES) then i
  else match position (fun v => v =? 255) (level_vec i) with
       | Some j => with_levels i (<[j := vector]> (level_vec i)) (<[j := gsi]> (level_gsi i))
       | None => i
       end.

(** One pass of the loop shared by [mask_vector] and [unmask_vector]. *)
Definition gate_one (vector : Z) (masked : bool) (i : Irq) (j : nat) : Irq :=
  if default 255 (level_vec i !! j) =? vector then set_mask i (default 255%nat (level_gsi i !! j)) masked else i.
Definition gate_vector (vector : Z) (masked : bool) (i : Irq) : Irq :=
  foldl (gate_one vector masked) i (seq 0 MAX_LEVEL_ROUTES).
Definition mask_vector (i : Irq) (vector : Z) : Irq := gate_vector vector true i.
Definition unmask_vector (i : Irq) (vector : Z) : Irq := gate_vector vector false i.

(** ** [route.rs] *)

Definition register_irq (i : Irq) (irq : nat) (ep : Z) : Irq :=
  unmask_vector (with_irq_table i (<[irq := Some ep]> (IRQ_TABLE i))) (Z.of_nat irq).

(** The lines released, in order. *)
Definition lines_of (t : list (option Z)) (ep : Z) : list nat :=
  filter (fun irq => t !! irq = Some (Some ep)) (seq 0 (length t)).

Definition clear_route (ep : Z) (slot : option Z) : option Z :=
  if bool_decide (slot = Some ep) then None else slot.

Definition unregister_irqs (i : Irq) (ep : Z) : Irq * nat :=
  let irqs := lines_of (IRQ_TABLE i) ep in
  let i := with_irq_table i (clear_route ep <$> IRQ_TABLE i) in
  (foldl (fun i irq => mask_vector i (Z.of_nat irq)) i irqs, length irqs).

Definition registered_endpoint (i : Irq) (irq : nat) : option Z := mjoin (IRQ_TABLE i !! irq).

Definition IRQ_NOTIFY_RESERVE : nat := QUEUE_DEPTH / 2.

Definition note_seen (i : Irq) (irq : nat) : Irq :=
  with_seen i (alter (fun w => Z.lor w (Z.shiftl 1 (Z.of_nat irq mod 64))) (irq / 64)%nat (VECTOR_SEEN i)).

(** [deliver] on core [cid]; the last component is the core sent a wake
    interrupt. *)
Definition deliver_irq (i : Irq) (r : RoutingState) (s : Sched) (cid irq : nat)
    : Irq * RoutingState * Sched * option nat :=
  let i := mask_vector (note_seen i irq) (Z.of_nat irq) in
  match registered_endpoint i irq with
  | Some ep =>
      if (endpoint_queue_depth r ep <? IRQ_NOTIFY_RESERVE)%nat then
        match enqueue_from_interrupt r ep (Message.interrupt_event (Z.of_nat irq)) with
        | (r, Woke slot) => let (s, ipi) := wake_by_slot s cid slot 0 in (send_eoi i, r, s, ipi)
        | (r, _) => (send_eoi i, r, s, None)
        end
      else (send_eoi i, r, s, None)
  | None => (send_eoi i, r, s, None)
  end.

(** ** Properties *)

Record irq_wf (i : Irq) : Prop := mk_irq_wf {
  iw_table : length (IRQ_TABLE i) = MAX_IRQ;
  iw_vec : length (level_vec i) = MAX_LEVEL_ROUTES;
  iw_gsi : length (level_gsi i) = MAX_LEVEL_ROUTES;
  iw_range : Forall (fun g => g < MAX_IRQ)%nat (level_gsi i);
  iw_redir : length (redir i) = MAX_IRQ
}.

Definition is_masked (i : Irq) (gsi : nat) : bool := Z.testbit (default 0 (redir i !! gsi)) 16.

(** [gsi] is one of the level lines of [vector]. *)
Definition level_line (i : Irq) (vector : Z) (gsi : nat) : Prop :=
  exists j, level_vec i !! j = Some vector /\ level_gsi i !! j = Some gsi.

Module IrqFacts.

Lemma mask_bit_masked (m : bool) (low : Z) : Z.testbit (mask_bit m low) 16 = m.
Proof.
  unfold mask_bit. destruct m.
  - rewrite Z.lor_spec. change (Z.testbit (Z.shiftl 1 16) 16) with true. apply orb_true_r.
  - rewrite Z.ldiff_spec. change (Z.testbit (Z.shiftl 1 16) 16) with true. apply andb_false_r.
Qed.

Lemma set_mask_masked (i : Irq) (g g' : nat) (m : bool) :
  length (redir i) = MAX_IRQ -> (g < MAX_IRQ)%nat -> ioapic_mapped i = true ->
  is_masked (set_mask i g m) g' = if decide (g = g') then m else is_masked i g'.
Proof.
  intros Hl Hg Hm. unfold set_mask, is_masked. rewrite Hm. cbn [redir with_redir]. case_decide as E.
  - subst. rewrite list_lookup_alter_eq. destruct (lookup_lt_is_Some_2 (redir i) g') as [x ->]; [lia|].
    apply mask_bit_masked.
  - by rewrite list_lookup_alter_ne.
Qed.

(** The line is gated by one of the first [n] level routes. *)
Definition gated (i : Irq) (vector : Z) (n gsi : nat) : bool :=
  existsb (fun j => bool_decide (level_vec i !! j = Some vector) && bool_decide (level_gsi i !! j = Some gsi)) (seq 0 n).

Lemma gate_fold (i : Irq) (vector : Z) (m : bool) (n : nat) :
  irq_wf i -> (n <= MAX_LEVEL_ROUTES)%nat ->
  let i' := foldl (gate_one vector m) i (seq 0 n) in
  IRQ_TABLE i' = IRQ_TABLE i /\ level_vec i' = level_vec i /\ level_gsi i' = level_gsi i /\
  ioapic_mapped i' = ioapic_mapped i /\ length (redir i') = MAX_IRQ /\ eois i' = eois i /\
  forall g, is_masked i' g = if ioapic_mapped i && gated i vector n g then m else is_masked i g.
Proof.
  intros Hwf Hn. induction n as [|n IH]; intros i'.
  { split_and!; try done; [apply (iw_redir _ Hwf)|]. intros g. by rewrite andb_false_r. }
  destruct IH as (E1 & E2 & E3 & E4 & E5 & E6 & Hm); [lia|].
  unfold i'. rewrite seq_S, foldl_snoc. simpl. set (i1 := foldl _ i (seq 0 n)) in *.
  destruct (lookup_lt_is_Some_2 (level_vec i) n) as [v Hv]; [rewrite (iw_vec _ Hwf); lia|].
  destruct (lookup_lt_is_Some_2 (level_gsi i) n) as [g0 Hg]; [rewrite (iw_gsi _ Hwf); lia|].
  assert (Hlt : (g0 < MAX_IRQ)%nat).
  { pose proof (iw_range _ Hwf) as Hr. rewrite Forall_lookup in Hr. by apply (Hr n). }
  assert (Hstep : forall g, gated i vector (S n) g =
            gated i vector n g || (bool_decide (v = vector) && bool_decide (g0 = g))).
  { intros g. unfold gated. rewrite seq_S, existsb_app. simpl. rewrite orb_false_r, Hv, Hg. f_equal. f_equal;
      apply bool_decide_ext; naive_solver. }
  unfold gate_one. rewrite E2, E3, Hv, Hg. simpl. destruct (v =? vector) eqn:Ev; to_prop.
  - subst v. destruct (ioapic_mapped i) eqn:Em.
    + assert (Hs : forall g, is_masked (set_mask i1 g0 m) g = if decide (g0 = g) then m else is_masked i1 g)
        by (intros; by apply set_mask_masked).
      split_and!; try (unfold set_mask; rewrite E4; cbn; done).
      { unfold set_mask. rewrite E4. cbn. by rewrite length_alter. }
      intros g. rewrite Hs, Hm, Hstep, (bool_decide_true (vector = vector)) by done.
      rewrite !andb_true_l. destruct (decide (g0 = g)) as [Heq|Hne].
      { by rewrite (bool_decide_true _ Heq), orb_true_r. }
      by rewrite (bool_decide_false _ Hne), orb_false_r.
    + unfold set_mask. rewrite E4. by split_and!.
  - split_and!; try done. intros g. rewrite Hm, Hstep, (bool_decide_false (v = vector)) by done.
    by rewrite orb_false_r.
Qed.

Lemma gated_line (i : Irq) (vector : Z) (g : nat) :
  irq_wf i -> gated i vector MAX_LEVEL_ROUTES g = true <-> level_line i vector g.
Proof.
  intros Hwf. unfold gated, level_line. rewrite existsb_exists. split.
  - intros (j & _ & [H1%bool_decide_eq_true H2%bool_decide_eq_true]%andb_true_iff). eauto.
  - intros (j & H1 & H2). exists j. split.
    + apply in_seq. apply lookup_lt_Some in H1. rewrite (iw_vec _ Hwf) in H1. lia.
    + by rewrite !bool_decide_true.
Qed.

Lemma gate_vector_spec (i : Irq) (vector : Z) (m : bool) :
  irq_wf i ->
  let i' := gate_vector vector m i in
  irq_wf i' /\ IRQ_TABLE i' = IRQ_TABLE i /\ level_vec i' = level_vec i /\ level_gsi i' = level_gsi i /\
  ioapic_mapped i' = ioapic_mapped i /\ eois i' = eois i /\
  (forall g, ioapic_mapped i = true -> level_line i vector g -> is_masked i' g = m) /\
  (forall g, ~ level_line i vector g -> is_masked i' g = is_masked i g).
Proof.
  intros Hwf i'. unfold i', gate_vector.
  destruct (gate_fold i vector m MAX_LEVEL_ROUTES Hwf) as (E1 & E2 & E3 & E4 & E5 & E6 & Hm); [lia|].
  split_and!; try done.
  - destruct Hwf. split; try done; congruence.
  - intros g Hmap Hl. rewrite Hm, Hmap, (proj2 (gated_line i vector g Hwf) Hl). done.
  - intros g Hl. rewrite Hm. destruct (gated i vector MAX_LEVEL_ROUTES g) eqn:E; [|by rewrite andb_false_r].
    by apply gated_line in E.
Qed.

(** Masking a run of lines. *)
Lemma mask_all_spec (i : Irq) (irqs : list nat) :
  irq_wf i ->
  let i' := foldl (fun i irq => mask_vector i (Z.of_nat irq)) i irqs in
  irq_wf i' /\ IRQ_TABLE i' = IRQ_TABLE i /\ level_vec i' = level_vec i /\ level_gsi i' = level_gsi i /\
  ioapic_mapped i' = ioapic_mapped i /\
  (forall g irq, irq ∈ irqs -> ioapic_mapped i = true -> level_line i (Z.of_nat irq) g -> is_masked i' g = true) /\
  (forall g, is_masked i g = true -> is_masked i' g = true) /\
  (forall g, (forall irq, irq ∈ irqs -> ~ level_line i (Z.of_nat irq) g) -> is_masked i' g = is_masked i g).
Proof.
  intros Hwf. induction irqs as [|irq irqs IH] using rev_ind; intros i'.
  { split_and!; try done. set_solver. }
  unfold i'. rewrite foldl_snoc. destruct IH as (W & E1 & E2 & E3 & E4 & H1 & H2 & H3).
  set (i1 := foldl _ i irqs) in *. unfold mask_vector.
  destruct (gate_vector_spec i1 (Z.of_nat irq) true W) as (W' & F1 & F2 & F3 & F4 & _ & G1 & G2).
  assert (Hline : forall v g, level_line i1 v g <-> level_line i v g) by (intros; unfold level_line; by rewrite E2, E3).
  assert (Hkeep : forall g, is_masked i1 g = true -> is_masked (gate_vector (Z.of_nat irq) true i1) g = true).
  { intros g Hg. destruct (gated i1 (Z.of_nat irq) MAX_LEVEL_ROUTES g) eqn:E.
    - apply gated_line in E; [|done]. destruct (ioapic_mapped i) eqn:Em; [by apply G1; [congruence|]|].
      revert Hg. unfold gate_vector.
      destruct (gate_fold i1 (Z.of_nat irq) true MAX_LEVEL_ROUTES W) as (_ & _ & _ & _ & _ & _ & Hm); [lia|].
      rewrite Hm, E4. done.
    - rewrite G2; [done|]. intros Hl. apply gated_line in Hl; [congruence|done]. }
  split_and!; try congruence; try done.
  - intros g q [Hq|Hq%list_elem_of_singleton]%elem_of_app Hm Hl; [by eapply Hkeep, H1|subst q].
    apply G1; [congruence|by apply Hline].
  - auto.
  - intros g Hno. rewrite G2, H3; [done| |].
    + intros q Hq. apply Hno, elem_of_app. by left.
    + rewrite Hline. apply Hno, elem_of_app. right. by apply list_elem_of_singleton.
Qed.

Lemma interrupt_room (r : RoutingState) (ep : Z) (m : Message) (e : RoutingEntry) :
  routing_wf r -> lookup_entry r ep = Some e -> liveness e = EpAlive ->
  (length (MessageQueue.contents (queue e)) < QUEUE_DEPTH)%nat ->
  exists r' e', enqueue_from_interrupt r ep m =
      (r', match blocked_receiver e with Some slot => Woke slot | None => Queued end) /\
    entry_update r r' ep e' /\ blocked_receiver e' = None /\ liveness e' = EpAlive /\ backlog e' = backlog e ++ [m].
Proof.
  intros Hwf Hl Hlive Hroom. destruct (lookup_entry_Some _ _ _ Hl) as (i & Hf & He & _).
  assert (entry_wf e) as Hewf by (by eapply rwf_entries).
  destruct (deliver_room e m Hewf Hlive Hroom) as (e' & Hd & ? & ? & ? & ? & ? & ? & ? & ?).
  eexists _, e'. unfold enqueue_from_interrupt. rewrite Hf, He, (proj2 (is_dead_false e) Hlive), Hd.
  split; [by destruct (blocked_receiver e)|]. split_and!; [|done..]. by eapply store_update.
Qed.

Lemma interrupt_dead (r : RoutingState) (ep : Z) (m : Message) :
  (forall e, lookup_entry r ep = Some e -> liveness e = EpDead) ->
  enqueue_from_interrupt r ep m = (r, NoEndpoint).
Proof.
  intros Hd. unfold enqueue_from_interrupt. destruct (find_index (TABLE r) ep) as [i|] eqn:Hf; [|done].
  destruct (find_index_Some r ep i Hf) as (e & -> & _ & _ & Hl). unfold is_dead. by rewrite (Hd e Hl).
Qed.

Lemma note_seen_wf (i : Irq) (irq : nat) : irq_wf i -> irq_wf (note_seen i irq).
Proof. by intros []. Qed.

Lemma is_masked_eoi (i : Irq) (g : nat) : is_masked (send_eoi i) g = is_masked i g.
Proof. reflexivity. Qed.

(** What a delivery does before it looks for the endpoint. *)
Lemma deliver_front (i : Irq) (irq : nat) :
  irq_wf i ->
  let i1 := mask_vector (note_seen i irq) (Z.of_nat irq) in
  registered_endpoint i1 irq = registered_endpoint i irq /\
  eois (send_eoi i1) = eois i + 1 /\ IRQ_TABLE (send_eoi i1) = IRQ_TABLE i /\
  (forall g, ioapic_mapped i = true -> level_line i (Z.of_nat irq) g -> is_masked (send_eoi i1) g = true).
Proof.
  intros Hi. unfold mask_vector.
  pose proof (gate_vector_spec (note_seen i irq) (Z.of_nat irq) true (note_seen_wf i irq Hi)) as H.
  cbv zeta in *. revert H. generalize (gate_vector (Z.of_nat irq) true (note_seen i irq)) as i1.
  intros i1 (_ & E1 & _ & _ & _ & E2 & G & _). unfold registered_endpoint.
  split; [by rewrite E1|]. split; [simpl; by rewrite E2|]. split; [exact E1|exact G].
Qed.

Lemma lines_of_elem (t : list (option Z)) (ep : Z) (irq : nat) :
  irq ∈ lines_of t ep <-> t !! irq = Some (Some ep).
Proof.
  unfold lines_of. rewrite list_elem_of_filter, elem_of_seq. split; [by intros [? _]|].
  intros H. split; [done|]. apply lookup_lt_Some in H. lia.
Qed.

Lemma unregister_irqs_routes (i : Irq) (ep : Z) :
  irq_wf i ->
  irq_wf (unregister_irqs i ep).1 /\
  forall irq, registered_endpoint (unregister_irqs i ep).1 irq =
    if decide (registered_endpoint i irq = Some ep) then None else registered_endpoint i irq.
Proof.
  intros Hi. unfold unregister_irqs. cbv zeta. cbn [fst].
  assert (W : irq_wf (with_irq_table i (clear_route ep <$> IRQ_TABLE i))).
  { destruct Hi. split; try done. simpl. by rewrite length_fmap. }
  destruct (mask_all_spec _ (lines_of (IRQ_TABLE i) ep) W) as (W' & E1 & _).
  set (i' := foldl _ _ _) in *. split; [exact W'|].
  intros irq. unfold registered_endpoint. rewrite E1. simpl. rewrite list_lookup_fmap.
  destruct (IRQ_TABLE i !! irq) as [[x|]|]; cbn [mjoin option_join fmap option_fmap option_map];
    [|done..]. unfold clear_route. case_bool_decide; case_decide; congruence.
Qed.
End IrqFacts.

Import IrqFacts.

(** Interrupt delivery.  Every delivery masks the level lines of its
    vector, leaves the routes alone and sends exactly one end-of-interrupt.
    A vector routed to a live endpoint with fewer than eight messages queued
    appends one message to that endpoint, wakes the receiver blocked on it if
    there is one, and so never meets a full queue; otherwise no endpoint and
    no task changes. *)
Theorem deliver_irq_correct (i : Irq) (r : RoutingState) (s : Sched) (cid irq : nat) :
  irq_wf i -> routing_wf r ->
  let '(i', r', s', ipi) := deliver_irq i r s cid irq in
  eois i' = eois i + 1 /\ IRQ_TABLE i' = IRQ_TABLE i /\
  (forall g, ioapic_mapped i = true -> level_line i (Z.of_nat irq) g -> is_masked i' g = true) /\
  match registered_endpoint i irq ≫= fun ep => (fun e => (ep, e)) <$> lookup_entry r ep with
  | Some (ep, e) =>
      if bool_decide (liveness e = EpAlive /\ length (MessageQueue.contents (queue e)) < IRQ_NOTIFY_RESERVE)%nat then
        exists e', entry_update r r' ep e' /\
          backlog e' = backlog e ++ [Message.interrupt_event (Z.of_nat irq)] /\ blocked_receiver e' = None /\
          (s', ipi) = match blocked_receiver e with Some slot => wake_by_slot s cid slot 0 | None => (s, None) end
      else r' = r /\ s' = s /\ ipi = None
  | None => r' = r /\ s' = s /\ ipi = None
  end.
Proof.
  intros Hi Hr. unfold deliver_irq. destruct (deliver_front i irq Hi) as (Hreg & H1 & H2 & H3).
  revert H1 H2 H3 Hreg. generalize (mask_vector (note_seen i irq) (Z.of_nat irq)) as i1.
  generalize (Message.interrupt_event (Z.of_nat irq)) as m. intros m i1 H1 H2 H3 Hreg. rewrite Hreg.
  destruct (registered_endpoint i irq) as [ep|]; simpl; [|by split_and!].
  unfold endpoint_queue_depth. destruct (lookup_entry r ep) as [e|] eqn:Hl; simpl.
  - pose proof (lookup_entry_wf _ _ _ Hr Hl) as Hewf.
    unfold MessageQueue.depth. rewrite (queue_len _ (ewf_queue _ Hewf)).
    destruct (_ <? _)%nat eqn:Ed.
    + apply Nat.ltb_lt in Ed. destruct (liveness e) eqn:Hlive.
      * rewrite bool_decide_true by done.
        destruct (interrupt_room r ep m e) as (r' & e' & -> & Hu & Hb & _ & Hbk);
          [done..|change IRQ_NOTIFY_RESERVE with 8%nat in Ed; unfold QUEUE_DEPTH; lia|].
        destruct (blocked_receiver e) as [slot|]; [destruct (wake_by_slot s cid slot 0)|]; split_and!; try done;
          exists e'; by split_and!.
      * rewrite bool_decide_false by naive_solver. rewrite interrupt_dead by naive_solver. by split_and!.
    + apply Nat.ltb_ge in Ed. rewrite bool_decide_false by lia. by split_and!.
  - rewrite interrupt_dead; [|intros e He; congruence]. by split_and!.
Qed.

(** A driver's death releases its lines.  After [unregister_endpoint] no
    vector is routed to the endpoint, every level line of a vector that was is
    masked, every other vector keeps its route, and a line of none of the
    released vectors keeps its gate; the result is the number released. *)
Theorem unregister_irqs_correct (i : Irq) (ep : Z) :
  irq_wf i ->
  let (i', n) := unregister_irqs i ep in
  (forall irq, registered_endpoint i' irq =
     if decide (registered_endpoint i irq = Some ep) then None else registered_endpoint i irq) /\
  (forall irq g, registered_endpoint i irq = Some ep -> ioapic_mapped i = true ->
     level_line i (Z.of_nat irq) g -> is_masked i' g = true) /\
  (forall g, (forall irq, registered_endpoint i irq = Some ep -> ~ level_line i (Z.of_nat irq) g) ->
     is_masked i' g = is_masked i g) /\
  n = length (filter (fun irq => registered_endpoint i irq = Some ep) (seq 0 MAX_IRQ)).
Proof.
  intros Hi. unfold unregister_irqs. cbv zeta.
  assert (Hel : forall irq, irq ∈ lines_of (IRQ_TABLE i) ep <-> registered_endpoint i irq = Some ep).
  { intros irq. rewrite lines_of_elem. unfold registered_endpoint.
    destruct (IRQ_TABLE i !! irq) as [[x|]|]; simpl; naive_solver. }
  assert (W : irq_wf (with_irq_table i (clear_route ep <$> IRQ_TABLE i))).
  { destruct Hi. split; try done. simpl. by rewrite length_fmap. }
  destruct (mask_all_spec _ (lines_of (IRQ_TABLE i) ep) W) as (_ & E1 & _ & _ & _ & H1 & _ & H2).
  set (i' := foldl _ _ _) in *. split_and!.
  - apply (unregister_irqs_routes i ep Hi).
  - intros irq g Hr Hm Hl. apply (H1 g irq); [by apply Hel|done|exact Hl].
  - intros g Hno. apply H2. intros irq Hin. apply Hno. by apply Hel.
  - unfold lines_of. rewrite (iw_table _ Hi). f_equal. apply list_filter_iff. intros irq.
    unfold registered_endpoint. destruct (IRQ_TABLE i !! irq) as [[x|]|]; simpl; naive_solver.
Qed.

(** ** Witnesses *)

(** Vector 41 on lines 9 and 10, routed to endpoint 100. *)
Definition sample_irq : Irq :=
  register_irq (set_level_route (set_level_route (irq_boot true) 41 9) 41 10) 41 100.

Lemma sample_irq_wf : irq_wf sample_irq.
Proof. split; [vm_compute; reflexivity..| |vm_compute; reflexivity]. apply Forall_forall. vm_compute. intros x Hx. set_solver by lia. Qed.

Lemma deliver_irq_correct_witness :
  let '(i', r', _, _) := deliver_irq sample_irq sample_routing (sched_boot 1) 0 41 in
  is_masked i' 9 = true /\ eois i' = 1.
Proof.
  pose proof (deliver_irq_correct sample_irq sample_routing (sched_boot 1) 0 41 sample_irq_wf sample_routing_wf) as H.
  destruct (deliver_irq sample_irq sample_routing (sched_boot 1) 0 41) as [[[i' r'] s'] ipi].
  destruct H as (H1 & _ & H2 & _). split; [|exact H1].
  apply H2; [reflexivity|]. exists 0%nat. split; reflexivity.
Defined.

Lemma unregister_irqs_correct_witness :
  let (i', n) := unregister_irqs sample_irq 100 in
  registered_endpoint i' 41 = None /\ is_masked i' 10 = true.
Proof.
  pose proof (unregister_irqs_correct sample_irq 100 sample_irq_wf) as H.
  destruct (unregister_irqs sample_irq 100) as [i' n]. destruct H as (H1 & H2 & _).
  assert (Hr : registered_endpoint sample_irq 41 = Some 100) by reflexivity. split.
  - rewrite (H1 41%nat), decide_True; [reflexivity|exact Hr].
  - apply (H2 41%nat); [exact Hr|reflexivity|]. exists 1%nat. split; reflexivity.
Defined.
