(* ===== verification/Kernel.v ===== *)
(** * Killing a task

    [kernel/src/task/scheduler.rs] ([kill_task_by_slot], [death_note]),
    [kernel/src/task/mod.rs] ([kill_by_name], [kill_current], the supervisor's
    respawn flag) and the console ownership of [kernel/src/arch/x86_64/mod.rs]:
    the point where every component of the kernel meets.  [Kernel] is their
    joint state; a kill runs to its end as one step, in the order of the
    source.  What other cores do meanwhile, and the frames and stacks the kill
    gives back, are in [Handshake]. *)

From S2P Require Import Prelude Capability CapTable Delegated Queue Routing Names Sched TaskData Interrupt.

Record Kernel := mkKernel {
  k_tasks : Tasks;
  k_routing : RoutingState;
  k_delegated : delegated GRT;        (* the resource registry and the delegated band *)
  k_names : list NameEntry;
  k_ids : EndpointIds;
  k_irq : Irq;
  k_generation : Z;                   (* NEXT_GENERATION *)
  k_foreground : Z;                   (* CONSOLE_FOREGROUND *)
  k_read_waiter : Z;                  (* CONSOLE_READ_WAITER *)
  k_screen : bool * bool;             (* bootcon: READY, OWNED_BY_KERNEL *)
  k_bus_master : list Z;              (* the PCI functions with bus mastering on *)
  k_respawn : bool;                   (* SUPERVISOR_RESPAWN_PENDING *)
  k_unheard : Z;                      (* DEATH_NOTIFY_UNHEARD *)
  k_dropped : Z                       (* DEATH_NOTIFY_DROPPED *)
}.

Definition with_tasks (k : Kernel) (x : Tasks) : Kernel :=
  mkKernel x (k_routing k) (k_delegated k) (k_names k) (k_ids k) (k_irq k) (k_generation k) (k_foreground k)
    (k_read_waiter k) (k_screen k) (k_bus_master k) (k_respawn k) (k_unheard k) (k_dropped k).
Definition with_routing (k : Kernel) (x : RoutingState) : Kernel :=
  mkKernel (k_tasks k) x (k_delegated k) (k_names k) (k_ids k) (k_irq k) (k_generation k) (k_foreground k)
    (k_read_waiter k) (k_screen k) (k_bus_master k) (k_respawn k) (k_unheard k) (k_dropped k).
Definition with_delegated (k : Kernel) (x : delegated GRT) : Kernel :=
  mkKernel (k_tasks k) (k_routing k) x (k_names k) (k_ids k) (k_irq k) (k_generation k) (k_foreground k)
    (k_read_waiter k) (k_screen k) (k_bus_master k) (k_respawn k) (k_unheard k) (k_dropped k).
Definition with_names (k : Kernel) (x : list NameEntry) : Kernel :=
  mkKernel (k_tasks k) (k_routing k) (k_delegated k) x (k_ids k) (k_irq k) (k_generation k) (k_foreground k)
    (k_read_waiter k) (k_screen k) (k_bus_master k) (k_respawn k) (k_unheard k) (k_dropped k).
Definition with_ids (k : Kernel) (x : EndpointIds) : Kernel :=
  mkKernel (k_tasks k) (k_routing k) (k_delegated k) (k_names k) x (k_irq k) (k_generation k) (k_foreground k)
    (k_read_waiter k) (k_screen k) (k_bus_master k) (k_respawn k) (k_unheard k) (k_dropped k).
Definition with_irq (k : Kernel) (x : Irq) : Kernel :=
  mkKernel (k_tasks k) (k_routing k) (k_delegated k) (k_names k) (k_ids k) x (k_generation k) (k_foreground k)
    (k_read_waiter k) (k_screen k) (k_bus_master k) (k_respawn k) (k_unheard k) (k_dropped k).
Definition with_generation (k : Kernel) (x : Z) : Kernel :=
  mkKernel (k_tasks k) (k_routing k) (k_delegated k) (k_names k) (k_ids k) (k_irq k) x (k_foreground k)
    (k_read_waiter k) (k_screen k) (k_bus_master k) (k_respawn k) (k_unheard k) (k_dropped k).
Definition with_console (k : Kernel) (fg : Z) (screen : bool * bool) : Kernel :=
  mkKernel (k_tasks k) (k_routing k) (k_delegated k) (k_names k) (k_ids k) (k_irq k) (k_generation k) fg
    (k_read_waiter k) screen (k_bus_master k) (k_respawn k) (k_unheard k) (k_dropped k).
Definition with_bus_master (k : Kernel) (x : list Z) : Kernel :=
  mkKernel (k_tasks k) (k_routing k) (k_delegated k) (k_names k) (k_ids k) (k_irq k) (k_generation k) (k_foreground k)
    (k_read_waiter k) (k_screen k) x (k_respawn k) (k_unheard k) (k_dropped k).
Definition with_notices (k : Kernel) (respawn : bool) (unheard dropped : Z) : Kernel :=
  mkKernel (k_tasks k) (k_routing k) (k_delegated k) (k_names k) (k_ids k) (k_irq k) (k_generation k) (k_foreground k)
    (k_read_waiter k) (k_screen k) (k_bus_master k) respawn unheard dropped.

Definition k_sched (k : Kernel) : Sched := sched (k_tasks k).
Definition k_registry (k : Kernel) : GRT := registry (k_delegated k).
Definition with_registry (k : Kernel) (R : GRT) : Kernel :=
  with_delegated k (mkDelegated R (band (k_delegated k))).

(** [wake_by_slot] from core [my]; its inter-processor interrupt is not part
    of the state. *)
Definition k_wake (k : Kernel) (my : nat) (target : nat) (result : Z) : Kernel :=
  with_tasks k (with_sched (k_tasks k) (wake_by_slot (k_sched k) my target result).1).

(** [if s != slot { wake_by_slot(s, result) }] for each of [waiters] in turn. *)
Definition wake_waiter (my slot : nat) (result : Z) (s : Sched) (w : nat) : Sched :=
  if (w =? slot)%nat then s else (wake_by_slot s my w result).1.

Definition wake_all (k : Kernel) (my slot : nat) (result : Z) (waiters : list nat) : Kernel :=
  with_tasks k (with_sched (k_tasks k) (foldl (wake_waiter my slot result) (k_sched k) waiters)).

(** The bytes of "supervisor". *)
Definition SUPERVISOR : list Z := [115; 117; 112; 101; 114; 118; 105; 115; 111; 114].

(** ** The console *)

Definition claim_console_foreground (k : Kernel) (task_slot : Z) : Kernel :=
  with_console k task_slot (k_screen k).

Definition wake_console_waiter (k : Kernel) (my : nat) : Kernel :=
  if k_read_waiter k =? u32_max then k else k_wake k my (Z.to_nat (k_read_waiter k)) 0.

Definition release_console_foreground (k : Kernel) (my : nat) : Kernel :=
  wake_console_waiter (with_console k u32_max (k_screen k)) my.

Definition release_console_foreground_if_owner (k : Kernel) (my : nat) (task_slot : Z) : Kernel :=
  if k_foreground k =? task_slot then wake_console_waiter (with_console k u32_max (k_screen k)) my else k.

Definition console_foreground_allows (k : Kernel) (task_slot : Z) : bool :=
  (k_foreground k =? u32_max) || (k_foreground k =? task_slot).

(** [bootcon::reclaim_on_death], without the pixels. *)
Definition reclaim_on_death (k : Kernel) : Kernel :=
  if (k_screen k).1 then with_console k (k_foreground k) ((k_screen k).1, true) else k.

(** ** The death notice *)

Inductive Cause :=
| Killed (by_slot : nat)
| Fault (kind addr : Z)
| Exited (status : Z).

Definition KILLED : Z := 75.
Definition FAULT : Z := 70.
Definition EXITED : Z := 69.

(** The first [n] bytes of the note, where [n] is what the source returns. *)
Definition death_note (k : Tasks) (name : list Z) (cause : Cause) : list Z :=
  take TASK_NAME_MAX name ++ [0] ++
  match cause with
  | Killed by_slot => KILLED :: take TASK_NAME_MAX (task_name k by_slot)
  | Fault kind addr => FAULT :: kind :: to_le_bytes 8 addr
  | Exited status => EXITED :: to_le_bytes 4 status
  end.

(** ** The kill, in the order of the source *)

(** Under the slot lock: refuse a slot that is out of range, not in use or
    already dead, else mark it dead. *)
Definition kill_claim (k : Kernel) (slot : nat) : option Kernel :=
  let t := task_at (k_sched k) slot in
  if (MAX_TASKS <=? slot)%nat || negb (t_valid t) then None
  else if bool_decide (t_state t = Dead) then None
  else Some (with_tasks k (with_sched (k_tasks k) (upd_task (k_sched k) slot (set_state Dead)))).

Definition counted (k : Kernel) (slot : nat) (name : list Z) : bool :=
  task_watched (k_tasks k) slot || bool_decide (name = SUPERVISOR).

(** The reply mailbox: killed, its waiters woken, its capabilities dead, its
    credit banked and its id given back. *)
Definition kill_reply (k : Kernel) (my slot : nat) (name : list Z) (reply : option Z) : outcome Kernel :=
  match reply with
  | None => Done k
  | Some rep =>
      '(r, (rx, tx)) ← kill_endpoint (k_routing k) rep;
      let k := wake_all (with_routing k r) my slot (-7) (option_list rx ++ option_list tx) in
      R ← mark_dead_resource (k_registry k) rep;
      let k := with_registry k R in
      let k := with_tasks k (upd_data (k_tasks k) slot (fun d => set_endpoints (d_endpoint d) 0 d)) in
      let k := if counted k slot name then with_routing k (bank_mailbox_credit (k_routing k)) else k in
      Done (with_ids k (free_endpoint_id (k_ids k) rep))
  end.

(** [delegated::release_owner] always returns, so its [None] (out of fuel) is
    never reached: see [release_owner_reclaims]. *)
Definition release_delegated (k : Kernel) (ep : Z) : outcome Kernel :=
  match release_owner (k_delegated k) ep with
  | Some o => '(d, _) ← o; Done (with_delegated k d)
  | None => Panic
  end.

(** The endpoint that clients send to.  The loop that takes a caller and wakes
    it is a drain followed by the wakes: a wake leaves the routing table alone. *)
Definition kill_primary (k : Kernel) (my slot : nat) (name : list Z) (endpoint reply : option Z) : outcome Kernel :=
  match endpoint with
  | None => Done k
  | Some ep =>
      '(r, (rx, tx), callers) ← kill_and_drain (k_routing k) ep;
      let k := wake_all (with_routing k r) my slot (-7) (option_list rx ++ option_list tx) in
      let k := wake_all k my slot (-12) callers in
      R ← mark_dead_resource (k_registry k) ep;
      k ← release_delegated (with_registry k R) ep;
      let k := with_names k (unregister_endpoint (k_names k) name ep).1 in
      let k := with_irq k (unregister_irqs (k_irq k) ep).1 in
      let k := match reply with Some rep => with_irq k (unregister_irqs (k_irq k) rep).1 | None => k end in
      Done (with_ids k (free_endpoint_id (k_ids k) ep))
  end.

Definition FRAMEBUFFER : Z := 6.

(** The restart count and the screen. *)
Definition kill_account (k : Kernel) (slot : nat) (name : list Z) : Kernel :=
  let k := if counted k slot name
           then with_tasks k (mkTasks (k_sched k) (data (k_tasks k)) (task_names (k_tasks k)) (task_peers (k_tasks k))
                                (bump_name_restart (name_restart (k_tasks k)) name))
           else k in
  if task_hw_kind (k_tasks k) slot =? FRAMEBUFFER then reclaim_on_death k else k.

(** The notice to the supervisor, and the kernel's own flag when it is the
    supervisor that died. *)
Definition kill_notify (k : Kernel) (my slot : nat) (name : list Z) (cause : Cause) : Kernel :=
  let k :=
    if task_watched (k_tasks k) slot then
      match lookup_name (k_names k) SUPERVISOR, Message.new (death_note (k_tasks k) name cause) with
      | Some sup, Ok msg =>
          match enqueue_from_interrupt (k_routing k) sup msg with
          | (r, Woke sup_slot) => k_wake (with_routing k r) my sup_slot 0
          | (r, Queued) => with_routing k r
          | (r, NoEndpoint) => with_notices (with_routing k r) (k_respawn k) (wrap64 (k_unheard k + 1)) (k_dropped k)
          | (r, EnqueueQueueFull) => with_notices (with_routing k r) (k_respawn k) (k_unheard k) (wrap64 (k_dropped k + 1))
          end
      | _, _ => k
      end
    else k in
  if bool_decide (name = SUPERVISOR) then with_notices k true (k_unheard k) (k_dropped k) else k.

(** The device: its record taken, its bus mastering off. *)
Definition kill_device (k : Kernel) (slot : nat) : Kernel :=
  let (t, bdf) := take_task_hw_bdf (k_tasks k) slot in
  let k := with_tasks k t in
  if bdf =? 65535 then k else with_bus_master k (filter (fun b => b <> bdf) (k_bus_master k)).

(** The slot, given back last. *)
Definition kill_finish (k : Kernel) (my slot : nat) : Kernel :=
  let s := k_sched k in
  let s := if (current_task_slot s my =? slot)%nat then s else upd_task s slot (set_state Dead) in
  with_tasks k (with_sched (k_tasks k) (upd_task s slot (set_valid false))).

Definition kill_task_by_slot (k : Kernel) (my slot : nat) (cause : Cause) : outcome Kernel :=
  match kill_claim k slot with
  | None => Done k
  | Some k =>
      let name := task_name (k_tasks k) slot in
      let endpoint := ep_from_u64 (d_endpoint (data_at (k_tasks k) slot)) in
      let k := with_routing k (clear_call_await (k_routing k) slot) in
      let k := release_console_foreground_if_owner k my (Z.of_nat slot) in
      let reply := ep_from_u64 (d_reply_endpoint (data_at (k_tasks k) slot)) in
      k ← kill_reply k my slot name reply;
      k ← kill_primary k my slot name endpoint reply;
      let k := kill_account k slot name in
      let k := kill_notify k my slot name cause in
      let k := kill_device k slot in
      Done (kill_finish k my slot)
  end.

(** [while let Some(slot) = find_task_by_name(name)] ([None]: out of fuel). *)
Fixpoint kill_by_name_loop (fuel : nat) (k : Kernel) (my : nat) (name : list Z) (cause : Cause) (found : bool)
    : option (outcome (Kernel * bool)) :=
  match fuel with
  | O => None
  | S fuel =>
      match find_task_by_name (k_tasks k) name with
      | None => Some (Done (k, found))
      | Some slot =>
          match kill_task_by_slot k my slot cause with
          | Done k => kill_by_name_loop fuel k my name cause true
          | Panic => Some Panic
          end
      end
  end.

Definition kill_by_name (k : Kernel) (my : nat) (name : list Z) (cause : Cause) : option (outcome (Kernel * bool)) :=
  kill_by_name_loop (S MAX_TASKS) k my name cause false.

(** A task faults: it is killed, and its core yields. *)
Definition kill_current (k : Kernel) (my : nat) (kind addr : Z) : outcome (Kernel * switch) :=
  let slot := current_task_slot (k_sched k) my in
  k ← (if (slot <? MAX_TASKS)%nat then kill_task_by_slot k my slot (Fault kind addr) else Done k);
  let (s, sw) := yield_current (k_sched k) my (k_respawn k) in
  Done (with_tasks k (with_sched (k_tasks k) s), sw).

(** ** What the supervisor reads *)

Definition NAME_BYTES : nat := 128.

(** [handle_message]: the name up to the first NUL, and the rest. *)
Definition split_notice (p : list Z) : list Z * list Z :=
  match position (fun b => b =? 0) p with
  | Some z => (take z p, drop (S z) p)
  | None => (p, [])
  end.

(** The fields of [Death] that [note_death] takes from the notice. *)
Record Death := mkDeath {
  how : Z;
  fault_kind : Z;
  addr : Z;
  by_name : list Z
}.

Definition note_death_how (h : list Z) : Death :=
  match h with
  | b :: rest =>
      if b =? KILLED then mkDeath KILLED 0 0 (take NAME_BYTES rest)
      else if (b =? FAULT) && (10 <=? length h)%nat
      then mkDeath FAULT (default 0 (h !! 1%nat)) (from_le_bytes (take 8 (drop 2 h))) []
      else if (b =? EXITED) && (5 <=? length h)%nat
      then mkDeath EXITED 0 (from_le_bytes (take 4 (drop 1 h))) []
      else mkDeath 0 0 0 []
  | [] => mkDeath 0 0 0 []
  end.

(** ** Ownership *)

Definition alive (s : Sched) (slot : nat) : bool :=
  (slot <? MAX_TASKS)%nat && t_valid (task_at s slot) && negb (bool_decide (t_state (task_at s slot) = Dead)).

(** The endpoint ids a live task holds. *)
Definition endpoints_of (k : Tasks) (slot : nat) : list Z :=
  if alive (sched k) slot
  then filter (fun e => e <> 0) [d_reply_endpoint (data_at k slot); d_endpoint (data_at k slot)] else [].

Definition endpoints (k : Tasks) : list Z := mjoin (endpoints_of k <$> seq 0 MAX_TASKS).

Record base_wf (k : Kernel) : Prop := mk_base_wf {
  bw_tasks : tasks_wf (k_tasks k);
  bw_routing : routing_wf (k_routing k);
  bw_delegated : delegated_wf (k_delegated k);
  bw_names : names_wf (k_names k);
  bw_irq : irq_wf (k_irq k)
}.

(** A slot nobody uses. *)
Definition vacant (k : Kernel) (j : nat) : Prop :=
  t_state (task_at (k_sched k) j) = Dead /\ d_reply_endpoint (data_at (k_tasks k) j) = 0.

Record kernel_wf (k : Kernel) : Prop := mk_kernel_wf {
  kw_base : base_wf k;
  kw_vacant : forall j, t_valid (task_at (k_sched k) j) = false -> vacant k j;
  (** the ids of live tasks are in use and pairwise distinct *)
  kw_ids : exists leaked, ids_wf (k_ids k) (endpoints (k_tasks k) ++ leaked);
  (** a name resolves to the endpoint of a live task of that name *)
  kw_owned : forall b e, lookup_name (k_names k) b = Some e ->
    exists slot, alive (k_sched k) slot = true /\ task_name (k_tasks k) slot = b /\
                 d_endpoint (data_at (k_tasks k) slot) = e /\ e <> 0
}.

(** The tasks parked on an endpoint. *)
Definition waiters_of (r : RoutingState) (ep : Z) : list nat :=
  match lookup_entry r ep with
  | Some e => option_list (blocked_receiver e) ++ option_list (blocked_sender e)
  | None => []
  end.

Module KernelFacts.
Import SchedFacts TaskDataFacts IrqFacts.

(** *** Waking *)

Definition woken (result : Z) (t : TaskSlot) : TaskSlot :=
  mkSlot Ready (t_valid t) (t_core t) result true (t_wake_deadline t) (t_run_ticks t).

Lemma wake_task_at (s : Sched) (my w j : nat) (r : Z) :
  length (tasks s) = MAX_TASKS ->
  task_at (wake_by_slot s my w r).1 j =
    if bool_decide (j = w) && alive s w then woken r (task_at s w) else task_at s j.
Proof.
  intros Hl. unfold wake_by_slot, alive.
  destruct (negb ((w <? MAX_TASKS)%nat && t_valid (task_at s w))) eqn:E1.
  - apply negb_true_iff in E1. rewrite E1. by rewrite andb_false_r.
  - apply negb_false_iff in E1. rewrite E1, andb_true_l.
    apply andb_true_iff in E1 as [Hw%Nat.ltb_lt _].
    case_bool_decide as Hd; cbn [negb]; [by rewrite andb_false_r|]. rewrite andb_true_r.
    assert (forall s', (forall i, task_at s' i = task_at (upd_task s w (woken r)) i) ->
      task_at s' j = if bool_decide (j = w) then woken r (task_at s w) else task_at s j) as H.
    { intros s' ->. rewrite task_at_upd, Hl.
      case_bool_decide as Hj; [subst; by rewrite decide_True by done|].
      rewrite decide_False; [done|intros [-> _]; done]. }
    apply H. intros i. by destruct (t_core (task_at s w) =? my)%nat.
Qed.

Lemma wake_length (s : Sched) (my w : nat) (r : Z) :
  length (tasks (wake_by_slot s my w r).1) = length (tasks s).
Proof. unfold wake_by_slot. repeat case_match; simpl; by rewrite ?length_alter. Qed.

Lemma wake_alive (s : Sched) (my w j : nat) (r : Z) :
  length (tasks s) = MAX_TASKS -> alive (wake_by_slot s my w r).1 j = alive s j.
Proof.
  intros Hl. unfold alive at 1. rewrite wake_task_at by done.
  destruct (bool_decide (j = w) && alive s w) eqn:E; [|done].
  apply andb_true_iff in E as [->%bool_decide_eq_true E]. rewrite E. unfold alive in E.
  apply andb_true_iff in E as [E _]. cbn [woken t_valid t_state]. by rewrite E.
Qed.

(** A round of wakes: every live waiter other than the dying task is ready
    with the result, and nothing else changes. *)
Lemma wake_fold (my slot : nat) (r : Z) (ws : list nat) (s : Sched) :
  length (tasks s) = MAX_TASKS ->
  let s' := foldl (wake_waiter my slot r) s ws in
  length (tasks s') = MAX_TASKS /\
  (forall j, alive s' j = alive s j) /\
  forall j, task_at s' j =
    if bool_decide (j ∈ ws) && negb (bool_decide (j = slot)) && alive s j then woken r (task_at s j)
    else task_at s j.
Proof.
  revert s. induction ws as [|w ws IH]; intros s Hl; cbn [foldl].
  { split_and!; [done..|]. intros j. rewrite bool_decide_eq_false_2; [done|]. apply not_elem_of_nil. }
  assert (length (tasks (wake_waiter my slot r s w)) = MAX_TASKS /\
    (forall j, alive (wake_waiter my slot r s w) j = alive s j) /\
    forall j, task_at (wake_waiter my slot r s w) j =
      if bool_decide (j = w) && negb (bool_decide (j = slot)) && alive s j then woken r (task_at s j)
      else task_at s j) as (Hl1 & Ha1 & Ht1).
  { unfold wake_waiter. destruct (Nat.eqb_spec w slot) as [->|Hne].
    - split_and!; [done..|]. intros j. case_bool_decide; [|done]. by rewrite andb_false_l.
    - split_and!; [by rewrite wake_length|intros; by apply wake_alive|].
      intros j. rewrite wake_task_at by done. case_bool_decide; [subst|done].
      rewrite bool_decide_eq_false_2 by done. done. }
  destruct (IH _ Hl1) as (Hl2 & Ha2 & Ht2). split_and!; [done|intros j; by rewrite Ha2|].
  intros j. rewrite Ht2, Ha1, Ht1.
  destruct (bool_decide (j = slot)) eqn:Es; cbn [negb]; [by rewrite !andb_false_r|]. rewrite !andb_true_r.
  destruct (alive s j); [rewrite !andb_true_r|by rewrite !andb_false_r].
  rewrite (bool_decide_ext _ _ (elem_of_cons ws j w)), bool_decide_or.
  destruct (bool_decide (j = w)), (bool_decide (j ∈ ws)); done.
Qed.

Lemma alive_lt (s : Sched) (slot : nat) : alive s slot = true -> (slot < MAX_TASKS)%nat.
Proof. unfold alive. by destruct (Nat.ltb_spec slot MAX_TASKS). Qed.

(** *** The stages of a kill

    Every stage between the claim and the release of the slot only takes
    authority away: nothing dead comes back, no owner, name or route appears,
    no other task's data changes. *)

Record decays (slot : nat) (W : nat -> Prop) (k k' : Kernel) : Prop := mk_decays {
  dk_wf : base_wf k';
  dk_alive : forall j, alive (k_sched k') j = alive (k_sched k) j;
  (** only tasks of [W] are woken, and only live ones *)
  dk_task : forall j, task_at (k_sched k') j = task_at (k_sched k) j \/
    (W j /\ alive (k_sched k) j = true /\
     exists r, r ∈ [-7; -12; 0] /\ task_at (k_sched k') j = woken r (task_at (k_sched k) j));
  dk_data : forall j, j <> slot -> data_at (k_tasks k') j = data_at (k_tasks k) j;
  dk_endpoint : d_endpoint (data_at (k_tasks k') slot) = d_endpoint (data_at (k_tasks k) slot);
  dk_rows : task_names (k_tasks k') = task_names (k_tasks k);
  dk_dead : forall e, target_alive (k_routing k) e = false -> target_alive (k_routing k') e = false;
  dk_await : forall j e, CALL_AWAIT_EP (k_routing k') !! j = Some e -> e <> 0 ->
    CALL_AWAIT_EP (k_routing k) !! j = Some e;
  dk_stale : forall c, 0 <= resource_id c -> stale (k_registry k) c -> stale (k_registry k') c;
  dk_behind : forall c, 0 <= resource_id c -> not_ahead (k_registry k) c -> not_ahead (k_registry k') c;
  dk_owner : forall id e, owner_of (k_delegated k') id = Some e -> owner_of (k_delegated k) id = Some e;
  dk_name : forall b e, lookup_name (k_names k') b = Some e -> lookup_name (k_names k) b = Some e;
  dk_irq : forall i e, registered_endpoint (k_irq k') i = Some e -> registered_endpoint (k_irq k) i = Some e
}.

Lemma decays_refl (slot : nat) (W : nat -> Prop) (k : Kernel) : base_wf k -> decays slot W k k.
Proof. split; auto. Qed.

Lemma decays_trans (slot : nat) (W : nat -> Prop) (k1 k2 k3 : Kernel) :
  decays slot W k1 k2 -> decays slot W k2 k3 -> decays slot W k1 k3.
Proof.
  intros H1 H2. split; [apply H2|..].
  - intros j. by rewrite (dk_alive _ _ _ _ H2), (dk_alive _ _ _ _ H1).
  - intros j. destruct (dk_task _ _ _ _ H2 j) as [->|(Hw & Ha & r & Hr & ->)]; [apply (dk_task _ _ _ _ H1)|].
    right. rewrite (dk_alive _ _ _ _ H1) in Ha. split_and!; [done..|]. exists r. split; [done|].
    by destruct (dk_task _ _ _ _ H1 j) as [->|(_ & _ & r' & _ & ->)].
  - intros j Hj. by rewrite (dk_data _ _ _ _ H2), (dk_data _ _ _ _ H1).
  - by rewrite (dk_endpoint _ _ _ _ H2), (dk_endpoint _ _ _ _ H1).
  - by rewrite (dk_rows _ _ _ _ H2), (dk_rows _ _ _ _ H1).
  - intros e He. by apply (dk_dead _ _ _ _ H2), (dk_dead _ _ _ _ H1).
  - intros j e He Hne. apply (dk_await _ _ _ _ H1); [|done]. by apply (dk_await _ _ _ _ H2).
  - intros c Hc Hs. apply (dk_stale _ _ _ _ H2); [done|]. by apply (dk_stale _ _ _ _ H1).
  - intros c Hc Hs. apply (dk_behind _ _ _ _ H2); [done|]. by apply (dk_behind _ _ _ _ H1).
  - intros id e He. by apply (dk_owner _ _ _ _ H1), (dk_owner _ _ _ _ H2).
  - intros b e He. by apply (dk_name _ _ _ _ H1), (dk_name _ _ _ _ H2).
  - intros i e He. by apply (dk_irq _ _ _ _ H1), (dk_irq _ _ _ _ H2).
Qed.

Lemma decays_weaken (slot : nat) (W W' : nat -> Prop) (k k' : Kernel) :
  (forall j, W j -> W' j) -> decays slot W k k' -> decays slot W' k k'.
Proof. intros HW []. split; try done. intros j. destruct (dk_task0 j) as [?|(? & ?)]; auto. Qed.

(** A change of the scheduler alone. *)
Lemma decays_sched (slot : nat) (W : nat -> Prop) (k : Kernel) (s : Sched) :
  base_wf k -> length (tasks s) = MAX_TASKS -> (forall j, alive s j = alive (k_sched k) j) ->
  (forall j, task_at s j = task_at (k_sched k) j \/
    (W j /\ alive (k_sched k) j = true /\ exists r, r ∈ [-7; -12; 0] /\ task_at s j = woken r (task_at (k_sched k) j))) ->
  decays slot W k (with_tasks k (with_sched (k_tasks k) s)).
Proof. intros [[]] Hl Ha Ht. split; done. Qed.

Lemma decays_wake (slot : nat) (k : Kernel) (my w : nat) (r : Z) :
  r ∈ [-7; -12; 0] -> base_wf k -> decays slot (fun j => j = w) k (k_wake k my w r).
Proof.
  intros Hr H. pose proof (tw_sched _ (bw_tasks _ H)). apply decays_sched; [done|by rewrite wake_length|..].
  - intros j. by apply wake_alive.
  - intros j. rewrite wake_task_at by done. case_bool_decide as Hj; [subst j|by left].
    destruct (alive (k_sched k) w) eqn:Ha; [right|by left]. eauto 10.
Qed.

Lemma decays_wake_all (slot : nat) (k : Kernel) (my : nat) (r : Z) (ws : list nat) :
  r ∈ [-7; -12; 0] -> base_wf k -> decays slot (fun j => j ∈ ws) k (wake_all k my slot r ws).
Proof.
  intros Hr H.
  destruct (wake_fold my slot r ws (k_sched k)) as (? & ? & Ht); [apply (tw_sched _ (bw_tasks _ H))|].
  apply decays_sched; [done..|]. intros j. rewrite Ht.
  case_bool_decide as Hj; [|by left]. destruct (bool_decide (j = slot)); [by left|].
  destruct (alive (k_sched k) j) eqn:Ha; [right|by left]. eauto 10.
Qed.

(** A stage that leaves most of the state alone. *)
Ltac decay := split; try done; try (intros; by left).

(** A change of the routing table that revives nothing. *)
Lemma decays_routing (slot : nat) (W : nat -> Prop) (k : Kernel) (r : RoutingState) :
  base_wf k -> routing_wf r ->
  (forall e, target_alive (k_routing k) e = false -> target_alive r e = false) ->
  (forall j e, CALL_AWAIT_EP r !! j = Some e -> e <> 0 -> CALL_AWAIT_EP (k_routing k) !! j = Some e) ->
  decays slot W k (with_routing k r).
Proof. intros [] Hr H1 H2. by decay. Qed.

(** A change of the dying task's own data. *)
Lemma decays_data (slot : nat) (W : nat -> Prop) (k : Kernel) (f : TaskData -> TaskData) :
  base_wf k -> (forall d, d_endpoint (f d) = d_endpoint d) ->
  decays slot W k (with_tasks k (upd_data (k_tasks k) slot f)).
Proof.
  intros [Ht ?] Hf. destruct Ht as [Hs Hd Hn Hp]. decay.
  - split; try done. split; try done. simpl. by rewrite length_alter.
  - intros j Hj. unfold data_at. simpl. by rewrite list_lookup_alter_ne by done.
  - unfold data_at. simpl. rewrite list_lookup_alter_eq.
    destruct (data (k_tasks k) !! slot); [apply Hf|done].
Qed.

Lemma decays_ids (slot : nat) (W : nat -> Prop) (k : Kernel) (x : EndpointIds) : base_wf k -> decays slot W k (with_ids k x).
Proof. intros []. by decay. Qed.

(** The death of a resource. *)
Lemma mark_dead_facts (R R' : GRT) (id : Z) :
  reg_wf R -> 0 <= id -> mark_dead_resource R id = Done R' ->
  reg_wf R' /\
  (forall c, 0 <= resource_id c -> stale R c -> stale R' c) /\
  (forall c, 0 <= resource_id c -> not_ahead R c -> not_ahead R' c) /\
  (forall c, resource_id c = id -> not_ahead R c -> stale R' c).
Proof.
  intros Hwf Hid Hm. assert (rtc reg_step R R') as Hs.
  { apply rtc_once. by eapply reg_step_bump. }
  split_and!.
  - by apply (reg_bump_get R R' id CapTable.Dead Hwf Hid Hm).
  - intros c Hc. by eapply stale_stable.
  - intros c Hc. by eapply not_ahead_stable.
  - intros c <- Hc. by eapply (bump_makes_stale R R' c CapTable.Dead).
Qed.

Lemma decays_registry (slot : nat) (W : nat -> Prop) (k : Kernel) (R : GRT) (id : Z) :
  base_wf k -> 0 <= id -> mark_dead_resource (k_registry k) id = Done R -> decays slot W k (with_registry k R).
Proof.
  intros [? ? [Hr Hb] ? ?] Hid Hm. destruct (mark_dead_facts _ _ _ Hr Hid Hm) as (? & ? & ? & _).
  by decay.
Qed.

(** The reclaim of a dead owner's resources. *)
Lemma release_delegated_spec (slot : nat) (W : nat -> Prop) (k k' : Kernel) (ep : Z) :
  base_wf k -> release_delegated k ep = Done k' ->
  decays slot W k k' /\ (forall id, owner_of (k_delegated k') id <> Some ep) /\
  (forall c, 0 <= resource_id c -> owner_of (k_delegated k) (resource_id c) = Some ep ->
     not_ahead (k_registry k) c -> stale (k_registry k') c) /\
  k_tasks k' = k_tasks k /\ k_routing k' = k_routing k /\ k_names k' = k_names k /\ k_irq k' = k_irq k /\
  k_ids k' = k_ids k.
Proof.
  intros [Ht Hrt Hd Hn Hi] H. unfold release_delegated, release_owner in H.
  assert (owned (k_delegated k) ep < S DELEGATED_CAP)%nat as Hf.
  { unfold owned. pose proof (count_le_length (fun o => bool_decide (o = Some ep)) (Band.owner (band (k_delegated k)))).
    destruct Hd as [_ [Hlen _]]. lia. }
  pose proof (release_owner_loop_spec (S DELEGATED_CAP) (k_delegated k) ep 0 Hd Hf) as Hs.
  destruct (release_owner_loop (S DELEGATED_CAP) (k_delegated k) ep 0) as [[[d n]|]|]; [|done..].
  destruct Hs as [(Hwf & Hown & Hget) _]. injection H as <-.
  assert (forall c, 0 <= resource_id c -> forall r, reg_get (k_registry k) (resource_id c) = Some r ->
    exists r', reg_get (registry d) (resource_id c) = Some r' /\ rec_generation r <= rec_generation r' /\
      (owner_of (k_delegated k) (resource_id c) = Some ep -> rec_generation r < rec_generation r')) as Hmono.
  { intros c Hc r Hr. rewrite Hget by done. unfold k_registry in Hr. rewrite Hr.
    case_decide; [|naive_solver lia]. eexists; split; [done|]. simpl. lia. }
  split_and!; try done; cbn [k_delegated with_delegated k_registry].
  - decay; cbn [k_delegated with_delegated k_registry].
    + intros c Hc (r & Hr & Hlt). destruct (Hmono c Hc r Hr) as (r' & ? & ? & _). exists r'. split; [done|lia].
    + intros c Hc (r & Hr & Hlt). destruct (Hmono c Hc r Hr) as (r' & ? & ? & _). exists r'. split; [done|lia].
    + intros id e. rewrite Hown. by case_decide.
  - intros id. rewrite Hown. by case_decide.
  - intros c Hc Ho (r & Hr & Hle). destruct (Hmono c Hc r Hr) as (r' & ? & _ & Hlt).
    exists r'. split; [done|]. specialize (Hlt Ho). lia.
Qed.

Lemma kill_endpoint_waiters (r r' : RoutingState) (ep : Z) rx tx :
  routing_wf r -> kill_endpoint r ep = Done (r', (rx, tx)) ->
  routing_wf r' /\ CALL_AWAIT_EP r' = CALL_AWAIT_EP r /\ target_alive r' ep = false /\
  (forall e, e <> ep -> lookup_entry r' e = lookup_entry r e) /\
  option_list rx ++ option_list tx = waiters_of r ep.
Proof.
  intros Hwf Hk. pose proof (kill_endpoint_spec r ep Hwf) as H. rewrite Hk in H.
  destruct H as (? & ? & ? & ? & Hs). split_and!; [done..|]. unfold waiters_of.
  destruct (lookup_entry r ep) as [e|] eqn:El; [by destruct (Hs e eq_refl) as [[= -> ->] _]|].
  rewrite kill_endpoint_missing in Hk by done. by simplify_eq.
Qed.

Lemma dead_mono (r r' : RoutingState) (ep : Z) :
  target_alive r' ep = false -> (forall e, e <> ep -> lookup_entry r' e = lookup_entry r e) ->
  forall e, target_alive r e = false -> target_alive r' e = false.
Proof.
  intros Hd Ho e He. destruct (decide (e = ep)) as [->|Hne]; [done|].
  unfold target_alive in *. by rewrite Ho.
Qed.

(** The death of the reply mailbox. *)
Record reply_killed (slot : nat) (k k' : Kernel) (reply : option Z) : Prop := mk_reply_killed {
  rk_decays : decays slot (fun j => exists rep, reply = Some rep /\ j ∈ waiters_of (k_routing k) rep) k k';
  rk_dead : forall rep, reply = Some rep -> target_alive (k_routing k') rep = false;
  rk_stale : forall rep c, reply = Some rep -> resource_id c = rep ->
    not_ahead (k_registry k) c -> stale (k_registry k') c;
  rk_woken : forall rep j, reply = Some rep -> j ∈ waiters_of (k_routing k) rep -> j <> slot ->
    alive (k_sched k) j = true -> exists r, r ∈ [-7; -12; 0] /\ task_at (k_sched k') j = woken r (task_at (k_sched k) j);
  rk_entries : forall e, reply <> Some e -> lookup_entry (k_routing k') e = lookup_entry (k_routing k) e;
  rk_await : CALL_AWAIT_EP (k_routing k') = CALL_AWAIT_EP (k_routing k);
  rk_owner : forall id, owner_of (k_delegated k') id = owner_of (k_delegated k) id;
  rk_names : k_names k' = k_names k;
  rk_reply : (slot < MAX_TASKS)%nat -> reply = ep_from_u64 (d_reply_endpoint (data_at (k_tasks k) slot)) ->
    d_reply_endpoint (data_at (k_tasks k') slot) = 0;
  rk_ids : k_ids k' = match reply with Some rep => free_endpoint_id (k_ids k) rep | None => k_ids k end
}.

Lemma kill_reply_spec (k k' : Kernel) (my slot : nat) (name : list Z) (reply : option Z) :
  base_wf k -> (forall rep, reply = Some rep -> 0 <= rep) -> kill_reply k my slot name reply = Done k' ->
  reply_killed slot k k' reply.
Proof.
  intros Hwf Hpos H. destruct reply as [rep|]; cbn [kill_reply] in H.
  2:{ injection H as <-. split; try done.
      - by apply decays_refl.
      - intros Hs. unfold ep_from_u64. destruct (d_reply_endpoint (data_at (k_tasks k) slot) =? 0) eqn:E; [|done].
        by apply Z.eqb_eq in E. }
  apply bind_Done in H as ([r [rx tx]] & Hk & H). cbv zeta in H. apply bind_Done in H as (R & HR & H).
  injection H as H.
  destruct (kill_endpoint_waiters _ _ _ _ _ (bw_routing _ Hwf) Hk) as (Hr & Haw & Hd & Ho & Hw).
  rewrite Hw in *. specialize (Hpos rep eq_refl).
  set (W := fun j => exists rep', Some rep = Some rep' /\ j ∈ waiters_of (k_routing k) rep').
  assert (decays slot W k (with_routing k r)) as D1.
  { apply decays_routing; [done..|by eapply dead_mono|]. intros j e. by rewrite Haw. }
  set (k1 := with_routing k r) in *.
  assert (decays slot W k1 (wake_all k1 my slot (-7) (waiters_of (k_routing k) rep))) as D2.
  { eapply decays_weaken; [|apply decays_wake_all; [set_solver|apply D1]]. unfold W. eauto. }
  set (k2 := wake_all k1 my slot (-7) (waiters_of (k_routing k) rep)) in *.
  pose proof (decays_registry slot W k2 R rep (dk_wf _ _ _ _ D2) Hpos HR) as D3.
  set (k3 := with_registry k2 R) in *.
  pose proof (decays_data slot W k3 (fun d => set_endpoints (d_endpoint d) 0 d) (dk_wf _ _ _ _ D3)
    (fun d => eq_refl)) as D4.
  set (k4 := with_tasks k3 _) in *.
  assert (exists r', k' = with_ids (with_routing k4 r') (free_endpoint_id (k_ids k) rep) /\
    TABLE r' = TABLE r /\ CALL_AWAIT_EP r' = CALL_AWAIT_EP r) as (r' & -> & Htab & Haw').
  { destruct (counted k4 slot name); subst k'; [by eexists|exists r; split; [|done]]. done. }
  assert (routing_wf r') as Hr'.
  { destruct Hr. split; rewrite ?Htab, ?Haw'; done. }
  assert (forall e, lookup_entry r' e = lookup_entry r e) as Hlk by (intros; unfold lookup_entry; by rewrite Htab).
  assert (decays slot W k4 (with_routing k4 r')) as D5.
  { apply decays_routing; [apply D4|done|..].
    - intros e. unfold target_alive. by rewrite Hlk.
    - intros j e. by rewrite Haw'. }
  pose proof (decays_ids slot W _ (free_endpoint_id (k_ids k) rep) (dk_wf _ _ _ _ D5)) as D6.
  split; try done.
  - eapply decays_trans; [|exact D6]. do 4 (eapply decays_trans; [|eassumption]). exact D1.
  - intros rep' [= <-]. cbn. unfold target_alive. rewrite Hlk. exact Hd.
  - intros rep' c [= <-] Hc Hn.
    apply (proj2 (proj2 (proj2 (mark_dead_facts _ _ rep (proj1 (bw_delegated _ (dk_wf _ _ _ _ D2))) Hpos HR)))
      c Hc Hn).
  - intros rep' j [= <-] Hj Hne Ha.
    destruct (wake_fold my slot (-7) (waiters_of (k_routing k) rep) (k_sched k)) as (_ & _ & Ht);
      [apply (tw_sched _ (bw_tasks _ Hwf))|].
    exists (-7). split; [set_solver|]. etransitivity; [apply Ht|].
    rewrite (bool_decide_eq_true_2 _ Hj), (bool_decide_eq_false_2 _ Hne), Ha. done.
  - intros e He. cbn. rewrite Hlk. apply Ho. congruence.
  - cbn. congruence.
  - intros Hs _. unfold data_at. cbn. rewrite list_lookup_alter_eq.
    pose proof (tw_data _ (bw_tasks _ Hwf)) as Hl.
    destruct (data (k_tasks k) !! slot) as [d|] eqn:E; [done|]. apply lookup_ge_None in E. lia.
Qed.

Lemma decays_names (slot : nat) (W : nat -> Prop) (k : Kernel) (name : list Z) (ep : Z) :
  base_wf k -> decays slot W k (with_names k (unregister_endpoint (k_names k) name ep).1) /\
  lookup_name (unregister_endpoint (k_names k) name ep).1 name <> Some ep.
Proof.
  intros [Ht Hr Hd Hn Hi]. pose proof (unregister_endpoint_cases (k_names k) name ep Hn) as H.
  destruct (lookup_name (k_names k) name) as [x|] eqn:El.
  - destruct (Z.eqb_spec x ep) as [->|Hne].
    + destruct H as (n' & -> & Hn' & Hm). cbn [fst]. split.
      * decay. intros b e. cbn [k_names with_names]. rewrite !lookup_name_spec by done. by intros [_ ?]%Hm.
      * rewrite lookup_name_spec by done. by intros [? _]%Hm.
    + rewrite H. cbn [fst]. split; [by decay|]. rewrite El. congruence.
  - rewrite H. cbn [fst]. split; [by decay|]. by rewrite El.
Qed.

Lemma decays_irq (slot : nat) (W : nat -> Prop) (k : Kernel) (ep : Z) :
  base_wf k -> decays slot W k (with_irq k (unregister_irqs (k_irq k) ep).1) /\
  forall i, registered_endpoint (unregister_irqs (k_irq k) ep).1 i <> Some ep.
Proof.
  intros [Ht Hr Hd Hn Hi]. destruct (unregister_irqs_routes (k_irq k) ep Hi) as [Hw He]. split.
  - decay. intros i e. cbn [k_irq with_irq]. rewrite He. by case_decide.
  - intros i. rewrite He. by case_decide.
Qed.

Record primary_killed (slot : nat) (k k' : Kernel) (name : list Z) (ep : Z) (reply : option Z) : Prop :=
  mk_primary_killed {
  pk_decays : decays slot (fun j => j ∈ waiters_of (k_routing k) ep \/ CALL_AWAIT_EP (k_routing k) !! j = Some ep) k k';
  pk_dead : target_alive (k_routing k') ep = false;
  pk_stale : forall c, 0 <= resource_id c ->
    resource_id c = ep \/ owner_of (k_delegated k) (resource_id c) = Some ep ->
    not_ahead (k_registry k) c -> stale (k_registry k') c;
  pk_woken : forall j, j ∈ waiters_of (k_routing k) ep -> j <> slot -> alive (k_sched k) j = true ->
    exists r, r ∈ [-7; -12; 0] /\ task_at (k_sched k') j = woken r (task_at (k_sched k) j);
  pk_callers : forall j, CALL_AWAIT_EP (k_routing k) !! j = Some ep -> j <> slot -> alive (k_sched k) j = true ->
    task_at (k_sched k') j = woken (-12) (task_at (k_sched k) j);
  pk_entries : forall e, e <> ep -> lookup_entry (k_routing k') e = lookup_entry (k_routing k) e;
  pk_await : forall j, CALL_AWAIT_EP (k_routing k') !! j =
    (fun a => if decide (a = ep) then 0 else a) <$> CALL_AWAIT_EP (k_routing k) !! j;
  pk_owner : forall id, owner_of (k_delegated k') id <> Some ep;
  pk_name : lookup_name (k_names k') name <> Some ep;
  pk_irq : forall i, registered_endpoint (k_irq k') i <> Some ep /\
    forall rep, reply = Some rep -> registered_endpoint (k_irq k') i <> Some rep;
  pk_data : data (k_tasks k') = data (k_tasks k);
  pk_ids : k_ids k' = free_endpoint_id (k_ids k) ep
}.

Lemma kill_and_drain_waiters (r r' : RoutingState) (ep : Z) rx tx callers :
  routing_wf r -> ep <> 0 -> kill_and_drain r ep = Done (r', (rx, tx), callers) ->
  routing_wf r' /\ target_alive r' ep = false /\
  (forall e, e <> ep -> lookup_entry r' e = lookup_entry r e) /\
  option_list rx ++ option_list tx = waiters_of r ep /\
  (forall j, j ∈ callers <-> CALL_AWAIT_EP r !! j = Some ep) /\
  (forall j, CALL_AWAIT_EP r' !! j = (fun a => if decide (a = ep) then 0 else a) <$> CALL_AWAIT_EP r !! j).
Proof.
  intros Hwf Hep Hk. pose proof (kill_and_drain_wf r ep Hwf Hep) as H. rewrite Hk in H.
  destruct H as (? & _ & ? & _ & ? & ? & ? & Hs). split_and!; try done.
  unfold kill_and_drain in Hk. apply bind_Done in Hk as ([s1 rxtx] & Hk & Hd).
  destruct (drain_call_waiters (S MAX_TASKS) s1 ep) as [[s2 sl]|]; [|done]. injection Hd as -> -> ->.
  by destruct (kill_endpoint_waiters _ _ _ _ _ Hwf Hk) as (_ & _ & _ & _ & ?).
Qed.

(** The endpoint's death, up to the wakes. *)
Lemma primary_front (k : Kernel) (my slot : nat) (ep : Z) r rx tx callers :
  base_wf k -> ep <> 0 -> kill_and_drain (k_routing k) ep = Done (r, (rx, tx), callers) ->
  let k' := wake_all (wake_all (with_routing k r) my slot (-7) (option_list rx ++ option_list tx))
              my slot (-12) callers in
  decays slot (fun j => j ∈ waiters_of (k_routing k) ep \/ CALL_AWAIT_EP (k_routing k) !! j = Some ep) k k' /\
  (forall j, j ∈ waiters_of (k_routing k) ep -> j <> slot -> alive (k_sched k) j = true ->
    exists r, r ∈ [-7; -12; 0] /\ task_at (k_sched k') j = woken r (task_at (k_sched k) j)) /\
  (forall j, CALL_AWAIT_EP (k_routing k) !! j = Some ep -> j <> slot -> alive (k_sched k) j = true ->
    task_at (k_sched k') j = woken (-12) (task_at (k_sched k) j)).
Proof.
  intros Hwf Hep Hk.
  destruct (kill_and_drain_waiters _ _ _ _ _ _ (bw_routing _ Hwf) Hep Hk) as (Hr & Hd & Ho & -> & Hc & Haw).
  set (W := fun j => j ∈ waiters_of (k_routing k) ep \/ CALL_AWAIT_EP (k_routing k) !! j = Some ep).
  set (ws := waiters_of (k_routing k) ep) in *. set (k1 := with_routing k r). set (k2 := wake_all k1 my slot (-7) ws).
  assert (decays slot W k k1) as D1.
  { apply decays_routing; [done..|by eapply dead_mono|]. intros j e. rewrite Haw.
    destruct (CALL_AWAIT_EP (k_routing k) !! j); [|done]. simpl. case_decide; [intros [= <-]; done|done]. }
  assert (decays slot W k1 k2) as D2.
  { eapply decays_weaken; [|apply decays_wake_all; [set_solver|apply D1]]. unfold W. auto. }
  assert (decays slot W k2 (wake_all k2 my slot (-12) callers)) as D3.
  { eapply decays_weaken; [|apply decays_wake_all; [set_solver|apply D2]]. unfold W. intros j. rewrite Hc. auto. }
  pose proof (wake_fold my slot (-7) ws (k_sched k) (tw_sched _ (bw_tasks _ Hwf))) as (_ & Ha2 & Ht2).
  pose proof (wake_fold my slot (-12) callers (k_sched k2) (tw_sched _ (bw_tasks _ (dk_wf _ _ _ _ D2)))) as (_ & _ & Ht3).
  assert (forall j, j <> slot -> alive (k_sched k) j = true -> exists r0, task_at (k_sched k2) j = r0 /\
    (r0 = task_at (k_sched k) j \/ r0 = woken (-7) (task_at (k_sched k) j)) /\
    (j ∈ ws -> r0 = woken (-7) (task_at (k_sched k) j))) as Hk2.
  { intros j Hne Ha. eexists; split; [apply Ht2|]. rewrite Ha, andb_true_r, (bool_decide_eq_false_2 _ Hne).
    case_bool_decide; simpl; split; auto; done. }
  assert (forall j, alive (k_sched k2) j = alive (k_sched k) j) as Hal by exact Ha2.
  split_and!.
  - eapply decays_trans; [exact D1|]. eapply decays_trans; [exact D2|exact D3].
  - intros j Hj Hne Ha. destruct (Hk2 j Hne Ha) as (r0 & Er & _ & Hr0). specialize (Hr0 Hj).
    eexists (if bool_decide (j ∈ callers) then -12 else -7). split; [case_bool_decide; set_solver|].
    etransitivity; [apply Ht3|]. rewrite Hal, Ha, andb_true_r, (bool_decide_eq_false_2 _ Hne), Er, Hr0.
    by case_bool_decide.
  - intros j Hj Hne Ha. destruct (Hk2 j Hne Ha) as (r0 & Er & Hr0 & _).
    etransitivity; [apply Ht3|]. rewrite Hal, Ha, (bool_decide_eq_true_2 _ (proj2 (Hc j) Hj)),
      (bool_decide_eq_false_2 _ Hne), Er. by destruct Hr0 as [-> | ->].
Qed.

Lemma kill_primary_spec (k k' : Kernel) (my slot : nat) (name : list Z) (ep : Z) (reply : option Z) :
  base_wf k -> 0 < ep -> kill_primary k my slot name (Some ep) reply = Done k' ->
  primary_killed slot k k' name ep reply.
Proof.
  intros Hwf Hep H. assert (ep <> 0) as Hnz by lia. cbn [kill_primary] in H.
  apply bind_Done in H as ([[r [rx tx]] callers] & Hk & H). cbv zeta in H.
  destruct (primary_front k my slot ep r rx tx callers Hwf Hnz Hk) as (D1 & Hw & Hcw).
  destruct (kill_and_drain_waiters _ _ _ _ _ _ (bw_routing _ Hwf) Hnz Hk) as (_ & Hd & Ho & _ & _ & Haw).
  set (W := fun j => j ∈ waiters_of (k_routing k) ep \/ CALL_AWAIT_EP (k_routing k) !! j = Some ep) in *.
  set (k1 := wake_all _ my slot (-12) callers) in *.
  apply bind_Done in H as (R & HR & H). apply bind_Done in H as (k3 & Hrel & H). injection H as H.
  pose proof (decays_registry slot W k1 R ep (dk_wf _ _ _ _ D1) ltac:(lia) HR) as D2.
  pose proof (mark_dead_facts _ _ ep (proj1 (bw_delegated _ (dk_wf _ _ _ _ D1))) ltac:(lia) HR) as (_ & _ & Hna & Hst).
  set (k2 := with_registry k1 R) in *.
  destruct (release_delegated_spec slot W k2 k3 ep (dk_wf _ _ _ _ D2) Hrel) as (D3 & Hown & Hdst & E1 & E2 & E3 & E4 & E5).
  destruct (decays_names slot W k3 name ep (dk_wf _ _ _ _ D3)) as [D4 Hname].
  set (k4 := with_names k3 _) in *.
  destruct (decays_irq slot W k4 ep (dk_wf _ _ _ _ D4)) as [D5 Hirq].
  set (k5 := with_irq k4 _) in *.
  assert (exists i6, decays slot W k5 (with_irq k5 i6) /\
    k' = with_ids (with_irq k5 i6) (free_endpoint_id (k_ids k3) ep) /\
    forall i rep, reply = Some rep -> registered_endpoint i6 i <> Some rep) as (i6 & D6 & -> & Hirq6).
  { destruct reply as [rep|]; [|exists (k_irq k5); split; [apply decays_refl, D5|done]].
    destruct (decays_irq slot W k5 rep (dk_wf _ _ _ _ D5)) as [D6 Hr]. eexists; split; [exact D6|].
    split; [by symmetry|]. intros i rep' [= <-]. apply Hr. }
  pose proof (decays_ids slot W _ (free_endpoint_id (k_ids k3) ep) (dk_wf _ _ _ _ D6)) as D7.
  split; try done.
  - eapply decays_trans; [|exact D7]. do 5 (eapply decays_trans; [|eassumption]). exact D1.
  - cbn. rewrite E2. exact Hd.
  - intros c Hc [He|He] Hn.
    + apply (dk_stale _ _ _ _ D3 c Hc), (Hst c He). exact Hn.
    + apply (Hdst c Hc He). by apply Hna.
  - intros j Hj Hne Ha. destruct (Hw j Hj Hne Ha) as (r0 & ? & Ht). exists r0. split; [done|].
    unfold k_sched at 1. cbn. rewrite E1. exact Ht.
  - intros j Hj Hne Ha. unfold k_sched at 1. cbn. rewrite E1. by apply Hcw.
  - intros e He. cbn. rewrite E2. by apply Ho.
  - intros j. cbn. rewrite E2. apply Haw.
  - intros i. split; [|intros rep Hrep; by apply Hirq6]. intros Hi. by apply (Hirq i), (dk_irq _ _ _ _ D6).
  - cbn. by rewrite E1.
  - cbn. by rewrite E5.
Qed.

(** *** After the endpoints *)

Lemma interrupt_woke (r r' : RoutingState) (ep : Z) (m : Message) (j : nat) :
  routing_wf r -> enqueue_from_interrupt r ep m = (r', Woke j) ->
  exists e, lookup_entry r ep = Some e /\ liveness e = EpAlive /\ blocked_receiver e = Some j.
Proof.
  intros Hwf H. unfold enqueue_from_interrupt in H.
  destruct (find_index (TABLE r) ep) as [i|] eqn:Hf; [|done].
  destruct (find_index_Some r ep i Hf) as (e & He & _ & _ & Hl). rewrite He in H.
  destruct (is_dead e) eqn:Hd; [done|]. apply is_dead_false in Hd. exists e. split_and!; [done..|].
  pose proof (lookup_entry_wf _ _ _ Hwf Hl) as Hewf.
  destruct (room_or_full e Hewf) as [Hr|Hfull].
  - destruct (deliver_room e m Hewf Hd Hr) as (e' & Hdl & _). rewrite Hdl in H.
    destruct (blocked_receiver e); by simplify_eq.
  - rewrite deliver_full in H by done. done.
Qed.

(** The supervisor, parked on its endpoint. *)
Definition notified (k : Kernel) (j : nat) : Prop :=
  exists sup e, lookup_name (k_names k) SUPERVISOR = Some sup /\ lookup_entry (k_routing k) sup = Some e /\
    liveness e = EpAlive /\ blocked_receiver e = Some j.

Lemma decays_account (slot : nat) (W : nat -> Prop) (k : Kernel) (name : list Z) :
  base_wf k -> decays slot W k (kill_account k slot name) /\ k_ids (kill_account k slot name) = k_ids k /\
  k_names (kill_account k slot name) = k_names k /\ k_routing (kill_account k slot name) = k_routing k /\
  data (k_tasks (kill_account k slot name)) = data (k_tasks k).
Proof.
  intros Hwf. unfold kill_account, reclaim_on_death.
  set (k1 := if counted k slot name then _ else k).
  assert (base_wf k1 /\ decays slot W k k1) as [Hwf1 D].
  { subst k1. destruct (counted k slot name); [|split; [done|by apply decays_refl]].
    destruct Hwf as [[] ? ? ? ?]. split; [by split|by decay]. }
  assert (k_ids k1 = k_ids k /\ k_names k1 = k_names k /\ k_routing k1 = k_routing k /\
    data (k_tasks k1) = data (k_tasks k)) by (subst k1; by destruct (counted k slot name)).
  clearbody k1. destruct (_ =? FRAMEBUFFER); [|done]. destruct (k_screen k1) as [[] ?]; cbn [fst]; [|done].
  split; [|done]. eapply decays_trans; [exact D|]. destruct Hwf1. by decay.
Qed.

Lemma decays_notices (slot : nat) (W : nat -> Prop) (k : Kernel) b x y : base_wf k -> decays slot W k (with_notices k b x y).
Proof. intros []. by decay. Qed.

Lemma decays_notify (slot : nat) (k : Kernel) (my : nat) (name : list Z) (cause : Cause) :
  base_wf k -> decays slot (notified k) k (kill_notify k my slot name cause) /\
  k_ids (kill_notify k my slot name cause) = k_ids k /\
  CALL_AWAIT_EP (k_routing (kill_notify k my slot name cause)) = CALL_AWAIT_EP (k_routing k) /\
  data (k_tasks (kill_notify k my slot name cause)) = data (k_tasks k).
Proof.
  intros Hwf. unfold kill_notify.
  set (k1 := if task_watched (k_tasks k) slot then _ else k).
  assert (decays slot (notified k) k k1 /\ k_ids k1 = k_ids k /\
    CALL_AWAIT_EP (k_routing k1) = CALL_AWAIT_EP (k_routing k) /\ data (k_tasks k1) = data (k_tasks k))
    as (D1 & E1 & E2 & E3).
  { subst k1. destruct (task_watched _ _); [|split_and!; try done; by apply decays_refl].
    destruct (lookup_name (k_names k) SUPERVISOR) as [sup|] eqn:Esup; [|split_and!; try done; by apply decays_refl].
    destruct (Message.new _) as [m|]; [|split_and!; try done; by apply decays_refl].
    pose proof (enqueue_from_interrupt_alive_update (k_routing k) sup m (bw_routing _ Hwf)) as Hu.
    destruct (alive_update_facts _ _ (bw_routing _ Hwf) Hu) as (Hr & Haw & Hta).
    destruct (enqueue_from_interrupt (k_routing k) sup m) as [r o] eqn:Eq. cbn [fst] in *.
    assert (decays slot (notified k) k (with_routing k r)) as D.
    { apply decays_routing; [done..| |].
      - intros e. by rewrite Hta.
      - intros j e. by rewrite Haw. }
    destruct o as [j| | |]; (split; [|done]); try done.
    - eapply decays_trans; [exact D|]. eapply decays_weaken; [|apply decays_wake; [set_solver|apply D]].
      intros ? ->. destruct (interrupt_woke _ _ _ _ _ (bw_routing _ Hwf) Eq) as (e & ? & ? & ?).
      exists sup, e. done.
    - eapply decays_trans; [exact D|apply decays_notices, D].
    - eapply decays_trans; [exact D|apply decays_notices, D]. }
  clearbody k1. case_bool_decide; [|done]. split_and!; try done.
  eapply decays_trans; [exact D1|apply decays_notices, D1].
Qed.

Lemma decays_device (slot : nat) (W : nat -> Prop) (k : Kernel) :
  base_wf k -> decays slot W k (kill_device k slot) /\ k_ids (kill_device k slot) = k_ids k /\
  k_routing (kill_device k slot) = k_routing k /\
  d_reply_endpoint (data_at (k_tasks (kill_device k slot)) slot) = d_reply_endpoint (data_at (k_tasks k) slot).
Proof.
  intros Hwf. unfold kill_device, take_task_hw_bdf.
  destruct (slot <? MAX_TASKS)%nat.
  - pose proof (decays_data slot W k (fun d => set_device 65535 (d_watched d) (d_hw_kind d) d) Hwf
      (fun d => eq_refl)) as D.
    assert (d_reply_endpoint (data_at (upd_data (k_tasks k) slot (fun d => set_device 65535 (d_watched d)
      (d_hw_kind d) d)) slot) = d_reply_endpoint (data_at (k_tasks k) slot)) as Hrep.
    { unfold data_at. simpl. rewrite list_lookup_alter_eq. by destruct (data (k_tasks k) !! slot). }
    set (k1 := with_tasks k _) in *. destruct (_ =? 65535); split_and!; try done.
    eapply decays_trans; [exact D|]. destruct (dk_wf _ _ _ _ D). by decay.
  - cbn. split_and!; try done. destruct Hwf. by decay.
Qed.

(** *** The whole kill *)

Definition claimed (k : Kernel) (slot : nat) : Kernel :=
  with_tasks k (with_sched (k_tasks k) (upd_task (k_sched k) slot (set_state Dead))).

Lemma kill_claim_spec (k : Kernel) (slot : nat) :
  kill_claim k slot = if alive (k_sched k) slot then Some (claimed k slot) else None.
Proof.
  unfold kill_claim, alive. rewrite Nat.leb_antisym, Nat.ltb_antisym.
  destruct (MAX_TASKS <=? slot)%nat; cbn [negb orb andb]; [done|].
  destruct (t_valid _); cbn [negb orb andb]; [|done]. by case_bool_decide.
Qed.

Lemma claimed_spec (k : Kernel) (slot : nat) :
  base_wf k -> base_wf (claimed k slot) /\ alive (k_sched (claimed k slot)) slot = false /\
  ((slot < MAX_TASKS)%nat -> t_state (task_at (k_sched (claimed k slot)) slot) = Dead) /\
  (forall j, j <> slot -> alive (k_sched (claimed k slot)) j = alive (k_sched k) j) /\
  (forall j, j <> slot -> task_at (k_sched (claimed k slot)) j = task_at (k_sched k) j).
Proof.
  intros [[Hl ? ? ?] ? ? ? ?].
  assert (forall j, j <> slot -> task_at (k_sched (claimed k slot)) j = task_at (k_sched k) j) as Ht.
  { intros j Hj. unfold k_sched at 1. cbn [claimed k_tasks with_tasks sched with_sched]. rewrite task_at_upd, decide_False; [done|].
    intros [-> _]. done. }
  assert ((slot < MAX_TASKS)%nat -> t_state (task_at (k_sched (claimed k slot)) slot) = Dead) as Hdead.
  { intros E. unfold k_sched. cbn [claimed k_tasks with_tasks sched with_sched].
    by rewrite task_at_upd, decide_True by (split; [done|unfold k_sched; lia]). }
  split_and!; try done.
  - split; try done. split; try done. cbn. by rewrite length_alter.
  - unfold alive. destruct (slot <? MAX_TASKS)%nat eqn:E; [|done]. apply Nat.ltb_lt in E.
    rewrite Hdead by done. rewrite bool_decide_eq_true_2 by done. by rewrite andb_false_r.
  - intros j Hj. unfold alive. by rewrite Ht.
Qed.

Lemma finish_spec (k : Kernel) (my slot : nat) :
  base_wf k -> alive (k_sched k) slot = false ->
  base_wf (kill_finish k my slot) /\
  (forall j, alive (k_sched (kill_finish k my slot)) j = alive (k_sched k) j) /\
  (forall j, j <> slot -> task_at (k_sched (kill_finish k my slot)) j = task_at (k_sched k) j) /\
  ((slot < MAX_TASKS)%nat -> t_valid (task_at (k_sched (kill_finish k my slot)) slot) = false) /\
  (t_state (task_at (k_sched k) slot) = Dead -> t_state (task_at (k_sched (kill_finish k my slot)) slot) = Dead).
Proof.
  intros [[Hl ? ? ?] ? ? ? ?] Hd. set (s1 := if (current_task_slot (k_sched k) my =? slot)%nat then k_sched k else upd_task (k_sched k) slot (set_state Dead)).
  assert (length (tasks s1) = MAX_TASKS /\ forall j, j <> slot -> task_at s1 j = task_at (k_sched k) j) as [Hl1 Ht1].
  { subst s1. case_match; [done|]. split; [cbn; by rewrite length_alter|].
    intros j Hj. rewrite task_at_upd, decide_False; [done|]. intros [-> _]. done. }
  assert (forall j, j <> slot -> task_at (k_sched (kill_finish k my slot)) j = task_at (k_sched k) j) as Ht.
  { intros j Hj. unfold k_sched at 1. cbn [kill_finish k_tasks with_tasks sched with_sched].
    fold s1. rewrite task_at_upd, decide_False, Ht1; [done..|]. intros [-> _]. done. }
  assert ((slot < MAX_TASKS)%nat -> t_valid (task_at (k_sched (kill_finish k my slot)) slot) = false) as Hv.
  { intros Hs. unfold k_sched. cbn [kill_finish k_tasks with_tasks sched with_sched]. fold s1.
    by rewrite task_at_upd, decide_True by (split; [done|lia]). }
  split_and!; try done; [split; try done; split; try done; cbn; rewrite length_alter; exact Hl1| |].
  - intros j. destruct (decide (j = slot)) as [->|Hj]; [|unfold alive; by rewrite Ht].
    rewrite Hd. unfold alive. destruct (slot <? MAX_TASKS)%nat eqn:E; [|done]. apply Nat.ltb_lt in E.
    by rewrite Hv.
  - intros Hst. unfold k_sched. cbn [kill_finish k_tasks with_tasks sched with_sched]. fold s1.
    rewrite task_at_upd. assert (t_state (task_at s1 slot) = Dead) as Hs1.
    { subst s1. case_match; [done|]. rewrite task_at_upd. by case_decide. }
    by case_decide.
Qed.

(** The task parked in a console read while [slot] owns the foreground. *)
Definition console_parked (k : Kernel) (slot j : nat) : Prop :=
  k_foreground k = Z.of_nat slot /\ k_read_waiter k <> u32_max /\ j = Z.to_nat (k_read_waiter k).

Lemma front_spec (k : Kernel) (my slot : nat) :
  base_wf k ->
  let k' := release_console_foreground_if_owner (with_routing k (clear_call_await (k_routing k) slot)) my
              (Z.of_nat slot) in
  decays slot (console_parked k slot) k k' /\ TABLE (k_routing k') = TABLE (k_routing k) /\
  CALL_AWAIT_EP (k_routing k') = <[slot := 0]> (CALL_AWAIT_EP (k_routing k)) /\
  k_delegated k' = k_delegated k /\ k_names k' = k_names k /\ k_ids k' = k_ids k /\
  data (k_tasks k') = data (k_tasks k).
Proof.
  intros Hwf. pose proof (bw_routing _ Hwf) as Hr.
  assert (decays slot (console_parked k slot) k (with_routing k (clear_call_await (k_routing k) slot))) as D1.
  { apply decays_routing; try done.
    - destruct Hr. split; try done. cbn. by rewrite length_insert.
    - intros j e He Hne. cbn in He. apply lookup_insert_cases in He as [[_ ->]|[_ ?]]; done. }
  set (k1 := with_routing k _) in *. cbv zeta. unfold release_console_foreground_if_owner.
  destruct (Z.eqb_spec (k_foreground k1) (Z.of_nat slot)) as [Hfg|]; [|by split_and!].
  unfold wake_console_waiter. cbn [k_read_waiter with_console].
  assert (decays slot (console_parked k slot) k1 (with_console k1 u32_max (k_screen k1))) as D2.
  { destruct (dk_wf _ _ _ _ D1). by decay. }
  destruct (Z.eqb_spec (k_read_waiter k1) u32_max) as [|Hne];
    (split; [eapply decays_trans; [exact D1|]|done]); [exact D2|].
  eapply decays_trans; [exact D2|]. eapply decays_weaken; [|apply decays_wake; [set_solver|apply D2]].
  intros j ->. done.
Qed.

(** Who a kill of [slot] may wake. *)
Definition kill_wakes (k : Kernel) (slot : nat) (j : nat) : Prop :=
  console_parked k slot j \/ j ∈ waiters_of (k_routing k) (d_reply_endpoint (data_at (k_tasks k) slot)) \/
  j ∈ waiters_of (k_routing k) (d_endpoint (data_at (k_tasks k) slot)) \/
  CALL_AWAIT_EP (k_routing k) !! j = Some (d_endpoint (data_at (k_tasks k) slot)) \/ notified k j.

(** What a kill leaves behind. *)
Record killed (k k' : Kernel) (slot : nat) (ep rep : Z) : Prop := mk_killed {
  kd_wf : base_wf k';
  kd_slot : alive (k_sched k') slot = false /\ t_valid (task_at (k_sched k') slot) = false;
  kd_vacant : vacant k' slot;
  kd_alive : forall j, j <> slot -> alive (k_sched k') j = alive (k_sched k) j;
  kd_task : forall j, j <> slot -> task_at (k_sched k') j = task_at (k_sched k) j \/
    (kill_wakes k slot j /\ alive (k_sched k) j = true /\
     exists r, r ∈ [-7; -12; 0] /\ task_at (k_sched k') j = woken r (task_at (k_sched k) j));
  kd_woken : forall j, j <> slot -> alive (k_sched k) j = true ->
    (rep <> 0 /\ j ∈ waiters_of (k_routing k) rep) \/
    (ep <> 0 /\ (j ∈ waiters_of (k_routing k) ep \/ CALL_AWAIT_EP (k_routing k) !! j = Some ep)) ->
    exists r, r ∈ [-7; -12; 0] /\ task_at (k_sched k') j = woken r (task_at (k_sched k) j);
  kd_data : forall j, j <> slot -> data_at (k_tasks k') j = data_at (k_tasks k) j;
  kd_rows : task_names (k_tasks k') = task_names (k_tasks k);
  kd_dead : forall e, e <> 0 -> e = ep \/ e = rep -> target_alive (k_routing k') e = false;
  kd_dead_stays : forall e, target_alive (k_routing k) e = false -> target_alive (k_routing k') e = false;
  kd_await : forall j e, CALL_AWAIT_EP (k_routing k') !! j = Some e -> e <> 0 ->
    j <> slot /\ e <> ep /\ CALL_AWAIT_EP (k_routing k) !! j = Some e;
  kd_await_keep : forall j e, j <> slot -> e <> ep -> CALL_AWAIT_EP (k_routing k) !! j = Some e ->
    CALL_AWAIT_EP (k_routing k') !! j = Some e;
  kd_stale : forall c, 0 < resource_id c ->
    resource_id c = ep \/ resource_id c = rep \/ (ep <> 0 /\ owner_of (k_delegated k) (resource_id c) = Some ep) ->
    not_ahead (k_registry k) c -> stale (k_registry k') c;
  kd_stale_stays : forall c, 0 <= resource_id c -> stale (k_registry k) c -> stale (k_registry k') c;
  kd_owner : forall id e, owner_of (k_delegated k') id = Some e ->
    owner_of (k_delegated k) id = Some e /\ (ep <> 0 -> e <> ep);
  kd_name : forall b e, lookup_name (k_names k') b = Some e ->
    lookup_name (k_names k) b = Some e /\ (ep <> 0 -> b = task_name (k_tasks k) slot -> e <> ep);
  kd_irq : forall i e, registered_endpoint (k_irq k') i = Some e ->
    registered_endpoint (k_irq k) i = Some e /\ (ep <> 0 -> e <> ep /\ (rep <> 0 -> e <> rep));
  kd_ids : k_ids k' =
    let ids := if rep =? 0 then k_ids k else free_endpoint_id (k_ids k) rep in
    if ep =? 0 then ids else free_endpoint_id ids ep
}.

Lemma waiters_table (r r' : RoutingState) (e : Z) :
  lookup_entry r' e = lookup_entry r e -> waiters_of r' e = waiters_of r e.
Proof. intros H. unfold waiters_of. by rewrite H. Qed.

Lemma ep_from_Some (v e : Z) : ep_from_u64 v = Some e <-> v <> 0 /\ e = v.
Proof. unfold ep_from_u64. destruct (Z.eqb_spec v 0); naive_solver. Qed.

(** The two endpoints, one after the other: [k2] is the state before them. *)
Record endpoints_killed (slot : nat) (k2 k4 : Kernel) (name : list Z) (ep rep : Z) : Prop := mk_endpoints_killed {
  ek_decays : decays slot (fun j => (rep <> 0 /\ j ∈ waiters_of (k_routing k2) rep) \/
    (ep <> 0 /\ (j ∈ waiters_of (k_routing k2) ep \/ CALL_AWAIT_EP (k_routing k2) !! j = Some ep))) k2 k4;
  ek_woken : forall j, j <> slot -> alive (k_sched k2) j = true ->
    (rep <> 0 /\ j ∈ waiters_of (k_routing k2) rep) \/
    (ep <> 0 /\ (j ∈ waiters_of (k_routing k2) ep \/ CALL_AWAIT_EP (k_routing k2) !! j = Some ep)) ->
    exists r, r ∈ [-7; -12; 0] /\ task_at (k_sched k4) j = woken r (task_at (k_sched k2) j);
  ek_dead : forall e, e <> 0 -> e = ep \/ e = rep -> target_alive (k_routing k4) e = false;
  ek_entries : forall e, target_alive (k_routing k4) e = true ->
    lookup_entry (k_routing k4) e = lookup_entry (k_routing k2) e;
  ek_await : forall j, CALL_AWAIT_EP (k_routing k4) !! j =
    (fun a => if decide (a = ep) then 0 else a) <$> CALL_AWAIT_EP (k_routing k2) !! j;
  ek_stale : forall c, 0 < resource_id c ->
    resource_id c = ep \/ resource_id c = rep \/ (ep <> 0 /\ owner_of (k_delegated k2) (resource_id c) = Some ep) ->
    not_ahead (k_registry k2) c -> stale (k_registry k4) c;
  ek_owner : ep <> 0 -> forall id, owner_of (k_delegated k4) id <> Some ep;
  ek_name : ep <> 0 -> lookup_name (k_names k4) name <> Some ep;
  ek_irq : ep <> 0 -> forall i, registered_endpoint (k_irq k4) i <> Some ep /\
    (rep <> 0 -> registered_endpoint (k_irq k4) i <> Some rep);
  ek_reply : (slot < MAX_TASKS)%nat -> rep = d_reply_endpoint (data_at (k_tasks k2) slot) ->
    d_reply_endpoint (data_at (k_tasks k4) slot) = 0;
  ek_ids : k_ids k4 =
    let ids := if rep =? 0 then k_ids k2 else free_endpoint_id (k_ids k2) rep in
    if ep =? 0 then ids else free_endpoint_id ids ep
}.

Lemma reply_ids (slot : nat) (k k' : Kernel) (rep : Z) :
  reply_killed slot k k' (ep_from_u64 rep) ->
  k_ids k' = if rep =? 0 then k_ids k else free_endpoint_id (k_ids k) rep.
Proof. intros H. rewrite (rk_ids _ _ _ _ H). unfold ep_from_u64. by destruct (rep =? 0). Qed.

Lemma endpoints_killed_none (slot : nat) (k k' : Kernel) (name : list Z) (rep : Z) :
  reply_killed slot k k' (ep_from_u64 rep) -> endpoints_killed slot k k' name 0 rep.
Proof.
  intros H. split; try done.
  - eapply decays_weaken; [|exact (rk_decays _ _ _ _ H)]. intros j (r & [? ->]%ep_from_Some & Hj). by left.
  - intros j Hne Ha [[Hr Hj]|[? _]]; [|done]. eapply (rk_woken _ _ _ _ H); [by apply ep_from_Some|done..].
  - intros e He [->| ->]; [done|]. eapply (rk_dead _ _ _ _ H). by apply ep_from_Some.
  - intros e He. apply (rk_entries _ _ _ _ H). intros [? ->]%ep_from_Some.
    by rewrite (rk_dead _ _ _ _ H rep) in He by (by apply ep_from_Some).
  - intros j. rewrite (rk_await _ _ _ _ H). destruct (CALL_AWAIT_EP (k_routing k) !! j); [|done].
    simpl. by case_decide; subst.
  - intros c Hc [He|[He|[? _]]] Hn; [lia| |done]. apply (rk_stale _ _ _ _ H rep c); [|done..].
    apply ep_from_Some. lia.
  - intros Hs ->. by apply (rk_reply _ _ _ _ H).
  - by rewrite (reply_ids _ _ _ _ H).
Qed.

Lemma endpoints_killed_both (slot : nat) (k2 k3 k4 : Kernel) (name : list Z) (ep rep : Z) :
  0 < ep -> rep <> ep -> reply_killed slot k2 k3 (ep_from_u64 rep) ->
  primary_killed slot k3 k4 name ep (ep_from_u64 rep) -> endpoints_killed slot k2 k4 name ep rep.
Proof.
  intros Hep Hne Hr Hp. pose proof (rk_decays _ _ _ _ Hr) as D1. pose proof (pk_decays _ _ _ _ _ _ Hp) as D2.
  assert (waiters_of (k_routing k3) ep = waiters_of (k_routing k2) ep) as Hw.
  { apply waiters_table, (rk_entries _ _ _ _ Hr). intros [_ ?]%ep_from_Some. congruence. }
  rewrite Hw, (rk_await _ _ _ _ Hr) in D2. split.
  - eapply decays_trans; (eapply decays_weaken; [|eassumption]); cbv beta.
    + intros j (r & [? ->]%ep_from_Some & ?). auto.
    + intros j Hj. right. split; [lia|exact Hj].
  - intros j Hj Ha Hcase. assert (alive (k_sched k3) j = true) as Ha3 by (by rewrite (dk_alive _ _ _ _ D1)).
    assert (forall t r, task_at (k_sched k3) j = t -> woken r t = woken r (task_at (k_sched k2) j)) as Ht.
    { intros t r <-. by destruct (dk_task _ _ _ _ D1 j) as [->|(_ & _ & ? & _ & ->)]. }
    destruct Hcase as [[Hrep Hcase]|[_ [Hcase|Hcase]]].
    + destruct (rk_woken _ _ _ _ Hr rep j) as (r & Hin & E); [by apply ep_from_Some|done..|].
      destruct (dk_task _ _ _ _ D2 j) as [->|(_ & _ & r' & ? & ->)]; [by exists r|]. exists r'. by rewrite (Ht _ _ eq_refl).
    + destruct (pk_woken _ _ _ _ _ _ Hp j) as (r & Hin & E); [by rewrite Hw|done..|]. exists r. rewrite E. by rewrite (Ht _ _ eq_refl).
    + exists (-12). rewrite (pk_callers _ _ _ _ _ _ Hp j); [|by rewrite (rk_await _ _ _ _ Hr)|done..].
      rewrite (Ht _ _ eq_refl). split; [set_solver|done].
  - intros e He [->| ->]; [apply (pk_dead _ _ _ _ _ _ Hp)|]. apply (dk_dead _ _ _ _ D2), (rk_dead _ _ _ _ Hr).
    by apply ep_from_Some.
  - intros e He. rewrite (pk_entries _ _ _ _ _ _ Hp) by (intros ->; by rewrite (pk_dead _ _ _ _ _ _ Hp) in He).
    apply (rk_entries _ _ _ _ Hr). intros Hrep. apply (rk_dead _ _ _ _ Hr) in Hrep.
    apply (dk_dead _ _ _ _ D2) in Hrep. congruence.
  - intros j. by rewrite (pk_await _ _ _ _ _ _ Hp), (rk_await _ _ _ _ Hr).
  - intros c Hc Hcase Hn. assert (not_ahead (k_registry k3) c) by (apply (dk_behind _ _ _ _ D1); [lia|done]).
    destruct Hcase as [He|[He|[_ He]]].
    + apply (pk_stale _ _ _ _ _ _ Hp c); [lia|by left|done].
    + apply (dk_stale _ _ _ _ D2); [lia|]. apply (rk_stale _ _ _ _ Hr rep c); [apply ep_from_Some; lia|done..].
    + apply (pk_stale _ _ _ _ _ _ Hp c); [lia| |done]. right. by rewrite (rk_owner _ _ _ _ Hr).
  - intros _. apply (pk_owner _ _ _ _ _ _ Hp).
  - intros _. apply (pk_name _ _ _ _ _ _ Hp).
  - intros _ i. destruct (pk_irq _ _ _ _ _ _ Hp i) as [? Hi]. split; [done|]. intros Hz. apply Hi. by apply ep_from_Some.
  - intros Hs ->. unfold data_at. rewrite (pk_data _ _ _ _ _ _ Hp). by apply (rk_reply _ _ _ _ Hr).
  - rewrite (pk_ids _ _ _ _ _ _ Hp), (reply_ids _ _ _ _ Hr). cbv zeta. by destruct (Z.eqb_spec ep 0); [lia|].
Qed.

Lemma kill_endpoints_spec (k k3 k4 : Kernel) (my slot : nat) (name : list Z) (ep rep : Z) :
  base_wf k -> 0 <= ep -> 0 <= rep -> (ep <> 0 -> rep <> ep) ->
  kill_reply k my slot name (ep_from_u64 rep) = Done k3 ->
  kill_primary k3 my slot name (ep_from_u64 ep) (ep_from_u64 rep) = Done k4 ->
  endpoints_killed slot k k4 name ep rep.
Proof.
  intros Hwf Hep Hrep Hne H3 H4.
  assert (reply_killed slot k k3 (ep_from_u64 rep)) as Hr.
  { eapply kill_reply_spec; [done| |exact H3]. by intros r [? ->]%ep_from_Some. }
  unfold ep_from_u64 in H4 at 1. destruct (Z.eqb_spec ep 0) as [->|Hz].
  - cbn [kill_primary] in H4. injection H4 as <-. by apply endpoints_killed_none.
  - apply (endpoints_killed_both slot k k3 k4); [lia|auto|done|].
    eapply kill_primary_spec; [apply (dk_wf _ _ _ _ (rk_decays _ _ _ _ Hr))|lia|done].
Qed.

(** After the endpoints, up to the release of the slot. *)
Lemma tail_spec (slot : nat) (k : Kernel) (my : nat) (name : list Z) (cause : Cause) :
  base_wf k ->
  let k' := kill_device (kill_notify (kill_account k slot name) my slot name cause) slot in
  decays slot (notified k) k k' /\ k_ids k' = k_ids k /\
  CALL_AWAIT_EP (k_routing k') = CALL_AWAIT_EP (k_routing k) /\
  d_reply_endpoint (data_at (k_tasks k') slot) = d_reply_endpoint (data_at (k_tasks k) slot).
Proof.
  intros Hwf. destruct (decays_account slot (notified k) k name Hwf) as (D1 & E1 & En & Er & Ed1).
  set (k1 := kill_account k slot name) in *.
  destruct (decays_notify slot k1 my name cause (dk_wf _ _ _ _ D1)) as (D2 & E2 & Ea & Ed2).
  set (k2 := kill_notify k1 my slot name cause) in *.
  destruct (decays_device slot (notified k) k2 (dk_wf _ _ _ _ D2)) as (D3 & E3 & Er3 & Ed3).
  cbv zeta. split_and!; [|congruence|by rewrite Er3, Ea, Er|rewrite Ed3; unfold data_at; by rewrite Ed2, Ed1].
  eapply decays_trans; [exact D1|]. eapply decays_trans; [|exact D3].
  eapply decays_weaken; [|exact D2]. intros j (sup & e & Hs & He & ?). exists sup, e.
  rewrite En, Er in *. done.
Qed.

(** The stages a kill goes through. *)
Lemma kill_stages (k k' : Kernel) (my slot : nat) (cause : Cause)
    (ep := d_endpoint (data_at (k_tasks k) slot)) (rep := d_reply_endpoint (data_at (k_tasks k) slot)) :
  base_wf k -> alive (k_sched k) slot = true -> 0 <= ep -> 0 <= rep -> (ep <> 0 -> rep <> ep) ->
  kill_task_by_slot k my slot cause = Done k' ->
  exists k2 k4 k5, decays slot (console_parked k slot) (claimed k slot) k2 /\
    TABLE (k_routing k2) = TABLE (k_routing k) /\
    CALL_AWAIT_EP (k_routing k2) = <[slot := 0]> (CALL_AWAIT_EP (k_routing k)) /\
    k_delegated k2 = k_delegated k /\ k_names k2 = k_names k /\ k_ids k2 = k_ids k /\
    endpoints_killed slot k2 k4 (task_name (k_tasks k) slot) ep rep /\
    decays slot (notified k4) k4 k5 /\ k_ids k5 = k_ids k4 /\
    CALL_AWAIT_EP (k_routing k5) = CALL_AWAIT_EP (k_routing k4) /\
    d_reply_endpoint (data_at (k_tasks k5) slot) = 0 /\ k' = kill_finish k5 my slot.
Proof.
  intros Hwf Ha Hep Hrep Hne H. unfold kill_task_by_slot in H. rewrite kill_claim_spec, Ha in H.
  destruct (claimed_spec k slot Hwf) as (Hwf0 & _). set (k0 := claimed k slot) in *. cbv zeta in H.
  destruct (front_spec k0 my slot Hwf0) as (D1 & Etab & Eaw & Edel & Enam & Eids & Edat).
  set (k2 := release_console_foreground_if_owner _ my _) in *.
  change (task_name (k_tasks k0) slot) with (task_name (k_tasks k) slot) in H.
  change (d_endpoint (data_at (k_tasks k0) slot)) with ep in H.
  assert (d_reply_endpoint (data_at (k_tasks k2) slot) = rep) as Erep by (unfold data_at; by rewrite Edat).
  rewrite Erep in H. set (name := task_name (k_tasks k) slot) in *.
  apply bind_Done in H as (k3 & H3 & H). apply bind_Done in H as (k4 & H4 & H). injection H as <-.
  pose proof (kill_endpoints_spec k2 k3 k4 my slot name ep rep (dk_wf _ _ _ _ D1) Hep Hrep Hne H3 H4) as E.
  destruct (tail_spec slot k4 my name cause (dk_wf _ _ _ _ (ek_decays _ _ _ _ _ _ E))) as (D3 & Eids5 & Eaw5 & Ed5).
  eexists k2, k4, _. split_and!; try done. etransitivity; [exact Ed5|].
  by apply (ek_reply _ _ _ _ _ _ E); [apply alive_lt in Ha|].
Qed.

Lemma kill_through (k k' : Kernel) (my slot : nat) (cause : Cause)
    (ep := d_endpoint (data_at (k_tasks k) slot)) (rep := d_reply_endpoint (data_at (k_tasks k) slot)) :
  base_wf k -> alive (k_sched k) slot = true -> 0 <= ep -> 0 <= rep -> (ep <> 0 -> rep <> ep) ->
  kill_task_by_slot k my slot cause = Done k' ->
  exists k2 k4 k5, decays slot (console_parked k slot) (claimed k slot) k2 /\
    (forall e, waiters_of (k_routing k2) e = waiters_of (k_routing k) e) /\
    (forall j, j <> slot -> CALL_AWAIT_EP (k_routing k2) !! j = CALL_AWAIT_EP (k_routing k) !! j) /\
    (forall e, CALL_AWAIT_EP (k_routing k2) !! slot = Some e -> e = 0) /\
    k_delegated k2 = k_delegated k /\ k_ids k2 = k_ids k /\
    endpoints_killed slot k2 k4 (task_name (k_tasks k) slot) ep rep /\
    decays slot (notified k4) k4 k5 /\ k_ids k5 = k_ids k4 /\
    CALL_AWAIT_EP (k_routing k5) = CALL_AWAIT_EP (k_routing k4) /\
    d_reply_endpoint (data_at (k_tasks k5) slot) = 0 /\
    decays slot (kill_wakes k slot) (claimed k slot) k5 /\ k' = kill_finish k5 my slot.
Proof.
  intros Hwf Ha Hep Hrep Hne H.
  destruct (kill_stages k k' my slot cause Hwf Ha Hep Hrep Hne H) as
    (k2 & k4 & k5 & D1 & Etab & Eaw & Edel & Enam & Eids & E & D3 & Eids5 & Eaw5 & Ed5 & ->). clear H. fold ep rep in E.
  pose proof (ek_decays _ _ _ _ _ _ E) as D2. exists k2, k4, k5.
  assert (forall e, lookup_entry (k_routing k2) e = lookup_entry (k_routing k) e) as Hlk
    by (intros e; unfold lookup_entry; by rewrite Etab).
  assert (forall j, j <> slot -> CALL_AWAIT_EP (k_routing k2) !! j = CALL_AWAIT_EP (k_routing k) !! j) as Haw2
    by (intros j Hj; rewrite Eaw; by rewrite list_lookup_insert_ne).
  assert (forall e, CALL_AWAIT_EP (k_routing k2) !! slot = Some e -> e = 0) as Hslot2.
  { intros e. rewrite Eaw. intros [[_ ?]|[? _]]%lookup_insert_cases; congruence. }
  split_and!; try done; [intros e; by apply waiters_table|].
  eapply decays_trans; [eapply decays_trans; (eapply decays_weaken; [|eassumption])|eapply decays_weaken; [|exact D3]];
    unfold kill_wakes; fold ep rep; cbv beta.
  - auto.
  - intros j. rewrite !(waiters_table _ _ _ (Hlk _)). intros [[_ ?]|(Hz & [?|Hc])]; auto.
    destruct (decide (j = slot)) as [->|Hj]; [by apply Hslot2 in Hc|rewrite Haw2 in Hc by done; auto].
  - intros j (sup & e & Hs & He & Hl & Hb). do 4 right. exists sup, e. split_and!; try done.
    + by apply (dk_name _ _ _ _ D2) in Hs; rewrite Enam in Hs.
    + rewrite (ek_entries _ _ _ _ _ _ E), Hlk in He; [done|].
      unfold target_alive. by rewrite He, (proj2 (is_dead_false e) Hl).
Qed.

Lemma kill_spec (k k' : Kernel) (my slot : nat) (cause : Cause)
    (ep := d_endpoint (data_at (k_tasks k) slot)) (rep := d_reply_endpoint (data_at (k_tasks k) slot)) :
  base_wf k -> alive (k_sched k) slot = true -> 0 <= ep -> 0 <= rep -> (ep <> 0 -> rep <> ep) ->
  kill_task_by_slot k my slot cause = Done k' -> killed k k' slot ep rep.
Proof.
  intros Hwf Ha Hep Hrep Hne H. destruct (kill_through k k' my slot cause Hwf Ha Hep Hrep Hne H) as
    (k2 & k4 & k5 & D1 & Hwt & Haw2 & Hslot2 & Edel & Eids & E & D3 & Eids5 & Eaw5 & Ed5 & D & ->).
  clear H. fold ep rep in E. pose proof (ek_decays _ _ _ _ _ _ E) as D2.
  destruct (claimed_spec k slot Hwf) as (Hwf0 & Hd0 & Hs0 & Ha0 & Ht0).
  assert (alive (k_sched k5) slot = false) as Hd5 by (by rewrite (dk_alive _ _ _ _ D)).
  destruct (finish_spec k5 my slot (dk_wf _ _ _ _ D3) Hd5) as (Hwf6 & Ha6 & Ht6 & Hv6 & Hst6).
  split; try done.
  - split; [by rewrite Ha6|]. by apply Hv6, (alive_lt (k_sched k)).
  - split; [|exact Ed5]. apply Hst6. destruct (dk_task _ _ _ _ D slot) as [->|(_ & Hal & _)]; [|congruence].
    by apply Hs0, (alive_lt (k_sched k)).
  - intros j Hj. by rewrite Ha6, (dk_alive _ _ _ _ D), Ha0.
  - intros j Hj. rewrite Ht6 by done.
    destruct (dk_task _ _ _ _ D j) as [->|(? & Hal & r & ? & ->)]; rewrite Ht0 by done; [by left|].
    rewrite Ha0 in Hal by done. eauto 10.
  - intros j Hj Haj Hc. rewrite Ht6 by done.
    assert (alive (k_sched k2) j = true) as Haj2 by (by rewrite (dk_alive _ _ _ _ D1), Ha0).
    destruct (ek_woken _ _ _ _ _ _ E j Hj Haj2) as (r & Hin & Er); [by rewrite !Hwt, Haw2|].
    assert (forall r', woken r' (task_at (k_sched k2) j) = woken r' (task_at (k_sched k) j)) as Hw2.
    { intros r'. destruct (dk_task _ _ _ _ D1 j) as [->|(_ & _ & ? & _ & ->)]; by rewrite Ht0. }
    destruct (dk_task _ _ _ _ D3 j) as [->|(_ & _ & r' & ? & ->)]; rewrite Er.
    + exists r. by rewrite Hw2.
    + exists r'. split; [done|]. by rewrite <- Hw2.
  - intros j Hj. by apply (dk_data _ _ _ _ D).
  - by apply (dk_rows _ _ _ _ D).
  - intros e Hz He. by apply (dk_dead _ _ _ _ D3), (ek_dead _ _ _ _ _ _ E).
  - intros e He. by apply (dk_dead _ _ _ _ D).
  - intros j e He Hz. change (k_routing (kill_finish k5 my slot)) with (k_routing k5) in He.
    rewrite Eaw5, (ek_await _ _ _ _ _ _ E) in He.
    destruct (CALL_AWAIT_EP (k_routing k2) !! j) as [a|] eqn:Ea; [|done]. simpl in He.
    case_decide; simplify_eq. destruct (decide (j = slot)) as [->|Hj]; [by apply Hslot2 in Ea|].
    rewrite Haw2 in Ea by done. done.
  - intros j e Hj He Hl. change (k_routing (kill_finish k5 my slot)) with (k_routing k5).
    rewrite Eaw5, (ek_await _ _ _ _ _ _ E), Haw2, Hl by done. simpl. by rewrite decide_False.
  - intros c Hc Hcase Hn. apply (dk_stale _ _ _ _ D3); [lia|].
    apply (ek_stale _ _ _ _ _ _ E); [done|by rewrite Edel|].
    apply (dk_behind _ _ _ _ D1); [lia|done].
  - intros c Hc Hs. by apply (dk_stale _ _ _ _ D).
  - intros id e He. split; [by apply (dk_owner _ _ _ _ D)|].
    intros Hz ->. apply (dk_owner _ _ _ _ D3) in He. by apply (ek_owner _ _ _ _ _ _ E Hz) in He.
  - intros b e He. split; [by apply (dk_name _ _ _ _ D)|].
    intros Hz -> ->. apply (dk_name _ _ _ _ D3) in He. by apply (ek_name _ _ _ _ _ _ E Hz) in He.
  - intros i e He. split; [by apply (dk_irq _ _ _ _ D)|]. apply (dk_irq _ _ _ _ D3) in He.
    intros Hz. destruct (ek_irq _ _ _ _ _ _ E Hz i) as [H1 H2]. split; [by intros ->|intros Hr ->; by apply H2].
  - change (k_ids (kill_finish k5 my slot)) with (k_ids k5).
    by rewrite Eids5, (ek_ids _ _ _ _ _ _ E), Eids.
Qed.

(** *** Ownership *)

Lemma endpoints_elem (t : Tasks) (e : Z) :
  e ∈ endpoints t <-> exists slot, e ∈ endpoints_of t slot.
Proof.
  unfold endpoints. rewrite list_elem_of_join. split.
  - intros (l & He & Hl). apply list_elem_of_fmap in Hl as (slot & -> & _). eauto.
  - intros (slot & He). exists (endpoints_of t slot). split; [done|]. apply list_elem_of_fmap.
    exists slot. split; [done|]. apply elem_of_seq. unfold endpoints_of, alive in He.
    destruct (Nat.ltb_spec slot MAX_TASKS); [lia|]. by apply not_elem_of_nil in He.
Qed.

Lemma endpoints_of_elem (t : Tasks) (slot : nat) (e : Z) :
  e ∈ endpoints_of t slot <-> alive (sched t) slot = true /\ e <> 0 /\
    (e = d_reply_endpoint (data_at t slot) \/ e = d_endpoint (data_at t slot)).
Proof.
  unfold endpoints_of. destruct (alive (sched t) slot).
  - rewrite list_elem_of_filter, elem_of_cons, list_elem_of_singleton. tauto.
  - split; [intros H; by apply not_elem_of_nil in H|by intros [? _]].
Qed.

(** What one task holds, and what the others hold. *)
Lemma endpoints_split (t t' : Tasks) (slot : nat) :
  (slot < MAX_TASKS)%nat -> (forall j, j <> slot -> endpoints_of t' j = endpoints_of t j) ->
  exists rest, endpoints t ≡ₚ endpoints_of t slot ++ rest /\ endpoints t' ≡ₚ endpoints_of t' slot ++ rest.
Proof.
  intros Hs Hj. unfold endpoints. set (n := MAX_TASKS) in *. clearbody n.
  exists (mjoin (endpoints_of t <$> seq 0 slot) ++ mjoin (endpoints_of t <$> seq (S slot) (n - S slot))).
  assert (forall u, mjoin (endpoints_of u <$> seq 0 n) ≡ₚ endpoints_of u slot ++
    mjoin (endpoints_of u <$> seq 0 slot) ++ mjoin (endpoints_of u <$> seq (S slot) (n - S slot))) as Hsp.
  { intros u. replace n with (slot + S (n - S slot))%nat at 1 by lia.
    rewrite seq_app, fmap_app, join_app. cbn [seq fmap list_fmap mjoin list_join Nat.add].
    apply Permutation_app_swap_app. }
  split; [apply Hsp|]. rewrite (Hsp t').
  assert (forall a b, (forall j, (a <= j < a + b)%nat -> j <> slot) ->
    endpoints_of t' <$> seq a b = endpoints_of t <$> seq a b) as He.
  { intros a b Hab. apply list_fmap_ext. intros i j Hij%lookup_seq. apply Hj, Hab. lia. }
  by rewrite !He by lia.
Qed.

Lemma kernel_endpoints (k : Kernel) (slot : nat) :
  kernel_wf k -> alive (k_sched k) slot = true ->
  let ep := d_endpoint (data_at (k_tasks k) slot) in let rep := d_reply_endpoint (data_at (k_tasks k) slot) in
  (ep <> 0 -> 100 <= ep) /\ (rep <> 0 -> 100 <= rep) /\ (ep <> 0 -> rep <> ep).
Proof.
  intros [_ _ [lk Hids] _] Ha ep rep.
  assert (forall e, e <> 0 -> e = rep \/ e = ep -> 100 <= e) as Hr.
  { intros e Hz He. apply (iwf_live_range _ _ Hids). apply elem_of_app. left. apply endpoints_elem.
    exists slot. by apply endpoints_of_elem. }
  split_and!; [intros; apply Hr; auto..|]. intros Hz E.
  assert (slot < MAX_TASKS)%nat as Hs by (unfold alive in Ha; by destruct (Nat.ltb_spec slot MAX_TASKS)).
  destruct (endpoints_split (k_tasks k) (k_tasks k) slot Hs) as (rest & Hp & _); [done|].
  pose proof (iwf_live _ _ Hids) as Hnd. rewrite Hp in Hnd. unfold endpoints_of in Hnd.
  unfold k_sched in Ha. rewrite Ha in Hnd. fold ep rep in Hnd. rewrite E in Hnd.
  rewrite !filter_cons_True in Hnd by done. cbn in Hnd. apply NoDup_cons in Hnd as [Hnd _].
  apply Hnd. left.
Qed.

Lemma killed_of (k k' : Kernel) (my slot : nat) (cause : Cause) :
  kernel_wf k -> alive (k_sched k) slot = true -> kill_task_by_slot k my slot cause = Done k' ->
  killed k k' slot (d_endpoint (data_at (k_tasks k) slot)) (d_reply_endpoint (data_at (k_tasks k) slot)).
Proof.
  intros Hwf Ha H. destruct (kernel_endpoints k slot Hwf Ha) as (H1 & H2 & H3).
  set (ep := d_endpoint _) in *. set (rep := d_reply_endpoint _) in *.
  apply (kill_spec k k' my slot cause); [apply Hwf|done| | |done|done].
  - fold ep. destruct (decide (ep = 0)) as [Hz|Hz]; [lia|]. specialize (H1 Hz). lia.
  - fold rep. destruct (decide (rep = 0)) as [Hz|Hz]; [lia|]. specialize (H2 Hz). lia.
Qed.

Lemma kill_refused (k : Kernel) (my slot : nat) (cause : Cause) :
  alive (k_sched k) slot = false -> kill_task_by_slot k my slot cause = Done k.
Proof. intros H. unfold kill_task_by_slot. by rewrite kill_claim_spec, H. Qed.

Lemma kill_endpoints_of (k k' : Kernel) (slot : nat) (ep rep : Z) :
  killed k k' slot ep rep -> endpoints_of (k_tasks k') slot = [] /\
  forall j, j <> slot -> endpoints_of (k_tasks k') j = endpoints_of (k_tasks k) j.
Proof.
  intros H. unfold endpoints_of. split.
  - destruct (kd_slot _ _ _ _ _ H) as [Hd _]. unfold k_sched in Hd. by rewrite Hd.
  - intros j Hj. pose proof (kd_alive _ _ _ _ _ H j Hj) as Ha. unfold k_sched in Ha.
    by rewrite Ha, (kd_data _ _ _ _ _ H).
Qed.


(** A kill gives both ids back, and nobody else's. *)
Lemma kill_ids (k k' : Kernel) (slot : nat) (ep := d_endpoint (data_at (k_tasks k) slot))
    (rep := d_reply_endpoint (data_at (k_tasks k) slot)) (leaked : list Z) :
  alive (k_sched k) slot = true -> killed k k' slot ep rep ->
  ids_wf (k_ids k) (endpoints (k_tasks k) ++ leaked) -> ids_wf (k_ids k') (endpoints (k_tasks k') ++ leaked).
Proof.
  intros Ha H Hids. destruct (kill_endpoints_of _ _ _ _ _ H) as [Hs Hj].
  destruct (endpoints_split (k_tasks k) (k_tasks k') slot (alive_lt _ _ Ha) Hj) as (rest & Hp & Hp').
  rewrite Hs in Hp'. cbn [app] in Hp'. apply (ids_wf_perm _ (rest ++ leaked)); [by rewrite Hp'|].
  apply (ids_wf_perm _ _ (endpoints_of (k_tasks k) slot ++ rest ++ leaked)) in Hids;
    [|by rewrite Hp, app_assoc].
  unfold endpoints_of in Hids. unfold k_sched in Ha. rewrite Ha in Hids. fold ep rep in Hids.
  rewrite (kd_ids _ _ _ _ _ H). cbv zeta.
  destruct (Z.eqb_spec rep 0) as [Hr|Hr], (Z.eqb_spec ep 0) as [He|He];
    rewrite ?Hr, ?He, ?filter_cons_True, ?filter_cons_False, ?filter_nil in Hids by naive_solver;
    rewrite ?filter_cons_True, ?filter_cons_False, ?filter_nil in Hids by naive_solver; cbn [app] in Hids;
    repeat apply free_endpoint_id_wf; done.
Qed.

Lemma kill_wf (k k' : Kernel) (my slot : nat) (cause : Cause) :
  kernel_wf k -> kill_task_by_slot k my slot cause = Done k' -> kernel_wf k'.
Proof.
  intros Hwf H. destruct (alive (k_sched k) slot) eqn:Ha; [|rewrite kill_refused in H by done; by injection H as <-].
  pose proof (killed_of _ _ _ _ _ Hwf Ha H) as K. clear H. destruct Hwf as [Hb Hvac [lk Hids] Hown]. split.
  - apply K.
  - intros j Hj. destruct (decide (j = slot)) as [->|Hne]; [apply K|]. unfold vacant.
    rewrite (kd_data _ _ _ _ _ K) by done.
    destruct (kd_task _ _ _ _ _ K j Hne) as [Ht|(_ & Hal & r & _ & Ht)]; rewrite Ht in *; [by apply Hvac|].
    unfold alive in Hal. cbn in Hj. rewrite Hj, andb_false_r in Hal. done.
  - exists lk. by eapply kill_ids.
  - intros b e He. destruct (kd_name _ _ _ _ _ K b e He) as [Hl Hne].
    destruct (Hown b e Hl) as (s & Hs & Hn & Hep & Hz). destruct (decide (s = slot)) as [->|Hj].
    + rewrite Hep in Hne. by destruct (Hne Hz).
    + exists s. rewrite (kd_alive _ _ _ _ _ K), (kd_data _ _ _ _ _ K) by done.
      unfold task_name. by rewrite (kd_rows _ _ _ _ _ K).
Qed.

(** *** Killing by name *)

Lemma find_by_name_spec (t : Tasks) (name : list Z) (slot : nat) :
  find_task_by_name t name = Some slot -> alive (sched t) slot = true /\ task_name t slot = name.
Proof.
  unfold find_task_by_name, find_task_by_name_excluding. intros (i & Hi & Hp)%position_hit.
  apply lookup_seq in Hi as [-> Hlt]. cbn [Nat.add] in *. unfold alive.
  rewrite (proj2 (Nat.ltb_lt _ _) Hlt). apply andb_true_iff in Hp as [Hp Hd].
  apply andb_true_iff in Hp as [Hp Hn%bool_decide_eq_true]. apply andb_true_iff in Hp as [_ Hv].
  by rewrite Hv, Hd.
Qed.

Definition population (s : Sched) : nat := count (alive s) (seq 0 MAX_TASKS).

Lemma population_kill (s s' : Sched) (slot : nat) :
  alive s slot = true -> alive s' slot = false -> (forall j, j <> slot -> alive s' j = alive s j) ->
  population s = S (population s').
Proof.
  intros Ha Hd Hj. pose proof (alive_lt _ _ Ha) as Hlt. unfold population.
  set (n := MAX_TASKS) in *. clearbody n. replace n with (slot + S (n - S slot))%nat by lia.
  rewrite seq_app, !count_app. cbn [seq]. rewrite !count_cons, Nat.add_0_l, Ha, Hd.
  rewrite (count_ext (alive s') (alive s) (seq 0 slot)), (count_ext (alive s') (alive s) (seq (S slot) _)).
  - lia.
  - intros j Hi%elem_of_seq. apply Hj. lia.
  - intros j Hi%elem_of_seq. apply Hj. lia.
Qed.

Lemma kill_by_name_loop_spec (fuel : nat) (k : Kernel) (my : nat) (name : list Z) (cause : Cause) (found : bool) :
  kernel_wf k -> (population (k_sched k) < fuel)%nat ->
  match kill_by_name_loop fuel k my name cause found with
  | Some (Done (k', found')) => kernel_wf k' /\ find_task_by_name (k_tasks k') name = None /\
      found' = found || bool_decide (is_Some (find_task_by_name (k_tasks k) name))
  | Some Panic => True
  | None => False
  end.
Proof.
  revert k found. induction fuel as [|fuel IH]; intros k found Hwf Hf; [lia|]. cbn [kill_by_name_loop].
  destruct (find_task_by_name (k_tasks k) name) as [slot|] eqn:Hfind; [|by rewrite orb_false_r].
  destruct (kill_task_by_slot k my slot cause) as [k1|] eqn:Hk; [|done].
  destruct (find_by_name_spec _ _ _ Hfind) as [Ha _].
  pose proof (killed_of _ _ _ _ _ Hwf Ha Hk) as K.
  pose proof (population_kill _ _ slot Ha (proj1 (kd_slot _ _ _ _ _ K)) (kd_alive _ _ _ _ _ K)) as Hp.
  specialize (IH k1 true (kill_wf _ _ _ _ _ Hwf Hk) ltac:(unfold k_sched in *; lia)).
  destruct (kill_by_name_loop fuel k1 my name cause true) as [[[k2 f]|]|]; [|done..].
  destruct IH as (? & ? & ->). split_and!; [done..|]. by rewrite orb_true_r.
Qed.

(** *** The notice *)

Lemma payload_new (b : list Z) :
  (length b <= MAX_MESSAGE_SIZE)%nat -> exists m, Message.new b = Ok m /\ Message.payload_bytes m = b.
Proof.
  intros Hb. unfold Message.new. rewrite (proj2 (Nat.ltb_ge _ _) Hb). eexists. split; [done|].
  unfold Message.payload_bytes, Message.zero_padded. cbn. by rewrite take_app_length.
Qed.

Lemma split_notice_name (name rest : list Z) : 0 ∉ name -> split_notice (name ++ 0 :: rest) = (name, rest).
Proof.
  intros Hn. unfold split_notice.
  assert (position (fun b => b =? 0) (name ++ 0 :: rest) = Some (length name)) as ->.
  { apply position_Some. split.
    - exists 0. split; [by rewrite lookup_app_r, Nat.sub_diag|done].
    - intros j y Hj Hy. rewrite lookup_app_l in Hy by done. apply Z.eqb_neq. intros ->.
      apply Hn. by eapply list_elem_of_lookup_2. }
  f_equal; [apply take_app_length|]. by rewrite (cons_middle 0), app_assoc, drop_app_length' by (rewrite length_app; simpl; lia).
Qed.

Lemma task_name_length (t : Tasks) (slot : nat) : (length (task_name t slot) <= TASK_NAME_MAX)%nat.
Proof.
  unfold task_name, rows_get. case_match; [simpl; lia|]. case_match; [|simpl; lia].
  rewrite length_take. lia.
Qed.

Lemma NoDup_join {A} (f : nat -> list A) (n i j : nat) (x : A) :
  NoDup (mjoin (f <$> seq 0 n)) -> (i < n)%nat -> (j < n)%nat -> x ∈ f i -> x ∈ f j -> i = j.
Proof.
  induction n as [|n IH]; intros Hnd Hi Hj Hxi Hxj; [lia|].
  rewrite seq_S, fmap_app, join_app in Hnd. cbn [fmap list_fmap mjoin list_join Nat.add] in Hnd.
  rewrite app_nil_r in Hnd. apply NoDup_app in Hnd as (Hnd & Hd & _).
  assert (forall a, (a < n)%nat -> x ∈ f a -> x ∉ f n) as Hno.
  { intros a Ha Hxa. apply Hd. apply list_elem_of_join. exists (f a). split; [done|].
    apply list_elem_of_fmap. exists a. split; [done|]. apply elem_of_seq. lia. }
  destruct (decide (i = n)) as [->|], (decide (j = n)) as [->|]; [done|..].
  - exfalso. by apply (Hno j ltac:(lia) Hxj).
  - exfalso. by apply (Hno i ltac:(lia) Hxi).
  - apply IH; try done; lia.
Qed.

(** No two live tasks hold the same endpoint. *)
Lemma endpoint_unique (k : Kernel) (i j : nat) (e : Z) :
  kernel_wf k -> e ∈ endpoints_of (k_tasks k) i -> e ∈ endpoints_of (k_tasks k) j -> i = j.
Proof.
  intros [_ _ [lk Hids] _] Hi Hj. pose proof (iwf_live _ _ Hids) as Hnd. apply NoDup_app in Hnd as (Hnd & _ & _).
  apply (NoDup_join (endpoints_of (k_tasks k)) MAX_TASKS i j e Hnd); try done.
  - apply endpoints_of_elem in Hi as [Ha _]. by apply alive_lt in Ha.
  - apply endpoints_of_elem in Hj as [Ha _]. by apply alive_lt in Ha.
Qed.

End KernelFacts.
