(* ===== verification/Abi.v ===== *)
(** * The system-call boundary

    [kernel/src/arch/x86_64/syscall_entry.rs] ([validate_user_ptr],
    [read_user_bytes], [write_user_bytes]) and the error codes of
    [kernel/src/syscall/dispatch.rs].  A copy from an unmapped page kills the
    caller and does not return, so the memory of the model is total; it is
    indexed by the number of the fetch, since the caller may rewrite it between
    two of them. *)

From S2P Require Import Prelude Capability Queue.

Definition USER_END : Z := 140737488355328.

(** The caller's memory at one moment: a byte for each address. *)
Notation UserMem := (Z -> Z) (only parsing).

Definition validate_user_ptr (ptr len : Z) : bool :=
  if (ptr =? 0) || (len =? 0) then false
  else if USER_END <=? ptr then false
  else match checked_add64 ptr len with
       | Some e => e <=? USER_END
       | None => false
       end.

Definition bytes_at (mem : UserMem) (ptr len : Z) : list Z :=
  (fun i => mem (ptr + Z.of_nat i)) <$> seq 0 (Z.to_nat len).

(** The copy in the core's scratch page. *)
Definition read_user_bytes (mem : UserMem) (ptr len : Z) : option (list Z) :=
  if negb (validate_user_ptr ptr len) then None
  else if Z.of_nat MAX_MESSAGE_SIZE <? len then None
  else Some (bytes_at mem ptr len).

Definition write_user_bytes (mem : UserMem) (dst : Z) (src : list Z) : option UserMem :=
  if negb (validate_user_ptr dst (Z.of_nat (length src))) then None
  else Some (fun a => if (dst <=? a) && (a <? dst + Z.of_nat (length src))
                      then default 0 (src !! Z.to_nat (a - dst)) else mem a).

(** ** Error codes *)

Definition cap_err_to_i64 (e : CapError) : Z :=
  match e with
  | CapNotHeld => -2
  | CapInsufficientRights => -3
  | CapNotGrantable => -4
  | CapWrongScope => -5
  | CapRevoked => -6
  | EndpointDead => -7
  | GenerationMismatch => -6
  end.

Definition ipc_err_to_i64 (e : IpcError) : Z :=
  match e with
  | IpcError.EndpointDead => -7
  | IpcError.QueueFull => -8
  | IpcError.QueueEmpty => -9
  | IpcError.MessageTooLarge => -10
  | IpcError.ReplyDead => -12
  | IpcError.Cap ce => cap_err_to_i64 ce
  end.

Module AbiFacts.

Lemma read_user_length (mem : UserMem) (ptr len : Z) (b : list Z) :
  read_user_bytes mem ptr len = Some b -> b = bytes_at mem ptr len /\ length b = Z.to_nat len /\
  len <= Z.of_nat MAX_MESSAGE_SIZE.
Proof.
  unfold read_user_bytes. case_match; [done|]. case_match eqn:Hl; [done|]. apply Z.ltb_ge in Hl. intros [= <-].
  split_and!; [done| |done]. unfold bytes_at. by rewrite length_fmap, length_seq.
Qed.

(** What a task wrote where the kernel reads is what the kernel reads. *)
Lemma bytes_at_lookup (mem : UserMem) (ptr : Z) (b : list Z) :
  (forall i x, b !! i = Some x -> mem (ptr + Z.of_nat i) = x) -> bytes_at mem ptr (Z.of_nat (length b)) = b.
Proof.
  intros H. apply list_eq. intros i. unfold bytes_at. rewrite Nat2Z.id, list_lookup_fmap.
  destruct (b !! i) as [x|] eqn:Hx.
  - rewrite lookup_seq_lt by (by eapply lookup_lt_Some). cbn. by rewrite (H i x Hx).
  - rewrite lookup_seq_ge; [done|]. by apply lookup_ge_None.
Qed.

Lemma write_then_read (mem mem' : UserMem) (dst : Z) (src : list Z) :
  write_user_bytes mem dst src = Some mem' -> (length src <= MAX_MESSAGE_SIZE)%nat ->
  read_user_bytes mem' dst (Z.of_nat (length src)) = Some src.
Proof.
  unfold write_user_bytes, read_user_bytes. intros H Hl. case_match; [done|]. injection H as <-.
  rewrite (proj2 (Z.ltb_ge _ _)) by lia. f_equal. apply bytes_at_lookup. intros i x Hx.
  pose proof (lookup_lt_Some _ _ _ Hx). rewrite (proj2 (Z.leb_le _ _)), (proj2 (Z.ltb_lt _ _)) by lia. cbn.
  replace (Z.to_nat (dst + Z.of_nat i - dst)) with i by lia. by rewrite Hx.
Qed.

End AbiFacts.
