(* ===== verification/PageTables.v ===== *)
(** * Address spaces

    [kernel/src/arch/x86_64/page_tables.rs]: the four-level page tables of
    x86-64, with the frame allocator they take their frames from.  Physical
    memory is a map from word numbers to 64-bit words; the kernel reaches all
    of it through the direct map, so a table entry is one word.  The proofs are
    in [AddressSpaces]. *)

From S2P Require Import Prelude Prog Frames.

Inductive MapError := FrameAllocFailed | AlreadyMapped | NotMapped.

#[export] Instance MapError_eq_dec : EqDecision MapError.
Proof. solve_decision. Defined.

Definition PAGE_SIZE : Z := 4096.

Module PageFlags.
Definition PRESENT : Z := Z.shiftl 1 0.
Definition WRITABLE : Z := Z.shiftl 1 1.
Definition USER : Z := Z.shiftl 1 2.
Definition PWT : Z := Z.shiftl 1 3.
Definition PCD : Z := Z.shiftl 1 4.
Definition WRITE_COMBINE : Z := Z.shiftl 1 5.
Definition NO_EXEC : Z := Z.shiftl 1 63.
End PageFlags.

(** ** Physical memory *)

Definition Ram : Type := Z -> Z.

Definition read_entry (ram : Ram) (table : Z) (index : nat) : Z := ram (table / 8 + Z.of_nat index).

Definition write_entry (ram : Ram) (table : Z) (index : nat) (value : Z) : Ram :=
  fun w => if w =? table / 8 + Z.of_nat index then value else ram w.

(** The loop that writes 0 to the 512 words of a frame. *)
Definition zero_frame (ram : Ram) (phys : Z) : Ram :=
  fun w => if (phys / 8 <=? w) && (w <? phys / 8 + 512) then 0 else ram w.

Record Machine := mkMachine {
  m_alloc : BitmapAllocator;
  m_ram : Ram
}.

Definition on_ram (f : Ram -> Ram) (m : Machine) : Machine := mkMachine (m_alloc m) (f (m_ram m)).

(** [alloc_frame().ok_or(e)?] *)
Definition take_frame {E} (e : E) : Prog Machine E Z :=
  f <- M_outcome (fun m => '(a, f) ← alloc (m_alloc m); Done (mkMachine a (m_ram m), f)) ;;
  match f with Some f => M_ret f | None => M_fail e end.

(** ** The levels of an address *)

Definition pml4_idx (va : Z) : nat := Z.to_nat (Z.land (Z.shiftr va 39) 0x1FF).
Definition pdpt_idx (va : Z) : nat := Z.to_nat (Z.land (Z.shiftr va 30) 0x1FF).
Definition pd_idx (va : Z) : nat := Z.to_nat (Z.land (Z.shiftr va 21) 0x1FF).
Definition pt_idx (va : Z) : nat := Z.to_nat (Z.land (Z.shiftr va 12) 0x1FF).

(** [phys & !0xFFF] *)
Definition page_base (phys : Z) : Z := Z.land phys (Z.lnot 0xFFF).

(** Follow an entry, refusing a table or a child outside RAM. *)
Definition walk (a : BitmapAllocator) (ram : Ram) (table_phys : Z) (idx : nat) : option Z :=
  if negb (phys_in_ram a table_phys) then None
  else
    let entry := read_entry ram table_phys idx in
    if negb (entry_present entry) then None
    else if negb (phys_in_ram a (entry_phys entry)) then None
    else Some (entry_phys entry).

(** Follow an entry, or attach a new zeroed table there. *)
Definition walk_or_alloc (table_phys : Z) (idx : nat) (flags : Z) : Prog Machine MapError Z :=
  entry <- M_gets (fun m => read_entry (m_ram m) table_phys idx) ;;
  if entry_present entry then
    if entry_huge entry then M_fail AlreadyMapped else M_ret (entry_phys entry)
  else
    child <- take_frame FrameAllocFailed ;;
    M_modify (on_ram (fun ram => zero_frame ram child)) ;;;
    M_modify (on_ram (fun ram => write_entry ram table_phys idx (Z.lor child flags))) ;;;
    M_ret child.

(** ** [PageTable]: the physical address of its root *)

Module PageTable.

Definition copy_entry (from to : Z) (ram : Ram) (i : nat) : Ram := write_entry ram to i (read_entry ram from i).

(** A zeroed root whose upper half is the active one's. *)
Definition new (cr3 : Z) : Prog Machine MapError Z :=
  root <- take_frame FrameAllocFailed ;;
  M_modify (on_ram (fun ram => zero_frame ram root)) ;;;
  M_modify (on_ram (fun ram => foldl (copy_entry (page_base cr3) root) ram (seq 256 256))) ;;;
  M_ret root.

Definition inter_flags (va : Z) : Z :=
  Z.lor (Z.lor PageFlags.PRESENT PageFlags.WRITABLE) (if va <? Z.shiftl 1 47 then PageFlags.USER else 0).

Definition map (root va phys flags : Z) : Prog Machine MapError unit :=
  pdpt_phys <- walk_or_alloc root (pml4_idx va) (inter_flags va) ;;
  pd_phys <- walk_or_alloc pdpt_phys (pdpt_idx va) (inter_flags va) ;;
  pt_phys <- walk_or_alloc pd_phys (pd_idx va) (inter_flags va) ;;
  existing <- M_gets (fun m => read_entry (m_ram m) pt_phys (pt_idx va)) ;;
  if entry_present existing then M_fail AlreadyMapped
  else M_modify (on_ram (fun ram => write_entry ram pt_phys (pt_idx va) (Z.lor (page_base phys) flags))).

Definition found {A} (o : option A) : Prog Machine MapError A :=
  match o with Some a => M_ret a | None => M_fail NotMapped end.

Definition unmap (root va : Z) : Prog Machine MapError Z :=
  pdpt_phys <- M_gets (fun m => walk (m_alloc m) (m_ram m) root (pml4_idx va)) ;;
  pdpt_phys <- found pdpt_phys ;;
  pd_phys <- M_gets (fun m => walk (m_alloc m) (m_ram m) pdpt_phys (pdpt_idx va)) ;;
  pd_phys <- found pd_phys ;;
  pt_phys <- M_gets (fun m => walk (m_alloc m) (m_ram m) pd_phys (pd_idx va)) ;;
  pt_phys <- found pt_phys ;;
  pte <- M_gets (fun m => read_entry (m_ram m) pt_phys (pt_idx va)) ;;
  if negb (entry_present pte) then M_fail NotMapped
  else
    M_modify (on_ram (fun ram => write_entry ram pt_phys (pt_idx va) 0)) ;;;
    M_ret (entry_phys pte).

End PageTable.

(** ** The active tables *)

Definition map_in_active_tables (cr3 virt phys flags : Z) : Prog Machine MapError unit :=
  pdpt <- walk_or_alloc (page_base cr3) (pml4_idx virt) (PageTable.inter_flags virt) ;;
  pd <- walk_or_alloc pdpt (pdpt_idx virt) (PageTable.inter_flags virt) ;;
  pt <- walk_or_alloc pd (pd_idx virt) (PageTable.inter_flags virt) ;;
  M_modify (on_ram (fun ram =>
    if entry_present (read_entry ram pt (pt_idx virt)) then ram
    else write_entry ram pt (pt_idx virt) (Z.lor (page_base phys) flags))).

(** The entry that maps [virt], stopping at a large page. *)
Definition entry_for_va (a : BitmapAllocator) (ram : Ram) (cr3 virt : Z) : option Z :=
  pdpt ← walk a ram (page_base cr3) (pml4_idx virt);
  let pdpt_e := read_entry ram pdpt (pdpt_idx virt) in
  if negb (entry_present pdpt_e) then None
  else if entry_huge pdpt_e then Some pdpt_e
  else
    let pd_e := read_entry ram (entry_phys pdpt_e) (pd_idx virt) in
    if negb (entry_present pd_e) then None
    else if entry_huge pd_e then Some pd_e
    else
      let pt_e := read_entry ram (entry_phys pd_e) (pt_idx virt) in
      if entry_present pt_e then Some pt_e else None.

Definition unmap_active_4k (cr3 virt : Z) (m : Machine) : Machine :=
  match walk (m_alloc m) (m_ram m) (page_base cr3) (pml4_idx virt) with
  | None => m
  | Some pdpt =>
      let pdpt_e := read_entry (m_ram m) pdpt (pdpt_idx virt) in
      if negb (entry_present pdpt_e) || entry_huge pdpt_e then m
      else
        let pd_e := read_entry (m_ram m) (entry_phys pdpt_e) (pd_idx virt) in
        if negb (entry_present pd_e) || entry_huge pd_e then m
        else on_ram (fun ram => write_entry ram (entry_phys pd_e) (pt_idx virt) 0) m
  end.

(** The guard pages below the kernel stacks. *)
Definition unmap_4k_strided (cr3 base stride : Z) (count : nat) (m : Machine) : Machine :=
  foldl (fun m i => unmap_active_4k cr3 (base + Z.of_nat i * stride) m) m (seq 0 count).

(** ** No code in the direct map *)

Definition NX : Z := Z.shiftl 1 63.

Definition harden_pte (pt : Z) (ram : Ram) (k : nat) : Ram :=
  let e3 := read_entry ram pt k in
  if entry_present e3 then write_entry ram pt k (Z.lor e3 NX) else ram.

Definition harden_pde (pd : Z) (ram : Ram) (j : nat) : Ram :=
  let e2 := read_entry ram pd j in
  if negb (entry_present e2) then ram
  else if entry_huge e2 then write_entry ram pd j (Z.lor e2 NX)
  else foldl (harden_pte (entry_phys e2)) ram (seq 0 512).

Definition harden_pdpte (pdpt : Z) (ram : Ram) (i : nat) : Ram :=
  let e := read_entry ram pdpt i in
  if negb (entry_present e) then ram
  else if entry_huge e then write_entry ram pdpt i (Z.lor e NX)
  else foldl (harden_pde (entry_phys e)) ram (seq 0 512).

Definition harden_hhdm_nx (cr3 hhdm : Z) (m : Machine) : Machine :=
  if hhdm =? 0 then m
  else match walk (m_alloc m) (m_ram m) (page_base cr3) (pml4_idx hhdm) with
       | None => m
       | Some pdpt => on_ram (fun ram => foldl (harden_pdpte pdpt) ram (seq 0 512)) m
       end.

(** ** Reclaim at task death *)

(** An uncached leaf is device memory, not an allocator's frame. *)
Definition uncached (pte : Z) : bool := negb (Z.land pte (Z.shiftl 1 4) =? 0).

Section Reclaim.
Variable ram : Ram.

Definition reclaim_pte (pt_phys : Z) (acc : BitmapAllocator * Z) (pt_i : nat) : BitmapAllocator * Z :=
  let pte := read_entry ram pt_phys pt_i in
  if negb (entry_present pte) then acc
  else if uncached pte then acc
  else (free acc.1 (entry_phys pte), acc.2 + 1).

Definition reclaim_pde (pd_phys : Z) (acc : BitmapAllocator * Z) (pd_i : nat) : BitmapAllocator * Z :=
  match walk acc.1 ram pd_phys pd_i with
  | None => acc
  | Some pt_phys =>
      let acc := foldl (reclaim_pte pt_phys) acc (seq 0 512) in
      (free acc.1 pt_phys, acc.2 + 1)
  end.

Definition reclaim_pdpte (pdpt_phys : Z) (acc : BitmapAllocator * Z) (pdpt_i : nat) : BitmapAllocator * Z :=
  match walk acc.1 ram pdpt_phys pdpt_i with
  | None => acc
  | Some pd_phys =>
      let acc := foldl (reclaim_pde pd_phys) acc (seq 0 512) in
      (free acc.1 pd_phys, acc.2 + 1)
  end.

Definition reclaim_pml4e (pml4_phys : Z) (acc : BitmapAllocator * Z) (pml4_i : nat) : BitmapAllocator * Z :=
  match walk acc.1 ram pml4_phys pml4_i with
  | None => acc
  | Some pdpt_phys =>
      let acc := foldl (reclaim_pdpte pdpt_phys) acc (seq 0 512) in
      (free acc.1 pdpt_phys, acc.2 + 1)
  end.

End Reclaim.

(** The user half; the root itself is left to the caller. *)
Definition reclaim_user_frames (cr3 : Z) (m : Machine) : Machine * Z :=
  let '(a, freed) := foldl (reclaim_pml4e (m_ram m) (page_base cr3)) (m_alloc m, 0) (seq 0 256) in
  (mkMachine a (m_ram m), freed).

Definition free_page_table_root (root : Z) (m : Machine) : Machine :=
  mkMachine (free (m_alloc m) root) (m_ram m).

(** The kill path: the user frames, then the root. *)
Definition release_space (cr3 : Z) (m : Machine) : Machine :=
  let m := (reclaim_user_frames cr3 m).1 in
  if page_base cr3 =? 0 then m else free_page_table_root (page_base cr3) m.

(** ** The heap: one page, and the loop of [AllocMem] *)

Definition heap_flags : Z :=
  Z.lor (Z.lor PageFlags.PRESENT PageFlags.WRITABLE) (Z.lor PageFlags.USER PageFlags.NO_EXEC).

Definition alloc_page (cr3 va : Z) : Prog Machine MapError unit :=
  phys <- take_frame FrameAllocFailed ;;
  M_modify (on_ram (fun ram => zero_frame ram phys)) ;;;
  map_in_active_tables cr3 va phys heap_flags.

Fixpoint alloc_pages (cr3 va : Z) (pages : nat) : Prog Machine MapError unit :=
  match pages with
  | O => M_ret tt
  | S pages => alloc_page cr3 va ;;; alloc_pages cr3 (va + PAGE_SIZE) pages
  end.
