(* ===== verification/AddressSpaces.v ===== *)
(** * Isolation of address spaces

    What the page tables of [PageTables] mean to the processor, and what the
    kernel's use of them guarantees.  The user half of an address space is a
    tree: its root, up to three levels of tables below, and the pages.  The
    invariant [spaces_wf] says that the trees of all live spaces share no
    frame; [space_step] is one thing the kernel or a running task does. *)

From stdpp Require Import gmap.
From S2P Require Import Prelude Prog Frames Abi PageTables.
Import ProgFacts FrameFacts.

(** ** Bytes of memory *)

Definition load8 (ram : Ram) (pa : Z) : Z := default 0 (to_le_bytes 8 (ram (pa / 8)) !! Z.to_nat (pa mod 8)).

(** The word [w] after [l] is written from [pa] on. *)
Definition patched_word (ram : Ram) (pa : Z) (l : list Z) (w : Z) : list Z :=
  imap (fun k old => let a := 8 * w + Z.of_nat k in
                     if pa <=? a then default old (l !! Z.to_nat (a - pa)) else old)
       (to_le_bytes 8 (ram w)).

Definition write_bytes (ram : Ram) (pa : Z) (l : list Z) : Ram :=
  fun w => if (pa <? 8 * w + 8) && (8 * w <? pa + Z.of_nat (length l))
           then from_le_bytes (patched_word ram pa l w) else ram w.

(** ** The processor's view

    An access by a task: present and open to it at every level, and writable
    at every level for a store.  A large page ends the walk. *)

Definition permits (store : bool) (e : Z) : bool :=
  entry_present e && negb (Z.land e PageFlags.USER =? 0) &&
  (negb store || negb (Z.land e PageFlags.WRITABLE =? 0)).

Definition mmu (ram : Ram) (root : Z) (store : bool) (va : Z) : option Z :=
  let e4 := read_entry ram root (pml4_idx va) in
  if negb (permits store e4) then None
  else
    let e3 := read_entry ram (entry_phys e4) (pdpt_idx va) in
    if negb (permits store e3) then None
    else if entry_huge e3 then Some (entry_phys e3 + va mod Z.shiftl 1 30)
    else
      let e2 := read_entry ram (entry_phys e3) (pd_idx va) in
      if negb (permits store e2) then None
      else if entry_huge e2 then Some (entry_phys e2 + va mod Z.shiftl 1 21)
      else
        let e1 := read_entry ram (entry_phys e2) (pt_idx va) in
        if negb (permits store e1) then None else Some (entry_phys e1 + va mod PAGE_SIZE).

(** ** The tree of a space *)

Definition child (ram : Ram) (t : Z) (i : nat) : option Z :=
  if entry_present (read_entry ram t i) then Some (entry_phys (read_entry ram t i)) else None.

Fixpoint follow (ram : Ram) (t : Z) (p : list nat) : option Z :=
  match p with
  | [] => Some t
  | i :: p => c ← child ram t i; follow ram c p
  end.

(** Positions in the user half: the first index is below 256. *)
Definition upath (p : list nat) : Prop :=
  (length p <= 4)%nat /\ Forall (fun i => i < 512)%nat p /\ (forall i, head p = Some i -> (i < 256)%nat).

Definition user_va (va : Z) : Prop := 0 <= va < USER_END.

Definition tables_path (va : Z) : list nat := [pml4_idx va; pdpt_idx va; pd_idx va].
Definition va_path (va : Z) : list nat := tables_path va ++ [pt_idx va].

(** The bits a new entry adds to a frame's address. *)
Definition flags_ok (flags : Z) : bool := (Z.land flags PT_ADDR_MASK =? 0) && negb (Z.land flags 1 =? 0).

(** The flat map a space stands for: the entry of the page of [va]. *)
Definition lookup_pte (ram : Ram) (root va : Z) : option Z :=
  t ← follow ram root (tables_path va);
  if entry_present (read_entry ram t (pt_idx va)) then Some (read_entry ram t (pt_idx va)) else None.

(** A page of RAM that belongs to one space: cached, and not in an arena the
    allocator has set aside for good. *)
Definition private (a : BitmapAllocator) (e : Z) : Prop :=
  uncached e = false /\ ~ reserved_frame a (frame_idx (entry_phys e)).

Section Tree.
Variable m : Machine.

Definition table (r : Z) (p : list nat) (t : Z) : Prop :=
  upath p /\ (length p <= 3)%nat /\ follow (m_ram m) r p = Some t.

Definition leaf (r : Z) (p : list nat) (e : Z) : Prop :=
  exists q i t, p = q ++ [i] /\ upath p /\ length q = 3%nat /\ follow (m_ram m) r q = Some t /\
                read_entry (m_ram m) t i = e /\ entry_present e = true.

(** A frame of the space: a table or a private page. *)
Definition node (r : Z) (p : list nat) (f : Z) : Prop :=
  table r p f \/ exists e, leaf r p e /\ private (m_alloc m) e /\ f = entry_phys e.

(** Device memory or an arena, which any number of spaces may map. *)
Definition shared (r : Z) (p : list nat) (f : Z) : Prop :=
  exists e, leaf r p e /\ ~ private (m_alloc m) e /\ f = entry_phys e.

End Tree.

(** A frame in use that [free] takes back. *)
Definition in_use (a : BitmapAllocator) (f : Z) : Prop :=
  exists i : nat, f = Z.of_nat i * FRAME_SIZE /\ get_bit (BITMAP a) i = false /\ admissible a i /\
                  min_ram_frame a <= Z.of_nat i.

(** Physical addresses have 52 bits. *)
Record alloc_ok (a : BitmapAllocator) : Prop := mk_alloc_ok {
  ao_inv : alloc_inv a;
  ao_ram : max_ram_frame a <= Z.shiftl 1 40;
  ao_min : forall i, get_bit (BITMAP a) i = true -> min_ram_frame a <= Z.of_nat i
}.

(** An entry that leads to a table: no large page, and open to the task. *)
Definition inner_ok (e : Z) : bool := negb (entry_huge e) && permits true e.

Record spaces_wf (m : Machine) (roots : list Z) : Prop := mk_spaces_wf {
  sw_alloc : alloc_ok (m_alloc m);
  sw_use : forall r p f, r ∈ roots -> node m r p f -> in_use (m_alloc m) f;
  sw_inj : forall r1 r2 p1 p2 f, r1 ∈ roots -> r2 ∈ roots -> node m r1 p1 f -> node m r2 p2 f ->
             r1 = r2 /\ p1 = p2;
  sw_inner : forall r p t i, r ∈ roots -> table m r p t -> upath (p ++ [i]) -> (length p < 3)%nat ->
               entry_present (read_entry (m_ram m) t i) = true -> inner_ok (read_entry (m_ram m) t i) = true;
  sw_shared : forall r p f, r ∈ roots -> shared m r p f ->
                get_bit (BITMAP (m_alloc m)) (frame_idx f) = false /\
                forall r' p', r' ∈ roots -> ~ node m r' p' f
}.

(** A frame in use that no space has. *)
Definition fresh (m : Machine) (roots : list Z) (c : Z) : Prop :=
  in_use (m_alloc m) c /\ forall r p, r ∈ roots -> ~ node m r p c /\ ~ shared m r p c.

Module SpaceFacts.

#[local] Arguments read_entry : simpl never.
#[local] Arguments write_entry : simpl never.
#[local] Arguments zero_frame : simpl never.
#[local] Arguments entry_present : simpl never.
#[local] Arguments entry_huge : simpl never.
#[local] Arguments entry_phys : simpl never.
#[local] Arguments take_frame : simpl never.

(** ** Entries *)

Lemma entry_word (t t' : Z) (i j : nat) :
  t mod 4096 = 0 -> t' mod 4096 = 0 -> (i < 512)%nat -> (j < 512)%nat ->
  t / 8 + Z.of_nat i = t' / 8 + Z.of_nat j -> t = t' /\ i = j.
Proof. intros. split; dlia. Qed.

Lemma read_write_eq (ram : Ram) (t v : Z) (i : nat) : read_entry (write_entry ram t i v) t i = v.
Proof. unfold read_entry, write_entry. by rewrite Z.eqb_refl. Qed.

Lemma read_write_ne (ram : Ram) (t t' v : Z) (i j : nat) :
  t mod 4096 = 0 -> t' mod 4096 = 0 -> (i < 512)%nat -> (j < 512)%nat -> ~ (t' = t /\ j = i) ->
  read_entry (write_entry ram t i v) t' j = read_entry ram t' j.
Proof.
  intros Ht Ht' Hi Hj Hne. unfold read_entry, write_entry. destruct (Z.eqb_spec (t' / 8 + Z.of_nat j) (t / 8 + Z.of_nat i)) as [E|]; [|done].
  apply entry_word in E; try done; tauto.
Qed.

Lemma read_zero_eq (ram : Ram) (t : Z) (i : nat) : (i < 512)%nat -> read_entry (zero_frame ram t) t i = 0.
Proof.
  intros Hi. unfold read_entry, zero_frame. destruct (_ && _) eqn:E; [done|]. to_prop. destruct E as [E|E]; to_prop; lia.
Qed.

Lemma read_zero_ne (ram : Ram) (t t' : Z) (j : nat) :
  t mod 4096 = 0 -> t' mod 4096 = 0 -> (j < 512)%nat -> t' <> t ->
  read_entry (zero_frame ram t) t' j = read_entry ram t' j.
Proof.
  intros Ht Ht' Hj Hne. unfold read_entry, zero_frame. destruct (_ && _) eqn:E; [|done]. to_prop. exfalso. apply Hne. dlia.
Qed.

Lemma entry_phys_aligned (e : Z) : entry_phys e mod 4096 = 0.
Proof.
  unfold entry_phys, PT_ADDR_MASK. change 4096 with (2 ^ 12). rewrite <- Z.land_ones, <- Z.land_assoc by lia.
  change (Z.land 0xFFFFFFFFFF000 (Z.ones 12)) with 0. by rewrite Z.land_0_r.
Qed.

Lemma entry_phys_bound (e : Z) : 0 <= entry_phys e < 2 ^ 52.
Proof.
  unfold entry_phys, PT_ADDR_MASK. change 0xFFFFFFFFFF000 with (Z.land (Z.ones 52) (Z.lnot 4095)).
  rewrite Z.land_assoc, Z.land_comm, Z.land_ones by lia. rewrite Z.land_comm.
  pose proof (Z.mod_pos_bound e (2 ^ 52) ltac:(lia)). rewrite Z.land_comm. change (Z.lnot 4095) with (Z.lnot (FRAME_SIZE - 1)).
  rewrite Z.land_comm, align_down_eq. unfold FRAME_SIZE. dlia.
Qed.

Lemma sw_small (m : Machine) (roots : list Z) (W : spaces_wf m roots) (r : Z) (p : list nat) (t : Z) (i : nat) :
  r ∈ roots -> table m r p t -> upath (p ++ [i]) -> (length p < 3)%nat ->
  entry_present (read_entry (m_ram m) t i) = true -> entry_huge (read_entry (m_ram m) t i) = false.
Proof. intros Hr Ht Hu Hl Hp. pose proof (sw_inner _ _ W r p t i Hr Ht Hu Hl Hp) as H. unfold inner_ok in H. by to_prop. Qed.

Lemma page_base_eq (x : Z) : page_base x = x / 4096 * 4096.
Proof. exact (align_down_eq x). Qed.

Lemma entry_phys_lor (c flags : Z) :
  c mod 4096 = 0 -> 0 <= c < 2 ^ 52 -> flags_ok flags = true -> entry_phys (Z.lor c flags) = c.
Proof.
  unfold flags_ok. intros Hc Hb Hf. to_prop. unfold entry_phys. rewrite Z.land_lor_distr_l.
  rewrite (H : Z.land flags PT_ADDR_MASK = 0), Z.lor_0_r. unfold PT_ADDR_MASK.
  change 0xFFFFFFFFFF000 with (Z.land (Z.ones 52) (Z.lnot (FRAME_SIZE - 1))).
  rewrite Z.land_assoc, Z.land_ones, Z.mod_small by lia. rewrite align_down_eq. unfold FRAME_SIZE. dlia.
Qed.

Lemma low_bit_page (c k : Z) : c mod 4096 = 0 -> 0 <= k < 12 -> Z.land c (Z.shiftl 1 k) = 0.
Proof.
  intros Hc Hk. apply Z.bits_inj'. intros n Hn. rewrite Z.land_spec, Z.bits_0, Z.shiftl_1_l.
  destruct (decide (n = k)) as [->|Hne]; [|by rewrite Z.pow2_bits_false, andb_false_r by lia].
  replace (Z.testbit c k) with false; [done|]. replace c with (c / 4096 * 2 ^ 12) by dlia.
  by rewrite Z.mul_pow2_bits_low by lia.
Qed.

Lemma entry_flag_lor (c flags k : Z) :
  c mod 4096 = 0 -> 0 <= k < 12 -> Z.land (Z.lor c flags) (Z.shiftl 1 k) = Z.land flags (Z.shiftl 1 k).
Proof. intros. by rewrite Z.land_lor_distr_l, low_bit_page. Qed.

Lemma entry_present_lor (c flags : Z) :
  c mod 4096 = 0 -> flags_ok flags = true -> entry_present (Z.lor c flags) = true.
Proof.
  unfold flags_ok, entry_present. intros Hc Hf. to_prop. change 1 with (Z.shiftl 1 0).
  rewrite entry_flag_lor by (try done; lia). change (Z.shiftl 1 0) with 1. apply negb_true_iff. by apply Z.eqb_neq.
Qed.

Lemma inner_ok_lor (c flags : Z) : c mod 4096 = 0 -> inner_ok (Z.lor c flags) = inner_ok flags.
Proof.
  intros Hc. unfold inner_ok, permits, entry_huge, entry_present. change 1 with (Z.shiftl 1 0) at 2 4.
  unfold PageFlags.USER, PageFlags.WRITABLE. by rewrite !entry_flag_lor by (try done; lia).
Qed.

(** ** Following a path *)

Lemma follow_app (ram : Ram) (r : Z) (p q : list nat) :
  follow ram r (p ++ q) = (t ← follow ram r p; follow ram t q).
Proof. revert r. induction p as [|i p IH]; intros r; [done|]. simpl. destruct (child ram r i); simpl; [apply IH|done]. Qed.

Lemma follow_snoc (ram : Ram) (r : Z) (p : list nat) (i : nat) :
  follow ram r (p ++ [i]) = (t ← follow ram r p; child ram t i).
Proof. rewrite follow_app. destruct (follow ram r p); [|done]. simpl. by destruct (child _ _ _). Qed.

Lemma follow_ext (ram ram' : Ram) (r : Z) (p : list nat) :
  (forall p' j s t, p = p' ++ j :: s -> follow ram r p' = Some t -> read_entry ram' t j = read_entry ram t j) ->
  follow ram' r p = follow ram r p.
Proof.
  revert r. induction p as [|i p IH]; intros r H; [done|]. simpl. unfold child.
  rewrite (H [] i p r eq_refl eq_refl). destruct (entry_present _) eqn:E; [|done]. simpl. apply IH.
  intros p' j s t -> Ht. apply (H (i :: p') j s); [done|]. simpl. unfold child. by rewrite E.
Qed.

Lemma follow_aligned (ram : Ram) (r t : Z) (p : list nat) :
  r mod 4096 = 0 -> follow ram r p = Some t -> t mod 4096 = 0.
Proof.
  intros Hr. induction p as [|i p IH] using rev_ind; [intros [= <-]; done|]. rewrite follow_snoc.
  destruct (follow ram r p) as [u|]; [|done]. simpl. unfold child. destruct (entry_present _); [|done].
  intros [= <-]. apply entry_phys_aligned.
Qed.

Lemma upath_app (p q : list nat) : upath (p ++ q) -> upath p.
Proof.
  intros (Hl & Hf & Hh). rewrite length_app in Hl. apply Forall_app in Hf as [Hf _]. split_and!; [lia|done|].
  intros i Hi. apply Hh. destruct p; [done|]. exact Hi.
Qed.

Lemma upath_index (p s : list nat) (i : nat) : upath (p ++ i :: s) -> (i < 512)%nat.
Proof. intros (_ & Hf & _). apply Forall_app in Hf as [_ Hf]. by apply Forall_cons in Hf as [? _]. Qed.

Lemma upath_nil : upath [].
Proof. split_and!; [simpl; lia|done|done]. Qed.

(** ** Frames in use *)

Lemma in_use_aligned (a : BitmapAllocator) (f : Z) : in_use a f -> f mod 4096 = 0.
Proof. intros (i & -> & _). unfold FRAME_SIZE. dlia. Qed.

Lemma in_use_bound (a : BitmapAllocator) (f : Z) : alloc_ok a -> in_use a f -> 0 <= f < 2 ^ 52.
Proof.
  intros [Hi Hr _] (i & -> & _ & (Hv & _) & _). pose proof (ai_valid _ Hi). unfold FRAME_SIZE.
  change (Z.shiftl 1 40) with (2 ^ 40) in Hr. lia.
Qed.

Lemma in_use_bit (a : BitmapAllocator) (f : Z) : in_use a f -> get_bit (BITMAP a) (frame_idx f) = false.
Proof. intros (i & -> & Hb & _). by rewrite frame_idx_mul. Qed.

Lemma in_use_ram (a : BitmapAllocator) (f : Z) : alloc_ok a -> in_use a f -> phys_in_ram a f = true.
Proof.
  intros [Hi _ _] (i & -> & _ & (Hv & _) & Hm). pose proof (ai_valid _ Hi). unfold phys_in_ram.
  rewrite Z.div_mul by done. apply andb_true_iff. split; [apply Z.leb_le|apply Z.ltb_lt]; lia.
Qed.

Lemma in_use_accepts (a : BitmapAllocator) (f : Z) : alloc_ok a -> in_use a f -> accepts a f = true.
Proof.
  intros [Hi _ _] (i & -> & _ & (Hv & Hk & Hd & _) & _). pose proof (ai_valid _ Hi). unfold accepts.
  rewrite frame_idx_mul. unfold frame_number. rewrite Z.div_mul by done. rewrite Hk. unfold reserved_frame in Hd.
  destruct (existsb _ _); [done|]. rewrite !andb_true_iff. split_and!; try done; apply Z.ltb_lt; lia.
Qed.

(** Two frames in use are the same when their numbers are. *)
Lemma in_use_idx (a a' : BitmapAllocator) (f g : Z) : in_use a f -> in_use a' g -> frame_idx f = frame_idx g -> f = g.
Proof. intros (i & -> & _) (j & -> & _). rewrite !frame_idx_mul. by intros ->. Qed.

Section Wf.
Context {m : Machine} {roots : list Z} (W : spaces_wf m roots).

Lemma root_node (r : Z) : node m r [] r.
Proof. left. split_and!; [apply upath_nil|simpl; lia|done]. Qed.

Lemma root_aligned (r : Z) : r ∈ roots -> r mod 4096 = 0.
Proof. intros Hr. eapply in_use_aligned, (sw_use _ _ W); [done|]. apply root_node. Qed.

Lemma table_aligned (r : Z) (p : list nat) (t : Z) : r ∈ roots -> table m r p t -> t mod 4096 = 0.
Proof. intros Hr (_ & _ & Ht). eapply follow_aligned; [|done]. by apply root_aligned. Qed.

Lemma table_inj (r1 r2 : Z) (p1 p2 : list nat) (t : Z) :
  r1 ∈ roots -> r2 ∈ roots -> table m r1 p1 t -> table m r2 p2 t -> r1 = r2 /\ p1 = p2.
Proof. intros. eapply (sw_inj _ _ W); try done; by left. Qed.

(** Memory that agrees on the tables gives the same trees. *)
Definition same_tables (ram' : Ram) : Prop :=
  forall r p t i, r ∈ roots -> table m r p t -> (i < 512)%nat -> read_entry ram' t i = read_entry (m_ram m) t i.

Lemma same_follow (ram' : Ram) (r : Z) (p : list nat) :
  same_tables ram' -> r ∈ roots -> upath p -> follow ram' r p = follow (m_ram m) r p.
Proof.
  intros Hs Hr Hp. apply follow_ext. intros p' j s t -> Ht. apply (Hs r p'); [done| |by eapply upath_index].
  split_and!; [by eapply upath_app| |done]. destruct Hp as (Hl & _). rewrite length_app in Hl. simpl in Hl. lia.
Qed.

Lemma same_table (a' : BitmapAllocator) (ram' : Ram) (r : Z) (p : list nat) (t : Z) :
  same_tables ram' -> r ∈ roots -> table (mkMachine a' ram') r p t <-> table m r p t.
Proof.
  intros Hs Hr. unfold table. simpl. split; intros (Hp & Hl & Hf); split_and!; try done; [rewrite <- Hf; symmetry|rewrite <- Hf];
    by apply same_follow.
Qed.

Lemma same_leaf (a' : BitmapAllocator) (ram' : Ram) (r : Z) (p : list nat) (e : Z) :
  same_tables ram' -> r ∈ roots -> leaf (mkMachine a' ram') r p e <-> leaf m r p e.
Proof.
  intros Hs Hr.
  assert (forall q i t, upath (q ++ [i]) -> length q = 3%nat -> follow (m_ram m) r q = Some t ->
            follow ram' r q = Some t /\ read_entry ram' t i = read_entry (m_ram m) t i) as Hq.
  { intros q i t Hu Hl Hf. pose proof (upath_app _ _ Hu) as Hu'. split; [rewrite <- Hf; by apply same_follow|].
    apply (Hs r q); [done| |by eapply upath_index]. split_and!; [done|lia|done]. }
  split; intros (q & i & t & -> & Hu & Hl & Hf & <- & He); exists q, i, t; simpl in *.
  - rewrite (same_follow ram' r q Hs Hr (upath_app _ _ Hu)) in Hf. destruct (Hq q i t Hu Hl Hf) as [_ Hr'].
    split_and!; done.
  - destruct (Hq q i t Hu Hl Hf) as [Hf' Hr']. split_and!; done.
Qed.

Lemma wf_same (a' : BitmapAllocator) (ram' : Ram) :
  same_tables ram' -> alloc_ok a' -> (forall i, reserved_frame a' i <-> reserved_frame (m_alloc m) i) ->
  (forall r p f, r ∈ roots -> node m r p f -> in_use a' f) ->
  (forall r p f, r ∈ roots -> shared m r p f -> get_bit (BITMAP a') (frame_idx f) = false) ->
  spaces_wf (mkMachine a' ram') roots.
Proof.
  intros Hs Ha Hd Hn Hb.
  assert (forall e, private a' e <-> private (m_alloc m) e) as Hp by (intros e; unfold private; by rewrite Hd).
  assert (forall r p f, r ∈ roots -> node (mkMachine a' ram') r p f <-> node m r p f) as Hnode.
  { intros r p f Hr. unfold node. rewrite same_table by done. simpl. setoid_rewrite Hp. by setoid_rewrite same_leaf. }
  split; simpl.
  - done.
  - intros r p f Hr Hf. apply (Hn r p); [done|]. by apply Hnode.
  - intros r1 r2 p1 p2 f H1 H2 Hf1 Hf2. apply (sw_inj _ _ W _ _ _ _ f); try done; by apply Hnode.
  - intros r p t i Hr Ht Hu Hl. apply (proj1 (same_table a' _ _ _ _ Hs Hr)) in Ht. rewrite (Hs r p) by (try done; by eapply upath_index).
    by apply (sw_inner _ _ W r p).
  - intros r p f Hr Hf. assert (shared m r p f) as Hf'.
    { destruct Hf as (e & Hl & Hnp & ->). exists e. split_and!; [by apply (same_leaf a' ram' r p e Hs Hr)|by rewrite <- Hp|done]. }
    split; [by apply (Hb r p)|]. intros r' p' Hr' Hn'. apply Hnode in Hn'; [|done].
    by apply (proj2 (sw_shared _ _ W r p f Hr Hf') r' p').
Qed.

End Wf.

(** ** Attaching a child

    The entry [i] of the table [t] at [q] becomes present. *)
Section Attach.
Context {m : Machine} {roots : list Z} (W : spaces_wf m roots).
Context (r : Z) (q : list nat) (i : nat) (t v : Z).
Hypothesis (Hr : r ∈ roots) (Ht : table m r q t) (Hu : upath (q ++ [i])).
Hypothesis (Habs : entry_present (read_entry (m_ram m) t i) = false) (Hv : entry_present v = true).

Definition blank (c : Z) : Prop :=
  (forall j, (j < 512)%nat -> entry_present (read_entry (m_ram m) c j) = false) /\ inner_ok v = true /\
  forall r' p', r' ∈ roots -> ~ node m r' p' c.

Hypothesis (Hc : (length q < 3)%nat -> blank (entry_phys v)).

Definition attached : Machine := mkMachine (m_alloc m) (write_entry (m_ram m) t i v).

Lemma attach_read (r' : Z) (p : list nat) (t' : Z) (j : nat) :
  r' ∈ roots -> table m r' p t' -> (j < 512)%nat -> ~ (r' = r /\ p = q /\ j = i) ->
  read_entry (m_ram attached) t' j = read_entry (m_ram m) t' j.
Proof.
  intros Hr' Ht' Hj Hne. apply read_write_ne; [exact (table_aligned W _ _ _ Hr Ht)|exact (table_aligned W _ _ _ Hr' Ht')|by eapply upath_index|done|].
  intros [-> ->]. destruct (table_inj W r' r p q t Hr' Hr Ht' Ht) as [-> ->]. tauto.
Qed.

Lemma attach_follow_other (r' : Z) (p : list nat) :
  r' ∈ roots -> upath p -> ~ (r' = r /\ exists s, p = q ++ i :: s) ->
  follow (m_ram attached) r' p = follow (m_ram m) r' p.
Proof.
  intros Hr' Hp Hne. apply follow_ext. intros p' j s t' -> Ht'. apply (attach_read r' p'); [done| |by eapply upath_index|].
  - split_and!; [by eapply upath_app| |done]. destruct Hp as (Hl & _). rewrite length_app in Hl. simpl in Hl. lia.
  - intros (-> & -> & ->). apply Hne. split; [done|]. by exists s.
Qed.

Lemma attach_follow (r' : Z) (p : list nat) :
  r' ∈ roots -> upath p ->
  follow (m_ram attached) r' p = if decide (r' = r /\ p = q ++ [i]) then Some (entry_phys v) else follow (m_ram m) r' p.
Proof.
  intros Hr' Hp. destruct (decide (r' = r /\ take (S (length q)) p = q ++ [i])) as [[-> Hpre]|Hne].
  - rewrite <- (take_drop (S (length q)) p) in Hp |- *. rewrite Hpre in Hp |- *. set (s := drop _ p) in *. clearbody s.
    rewrite <- app_assoc in *. simpl in *. rewrite !follow_app, attach_follow_other; [|done|by eapply upath_app|].
    2: { intros (_ & s' & E). apply (f_equal length) in E. rewrite length_app in E. simpl in E. lia. }
    pose proof Ht as (_ & _ & Hf). rewrite Hf. simpl. unfold child at 1 2. rewrite Habs. cbn [attached m_ram]. rewrite read_write_eq, Hv.
    destruct s as [|j s]; [by rewrite decide_True|]. rewrite decide_False. 2: { intros (_ & E). apply app_inv_head in E. done. }
    assert (length q < 3)%nat as Hl by (destruct Hp as (Hl & _); rewrite length_app in Hl; simpl in Hl; lia).
    destruct (Hc Hl) as (Hz & _ & Hn). assert (j < 512)%nat by (apply (upath_index (q ++ [i]) s); by rewrite <- app_assoc). simpl. unfold child.
    rewrite read_write_ne, Hz; try done; [exact (table_aligned W _ _ _ Hr Ht)|apply entry_phys_aligned|by eapply upath_index|].
    intros [E _]. apply (Hn r q Hr). left. by rewrite E.
  - rewrite attach_follow_other; [| done | done |].
    + rewrite decide_False; [done|]. intros [-> ->]. apply Hne. split; [done|].
      by rewrite take_ge by (rewrite length_app; simpl; lia).
    + intros (-> & s & ->). apply Hne. split; [done|].
      replace (q ++ i :: s) with ((q ++ [i]) ++ s) by (by rewrite <- app_assoc).
      rewrite take_app_le, take_ge by (rewrite length_app; simpl; lia). done.
Qed.

Lemma attach_table (r' : Z) (p : list nat) (f : Z) :
  r' ∈ roots ->
  table attached r' p f <-> table m r' p f \/ ((length q < 3)%nat /\ r' = r /\ p = q ++ [i] /\ f = entry_phys v).
Proof.
  intros Hr'. assert (follow (m_ram m) r (q ++ [i]) = None) as Hnone.
  { rewrite follow_snoc. pose proof Ht as (_ & _ & ->). simpl. unfold child. by rewrite Habs. }
  unfold table. split.
  - intros (Hp & Hl & Hf). rewrite attach_follow in Hf by done. case_decide as E.
    + destruct E as [-> ->]. rewrite length_app in Hl. simpl in Hl. right. split_and!; try done; [lia|congruence].
    + by left.
  - intros [(Hp & Hl & Hf)|(Hl & -> & -> & ->)].
    + split_and!; try done. rewrite attach_follow by done. rewrite decide_False; [done|]. intros [-> ->]. congruence.
    + split_and!; [done|rewrite length_app; simpl; lia|]. rewrite attach_follow by done. by rewrite decide_True.
Qed.

Lemma attach_leaf (r' : Z) (p : list nat) (e : Z) :
  r' ∈ roots ->
  leaf attached r' p e <-> leaf m r' p e \/ (length q = 3%nat /\ r' = r /\ p = q ++ [i] /\ e = v).
Proof.
  intros Hr'. split.
  - intros (q' & j & t' & -> & Hp & Hl & Hf & He & Hpr). pose proof (upath_app _ _ Hp) as Hp'.
    rewrite attach_follow in Hf by done. case_decide as E.
    + destruct E as [-> ->]. injection Hf as <-. exfalso. rewrite length_app in Hl. simpl in Hl.
      destruct Hc as (Hz & _ & Hn); [lia|]. pose proof (upath_index _ _ _ Hp) as Hj. rewrite <- He in Hpr. cbn [attached m_ram] in Hpr.
      rewrite read_write_ne, Hz in Hpr; try done; [exact (table_aligned W _ _ _ Hr Ht)|apply entry_phys_aligned|by eapply upath_index|].
      intros [E _]. apply (Hn r q Hr). left. by rewrite E.
    + assert (table m r' q' t') as Ht' by (split_and!; [done|lia|done]).
      destruct (decide (r' = r /\ q' = q /\ j = i)) as [(-> & -> & ->)|Hne].
      * right. assert (t' = t) as -> by (destruct Ht as (_ & _ & Hf2); congruence). cbn [attached m_ram] in He. by rewrite read_write_eq in He.
      * left. exists q', j, t'. split_and!; try done. rewrite <- He. symmetry. apply (attach_read r' q'); try done. by eapply upath_index.
  - intros [(q' & j & t' & -> & Hp & Hl & Hf & He & Hpr)|(Hl & -> & -> & ->)].
    + assert (table m r' q' t') as Ht' by (split_and!; [by eapply upath_app|lia|done]).
      exists q', j, t'. split_and!; try done.
      * apply (attach_table r' q' t' Hr'). by left.
      * rewrite <- He. apply (attach_read r' q'); [done|done|by eapply upath_index|]. intros (-> & -> & ->).
        assert (t' = t) as -> by (destruct Ht as (_ & _ & Hf2); congruence). congruence.
    + exists q, i, t. split_and!; try done; [|cbn [attached m_ram]; by rewrite read_write_eq].
      apply (attach_table r q t Hr). by left.
Qed.

Definition owns_child : Prop := (length q < 3)%nat \/ length q = 3%nat /\ private (m_alloc m) v.

Lemma attach_node (r' : Z) (p : list nat) (f : Z) :
  r' ∈ roots -> node attached r' p f <-> node m r' p f \/ (owns_child /\ r' = r /\ p = q ++ [i] /\ f = entry_phys v).
Proof.
  intros Hr'. unfold node, owns_child. rewrite attach_table by done. setoid_rewrite (attach_leaf r' p _ Hr'). naive_solver.
Qed.

Lemma attach_shared (r' : Z) (p : list nat) (f : Z) :
  r' ∈ roots -> shared attached r' p f ->
  shared m r' p f \/ (length q = 3%nat /\ ~ private (m_alloc m) v /\ f = entry_phys v).
Proof. intros Hr' (e & He & Hn & ->). apply attach_leaf in He as [He|(Hl & -> & -> & ->)]; [|by right|done]. left. by exists e. Qed.

Hypothesis Hown : owns_child ->
  in_use (m_alloc m) (entry_phys v) /\
  forall r' p', r' ∈ roots -> ~ node m r' p' (entry_phys v) /\ ~ shared m r' p' (entry_phys v).
Hypothesis Hdev : length q = 3%nat -> ~ private (m_alloc m) v ->
  get_bit (BITMAP (m_alloc m)) (frame_idx (entry_phys v)) = false /\
  forall r' p', r' ∈ roots -> ~ node m r' p' (entry_phys v).

Lemma wf_attach : spaces_wf attached roots.
Proof.
  split.
  - apply W.
  - intros r' p f Hr' [Hn|(Ho & -> & -> & ->)]%attach_node; [by eapply (sw_use _ _ W)|by apply Hown|done].
  - intros r1 r2 p1 p2 f H1 H2 Hn1 Hn2. apply attach_node in Hn1; [|done]. apply attach_node in Hn2; [|done].
    destruct Hn1 as [Hn1|(Ho & -> & -> & ->)], Hn2 as [Hn2|(Ho2 & -> & -> & E)]; [by eapply (sw_inj _ _ W)| | |done].
    + subst f. by destruct (proj2 (Hown Ho2) r1 p1 H1).
    + by destruct (proj2 (Hown Ho) r2 p2 H2).
  - intros r' p t' j Hr' Htab Hp Hl Hpr. apply attach_table in Htab as [Htab|(Hlq & -> & -> & ->)]; [| |done].
    + destruct (decide (r' = r /\ p = q /\ j = i)) as [(-> & -> & ->)|Hne].
      * assert (t' = t) as -> by (destruct Ht as (_ & _ & E); destruct Htab as (_ & _ & E2); congruence).
        cbn [attached m_ram]. rewrite read_write_eq. by apply Hc.
      * rewrite (attach_read r' p) in Hpr |- * by (try done; by eapply upath_index). by apply (sw_inner _ _ W r' p).
    + exfalso. destruct (Hc Hlq) as (Hz & _ & Hn). cbn [attached m_ram] in Hpr. pose proof (upath_index _ _ _ Hp) as Hj.
      rewrite read_write_ne, Hz in Hpr; try done; [exact (table_aligned W _ _ _ Hr Ht)|apply entry_phys_aligned|by eapply upath_index|].
      intros [E _]. apply (Hn r q Hr). left. by rewrite E.
  - intros r' p f Hr' Hs. assert (get_bit (BITMAP (m_alloc m)) (frame_idx f) = false /\
      (forall r1 p1, r1 ∈ roots -> ~ node m r1 p1 f) /\ (owns_child -> f <> entry_phys v)) as (Hb & Hn & Ho).
    { apply attach_shared in Hs as [Hs|(Hl & Hp & ->)]; [| |done].
      - destruct (sw_shared _ _ W r' p f Hr' Hs) as [? ?]. split_and!; try done. intros Ho ->. by apply (proj2 (Hown Ho) r' p Hr').
      - destruct (Hdev Hl Hp) as [? ?]. split_and!; try done. intros [?|[_ ?]]; [lia|done]. }
    split; [done|]. intros r1 p1 Hr1 [Hn1|(Ho1 & _ & _ & Hf)]%attach_node; [by apply (Hn r1 p1)|by apply Ho|done].
Qed.

End Attach.

(** ** What building a space changes

    Frames are only taken; words change only in the tables of the spaces and
    in frames that were free; no table goes away; the upper half of a root
    stays what it is. *)
Record extends (roots : list Z) (m m' : Machine) : Prop := mk_extends {
  ex_wf : spaces_wf m' roots;
  ex_alloc : evolves (m_alloc m) (m_alloc m');
  ex_min : min_ram_frame (m_alloc m') = min_ram_frame (m_alloc m);
  ex_kpt : KPT (m_alloc m') = KPT (m_alloc m);
  ex_reserved : forall j, reserved_frame (m_alloc m') j <-> reserved_frame (m_alloc m) j;
  ex_take : forall j, get_bit (BITMAP (m_alloc m')) j = true -> get_bit (BITMAP (m_alloc m)) j = true;
  ex_words : forall f j, f mod 4096 = 0 -> (j < 512)%nat -> get_bit (BITMAP (m_alloc m)) (frame_idx f) = false ->
    (forall r p, r ∈ roots -> ~ table m r p f) -> read_entry (m_ram m') f j = read_entry (m_ram m) f j;
  ex_upper : forall r j, r ∈ roots -> (256 <= j < 512)%nat -> read_entry (m_ram m') r j = read_entry (m_ram m) r j;
  ex_tables : forall r p t, r ∈ roots -> table m r p t -> table m' r p t;
  ex_new : forall r p t, r ∈ roots -> table m' r p t ->
    table m r p t \/ get_bit (BITMAP (m_alloc m)) (frame_idx t) = true
}.

Lemma extends_refl (roots : list Z) (m : Machine) : spaces_wf m roots -> extends roots m m.
Proof. intros W. split; try done; auto. Qed.

Lemma extends_trans (roots : list Z) (m1 m2 m3 : Machine) : extends roots m1 m2 -> extends roots m2 m3 -> extends roots m1 m3.
Proof.
  intros A B. split; [apply B|by etransitivity; [apply A|apply B]|rewrite (ex_min _ _ _ B); apply A|rewrite (ex_kpt _ _ _ B); apply A| | | | | |].
  - intros j. rewrite (ex_reserved _ _ _ B). apply (ex_reserved _ _ _ A).
  - intros j Hj. by apply (ex_take _ _ _ A), (ex_take _ _ _ B).
  - intros f j Hf Hj Hb Hn. rewrite (ex_words _ _ _ B); [by apply (ex_words _ _ _ A)|done|done| |].
    + destruct (get_bit (BITMAP (m_alloc m2)) _) eqn:E; [|done]. apply (ex_take _ _ _ A) in E. congruence.
    + intros r p Hr Ht. destruct (ex_new _ _ _ A r p f Hr Ht) as [?|E]; [by apply (Hn r p)|congruence].
  - intros r j Hr Hj. rewrite (ex_upper _ _ _ B) by done. by apply (ex_upper _ _ _ A).
  - intros r p t Hr Ht. by apply (ex_tables _ _ _ B), (ex_tables _ _ _ A).
  - intros r p t Hr Ht. destruct (ex_new _ _ _ B r p t Hr Ht) as [Ht'|E]; [by apply (ex_new _ _ _ A r p)|]. right. by apply (ex_take _ _ _ A).
Qed.

Lemma fresh_not_table (m : Machine) (roots : list Z) (c r : Z) (p : list nat) :
  fresh m roots c -> r ∈ roots -> ~ table m r p c.
Proof. intros [_ H] Hr Ht. apply (proj1 (H r p Hr)). by left. Qed.

Lemma wf_scribble (m : Machine) (roots : list Z) (c : Z) (ram' : Ram) :
  spaces_wf m roots -> fresh m roots c ->
  (forall t j, t mod 4096 = 0 -> (j < 512)%nat -> t <> c -> read_entry ram' t j = read_entry (m_ram m) t j) ->
  same_tables (m := m) (roots := roots) ram' /\ spaces_wf (mkMachine (m_alloc m) ram') roots /\
  fresh (mkMachine (m_alloc m) ram') roots c.
Proof.
  intros W Hc Hram. assert (same_tables (m := m) (roots := roots) ram') as Hs.
  { intros r p t j Hr Ht Hj. apply Hram; [exact (table_aligned W _ _ _ Hr Ht)|done|]. intros ->. by apply (fresh_not_table m roots c r p). }
  split_and!; [done| |].
  - apply (wf_same W); [done|apply W|done|apply W|]. intros r p f Hr Hf. by apply (sw_shared _ _ W r p f).
  - split; [apply Hc|]. intros r p Hr. destruct (proj2 Hc r p Hr) as [Hn Hh]. split.
    + intros [Ht|(e & He & Hp & ->)]; apply Hn; [left|right; exists e; split_and!; try done].
      * by apply (same_table (m_alloc m) ram' r p c Hs Hr).
      * by apply (same_leaf (m_alloc m) ram' r p e Hs Hr).
    + intros (e & He & Hp & ->). apply Hh. exists e. split_and!; try done. by apply (same_leaf (m_alloc m) ram' r p e Hs Hr).
Qed.

Lemma in_use_take (a : BitmapAllocator) (i next : nat) (f : Z) :
  alloc_inv a -> get_bit (BITMAP a) i = true -> in_use a f ->
  in_use (with_bits a (clear_bit (BITMAP a) i) (free_frames a - 1) next) f.
Proof.
  intros Hi Hb (j & -> & Hj & Ha & Hm). exists j. split_and!; try done. cbn [with_bits BITMAP].
  rewrite get_clear_bit. destruct (decide _); [done|]. done.
Qed.

Lemma alloc_ok_take (a : BitmapAllocator) (i next : nat) :
  alloc_ok a -> get_bit (BITMAP a) i = true -> (next <= length (BITMAP a))%nat ->
  alloc_ok (with_bits a (clear_bit (BITMAP a) i) (free_frames a - 1) next).
Proof.
  intros [Hi Hr Hm] Hb Hn. split; [by apply inv_take|done|]. intros j. cbn [with_bits BITMAP min_ram_frame].
  rewrite get_clear_bit. case_decide; [done|]. apply Hm.
Qed.

(** Taking a frame: refused only when none is free. *)
Lemma take_frame_spec {E} (e : E) (m : Machine) (roots : list Z) :
  spaces_wf m roots ->
  (take_frame e m = Done (m, Err e) /\ forall j, get_bit (BITMAP (m_alloc m)) j = false) \/
  exists a' c, take_frame e m = Done (mkMachine a' (m_ram m), Ok c) /\
    extends roots m (mkMachine a' (m_ram m)) /\ fresh (mkMachine a' (m_ram m)) roots c /\
    get_bit (BITMAP (m_alloc m)) (frame_idx c) = true.
Proof.
  intros W. unfold take_frame, M_bind, M_outcome. pose proof (sw_alloc _ _ W) as Ha.
  destruct (alloc_cases (m_alloc m) (ao_inv _ Ha)) as [[-> Hnone]|(i & next & Hi & Hn & ->)]; cbn.
  - left. by destruct m.
  - right. set (a' := with_bits _ _ _ _). exists a', (Z.of_nat i * FRAME_SIZE). split; [done|].
    assert (same_tables (m := m) (roots := roots) (m_ram m)) as Hs by done.
    assert (in_use a' (Z.of_nat i * FRAME_SIZE)) as Hc.
    { exists i. split_and!; [done|cbn; rewrite get_clear_bit; by rewrite decide_True|exact (free_admissible _ _ (ao_inv _ Ha) Hi)|].
      by apply (ao_min _ Ha). }
    assert (forall f, get_bit (BITMAP (m_alloc m)) (frame_idx f) = false -> f <> Z.of_nat i * FRAME_SIZE) as Hold.
    { intros f Hf ->. rewrite frame_idx_mul in Hf. congruence. }
    assert (spaces_wf (mkMachine a' (m_ram m)) roots) as W'.
    { apply (wf_same W); [done|by apply alloc_ok_take|done| |].
      - intros r p f Hr Hf. apply in_use_take; [apply Ha|done|by apply (sw_use _ _ W r p)].
      - intros r p f Hr Hf. cbn. rewrite get_clear_bit. case_decide; [done|]. by apply (sw_shared _ _ W r p). }
    split_and!; [|split; [done|]|by rewrite frame_idx_mul].
    + split; try done; cbn; auto. intros j. rewrite get_clear_bit. by case_decide.
    + intros r p Hr. split.
      * intros Hn'. apply (Hold (Z.of_nat i * FRAME_SIZE)); [|done]. eapply in_use_bit, (sw_use _ _ W r p _ Hr).
        destruct Hn' as [Ht|He]; [by left|by right].
      * intros Hn'. apply (Hold (Z.of_nat i * FRAME_SIZE)); [|done]. by apply (sw_shared _ _ W r p).
Qed.

(** Filling a frame just taken. *)
Lemma extends_scribble (m : Machine) (roots : list Z) (c : Z) (ram' : Ram) :
  spaces_wf m roots -> fresh m roots c ->
  (forall t j, t mod 4096 = 0 -> (j < 512)%nat -> t <> c -> read_entry ram' t j = read_entry (m_ram m) t j) ->
  spaces_wf (mkMachine (m_alloc m) ram') roots /\ fresh (mkMachine (m_alloc m) ram') roots c /\
  (forall r p, r ∈ roots -> upath p -> follow ram' r p = follow (m_ram m) r p) /\
  (forall r p t, r ∈ roots -> table (mkMachine (m_alloc m) ram') r p t <-> table m r p t).
Proof.
  intros W Hc Hram. destruct (wf_scribble m roots c ram' W Hc Hram) as (Hs & W' & Hf). split_and!; try done.
  - intros r p Hr Hp. exact (same_follow ram' r p Hs Hr Hp).
  - intros r p t Hr. exact (same_table _ ram' r p t Hs Hr).
Qed.

Lemma extends_fill (m0 m : Machine) (roots : list Z) (c : Z) (ram' : Ram) :
  extends roots m0 m -> fresh m roots c -> get_bit (BITMAP (m_alloc m0)) (frame_idx c) = true ->
  (forall t j, t mod 4096 = 0 -> (j < 512)%nat -> t <> c -> read_entry ram' t j = read_entry (m_ram m) t j) ->
  extends roots m0 (mkMachine (m_alloc m) ram') /\ fresh (mkMachine (m_alloc m) ram') roots c /\
  (forall r p e, r ∈ roots -> leaf (mkMachine (m_alloc m) ram') r p e <-> leaf m r p e) /\
  (forall r p t, r ∈ roots -> table (mkMachine (m_alloc m) ram') r p t <-> table m r p t).
Proof.
  intros A Hc Hfree Hram. pose proof (ex_wf _ _ _ A) as W.
  destruct (wf_scribble m roots c ram' W Hc Hram) as (Hs & W' & Hf).
  assert (forall r p t, r ∈ roots -> table (mkMachine (m_alloc m) ram') r p t <-> table m r p t) as Hb
    by (intros r p t Hr; exact (same_table _ ram' r p t Hs Hr)).
  split_and!; try done; [|intros r p e Hr; exact (same_leaf _ ram' r p e Hs Hr)]. split; try apply A; [done|..]; cbn.
  - intros f j Hf' Hj Hbit Hn. rewrite Hram; [by apply (ex_words _ _ _ A)|done|done|]. intros ->. congruence.
  - intros r j Hr Hj. rewrite Hram; [by apply (ex_upper _ _ _ A)|by apply (root_aligned W)|lia|]. intros ->.
    apply (proj1 (proj2 Hc c [] Hr)). apply root_node.
  - intros r p t Hr Ht. apply Hb; [done|]. by apply (ex_tables _ _ _ A).
  - intros r p t Hr Ht. apply (ex_new _ _ _ A r p t Hr). by apply Hb.
Qed.

Section AttachExtends.
Context {m0 m : Machine} {roots : list Z} (A : extends roots m0 m).
Context (r : Z) (q : list nat) (i : nat) (t v : Z).
Hypothesis (Hr : r ∈ roots) (Ht : table m r q t) (Hu : upath (q ++ [i])).
Hypothesis (Habs : entry_present (read_entry (m_ram m) t i) = false) (Hv : entry_present v = true).
Hypothesis (Hc : (length q < 3)%nat -> blank (m := m) (roots := roots) v (entry_phys v)).
Hypothesis (Hfree : (length q < 3)%nat -> get_bit (BITMAP (m_alloc m0)) (frame_idx (entry_phys v)) = true).

Lemma extends_attach : spaces_wf (attached (m := m) i t v) roots -> extends roots m0 (attached (m := m) i t v).
Proof.
  intros W'. pose proof (ex_wf _ _ _ A) as W. split; try apply A; [done|..].
  - intros f j Hf Hj Hbit Hn. cbn [attached m_ram]. rewrite read_write_ne; [by apply (ex_words _ _ _ A)|exact (table_aligned W _ _ _ Hr Ht)|done|by eapply upath_index|done|].
    intros [-> ->]. destruct (ex_new _ _ _ A r q t Hr Ht) as [Ht0|E]; [by apply (Hn r q)|congruence].
  - intros r' j Hr' Hj. cbn [attached m_ram]. rewrite read_write_ne; [by apply (ex_upper _ _ _ A)|exact (table_aligned W _ _ _ Hr Ht)|by apply (root_aligned W)|by eapply upath_index|lia|].
    intros [-> ->]. destruct (table_inj W t r [] q t) as [-> <-]; try done.
    { split_and!; [apply upath_nil|simpl; lia|done]. }
    destruct Hu as (_ & _ & Hh). specialize (Hh i eq_refl). lia.
  - intros r' p t' Hr' Ht'. apply (attach_table W r q i t v Hr Ht Hu Habs Hv Hc r' p t' Hr'). left. by apply (ex_tables _ _ _ A).
  - intros r' p t' Hr' Ht'. apply (attach_table W r q i t v Hr Ht Hu Habs Hv Hc r' p t' Hr') in Ht' as [Ht'|(Hl & _ & _ & ->)].
    + by apply (ex_new _ _ _ A r' p t').
    + right. by apply Hfree.
Qed.

End AttachExtends.

(** ** One level of a walk that builds *)

Lemma walk_or_alloc_spec (m : Machine) (roots : list Z) (r t flags : Z) (q : list nat) (i : nat) :
  spaces_wf m roots -> r ∈ roots -> table m r q t -> (length q < 3)%nat -> upath (q ++ [i]) ->
  flags_ok flags = true -> inner_ok flags = true ->
  exists m' res, walk_or_alloc t i flags m = Done (m', res) /\ extends roots m m' /\
    (forall r' p e, r' ∈ roots -> leaf m' r' p e <-> leaf m r' p e) /\
    match res with
    | Ok c => table m' r (q ++ [i]) c
    | Err e => e = FrameAllocFailed /\ forall j, get_bit (BITMAP (m_alloc m')) j = false
    end.
Proof.
  intros W Hr Ht Hl Hu Hf Hh. unfold walk_or_alloc, M_gets, M_bind.
  destruct (entry_present (read_entry (m_ram m) t i)) eqn:Hp; cbn.
  { rewrite (sw_small _ _ W r q t i) by done. exists m, (Ok (entry_phys (read_entry (m_ram m) t i))).
    split_and!; [done|by apply extends_refl|done|]. split_and!; [done|rewrite length_app; simpl; lia|].
    rewrite follow_snoc. destruct Ht as (_ & _ & ->). simpl. unfold child. by rewrite Hp. }
  destruct (take_frame_spec FrameAllocFailed m roots W) as [[-> Hnone]|(a' & c & -> & A1 & Hc & Hfree)]; cbn.
  { exists m, (Err FrameAllocFailed). split_and!; try done. by apply extends_refl. }
  set (m1 := mkMachine a' (m_ram m)) in *.
  assert (c mod 4096 = 0) as Hal by (eapply in_use_aligned; apply Hc).
  assert (0 <= c < 2 ^ 52) as Hbd by (eapply in_use_bound; [apply (ex_wf _ _ _ A1)|apply Hc]).
  destruct (extends_fill m m1 roots c (zero_frame (m_ram m) c) A1 Hc Hfree) as (A2 & Hc2 & Hl2 & Ht2).
  { intros. apply read_zero_ne; done. }
  set (m2 := mkMachine (m_alloc m1) (zero_frame (m_ram m) c)) in *. pose proof (ex_wf _ _ _ A2) as W2.
  assert (table m2 r q t) as Htm2 by (by apply (ex_tables _ _ _ A2)).
  assert (entry_phys (Z.lor c flags) = c) as Hph by (by apply entry_phys_lor).
  assert (entry_present (read_entry (m_ram m2) t i) = false) as Hp2.
  { cbn. rewrite read_zero_ne; [done|done|exact (table_aligned W _ _ _ Hr Ht)|by eapply upath_index|].
    intros ->. by apply (fresh_not_table m2 roots c r q). }
  assert (entry_present (Z.lor c flags) = true) as Hpv by (by apply entry_present_lor).
  assert ((length q < 3)%nat -> blank (m := m2) (roots := roots) (Z.lor c flags) (entry_phys (Z.lor c flags))) as Hbl.
  { intros _. rewrite Hph. split_and!.
    - intros j Hj. cbn. by rewrite read_zero_eq.
    - by rewrite inner_ok_lor.
    - intros r' p' Hr'. by apply Hc2. }
  assert (spaces_wf (attached (m := m2) i t (Z.lor c flags)) roots) as W3.
  { apply (wf_attach W2 r q i t (Z.lor c flags)); try done; [|lia]. intros _. rewrite Hph. exact Hc2. }
  exists (attached (m := m2) i t (Z.lor c flags)), (Ok c). split_and!; [done| | |].
  - apply (extends_attach A2 r q i t (Z.lor c flags)); try done. intros _. by rewrite Hph.
  - intros r' p e Hr'. rewrite (attach_leaf W2 r q i t (Z.lor c flags)) by done. rewrite Hl2 by done.
    split; [intros [?|[? _]]; [done|lia]|by left].
  - apply (attach_table W2 r q i t (Z.lor c flags)); try done. right. by rewrite Hph.
Qed.

(** ** Addresses *)

Lemma idx_eq (va k : Z) : 0 <= k -> Z.land (Z.shiftr va k) 0x1FF = va / 2 ^ k mod 512.
Proof. intros Hk. change 0x1FF with (Z.ones 9). by rewrite Z.land_ones, Z.shiftr_div_pow2 by lia. Qed.

Lemma idx_lt (va k : Z) : 0 <= k -> (Z.to_nat (Z.land (Z.shiftr va k) 0x1FF) < 512)%nat.
Proof. intros Hk. rewrite idx_eq by done. pose proof (Z.mod_pos_bound (va / 2 ^ k) 512). lia. Qed.

Lemma pml4_lt (va : Z) : user_va va -> (pml4_idx va < 256)%nat.
Proof.
  unfold user_va, USER_END. intros H. unfold pml4_idx. rewrite idx_eq by lia.
  assert (0 <= va / 2 ^ 39 < 256) by dlia. rewrite Z.mod_small; lia.
Qed.

Lemma va_path_upath (va : Z) : user_va va -> upath (va_path va).
Proof.
  intros Hva. split_and!; [done| |intros i [= <-]; by apply pml4_lt]. unfold va_path, tables_path. simpl app.
  do 4 (apply Forall_cons; split; [apply idx_lt; lia|]). apply Forall_nil_2.
Qed.

Lemma tables_path_upath (va : Z) : user_va va -> upath (tables_path va).
Proof. intros Hva. apply (upath_app _ [pt_idx va]). by apply va_path_upath. Qed.

Lemma va_path_inj (va va' : Z) : user_va va -> user_va va' -> va_path va = va_path va' -> va / PAGE_SIZE = va' / PAGE_SIZE.
Proof.
  unfold user_va, USER_END, PAGE_SIZE. intros H H' [= E4 E3 E2 E1].
  unfold pml4_idx, pdpt_idx, pd_idx, pt_idx in *. rewrite !idx_eq in * by lia.
  assert (forall x y, Z.to_nat (x mod 512) = Z.to_nat (y mod 512) -> x mod 512 = y mod 512) as Hn.
  { intros x y. pose proof (Z.mod_pos_bound x 512). pose proof (Z.mod_pos_bound y 512). lia. }
  apply Hn in E1, E2, E3, E4. clear Hn. dlia.
Qed.

Lemma same_page_path (va va' : Z) : va / PAGE_SIZE = va' / PAGE_SIZE -> va_path va = va_path va'.
Proof.
  unfold PAGE_SIZE, va_path, tables_path, pml4_idx, pdpt_idx, pd_idx, pt_idx. intros E. rewrite !idx_eq by lia.
  assert (forall k, 0 <= k -> va / 2 ^ (12 + k) = va' / 2 ^ (12 + k)) as Hk.
  { intros k Hk. rewrite Z.pow_add_r by lia. change (2 ^ 12) with 4096. rewrite <- !Z.div_div by lia. by rewrite E. }
  pose proof (Hk 27 ltac:(lia)) as E4. pose proof (Hk 18 ltac:(lia)) as E3. pose proof (Hk 9 ltac:(lia)) as E2. pose proof (Hk 0 ltac:(lia)) as E1.
  cbn [Z.add] in E1, E2, E3, E4. change (12 + 27) with 39 in E4. change (12 + 18) with 30 in E3. change (12 + 9) with 21 in E2.
  change (12 + 0) with 12 in E1. by rewrite E1, E2, E3, E4.
Qed.

Lemma lookup_leaf (m : Machine) (r va e : Z) :
  user_va va -> lookup_pte (m_ram m) r va = Some e <-> leaf m r (va_path va) e.
Proof.
  intros Hva. unfold lookup_pte. split.
  - destruct (follow (m_ram m) r (tables_path va)) as [t|] eqn:Hf; [|done]. simpl. destruct (entry_present _) eqn:Hp; [|done].
    intros [= <-]. exists (tables_path va), (pt_idx va), t. split_and!; try done. by apply va_path_upath.
  - intros (q & i & t & E & Hu & Hl & Hf & <- & Hp). apply app_inj_tail in E as [<- <-]. rewrite Hf. simpl. by rewrite Hp.
Qed.

Lemma lookup_ext (m m' : Machine) (r r' va va' : Z) :
  user_va va -> user_va va' -> (forall e, leaf m' r' (va_path va') e <-> leaf m r (va_path va) e) ->
  lookup_pte (m_ram m') r' va' = lookup_pte (m_ram m) r va.
Proof.
  intros Hva Hva' H. apply option_eq. intros e. by rewrite !lookup_leaf.
Qed.

Lemma leaf_fun (m : Machine) (r : Z) (p : list nat) (e e' : Z) : leaf m r p e -> leaf m r p e' -> e = e'.
Proof.
  intros (q & i & t & -> & _ & _ & Hf & <- & _) (q' & i' & t' & E & _ & _ & Hf' & <- & _).
  apply app_inj_tail in E as [<- <-]. congruence.
Qed.

(** ** The walk to the last table *)

Definition walks (root va : Z) : Prog Machine MapError Z :=
  pdpt_phys <- walk_or_alloc root (pml4_idx va) (PageTable.inter_flags va) ;;
  pd_phys <- walk_or_alloc pdpt_phys (pdpt_idx va) (PageTable.inter_flags va) ;;
  walk_or_alloc pd_phys (pd_idx va) (PageTable.inter_flags va).

Lemma inter_flags_ok (va : Z) :
  user_va va -> flags_ok (PageTable.inter_flags va) = true /\ inner_ok (PageTable.inter_flags va) = true.
Proof. intros [_ H]. unfold PageTable.inter_flags. by rewrite (proj2 (Z.ltb_lt va (Z.shiftl 1 47)) H). Qed.

Lemma walks_spec (m : Machine) (roots : list Z) (r va : Z) :
  spaces_wf m roots -> r ∈ roots -> user_va va ->
  exists m' res, walks r va m = Done (m', res) /\ extends roots m m' /\
    (forall r' p e, r' ∈ roots -> leaf m' r' p e <-> leaf m r' p e) /\
    match res with
    | Ok t => table m' r (tables_path va) t
    | Err e => e = FrameAllocFailed /\ forall j, get_bit (BITMAP (m_alloc m')) j = false
    end.
Proof.
  intros W Hr Hva. destruct (inter_flags_ok va Hva) as [Hf Hh]. pose proof (tables_path_upath va Hva) as Hu.
  unfold walks, M_bind.
  destruct (walk_or_alloc_spec m roots r r (PageTable.inter_flags va) [] (pml4_idx va)) as (m1 & res1 & -> & A1 & L1 & T1);
    try done; [split_and!; [apply upath_nil|simpl; lia|done]|simpl; lia|by apply (upath_app _ [pdpt_idx va; pd_idx va])|].
  destruct res1 as [t1|e1]; [|by exists m1, (Err e1)].
  destruct (walk_or_alloc_spec m1 roots r t1 (PageTable.inter_flags va) [pml4_idx va] (pdpt_idx va)) as (m2 & res2 & -> & A2 & L2 & T2);
    try done; [apply A1|simpl; lia|by apply (upath_app _ [pd_idx va])|].
  assert (forall r' p e, r' ∈ roots -> leaf m2 r' p e <-> leaf m r' p e) as L12 by (intros; by rewrite L2, L1).
  pose proof (extends_trans _ _ _ _ A1 A2) as A12. destruct res2 as [t2|e2]; [|by exists m2, (Err e2)].
  destruct (walk_or_alloc_spec m2 roots r t2 (PageTable.inter_flags va) [pml4_idx va; pdpt_idx va] (pd_idx va)) as (m3 & res3 & -> & A3 & L3 & T3);
    try done; [apply A2|simpl; lia|].
  exists m3, res3. split_and!; [done|by eapply extends_trans|intros; by rewrite L3, L12|done].
Qed.

(** ** Mapping a page *)

(** What an entry may say: a frame just taken, or one no space owns and the
    allocator never hands out. *)
Definition mappable (m : Machine) (roots : list Z) (v : Z) : Prop :=
  (private (m_alloc m) v -> fresh m roots (entry_phys v)) /\
  (~ private (m_alloc m) v -> get_bit (BITMAP (m_alloc m)) (frame_idx (entry_phys v)) = false /\
     forall r p, r ∈ roots -> ~ node m r p (entry_phys v)).

Lemma in_use_extends (roots : list Z) (m m' : Machine) (f : Z) :
  extends roots m m' -> in_use (m_alloc m) f -> in_use (m_alloc m') f.
Proof.
  intros A (i & -> & Hb & (Hv & Hk & Hd & Hg) & Hm). pose proof (ex_alloc _ _ _ A) as []. exists i. split_and!; [done| | |].
  - destruct (get_bit (BITMAP (m_alloc m')) i) eqn:E; [|done]. apply (ex_take _ _ _ A) in E. congruence.
  - split_and!; [by rewrite ev_valid0|by rewrite (ex_kpt _ _ _ A)|by rewrite (ex_reserved _ _ _ A)|by rewrite ev_gs0, ev_ge0].
  - by rewrite (ex_min _ _ _ A).
Qed.

Lemma private_extends (roots : list Z) (m m' : Machine) (v : Z) :
  extends roots m m' -> private (m_alloc m') v <-> private (m_alloc m) v.
Proof. intros A. unfold private. by rewrite (ex_reserved _ _ _ A). Qed.

(** What is in use and no node stays no node while tables are built. *)
Lemma node_extends (roots : list Z) (m m' : Machine) (r f : Z) (p : list nat) :
  extends roots m m' -> (forall r' p' e, r' ∈ roots -> leaf m' r' p' e <-> leaf m r' p' e) -> r ∈ roots ->
  get_bit (BITMAP (m_alloc m)) (frame_idx f) = false -> node m' r p f -> node m r p f.
Proof.
  intros A L Hr Hb [Ht|(e & He & Hp & ->)].
  - destruct (ex_new _ _ _ A r p f Hr Ht) as [?|?]; [by left|congruence].
  - right. exists e. split_and!; [by apply L| |done]. by apply (private_extends roots m m').
Qed.

Lemma mappable_extends (roots : list Z) (m m' : Machine) (v : Z) :
  extends roots m m' -> (forall r p e, r ∈ roots -> leaf m' r p e <-> leaf m r p e) ->
  mappable m roots v -> mappable m' roots v.
Proof.
  intros A L [Hf Hd]. pose proof (private_extends roots m m' v A) as Hp. split; rewrite Hp.
  - intros H. destruct (Hf H) as [Hu Hn]. split; [by eapply in_use_extends|]. intros r p Hr. destruct (Hn r p Hr) as [Hn1 Hn2]. split.
    + intros Hnode. apply Hn1. eapply node_extends; try done. by apply in_use_bit.
    + intros (e & He & Hpe & E). apply Hn2. exists e. split_and!; [by apply L| |done]. by rewrite <- (private_extends roots m m').
  - intros H. destruct (Hd H) as [Hb Hn]. split.
    + destruct (get_bit (BITMAP (m_alloc m')) _) eqn:E; [|done]. apply (ex_take _ _ _ A) in E. congruence.
    + intros r p Hr Hnode. apply (Hn r p Hr). by eapply node_extends.
Qed.

(** The entry is written only where there was none. *)
Lemma set_leaf_spec (m0 m : Machine) (roots : list Z) (r va t v : Z) :
  extends roots m0 m -> r ∈ roots -> user_va va -> table m r (tables_path va) t ->
  entry_present (read_entry (m_ram m) t (pt_idx va)) = false -> entry_present v = true -> mappable m roots v ->
  extends roots m0 (attached (m := m) (pt_idx va) t v) /\
  forall r' p e, r' ∈ roots -> leaf (attached (m := m) (pt_idx va) t v) r' p e <->
                               leaf m r' p e \/ (r' = r /\ p = va_path va /\ e = v).
Proof.
  intros A Hr Hva Ht Habs Hv [Hf Hd]. pose proof (ex_wf _ _ _ A) as W. pose proof (va_path_upath va Hva) as Hu.
  assert ((length (tables_path va) < 3)%nat -> blank (m := m) (roots := roots) v (entry_phys v)) as Hc by (simpl; lia).
  split.
  - apply (extends_attach A r (tables_path va)); try done; [simpl; lia|]. apply (wf_attach W r (tables_path va)); try done.
    intros [?|[_ Hp]]; [simpl in *; lia|]. exact (Hf Hp).
  - intros r' p e Hr'. rewrite (attach_leaf W r (tables_path va)) by done. split; [intros [?|(_ & ?)]|intros [?|?]]; auto.
Qed.

Lemma map_spec (m : Machine) (roots : list Z) (r va phys flags : Z) (v := Z.lor (page_base phys) flags) :
  spaces_wf m roots -> r ∈ roots -> user_va va -> 0 <= phys < 2 ^ 52 -> flags_ok flags = true -> mappable m roots v ->
  exists m' res, PageTable.map r va phys flags m = Done (m', res) /\ extends roots m m' /\
    match res with
    | Ok _ => lookup_pte (m_ram m) r va = None /\
              forall r' p e, r' ∈ roots -> leaf m' r' p e <-> leaf m r' p e \/ (r' = r /\ p = va_path va /\ e = v)
    | Err e => (forall r' p e, r' ∈ roots -> leaf m' r' p e <-> leaf m r' p e) /\
               (e = AlreadyMapped /\ lookup_pte (m_ram m) r va <> None \/
                e = FrameAllocFailed /\ forall j, get_bit (BITMAP (m_alloc m')) j = false)
    end.
Proof.
  intros W Hr Hva Hph Hfl Hmap. destruct (walks_spec m roots r va W Hr Hva) as (m1 & res1 & E1 & A1 & L1 & T1).
  assert (PageTable.map r va phys flags m = M_bind (walks r va) (fun pt_phys =>
    existing <- M_gets (fun m => read_entry (m_ram m) pt_phys (pt_idx va)) ;;
    if entry_present existing then M_fail AlreadyMapped
    else M_modify (on_ram (fun ram => write_entry ram pt_phys (pt_idx va) v))) m) as ->.
  { unfold PageTable.map, walks, M_bind. destruct (walk_or_alloc r _ _ m) as [[m2 [t2|]]|]; [|done..].
    by destruct (walk_or_alloc t2 _ _ m2) as [[? []]|]. }
  unfold M_bind at 1. rewrite E1. destruct res1 as [t|e].
  2: { exists m1, (Err e). destruct T1 as [-> T1]. split_and!; try done. by right. }
  unfold M_bind, M_gets, M_fail, M_modify. assert (lookup_pte (m_ram m1) r va = lookup_pte (m_ram m) r va) as Hlk.
  { apply lookup_ext; [done..|]. intros e. by apply L1. }
  assert (lookup_pte (m_ram m1) r va = if entry_present (read_entry (m_ram m1) t (pt_idx va)) then Some (read_entry (m_ram m1) t (pt_idx va)) else None) as Hlk1.
  { unfold lookup_pte. by destruct T1 as (_ & _ & ->). }
  destruct (entry_present (read_entry (m_ram m1) t (pt_idx va))) eqn:Hp.
  - exists m1, (Err AlreadyMapped). split_and!; try done. left. split; [done|]. by rewrite <- Hlk, Hlk1.
  - assert (page_base phys mod 4096 = 0 /\ 0 <= page_base phys < 2 ^ 52) as [Hal Hb] by (rewrite page_base_eq; dlia).
    destruct (set_leaf_spec m m1 roots r va t v A1 Hr Hva T1 Hp) as [A2 L2].
    { by apply entry_present_lor. } { by apply (mappable_extends roots m m1). }
    exists (attached (m := m1) (pt_idx va) t v), (Ok tt). split_and!; [done|done|by rewrite <- Hlk, Hlk1|].
    intros r' p e Hr'. by rewrite L2, L1.
Qed.

Lemma map_active_spec (m : Machine) (roots : list Z) (r va phys flags : Z) (v := Z.lor (page_base phys) flags) :
  spaces_wf m roots -> r ∈ roots -> user_va va -> 0 <= phys < 2 ^ 52 -> flags_ok flags = true -> mappable m roots v ->
  exists m' res, map_in_active_tables r va phys flags m = Done (m', res) /\ extends roots m m' /\
    match res with
    | Ok _ => forall r' p e, r' ∈ roots -> leaf m' r' p e <->
                leaf m r' p e \/ (lookup_pte (m_ram m) r va = None /\ r' = r /\ p = va_path va /\ e = v)
    | Err e => (forall r' p e, r' ∈ roots -> leaf m' r' p e <-> leaf m r' p e) /\
               e = FrameAllocFailed /\ forall j, get_bit (BITMAP (m_alloc m')) j = false
    end.
Proof.
  intros W Hr Hva Hph Hfl Hmap. destruct (walks_spec m roots r va W Hr Hva) as (m1 & res1 & E1 & A1 & L1 & T1).
  assert (map_in_active_tables r va phys flags m = M_bind (walks r va) (fun pt => M_modify (on_ram (fun ram =>
    if entry_present (read_entry ram pt (pt_idx va)) then ram else write_entry ram pt (pt_idx va) v))) m) as ->.
  { assert (page_base r = r) as Hrb by (rewrite page_base_eq; pose proof (root_aligned W r Hr); dlia).
    unfold map_in_active_tables, walks, M_bind. rewrite Hrb. destruct (walk_or_alloc r _ _ m) as [[m2 [t2|]]|]; [|done..].
    by destruct (walk_or_alloc t2 _ _ m2) as [[? []]|]. }
  unfold M_bind at 1. rewrite E1. destruct res1 as [t|e].
  2: { exists m1, (Err e). destruct T1 as [-> T1]. by split_and!. }
  unfold M_modify, on_ram. assert (lookup_pte (m_ram m1) r va = lookup_pte (m_ram m) r va) as Hlk.
  { apply lookup_ext; [done..|]. intros e. by apply L1. }
  assert (lookup_pte (m_ram m1) r va = if entry_present (read_entry (m_ram m1) t (pt_idx va)) then Some (read_entry (m_ram m1) t (pt_idx va)) else None) as Hlk1.
  { unfold lookup_pte. by destruct T1 as (_ & _ & ->). }
  destruct (entry_present (read_entry (m_ram m1) t (pt_idx va))) eqn:Hp.
  - exists (mkMachine (m_alloc m1) (m_ram m1)), (Ok tt). split; [done|]. destruct m1 as [a1 ram1]. split; [done|].
    intros r' p e Hr'. rewrite <- Hlk, Hlk1. rewrite L1 by done. naive_solver.
  - assert (page_base phys mod 4096 = 0 /\ 0 <= page_base phys < 2 ^ 52) as [Hal Hb] by (rewrite page_base_eq; dlia).
    destruct (set_leaf_spec m m1 roots r va t v A1 Hr Hva T1 Hp) as [A2 L2].
    { by apply entry_present_lor. } { by apply (mappable_extends roots m m1). }
    exists (attached (m := m1) (pt_idx va) t v), (Ok tt). split_and!; [done|done|].
    intros r' p e Hr'. rewrite L2, L1 by done. rewrite <- Hlk, Hlk1. naive_solver.
Qed.

(** ** A new space *)

Lemma copy_entries (l : list nat) (from to : Z) (ram : Ram) (t : Z) (j : nat) :
  from mod 4096 = 0 -> to mod 4096 = 0 -> t mod 4096 = 0 -> from <> to -> (j < 512)%nat -> Forall (fun i => i < 512)%nat l ->
  read_entry (foldl (PageTable.copy_entry from to) ram l) t j =
    if decide (t = to /\ j ∈ l) then read_entry ram from j else read_entry ram t j.
Proof.
  intros Hf Ht Ht' Hne Hj. revert ram. induction l as [|i l IH]; intros ram Hl; simpl.
  { rewrite decide_False; [done|]. intros [_ []%not_elem_of_nil]. }
  apply Forall_cons in Hl as [Hi Hl]. rewrite IH by done. unfold PageTable.copy_entry.
  rewrite (read_write_ne ram to from _ i j) by (try done; naive_solver). destruct (decide (t = to /\ j = i)) as [[-> ->]|Hn].
  - rewrite read_write_eq. rewrite (decide_True (P := to = to /\ i ∈ i :: l)) by (split; [done|left]). by case_decide.
  - rewrite (read_write_ne ram to t _ i j) by done. apply decide_ext. rewrite elem_of_cons. naive_solver.
Qed.

Lemma wf_add_root (m : Machine) (roots : list Z) (c : Z) :
  spaces_wf m roots -> fresh m roots c -> (forall i, (i < 256)%nat -> entry_present (read_entry (m_ram m) c i) = false) ->
  spaces_wf m (c :: roots) /\ (forall p e, ~ leaf m c p e).
Proof.
  intros W [Hc Hn] Hz.
  assert (forall i p, upath (i :: p) -> follow (m_ram m) c (i :: p) = None) as Hnone.
  { intros i p (_ & _ & Hh). simpl. unfold child. by rewrite Hz by (by apply Hh). }
  assert (forall p e, ~ leaf m c p e) as Hleaf.
  { intros p e (q & i & t & -> & Hu & Hl & Hf & _). destruct q as [|j q]; [done|]. by rewrite (Hnone j q (upath_app _ _ Hu)) in Hf. }
  assert (forall p t, table m c p t -> p = [] /\ t = c) as Htab.
  { intros [|i p] t (Hu & _ & Hf); [split; [done|]; simpl in Hf; congruence|]. by rewrite Hnone in Hf. }
  assert (forall p f, node m c p f -> p = [] /\ f = c) as Hnode.
  { intros p f [?|(e & He & _)]; [by apply Htab|by destruct (Hleaf p e)]. }
  split; [|done]. split; [apply W|..].
  - intros r p f [->|Hr]%elem_of_cons Hf; [by apply Hnode in Hf as [_ ->]|by apply (sw_use _ _ W r p)].
  - intros r1 r2 p1 p2 f [->|H1]%elem_of_cons [->|H2]%elem_of_cons N1 N2.
    + by apply Hnode in N1 as [-> ->]; apply Hnode in N2 as [-> _].
    + apply Hnode in N1 as [-> ->]. by destruct (Hn r2 p2 H2).
    + apply Hnode in N2 as [-> ->]. by destruct (Hn r1 p1 H1).
    + by apply (sw_inj _ _ W _ _ _ _ f).
  - intros r p t i [->|Hr]%elem_of_cons Ht Hu Hl Hp; [|by apply (sw_inner _ _ W r p)].
    apply Htab in Ht as [-> ->]. rewrite Hz in Hp; [done|]. destruct Hu as (_ & _ & Hh). by apply Hh.
  - intros r p f [->|Hr]%elem_of_cons Hs; [destruct Hs as (e & He & _); by destruct (Hleaf p e)|].
    destruct (sw_shared _ _ W r p f Hr Hs) as [Hb Hno]. split; [done|]. intros r' p' [->|Hr']%elem_of_cons Hnd; [|by apply (Hno r' p')].
    apply Hnode in Hnd as [-> ->]. by destruct (Hn r p Hr).
Qed.

Lemma new_spec (m : Machine) (roots : list Z) (cr3 : Z) :
  spaces_wf m roots -> get_bit (BITMAP (m_alloc m)) (frame_idx cr3) = false -> 0 <= cr3 ->
  exists m' res, PageTable.new cr3 m = Done (m', res) /\ extends roots m m' /\
    (forall r p e, r ∈ roots -> leaf m' r p e <-> leaf m r p e) /\
    match res with
    | Ok c => c ∉ roots /\ spaces_wf m' (c :: roots) /\ (forall p e, ~ leaf m' c p e) /\
              get_bit (BITMAP (m_alloc m)) (frame_idx c) = true /\
              forall j, (256 <= j < 512)%nat -> read_entry (m_ram m') c j = read_entry (m_ram m) (page_base cr3) j
    | Err e => e = FrameAllocFailed /\ m' = m /\ forall j, get_bit (BITMAP (m_alloc m)) j = false
    end.
Proof.
  intros W Hcr Hpos. unfold PageTable.new, M_bind.
  destruct (take_frame_spec FrameAllocFailed m roots W) as [[-> Hnone]|(a' & c & -> & A1 & Hc & Hfree)].
  { exists m, (Err FrameAllocFailed). split_and!; try done. by apply extends_refl. }
  cbn [M_modify on_ram m_alloc m_ram M_ret]. set (m1 := mkMachine a' (m_ram m)) in *.
  assert (c mod 4096 = 0) as Hal by (eapply in_use_aligned; apply Hc).
  assert (page_base cr3 mod 4096 = 0 /\ page_base cr3 <> c) as [Hb Hbc].
  { rewrite page_base_eq. split; [dlia|]. intros E. assert (frame_idx cr3 = frame_idx c) as E'; [|congruence].
    unfold frame_idx, frame_number, FRAME_SIZE. f_equal. dlia. }
  set (ram' := foldl (PageTable.copy_entry (page_base cr3) c) (zero_frame (m_ram m) c) (seq 256 256)).
  assert (forall t j, t mod 4096 = 0 -> (j < 512)%nat -> read_entry ram' t j =
    if decide (t = c) then (if decide (j < 256)%nat then 0 else read_entry (m_ram m) (page_base cr3) j) else read_entry (m_ram m) t j) as Hread.
  { intros t j Ht Hj. unfold ram'. rewrite copy_entries; try done; [|apply Forall_forall; intros x [? ?]%elem_of_seq; lia].
    rewrite (read_zero_ne _ c (page_base cr3)) by done.
    assert (j ∈ seq 256 256 <-> ~ (j < 256)%nat) as Hs by (rewrite elem_of_seq; lia).
    destruct (decide (t = c)) as [->|Htc].
    - destruct (decide (j < 256)%nat); [rewrite decide_False by tauto; by rewrite read_zero_eq|by rewrite decide_True by tauto].
    - rewrite decide_False by tauto. by apply read_zero_ne. }
  destruct (extends_fill m m1 roots c ram' A1 Hc Hfree) as (A2 & Hc2 & L2 & T2).
  { intros t j Ht Hj Hne. rewrite Hread by done. by rewrite decide_False. }
  destruct (wf_add_root _ roots c (ex_wf _ _ _ A2) Hc2) as [W' Hno].
  { intros i Hi. cbn [m_ram]. rewrite Hread by (done || lia). rewrite decide_True, decide_True by done. done. }
  exists (mkMachine (m_alloc m1) ram'), (Ok c). split_and!; try done.
  - intros Hin. by apply (fresh_not_table _ roots c c [] Hc2 Hin); split_and!; [apply upath_nil|simpl; lia|].
  - intros j Hj. cbn [m_ram]. rewrite Hread by (done || lia). rewrite decide_True, decide_False by (done || lia). done.
Qed.

(** ** Unmapping a page *)

Lemma walk_child (m : Machine) (roots : list Z) (a : BitmapAllocator) (r t : Z) (p : list nat) (i : nat) :
  spaces_wf m roots -> r ∈ roots -> table m r p t -> (length p < 3)%nat -> upath (p ++ [i]) ->
  min_ram_frame a = min_ram_frame (m_alloc m) -> max_ram_frame a = max_ram_frame (m_alloc m) ->
  walk a (m_ram m) t i = child (m_ram m) t i.
Proof.
  intros W Hr Ht Hl Hu Hmin Hmax. unfold walk, child, phys_in_ram. rewrite Hmin, Hmax.
  assert (forall p' t', table m r p' t' -> phys_in_ram (m_alloc m) t' = true) as Hin.
  { intros p' t' Ht'. apply in_use_ram; [apply W|]. apply (sw_use _ _ W r p'); [done|by left]. }
  pose proof (Hin p t Ht) as E. unfold phys_in_ram in E. rewrite E. simpl.
  destruct (entry_present (read_entry (m_ram m) t i)) eqn:Hp; [|done]. simpl.
  assert (table m r (p ++ [i]) (entry_phys (read_entry (m_ram m) t i))) as Hc.
  { split_and!; [done|rewrite length_app; simpl; lia|]. rewrite follow_snoc. destruct Ht as (_ & _ & ->). simpl. unfold child. by rewrite Hp. }
  pose proof (Hin _ _ Hc) as E2. unfold phys_in_ram in E2. by rewrite E2.
Qed.

Section Detach.
Context {m : Machine} {roots : list Z} (W : spaces_wf m roots).
Context (r : Z) (q : list nat) (i : nat) (t : Z).
Hypothesis (Hr : r ∈ roots) (Ht : table m r q t) (Hq : length q = 3%nat) (Hu : upath (q ++ [i])).

Lemma detach_read (r' t' : Z) (p : list nat) (j : nat) :
  r' ∈ roots -> table m r' p t' -> (j < 512)%nat -> ~ (r' = r /\ p = q /\ j = i) ->
  read_entry (m_ram (attached (m := m) i t 0)) t' j = read_entry (m_ram m) t' j.
Proof. intros. by apply (attach_read W r q i t 0 Hr Ht Hu r' p). Qed.

Lemma detach_follow (r' : Z) (p : list nat) :
  r' ∈ roots -> upath p -> (length p <= 3)%nat -> follow (m_ram (attached (m := m) i t 0)) r' p = follow (m_ram m) r' p.
Proof.
  intros Hr' Hp Hl. apply (attach_follow_other W r q i t 0 Hr Ht Hu); [lia|done|done|]. intros (_ & s & ->).
  rewrite length_app in Hl. simpl in Hl. lia.
Qed.

Lemma detach_table (r' t' : Z) (p : list nat) : r' ∈ roots -> table (attached (m := m) i t 0) r' p t' <-> table m r' p t'.
Proof.
  intros Hr'. unfold table. split; intros (Hp & Hl & Hf); split_and!; try done; [by rewrite detach_follow in Hf|by rewrite detach_follow].
Qed.

Lemma detach_leaf (r' e : Z) (p : list nat) :
  r' ∈ roots -> leaf (attached (m := m) i t 0) r' p e <-> leaf m r' p e /\ ~ (r' = r /\ p = q ++ [i]).
Proof.
  intros Hr'.
  assert (forall q' j t', upath (q' ++ [j]) -> length q' = 3%nat -> follow (m_ram m) r' q' = Some t' -> table m r' q' t') as Htab.
  { intros q' j t' Hp Hl Hf. split_and!; [by eapply upath_app|lia|done]. }
  split.
  - intros (q' & j & t' & -> & Hp & Hl & Hf & He & Hpr). rewrite detach_follow in Hf by (first [done|by eapply upath_app|lia]).
    assert (~ (r' = r /\ q' = q /\ j = i)) as Hne.
    { intros (-> & -> & ->). assert (t' = t) as -> by (destruct Ht as (_ & _ & E); congruence). cbn [attached m_ram] in He.
      rewrite read_write_eq in He. by subst e. }
    split; [|intros [-> E]; apply app_inj_tail in E as [-> ->]; by apply Hne].
    exists q', j, t'. split_and!; try done. rewrite <- He. symmetry. apply (detach_read r' t' q'); [done|by eapply Htab|by eapply upath_index|done].
  - intros [(q' & j & t' & -> & Hp & Hl & Hf & He & Hpr) Hne]. exists q', j, t'. split_and!; try done.
    + rewrite detach_follow by (first [done|by eapply upath_app|lia]). done.
    + rewrite <- He. apply (detach_read r' t' q'); [done|by eapply Htab|by eapply upath_index|]. intros (-> & -> & ->). by apply Hne.
Qed.

Lemma wf_detach : spaces_wf (attached (m := m) i t 0) roots.
Proof.
  assert (forall r' p f, r' ∈ roots -> node (attached (m := m) i t 0) r' p f -> node m r' p f) as Hn.
  { intros r' p f Hr' [Htab|(e & He & Hp & ->)]; [left; by apply detach_table|]. right. exists e. split_and!; try done. by apply detach_leaf in He as [? _]. }
  split; [apply W|..].
  - intros r' p f Hr' Hf. apply (sw_use _ _ W r' p); auto.
  - intros r1 r2 p1 p2 f H1 H2 Hf1 Hf2. apply (sw_inj _ _ W _ _ _ _ f); auto.
  - intros r' p t' j Hr' Htab Hp Hl. apply detach_table in Htab; [|done].
    rewrite (detach_read r' t' p) by (first [done|by eapply upath_index|intros (_ & -> & _); lia]). by apply (sw_inner _ _ W r' p).
  - intros r' p f Hr' (e & He & Hp & ->). apply detach_leaf in He as [He _]; [|done].
    destruct (sw_shared _ _ W r' p (entry_phys e) Hr') as [Hb Hno]; [by exists e|]. split; [done|]. intros r1 p1 Hr1 Hn1. apply (Hno r1 p1 Hr1). auto.
Qed.

End Detach.

Lemma unmap_spec (m : Machine) (roots : list Z) (r va : Z) :
  spaces_wf m roots -> r ∈ roots -> user_va va ->
  match lookup_pte (m_ram m) r va with
  | None => PageTable.unmap r va m = Done (m, Err NotMapped)
  | Some pte => exists m', PageTable.unmap r va m = Done (m', Ok (entry_phys pte)) /\ spaces_wf m' roots /\ m_alloc m' = m_alloc m /\
      forall r' p e, r' ∈ roots -> leaf m' r' p e <-> leaf m r' p e /\ ~ (r' = r /\ p = va_path va)
  end.
Proof.
  intros W Hr Hva. pose proof (tables_path_upath va Hva) as Hu. unfold PageTable.unmap, M_bind, M_gets.
  assert (table m r [] r) as T0 by (split_and!; [apply upath_nil|simpl; lia|done]).
  rewrite (walk_child m roots (m_alloc m) r r []); try done; [|simpl; lia|by apply (upath_app _ [pdpt_idx va; pd_idx va])].
  unfold lookup_pte, tables_path. cbn [follow]. destruct (child (m_ram m) r (pml4_idx va)) as [t1|] eqn:E1; [|done]. cbn.
  assert (table m r [pml4_idx va] t1) as T1.
  { split_and!; [by apply (upath_app _ [pdpt_idx va; pd_idx va])|simpl; lia|]. simpl. by rewrite E1. }
  rewrite (walk_child m roots (m_alloc m) r t1 [pml4_idx va]); try done; [|simpl; lia|by apply (upath_app _ [pd_idx va])].
  destruct (child (m_ram m) t1 (pdpt_idx va)) as [t2|] eqn:E2; [|done]. cbn.
  assert (table m r [pml4_idx va; pdpt_idx va] t2) as T2.
  { split_and!; [by apply (upath_app _ [pd_idx va])|simpl; lia|]. simpl. rewrite E1. simpl. by rewrite E2. }
  rewrite (walk_child m roots (m_alloc m) r t2 [pml4_idx va; pdpt_idx va]); try done; [|simpl; lia].
  destruct (child (m_ram m) t2 (pd_idx va)) as [t3|] eqn:E3; [|done]. cbn.
  assert (table m r (tables_path va) t3) as T3.
  { split_and!; [done|simpl; lia|]. simpl. rewrite E1. simpl. rewrite E2. simpl. by rewrite E3. }
  destruct (entry_present (read_entry (m_ram m) t3 (pt_idx va))) eqn:Hp; [|done]. cbn.
  eexists. split_and!; [done|exact (wf_detach W r (tables_path va) _ t3 Hr T3 eq_refl (va_path_upath va Hva))|done|].
  intros r' p e Hr'. exact (detach_leaf W r (tables_path va) _ t3 Hr T3 eq_refl (va_path_upath va Hva) r' e p Hr').
Qed.

(** ** Reclaim

    The frames the walk gives back, with their positions, in its order. *)
Fixpoint subtree (ram : Ram) (d n : nat) (p : list nat) (t : Z) : list (list nat * Z) :=
  match d with
  | O => concat ((fun i => let e := read_entry ram t i in
                           if entry_present e && negb (uncached e) then [(p ++ [i], entry_phys e)] else []) <$> seq 0 n)
  | S d => concat ((fun i => match child ram t i with
                             | Some c => subtree ram d 512 (p ++ [i]) c ++ [(p ++ [i], c)]
                             | None => []
                             end) <$> seq 0 n)
  end.

Definition give (acc : BitmapAllocator * Z) (l : list (list nat * Z)) : BitmapAllocator * Z :=
  (foldl free acc.1 (snd <$> l), acc.2 + Z.of_nat (length l)).

Lemma give_app (acc : BitmapAllocator * Z) (l k : list (list nat * Z)) : give acc (l ++ k) = give (give acc l) k.
Proof. unfold give. simpl. rewrite fmap_app, foldl_app, length_app. f_equal. lia. Qed.

Definition geo (a b : BitmapAllocator) : Prop := min_ram_frame a = min_ram_frame b /\ max_ram_frame a = max_ram_frame b.

Lemma free_geo (a b : BitmapAllocator) (f : Z) : geo a b -> geo (free a f) b.
Proof. unfold geo. rewrite free_cases. destruct (negb _); [done|]. by destruct (get_bit _ _). Qed.

Lemma give_geo (acc : BitmapAllocator * Z) (b : BitmapAllocator) (l : list (list nat * Z)) : geo acc.1 b -> geo (give acc l).1 b.
Proof.
  unfold give. simpl. generalize (acc.1). induction l as [|[p f] l IH]; intros a Ha; [done|]. simpl. by apply IH, free_geo.
Qed.

Lemma fold_items (b : BitmapAllocator) (step : BitmapAllocator * Z -> nat -> BitmapAllocator * Z)
    (item : nat -> list (list nat * Z)) (l : list nat) (acc : BitmapAllocator * Z) :
  (forall i acc, i ∈ l -> geo acc.1 b -> step acc i = give acc (item i)) -> geo acc.1 b ->
  foldl step acc l = give acc (concat (item <$> l)).
Proof.
  revert acc. induction l as [|i l IH]; intros acc Hs Hg; simpl.
  - unfold give. simpl. destruct acc. simpl. f_equal. lia.
  - rewrite Hs by (try done; left). rewrite IH, give_app; [done| |by apply give_geo]. intros j acc' Hj. apply Hs. by right.
Qed.

(** The walk is the list of frames given back. *)
Section ReclaimWalk.
Context {m : Machine} {roots : list Z} (W : spaces_wf m roots) (r : Z) (Hr : r ∈ roots).
Notation ram := (m_ram m).

Lemma child_table (p : list nat) (t c : Z) (i : nat) :
  table m r p t -> (length p < 3)%nat -> upath (p ++ [i]) -> child ram t i = Some c -> table m r (p ++ [i]) c.
Proof.
  intros (_ & _ & Hf) Hl Hu Hc. split_and!; [done|rewrite length_app; simpl; lia|]. by rewrite follow_snoc, Hf.
Qed.

Lemma upath_snoc (p : list nat) (i : nat) : upath p -> (length p <= 3)%nat -> (i < 512)%nat -> (p = [] -> (i < 256)%nat) -> upath (p ++ [i]).
Proof.
  intros (_ & Hf & Hh) Hl Hi Hz. split_and!; [rewrite length_app; simpl; lia|by apply Forall_app; split; [|apply Forall_singleton]|].
  intros j. destruct p as [|k p]; simpl; [intros [= <-]; by apply Hz|]. intros Hj. by apply Hh.
Qed.

Lemma reclaim_ptes (t : Z) (p : list nat) (acc : BitmapAllocator * Z) :
  geo acc.1 (m_alloc m) -> foldl (reclaim_pte ram t) acc (seq 0 512) = give acc (subtree ram 0 512 p t).
Proof.
  intros Hg. apply (fold_items (m_alloc m)); [|done]. intros i acc' _ _. unfold reclaim_pte.
  destruct acc' as [a n]. destruct (entry_present _); [|by unfold give; simpl; rewrite Z.add_0_r].
  destruct (uncached _); simpl; unfold give; simpl; [by rewrite Z.add_0_r|done].
Qed.

Lemma give_child (acc : BitmapAllocator * Z) (l : list (list nat * Z)) (p : list nat) (c : Z) :
  give acc (l ++ [(p, c)]) = (free (give acc l).1 c, (give acc l).2 + 1).
Proof. by rewrite give_app. Qed.

Lemma give_nil (acc : BitmapAllocator * Z) : give acc [] = acc.
Proof. destruct acc. unfold give. simpl. f_equal. lia. Qed.

Lemma reclaim_pdes (t : Z) (p : list nat) (acc : BitmapAllocator * Z) :
  table m r p t -> length p = 2%nat -> geo acc.1 (m_alloc m) ->
  foldl (reclaim_pde ram t) acc (seq 0 512) = give acc (subtree ram 1 512 p t).
Proof.
  intros Ht Hl Hg. apply (fold_items (m_alloc m)); [|done]. intros i acc' [_ Hi]%elem_of_seq [Hg1 Hg2]. unfold reclaim_pde.
  assert (upath (p ++ [i])) as Hu by (apply upath_snoc; [apply Ht|lia|lia|by intros ->]).
  rewrite (walk_child m roots _ r t p) by (try done; lia). destruct (child ram t i) as [c|]; [|by rewrite give_nil].
  by rewrite (reclaim_ptes c (p ++ [i])), give_child by done.
Qed.

Lemma reclaim_pdptes (t : Z) (p : list nat) (acc : BitmapAllocator * Z) :
  table m r p t -> length p = 1%nat -> geo acc.1 (m_alloc m) ->
  foldl (reclaim_pdpte ram t) acc (seq 0 512) = give acc (subtree ram 2 512 p t).
Proof.
  intros Ht Hl Hg. apply (fold_items (m_alloc m)); [|done]. intros i acc' [_ Hi]%elem_of_seq [Hg1 Hg2]. unfold reclaim_pdpte.
  assert (upath (p ++ [i])) as Hu by (apply upath_snoc; [apply Ht|lia|lia|by intros ->]).
  rewrite (walk_child m roots _ r t p) by (try done; lia). destruct (child ram t i) as [c|] eqn:Hc; [|by rewrite give_nil].
  rewrite (reclaim_pdes c (p ++ [i])), give_child; [done|apply (child_table p t); try done; lia|rewrite length_app; simpl; lia|done].
Qed.

Lemma reclaim_walk : reclaim_user_frames r m =
  (mkMachine (foldl free (m_alloc m) (snd <$> subtree ram 3 256 [] r)) ram, Z.of_nat (length (subtree ram 3 256 [] r))).
Proof.
  unfold reclaim_user_frames. assert (page_base r = r) as -> by (rewrite page_base_eq; pose proof (root_aligned W r Hr); dlia).
  assert (table m r [] r) as T0 by (split_and!; [apply upath_nil|simpl; lia|done]).
  assert (foldl (reclaim_pml4e ram r) (m_alloc m, 0) (seq 0 256) = give (m_alloc m, 0) (subtree ram 3 256 [] r)) as ->; [|done].
  apply (fold_items (m_alloc m)); [|done]. intros i acc' [_ Hi]%elem_of_seq [Hg1 Hg2]. unfold reclaim_pml4e.
  assert (upath ([] ++ [i])) as Hu by (apply upath_snoc; [apply T0|simpl; lia|lia|intros; lia]).
  rewrite (walk_child m roots _ r r []) by (try done; simpl; lia). destruct (child ram r i) as [c|] eqn:Hc; [|by rewrite give_nil].
  rewrite (reclaim_pdptes c [i]), give_child; [done|apply (child_table [] r); try done; simpl; lia|done|done].
Qed.

End ReclaimWalk.

Lemma elem_of_concat_fmap {X Y} (f : X -> list Y) (l : list X) (y : Y) :
  y ∈ concat (f <$> l) <-> exists x, x ∈ l /\ y ∈ f x.
Proof.
  induction l as [|x l IH]; simpl.
  - split; [by intros ?%not_elem_of_nil|]. by intros (? & ?%not_elem_of_nil & _).
  - rewrite elem_of_app, IH. setoid_rewrite elem_of_cons. naive_solver.
Qed.

Lemma NoDup_concat_fmap {X Y} (f : X -> list Y) (l : list X) :
  NoDup l -> (forall x, x ∈ l -> NoDup (f x)) -> (forall x x' y, x ∈ l -> x' ∈ l -> y ∈ f x -> y ∈ f x' -> x = x') ->
  NoDup (concat (f <$> l)).
Proof.
  induction 1 as [|x l Hx Hl IH]; intros Hf Hd; simpl; [by apply NoDup_nil|]. apply NoDup_app. split_and!.
  - apply Hf. left.
  - intros y Hy (x' & Hx' & Hy')%elem_of_concat_fmap. assert (x = x') as ->; [|done].
    apply (Hd x x' y); [left|by right|done|done].
  - apply IH; [intros; apply Hf; by right|]. intros x1 x2 y H1 H2. apply Hd; by right.
Qed.

Lemma subtree_path (ram : Ram) (d n : nat) (p s : list nat) (t f : Z) :
  (s, f) ∈ subtree ram d n p t -> exists i rest, (i < n)%nat /\ s = p ++ i :: rest.
Proof.
  revert n p t. induction d as [|d IH]; intros n p t; simpl; rewrite elem_of_concat_fmap; intros (i & [_ Hi]%elem_of_seq & H).
  - destruct (_ && _); [|by apply not_elem_of_nil in H]. apply list_elem_of_singleton in H as [= -> _]. by exists i, [].
  - destruct (child ram t i) as [c|]; [|by apply not_elem_of_nil in H]. apply elem_of_app in H as [H|[= -> _]%list_elem_of_singleton].
    + apply IH in H as (j & rest & _ & ->). exists i, (j :: rest). split; [lia|]. by rewrite <- app_assoc.
    + by exists i, [].
Qed.

Lemma subtree_nodup (ram : Ram) (d n : nat) (p : list nat) (t : Z) : NoDup (subtree ram d n p t).
Proof.
  revert n p t. induction d as [|d IH]; intros n p t; simpl; apply NoDup_concat_fmap; try apply NoDup_seq.
  - intros i _. destruct (_ && _); [apply NoDup_singleton|by apply NoDup_nil].
  - intros i i' y _ _ H H'. destruct (_ && _); [|by apply not_elem_of_nil in H]. destruct (_ && _); [|by apply not_elem_of_nil in H'].
    apply list_elem_of_singleton in H as ->. apply list_elem_of_singleton in H' as [= E _]. apply app_inv_head in E. congruence.
  - intros i _. destruct (child ram t i) as [c|]; [|by apply NoDup_nil]. apply NoDup_app. split_and!; [apply IH| |apply NoDup_singleton].
    intros [s f] H [= -> _]%list_elem_of_singleton. apply subtree_path in H as (j & rest & _ & E).
    apply (f_equal length) in E. rewrite !length_app in E. simpl in E. lia.
  - assert (forall i (y : list nat * Z), y ∈ match child ram t i with Some c => subtree ram d 512 (p ++ [i]) c ++ [(p ++ [i], c)] | None => [] end ->
              exists rest, y.1 = p ++ i :: rest) as Hp.
    { intros i [s f] H. destruct (child ram t i) as [c|]; [|by apply not_elem_of_nil in H]. apply elem_of_app in H as [H|[= -> _]%list_elem_of_singleton].
      - apply subtree_path in H as (j & rest & _ & ->). exists (j :: rest). simpl. by rewrite <- app_assoc.
      - by exists []. }
    intros i i' y _ _ (rest & H)%Hp (rest' & H')%Hp. rewrite H in H'. apply app_inv_head in H'. congruence.
Qed.

(** The list holds the tables below the root and the cached pages. *)
Section ReclaimList.
Context {m : Machine} (r : Z).
Notation ram := (m_ram m).

Definition page (p : list nat) (f : Z) : Prop := exists e, leaf m r p e /\ uncached e = false /\ f = entry_phys e.

Lemma page_length (p : list nat) (f : Z) : page p f -> length p = 4%nat.
Proof. intros (e & (q & i & t & -> & _ & Hl & _) & _). rewrite length_app. simpl. lia. Qed.

Lemma subtree_sound (d n : nat) (p s : list nat) (t f : Z) :
  table m r p t -> (length p + d = 3)%nat -> (n <= 512)%nat -> (p = [] -> n <= 256)%nat ->
  (s, f) ∈ subtree ram d n p t -> table m r s f \/ page s f.
Proof.
  revert n p t. induction d as [|d IH]; intros n p t Ht Hl Hn Hn0; simpl; rewrite elem_of_concat_fmap; intros (i & [_ Hi]%elem_of_seq & H);
    (assert (upath (p ++ [i])) as Hu by (apply upath_snoc; [apply Ht|lia|lia|intros E; specialize (Hn0 E); lia])).
  - destruct (_ && _) eqn:E; [|by apply not_elem_of_nil in H]. apply list_elem_of_singleton in H as [= -> ->]. to_prop. right.
    eexists. split_and!; [|done|done]. exists p, i, t. split_and!; [done|done|lia|apply Ht|done|done].
  - destruct (child ram t i) as [c|] eqn:Hc; [|by apply not_elem_of_nil in H].
    assert (table m r (p ++ [i]) c) as Hct by (apply (child_table r p t); try done; lia).
    apply elem_of_app in H as [H|[= -> ->]%list_elem_of_singleton]; [|by left].
    apply (IH 512%nat (p ++ [i]) c); try done; [rewrite length_app; simpl; lia|]. intros E. by apply app_nil in E as [_ ?].
Qed.

Lemma subtree_complete (d n : nat) (p rest : list nat) (t f : Z) (i : nat) :
  table m r p t -> (length p + d = 3)%nat -> (i < n)%nat -> (n <= 512)%nat -> (p = [] -> n <= 256)%nat ->
  table m r (p ++ i :: rest) f \/ page (p ++ i :: rest) f -> (p ++ i :: rest, f) ∈ subtree ram d n p t.
Proof.
  revert n p t i rest. induction d as [|d IH]; intros n p t i rest Ht Hl Hi Hn Hn0 H; simpl; rewrite elem_of_concat_fmap;
    (exists i; split; [apply elem_of_seq; lia|]).
  - destruct H as [(_ & H & _)|H]; [rewrite length_app in H; simpl in H; lia|]. pose proof (page_length _ _ H) as Hlen.
    rewrite length_app in Hlen. simpl in Hlen. destruct rest; [|simpl in Hlen; lia].
    destruct H as (e & (q & j & t' & E & _ & _ & Hf & He & Hp) & Huc & ->). apply app_inj_tail in E as [<- <-].
    assert (t' = t) as -> by (destruct Ht as (_ & _ & E); congruence). rewrite He, Hp, Huc. simpl. left.
  - assert (exists c, child ram t i = Some c) as [c Hc].
    { assert (exists s' f', follow ram r (p ++ i :: s') = Some f') as (s' & f' & Hf).
      { destruct H as [(_ & _ & H)|H]; [eauto|]. pose proof (page_length _ _ H) as Hlen. rewrite length_app in Hlen. simpl in Hlen.
        destruct H as (e & (q & j & t' & E & _ & _ & Hf & _) & _). destruct rest as [|j' rest _] using rev_ind; [simpl in Hlen; lia|].
        rewrite app_comm_cons, app_assoc in E. apply app_inj_tail in E as [<- _]. eauto. }
      rewrite follow_app in Hf. destruct Ht as (_ & _ & Ht). rewrite Ht in Hf. simpl in Hf. destruct (child ram t i); [eauto|done]. }
    rewrite Hc. assert (upath (p ++ [i])) as Hu by (apply upath_snoc; [apply Ht|lia|lia|intros E; specialize (Hn0 E); lia]).
    assert (table m r (p ++ [i]) c) as Hct by (apply (child_table r p t); try done; lia). apply elem_of_app. destruct rest as [|j rest].
    + right. apply list_elem_of_singleton. destruct H as [(_ & _ & H)|H].
      * destruct Hct as (_ & _ & Hct). congruence.
      * apply page_length in H. rewrite length_app in H. simpl in H. lia.
    + left. replace (p ++ i :: j :: rest) with ((p ++ [i]) ++ j :: rest) in H |- * by (by rewrite <- app_assoc).
      apply IH; try done; [rewrite length_app; simpl; lia| |by intros [_ ?]%app_nil].
      assert (upath ((p ++ [i]) ++ j :: rest)) as Hu2 by (destruct H as [H|(e & (? & ? & ? & _ & ? & _) & _)]; [apply H|done]).
      by apply upath_index in Hu2.
Qed.

End ReclaimList.

Lemma accepts_same (a a' : BitmapAllocator) (f : Z) :
  max_valid_frame a' = max_valid_frame a -> max_ram_frame a' = max_ram_frame a -> KPT a' = KPT a ->
  dma_reserves a' = dma_reserves a -> accepts a' f = accepts a f.
Proof. unfold accepts. by intros -> -> -> ->. Qed.

(** What a run of frees leaves behind. *)
Record given (a a' : BitmapAllocator) (L : list Z) : Prop := mk_given {
  gv_ok : alloc_ok a';
  gv_evolves : evolves a a';
  gv_min : min_ram_frame a' = min_ram_frame a;
  gv_kpt : KPT a' = KPT a;
  gv_dma : dma_reserves a' = dma_reserves a;
  gv_double : double_frees a' = double_frees a;
  gv_count : free_frames a' = free_frames a + Z.of_nat (count (accepts a) L);
  gv_bits : forall j, get_bit (BITMAP a') j = true <->
    get_bit (BITMAP a) j = true \/ exists f, f ∈ L /\ accepts a f = true /\ frame_idx f = j
}.

Lemma given_nil (a : BitmapAllocator) : alloc_ok a -> given a a [].
Proof.
  intros H. split; try done; [unfold count; simpl; lia|]. intros j. split; [by left|]. intros [?|(f & ?%not_elem_of_nil & _)]; done.
Qed.

Lemma given_one (a : BitmapAllocator) (f : Z) :
  alloc_ok a -> (accepts a f = true -> in_use a f) -> given a (free a f) [f].
Proof.
  intros Ha Hf. pose proof (free_cases a f) as E. destruct (accepts a f) eqn:Hacc; simpl in E; rewrite E.
  2: { split; try done; [unfold count; simpl; rewrite Hacc; simpl; lia|]. intros j. split; [by left|].
       intros [?|(g & ->%list_elem_of_singleton & ? & _)]; [done|congruence]. }
  specialize (Hf eq_refl). rewrite (in_use_bit _ _ Hf). destruct Hf as (i & -> & Hb & Had & Hm). rewrite frame_idx_mul.
  assert (i / 8 < length (BITMAP a))%nat as Hi.
  { apply idx_in_bitmap; [apply Ha|]. destruct Had. pose proof (ai_valid _ (ao_inv _ Ha)). lia. }
  split; try done.
  - split; [|apply Ha|].
    + apply inv_give; try done; [apply Ha|]. pose proof (ai_next _ (ao_inv _ Ha)). lia.
    + intros j. cbn. rewrite get_set_bit by done. case_decide; [by subst|]. apply Ha.
  - cbn. unfold count. simpl. rewrite Hacc. simpl. lia.
  - intros j. cbn. rewrite get_set_bit by done. setoid_rewrite list_elem_of_singleton. case_decide as Hd.
    + subst j. split; [|done]. intros _. right. eexists. split_and!; [done|done|]. apply frame_idx_mul.
    + split; [by left|]. intros [?|(g & -> & _ & Hg)]; [done|]. by rewrite frame_idx_mul in Hg.
Qed.

Lemma given_app (a b c : BitmapAllocator) (L K : list Z) : given a b L -> given b c K -> given a c (L ++ K).
Proof.
  intros A B. assert (forall f, accepts b f = accepts a f) as Hacc.
  { intros f. apply accepts_same; [apply (gv_evolves _ _ _ A)..|apply A|apply A]. }
  split; [apply B|by etransitivity; [apply A|apply B]|rewrite (gv_min _ _ _ B); apply A|rewrite (gv_kpt _ _ _ B); apply A|
    rewrite (gv_dma _ _ _ B); apply A|rewrite (gv_double _ _ _ B); apply A| |].
  - rewrite (gv_count _ _ _ B), (gv_count _ _ _ A), count_app. rewrite (count_ext (accepts b) (accepts a)); [lia|done].
  - intros j. rewrite (gv_bits _ _ _ B), (gv_bits _ _ _ A). setoid_rewrite Hacc. setoid_rewrite elem_of_app. split.
    + intros [[?|(f & ? & ? & ?)]|(f & ? & ? & ?)]; [by left|right; exists f..]; auto.
    + intros [?|(f & [?|?] & ? & ?)]; [by left; left|left; right; exists f|right; exists f]; auto.
Qed.

Lemma in_use_given (a a' : BitmapAllocator) (L : list Z) (f : Z) :
  given a a' L -> (forall g, g ∈ L -> accepts a g = true -> frame_idx g <> frame_idx f) -> in_use a f -> in_use a' f.
Proof.
  intros G Hne (i & -> & Hb & (Hv & Hk & Hd & Hg) & Hm). pose proof (gv_evolves _ _ _ G) as []. exists i. split_and!; [done| | |].
  - destruct (get_bit (BITMAP a') i) eqn:E; [|done]. apply (gv_bits _ _ _ G) in E as [E|(g & Hin & Hacc & Hi)]; [congruence|].
    exfalso. apply (Hne g Hin Hacc). by rewrite frame_idx_mul.
  - split_and!; [by rewrite ev_valid0|by rewrite (gv_kpt _ _ _ G)|unfold reserved_frame; by rewrite (gv_dma _ _ _ G)|by rewrite ev_gs0, ev_ge0].
  - by rewrite (gv_min _ _ _ G).
Qed.

Lemma free_all_spec (L : list Z) (a : BitmapAllocator) :
  alloc_ok a -> (forall f, f ∈ L -> accepts a f = true -> in_use a f) ->
  (forall k1 k2 f, L !! k1 = Some f -> L !! k2 = Some f -> accepts a f = true -> k1 = k2) ->
  given a (foldl free a L) L.
Proof.
  revert a. induction L as [|f L IH]; intros a Ha Hu Hd; simpl; [by apply given_nil|].
  assert (given a (free a f) [f]) as G by (apply given_one; [done|]; apply Hu; left).
  apply (given_app a (free a f) _ [f] L G).
  assert (forall g, accepts (free a f) g = accepts a g) as Hacc.
  { intros g. apply accepts_same; [apply (gv_evolves _ _ _ G)..|apply G|apply G]. }
  apply IH; [apply G| |].
  - intros g Hg Hag. rewrite Hacc in Hag. assert (in_use a g) as Hug by (apply Hu; [by right|done]).
    apply (in_use_given a _ [f]); [done| |done]. intros g' ->%list_elem_of_singleton Haf E.
    assert (f = g) as <- by (eapply in_use_idx; [apply Hu; [left|done]|exact Hug|done]).
    apply list_elem_of_lookup in Hg as [k Hk]. specialize (Hd 0%nat (S k) f eq_refl Hk Haf). lia.
  - intros k1 k2 g H1 H2 Hg. rewrite Hacc in Hg. specialize (Hd (S k1) (S k2) g H1 H2 Hg). lia.
Qed.

Lemma reserved_refused (a : BitmapAllocator) (f : Z) : 0 <= f -> reserved_frame a (frame_idx f) -> accepts a f = false.
Proof.
  intros Hf Hd. unfold reserved_frame in Hd. rewrite frame_idx_number in Hd by done. unfold accepts. rewrite Hd. by rewrite andb_false_r.
Qed.

Lemma page_node (m : Machine) (r f : Z) (p : list nat) :
  page (m := m) r p f -> (node m r p f) \/ accepts (m_alloc m) f = false.
Proof.
  intros (e & He & Huc & ->). destruct (existsb (in_reserve (Z.of_nat (frame_idx (entry_phys e)))) (dma_reserves (m_alloc m))) eqn:E.
  - right. apply reserved_refused; [apply entry_phys_bound|done].
  - left. right. exists e. split_and!; [done| |done]. split; [done|]. unfold reserved_frame. congruence.
Qed.

Section ReclaimSpec.
Context {m : Machine} {r : Z} {rs : list Z} (W : spaces_wf m (r :: rs)) (Hnr : r ∉ rs).
Notation L := (snd <$> subtree (m_ram m) 3 256 [] r).

Lemma root_in : r ∈ r :: rs. Proof. left. Qed.
#[local] Hint Resolve root_in : core.

Lemma root_table : table m r [] r.
Proof. split_and!; [apply upath_nil|simpl; lia|done]. Qed.

Lemma list_item (k : nat) (f : Z) : L !! k = Some f ->
  exists p, subtree (m_ram m) 3 256 [] r !! k = Some (p, f) /\ p <> [] /\ (node m r p f \/ accepts (m_alloc m) f = false).
Proof.
  rewrite list_lookup_fmap. destruct (subtree (m_ram m) 3 256 [] r !! k) as [[p g]|] eqn:E; [|done]. intros [= <-]. exists p.
  pose proof (list_elem_of_lookup_2 _ _ _ E) as Hin. destruct (subtree_path _ _ _ _ _ _ _ Hin) as (i & rest & _ & Hp).
  split_and!; [done|by subst p|]. destruct (subtree_sound r 3 256 [] p r g root_table eq_refl) as [Ht|Hpg]; try done; [lia|left; by left|].
  by apply page_node.
Qed.

Lemma list_node (f : Z) : (f ∈ L /\ accepts (m_alloc m) f = true) <-> exists p, p <> [] /\ node m r p f.
Proof.
  split.
  - intros [[k Hk]%list_elem_of_lookup Hacc]. apply list_item in Hk as (p & _ & Hp & [Hn|?]); [by exists p|congruence].
  - intros (p & Hp & Hn). split; [|apply in_use_accepts; [apply W|by apply (sw_use _ _ W r p)]].
    destruct p as [|i rest]; [done|]. apply list_elem_of_fmap. exists (i :: rest, f). split; [done|].
    assert (upath (i :: rest)) as Hu by (destruct Hn as [H|(e & (? & ? & ? & _ & ? & _) & _)]; [apply H|done]).
    apply (subtree_complete r 3 256 [] rest r f i root_table); [done|destruct Hu as (_ & _ & Hh); by apply Hh|lia|lia|].
    destruct Hn as [Ht|(e & He & [Huc _] & ->)]; [by left|right; by exists e].
Qed.

Lemma list_given : given (m_alloc m) (foldl free (m_alloc m) L) L.
Proof.
  apply free_all_spec; [apply W| |].
  - intros f Hf Hacc. assert (f ∈ L /\ accepts (m_alloc m) f = true) as (p & _ & Hn)%list_node by done. by apply (sw_use _ _ W r p).
  - intros k1 k2 f H1 H2 Hacc. apply list_item in H1 as (p1 & H1 & _ & [N1|?]); [|congruence].
    apply list_item in H2 as (p2 & H2 & _ & [N2|?]); [|congruence].
    destruct (sw_inj _ _ W r r p1 p2 f) as [_ ->]; try done. by eapply (proj1 (NoDup_alt _) (subtree_nodup _ _ _ _ _)).
Qed.

(** No frame of the space is shared memory. *)
Lemma list_idx_apart (g f r' : Z) (q p : list nat) :
  node m r q g -> r' ∈ r :: rs -> shared m r' p f -> frame_idx g <> frame_idx f.
Proof.
  intros Hn Hr2 Hf E. assert (g = f) as ->; [|by apply (proj2 (sw_shared _ _ W r' p f Hr2 Hf) r q)].
  pose proof (in_use_aligned _ _ (sw_use _ _ W r q g root_in Hn)). destruct (in_use_bound _ _ (sw_alloc _ _ W) (sw_use _ _ W r q g root_in Hn)) as [? _].
  destruct Hf as (e & _ & _ & ->). pose proof (entry_phys_aligned e). pose proof (entry_phys_bound e).
  unfold frame_idx, frame_number, FRAME_SIZE in E. dlia.
Qed.

(** A frame given back is of no other space. *)
Lemma list_apart (g f r' : Z) (p : list nat) :
  g ∈ L -> accepts (m_alloc m) g = true -> r' ∈ rs -> node m r' p f \/ shared m r' p f -> frame_idx g <> frame_idx f.
Proof.
  intros Hg Hacc Hr' Hf E. assert (g ∈ L /\ accepts (m_alloc m) g = true) as (q & _ & Hn)%list_node by done.
  assert (r' ∈ r :: rs) as Hr2 by (by right). destruct Hf as [Hf|Hf].
  - assert (g = f) as -> by (eapply in_use_idx; [by apply (sw_use _ _ W r q)|by apply (sw_use _ _ W r' p)|done]).
    destruct (sw_inj _ _ W r r' q p f) as [-> _]; done.
  - by apply (list_idx_apart g f r' q p).
Qed.

Lemma rest_wf : spaces_wf m rs.
Proof.
  split; [apply W|..].
  - intros r' p f Hr'. apply (sw_use _ _ W). by right.
  - intros r1 r2 p1 p2 f H1 H2. apply (sw_inj _ _ W); by right.
  - intros r' p t i Hr'. apply (sw_inner _ _ W). by right.
  - intros r' p f Hr' Hf. destruct (sw_shared _ _ W r' p f) as [? Hn]; [by right|done|]. split; [done|]. intros r1 p1 H1. apply Hn. by right.
Qed.

(** Freeing frames of no other space leaves the others as they are. *)
Lemma wf_given (a' : BitmapAllocator) (K : list Z) :
  given (m_alloc m) a' K ->
  (forall g f r' p, g ∈ K -> accepts (m_alloc m) g = true -> r' ∈ rs -> node m r' p f \/ shared m r' p f -> frame_idx g <> frame_idx f) ->
  spaces_wf (mkMachine a' (m_ram m)) rs.
Proof.
  intros G Hap. apply (wf_same rest_wf); [done|apply G|intros i; unfold reserved_frame; by rewrite (gv_dma _ _ _ G)| |].
  - intros r' p f Hr' Hn. apply (in_use_given _ _ _ _ G); [|by apply (sw_use _ _ rest_wf r' p)]. intros g Hg Ha. apply (Hap g f r' p); auto.
  - intros r' p f Hr' Hs. destruct (get_bit (BITMAP a') (frame_idx f)) eqn:E; [|done].
    apply (gv_bits _ _ _ G) in E as [E|(g & Hg & Ha & Hi)]; [by rewrite (proj1 (sw_shared _ _ rest_wf r' p f Hr' Hs)) in E|].
    exfalso. by apply (Hap g f r' p); auto.
Qed.

End ReclaimSpec.

(** ** The end of a space *)

Lemma release_spec (m : Machine) (r : Z) (rs : list Z) :
  spaces_wf m (r :: rs) -> r ∉ rs -> r <> 0 ->
  exists a', release_space r m = mkMachine a' (m_ram m) /\ spaces_wf (mkMachine a' (m_ram m)) rs /\
    double_frees a' = double_frees (m_alloc m) /\
    (forall j, get_bit (BITMAP a') j = true <->
       get_bit (BITMAP (m_alloc m)) j = true \/ exists p f, node m r p f /\ frame_idx f = j).
Proof.
  intros W Hnr Hr0. unfold release_space. rewrite (reclaim_walk W r (root_in (rs := rs))). cbn [fst].
  assert (page_base r = r) as -> by (rewrite page_base_eq; pose proof (root_aligned W r (root_in (rs := rs))); dlia).
  rewrite (proj2 (Z.eqb_neq r 0) Hr0). unfold free_page_table_root. cbn [m_alloc m_ram].
  set (L := snd <$> subtree (m_ram m) 3 256 [] r). pose proof (list_given W) as G1. fold L in G1.
  pose proof (sw_use _ _ W r [] r (root_in (rs := rs)) (root_node r)) as Hur.
  assert (in_use (foldl free (m_alloc m) L) r) as Hur'.
  { apply (in_use_given _ _ _ _ G1); [|done]. intros g Hg Hacc E.
    assert (g ∈ L /\ accepts (m_alloc m) g = true) as (p & Hp & Hn)%(list_node W) by done.
    assert (g = r) as -> by (eapply in_use_idx; [by apply (sw_use _ _ W r p); [left|]|exact Hur|done]).
    by destruct (sw_inj _ _ W r r p [] r (root_in (rs := rs)) (root_in (rs := rs)) Hn (root_node r)) as [_ ->]. }
  pose proof (given_app _ _ _ _ _ G1 (given_one _ r (gv_ok _ _ _ G1) (fun _ => Hur'))) as G.
  assert (forall f, f ∈ L ++ [r] /\ accepts (m_alloc m) f = true <-> exists p, node m r p f) as HL.
  { intros f. rewrite elem_of_app, list_elem_of_singleton. pose proof (list_node W f) as Hln. fold L in Hln. split.
    - intros [[Hf| ->] Hacc]; [|exists []; apply root_node]. destruct (proj1 Hln (conj Hf Hacc)) as (p & _ & ?). by exists p.
    - intros (p & Hn). split; [|apply in_use_accepts; [apply W|by apply (sw_use _ _ W r p); [left|]]]. destruct (decide (p = [])) as [->|Hp].
      + right. destruct Hn as [(_ & _ & [= <-])|(e & (q & i & t & E & _) & _)]; [done|]. by destruct q.
      + left. apply Hln. by exists p. }
  eexists. split; [done|]. split_and!; [|apply G|].
  - apply (wf_given W _ _ G). intros g f r' p Hg Hacc Hr' Hf E. destruct (proj1 (HL g) (conj Hg Hacc)) as [q Hn].
    destruct (decide (q = [])) as [->|Hq]; [|by apply (list_apart W Hnr g f r' p); try done; apply (list_node W); exists q].
    assert (r' ∈ r :: rs) as Hr2 by (by right). destruct Hf as [Hf|Hf].
    + assert (g = f) as -> by (eapply in_use_idx; [by apply (sw_use _ _ W r []); [left|]|by apply (sw_use _ _ W r' p)|done]).
      destruct (sw_inj _ _ W r r' [] p f) as [-> _]; try done. left.
    + exact (list_idx_apart W g f r' [] p Hn Hr2 Hf E).
  - intros j. rewrite (gv_bits _ _ _ G). split.
    + intros [?|(f & Hf & Hacc & Hj)]; [by left|]. right. destruct (proj1 (HL f) (conj Hf Hacc)) as [p Hp]. by exists p, f.
    + intros [?|(p & f & Hn & Hj)]; [by left|]. right. exists f. destruct (proj2 (HL f)) as [? ?]; [by exists p|done].
Qed.

Lemma release_wf (m : Machine) (r : Z) (rs : list Z) :
  spaces_wf m (r :: rs) -> r ∉ rs -> m_ram (release_space r m) = m_ram m /\ spaces_wf (release_space r m) rs.
Proof.
  intros W Hnr. destruct (decide (r = 0)) as [->|Hr0].
  - unfold release_space. rewrite (reclaim_walk W 0 (root_in (rs := rs))). split; [done|].
    apply (wf_given W _ _ (list_given W)). apply (list_apart W Hnr).
  - destruct (release_spec m r rs W Hnr Hr0) as (a' & -> & ? & _). done.
Qed.

(** Membership is what counts. *)
Lemma wf_equiv (m : Machine) (R R' : list Z) : (forall r, r ∈ R' <-> r ∈ R) -> spaces_wf m R -> spaces_wf m R'.
Proof.
  intros E [A B C D F]. split; try done.
  - intros r p f Hr%E. by apply B.
  - intros r1 r2 p1 p2 f H1%E H2%E. by apply C.
  - intros r p t i Hr%E. by apply D.
  - intros r p f Hr%E Hf. destruct (F r p f Hr Hf) as [? Hn]. split; [done|]. intros r' p' Hr'%E. by apply Hn.
Qed.

(** ** Bytes *)

Lemma imap_bytes (g : nat -> Z -> Z) (l : list Z) :
  (forall k x, l !! k = Some x -> is_byte (g k x)) -> Forall is_byte (imap g l).
Proof. intros H. apply Forall_lookup. intros k y. rewrite list_lookup_imap. intros (x & Hx & ->)%fmap_Some. by apply H. Qed.

Lemma patched_word_bytes (ram : Ram) (pa w : Z) (l : list Z) : Forall is_byte l -> Forall is_byte (patched_word ram pa l w).
Proof.
  intros Hl. apply imap_bytes. intros k x Hx. assert (is_byte x) as Hb.
  { eapply Forall_lookup_1; [apply to_le_bytes_range|exact Hx]. }
  simpl. destruct (pa <=? _); [|done]. destruct (l !! _) eqn:E; [|done]. simpl. by eapply Forall_lookup_1.
Qed.

Lemma load_write_bytes (ram : Ram) (pa a : Z) (l : list Z) :
  Forall is_byte l ->
  load8 (write_bytes ram pa l) a = if pa <=? a then default (load8 ram a) (l !! Z.to_nat (a - pa)) else load8 ram a.
Proof.
  intros Hl. unfold load8, write_bytes. set (w := a / 8). set (k := Z.to_nat (a mod 8)).
  assert (8 * w + Z.of_nat k = a /\ (k < 8)%nat) as [Hak Hk] by (unfold w, k; dlia).
  destruct ((pa <? 8 * w + 8) && (8 * w <? pa + Z.of_nat (length l))) eqn:E.
  - pose proof (to_from_le _ (patched_word_bytes ram pa w l Hl)) as E8. unfold patched_word in E8. rewrite length_imap, to_le_length in E8.
    fold (patched_word ram pa l w) in E8. rewrite E8. unfold patched_word. rewrite list_lookup_imap, Hak.
    destruct (lookup_lt_is_Some_2 (to_le_bytes 8 (ram w)) k) as [x Hx]; [by rewrite to_le_length|]. rewrite Hx. simpl.
    by destruct (pa <=? a).
  - destruct (pa <=? a) eqn:Hpa; [|done]. rewrite (proj2 (lookup_ge_None l _)); [done|]. to_prop. destruct E as [E|E]; to_prop; lia.
Qed.

(** A write inside one frame leaves the entries of the others alone. *)
Lemma read_write_bytes (ram : Ram) (f t pa : Z) (l : list Z) (j : nat) :
  f mod 4096 = 0 -> t mod 4096 = 0 -> t <> f -> (j < 512)%nat -> f <= pa -> pa + Z.of_nat (length l) <= f + 4096 ->
  read_entry (write_bytes ram pa l) t j = read_entry ram t j.
Proof.
  intros Hf Ht Hne Hj Hlo Hhi. unfold read_entry, write_bytes. destruct (_ && _) eqn:E; [|done]. to_prop. exfalso. apply Hne. dlia.
Qed.

(** ** What the processor sees *)

Lemma permits_present (st : bool) (e : Z) : permits st e = true -> entry_present e = true.
Proof. unfold permits. intros. to_prop. done. Qed.

Lemma mmu_ext (m : Machine) (roots : list Z) (ram' : Ram) (r va : Z) (st : bool) :
  spaces_wf m roots -> r ∈ roots -> user_va va -> same_tables (m := m) (roots := roots) ram' ->
  mmu ram' r st va = mmu (m_ram m) r st va.
Proof.
  intros W Hr Hva Hs. pose proof (tables_path_upath va Hva) as Hu. unfold mmu.
  assert (table m r [] r) as T0 by (split_and!; [apply upath_nil|simpl; lia|done]).
  rewrite (Hs r [] r) by (try done; apply idx_lt; lia). destruct (permits st (read_entry (m_ram m) r _)) eqn:E4; [|done]. simpl.
  apply permits_present in E4.
  assert (table m r [pml4_idx va] (entry_phys (read_entry (m_ram m) r (pml4_idx va)))) as T1.
  { apply (child_table r [] r); [done|simpl; lia|by apply (upath_app _ [pdpt_idx va; pd_idx va])|]. unfold child. by rewrite E4. }
  rewrite (Hs r _ _ _ Hr T1) by (apply idx_lt; lia). destruct (permits st (read_entry (m_ram m) _ (pdpt_idx va))) eqn:E3; [|done]. simpl.
  destruct (entry_huge _); [done|]. apply permits_present in E3.
  assert (table m r [pml4_idx va; pdpt_idx va] (entry_phys (read_entry (m_ram m) (entry_phys (read_entry (m_ram m) r (pml4_idx va))) (pdpt_idx va)))) as T2.
  { apply (child_table r [pml4_idx va] _ _ _ T1); [simpl; lia|by apply (upath_app _ [pd_idx va])|]. unfold child. by rewrite E3. }
  rewrite (Hs r _ _ _ Hr T2) by (apply idx_lt; lia). destruct (permits st (read_entry (m_ram m) _ (pd_idx va))) eqn:E2; [|done]. simpl.
  destruct (entry_huge _); [done|]. apply permits_present in E2.
  rewrite (Hs r (tables_path va) _ _ Hr); [done| |apply idx_lt; lia].
  apply (child_table r _ _ _ _ T2); [simpl; lia|done|]. unfold child. by rewrite E2.
Qed.

Lemma mmu_leaf (m : Machine) (roots : list Z) (r va pa : Z) (st : bool) :
  spaces_wf m roots -> r ∈ roots -> user_va va -> mmu (m_ram m) r st va = Some pa ->
  exists e, leaf m r (va_path va) e /\ permits st e = true /\ pa = entry_phys e + va mod PAGE_SIZE.
Proof.
  intros W Hr Hva. pose proof (tables_path_upath va Hva) as Hu. unfold mmu.
  assert (table m r [] r) as T0 by (split_and!; [apply upath_nil|simpl; lia|done]).
  set (e4 := read_entry (m_ram m) r _). destruct (permits st e4) eqn:E4; [|done]. simpl. apply permits_present in E4.
  assert (table m r [pml4_idx va] (entry_phys e4)) as T1.
  { apply (child_table r [] r); [done|simpl; lia|by apply (upath_app _ [pdpt_idx va; pd_idx va])|]. unfold child. fold e4. by rewrite E4. }
  set (e3 := read_entry (m_ram m) (entry_phys e4) _). destruct (permits st e3) eqn:E3; [|done]. simpl. apply permits_present in E3.
  replace (entry_huge e3) with false by (symmetry; apply (sw_small _ _ W r [pml4_idx va]); try done; [by apply (upath_app _ [pd_idx va])|simpl; lia]).
  assert (table m r [pml4_idx va; pdpt_idx va] (entry_phys e3)) as T2.
  { apply (child_table r [pml4_idx va] _ _ _ T1); [simpl; lia|by apply (upath_app _ [pd_idx va])|]. unfold child. fold e3. by rewrite E3. }
  set (e2 := read_entry (m_ram m) (entry_phys e3) _). destruct (permits st e2) eqn:E2; [|done]. simpl. apply permits_present in E2.
  replace (entry_huge e2) with false by (symmetry; apply (sw_small _ _ W r [pml4_idx va; pdpt_idx va]); try done; simpl; lia).
  assert (table m r (tables_path va) (entry_phys e2)) as T3.
  { apply (child_table r _ _ _ _ T2); [simpl; lia|done|]. unfold child. fold e2. by rewrite E2. }
  set (e1 := read_entry (m_ram m) (entry_phys e2) _). destruct (permits st e1) eqn:E1; [|done]. simpl. intros [= <-].
  exists e1. split_and!; [|done|done]. exists (tables_path va), (pt_idx va), (entry_phys e2).
  split_and!; [done|by apply va_path_upath|done|apply T3|done|by eapply permits_present].
Qed.

Lemma permits_any (st : bool) (e : Z) : permits true e = true -> permits st e = true.
Proof. unfold permits. destruct st; [done|]. intros [H _]%andb_true_iff. by rewrite H. Qed.

Lemma mmu_complete (m : Machine) (roots : list Z) (r va e : Z) (st : bool) :
  spaces_wf m roots -> r ∈ roots -> user_va va -> leaf m r (va_path va) e -> permits st e = true ->
  mmu (m_ram m) r st va = Some (entry_phys e + va mod PAGE_SIZE).
Proof.
  intros W Hr Hva (q & i & t & E & Hu & Hl & Hf & He & Hp) Hst. apply app_inj_tail in E as [<- <-].
  pose proof (upath_app _ _ Hu) as Hu3. unfold tables_path in Hf. simpl in Hf. unfold child in Hf.
  assert (table m r [] r) as T0 by (split_and!; [apply upath_nil|simpl; lia|done]). unfold mmu.
  destruct (entry_present (read_entry (m_ram m) r (pml4_idx va))) eqn:E4; [|done]. cbn [mbind option_bind] in Hf.
  assert (upath ([] ++ [pml4_idx va])) as U1 by (by apply (upath_app _ [pdpt_idx va; pd_idx va])).
  assert (upath ([pml4_idx va] ++ [pdpt_idx va])) as U2 by (by apply (upath_app _ [pd_idx va])).
  pose proof (sw_inner _ _ W r [] r (pml4_idx va) Hr T0 U1 ltac:(simpl; lia) E4) as I4.
  assert (table m r [pml4_idx va] (entry_phys (read_entry (m_ram m) r (pml4_idx va)))) as T1.
  { apply (child_table r [] r); [done|simpl; lia|done|]. unfold child. by rewrite E4. }
  set (t1 := entry_phys (read_entry (m_ram m) r (pml4_idx va))) in *.
  destruct (entry_present (read_entry (m_ram m) t1 (pdpt_idx va))) eqn:E3; [|done]. cbn [mbind option_bind] in Hf.
  pose proof (sw_inner _ _ W r _ t1 (pdpt_idx va) Hr T1 U2 ltac:(simpl; lia) E3) as I3.
  assert (table m r [pml4_idx va; pdpt_idx va] (entry_phys (read_entry (m_ram m) t1 (pdpt_idx va)))) as T2.
  { apply (child_table r [pml4_idx va] t1); [done|simpl; lia|done|]. unfold child. by rewrite E3. }
  set (t2 := entry_phys (read_entry (m_ram m) t1 (pdpt_idx va))) in *.
  destruct (entry_present (read_entry (m_ram m) t2 (pd_idx va))) eqn:E2; [|done]. cbn [mbind option_bind] in Hf. injection Hf as <-.
  pose proof (sw_inner _ _ W r _ t2 (pd_idx va) Hr T2 Hu3 ltac:(simpl; lia) E2) as I2.
  apply andb_true_iff in I4 as [_ P4%(permits_any st)], I3 as [H3%negb_true_iff P3%(permits_any st)], I2 as [H2%negb_true_iff P2%(permits_any st)].
  rewrite P4. cbn [negb]. fold t1. rewrite P3, H3. cbn [negb]. fold t2. rewrite P2, H2. cbn [negb]. by rewrite He, Hst.
Qed.

Lemma leaf_path_length (m : Machine) (r e : Z) (p : list nat) : leaf m r p e -> length p = 4%nat.
Proof. intros (q & i & t & -> & _ & Hl & _). rewrite length_app. simpl. lia. Qed.

Lemma private_dec (a : BitmapAllocator) (e : Z) : private a e \/ ~ private a e.
Proof.
  unfold private, reserved_frame. destruct (uncached e), (existsb _ _); naive_solver.
Qed.

(** No page of a space is a table of one. *)
Lemma leaf_no_table (m : Machine) (roots : list Z) (r r' e : Z) (p q : list nat) :
  spaces_wf m roots -> r ∈ roots -> r' ∈ roots -> leaf m r p e -> ~ table m r' q (entry_phys e).
Proof.
  intros W Hr Hr' He Ht. destruct (private_dec (m_alloc m) e) as [Hp|Hp].
  - destruct (sw_inj _ _ W r r' p q (entry_phys e)) as [_ ->]; try done; [right; by exists e|by left|].
    apply leaf_path_length in He. destruct Ht as (_ & ? & _). lia.
  - apply (proj2 (sw_shared _ _ W r p (entry_phys e) Hr ltac:(by exists e)) r' q Hr'). by left.
Qed.

Lemma store_spec (m : Machine) (roots : list Z) (r va pa b : Z) :
  spaces_wf m roots -> r ∈ roots -> user_va va -> mmu (m_ram m) r true va = Some pa ->
  same_tables (m := m) (roots := roots) (write_bytes (m_ram m) pa [b]) /\
  spaces_wf (mkMachine (m_alloc m) (write_bytes (m_ram m) pa [b])) roots.
Proof.
  intros W Hr Hva (e & He & _ & ->)%(mmu_leaf m roots); try done.
  assert (same_tables (m := m) (roots := roots) (write_bytes (m_ram m) (entry_phys e + va mod PAGE_SIZE) [b])) as Hs.
  { intros r' p t j Hr' Ht Hj. unfold PAGE_SIZE. apply (read_write_bytes _ (entry_phys e)); [apply entry_phys_aligned| | |done|dlia|simpl; dlia].
    - exact (table_aligned W _ _ _ Hr' Ht).
    - intros ->. by apply (leaf_no_table m roots r r' e (va_path va) p). }
  split; [done|]. apply (wf_same W); [done|apply W|done|apply W|]. intros r' p f Hr' Hf. by apply (sw_shared _ _ W r' p f).
Qed.

Lemma fresh_mappable (m : Machine) (roots : list Z) (c flags : Z) :
  spaces_wf m roots -> fresh m roots c -> flags_ok flags = true -> mappable m roots (Z.lor (page_base c) flags) /\ 0 <= c < 2 ^ 52.
Proof.
  intros W Hc Hf. pose proof (in_use_aligned _ _ (proj1 Hc)) as Hal.
  pose proof (in_use_bound _ _ (sw_alloc _ _ W) (proj1 Hc)) as Hb. assert (page_base c = c) as -> by (rewrite page_base_eq; dlia).
  split; [|done]. unfold mappable. rewrite entry_phys_lor by done. split; [done|]. intros _. split; [by apply in_use_bit, Hc|].
  intros r p Hr. by apply Hc.
Qed.

End SpaceFacts.

(** ** The life of the address spaces *)

Record Spaces := mkSpaces {
  s_machine : Machine;
  s_roots : list Z
}.

(** Memory changed in one frame only. *)
Definition only_in (c : Z) (ram ram' : Ram) : Prop :=
  forall t j, t mod 4096 = 0 -> (j < 512)%nat -> t <> c -> read_entry ram' t j = read_entry ram t j.

(** Memory of a device, or an arena: no space owns it, the allocator does not
    hand it out, and the entry is uncached or the allocator refuses the frame. *)
Definition device_entry (m : Machine) (roots : list Z) (v : Z) : Prop :=
  ~ private (m_alloc m) v /\ get_bit (BITMAP (m_alloc m)) (frame_idx (entry_phys v)) = false /\
  forall r p, r ∈ roots -> ~ node m r p (entry_phys v).

Inductive space_step : Spaces -> Spaces -> Prop :=
(** a spawn begins an address space *)
| ss_new m R cr3 m' c :
    0 <= cr3 -> get_bit (BITMAP (m_alloc m)) (frame_idx cr3) = false -> PageTable.new cr3 m = Done (m', Ok c) ->
    space_step (mkSpaces m R) (mkSpaces m' (c :: R))
| ss_new_failed m R cr3 m' e :
    0 <= cr3 -> get_bit (BITMAP (m_alloc m)) (frame_idx cr3) = false -> PageTable.new cr3 m = Done (m', Err e) ->
    space_step (mkSpaces m R) (mkSpaces m' R)
(** the loader and the spawn path add a page, whatever they put in it *)
| ss_page m R r va flags m1 f ram' m' res :
    r ∈ R -> user_va va -> flags_ok flags = true ->
    take_frame FrameAllocFailed m = Done (m1, Ok f) -> only_in f (m_ram m1) ram' ->
    PageTable.map r va f flags (mkMachine (m_alloc m1) ram') = Done (m', res) ->
    space_step (mkSpaces m R) (mkSpaces m' R)
(** a task's [AllocMem], in the space it runs in *)
| ss_heap m R r va m' res :
    r ∈ R -> user_va va -> alloc_page r va m = Done (m', res) ->
    space_step (mkSpaces m R) (mkSpaces m' R)
(** the spawn path maps device memory *)
| ss_device m R r va phys flags m' res :
    r ∈ R -> user_va va -> 0 <= phys < 2 ^ 52 -> flags_ok flags = true ->
    device_entry m R (Z.lor (page_base phys) flags) -> PageTable.map r va phys flags m = Done (m', res) ->
    space_step (mkSpaces m R) (mkSpaces m' R)
| ss_unmap m R r va m' res :
    r ∈ R -> user_va va -> PageTable.unmap r va m = Done (m', res) -> space_step (mkSpaces m R) (mkSpaces m' R)
(** a task dies *)
| ss_release m R R' r :
    R ≡ₚ r :: R' -> space_step (mkSpaces m R) (mkSpaces (release_space r m) R')
(** a task stores a byte *)
| ss_store m R r va pa b :
    r ∈ R -> user_va va -> mmu (m_ram m) r true va = Some pa -> is_byte b ->
    space_step (mkSpaces m R) (mkSpaces (mkMachine (m_alloc m) (write_bytes (m_ram m) pa [b])) R)
(** the rest of the kernel takes a frame, writes it, and gives back one no space has *)
| ss_take m R m1 f ram' :
    take_frame FrameAllocFailed m = Done (m1, Ok f) -> only_in f (m_ram m1) ram' ->
    space_step (mkSpaces m R) (mkSpaces (mkMachine (m_alloc m1) ram') R)
| ss_free m R f :
    fresh m R f -> space_step (mkSpaces m R) (mkSpaces (mkMachine (free (m_alloc m) f) (m_ram m)) R).

Module SpaceSteps.
Import SpaceFacts.

Lemma take_ok (m m1 : Machine) (R : list Z) (f : Z) :
  spaces_wf m R -> take_frame FrameAllocFailed m = Done (m1, Ok f) -> spaces_wf m1 R /\ fresh m1 R f.
Proof.
  intros W H. destruct (take_frame_spec FrameAllocFailed m R W) as [[E _]|(a' & c & E & A & Hc & _)]; rewrite E in H; [done|].
  injection H as <- <-. split; [apply A|done].
Qed.

Lemma fill_ok (m : Machine) (R : list Z) (f : Z) (ram' : Ram) :
  spaces_wf m R -> fresh m R f -> only_in f (m_ram m) ram' ->
  spaces_wf (mkMachine (m_alloc m) ram') R /\ fresh (mkMachine (m_alloc m) ram') R f.
Proof. intros W Hf Ho. by destruct (wf_scribble m R f ram' W Hf Ho) as (_ & ? & ?). Qed.

Lemma zero_only_in (ram : Ram) (f : Z) : f mod 4096 = 0 -> only_in f ram (zero_frame ram f).
Proof. intros Hf t j Ht Hj Hne. by apply read_zero_ne. Qed.

Lemma heap_spec (m : Machine) (R : list Z) (r va : Z) :
  spaces_wf m R -> r ∈ R -> user_va va ->
  (alloc_page r va m = Done (m, Err FrameAllocFailed) /\ forall j, get_bit (BITMAP (m_alloc m)) j = false) \/
  exists m' res c, alloc_page r va m = Done (m', res) /\ extends R m m' /\
    get_bit (BITMAP (m_alloc m)) (frame_idx c) = true /\ in_use (m_alloc m') c /\
    forall r' p e, r' ∈ R -> leaf m' r' p e <->
      leaf m r' p e \/ (res = Ok tt /\ lookup_pte (m_ram m) r va = None /\ r' = r /\ p = va_path va /\ e = Z.lor c heap_flags).
Proof.
  intros W Hr Hva. unfold alloc_page, M_bind.
  destruct (take_frame_spec FrameAllocFailed m R W) as [[-> Hn]|(a' & c & -> & A & Hc & Hfree)]; [by left|]. right.
  cbn [M_modify on_ram m_alloc m_ram]. unfold on_ram. cbn [m_alloc m_ram].
  pose proof (in_use_aligned _ _ (proj1 Hc)) as Hal. assert (page_base c = c) as Hpb by (rewrite page_base_eq; dlia).
  destruct (extends_fill m _ R c (zero_frame (m_ram m) c) A Hc Hfree) as (A2 & Hc2 & L2 & T2); [by apply zero_only_in|].
  set (m2 := mkMachine _ (zero_frame _ _)) in *. pose proof (ex_wf _ _ _ A2) as W2.
  destruct (fresh_mappable _ R c heap_flags W2 Hc2 eq_refl) as [Hm Hb].
  destruct (map_active_spec m2 R r va c heap_flags W2 Hr Hva Hb eq_refl Hm) as (m3 & res & E & A3 & H3).
  assert (lookup_pte (m_ram m2) r va = lookup_pte (m_ram m) r va) as Hlk.
  { apply (lookup_ext m m2); [done..|]. intros e. rewrite L2 by done. done. }
  exists m3, res, c. split_and!; [done|by eapply extends_trans|done|eapply in_use_extends; [exact A3|apply Hc2]|].
  intros r' p e Hr'. rewrite Hpb, Hlk in H3. destruct res as [[]|err].
  - rewrite H3, L2 by done. change (leaf (mkMachine a' (m_ram m)) r' p e) with (leaf m r' p e). naive_solver.
  - destruct H3 as [H3 _]. rewrite H3, L2 by done. change (leaf (mkMachine a' (m_ram m)) r' p e) with (leaf m r' p e). naive_solver.
Qed.

Lemma free_ok (m : Machine) (R : list Z) (f : Z) :
  spaces_wf m R -> fresh m R f -> spaces_wf (mkMachine (free (m_alloc m) f) (m_ram m)) R.
Proof.
  intros W H.
  assert (given (m_alloc m) (free (m_alloc m) f) [f]) as G by (apply given_one; [apply W|intros _; apply H]).
  apply (wf_same W); [done|apply G|intros i; unfold reserved_frame; by rewrite (gv_dma _ _ _ G)| |].
  - intros r p g Hr Hn. apply (in_use_given _ _ _ _ G); [|by apply (sw_use _ _ W r p)]. intros h ->%list_elem_of_singleton _ E.
    assert (f = g) as -> by (eapply in_use_idx; [apply H|by apply (sw_use _ _ W r p)|done]). by destruct (proj2 H r p Hr).
  - intros r p g Hr Hn. destruct (get_bit (BITMAP (free (m_alloc m) f)) (frame_idx g)) eqn:E; [|done].
    apply (gv_bits _ _ _ G) in E as [E|(h & ->%list_elem_of_singleton & _ & E)]; [by rewrite (proj1 (sw_shared _ _ W r p g Hr Hn)) in E|].
    assert (f = g) as ->; [|by destruct (proj2 H r p Hr)]. pose proof (in_use_aligned _ _ (proj1 H)).
    destruct (in_use_bound _ _ (sw_alloc _ _ W) (proj1 H)) as [? _]. destruct Hn as (e & _ & _ & ->).
    pose proof (entry_phys_aligned e). pose proof (entry_phys_bound e). unfold frame_idx, frame_number, FRAME_SIZE in E. dlia.
Qed.

Lemma space_step_wf (s s' : Spaces) :
  space_step s s' -> spaces_wf (s_machine s) (s_roots s) /\ NoDup (s_roots s) ->
  spaces_wf (s_machine s') (s_roots s') /\ NoDup (s_roots s').
Proof.
  intros Hs [W Hd]. destruct Hs; cbn [s_machine s_roots] in *.
  - destruct (new_spec m R cr3 W) as (m2 & res & E & _ & _ & Hc); [done|done|]. rewrite E in H1. injection H1 as <- ->.
    destruct Hc as (Hn & Wn & _). split; [done|]. by apply NoDup_cons.
  - destruct (new_spec m R cr3 W) as (m2 & res & E & A & _); [done|done|]. rewrite E in H1. injection H1 as <- ->. split; [apply A|done].
  - split; [|done]. destruct (take_ok m m1 R f W H2) as [W1 Hf]. destruct (fill_ok m1 R f ram' W1 Hf H3) as [W2 Hf2].
    destruct (fresh_mappable _ R f flags W2 Hf2 H1) as [Hm Hb].
    destruct (map_spec _ R r va f flags W2 H H0 Hb H1 Hm) as (m2 & res2 & E2 & A2 & _). rewrite E2 in H4. injection H4 as <- <-. apply A2.
  - split; [|done]. destruct (heap_spec m R r va W H H0) as [[E _]|(m2 & res2 & c & E & A & _)]; rewrite E in H1; injection H1 as <- <-; [done|apply A].
  - split; [|done]. destruct H3 as (Hp & Hb & Hn).
    destruct (map_spec m R r va phys flags W H H0 H1 H2) as (m2 & res2 & E2 & A2 & _); [by split|]. rewrite E2 in H4. injection H4 as <- <-. apply A2.
  - split; [|done]. pose proof (unmap_spec m R r va W H H0) as Hu. destruct (lookup_pte (m_ram m) r va) as [pte|].
    + destruct Hu as (m2 & E & W2 & _). rewrite E in H1. by injection H1 as <- <-.
    + rewrite Hu in H1. by injection H1 as <- <-.
  - rewrite H in Hd. apply NoDup_cons in Hd as [Hn Hd]. split; [|done]. apply release_wf; [|done].
    apply (wf_equiv m R); [|done]. intros x. by rewrite H.
  - split; [|done]. by apply (store_spec m R r va pa b).
  - split; [|done]. destruct (take_ok m m1 R f W H) as [W1 Hf]. by apply (fill_ok m1 R f).
  - split; [|done]. by apply free_ok.
Qed.

Lemma spaces_boot_wf (a : BitmapAllocator) (ram : Ram) : alloc_ok a -> spaces_wf (mkMachine a ram) [].
Proof. intros Ha. split; [done|..]; intros; by match goal with H : _ ∈ [] |- _ => apply not_elem_of_nil in H end. Qed.

Lemma steps_wf (a : BitmapAllocator) (ram : Ram) (s : Spaces) :
  alloc_ok a -> rtc space_step (mkSpaces (mkMachine a ram) []) s -> spaces_wf (s_machine s) (s_roots s) /\ NoDup (s_roots s).
Proof.
  intros Ha. apply (rtc_ind_r (fun s => spaces_wf (s_machine s) (s_roots s) /\ NoDup (s_roots s))).
  - split; [by apply spaces_boot_wf|by apply NoDup_nil].
  - intros x y _ Hs IH. by apply (space_step_wf x).
Qed.

End SpaceSteps.

(** ** Properties *)

Import SpaceFacts SpaceSteps.

(** C3: Address spaces are isolated.  Whatever sequence of spawns, loads, heap
    allocations, device mappings, unmappings, deaths and stores by the tasks
    themselves leads to a state: two pages of RAM that two mappings share are
    the same page of the same space; no task's mapping, device memory
    included, reaches a page table of any space; every page of RAM and every
    table of a live space is out of the allocator's pool.  A store by a task
    changes no translation of any space, and no byte of RAM another space can
    read. *)
Theorem address_spaces_isolated (a : BitmapAllocator) (ram : Ram) (s : Spaces) (m := s_machine s) (R := s_roots s) :
  alloc_ok a -> rtc space_step (mkSpaces (mkMachine a ram) []) s ->
  (forall r1 r2 va1 va2 e1 e2, r1 ∈ R -> r2 ∈ R -> user_va va1 -> user_va va2 ->
     lookup_pte (m_ram m) r1 va1 = Some e1 -> lookup_pte (m_ram m) r2 va2 = Some e2 ->
     private (m_alloc m) e1 -> private (m_alloc m) e2 -> entry_phys e1 = entry_phys e2 ->
     r1 = r2 /\ va1 / PAGE_SIZE = va2 / PAGE_SIZE) /\
  (forall r r' va e p t, r ∈ R -> r' ∈ R -> user_va va -> lookup_pte (m_ram m) r va = Some e ->
     table m r' p t -> entry_phys e <> t) /\
  (forall r p f, r ∈ R -> node m r p f -> get_bit (BITMAP (m_alloc m)) (frame_idx f) = false) /\
  (forall r va pa b, r ∈ R -> user_va va -> mmu (m_ram m) r true va = Some pa -> is_byte b ->
     let ram' := write_bytes (m_ram m) pa [b] in
     (forall r' va' st, r' ∈ R -> user_va va' -> mmu ram' r' st va' = mmu (m_ram m) r' st va') /\
     (forall r' va' e' pa', r' ∈ R -> r' <> r -> user_va va' -> lookup_pte (m_ram m) r' va' = Some e' -> private (m_alloc m) e' ->
        mmu (m_ram m) r' false va' = Some pa' -> load8 ram' pa' = load8 (m_ram m) pa')).
Proof.
  intros Ha Hs. destruct (steps_wf a ram s Ha Hs) as [W _]. fold m R in W. split_and!.
  - intros r1 r2 va1 va2 e1 e2 H1 H2 Hv1 Hv2 L1%lookup_leaf L2%lookup_leaf P1 P2 E; [|done..].
    destruct (sw_inj _ _ W r1 r2 (va_path va1) (va_path va2) (entry_phys e1)) as [-> Hp]; try done; [right; by exists e1|right; exists e2; by rewrite E|].
    split; [done|]. by apply va_path_inj.
  - intros r r' va e p t Hr Hr' Hva L%lookup_leaf Ht <-; [|done]. by apply (leaf_no_table m R r r' e (va_path va) p).
  - intros r p f Hr Hn. by apply in_use_bit, (sw_use _ _ W r p).
  - intros r va pa b Hr Hva Hm Hb ram'. destruct (store_spec m R r va pa b W Hr Hva Hm) as [Hs' _]. split.
    + intros r' va' st Hr' Hva'. by apply (mmu_ext m R).
    + intros r' va' e' pa' Hr' Hne Hva' L%lookup_leaf Hp Hm'; [|done].
      apply (mmu_leaf m R) in Hm as (e & He & _ & ->); try done. apply (mmu_leaf m R) in Hm' as (e2 & He2 & _ & ->); try done.
      rewrite (leaf_fun _ _ _ _ _ He2 L). unfold ram'. rewrite load_write_bytes by (by constructor).
      destruct (_ <=? _) eqn:E; [|done]. destruct ([b] !! _) eqn:Eb; [|done]. exfalso. to_prop.
      assert (entry_phys e' + va' mod PAGE_SIZE = entry_phys e + va mod PAGE_SIZE) as Epa.
      { apply lookup_lt_Some in Eb. simpl in Eb. lia. }
      assert (entry_phys e' = entry_phys e) as Ee by (pose proof (entry_phys_aligned e); pose proof (entry_phys_aligned e'); unfold PAGE_SIZE in *; dlia).
      destruct (private_dec (m_alloc m) e) as [Hpe|Hpe].
      * destruct (sw_inj _ _ W r r' (va_path va) (va_path va') (entry_phys e)) as [-> _]; try done; [right; by exists e|right; by exists e'].
      * apply (proj2 (sw_shared _ _ W r (va_path va) (entry_phys e) Hr ltac:(by exists e)) r' (va_path va') Hr'). right. by exists e'.
Qed.

(** Two spaces built by the sample allocator, one page in each. *)
Definition sample_va : Z := 0x400000.
Definition two_spaces : outcome (Machine * result (Z * Z) MapError) :=
  (r1 <- PageTable.new 0x2000 ;; alloc_page r1 sample_va ;;;
   r2 <- PageTable.new 0x2000 ;; alloc_page r2 sample_va ;;; M_ret (r1, r2)) (mkMachine sample_alloc (fun _ => 0)).

Lemma sample_alloc_ok : alloc_ok sample_alloc.
Proof. split; [exact sample_inv|by vm_compute|]. intros i _. assert (min_ram_frame sample_alloc = 0) as -> by (vm_compute; reflexivity). lia. Qed.

Lemma two_spaces_reached (m : Machine) (r1 r2 : Z) :
  two_spaces = Done (m, Ok (r1, r2)) ->
  rtc space_step (mkSpaces (mkMachine sample_alloc (fun _ => 0)) []) (mkSpaces m [r2; r1]).
Proof.
  unfold two_spaces, M_bind. set (m0 := mkMachine sample_alloc (fun _ => 0)).
  destruct (PageTable.new 0x2000 m0) as [[m1 [c1|]]|] eqn:E1; [|done..].
  destruct (alloc_page c1 sample_va m1) as [[m2 [[]|]]|] eqn:E2; [|done..].
  destruct (PageTable.new 0x2000 m2) as [[m3 [c2|]]|] eqn:E3; [|done..].
  destruct (alloc_page c2 sample_va m3) as [[m4 [[]|]]|] eqn:E4; [|done..]. intros [= <- <- <-].
  assert (user_va sample_va) as Hva by (unfold user_va, sample_va; change USER_END with 0x800000000000; lia).
  assert (spaces_wf m0 []) as W0 by apply (spaces_boot_wf _ _ sample_alloc_ok).
  assert (get_bit (BITMAP (m_alloc m0)) (frame_idx 0x2000) = false) as B0 by (vm_compute; reflexivity).
  destruct (new_spec m0 [] 0x2000 W0 B0) as (m1' & res1 & E1' & A1 & _ & H1); [done|]. rewrite E1 in E1'. injection E1' as <- <-.
  destruct H1 as (_ & W1 & _).
  eapply rtc_l; [by apply (ss_new m0 [] 0x2000 m1 c1)|]. eapply rtc_l; [by apply (ss_heap m1 [c1] c1 sample_va m2 (Ok tt)); [left|..]|].
  eapply rtc_l; [apply (ss_new m2 [c1] 0x2000 m3 c2); [done| |done]|].
  2: eapply rtc_l; [by apply (ss_heap m3 [c2; c1] c2 sample_va m4 (Ok tt)); [left|..]|apply rtc_refl].
  destruct (get_bit (BITMAP (m_alloc m2)) (frame_idx 0x2000)) eqn:E; [|done].
  destruct (heap_spec m1 [c1] c1 sample_va W1) as [[E2' _]|(m2' & res & c & E2' & A2 & _)]; [left|done| |]; rewrite E2 in E2'; [done|].
  injection E2' as <- <-. apply (ex_take _ _ _ A2), (ex_take _ _ _ A1) in E. congruence.
Qed.

Lemma address_spaces_isolated_witness :
  exists m r1 r2 e1 e2, two_spaces = Done (m, Ok (r1, r2)) /\
    lookup_pte (m_ram m) r1 sample_va = Some e1 /\ lookup_pte (m_ram m) r2 sample_va = Some e2 /\ r1 <> r2 /\
    mmu (m_ram m) r1 true sample_va = Some (entry_phys e1) /\ entry_phys e1 <> entry_phys e2.
Proof.
  assert (match two_spaces with
          | Done (m, Ok (r1, r2)) =>
              match lookup_pte (m_ram m) r1 sample_va, lookup_pte (m_ram m) r2 sample_va with
              | Some e1, Some e2 => (r1 =? r2) = false /\ mmu (m_ram m) r1 true sample_va = Some (entry_phys e1) /\
                  uncached e1 = false /\ uncached e2 = false /\
                  existsb (in_reserve (Z.of_nat (frame_idx (entry_phys e1)))) (dma_reserves (m_alloc m)) = false /\
                  existsb (in_reserve (Z.of_nat (frame_idx (entry_phys e2)))) (dma_reserves (m_alloc m)) = false
              | _, _ => False end
          | _ => False end) as H by (vm_compute; repeat split; reflexivity).
  destruct two_spaces as [[m [[r1 r2]|]]|] eqn:E; [|contradiction..].
  destruct (lookup_pte (m_ram m) r1 sample_va) as [e1|] eqn:E1; [|contradiction].
  destruct (lookup_pte (m_ram m) r2 sample_va) as [e2|] eqn:E2; [|contradiction]. destruct H as (Hr & Hm & U1 & U2 & D1 & D2).
  exists m, r1, r2, e1, e2. apply Z.eqb_neq in Hr. split_and!; [reflexivity|exact E1|exact E2|exact Hr|exact Hm|]. intros Hphys.
  destruct (address_spaces_isolated sample_alloc (fun _ => 0) (mkSpaces m [r2; r1]) sample_alloc_ok (two_spaces_reached m r1 r2 E)) as (Hi & _).
  assert (user_va sample_va) as Hva by (unfold user_va, sample_va; change USER_END with 0x800000000000; lia).
  destruct (Hi r1 r2 sample_va sample_va e1 e2) as [He _]; try assumption.
  - right. left.
  - left.
  - split; [exact U1|]. unfold reserved_frame. cbn [s_machine]. rewrite D1. discriminate.
  - split; [exact U2|]. unfold reserved_frame. cbn [s_machine]. rewrite D2. discriminate.
  - exact (Hr He).
Defined.

(** C27: The tables are a map from pages to entries.  [map] enters the page at the
    one place it was asked for, if there was nothing there, and changes the
    map of no space anywhere else; it says [AlreadyMapped] only of a page that
    is mapped and [FrameAllocFailed] only when no frame is left, and then no
    map changes.  No word of a frame in use changes but entries of tables.
    [unmap] afterwards returns the frame and leaves every map as it was before. *)
Theorem page_map_refines (m : Machine) (R : list Z) (r va phys flags : Z) (v := Z.lor (page_base phys) flags) :
  spaces_wf m R -> r ∈ R -> user_va va -> 0 <= phys < 2 ^ 52 -> flags_ok flags = true -> mappable m R v ->
  exists m' res, PageTable.map r va phys flags m = Done (m', res) /\ spaces_wf m' R /\
    (forall r' va', r' ∈ R -> user_va va' ->
       lookup_pte (m_ram m') r' va' =
         if bool_decide (res = Ok tt /\ r' = r /\ va' / PAGE_SIZE = va / PAGE_SIZE) then Some v else lookup_pte (m_ram m) r' va') /\
    match res with
    | Ok _ => lookup_pte (m_ram m) r va = None
    | Err AlreadyMapped => lookup_pte (m_ram m) r va <> None
    | Err FrameAllocFailed => forall j, get_bit (BITMAP (m_alloc m')) j = false
    | Err NotMapped => False
    end /\
    (forall f j, f mod 4096 = 0 -> (j < 512)%nat -> get_bit (BITMAP (m_alloc m)) (frame_idx f) = false ->
       (forall r' p, r' ∈ R -> ~ table m r' p f) -> read_entry (m_ram m') f j = read_entry (m_ram m) f j) /\
    (res = Ok tt -> exists m'', PageTable.unmap r va m' = Done (m'', Ok (page_base phys)) /\ spaces_wf m'' R /\
       forall r' va', r' ∈ R -> user_va va' -> lookup_pte (m_ram m'') r' va' = lookup_pte (m_ram m) r' va').
Proof.
  intros W Hr Hva Hph Hf Hm. destruct (map_spec m R r va phys flags W Hr Hva Hph Hf Hm) as (m' & res & E & A & H). fold v in H.
  assert (entry_phys v = page_base phys) as Hev.
  { apply entry_phys_lor; [rewrite page_base_eq; dlia..|done]. }
  exists m', res. split_and!; [done|apply A| | |apply A|].
  - intros r' va' Hr' Hva'. destruct res as [[]|err].
    + destruct H as [Hn Hl]. case_bool_decide as Hd.
      * destruct Hd as (_ & -> & Hp). apply lookup_leaf; [done|]. apply Hl; [done|]. right. split_and!; [done|by apply same_page_path|done].
      * apply lookup_ext; [done..|]. intros e. rewrite Hl by done. split; [|by left]. intros [?|(-> & Hp & _)]; [done|].
        exfalso. apply Hd. split_and!; [done..|by apply va_path_inj].
    + rewrite bool_decide_false by naive_solver. destruct H as [Hl _]. apply lookup_ext; [done..|]. intros e. by apply Hl.
  - destruct res as [[]|err]; [apply H|]. by destruct H as [_ [[-> ?]|[-> ?]]].
  - intros ->. destruct H as [Hn Hl]. assert (lookup_pte (m_ram m') r va = Some v) as Hlv.
    { apply lookup_leaf; [done|]. apply Hl; [done|]. by right. }
    pose proof (unmap_spec m' R r va (ex_wf _ _ _ A) Hr Hva) as Hu. rewrite Hlv, Hev in Hu. destruct Hu as (m2 & Eu & Wu & _ & Lu).
    exists m2. split_and!; [done..|]. intros r' va' Hr' Hva'. apply lookup_ext; [done..|]. intros e. rewrite Lu, Hl by done. split.
    + intros [[?|(-> & Hp & _)] Hne]; [done|]. by destruct Hne.
    + intros He. split; [by left|]. intros [-> Hp]. rewrite Hp in He. apply lookup_leaf in He; [|done]. congruence.
Qed.

Lemma page_map_refines_witness :
  exists m r m', PageTable.new 0x2000 (mkMachine sample_alloc (fun _ => 0)) = Done (m, Ok r) /\
    PageTable.map r sample_va 0xFEB00000 (Z.lor heap_flags PageFlags.PCD) m = Done (m', Ok tt) /\
    lookup_pte (m_ram m') r (sample_va + 5) = Some (Z.lor 0xFEB00000 (Z.lor heap_flags PageFlags.PCD)).
Proof.
  assert (get_bit (BITMAP sample_alloc) (frame_idx 0x2000) = false) as B0 by (vm_compute; reflexivity).
  destruct (new_spec (mkMachine sample_alloc (fun _ => 0)) [] 0x2000 (spaces_boot_wf _ _ sample_alloc_ok) B0) as (m & res & E & A & _ & H); [lia|].
  destruct res as [r|err]; [|exfalso; destruct H as (_ & _ & H); specialize (H 4%nat); vm_compute in H; discriminate H].
  destruct H as (_ & W & Hno & _ & _). set (fl := Z.lor heap_flags PageFlags.PCD).
  assert (forall va, 0x400000 <= va < 0x401000 -> user_va va) as Hva by (unfold user_va; change USER_END with 0x800000000000; lia).
  assert (entry_phys (Z.lor (page_base 0xFEB00000) fl) = 0xFEB00000) as Hev by (vm_compute; reflexivity).
  assert (mappable m [r] (Z.lor (page_base 0xFEB00000) fl)) as Hm.
  { assert (~ private (m_alloc m) (Z.lor (page_base 0xFEB00000) fl)) as Hp by (intros [Hu _]; vm_compute in Hu; discriminate Hu).
    split; [contradiction|]. intros _. rewrite Hev. split.
    - destruct (get_bit (BITMAP (m_alloc m)) (frame_idx 0xFEB00000)) eqn:Eb; [|reflexivity]. apply (ex_take _ _ _ A) in Eb. vm_compute in Eb. discriminate Eb.
    - intros r' p Hr' Hn. pose proof (sw_use _ _ W r' p _ Hr' Hn) as Hu. pose proof (in_use_ram _ _ (sw_alloc _ _ W) Hu) as Hram.
      unfold phys_in_ram in Hram. rewrite (ex_min _ _ _ A), (ev_ram _ _ (ex_alloc _ _ _ A)) in Hram. vm_compute in Hram. discriminate Hram. }
  destruct (page_map_refines m [r] r sample_va 0xFEB00000 fl W) as (m' & res & Em & _ & Hl & Hres & _ & _);
    [left|apply Hva; unfold sample_va; lia|lia|vm_compute; reflexivity|exact Hm|].
  exists m, r, m'. split; [exact E|]. destruct res as [[]|err].
  - split; [exact Em|]. rewrite Hl; [|left|apply Hva; unfold sample_va; lia]. rewrite bool_decide_true by (split_and!; reflexivity). reflexivity.
  - exfalso. assert (match PageTable.new 0x2000 (mkMachine sample_alloc (fun _ => 0)) with
      | Done (m, Ok r) => match PageTable.map r sample_va 0xFEB00000 fl m with Done (_, Ok _) => True | _ => False end
      | _ => False end) as Hc by (vm_compute; exact I).
    rewrite E, Em in Hc. exact Hc.
Defined.

(** C16: A task's death gives back exactly its memory.  After the walk and the
    release of the root, a frame is free if and only if it was free before or
    was a table or a page of RAM of that space; nothing is freed twice; memory
    is untouched and the other spaces stay well-formed. *)
Theorem release_exact (m : Machine) (r : Z) (R : list Z) :
  spaces_wf m (r :: R) -> r ∉ R -> r <> 0 ->
  let m' := release_space r m in
  (forall j, get_bit (BITMAP (m_alloc m')) j = true <->
     get_bit (BITMAP (m_alloc m)) j = true \/ exists p f, node m r p f /\ frame_idx f = j) /\
  double_frees (m_alloc m') = double_frees (m_alloc m) /\ m_ram m' = m_ram m /\ spaces_wf m' R.
Proof. intros W Hn H0 m'. unfold m'. destruct (release_spec m r R W Hn H0) as (a' & -> & ? & ? & ?). by split_and!. Qed.

Lemma release_exact_witness :
  exists m r1 r2, two_spaces = Done (m, Ok (r1, r2)) /\ free_frames (m_alloc m) = 2 /\
    free_frames (m_alloc (release_space r2 m)) = 7 /\ spaces_wf (release_space r2 m) [r1].
Proof.
  assert (match two_spaces with
          | Done (m, Ok (r1, r2)) => (r1 =? r2) = false /\ (r2 =? 0) = false /\ free_frames (m_alloc m) = 2 /\ free_frames (m_alloc (release_space r2 m)) = 7
          | _ => False end) as H by (vm_compute; repeat split; reflexivity).
  destruct two_spaces as [[m [[r1 r2]|]]|] eqn:E; [|contradiction..]. destruct H as (Hr & H0 & Hf & Hf'). exists m, r1, r2.
  split; [reflexivity|]. split; [exact Hf|]. split; [exact Hf'|].
  destruct (steps_wf _ _ _ sample_alloc_ok (two_spaces_reached m r1 r2 E)) as [W _].
  refine (proj2 (proj2 (proj2 (release_exact m r2 [r1] W _ _)))).
  - intros ->%list_elem_of_singleton. rewrite Z.eqb_refl in Hr. discriminate Hr.
  - apply Z.eqb_neq. exact H0.
Defined.

(** A walk over tables that are there builds nothing. *)
Lemma walk_present (m : Machine) (roots : list Z) (r t flags : Z) (q : list nat) (i : nat) :
  spaces_wf m roots -> r ∈ roots -> table m r q t -> (length q < 3)%nat -> upath (q ++ [i]) ->
  entry_present (read_entry (m_ram m) t i) = true -> walk_or_alloc t i flags m = Done (m, Ok (entry_phys (read_entry (m_ram m) t i))).
Proof.
  intros W Hr Ht Hl Hu Hp. unfold walk_or_alloc, M_bind, M_gets. by rewrite Hp, (sw_small _ _ W r q t i).
Qed.

Lemma active_present (m : Machine) (roots : list Z) (r va phys flags e : Z) :
  spaces_wf m roots -> r ∈ roots -> user_va va -> lookup_pte (m_ram m) r va = Some e ->
  map_in_active_tables r va phys flags m = Done (mkMachine (m_alloc m) (m_ram m), Ok tt).
Proof.
  intros W Hr Hva. pose proof (tables_path_upath va Hva) as Hu. unfold lookup_pte, tables_path. cbn [follow]. unfold child.
  assert (page_base r = r) as Hrb by (rewrite page_base_eq; pose proof (root_aligned W r Hr); dlia).
  assert (table m r [] r) as T0 by (split_and!; [apply upath_nil|simpl; lia|done]).
  destruct (entry_present (read_entry (m_ram m) r (pml4_idx va))) eqn:E4; [|done]. cbn [mbind option_bind].
  assert (table m r [pml4_idx va] (entry_phys (read_entry (m_ram m) r (pml4_idx va)))) as T1.
  { apply (child_table r [] r); [done|simpl; lia|by apply (upath_app _ [pdpt_idx va; pd_idx va])|]. unfold child. by rewrite E4. }
  set (t1 := entry_phys (read_entry (m_ram m) r (pml4_idx va))) in *. destruct (entry_present (read_entry (m_ram m) t1 (pdpt_idx va))) eqn:E3; [|done].
  cbn [mbind option_bind]. assert (table m r [pml4_idx va; pdpt_idx va] (entry_phys (read_entry (m_ram m) t1 (pdpt_idx va)))) as T2.
  { apply (child_table r [pml4_idx va] t1); [done|simpl; lia|by apply (upath_app _ [pd_idx va])|]. unfold child. by rewrite E3. }
  set (t2 := entry_phys (read_entry (m_ram m) t1 (pdpt_idx va))) in *. destruct (entry_present (read_entry (m_ram m) t2 (pd_idx va))) eqn:E2; [|done].
  cbn [mbind option_bind]. destruct (entry_present (read_entry (m_ram m) _ (pt_idx va))) eqn:E1; [|done]. intros _.
  unfold map_in_active_tables, M_bind. rewrite Hrb.
  rewrite (walk_present m roots r r _ []) by (first [done|by apply (upath_app _ [pdpt_idx va; pd_idx va])|simpl; lia]). fold t1.
  rewrite (walk_present m roots r t1 _ [pml4_idx va]) by (first [done|by apply (upath_app _ [pd_idx va])|simpl; lia]). fold t2.
  rewrite (walk_present m roots r t2 _ [pml4_idx va; pdpt_idx va]) by (first [done|simpl; lia]).
  unfold M_modify, on_ram. by rewrite E1.
Qed.

(** [AllocMem] over a page that is mapped already loses a frame.  The call
    reports success, every mapping is what it was, and a frame has left the
    pool that belongs to no space: no death gives it back.  A task gets there
    by having a segment of its image where its heap will be. *)
Theorem heap_over_mapping_leaks (m : Machine) (R : list Z) (r va e : Z) (j : nat) :
  spaces_wf m R -> r ∈ R -> user_va va -> lookup_pte (m_ram m) r va = Some e -> get_bit (BITMAP (m_alloc m)) j = true ->
  exists m' c, alloc_page r va m = Done (m', Ok tt) /\
    (forall r' va', r' ∈ R -> user_va va' -> lookup_pte (m_ram m') r' va' = lookup_pte (m_ram m) r' va') /\
    get_bit (BITMAP (m_alloc m)) (frame_idx c) = true /\ get_bit (BITMAP (m_alloc m')) (frame_idx c) = false /\
    (forall r' p, r' ∈ R -> ~ node m' r' p c).
Proof.
  intros W Hr Hva Hlk Hj. unfold alloc_page, M_bind.
  destruct (take_frame_spec FrameAllocFailed m R W) as [[-> Hn]|(a' & c & -> & A & Hc & Hfree)]; [congruence|].
  cbn [M_modify on_ram m_alloc m_ram]. unfold on_ram. cbn [m_alloc m_ram].
  destruct (extends_fill m _ R c (zero_frame (m_ram m) c) A Hc Hfree) as (A2 & Hc2 & L2 & T2).
  { apply zero_only_in. eapply in_use_aligned, Hc. }
  set (m2 := mkMachine _ (zero_frame _ _)) in *. pose proof (ex_wf _ _ _ A2) as W2.
  assert (forall r' va', r' ∈ R -> user_va va' -> lookup_pte (m_ram m2) r' va' = lookup_pte (m_ram m) r' va') as Hl.
  { intros r' va' Hr' Hva'. apply (lookup_ext m m2); [done..|]. intros e'. by rewrite L2. }
  exists m2, c. rewrite <- (Hl r va Hr Hva) in Hlk. split_and!; [by apply (active_present m2 R r va c heap_flags e)|done|done| |].
  - by apply in_use_bit, Hc2.
  - intros r' p Hr'. by apply Hc2.
Qed.

Lemma heap_over_mapping_leaks_witness :
  exists m r1 r2, two_spaces = Done (m, Ok (r1, r2)) /\
    exists m', alloc_page r1 sample_va m = Done (m', Ok tt) /\ free_frames (m_alloc m) = 2 /\ free_frames (m_alloc m') = 1 /\
               lookup_pte (m_ram m') r1 sample_va = lookup_pte (m_ram m) r1 sample_va.
Proof.
  assert (match two_spaces with
          | Done (m, Ok (r1, r2)) =>
              match lookup_pte (m_ram m) r1 sample_va, alloc_page r1 sample_va m with
              | Some _, Done (m', Ok _) => get_bit (BITMAP (m_alloc m)) 22 = true /\ free_frames (m_alloc m) = 2 /\ free_frames (m_alloc m') = 1
              | _, _ => False end
          | _ => False end) as H by (vm_compute; repeat split; reflexivity).
  destruct two_spaces as [[m [[r1 r2]|]]|] eqn:E; [|contradiction..]. exists m, r1, r2. split; [reflexivity|].
  destruct (lookup_pte (m_ram m) r1 sample_va) as [e|] eqn:E1; [|contradiction].
  destruct (steps_wf _ _ _ sample_alloc_ok (two_spaces_reached m r1 r2 E)) as [W _]. cbn [s_machine s_roots] in W.
  destruct (alloc_page r1 sample_va m) as [[m' [u|]]|] eqn:Ea; [|contradiction..]. destruct H as (Hb & Hf & Hf').
  assert (user_va sample_va) as Hva by (unfold user_va, sample_va; change USER_END with 0x800000000000; lia).
  destruct (heap_over_mapping_leaks m [r2; r1] r1 sample_va e 22 W) as (m2 & c & Ea2 & Hl & _); [right; left|exact Hva|exact E1|exact Hb|].
  exists m'. rewrite Ea2 in Ea. injection Ea as <- <-. split; [reflexivity|]. split; [exact Hf|]. split; [exact Hf'|].
  rewrite <- E1. apply Hl; [right; left|exact Hva].
Defined.
