(* ===== verification/DirectMap.v ===== *)
(** * The kernel's own mappings

    The two boot-time changes to the active tables of [PageTables]:
    [harden_hhdm_nx] makes the direct map of physical memory non-executable,
    [unmap_4k_strided] takes away the guard pages below the kernel stacks.
    Neither assumes anything of how the boot loader laid the tables out. *)

From S2P Require Import Prelude Frames PageTables.

(** Words that only gained a bit, or were only cleared. *)
Definition gains (ram ram' : Ram) : Prop := forall w, ram' w = ram w \/ ram' w = Z.lor (ram w) NX.
Definition clears (ram ram' : Ram) : Prop := forall w, ram' w = ram w \/ ram' w = 0.

Module DirectFacts.

#[local] Arguments read_entry : simpl never.
#[local] Arguments write_entry : simpl never.
#[local] Arguments entry_present : simpl never.
#[local] Arguments entry_huge : simpl never.
#[local] Arguments entry_phys : simpl never.

Lemma nx_mask (e mask : Z) : Z.land mask NX = 0 -> Z.land (Z.lor e NX) mask = Z.land e mask.
Proof. intros H. rewrite Z.land_lor_distr_l, (Z.land_comm NX), H. apply Z.lor_0_r. Qed.

Lemma nx_present (e : Z) : entry_present (Z.lor e NX) = entry_present e.
Proof. unfold entry_present. by rewrite nx_mask. Qed.
Lemma nx_huge (e : Z) : entry_huge (Z.lor e NX) = entry_huge e.
Proof. unfold entry_huge. by rewrite nx_mask. Qed.
Lemma nx_phys (e : Z) : entry_phys (Z.lor e NX) = entry_phys e.
Proof. unfold entry_phys. by rewrite nx_mask. Qed.
Lemma nx_twice (e : Z) : Z.lor (Z.lor e NX) NX = Z.lor e NX.
Proof. by rewrite <- Z.lor_assoc, Z.lor_diag. Qed.

#[export] Instance gains_preorder : PreOrder gains.
Proof.
  split; [by left|]. intros a b c H1 H2 w. destruct (H1 w) as [E1|E1], (H2 w) as [E2|E2]; rewrite E2, E1; auto. right. apply nx_twice.
Qed.

Lemma gains_write (ram : Ram) (t : Z) (i : nat) : gains ram (write_entry ram t i (Z.lor (read_entry ram t i) NX)).
Proof.
  intros w. unfold write_entry. destruct (Z.eqb_spec w (t / 8 + Z.of_nat i)) as [->|_]; [by right|by left].
Qed.

(** An entry seen through [gains]: the same structure. *)
Lemma gains_entry (ram ram' : Ram) (t : Z) (i : nat) (e := read_entry ram t i) (e' := read_entry ram' t i) :
  gains ram ram' -> entry_present e' = entry_present e /\ entry_huge e' = entry_huge e /\ entry_phys e' = entry_phys e /\
                    (e' = e \/ e' = Z.lor e NX).
Proof.
  intros H. unfold e, e', read_entry. destruct (H (t / 8 + Z.of_nat i)) as [E|E]; rewrite E; [by auto 6|].
  split_and!; [apply nx_present|apply nx_huge|apply nx_phys|by right].
Qed.

(** A leaf entry that has been visited. *)
Definition sealed (ram0 ram : Ram) (t : Z) (i : nat) : Prop := read_entry ram t i = Z.lor (read_entry ram0 t i) NX.

Lemma sealed_gains (ram0 ram ram' : Ram) (t : Z) (i : nat) : sealed ram0 ram t i -> gains ram ram' -> sealed ram0 ram' t i.
Proof.
  unfold sealed, read_entry. intros Hs H. destruct (H (t / 8 + Z.of_nat i)) as [E|E]; rewrite E, Hs; [done|]. apply nx_twice.
Qed.

Lemma sealed_write (ram0 ram : Ram) (t : Z) (i : nat) :
  gains ram0 ram -> sealed ram0 (write_entry ram t i (Z.lor (read_entry ram t i) NX)) t i.
Proof.
  intros H. unfold sealed. unfold read_entry at 1, write_entry. rewrite Z.eqb_refl.
  destruct (gains_entry ram0 ram t i H) as (_ & _ & _ & [->| ->]); [done|apply nx_twice].
Qed.

(** A loop over entries each of whose rounds only gains, and settles its own. *)
Lemma fold_gains (step : Ram -> nat -> Ram) (l : list nat) (ram : Ram) :
  (forall ram i, gains ram (step ram i)) -> gains ram (foldl step ram l).
Proof.
  intros Hs. revert ram. induction l as [|i l IH]; intros ram; simpl; [done|]. etransitivity; [apply Hs|apply IH].
Qed.

Lemma fold_settles (ram0 : Ram) (step : Ram -> nat -> Ram) (P : nat -> Ram -> Prop) (l : list nat) (ram : Ram) (i : nat) :
  (forall ram i, gains ram (step ram i)) -> (forall ram i, gains ram0 ram -> P i (step ram i)) ->
  (forall ram ram' i, P i ram -> gains ram ram' -> P i ram') -> gains ram0 ram -> i ∈ l -> P i (foldl step ram l).
Proof.
  intros Hs Hp Hst. revert ram. induction l as [|j l IH]; intros ram Hg Hi; [by apply not_elem_of_nil in Hi|]. simpl.
  apply elem_of_cons in Hi as [->|Hi]; [|apply IH; [|done]; by etransitivity].
  eapply Hst; [by apply Hp|]. by apply fold_gains.
Qed.

(** The leaves below an entry, level by level. *)
Definition pte_done (ram0 : Ram) (pt : Z) (k : nat) (ram : Ram) : Prop :=
  entry_present (read_entry ram0 pt k) = true -> sealed ram0 ram pt k.
Definition pde_done (ram0 : Ram) (pd : Z) (j : nat) (ram : Ram) : Prop :=
  let e := read_entry ram0 pd j in
  entry_present e = true -> if entry_huge e then sealed ram0 ram pd j else forall k, (k < 512)%nat -> pte_done ram0 (entry_phys e) k ram.
Definition pdpte_done (ram0 : Ram) (pdpt : Z) (i : nat) (ram : Ram) : Prop :=
  let e := read_entry ram0 pdpt i in
  entry_present e = true -> if entry_huge e then sealed ram0 ram pdpt i else forall j, (j < 512)%nat -> pde_done ram0 (entry_phys e) j ram.

Lemma pte_stable (ram0 : Ram) (pt : Z) (ram ram' : Ram) (k : nat) : pte_done ram0 pt k ram -> gains ram ram' -> pte_done ram0 pt k ram'.
Proof. intros H G Hp. eapply sealed_gains; eauto. Qed.
Lemma pde_stable (ram0 : Ram) (pd : Z) (ram ram' : Ram) (j : nat) : pde_done ram0 pd j ram -> gains ram ram' -> pde_done ram0 pd j ram'.
Proof.
  unfold pde_done. intros H G Hp. specialize (H Hp). destruct (entry_huge _); [by eapply sealed_gains|].
  intros k Hk. eapply pte_stable; eauto.
Qed.
Lemma pdpte_stable (ram0 : Ram) (pdpt : Z) (ram ram' : Ram) (i : nat) : pdpte_done ram0 pdpt i ram -> gains ram ram' -> pdpte_done ram0 pdpt i ram'.
Proof.
  unfold pdpte_done. intros H G Hp. specialize (H Hp). destruct (entry_huge _); [by eapply sealed_gains|].
  intros k Hk. eapply pde_stable; eauto.
Qed.

Lemma harden_pte_gains (pt : Z) (ram : Ram) (k : nat) : gains ram (harden_pte pt ram k).
Proof. unfold harden_pte. destruct (entry_present _); [apply gains_write|done]. Qed.
Lemma harden_pde_gains (pd : Z) (ram : Ram) (j : nat) : gains ram (harden_pde pd ram j).
Proof.
  unfold harden_pde. destruct (entry_present _); [|done]. cbn [negb]. destruct (entry_huge _); [apply gains_write|].
  apply fold_gains. intros. apply harden_pte_gains.
Qed.
Lemma harden_pdpte_gains (pdpt : Z) (ram : Ram) (i : nat) : gains ram (harden_pdpte pdpt ram i).
Proof.
  unfold harden_pdpte. destruct (entry_present _); [|done]. cbn [negb]. destruct (entry_huge _); [apply gains_write|].
  apply fold_gains. intros. apply harden_pde_gains.
Qed.

Lemma harden_pte_done (ram0 ram : Ram) (pt : Z) (k : nat) : gains ram0 ram -> pte_done ram0 pt k (harden_pte pt ram k).
Proof.
  intros G Hp. unfold harden_pte. destruct (gains_entry ram0 ram pt k G) as (E & _). rewrite E, Hp. by apply sealed_write.
Qed.
Lemma harden_pde_done (ram0 ram : Ram) (pd : Z) (j : nat) : gains ram0 ram -> pde_done ram0 pd j (harden_pde pd ram j).
Proof.
  intros G. unfold pde_done. intros Hp. unfold harden_pde. destruct (gains_entry ram0 ram pd j G) as (E & Eh & Ep & _). rewrite E, Hp, Eh. cbn [negb].
  destruct (entry_huge (read_entry ram0 pd j)); [by apply sealed_write|]. rewrite Ep. intros k Hk.
  apply (fold_settles ram0 _ (pte_done ram0 _)); [apply harden_pte_gains|intros; by apply harden_pte_done|intros; by eapply pte_stable|done|].
  apply elem_of_seq. lia.
Qed.
Lemma harden_pdpte_done (ram0 ram : Ram) (pdpt : Z) (i : nat) : gains ram0 ram -> pdpte_done ram0 pdpt i (harden_pdpte pdpt ram i).
Proof.
  intros G. unfold pdpte_done. intros Hp. unfold harden_pdpte. destruct (gains_entry ram0 ram pdpt i G) as (E & Eh & Ep & _). rewrite E, Hp, Eh. cbn [negb].
  destruct (entry_huge (read_entry ram0 pdpt i)); [by apply sealed_write|]. rewrite Ep. intros j Hj.
  apply (fold_settles ram0 _ (pde_done ram0 _)); [apply harden_pde_gains|intros; by apply harden_pde_done|intros; by eapply pde_stable|done|].
  apply elem_of_seq. lia.
Qed.

Lemma walk_gains (a : BitmapAllocator) (ram ram' : Ram) (t : Z) (i : nat) : gains ram ram' -> walk a ram' t i = walk a ram t i.
Proof. intros G. unfold walk. by destruct (gains_entry ram ram' t i G) as (-> & _ & -> & _). Qed.

Lemma index_lt (va k : Z) : (Z.to_nat (Z.land (Z.shiftr va k) 0x1FF) < 512)%nat.
Proof. change 0x1FF with (Z.ones 9). rewrite Z.land_ones by lia. pose proof (Z.mod_pos_bound (Z.shiftr va k) (2 ^ 9)). lia. Qed.

(** ** Clearing entries *)

#[export] Instance clears_preorder : PreOrder clears.
Proof.
  split; [by left|]. intros a b c H1 H2 w. destruct (H1 w) as [E1|E1], (H2 w) as [E2|E2]; rewrite E2, ?E1; auto.
Qed.

Lemma clears_entry (ram ram' : Ram) (t : Z) (i : nat) :
  clears ram ram' -> read_entry ram' t i = read_entry ram t i \/ entry_present (read_entry ram' t i) = false.
Proof. intros H. unfold read_entry. destruct (H (t / 8 + Z.of_nat i)) as [->| ->]; auto. Qed.

Lemma unmap_clears (cr3 va : Z) (m : Machine) :
  clears (m_ram m) (m_ram (unmap_active_4k cr3 va m)) /\ m_alloc (unmap_active_4k cr3 va m) = m_alloc m.
Proof.
  unfold unmap_active_4k. destruct (walk _ _ _ _) as [pdpt|]; [|done]. destruct (_ || _); [done|]. destruct (_ || _); [done|].
  split; [|done]. intros w. cbn [on_ram m_ram]. unfold write_entry. case_match; auto.
Qed.

(** The page is mapped by a large page, or not at all. *)
Definition no_small_page (a : BitmapAllocator) (ram : Ram) (cr3 va : Z) : Prop :=
  forall pdpt, walk a ram (page_base cr3) (pml4_idx va) = Some pdpt ->
  let pdpt_e := read_entry ram pdpt (pdpt_idx va) in
  entry_present pdpt_e = true -> entry_huge pdpt_e = false ->
  let pd_e := read_entry ram (entry_phys pdpt_e) (pd_idx va) in
  entry_present pd_e = true -> entry_huge pd_e = false ->
  entry_present (read_entry ram (entry_phys pd_e) (pt_idx va)) = false.

Lemma no_small_clears (a : BitmapAllocator) (ram ram' : Ram) (cr3 va : Z) :
  no_small_page a ram cr3 va -> clears ram ram' -> no_small_page a ram' cr3 va.
Proof.
  intros H C pdpt Hw pdpt_e Hp Hh pd_e Hp2 Hh2.
  assert (walk a ram (page_base cr3) (pml4_idx va) = Some pdpt) as Hw0.
  { revert Hw. unfold walk. destruct (phys_in_ram a (page_base cr3)); [|done]. cbn [negb].
    destruct (clears_entry ram ram' (page_base cr3) (pml4_idx va) C) as [->| ->]; done. }
  unfold pd_e, pdpt_e in *. clear pd_e pdpt_e. destruct (clears_entry ram ram' pdpt (pdpt_idx va) C) as [E|E]; [|congruence]. rewrite E in *.
  destruct (clears_entry ram ram' (entry_phys (read_entry ram pdpt (pdpt_idx va))) (pd_idx va) C) as [E2|E2]; [|congruence]. rewrite E2 in *.
  specialize (H pdpt Hw0 Hp Hh Hp2 Hh2).
  destruct (clears_entry ram ram' (entry_phys (read_entry ram (entry_phys (read_entry ram pdpt (pdpt_idx va))) (pd_idx va))) (pt_idx va) C) as [->|?]; done.
Qed.

(** Clearing the entry may clear a table above it, where tables overlap. *)
Lemma unmap_no_small (cr3 va : Z) (m : Machine) :
  no_small_page (m_alloc m) (m_ram (unmap_active_4k cr3 va m)) cr3 va.
Proof.
  destruct (unmap_clears cr3 va m) as [C _]. set (ram' := m_ram (unmap_active_4k cr3 va m)) in *.
  intros pdpt Hw pdpt_e Hp Hh pd_e Hp2 Hh2. assert (walk (m_alloc m) (m_ram m) (page_base cr3) (pml4_idx va) = Some pdpt) as Hw0.
  { revert Hw. unfold walk. destruct (phys_in_ram (m_alloc m) (page_base cr3)); [|done]. cbn [negb].
    destruct (clears_entry (m_ram m) ram' (page_base cr3) (pml4_idx va) C) as [->| ->]; done. }
  unfold pd_e, pdpt_e in *. clear pd_e pdpt_e. destruct (clears_entry (m_ram m) ram' pdpt (pdpt_idx va) C) as [E|E]; [|congruence].
  rewrite E in *. set (pd := entry_phys (read_entry (m_ram m) pdpt (pdpt_idx va))) in *.
  destruct (clears_entry (m_ram m) ram' pd (pd_idx va) C) as [E2|E2]; [|congruence]. rewrite E2 in *. unfold ram', unmap_active_4k.
  rewrite Hw0. rewrite Hp, Hh. fold pd. rewrite Hp2, Hh2. cbn [negb orb on_ram m_ram].
  unfold read_entry at 1, write_entry. by rewrite Z.eqb_refl.
Qed.

Lemma fold_clears (f : nat -> Z) (cr3 : Z) (l : list nat) (m : Machine) (m' := foldl (fun m i => unmap_active_4k cr3 (f i) m) m l) :
  clears (m_ram m) (m_ram m') /\ m_alloc m' = m_alloc m /\ forall i, i ∈ l -> no_small_page (m_alloc m) (m_ram m') cr3 (f i).
Proof.
  unfold m'. clear m'. revert m. induction l as [|j l IH]; intros m; simpl.
  - split_and!; [done|done|]. by intros i ?%not_elem_of_nil.
  - destruct (unmap_clears cr3 (f j) m) as [C A]. destruct (IH (unmap_active_4k cr3 (f j) m)) as (C' & A' & H). rewrite A in *.
    split_and!; [by etransitivity|done|]. intros i [->|Hi]%elem_of_cons; [|by apply H].
    eapply no_small_clears; [apply unmap_no_small|done].
Qed.

End DirectFacts.

(** ** Properties *)

Import DirectFacts.

(** C32: The direct map holds no code.  After [harden_hhdm_nx] every address in the
    direct map's slot of the root is mapped exactly as before, by a page of
    the same size at the same place with the same rights, but for the
    no-execute bit, which is set; nothing else in memory has changed than that
    bit of some words.  This whatever the shape of the tables. *)
Theorem direct_map_not_executable (m : Machine) (cr3 hhdm va : Z) (m' := harden_hhdm_nx cr3 hhdm m) :
  hhdm <> 0 -> pml4_idx va = pml4_idx hhdm ->
  entry_for_va (m_alloc m') (m_ram m') cr3 va = (fun e => Z.lor e NX) <$> entry_for_va (m_alloc m) (m_ram m) cr3 va /\
  (forall w, m_ram m' w = m_ram m w \/ m_ram m' w = Z.lor (m_ram m w) NX) /\ m_alloc m' = m_alloc m.
Proof.
  intros H0 Hva. unfold m', harden_hhdm_nx. rewrite (proj2 (Z.eqb_neq hhdm 0) H0). unfold entry_for_va. rewrite Hva.
  destruct (walk (m_alloc m) (m_ram m) (page_base cr3) (pml4_idx hhdm)) as [pdpt|] eqn:Ew.
  2: { rewrite Ew. split_and!; [done|by left|done]. }
  cbn [on_ram m_ram m_alloc]. set (ram' := foldl _ _ _).
  assert (gains (m_ram m) ram') as G by (apply fold_gains; apply harden_pdpte_gains).
  assert (forall i, (i < 512)%nat -> pdpte_done (m_ram m) pdpt i ram') as D.
  { intros i Hi. apply (fold_settles (m_ram m) _ (pdpte_done (m_ram m) pdpt)); [apply harden_pdpte_gains|intros; by apply harden_pdpte_done|
      intros; by eapply pdpte_stable|done|apply elem_of_seq; lia]. }
  split_and!; [|exact G|done]. rewrite (walk_gains _ _ ram' _ _ G), Ew. cbn [mbind option_bind].
  specialize (D (pdpt_idx va) (index_lt va 30)). unfold pdpte_done in D.
  destruct (gains_entry (m_ram m) ram' pdpt (pdpt_idx va) G) as (-> & -> & -> & _).
  destruct (entry_present (read_entry (m_ram m) pdpt _)) eqn:E3; [|done]. specialize (D eq_refl). cbn [negb].
  destruct (entry_huge (read_entry (m_ram m) pdpt _)); [cbn [fmap option_fmap option_map]; by rewrite D|].
  specialize (D (pd_idx va) (index_lt va 21)). unfold pde_done in D. set (pd := entry_phys (read_entry (m_ram m) pdpt _)) in *.
  destruct (gains_entry (m_ram m) ram' pd (pd_idx va) G) as (-> & -> & -> & _).
  destruct (entry_present (read_entry (m_ram m) pd _)) eqn:E2; [|done]. specialize (D eq_refl). cbn [negb].
  destruct (entry_huge (read_entry (m_ram m) pd _)); [cbn [fmap option_fmap option_map]; by rewrite D|].
  specialize (D (pt_idx va) (index_lt va 12)). unfold pte_done in D. set (pt := entry_phys (read_entry (m_ram m) pd _)) in *.
  destruct (gains_entry (m_ram m) ram' pt (pt_idx va) G) as (-> & _).
  destruct (entry_present (read_entry (m_ram m) pt _)) eqn:E1; [|done]. cbn [fmap option_fmap option_map]. by rewrite D.
Qed.

(** The guard pages are gone.  After [unmap_4k_strided] no 4 KiB page maps any
    of the addresses it was given, and memory has changed only by entries set
    to 0. *)
Theorem guard_pages_unmapped (m : Machine) (cr3 base stride : Z) (n i : nat) (m' := unmap_4k_strided cr3 base stride n m) :
  (i < n)%nat ->
  no_small_page (m_alloc m') (m_ram m') cr3 (base + Z.of_nat i * stride) /\ clears (m_ram m) (m_ram m') /\ m_alloc m' = m_alloc m.
Proof.
  intros Hi. destruct (fold_clears (fun i => base + Z.of_nat i * stride) cr3 (seq 0 n) m) as (C & A & H). unfold m', unmap_4k_strided.
  split_and!; [|done|done]. rewrite A. apply (H i). apply elem_of_seq. lia.
Qed.

(** A root whose slot 256 has a table with one 1 GiB page and one table below. *)
Definition sample_tables : Machine :=
  mkMachine sample_alloc
    (write_entry (write_entry (write_entry (fun _ => 0) 0x1000 256 0x4003) 0x4000 0 0x83) 0x4000 1 0x5003).

Lemma direct_map_not_executable_witness :
  entry_for_va sample_alloc (m_ram (harden_hhdm_nx 0x1000 0xFFFF800000000000 sample_tables)) 0x1000 0xFFFF800000001234 =
  Some (Z.lor 0x83 NX).
Proof.
  destruct (direct_map_not_executable sample_tables 0x1000 0xFFFF800000000000 0xFFFF800000001234) as (H & _ & Ha).
  - discriminate.
  - vm_compute. reflexivity.
  - rewrite Ha in H. refine (eq_trans H _). vm_compute. reflexivity.
Defined.
