(* ===== verification/Loader.v ===== *)
(** * The ELF loader

    [kernel/src/loader.rs] and [kernel/src/elf_flags.rs], as the x86-64 kernel
    builds them ([ELF_CLASS] and [ELF_MACHINE]).  The image is in the kernel or
    in the caller's memory; fetch [i] of the caller's memory reads [mem i],
    which the caller may change from one fetch to the next.  The proofs are in
    [Loading]. *)

From S2P Require Import Prelude Prog Frames Abi PageTables AddressSpaces.

Inductive LoadError :=
| TooSmall
| BadMagic
| NotElf64
| WrongArch
| NotExecutable
| BadProgramHeader
| SegmentOutOfBounds
| LoadMapFailed (e : MapError)
| LoadFrameAllocFailed.

(** ** Permissions of a segment *)

Definition PF_X : Z := 1.
Definition PF_W : Z := 2.
Definition PF_R : Z := 4.

Definition segment_writable (p_flags : Z) : bool := negb (Z.land p_flags PF_W =? 0).
Definition segment_no_exec (p_flags : Z) : bool :=
  negb (Z.land p_flags PF_W =? 0) || negb (negb (Z.land p_flags PF_X =? 0)).
Definition segment_is_wx (p_flags : Z) : bool := negb (Z.land p_flags PF_W =? 0) && negb (Z.land p_flags PF_X =? 0).

Definition segment_flags (p_flags : Z) : Z :=
  let flags := Z.lor PageFlags.PRESENT PageFlags.USER in
  let flags := if segment_writable p_flags then Z.lor flags PageFlags.WRITABLE else flags in
  if segment_no_exec p_flags then Z.lor flags PageFlags.NO_EXEC else flags.

(** ** Headers *)

Definition ELF_MAGIC : list Z := [0x7f; 69; 76; 70].
Definition ELFCLASS64 : Z := 2.
Definition ELFDATA2LSB : Z := 1.
Definition ET_EXEC : Z := 2.
Definition PT_LOAD : Z := 1.
Definition ELF_MACHINE : Z := 62.
Definition ELF_CLASS : Z := 2.
Definition EI_CLASS : nat := 4.
Definition EI_DATA : nat := 5.

Definition ehdr_size (class : Z) : Z := if class =? ELFCLASS64 then 64 else 52.
Definition phdr_size (class : Z) : Z := if class =? ELFCLASS64 then 56 else 32.

(** The field of [n] bytes at [o], which the callers know to be there. *)
Definition rd (n : nat) (b : list Z) (o : Z) : Z := from_le_bytes (take n (drop (Z.to_nat o) b)).
Definition rd16 : list Z -> Z -> Z := rd 2.
Definition rd32 : list Z -> Z -> Z := rd 4.
Definition rd64 : list Z -> Z -> Z := rd 8.
Definition rdaddr (b : list Z) (o class : Z) : Z := if class =? ELFCLASS64 then rd64 b o else rd32 b o.

Record NormEhdr := mkEhdr { e_type : Z; e_machine : Z; e_entry : Z; e_phoff : Z; e_phentsize : Z; e_phnum : Z }.

Definition read_ehdr (bytes : list Z) (class : Z) : NormEhdr :=
  let '(phoff_off, phentsize_off, phnum_off) := if class =? ELFCLASS64 then (32, 54, 56) else (28, 42, 44) in
  mkEhdr (rd16 bytes 16) (rd16 bytes 18) (rdaddr bytes 24 class) (rdaddr bytes phoff_off class)
    (rd16 bytes phentsize_off) (rd16 bytes phnum_off).

Record NormPhdr := mkPhdr { p_type : Z; p_flags : Z; p_offset : Z; p_vaddr : Z; p_filesz : Z; p_memsz : Z }.

Definition read_phdr (bytes : list Z) (off class : Z) : NormPhdr :=
  if class =? ELFCLASS64 then
    mkPhdr (rd32 bytes off) (rd32 bytes (off + 4)) (rd64 bytes (off + 8)) (rd64 bytes (off + 16))
      (rd64 bytes (off + 32)) (rd64 bytes (off + 40))
  else
    mkPhdr (rd32 bytes off) (rd32 bytes (off + 24)) (rd32 bytes (off + 4)) (rd32 bytes (off + 8))
      (rd32 bytes (off + 16)) (rd32 bytes (off + 20)).

(** ** The image *)

Definition copy_user_to_kernel (mem : UserMem) (src len : Z) : option (list Z) :=
  if len =? 0 then Some []
  else if PAGE_SIZE <? len then None
  else if negb (validate_user_ptr src len) then None
  else Some (bytes_at mem src len).

Module ImageSource.
Inductive t := Kernel (b : list Z) | User (base len : Z).
Definition len (self : t) : Z := match self with Kernel b => Z.of_nat (length b) | User _ len => len end.
End ImageSource.

Definition HEADER_WINDOW : Z := 4096.

(** The machine, and the number of fetches from the caller's memory so far. *)
Record LoadState := mkLoad {
  ld_machine : Machine;
  ld_fetches : nat
}.

Notation Load := (Prog LoadState LoadError).

Record LoadedElf := mkLoaded { page_table : Z; entry_va : Z; mapped_bytes : Z }.

Section Loader.
Variable mem : nat -> UserMem.
Variable cr3 : Z.
Variable src : ImageSource.t.

(** [read_into]: the bytes, or [None] for [false]. *)
Definition read_into (off len : Z) : Load (option (list Z)) :=
  match checked_add64 off len with
  | None => M_ret None
  | Some e =>
      if ImageSource.len src <? e then M_ret None
      else match src with
           | ImageSource.Kernel b => M_ret (Some (take (Z.to_nat len) (drop (Z.to_nat off) b)))
           | ImageSource.User base _ => fun s =>
               Done (mkLoad (ld_machine s) (S (ld_fetches s)),
                     Ok (copy_user_to_kernel (mem (ld_fetches s)) (wrap64 (base + off)) len))
           end
  end.

(** A routine of the page tables, its error as the loader's. *)
Definition on_tables {E A} (err : E -> LoadError) (p : Prog Machine E A) : Load A := fun s =>
  match p (ld_machine s) with
  | Done (m, Ok a) => Done (mkLoad m (ld_fetches s), Ok a)
  | Done (m, Err e) => Done (mkLoad m (ld_fetches s), Err (err e))
  | Panic => Panic
  end.

Definition poke (f : Ram -> Ram) : Load unit := M_modify (fun s => mkLoad (on_ram f (ld_machine s)) (ld_fetches s)).

(** One page of a segment: a zeroed frame, the bytes of the file that fall in
    it, the mapping. *)
Definition load_page (root : Z) (ph : NormPhdr) (va : Z) : Load unit :=
  phys <- on_tables id (take_frame LoadFrameAllocFailed) ;;
  poke (fun ram => zero_frame ram phys) ;;;
  let page_end := wrap64 (va + PAGE_SIZE) in
  let copy_start := Z.max va (p_vaddr ph) in
  let copy_end := Z.min page_end (wrap64 (p_vaddr ph + p_filesz ph)) in
  (if copy_start <? copy_end then
     b <- read_into (wrap64 (p_offset ph + (copy_start - p_vaddr ph))) (copy_end - copy_start) ;;
     match b with
     | Some b => poke (fun ram => write_bytes ram (phys + (copy_start - va)) b)
     | None => M_fail SegmentOutOfBounds
     end
   else M_ret tt) ;;;
  on_tables LoadMapFailed (PageTable.map root va phys (segment_flags (p_flags ph))).

Definition va_start (ph : NormPhdr) : Z := page_base (p_vaddr ph).
Definition va_end (ph : NormPhdr) : Z := page_base (wrap64 (wrap64 (p_vaddr ph + p_memsz ph) + PAGE_SIZE - 1)).

(** [while va < va_end]: both ends are multiples of the page size. *)
Fixpoint load_pages (root : Z) (ph : NormPhdr) (va : Z) (pages : nat) : Load unit :=
  match pages with
  | O => M_ret tt
  | S pages => load_page root ph va ;;; load_pages root ph (va + PAGE_SIZE) pages
  end.

Definition load_segment (root : Z) (ph : NormPhdr) (mapped : Z) : Load Z :=
  if negb (p_type ph =? PT_LOAD) then M_ret mapped
  else if p_memsz ph <? p_filesz ph then M_fail BadProgramHeader
  else match checked_add64 (p_offset ph) (p_filesz ph) with
       | None => M_fail SegmentOutOfBounds
       | Some e =>
           if ImageSource.len src <? e then M_fail SegmentOutOfBounds
           else
             load_pages root ph (va_start ph) (Z.to_nat ((va_end ph - va_start ph) / PAGE_SIZE)) ;;;
             M_ret (wrap64 (mapped + wrap64 (va_end ph - va_start ph)))
       end.

(** The program headers from the [i]-th on, [n] of them. *)
Fixpoint load_headers (bytes : list Z) (eh : NormEhdr) (root : Z) (i n : nat) (mapped : Z) : Load Z :=
  match n with
  | O => M_ret mapped
  | S n =>
      match checked_add64 (e_phoff eh) (Z.of_nat i * e_phentsize eh) with
      | None => M_fail BadProgramHeader
      | Some off =>
          match checked_add64 off (phdr_size ELF_CLASS) with
          | None => M_fail BadProgramHeader
          | Some e =>
              if Z.of_nat (length bytes) <? e then M_fail BadProgramHeader
              else
                mapped <- load_segment root (read_phdr bytes off ELF_CLASS) mapped ;;
                load_headers bytes eh root (S i) n mapped
          end
      end
  end.

Definition byte_at (b : list Z) (i : nat) : Z := default 0 (b !! i).

(** The checks on the fixed header. *)
Definition header_error (bytes : list Z) : option LoadError :=
  if (ImageSource.len src <? 16) || (Z.of_nat (length bytes) <? 16) then Some TooSmall
  else if negb (bool_decide (take 4 bytes = ELF_MAGIC)) then Some BadMagic
  else if negb (byte_at bytes EI_CLASS =? ELF_CLASS) then Some NotElf64
  else if negb (byte_at bytes EI_DATA =? ELFDATA2LSB) then Some NotElf64
  else if Z.of_nat (length bytes) <? ehdr_size ELF_CLASS then Some TooSmall
  else
    let eh := read_ehdr bytes ELF_CLASS in
    if negb (e_type eh =? ET_EXEC) then Some NotExecutable
    else if negb (e_machine eh =? ELF_MACHINE) then Some WrongArch
    else if e_phentsize eh <? phdr_size ELF_CLASS then Some BadProgramHeader
    else None.

Definition load_from : Load LoadedElf :=
  hdr <- read_into 0 (Z.min (ImageSource.len src) HEADER_WINDOW) ;;
  match hdr with
  | None => M_fail TooSmall
  | Some bytes =>
      match header_error bytes with
      | Some e => M_fail e
      | None =>
          let eh := read_ehdr bytes ELF_CLASS in
          root <- on_tables LoadMapFailed (PageTable.new cr3) ;;
          mapped <- load_headers bytes eh root 0 (Z.to_nat (e_phnum eh)) 0 ;;
          M_ret (mkLoaded root (e_entry eh) mapped)
      end
  end.

End Loader.

(** An image the kernel holds. *)
Definition load (cr3 : Z) (bytes : list Z) : Load LoadedElf := load_from (fun _ _ => 0) cr3 (ImageSource.Kernel bytes).
