(* ===== verification/Loading.v ===== *)
(** * What the loader builds

    The proofs about [Loader]: a loaded image is mapped where its program
    headers say, with the rights they say but never writable and executable at
    once, and holds the bytes of the file and zeros; the layout depends on the
    first fetch of the header alone.  And what the loader does not check. *)

From stdpp Require Import gmap.
From S2P Require Import Prelude Prog Frames Abi PageTables AddressSpaces Loader.
Import ProgFacts FrameFacts SpaceFacts SpaceSteps.

(** ** What an image says *)

(** The window of the first fetch. *)
Definition header (mem : nat -> UserMem) (src : ImageSource.t) : list Z :=
  let window := Z.min (ImageSource.len src) HEADER_WINDOW in
  match src with
  | ImageSource.Kernel b => take (Z.to_nat window) b
  | ImageSource.User base _ => bytes_at (mem 0%nat) (wrap64 base) window
  end.

Definition program_headers (bytes : list Z) : list NormPhdr :=
  let eh := read_ehdr bytes ELF_CLASS in
  (fun i => read_phdr bytes (e_phoff eh + Z.of_nat i * e_phentsize eh) ELF_CLASS) <$> seq 0 (Z.to_nat (e_phnum eh)).

Definition segments (bytes : list Z) : list NormPhdr := filter (fun ph => p_type ph = PT_LOAD) (program_headers bytes).

(** A segment in the lower half. *)
Definition user_segment (ph : NormPhdr) : Prop :=
  0 <= p_vaddr ph /\ 0 <= p_filesz ph /\ 0 <= p_offset ph /\ p_vaddr ph + p_memsz ph <= USER_END.

(** Memory holds bytes, and lengths and addresses are unsigned. *)
Definition source_ok (mem : nat -> UserMem) (src : ImageSource.t) : Prop :=
  (forall i a, is_byte (mem i a)) /\
  match src with ImageSource.Kernel b => Forall is_byte b | ImageSource.User base len => 0 <= base /\ 0 <= len end.

(** [img] is the image: what every fetch of it returns. *)
Definition image_reads (mem : nat -> UserMem) (src : ImageSource.t) (img : Z -> Z) : Prop :=
  forall s s' off len b, 0 <= off -> 0 <= len -> read_into mem src off len s = Done (s', Ok (Some b)) ->
    b = (fun i => img (off + Z.of_nat i)) <$> seq 0 (Z.to_nat len).

(** The byte of the segment at [a]: of the file, or zero. *)
Definition segment_byte (img : Z -> Z) (ph : NormPhdr) (a : Z) : Z :=
  if (p_vaddr ph <=? a) && (a <? p_vaddr ph + p_filesz ph) then img (p_offset ph + (a - p_vaddr ph)) else 0.

(** Fetches within the image are granted. *)
Definition image_fetchable (mem : nat -> UserMem) (src : ImageSource.t) : Prop :=
  forall off len s, 0 <= off -> 0 <= len <= PAGE_SIZE -> off + len <= ImageSource.len src ->
    exists s' b, read_into mem src off len s = Done (s', Ok (Some b)).

Definition in_file (src : ImageSource.t) (ph : NormPhdr) : Prop :=
  p_filesz ph <= p_memsz ph /\ p_offset ph + p_filesz ph <= ImageSource.len src.

Definition out_of_frames (e : LoadError) (m : Machine) : Prop :=
  (e = LoadFrameAllocFailed \/ e = LoadMapFailed FrameAllocFailed) /\ forall j, get_bit (BITMAP (m_alloc m)) j = false.

Definition segment_pages (ph : NormPhdr) : list (Z * NormPhdr) :=
  (fun k => (va_start ph + Z.of_nat k * PAGE_SIZE, ph)) <$> seq 0 (Z.to_nat ((va_end ph - va_start ph) / PAGE_SIZE)).

(** An image the loader has no reason to refuse: its headers lie in the window,
    its segments in the file, and no two of them on one page. *)
Definition well_formed (mem : nat -> UserMem) (src : ImageSource.t) : Prop :=
  let bytes := header mem src in
  let eh := read_ehdr bytes ELF_CLASS in
  header_error src bytes = None /\ image_fetchable mem src /\
  e_phoff eh + (e_phnum eh - 1) * e_phentsize eh + phdr_size ELF_CLASS <= Z.of_nat (length bytes) /\
  Forall (in_file src) (segments bytes) /\
  NoDup (concat (segment_pages <$> segments bytes)).*1.

Module LoadFacts.

#[local] Arguments read_entry : simpl never.
#[local] Arguments write_entry : simpl never.
#[local] Arguments zero_frame : simpl never.
#[local] Arguments entry_present : simpl never.
#[local] Arguments entry_phys : simpl never.
#[local] Arguments take_frame : simpl never.
#[local] Arguments write_bytes : simpl never.

(** ** Bytes of a frame *)

Lemma load_zero (ram : Ram) (f o : Z) : f mod 4096 = 0 -> 0 <= o < 4096 -> load8 (zero_frame ram f) (f + o) = 0.
Proof.
  intros Hf Ho. unfold load8, zero_frame. rewrite (proj2 (andb_true_iff _ _)).
  - change (to_le_bytes 8 0) with (replicate 8 0). destruct (replicate 8 0 !! _) eqn:E; [|done]. by apply lookup_replicate in E as [-> _].
  - split; [apply Z.leb_le|apply Z.ltb_lt]; dlia.
Qed.

Lemma load_same (ram ram' : Ram) (f o : Z) :
  f mod 4096 = 0 -> 0 <= o < 4096 -> (forall j, (j < 512)%nat -> read_entry ram' f j = read_entry ram f j) ->
  load8 ram' (f + o) = load8 ram (f + o).
Proof.
  intros Hf Ho H. unfold load8. specialize (H (Z.to_nat (o / 8)) ltac:(dlia)). unfold read_entry in H.
  replace ((f + o) / 8) with (f / 8 + Z.of_nat (Z.to_nat (o / 8))) by dlia. by rewrite H.
Qed.

Lemma segment_flags_ok (pf : Z) : flags_ok (segment_flags pf) = true.
Proof. unfold segment_flags. by destruct (segment_writable pf), (segment_no_exec pf). Qed.

(** A page's bytes: the part of the file that falls in it, over zeros. *)
Lemma page_content (img : Z -> Z) (ram : Ram) (ph : NormPhdr) (f va : Z) (b : list Z)
    (cs := Z.max va (p_vaddr ph)) (ce := Z.min (va + PAGE_SIZE) (p_vaddr ph + p_filesz ph)) :
  f mod 4096 = 0 -> Forall is_byte b -> cs < ce ->
  b = (fun i => img (p_offset ph + (cs - p_vaddr ph) + Z.of_nat i)) <$> seq 0 (Z.to_nat (ce - cs)) ->
  forall o, 0 <= o < 4096 -> load8 (write_bytes (zero_frame ram f) (f + (cs - va)) b) (f + o) = segment_byte img ph (va + o).
Proof.
  intros Hf Hb Hlt Hbe o Ho. rewrite load_write_bytes, load_zero by done. unfold cs, ce in *. clear cs ce. unfold segment_byte, PAGE_SIZE in *.
  destruct (_ <=? f + o) eqn:E; to_prop.
  - rewrite Hbe, list_lookup_fmap. destruct (decide (va + o < Z.min (va + 4096) (p_vaddr ph + p_filesz ph))).
    + rewrite lookup_seq_lt by lia. simpl. rewrite (proj2 (andb_true_iff _ _)).
      * f_equal. lia.
      * split; [apply Z.leb_le|apply Z.ltb_lt]; lia.
    + rewrite (proj2 (lookup_ge_None _ _)) by (rewrite length_seq; lia). cbn. destruct (_ && _) eqn:E2; [|done]. to_prop. lia.
  - destruct (_ && _) eqn:E2; [|done]. to_prop. lia.
Qed.

Lemma page_blank (img : Z -> Z) (ram : Ram) (ph : NormPhdr) (f va : Z) :
  f mod 4096 = 0 -> Z.min (va + PAGE_SIZE) (p_vaddr ph + p_filesz ph) <= Z.max va (p_vaddr ph) ->
  forall o, 0 <= o < 4096 -> load8 (zero_frame ram f) (f + o) = segment_byte img ph (va + o).
Proof.
  intros Hf Hle o Ho. rewrite load_zero by done. unfold segment_byte, PAGE_SIZE in *. destruct (_ && _) eqn:E; [|done]. to_prop. lia.
Qed.

(** A page of a space stays as it is while frames are taken and tables built. *)
Lemma page_kept (R : list Z) (m m' : Machine) (r : Z) (p : list nat) (e o : Z) :
  spaces_wf m R -> extends R m m' -> r ∈ R -> leaf m r p e -> 0 <= o < 4096 ->
  load8 (m_ram m') (entry_phys e + o) = load8 (m_ram m) (entry_phys e + o).
Proof.
  intros W A Hr Hl Ho. apply load_same; [apply entry_phys_aligned|done|].
  intros j Hj. apply (ex_words _ _ _ A); [apply entry_phys_aligned|done| |].
  - destruct (private_dec (m_alloc m) e) as [Hp|Hp].
    + apply in_use_bit, (sw_use _ _ W r p); [done|]. right. by exists e.
    + apply (sw_shared _ _ W r p); [done|]. by exists e.
  - intros r' q Hr'. by apply (leaf_no_table m R r r' e p q).
Qed.

(** ** Loading page by page *)

Section Load.
Context (mem : nat -> UserMem) (src : ImageSource.t) (img : Z -> Z) (R : list Z) (c : Z) (m1 : Machine).
Hypothesis Hbytes : forall s s' off len b, 0 <= off -> read_into mem src off len s = Done (s', Ok (Some b)) ->
  Forall is_byte b /\ length b = Z.to_nat len.

Definition holds_page (m : Machine) (va : Z) (ph : NormPhdr) (e : Z) : Prop :=
  e = Z.lor (entry_phys e) (segment_flags (p_flags ph)) /\
  (image_reads mem src img -> forall o, 0 <= o < 4096 -> load8 (m_ram m) (entry_phys e + o) = segment_byte img ph (va + o)).

Definition page_ok (va : Z) : Prop := va mod 4096 = 0 /\ 0 <= va /\ va + PAGE_SIZE <= USER_END.

Record loading (P : list (Z * NormPhdr)) (m : Machine) : Prop := mk_loading {
  lg_ext : extends (c :: R) m1 m;
  lg_sound : forall p e, leaf m c p e -> exists va ph, (va, ph) ∈ P /\ p = va_path va /\ holds_page m va ph e;
  lg_once : NoDup P.*1;
  lg_pages : Forall page_ok P.*1;
  lg_complete : forall va ph, (va, ph) ∈ P -> exists e, leaf m c (va_path va) e;
  lg_others : forall r p e, r ∈ R -> leaf m r p e <-> leaf m1 r p e
}.

(** What holds of a load that failed, too. *)
Definition intact (m : Machine) : Prop := extends (c :: R) m1 m /\ forall r p e, r ∈ R -> leaf m r p e <-> leaf m1 r p e.

Lemma loading_intact (P : list (Z * NormPhdr)) (m : Machine) : loading P m -> intact m.
Proof. intros J. split; apply J. Qed.

Lemma intact_step (m m' : Machine) :
  intact m -> extends (c :: R) m m' -> (forall r p e, r ∈ R -> leaf m' r p e <-> leaf m r p e) -> intact m'.
Proof. intros [A L] A' L'. split; [by eapply extends_trans|]. intros r p e Hr. by rewrite L', L. Qed.

(** A failure that has no excuse but memory, where the image is as it should be. *)
Definition failed (good : Prop) (e : LoadError) (m : Machine) : Prop := intact m /\ (good -> out_of_frames e m).

Lemma loading_failed (P : list (Z * NormPhdr)) (m : Machine) (good : Prop) (e : LoadError) :
  loading P m -> (good -> out_of_frames e m) -> failed good e m.
Proof. intros J H. split; [by eapply loading_intact|done]. Qed.

Lemma failed_weaken (good good' : Prop) (e : LoadError) (m : Machine) : failed good e m -> (good' -> good) -> failed good' e m.
Proof. unfold failed. tauto. Qed.

Lemma nodup_prefix {A B} (l1 l2 l3 : list (A * B)) : NoDup (l1 ++ l2 ++ l3).*1 -> NoDup (l1 ++ l2).*1.
Proof. rewrite app_assoc, fmap_app. by intros (? & _ & _)%NoDup_app. Qed.

Lemma fetchable_len : image_fetchable mem src -> 0 <= ImageSource.len src -> ImageSource.len src <= u64_max.
Proof.
  clear Hbytes. intros Hf Hl. destruct (Hf (ImageSource.len src) 0 (mkLoad m1 0)) as (s' & b & E); [done|unfold PAGE_SIZE; lia|lia|].
  revert E. unfold read_into, checked_add64. destruct (_ <=? u64_max) eqn:E; [|done]. to_prop. intros _. lia.
Qed.

Lemma holds_page_extends (m m' : Machine) (va : Z) (p : list nat) (ph : NormPhdr) (e : Z) :
  spaces_wf m (c :: R) -> extends (c :: R) m m' -> leaf m c p e -> holds_page m va ph e -> holds_page m' va ph e.
Proof.
  intros W A Hl [He Hc]. split; [done|]. intros Hi o Ho. rewrite <- (Hc Hi o Ho).
  apply (page_kept (c :: R) m m' c p); [done|done|left|done|done].
Qed.

Lemma read_into_total (off len : Z) (s : LoadState) :
  exists n o, read_into mem src off len s = Done (mkLoad (ld_machine s) n, Ok o).
Proof.
  clear Hbytes.
  unfold read_into. destruct (checked_add64 off len); [|destruct s; by eexists _, _]. destruct (_ <? _); [destruct s; by eexists _, _|].
  destruct src; [destruct s|]; by eexists _, _.
Qed.

Hypothesis Hcn : c ∉ R.

(** The frame is filled; the mapping remains. *)
Lemma finish_page (P : list (Z * NormPhdr)) (m : Machine) (n : nat) (a' : BitmapAllocator) (f va : Z) (ph : NormPhdr) (ram2 : Ram) :
  loading P m -> page_ok va -> extends (c :: R) m (mkMachine a' (m_ram m)) -> fresh (mkMachine a' (m_ram m)) (c :: R) f ->
  get_bit (BITMAP (m_alloc m)) (frame_idx f) = true -> only_in f (m_ram m) ram2 ->
  (image_reads mem src img -> forall o, 0 <= o < 4096 -> load8 ram2 (f + o) = segment_byte img ph (va + o)) ->
  exists m' res, on_tables LoadMapFailed (PageTable.map c va f (segment_flags (p_flags ph))) (mkLoad (mkMachine a' ram2) n) = Done (mkLoad m' n, res) /\
    match res with Ok _ => loading (P ++ [(va, ph)]) m' | Err e => failed (va ∉ P.*1) e m' end.
Proof.
  intros J Hpg A1 Hf Hfree Hin Hcont. pose proof (ex_wf _ _ _ (lg_ext _ _ J)) as W.
  pose proof Hpg as (Hva1 & Hva2 & Hva3).
  destruct (extends_fill m _ (c :: R) f ram2 A1 Hf Hfree Hin) as (A2 & Hf2 & L2 & T2). cbn [m_alloc] in *.
  set (m2 := mkMachine a' ram2) in *. pose proof (ex_wf _ _ _ A2) as W2. assert (user_va va) as Hva by (unfold user_va, PAGE_SIZE in *; lia).
  destruct (fresh_mappable m2 _ f _ W2 Hf2 (segment_flags_ok (p_flags ph))) as [Hm Hb].
  assert (f mod 4096 = 0) as Hal by (eapply in_use_aligned, Hf2). assert (page_base f = f) as Hpb by (rewrite page_base_eq; dlia).
  destruct (map_spec m2 (c :: R) c va f (segment_flags (p_flags ph)) W2) as (m3 & res & E & A3 & H); try done; [left|apply segment_flags_ok|].
  unfold on_tables. cbn [ld_machine ld_fetches]. rewrite E. pose proof (extends_trans _ _ _ _ A2 A3) as A. rewrite Hpb in H.
  exists m3. destruct res as [[]|err]; [|exists (Err (LoadMapFailed err)); split; [done|]].
  2: { destruct H as [Hl Hwhy]. split.
       - apply (intact_step m); [by eapply loading_intact|done|]. intros r p e Hr. rewrite Hl by (by right). apply L2. by right.
       - intros Hva'. destruct Hwhy as [[-> Hs]|[-> Hs]]; [|split; [by right|done]]. destruct Hva'.
         destruct (lookup_pte (m_ram m2) c va) as [e|] eqn:El; [|done]. apply lookup_leaf, L2 in El; [|left|done].
         destruct (lg_sound _ _ J _ _ El) as (va' & ph' & Hin' & Hp & _). apply list_elem_of_fmap. exists (va', ph'). split; [|done]. cbn.
         assert (page_ok va') as (V1 & V2 & V3) by (apply (proj1 (Forall_forall _ _) (lg_pages _ _ J)), list_elem_of_fmap; by exists (va', ph')).
         apply va_path_inj in Hp; [|done|unfold user_va, PAGE_SIZE in *; lia]. unfold PAGE_SIZE in *. dlia. }
  exists (Ok tt). split; [done|]. destruct H as [Hnone H]. set (v := Z.lor f (segment_flags (p_flags ph))) in *.
  assert (entry_phys v = f) as Hev by (apply entry_phys_lor; [done|done|apply segment_flags_ok]).
  assert (forall r p e, r ∈ c :: R -> leaf m3 r p e <-> leaf m r p e \/ (r = c /\ p = va_path va /\ e = v)) as L3.
  { intros r p e Hr. rewrite H by done. by rewrite L2. }
  split.
  - eapply extends_trans; [apply J|done].
  - intros p e [He|(_ & -> & ->)]%L3; [| |left].
    + destruct (lg_sound _ _ J p e He) as (va' & ph' & Hin' & -> & Hh). exists va', ph'. split_and!; [apply elem_of_app; by left|done|].
      exact (holds_page_extends m m3 va' (va_path va') ph' e W A He Hh).
    + exists va, ph. split_and!; [apply elem_of_app; right; left|done|]. split; [by rewrite Hev|]. intros Hi o Ho. rewrite Hev, <- (Hcont Hi o Ho).
      apply load_same; [done|done|]. intros j Hj. apply (ex_words _ _ _ A3); [done|done|by apply in_use_bit, Hf2|].
      intros r p Hr. by apply (fresh_not_table m2 (c :: R)).
  - rewrite fmap_app. apply NoDup_app. split_and!; [apply J| |apply NoDup_singleton]. intros va' [[va2 ph'] [Eva Hin']]%list_elem_of_fmap ->%list_elem_of_singleton. cbn in Eva. subst va2.
    destruct (lg_complete _ _ J _ _ Hin') as [e He]. assert (lookup_pte (m_ram m2) c va = Some e) by (apply lookup_leaf; [done|]; apply L2; [left|done]). congruence.
  - rewrite fmap_app. apply Forall_app. split; [apply J|by apply Forall_singleton].
  - intros va' ph' [Hin'|[= -> ->]%list_elem_of_singleton]%elem_of_app.
    + destruct (lg_complete _ _ J va' ph' Hin') as [e He]. exists e. apply L3; [left|]. by left.
    + exists v. apply L3; [left|]. by right.
  - intros r p e Hr. rewrite L3 by (by right). rewrite (lg_others _ _ J r p e Hr). split; [|by left]. intros [?|(-> & _)]; done.
Qed.

Definition seg_ok (ph : NormPhdr) : Prop :=
  user_segment ph /\ p_filesz ph <= p_memsz ph /\ p_offset ph + p_filesz ph <= u64_max.

Lemma load_page_spec (P : list (Z * NormPhdr)) (m : Machine) (n : nat) (va : Z) (ph : NormPhdr) :
  loading P m -> page_ok va -> seg_ok ph ->
  exists m' n' res, load_page mem src c ph va (mkLoad m n) = Done (mkLoad m' n', res) /\
    match res with Ok _ => loading (P ++ [(va, ph)]) m' | Err e => failed (va ∉ P.*1 /\ image_fetchable mem src /\ in_file src ph) e m' end.
Proof.
  intros J Hva ((Hv & Hfz & Ho & Hu) & Hmz & Hoz). pose proof (ex_wf _ _ _ (lg_ext _ _ J)) as W. pose proof Hva as (Hva1 & Hva2 & Hva3).
  unfold load_page. unfold M_bind at 1. unfold on_tables at 1. cbn [ld_machine ld_fetches].
  destruct (take_frame_spec LoadFrameAllocFailed m (c :: R) W) as [[-> Hnone]|(a' & f & -> & A1 & Hf & Hfree)].
  { exists m, n, (Err LoadFrameAllocFailed). split; [done|]. eapply loading_failed; [done|]. intros _. split; [by left|done]. }
  assert (f mod 4096 = 0) as Hal by (eapply in_use_aligned, Hf).
  unfold M_bind at 1. unfold poke at 1, M_modify at 1. cbn [ld_machine ld_fetches on_ram m_alloc m_ram].
  change (wrap64 (va + PAGE_SIZE)) with (wrap64 (va + 4096)). unfold PAGE_SIZE, USER_END in *.
  rewrite !(wrap64_small (va + 4096)) by (unfold u64_max; lia). rewrite !(wrap64_small (p_vaddr ph + p_filesz ph)) by (unfold u64_max; lia).
  set (cs := Z.max va (p_vaddr ph)). set (ce := Z.min (va + 4096) (p_vaddr ph + p_filesz ph)).
  destruct (cs <? ce) eqn:Hlt; to_prop.
  2: { unfold M_bind at 1, M_ret at 1. destruct (finish_page P m n a' f va ph (zero_frame (m_ram m) f)) as (m' & res & E & H); try done.
       - by apply zero_only_in.
       - intros _. apply page_blank; [done|]. unfold PAGE_SIZE, cs, ce in *. lia.
       - exists m', n, res. split; [done|]. destruct res; [done|]. eapply failed_weaken; [done|tauto]. }
  assert (wrap64 (p_offset ph + (cs - p_vaddr ph)) = p_offset ph + (cs - p_vaddr ph)) as -> by (apply wrap64_small; unfold cs, ce in *; lia).
  destruct (read_into_total (p_offset ph + (cs - p_vaddr ph)) (ce - cs) (mkLoad (mkMachine a' (zero_frame (m_ram m) f)) n)) as (n' & ob & Er).
  unfold M_bind at 1 2. unfold on_ram in *. cbn [ld_machine ld_fetches m_alloc m_ram] in *. rewrite Er. cbn [ld_machine].
  destruct (extends_fill m _ (c :: R) f (zero_frame (m_ram m) f) A1 Hf Hfree) as (A2 & _ & L2 & _); [by apply zero_only_in|].
  destruct ob as [b|]; [|eexists _, n', (Err SegmentOutOfBounds); split; [done|]].
  2: { split; [apply (intact_step m); [by eapply loading_intact|done|]; intros r p e Hr; apply L2; by right|]. intros (_ & Hfe & _ & Hif).
       edestruct (Hfe (p_offset ph + (cs - p_vaddr ph)) (ce - cs)) as (s' & b & Eb); [..|rewrite Er in Eb; done]; unfold cs, ce, PAGE_SIZE in *; lia. }
  assert (0 <= p_offset ph + (cs - p_vaddr ph)) as Hoff by (unfold cs; lia). destruct (Hbytes _ _ _ _ _ Hoff Er) as [Hb Hbl].
  unfold poke at 1, M_modify at 1. cbn [ld_machine ld_fetches on_ram m_alloc m_ram].
  destruct (finish_page P m n' a' f va ph (write_bytes (zero_frame (m_ram m) f) (f + (cs - va)) b)) as (m' & res & E & H); try done.
  - intros t j Ht Hj Hne. rewrite (read_write_bytes _ f); [by apply read_zero_ne|done..| |]; unfold cs, ce in *; lia.
  - intros Hi. apply page_content; [done|done|done|]. eapply Hi; [| |exact Er]; unfold cs, ce, PAGE_SIZE in *; lia.
  - exists m', n', res. split; [done|]. destruct res; [done|]. eapply failed_weaken; [done|tauto].
Qed.

Lemma pages_cons (va : Z) (ph : NormPhdr) (n : nat) :
  (fun k => (va + Z.of_nat k * PAGE_SIZE, ph)) <$> seq 0 (S n) =
  (va, ph) :: ((fun k => (va + PAGE_SIZE + Z.of_nat k * PAGE_SIZE, ph)) <$> seq 0 n).
Proof.
  cbn [seq fmap list_fmap]. f_equal; [f_equal; lia|]. rewrite <- (fmap_S_seq 0 n), <- list_fmap_compose. apply list_fmap_ext.
  intros _ k _. simpl. f_equal. lia.
Qed.

Lemma load_pages_spec (pages : nat) (P : list (Z * NormPhdr)) (m : Machine) (n : nat) (va : Z) (ph : NormPhdr) :
  loading P m -> seg_ok ph -> va mod 4096 = 0 -> 0 <= va -> va + Z.of_nat pages * PAGE_SIZE <= USER_END ->
  exists m' n' res, load_pages mem src c ph va pages (mkLoad m n) = Done (mkLoad m' n', res) /\
    match res with
    | Ok _ => loading (P ++ ((fun k => (va + Z.of_nat k * PAGE_SIZE, ph)) <$> seq 0 pages)) m'
    | Err e => failed (NoDup (P ++ ((fun k => (va + Z.of_nat k * PAGE_SIZE, ph)) <$> seq 0 pages)).*1 /\ image_fetchable mem src /\ in_file src ph) e m'
    end.
Proof.
  revert P m n va. induction pages as [|pages IH]; intros P m n va J Hs Hal H0 Hend.
  { exists m, n, (Ok tt). split; [done|]. by rewrite app_nil_r. }
  cbn [load_pages]. unfold M_bind.
  destruct (load_page_spec P m n va ph) as (m2 & n2 & res2 & -> & H2); [done|unfold page_ok, PAGE_SIZE in *; lia|done|].
  rewrite pages_cons. destruct res2 as [[]|e]; [|exists m2, n2, (Err e)].
  2: { split; [done|]. eapply failed_weaken; [done|]. intros [Hnd ?]. split; [|done]. rewrite cons_middle in Hnd. apply nodup_prefix in Hnd.
       rewrite fmap_app in Hnd. apply NoDup_app in Hnd as (_ & Hd & _). intros Hin. apply (Hd va Hin). left. }
  destruct (IH (P ++ [(va, ph)]) m2 n2 (va + PAGE_SIZE)) as (m3 & n3 & res3 & E3 & H3); try done; [unfold PAGE_SIZE; dlia|unfold PAGE_SIZE in *; lia..|].
  exists m3, n3, res3. split; [done|]. by rewrite cons_middle, app_assoc.
Qed.

Definition pages_of (ph : NormPhdr) : list (Z * NormPhdr) := if decide (p_type ph = PT_LOAD) then segment_pages ph else [].

Lemma load_segment_spec (P : list (Z * NormPhdr)) (m : Machine) (n : nat) (mapped : Z) (ph : NormPhdr) :
  loading P m -> (p_type ph = PT_LOAD -> user_segment ph) ->
  exists m' n' res, load_segment mem src c ph mapped (mkLoad m n) = Done (mkLoad m' n', res) /\
    match res with Ok _ => loading (P ++ pages_of ph) m' | Err e => failed (NoDup (P ++ pages_of ph).*1 /\ image_fetchable mem src /\ (p_type ph = PT_LOAD -> in_file src ph)) e m' end.
Proof.
  intros J Hu. unfold load_segment, pages_of. destruct (Z.eqb_spec (p_type ph) PT_LOAD) as [Ht|Ht]; cbn [negb].
  2: { exists m, n, (Ok mapped). rewrite decide_False, app_nil_r by done. done. }
  rewrite decide_True by done. specialize (Hu Ht). destruct (p_memsz ph <? p_filesz ph) eqn:Hmz; to_prop.
  { exists m, n, (Err BadProgramHeader). split; [done|]. eapply loading_failed; [done|]. intros (_ & _ & Hi). destruct (Hi Ht). lia. }
  unfold checked_add64. destruct (p_offset ph + p_filesz ph <=? u64_max) eqn:Ho; to_prop.
  2: { exists m, n, (Err SegmentOutOfBounds). split; [done|]. eapply loading_failed; [done|]. intros (_ & Hfe & Hi). destruct (Hi Ht) as [_ Hl].
       destruct Hu as (_ & ? & ? & _). apply fetchable_len in Hfe; lia. }
  destruct (ImageSource.len src <? p_offset ph + p_filesz ph) eqn:Hl; to_prop.
  { exists m, n, (Err SegmentOutOfBounds). split; [done|]. eapply loading_failed; [done|]. intros (_ & _ & Hi). destruct (Hi Ht). lia. }
  pose proof Hu as (Hv & Hf & _ & Hend). unfold M_bind.
  assert (va_start ph mod 4096 = 0 /\ 0 <= va_start ph /\ va_start ph <= p_vaddr ph) as (Hs1 & Hs2 & Hs3) by (unfold va_start; rewrite page_base_eq; dlia).
  assert (va_end ph <= USER_END /\ va_end ph mod 4096 = 0) as [He1 He2].
  { unfold va_end, PAGE_SIZE, USER_END in *. rewrite page_base_eq, !wrap64_small by (rewrite ?wrap64_small by (unfold u64_max; lia); unfold u64_max; lia). dlia. }
  destruct (load_pages_spec (Z.to_nat ((va_end ph - va_start ph) / PAGE_SIZE)) P m n (va_start ph) ph) as (m2 & n2 & res & -> & H); try done.
  { assert ((va_end ph - va_start ph) / PAGE_SIZE * PAGE_SIZE <= va_end ph - va_start ph) by (unfold PAGE_SIZE; dlia). unfold PAGE_SIZE in *. lia. }
  destruct res as [[]|e]; [by eexists m2, n2, (Ok _)|]. exists m2, n2, (Err e). split; [done|]. eapply failed_weaken; [done|]. tauto.
Qed.

Section Headers.
Context (bytes : list Z) (eh : NormEhdr).
Let phdr (j : nat) : NormPhdr := read_phdr bytes (e_phoff eh + Z.of_nat j * e_phentsize eh) ELF_CLASS.

(** The headers [i .. i + k) are in the window and name parts of the file. *)
Definition headers_good (i k : nat) : Prop :=
  forall j, (i <= j < i + k)%nat ->
    e_phoff eh + Z.of_nat j * e_phentsize eh + phdr_size ELF_CLASS <= Z.of_nat (length bytes) /\ (p_type (phdr j) = PT_LOAD -> in_file src (phdr j)).

Definition good_from (pages : list (Z * NormPhdr)) (i k : nat) : Prop :=
  NoDup pages.*1 /\ image_fetchable mem src /\ Z.of_nat (length bytes) <= u64_max /\ headers_good i k.

Lemma load_headers_spec (k : nat) (i : nat) (P : list (Z * NormPhdr)) (m : Machine) (n : nat) (mapped : Z) :
  loading P m -> (forall j, (i <= j < i + k)%nat -> p_type (phdr j) = PT_LOAD -> user_segment (phdr j)) ->
  exists m' n' res, load_headers mem src bytes eh c i k mapped (mkLoad m n) = Done (mkLoad m' n', res) /\
    match res with
    | Ok _ => loading (P ++ concat ((fun j => pages_of (phdr j)) <$> seq i k)) m'
    | Err e => failed (good_from (P ++ concat ((fun j => pages_of (phdr j)) <$> seq i k)) i k) e m'
    end.
Proof.
  revert i P m n mapped. induction k as [|k IH]; intros i P m n mapped J Hu; cbn [load_headers seq fmap list_fmap concat].
  { exists m, n, (Ok mapped). by rewrite app_nil_r. }
  assert (forall Q : Prop, (good_from (P ++ pages_of (phdr i) ++ concat ((fun j => pages_of (phdr j)) <$> seq (S i) k)) i (S k) -> Q) ->
    ~ Q -> exists m' n' res, M_fail (A := Z) BadProgramHeader (mkLoad m n) = Done (mkLoad m' n', res) /\
    match res with
    | Ok _ => loading (P ++ pages_of (phdr i) ++ concat ((fun j => pages_of (phdr j)) <$> seq (S i) k)) m'
    | Err e => failed (good_from (P ++ pages_of (phdr i) ++ concat ((fun j => pages_of (phdr j)) <$> seq (S i) k)) i (S k)) e m'
    end) as Hfail.
  { intros Q HQ Hn. exists m, n, (Err BadProgramHeader). split; [done|]. eapply loading_failed; [done|]. intros Hg. by destruct Hn; apply HQ. }
  set (Q := e_phoff eh + Z.of_nat i * e_phentsize eh + phdr_size ELF_CLASS <= Z.of_nat (length bytes) /\ Z.of_nat (length bytes) <= u64_max).
  assert (good_from (P ++ pages_of (phdr i) ++ concat ((fun j => pages_of (phdr j)) <$> seq (S i) k)) i (S k) -> Q) as HQ.
  { intros (_ & _ & Hb & Hg). destruct (Hg i); [lia|]. by split. }
  specialize (Hfail Q HQ). unfold checked_add64, Q in Hfail |- *. change (phdr_size ELF_CLASS) with 56 in *.
  destruct (e_phoff eh + _ <=? u64_max) eqn:E1; to_prop; [|apply Hfail; lia].
  destruct (_ + 56 <=? u64_max) eqn:E2; to_prop; [|apply Hfail; lia]. destruct (Z.of_nat (length bytes) <? _) eqn:E3; to_prop; [apply Hfail; lia|].
  unfold M_bind. destruct (load_segment_spec P m n mapped (phdr i)) as (m2 & n2 & res & E & H); [done|apply Hu; lia|].
  fold (phdr i). rewrite E. destruct res as [mapped2|e].
  2: { exists m2, n2, (Err e). split; [done|]. eapply failed_weaken; [done|]. intros (Hnd & Hfe & Hb & Hg). split_and!; [by eapply nodup_prefix|done|].
       apply Hg. lia. }
  destruct (IH (S i) (P ++ pages_of (phdr i)) m2 n2 mapped2) as (m3 & n3 & res3 & -> & H3); [done|intros j Hj; apply Hu; lia|].
  exists m3, n3, res3. split; [done|]. rewrite <- app_assoc in H3. destruct res3; [done|]. eapply failed_weaken; [done|].
  intros (Hnd & Hfe & Hb & Hg). split_and!; [done..|]. intros j Hj. apply Hg. lia.
Qed.

End Headers.

End Load.

(** ** Fetching *)

Lemma bytes_at_byte (mem : UserMem) (p len : Z) : (forall a, is_byte (mem a)) -> Forall is_byte (bytes_at mem p len).
Proof. intros H. unfold bytes_at. apply Forall_fmap, Forall_true. intros i. apply H. Qed.

Lemma read_bytes (mem : nat -> UserMem) (src : ImageSource.t) : source_ok mem src ->
  forall s s' off len b, 0 <= off -> read_into mem src off len s = Done (s', Ok (Some b)) -> Forall is_byte b /\ length b = Z.to_nat len.
Proof.
  intros [Hm Hs] s s' off len b Ho. unfold read_into, checked_add64. destruct (off + len <=? u64_max); [|done].
  destruct (ImageSource.len src <? off + len) eqn:Hl; [done|]. to_prop. destruct src as [bs|base n]; intros [= _ Hb].
  - subst b. split; [by apply Forall_take, Forall_drop|]. rewrite length_take, length_drop. cbn in Hl. lia.
  - unfold copy_user_to_kernel in Hb. destruct (Z.eqb_spec len 0) as [->|Hz]; [injection Hb as <-; done|].
    destruct (PAGE_SIZE <? len); [done|]. destruct (validate_user_ptr _ _); [|done]. injection Hb as <-.
    split; [by apply bytes_at_byte|]. unfold bytes_at. by rewrite length_fmap, length_seq.
Qed.

Lemma read_header (mem : nat -> UserMem) (src : ImageSource.t) (m : Machine) (s' : LoadState) (b : list Z) :
  source_ok mem src -> read_into mem src 0 (Z.min (ImageSource.len src) HEADER_WINDOW) (mkLoad m 0) = Done (s', Ok (Some b)) ->
  b = header mem src.
Proof.
  intros [_ Hs]. unfold read_into, header. destruct (checked_add64 _ _); [|done]. destruct (_ <? _); [done|].
  destruct src as [bs|base n]; intros [= _ Hb]; [done|]. rewrite Z.add_0_r in Hb. unfold copy_user_to_kernel in Hb. cbn [ImageSource.len ld_fetches] in Hb |- *.
  destruct (Z.eqb_spec (Z.min n HEADER_WINDOW) 0) as [E|_]; [rewrite E; by injection Hb as <-|].
  destruct (PAGE_SIZE <? _); [done|]. destruct (validate_user_ptr _ _); [|done]. by injection Hb as <-.
Qed.

Lemma header_byte (mem : nat -> UserMem) (src : ImageSource.t) : source_ok mem src -> Forall is_byte (header mem src).
Proof. intros [Hm Hs]. unfold header. destruct src; [by apply Forall_take|by apply bytes_at_byte]. Qed.

Lemma rd_nonneg (n : nat) (b : list Z) (o : Z) : Forall is_byte b -> 0 <= rd n b o.
Proof. intros Hb. unfold rd. apply (from_le_range (take n (drop (Z.to_nat o) b))). by apply Forall_take, Forall_drop. Qed.

Lemma phdr_user (b : list Z) (off : Z) (ph := read_phdr b off ELF_CLASS) :
  Forall is_byte b -> p_vaddr ph + p_memsz ph <= USER_END -> user_segment ph.
Proof. intros Hb Hu. split_and!; [apply rd_nonneg; done..|done]. Qed.

(** ** The whole image *)

Lemma pages_of_segments (l : list NormPhdr) : concat (pages_of <$> l) = concat (segment_pages <$> filter (fun ph => p_type ph = PT_LOAD) l).
Proof.
  induction l as [|ph l IH]; [done|]. cbn [fmap list_fmap concat]. rewrite IH, filter_cons. unfold pages_of.
  by destruct (decide (p_type ph = PT_LOAD)).
Qed.

Lemma header_length (mem : nat -> UserMem) (src : ImageSource.t) : source_ok mem src -> Z.of_nat (length (header mem src)) <= 4096.
Proof.
  intros [_ Hs]. unfold header, HEADER_WINDOW. destruct src as [b|base n]; [rewrite length_take|unfold bytes_at; rewrite length_fmap, length_seq]; lia.
Qed.

Lemma source_len (mem : nat -> UserMem) (src : ImageSource.t) : source_ok mem src -> 0 <= ImageSource.len src.
Proof. intros [_ H]. destruct src; cbn; lia. Qed.

Lemma headers_good_all (mem : nat -> UserMem) (src : ImageSource.t) (eh := read_ehdr (header mem src) ELF_CLASS) :
  source_ok mem src -> well_formed mem src ->
  good_from mem src (header mem src) eh (concat (pages_of <$> program_headers (header mem src))) 0 (Z.to_nat (e_phnum eh)).
Proof.
  intros Hok (_ & Hfe & Hend & Hif & Hnd). fold eh in Hend. pose proof (header_length mem src Hok). split_and!; [by rewrite pages_of_segments|done|unfold u64_max; lia|].
  intros j Hj. split.
  - assert (0 <= e_phentsize eh) by (apply rd_nonneg; by apply header_byte). nia.
  - intros Ht. apply (proj1 (Forall_forall _ _) Hif). apply list_elem_of_filter. split; [done|]. apply list_elem_of_fmap. exists j.
    split; [done|]. apply elem_of_seq. fold eh. lia.
Qed.

Lemma load_from_spec (mem : nat -> UserMem) (src : ImageSource.t) (img : Z -> Z) (cr3 : Z) (m : Machine) (R : list Z) :
  source_ok mem src -> spaces_wf m R -> get_bit (BITMAP (m_alloc m)) (frame_idx cr3) = false -> 0 <= cr3 ->
  (forall ph, ph ∈ segments (header mem src) -> p_vaddr ph + p_memsz ph <= USER_END) ->
  exists m' n' res, load_from mem cr3 src (mkLoad m 0) = Done (mkLoad m' n', res) /\
    match res with
    | Ok elf => entry_va elf = e_entry (read_ehdr (header mem src) ELF_CLASS) /\ page_table elf ∉ R /\
        exists m1, extends R m m1 /\ (forall r p e, r ∈ R -> leaf m1 r p e <-> leaf m r p e) /\ spaces_wf m1 (page_table elf :: R) /\
          loading mem src img R (page_table elf) m1 (concat (pages_of <$> program_headers (header mem src))) m'
    | Err e => (well_formed mem src -> out_of_frames e m') /\ (m' = m \/ exists c m1, extends R m m1 /\ get_bit (BITMAP (m_alloc m)) (frame_idx c) = true /\ c ∉ R /\ (forall r p e, r ∈ R -> leaf m1 r p e <-> leaf m r p e) /\ spaces_wf m1 (c :: R) /\ intact R c m1 m')
    end.
Proof.
  intros Hok W Hcr Hpos Hu. unfold load_from. unfold M_bind at 1. pose proof (source_len mem src Hok) as Hl.
  destruct (read_into_total mem src 0 (Z.min (ImageSource.len src) HEADER_WINDOW) (mkLoad m 0)) as (n & o & Er). rewrite Er. cbn [ld_machine].
  destruct o as [bytes|]; [|exists m, n, (Err TooSmall); split; [done|]; split; [|by left]].
  2: { intros (_ & Hfe & _). edestruct (Hfe 0 (Z.min (ImageSource.len src) HEADER_WINDOW)) as (s' & b & Eb); [..|rewrite Er in Eb; done];
       unfold HEADER_WINDOW, PAGE_SIZE; lia. }
  apply read_header in Er as ->; [|done]. set (bytes := header mem src) in *.
  destruct (header_error src bytes) as [e|] eqn:Ehe; [exists m, n, (Err e); split; [done|]; split; [|by left]|].
  { intros (Hno & _). fold bytes in Hno. congruence. }
  set (eh := read_ehdr bytes ELF_CLASS) in *. unfold M_bind at 1, on_tables. cbn [ld_machine ld_fetches].
  destruct (new_spec m R cr3 W Hcr Hpos) as (m1 & res1 & -> & A1 & L1 & H1).
  destruct res1 as [c|e]; [|destruct H1 as (-> & -> & Hnone); eexists m, n, (Err _); split; [done|]; split; [|by left]].
  2: { intros _. split; [by right|done]. }
  destruct H1 as (Hcn & W1 & Hno & Hfree & _).
  assert (loading mem src img R c m1 [] m1) as J.
  { split; [by apply extends_refl|intros p e He; by destruct (Hno p e)|apply NoDup_nil_2|by apply Forall_nil|by intros va ph ?%not_elem_of_nil|done]. }
  unfold M_bind. destruct (load_headers_spec mem src img R c m1 (read_bytes mem src Hok) Hcn bytes eh (Z.to_nat (e_phnum eh)) 0 [] m1 n 0 J)
    as (m2 & n2 & res2 & -> & H2).
  { intros j Hj Ht. apply phdr_user; [by apply header_byte|]. apply Hu. apply list_elem_of_filter. split; [done|].
    apply list_elem_of_fmap. exists j. split; [done|]. apply elem_of_seq. fold eh. lia. }
  cbn [app] in H2. replace (concat ((fun j => pages_of (read_phdr bytes (e_phoff eh + Z.of_nat j * e_phentsize eh) ELF_CLASS)) <$> seq 0 (Z.to_nat (e_phnum eh))))
    with (concat (pages_of <$> program_headers bytes)) in H2 by (unfold program_headers; fold eh; by rewrite <- list_fmap_compose).
  destruct res2 as [mapped|e].
  2: { destruct H2 as [Hin Hwhy]. exists m2, n2, (Err e). split; [done|]. split; [|right; exists c, m1; by split_and!].
       intros Hwf. apply Hwhy. by apply headers_good_all. }
  eexists m2, n2, (Ok _). split; [done|]. cbn [entry_va page_table]. split_and!; [done|done|]. exists m1. by split_and!.
Qed.

(** ** Pages of the segments *)

Lemma page_of_headers (bytes : list Z) (va : Z) (ph : NormPhdr) :
  (va, ph) ∈ concat (pages_of <$> program_headers bytes) <-> ph ∈ segments bytes /\ (va, ph) ∈ segment_pages ph.
Proof.
  rewrite list_elem_of_In, in_concat. setoid_rewrite <- list_elem_of_In. split.
  - intros (l & [ph' [-> Hph]]%list_elem_of_fmap & Hin). unfold pages_of in Hin. destruct (decide (p_type ph' = PT_LOAD)); [|by apply not_elem_of_nil in Hin].
    pose proof Hin as [k [[= -> ->] _]]%list_elem_of_fmap. split; [|done]. by apply list_elem_of_filter.
  - intros [[Ht Hph]%list_elem_of_filter Hin]. exists (segment_pages ph). split; [|done]. apply list_elem_of_fmap. exists ph.
    split; [|done]. unfold pages_of. by rewrite decide_True.
Qed.

Lemma segment_span (ph : NormPhdr) : user_segment ph -> 0 <= p_memsz ph ->
  va_start ph mod 4096 = 0 /\ 0 <= va_start ph <= p_vaddr ph /\ va_end ph mod 4096 = 0 /\ p_vaddr ph + p_memsz ph <= va_end ph <= USER_END.
Proof.
  intros (Hv & _ & _ & Hu) Hm. unfold va_start, va_end, PAGE_SIZE, USER_END in *.
  rewrite !page_base_eq, !wrap64_small by (rewrite ?wrap64_small by (unfold u64_max; lia); unfold u64_max; lia). dlia.
Qed.

Lemma segment_page (ph ph' : NormPhdr) (va : Z) : user_segment ph -> 0 <= p_memsz ph ->
  (va, ph') ∈ segment_pages ph <-> ph' = ph /\ va mod 4096 = 0 /\ va_start ph <= va < va_end ph.
Proof.
  intros Hu Hm. destruct (segment_span ph Hu Hm) as (Hs & _ & He & _). unfold segment_pages, PAGE_SIZE. rewrite list_elem_of_fmap. split.
  - intros (k & [= -> ->] & Hk%elem_of_seq). split_and!; [done|dlia..].
  - intros (-> & Ha & Hr). exists (Z.to_nat ((va - va_start ph) / 4096)). rewrite elem_of_seq. split; [f_equal; dlia|]. dlia.
Qed.

Lemma fst_inj {A B} (l : list (A * B)) (a : A) (b b' : B) : NoDup l.*1 -> (a, b) ∈ l -> (a, b') ∈ l -> b = b'.
Proof.
  induction l as [|[a0 b0] l IH]; cbn; [by intros _ ?%not_elem_of_nil|]. intros [Hn Hd]%NoDup_cons.
  assert (forall b, (a0, b) ∈ l -> False) as Hn' by (intros b1 H1; apply Hn, list_elem_of_fmap; by exists (a0, b1)).
  intros [E1|H1]%elem_of_cons [E2|H2]%elem_of_cons; simplify_eq; naive_solver.
Qed.

(** ** The rights of a loaded page *)

Lemma flag_of (e f k : Z) : Z.land PT_ADDR_MASK k = 0 -> e = Z.lor (entry_phys e) f -> Z.land e k = Z.land f k.
Proof.
  intros Hk ->. rewrite Z.land_lor_distr_l. unfold entry_phys. rewrite <- Z.land_assoc, Hk, Z.land_0_r. apply Z.lor_0_l.
Qed.

Lemma page_rights (e pf : Z) : e = Z.lor (entry_phys e) (segment_flags pf) ->
  permits false e = true /\ (permits true e = true <-> Z.land pf PF_W <> 0) /\
  (Z.land e PageFlags.NO_EXEC = 0 <-> Z.land pf PF_X <> 0 /\ Z.land pf PF_W = 0).
Proof.
  intros He. unfold permits, entry_present. 
  rewrite (flag_of e _ 1 eq_refl He), (flag_of e _ PageFlags.USER eq_refl He),
    (flag_of e _ PageFlags.WRITABLE eq_refl He), (flag_of e _ PageFlags.NO_EXEC eq_refl He). unfold segment_flags, segment_writable, segment_no_exec.
  destruct (Z.eqb_spec (Z.land pf PF_W) 0), (Z.eqb_spec (Z.land pf PF_X) 0); vm_compute Z.land; cbn; naive_solver.
Qed.

End LoadFacts.

(** ** Properties *)

Import LoadFacts.

(** What a load leaves alone: the map and the pages of the spaces there were. *)
Definition others_kept (R : list Z) (m m' : Machine) : Prop :=
  forall r va, r ∈ R -> user_va va -> lookup_pte (m_ram m') r va = lookup_pte (m_ram m) r va /\
    forall e o, lookup_pte (m_ram m) r va = Some e -> 0 <= o < 4096 -> load8 (m_ram m') (entry_phys e + o) = load8 (m_ram m) (entry_phys e + o).

(** The task finds at [a] what the image says: the byte of the file or zero,
    writable when the segment is, executable when it is and is not writable. *)
Definition address_loaded (img : Z -> Z) (m : Machine) (root : Z) (ph : NormPhdr) (a : Z) : Prop :=
  exists e, lookup_pte (m_ram m) root a = Some e /\
    mmu (m_ram m) root false a = Some (entry_phys e + a mod PAGE_SIZE) /\
    load8 (m_ram m) (entry_phys e + a mod PAGE_SIZE) = segment_byte img ph a /\
    (mmu (m_ram m) root true a <> None <-> Z.land (p_flags ph) PF_W <> 0) /\
    (Z.land e PageFlags.NO_EXEC = 0 <-> Z.land (p_flags ph) PF_X <> 0 /\ Z.land (p_flags ph) PF_W = 0).

Section Loaded.
Context {mem : nat -> UserMem} {src : ImageSource.t} {img : Z -> Z} {R : list Z} {m1 m' : Machine} {c : Z}.
Context (Hok : source_ok mem src) (Hi : image_reads mem src img).
Context (Hu : forall ph, ph ∈ segments (header mem src) -> p_vaddr ph + p_memsz ph <= USER_END).
Context (J : loading mem src img R c m1 (concat (pages_of <$> program_headers (header mem src))) m').

Lemma segment_user (ph : NormPhdr) : ph ∈ segments (header mem src) -> user_segment ph /\ 0 <= p_memsz ph.
Proof.
  intros Hin. pose proof (Hu ph Hin) as Hend. apply list_elem_of_filter in Hin as [_ [i [-> _]]%list_elem_of_fmap].
  split; [by apply phdr_user; [apply header_byte|]|]. by apply rd_nonneg, header_byte.
Qed.

Lemma loaded_at (ph : NormPhdr) (a : Z) :
  ph ∈ segments (header mem src) -> va_start ph <= a < va_end ph -> address_loaded img m' c ph a.
Proof.
  intros Hin Ha. destruct (segment_user ph Hin) as [Hs Hm]. destruct (segment_span ph Hs Hm) as (S1 & S2 & S3 & S4).
  assert ((page_base a, ph) ∈ concat (pages_of <$> program_headers (header mem src))) as Hpg.
  { apply page_of_headers. split; [done|]. apply segment_page; [done|done|]. rewrite page_base_eq. split_and!; [done|dlia..]. }
  destruct (lg_complete _ _ _ _ _ _ _ _ J _ _ Hpg) as [e He]. destruct (lg_sound _ _ _ _ _ _ _ _ J _ _ He) as (va & ph' & Hin' & Hp & Hrw & Hc).
  pose proof (proj1 (Forall_forall _ _) (lg_pages _ _ _ _ _ _ _ _ J)) as Hpo.
  assert (page_ok va) as (V1 & V2 & V3) by (apply Hpo, list_elem_of_fmap; by exists (va, ph')).
  assert (user_va a) as Ua by (unfold user_va; lia).
  assert (va = page_base a) as ->.
  { apply va_path_inj in Hp; [|rewrite page_base_eq in *; unfold user_va, PAGE_SIZE in *; dlia..]. rewrite page_base_eq in *. unfold PAGE_SIZE in *. dlia. }
  assert (ph' = ph) as -> by (eapply fst_inj; [apply (lg_once _ _ _ _ _ _ _ _ J)|done|done]).
  assert (va_path (page_base a) = va_path a) as Ep by (apply same_page_path; rewrite page_base_eq; unfold PAGE_SIZE; dlia).
  rewrite Ep in He. destruct (page_rights e (p_flags ph) Hrw) as (P1 & P2 & P3).
  pose proof (ex_wf _ _ _ (lg_ext _ _ _ _ _ _ _ _ J)) as W. assert (c ∈ c :: R) as Hc0 by left.
  exists e. split_and!; [by apply lookup_leaf|by apply (mmu_complete m' (c :: R))| | |done].
  - rewrite (Hc Hi) by (unfold PAGE_SIZE; dlia). f_equal. rewrite page_base_eq. unfold PAGE_SIZE. dlia.
  - rewrite <- P2. split.
    + destruct (mmu _ _ true a) eqn:Em; [|done]. intros _. apply (mmu_leaf m' (c :: R)) in Em as (e' & He' & Hpe & _); try done.
      by rewrite (leaf_fun _ _ _ _ _ He He').
    + intros Hpt. by rewrite (mmu_complete m' (c :: R) c a e true).
Qed.

Lemma loaded_only (va : Z) :
  user_va va -> lookup_pte (m_ram m') c va <> None <-> exists ph, ph ∈ segments (header mem src) /\ va_start ph <= va < va_end ph.
Proof.
  intros Hva. split.
  - destruct (lookup_pte _ _ _) as [e|] eqn:El; [intros _|done]. apply lookup_leaf in El; [|done].
    destruct (lg_sound _ _ _ _ _ _ _ _ J _ _ El) as (va' & ph & Hin & Hp & _). pose proof (proj1 (Forall_forall _ _) (lg_pages _ _ _ _ _ _ _ _ J)) as Hpo.
    assert (page_ok va') as (V1 & V2 & V3) by (apply Hpo, list_elem_of_fmap; by exists (va', ph)).
    apply page_of_headers in Hin as [Hin Hseg]. destruct (segment_user ph Hin) as [Hs Hm]. exists ph. split; [done|].
    apply segment_page in Hseg as (_ & _ & Hr); [|done..]. destruct (segment_span ph Hs Hm) as (S1 & _ & S3 & _).
    apply va_path_inj in Hp; [|done|unfold user_va, PAGE_SIZE in *; lia]. unfold PAGE_SIZE in *. dlia.
  - intros (ph & Hin & Hr). destruct (loaded_at ph va Hin Hr) as (e & -> & _). done.
Qed.

End Loaded.

Lemma wf_tail (m : Machine) (c : Z) (R : list Z) : spaces_wf m (c :: R) -> spaces_wf m R.
Proof.
  intros [W1 W2 W3 W4 W5]. split; [done| | | |].
  - intros r p f Hr. apply W2. by right.
  - intros r1 r2 p1 p2 f H1 H2. apply W3; by right.
  - intros r p t i Hr. apply W4. by right.
  - intros r p f Hr Hs. destruct (W5 r p f) as [Hb Hn]; [by right|done|]. split; [done|]. intros r' p' Hr'. apply Hn. by right.
Qed.

Lemma others_kept_new (R : list Z) (c : Z) (m m1 m' : Machine) :
  spaces_wf m R -> extends R m m1 -> (forall r p e, r ∈ R -> leaf m1 r p e <-> leaf m r p e) -> intact R c m1 m' ->
  spaces_wf m1 (c :: R) -> others_kept R m m'.
Proof.
  intros W A1 L1 [A2 L2] W1 r va Hr Hva. split.
  - apply lookup_ext; [done..|]. intros e. by rewrite L2, L1.
  - intros e o He%lookup_leaf Ho; [|done]. rewrite (page_kept (c :: R) m1 m' r (va_path va) e o W1 A2); [|by right|by apply L1|done].
    by apply (page_kept R m m1 r (va_path va)).
Qed.


(** An image of one segment and four bytes of text. *)
Definition sample_image (vaddr flags filesz memsz : Z) : list Z :=
  ELF_MAGIC ++ [2; 1; 1; 0] ++ replicate 8 0 ++ to_le_bytes 2 ET_EXEC ++ to_le_bytes 2 ELF_MACHINE ++ to_le_bytes 4 1 ++
  to_le_bytes 8 vaddr ++ to_le_bytes 8 64 ++ to_le_bytes 8 0 ++ to_le_bytes 4 0 ++ to_le_bytes 2 64 ++
  to_le_bytes 2 56 ++ to_le_bytes 2 1 ++ replicate 6 0 ++
  to_le_bytes 4 PT_LOAD ++ to_le_bytes 4 flags ++ to_le_bytes 8 120 ++ to_le_bytes 8 vaddr ++ to_le_bytes 8 vaddr ++
  to_le_bytes 8 filesz ++ to_le_bytes 8 memsz ++ to_le_bytes 8 4096 ++ [0x90; 0x90; 0xEB; 0xFE].

Lemma kernel_image_reads (mem : nat -> UserMem) (b : list Z) :
  image_reads mem (ImageSource.Kernel b) (fun i => byte_at b (Z.to_nat i)).
Proof.
  intros s s' off len l Ho Hl. unfold read_into. destruct (checked_add64 off len) as [e|] eqn:Ee; [|done].
  destruct (_ <? e) eqn:Hlt; [done|]. to_prop. intros [= _ <-]. unfold checked_add64 in Ee. destruct (_ <=? u64_max); [|done]. injection Ee as <-.
  cbn in Hlt. apply list_eq. intros i. rewrite list_lookup_fmap. destruct (decide (i < Z.to_nat len)%nat) as [Hi|Hi].
  - rewrite lookup_take_lt, lookup_drop, lookup_seq_lt by done. cbn. unfold byte_at. replace (Z.to_nat (off + Z.of_nat i)) with (Z.to_nat off + i)%nat by lia.
    destruct (b !! (Z.to_nat off + i)%nat) eqn:E; [done|]. apply lookup_ge_None in E. lia.
  - rewrite lookup_take_ge by lia. by rewrite (proj2 (lookup_ge_None _ _)) by (rewrite length_seq; lia).
Qed.

Lemma kernel_image_fetchable (mem : nat -> UserMem) (b : list Z) :
  Z.of_nat (length b) <= u64_max -> image_fetchable mem (ImageSource.Kernel b).
Proof.
  intros Hb off len s Ho Hl He. unfold read_into, checked_add64. cbn in He |- *. rewrite (proj2 (Z.leb_le _ _)) by lia.
  rewrite (proj2 (Z.ltb_ge _ _)) by lia. by eexists _, _.
Qed.

Definition sample_elf : list Z := sample_image sample_va (Z.lor PF_R PF_X) 4 8.

Lemma sample_image_byte (vaddr flags filesz memsz : Z) : Forall is_byte (sample_image vaddr flags filesz memsz).
Proof.
  unfold sample_image. rewrite !Forall_app. split_and!; first [apply to_le_bytes_range|by apply Forall_replicate|repeat constructor; unfold is_byte; lia].
Qed.


(** A load that fails past the header keeps what it took.  Either nothing has
    changed, or the root of the half-built space is a frame that was free, is
    out of the allocator's pool now, and belongs to no space: nothing will
    ever give it back. *)
Theorem failed_load_leaks (mem : nat -> UserMem) (src : ImageSource.t) (cr3 : Z) (m : Machine) (R : list Z) (s' : LoadState) (e : LoadError) :
  source_ok mem src -> spaces_wf m R -> get_bit (BITMAP (m_alloc m)) (frame_idx cr3) = false -> 0 <= cr3 ->
  (forall ph, ph ∈ segments (header mem src) -> p_vaddr ph + p_memsz ph <= USER_END) ->
  load_from mem cr3 src (mkLoad m 0) = Done (s', Err e) ->
  ld_machine s' = m \/
  exists root, get_bit (BITMAP (m_alloc m)) (frame_idx root) = true /\
    get_bit (BITMAP (m_alloc (ld_machine s'))) (frame_idx root) = false /\
    forall r p, r ∈ R -> ~ node (ld_machine s') r p root.
Proof.
  intros Hok W Hcr Hpos Hu E. destruct (load_from_spec mem src (fun _ => 0) cr3 m R Hok W Hcr Hpos Hu) as (m' & n & res & E' & H).
  rewrite E in E'. injection E' as -> <-. cbn [ld_machine]. destruct H as [_ [->|(c & m1 & _ & Hfree & Hcn & _ & _ & [A _])]]; [by left|right].
  pose proof (ex_wf _ _ _ A) as W'. assert (node m' c [] c) as Hc by (left; split_and!; [apply upath_nil|simpl; lia|done]).
  exists c. split_and!; [done|apply in_use_bit, (sw_use _ _ W' c []); [left|done]|]. intros r p Hr Hn.
  destruct (sw_inj _ _ W' r c p [] c) as [-> _]; [by right|left|done..].
Qed.

(** A segment longer in the file than in memory. *)
Definition sample_bad : list Z := sample_image sample_va PF_R 4 2.

Lemma failed_load_leaks_witness :
  exists s' e root, load_from (fun _ _ => 0) 0x2000 (ImageSource.Kernel sample_bad) (mkLoad (mkMachine sample_alloc (fun _ => 0)) 0) = Done (s', Err e) /\
    get_bit (BITMAP (m_alloc (mkMachine sample_alloc (fun _ => 0)))) (frame_idx root) = true /\ get_bit (BITMAP (m_alloc (ld_machine s'))) (frame_idx root) = false.
Proof.
  assert (match load_from (fun _ _ => 0) 0x2000 (ImageSource.Kernel sample_bad) (mkLoad (mkMachine sample_alloc (fun _ => 0)) 0) with
          | Done (s, Err e) => get_bit (BITMAP (m_alloc (ld_machine s))) 1 = false | _ => False end) as Hres by (vm_compute; reflexivity).
  assert (segments (header (fun _ _ => 0) (ImageSource.Kernel sample_bad)) = [mkPhdr 1 4 120 sample_va 4 2]) as Hseg by (vm_compute; reflexivity).
  assert (get_bit (BITMAP (m_alloc (mkMachine sample_alloc (fun _ => 0)))) 1 = true) as Hb by (vm_compute; reflexivity).
  destruct (load_from (fun _ _ => 0) 0x2000 (ImageSource.Kernel sample_bad) (mkLoad (mkMachine sample_alloc (fun _ => 0)) 0)) as [[s [elf|e]]|] eqn:E;
    [contradiction| |contradiction].
  destruct (failed_load_leaks (fun _ _ => 0) (ImageSource.Kernel sample_bad) 0x2000 (mkMachine sample_alloc (fun _ => 0)) [] s e) as [Hm|(root & H1 & H2 & _)].
  - split; [intros i a; split; lia|apply sample_image_byte].
  - apply (spaces_boot_wf _ _ sample_alloc_ok).
  - vm_compute. reflexivity.
  - lia.
  - rewrite Hseg. intros ph ->%list_elem_of_singleton. unfold sample_va, USER_END. cbn. lia.
  - exact E.
  - exfalso. rewrite Hm in Hres. rewrite Hb in Hres. discriminate Hres.
  - exists s, e, root. split; [reflexivity|]. split; [exact H1|exact H2].
Defined.

(** A kernel whose page at [guard_va] is left unmapped below a stack. *)
Definition guard_va : Z := 0xFFFFFFFF80001000.
Definition kernel_ram : Ram :=
  write_entry (write_entry (write_entry (fun _ => 0) 0x2000 511 0x3003) 0x3000 510 0x7003) 0x7000 0 0x8003.

(** The loader does not look at where a segment is.  An image whose one segment
    names the guard page of a kernel stack is accepted: the page is mapped in
    the tables every space shares, the kernel's own among them, so an overflow
    of that stack no longer faults. *)
Theorem image_fills_guard_page :
  let m := mkMachine sample_alloc kernel_ram in
  entry_for_va (m_alloc m) (m_ram m) 0x2000 guard_va = None /\
  match load 0x2000 (sample_image guard_va (Z.lor PF_R PF_W) 4 8) (mkLoad m 0) with
  | Done (s, Ok elf) =>
      let m' := ld_machine s in
      match entry_for_va (m_alloc m') (m_ram m') 0x2000 guard_va with
      | Some e => Z.land e PageFlags.WRITABLE = PageFlags.WRITABLE /\ load8 (m_ram m') (entry_phys e) = 0x90
      | None => False
      end
  | _ => False
  end.
Proof. vm_compute. repeat split; reflexivity. Qed.
