(* ===== verification/LoadOnce.v ===== *)
(** * The loader reads its headers once

    A task that spawns from its own memory may rewrite the image while the
    kernel loads it.  Two loads that agree on the first fetch go in step: same
    result, same allocator, same maps, whatever the later fetches return.  Only
    the bytes of the pages may differ. *)

From stdpp Require Import gmap.
From S2P Require Import Prelude Prog Frames Abi PageTables AddressSpaces Loader Loading.
Import ProgFacts FrameFacts SpaceFacts SpaceSteps LoadFacts.

(** Machines with the same allocator, and the same memory outside [D]. *)
Definition in_frame (d w : Z) : Prop := d / 8 <= w < d / 8 + 512.

Definition agree (D : list Z) (m m' : Machine) : Prop :=
  m_alloc m = m_alloc m' /\ forall w, (forall d, d ∈ D -> ~ in_frame d w) -> m_ram m w = m_ram m' w.

(** Frames in use that are tables of no space. *)
Definition quiet (R : list Z) (D : list Z) (m : Machine) : Prop :=
  forall d, d ∈ D -> d mod 4096 = 0 /\ get_bit (BITMAP (m_alloc m)) (frame_idx d) = false /\ forall r p, r ∈ R -> ~ table m r p d.

Definition lockstep (R : list Z) (m m' : Machine) : Prop :=
  spaces_wf m R /\ exists D, quiet R D m /\ agree D m m'.

(** Two programs that go in step. *)
Definition paired {A} (R : list Z) (p p' : Load A) : Prop :=
  forall m m' n, lockstep R m m' ->
    exists m2 m2' n2 res, p (mkLoad m n) = Done (mkLoad m2 n2, res) /\ p' (mkLoad m' n) = Done (mkLoad m2' n2, res) /\ lockstep R m2 m2'.

Module OnceFacts.

#[local] Arguments read_entry : simpl never.
#[local] Arguments write_entry : simpl never.
#[local] Arguments zero_frame : simpl never.
#[local] Arguments entry_present : simpl never.
#[local] Arguments entry_phys : simpl never.
#[local] Arguments take_frame : simpl never.
#[local] Arguments write_bytes : simpl never.

(** ** Agreement *)

Lemma agree_read (R D : list Z) (m m' : Machine) (t : Z) (j : nat) :
  quiet R D m -> agree D m m' -> t mod 4096 = 0 -> t ∉ D -> (j < 512)%nat -> read_entry (m_ram m) t j = read_entry (m_ram m') t j.
Proof.
  intros Hq [_ Hr] Ht Hn Hj. apply Hr. intros d Hd Hin. destruct (Hq d Hd) as [Ha _]. unfold in_frame in Hin.
  assert (d = t) as -> by dlia. done.
Qed.

Lemma agree_ram (D : list Z) (m m' : Machine) (f : Ram -> Ram) :
  agree D m m' -> (forall ram ram' w, ram w = ram' w -> f ram w = f ram' w) -> agree D (on_ram f m) (on_ram f m').
Proof. intros [Ha Hr] Hf. split; [done|]. intros w Hw. apply Hf. by apply Hr. Qed.

Lemma zero_local (f : Z) (ram ram' : Ram) (w : Z) : ram w = ram' w -> zero_frame ram f w = zero_frame ram' f w.
Proof. intros E. unfold zero_frame. by rewrite E. Qed.

Lemma write_local (t v : Z) (i : nat) (ram ram' : Ram) (w : Z) : ram w = ram' w -> write_entry ram t i v w = write_entry ram' t i v w.
Proof. intros E. unfold write_entry. by rewrite E. Qed.

Lemma quiet_extends (R D : list Z) (m m' : Machine) : quiet R D m -> extends R m m' -> quiet R D m'.
Proof.
  intros Hq A d Hd. destruct (Hq d Hd) as (Ha & Hb & Hn). split_and!; [done| |].
  - destruct (get_bit (BITMAP (m_alloc m')) (frame_idx d)) eqn:E; [|done]. apply (ex_take _ _ _ A) in E. congruence.
  - intros r p Hr Ht. destruct (ex_new _ _ _ A r p d Hr Ht) as [Ht'|E]; [by apply (Hn r p)|congruence].
Qed.

Lemma take_frame_agree {E} (e : E) (D : list Z) (m m2 m' : Machine) (res : result Z E) :
  agree D m m' -> take_frame e m = Done (m2, res) -> exists m2', take_frame e m' = Done (m2', res) /\ agree D m2 m2'.
Proof.
  intros [Ha Hr]. unfold take_frame, M_bind, M_outcome. rewrite Ha. destruct (alloc (m_alloc m')) as [[a f]|]; [|done]. cbn.
  destruct f; intros [= <- <-]; eexists; (split; [done|]); by split.
Qed.

Lemma walk_or_alloc_agree (R D : list Z) (m m2 m' : Machine) (t flags : Z) (i : nat) (res : result Z MapError) :
  quiet R D m -> agree D m m' -> t mod 4096 = 0 -> t ∉ D -> (i < 512)%nat -> walk_or_alloc t i flags m = Done (m2, res) ->
  exists m2', walk_or_alloc t i flags m' = Done (m2', res) /\ agree D m2 m2'.
Proof.
  intros Hq Ha Ht Hn Hi. unfold walk_or_alloc, M_gets, M_bind. rewrite <- (agree_read R D m m' t i) by done.
  destruct (entry_present _); [destruct (entry_huge _); intros [= <- <-]; by eexists|].
  destruct (take_frame FrameAllocFailed m) as [[m1 [c|e]]|] eqn:E; [| |done]; destruct (take_frame_agree _ _ _ _ _ _ Ha E) as (m1' & -> & Ha1).
  - intros [= <- <-]. eexists. split; [done|]. do 2 (apply agree_ram; [|intros ram ram' w; first [apply write_local|apply zero_local]]). done.
  - intros [= <- <-]. by eexists.
Qed.

Lemma table_quiet (R D : list Z) (m : Machine) (r t : Z) (p : list nat) : quiet R D m -> r ∈ R -> table m r p t -> t ∉ D.
Proof. intros Hq Hr Ht Hd. destruct (Hq t Hd) as (_ & _ & Hn). by apply (Hn r p). Qed.

(** A level of the walk: in step, and at a table again. *)
Lemma level_agree (R D : list Z) (m m' : Machine) (r t flags : Z) (q : list nat) (i : nat) :
  spaces_wf m R -> quiet R D m -> agree D m m' -> r ∈ R -> table m r q t -> (length q < 3)%nat -> upath (q ++ [i]) ->
  flags_ok flags = true -> inner_ok flags = true ->
  exists m2 m2' res, walk_or_alloc t i flags m = Done (m2, res) /\ walk_or_alloc t i flags m' = Done (m2', res) /\
    extends R m m2 /\ agree D m2 m2' /\ match res with Ok c => table m2 r (q ++ [i]) c | Err _ => True end.
Proof.
  intros W Hq Ha Hr Ht Hl Hu Hf Hi. destruct (walk_or_alloc_spec m R r t flags q i) as (m2 & res & E & A & _ & T); try done.
  destruct (walk_or_alloc_agree R D m m2 m' t flags i res) as (m2' & E' & Ha'); try done.
  - by eapply table_aligned.
  - by eapply table_quiet.
  - destruct Hu as (_ & Hu & _). apply Forall_app in Hu as [_ Hu]. by inversion Hu.
  - exists m2, m2', res. split_and!; try done. by destruct res.
Qed.

Lemma map_agree (R D : list Z) (m m' : Machine) (r va phys flags : Z) :
  spaces_wf m R -> quiet R D m -> agree D m m' -> r ∈ R -> user_va va ->
  0 <= phys < 2 ^ 52 -> flags_ok flags = true -> mappable m R (Z.lor (page_base phys) flags) ->
  exists m2 m2' res, PageTable.map r va phys flags m = Done (m2, res) /\ PageTable.map r va phys flags m' = Done (m2', res) /\
    extends R m m2 /\ agree D m2 m2'.
Proof.
  intros W Hq Ha Hr Hva Hph Hfl Hmap. destruct (map_spec m R r va phys flags) as (m9 & res & E9 & A9 & _); try done. revert E9.
  destruct (inter_flags_ok va Hva) as [Hf Hi]. pose proof (tables_path_upath va Hva) as Hu.
  unfold PageTable.map, M_bind, M_gets.
  destruct (level_agree R D m m' r r (PageTable.inter_flags va) [] (pml4_idx va)) as (m1 & m1' & res1 & -> & -> & A1 & Ha1 & T1);
    try done; [split_and!; [apply upath_nil|simpl; lia|done]|simpl; lia|by apply (upath_app _ [pdpt_idx va; pd_idx va])|].
  destruct res1 as [t1|e]; [|intros [= <- <-]; by exists m1, m1', (Err e)].
  pose proof (quiet_extends _ _ _ _ Hq A1) as Hq1.
  destruct (level_agree R D m1 m1' r t1 (PageTable.inter_flags va) [pml4_idx va] (pdpt_idx va)) as (m2 & m2' & res2 & -> & -> & A2 & Ha2 & T2);
    try done; [apply A1|simpl; lia|by apply (upath_app _ [pd_idx va])|].
  destruct res2 as [t2|e]; [|intros [= <- <-]; by exists m2, m2', (Err e)].
  pose proof (quiet_extends _ _ _ _ Hq1 A2) as Hq2.
  destruct (level_agree R D m2 m2' r t2 (PageTable.inter_flags va) [pml4_idx va; pdpt_idx va] (pd_idx va)) as (m3 & m3' & res3 & -> & -> & A3 & Ha3 & T3);
    try done; [apply A2|simpl; lia|].
  destruct res3 as [t3|e]; [|intros [= <- <-]; by exists m3, m3', (Err e)].
  pose proof (quiet_extends _ _ _ _ Hq2 A3) as Hq3.
  rewrite <- (agree_read R D m3 m3' t3 (pt_idx va)); [|done|done|eapply table_aligned; [apply A3|done|done]|by eapply table_quiet|apply idx_lt; lia].
  destruct (entry_present _); intros [= <- <-]; [by exists m3, m3', (Err AlreadyMapped)|].
  eexists _, _, (Ok tt). split_and!; [done|done|done|]. apply agree_ram; [done|]. intros ram ram' w. apply write_local.
Qed.

Lemma follow_agree (R D : list Z) (m m' : Machine) (r : Z) (p : list nat) :
  spaces_wf m R -> quiet R D m -> agree D m m' -> r ∈ R -> upath p -> (length p <= 3)%nat ->
  follow (m_ram m) r p = follow (m_ram m') r p.
Proof.
  intros W Hq Ha Hr. induction p as [|i p IH] using rev_ind; [done|]. intros Hu Hl. rewrite length_app in Hl. simpl in Hl.
  rewrite !follow_snoc, <- IH by (first [by eapply upath_app|lia]). destruct (follow (m_ram m) r p) as [t|] eqn:E; [|done]. cbn.
  assert (table m r p t) as Ht by (split_and!; [by eapply upath_app|lia|done]).
  unfold child. rewrite (agree_read R D m m' t i); [done|done|done|by eapply table_aligned|by eapply table_quiet|].
  destruct Hu as (_ & Hu & _). apply Forall_app in Hu as [_ Hu]. by inversion Hu.
Qed.

Lemma lookup_agree (R : list Z) (m m' : Machine) (r va : Z) :
  lockstep R m m' -> r ∈ R -> user_va va -> lookup_pte (m_ram m) r va = lookup_pte (m_ram m') r va.
Proof.
  intros (W & D & Hq & Ha) Hr Hva. unfold lookup_pte. pose proof (tables_path_upath va Hva) as Hu.
  rewrite <- (follow_agree R D m m' r (tables_path va)) by done. destruct (follow (m_ram m) r (tables_path va)) as [t|] eqn:E; [|done]. cbn.
  assert (table m r (tables_path va) t) as Ht by done.
  rewrite (agree_read R D m m' t (pt_idx va)); [done|done|done|by eapply table_aligned|by eapply table_quiet|apply idx_lt; lia].
Qed.

(** ** Fetches *)

Lemma write_in_frame (ram : Ram) (f pa w : Z) (b : list Z) :
  f mod 4096 = 0 -> f <= pa -> pa + Z.of_nat (length b) <= f + 4096 -> ~ in_frame f w -> write_bytes ram pa b w = ram w.
Proof.
  intros Hf H1 H2 Hw. unfold write_bytes, in_frame in *. destruct (_ && _) eqn:E; [|done]. to_prop. destruct Hw. dlia.
Qed.

Section Pair.
Context (mem mem' : nat -> UserMem) (src : ImageSource.t) (R : list Z) (c : Z).
Hypothesis (Hok : source_ok mem src) (Hok' : source_ok mem' src) (Hc : c ∈ R).

Lemma fetch_pair (off len : Z) (m m' : Machine) (n : nat) :
  exists n2 o o', read_into mem src off len (mkLoad m n) = Done (mkLoad m n2, Ok o) /\
    read_into mem' src off len (mkLoad m' n) = Done (mkLoad m' n2, Ok o') /\ (o = None <-> o' = None).
Proof.
  clear. unfold read_into. destruct (checked_add64 off len); [|by eexists n, None, None]. destruct (_ <? _); [by eexists n, None, None|].
  destruct src as [b|base l]; [by eexists n, (Some _), (Some _)|]. cbn [ld_machine ld_fetches]. eexists _, _, _. split_and!; [done|done|].
  unfold copy_user_to_kernel. destruct (len =? 0); [done|]. destruct (PAGE_SIZE <? len); [done|]. by destruct (negb _).
Qed.

Lemma paired_ret {A} (a : A) : paired R (M_ret a) (M_ret a).
Proof. intros m m' n H. by exists m, m', n, (Ok a). Qed.

Lemma paired_fail {A} (e : LoadError) : paired (A := A) R (M_fail e) (M_fail e).
Proof. intros m m' n H. by exists m, m', n, (Err e). Qed.

Lemma paired_bind {A B} (p p' : Load A) (k k' : A -> Load B) :
  paired R p p' -> (forall a, paired R (k a) (k' a)) -> paired R (M_bind p k) (M_bind p' k').
Proof.
  intros Hp Hk m m' n H. unfold M_bind. destruct (Hp m m' n H) as (m2 & m2' & n2 & res & -> & -> & H2).
  destruct res as [a|e]; [by apply Hk|by exists m2, m2', n2, (Err e)].
Qed.

(** The last step of a page, its frame [f] filled on both sides. *)
Lemma map_pair (D : list Z) (m : Machine) (a' : BitmapAllocator) (ram2 ram2' : Ram) (n : nat) (f va : Z) (ph : NormPhdr) :
  quiet R D m -> extends R m (mkMachine a' (m_ram m)) -> fresh (mkMachine a' (m_ram m)) R f ->
  get_bit (BITMAP (m_alloc m)) (frame_idx f) = true -> only_in f (m_ram m) ram2 -> user_va va ->
  (forall w, (forall d, d ∈ f :: D -> ~ in_frame d w) -> ram2 w = ram2' w) ->
  exists m2 m2' n2 res,
    on_tables LoadMapFailed (PageTable.map c va f (segment_flags (p_flags ph))) (mkLoad (mkMachine a' ram2) n) = Done (mkLoad m2 n2, res) /\
    on_tables LoadMapFailed (PageTable.map c va f (segment_flags (p_flags ph))) (mkLoad (mkMachine a' ram2') n) = Done (mkLoad m2' n2, res) /\
    lockstep R m2 m2'.
Proof.
  intros Hq A1 Hf Hfree Hin Hva Hag. destruct (extends_fill m _ R f ram2 A1 Hf Hfree Hin) as (A2 & Hf2 & _ & _). cbn [m_alloc] in *.
  pose proof (ex_wf _ _ _ A2) as W2. destruct (fresh_mappable _ _ f _ W2 Hf2 (segment_flags_ok (p_flags ph))) as [Hm Hb].
  assert (quiet R (f :: D) (mkMachine a' ram2)) as Hq2.
  { intros d [->|Hd]%elem_of_cons; [|by apply (quiet_extends R D m)]. split_and!; [by eapply in_use_aligned, Hf2|by apply in_use_bit, Hf2|].
    intros r p Hr. by apply (fresh_not_table _ R). }
  destruct (map_agree R (f :: D) (mkMachine a' ram2) (mkMachine a' ram2') c va f (segment_flags (p_flags ph))) as (m2 & m2' & res & E & E' & A3 & Ha);
    try done; [by apply segment_flags_ok|].
  unfold on_tables. cbn [ld_machine ld_fetches]. rewrite E, E'. exists m2, m2', n, (match res with Ok a => Ok a | Err e => Err (LoadMapFailed e) end).
  split_and!; [by destruct res|by destruct res|]. split; [apply A3|]. exists (f :: D). split; [by eapply quiet_extends|done].
Qed.

Lemma load_page_pair (ph : NormPhdr) (va : Z) : page_ok va -> seg_ok ph -> paired R (load_page mem src c ph va) (load_page mem' src c ph va).
Proof.
  intros (Hva1 & Hva2 & Hva3) ((Hv & Hfz & Ho & Hu) & Hmz & Hoz) m m' n (W & D & Hq & Ha).
  unfold load_page, M_bind, on_tables at 1 3, poke, M_modify. cbn [ld_machine ld_fetches].
  destruct (take_frame_spec LoadFrameAllocFailed m R W) as [[Et Hnone]|(a' & f & Et & A1 & Hf & Hfree)];
    destruct (take_frame_agree _ _ _ _ _ _ Ha Et) as (m1' & Et' & Ha1); rewrite Et, Et'; cbn [ld_machine ld_fetches].
  { exists m, m1', n, (Err LoadFrameAllocFailed). split_and!; [done|done|]. split; [done|by exists D]. }
  assert (f mod 4096 = 0) as Hal by (eapply in_use_aligned, Hf). destruct m1' as [a1' ram']. destruct Ha1 as [Ea Hram]. cbn [m_alloc m_ram] in Ea, Hram. subst a1'.
  change (wrap64 (va + PAGE_SIZE)) with (wrap64 (va + 4096)). unfold PAGE_SIZE, USER_END in *.
  rewrite !(wrap64_small (va + 4096)) by (unfold u64_max; lia). rewrite !(wrap64_small (p_vaddr ph + p_filesz ph)) by (unfold u64_max; lia).
  set (cs := Z.max va (p_vaddr ph)). set (ce := Z.min (va + 4096) (p_vaddr ph + p_filesz ph)).
  assert (user_va va) as Hua by (unfold user_va, USER_END; lia). unfold on_ram. cbn [m_alloc m_ram].
  assert (forall w, (forall d, d ∈ f :: D -> ~ in_frame d w) -> zero_frame (m_ram m) f w = zero_frame ram' f w) as Hz.
  { intros w Hw. apply zero_local, Hram. intros d Hd. apply Hw. by right. }
  destruct (cs <? ce) eqn:Hlt; to_prop.
  2: { apply (map_pair D m); try done. by apply zero_only_in. }
  destruct (fetch_pair (wrap64 (p_offset ph + (cs - p_vaddr ph))) (ce - cs) (mkMachine a' (zero_frame (m_ram m) f)) (mkMachine a' (zero_frame ram' f)) n)
    as (n2 & o & o' & E1 & E2 & Hoo). rewrite E1, E2. cbn [ld_machine ld_fetches].
  assert (wrap64 (p_offset ph + (cs - p_vaddr ph)) = p_offset ph + (cs - p_vaddr ph)) as Ew by (apply wrap64_small; unfold cs, ce in *; lia).
  assert (0 <= wrap64 (p_offset ph + (cs - p_vaddr ph))) as Hoff by (rewrite Ew; unfold cs; lia).
  destruct o as [b|], o' as [b'|]; [|by destruct Hoo as [_ Hoo]; discriminate Hoo|by destruct Hoo as [Hoo _]; discriminate Hoo|].
  - destruct (read_bytes mem src Hok _ _ _ _ _ Hoff E1) as [_ Hb]. destruct (read_bytes mem' src Hok' _ _ _ _ _ Hoff E2) as [_ Hb'].
    cbn [m_alloc m_ram]. apply (map_pair D m); try done.
    + intros t j Ht Hj Hne. rewrite (read_write_bytes _ f); [by apply read_zero_ne|done..| |]; unfold cs, ce in *; lia.
    + intros w Hw. assert (~ in_frame f w) as Hwf by (apply Hw; left). rewrite !(write_in_frame _ f) by (first [done|unfold cs, ce in *; lia]). by apply Hz.
  - eexists _, _, n2, (Err SegmentOutOfBounds). split_and!; [done|done|].
    destruct (extends_fill m _ R f (zero_frame (m_ram m) f) A1 Hf Hfree) as (A2 & _); [by apply zero_only_in|]. cbn [m_alloc] in A2.
    split; [apply A2|]. exists D. split; [by eapply quiet_extends|]. split; [done|]. intros w Hw. apply zero_local. by apply Hram.
Qed.

Lemma load_pages_pair (ph : NormPhdr) (pages : nat) (va : Z) :
  seg_ok ph -> va mod 4096 = 0 -> 0 <= va -> va + Z.of_nat pages * PAGE_SIZE <= USER_END ->
  paired R (load_pages mem src c ph va pages) (load_pages mem' src c ph va pages).
Proof.
  revert va. induction pages as [|pages IH]; intros va Hs Hal H0 Hend; [apply paired_ret|]. cbn [load_pages]. unfold PAGE_SIZE, USER_END in *.
  apply paired_bind; [apply load_page_pair; [unfold page_ok, PAGE_SIZE, USER_END; lia|done]|]. intros _. apply IH; [done|dlia|lia..].
Qed.

Lemma load_segment_pair (ph : NormPhdr) (mapped : Z) :
  (p_type ph = PT_LOAD -> user_segment ph /\ 0 <= p_memsz ph) -> paired R (load_segment mem src c ph mapped) (load_segment mem' src c ph mapped).
Proof.
  intros Hu. unfold load_segment. destruct (Z.eqb_spec (p_type ph) PT_LOAD) as [Ht|Ht]; cbn [negb]; [|apply paired_ret].
  destruct (Hu Ht) as [Hs Hm]. destruct (p_memsz ph <? p_filesz ph) eqn:Hmz; to_prop; [apply paired_fail|].
  unfold checked_add64. destruct (p_offset ph + p_filesz ph <=? u64_max) eqn:Ho; to_prop; [|apply paired_fail].
  destruct (_ <? _); [apply paired_fail|]. destruct (segment_span ph Hs Hm) as (S1 & S2 & S3 & S4).
  apply paired_bind; [|intros _; apply paired_ret]. apply load_pages_pair; [done|done|lia|]. unfold PAGE_SIZE. dlia.
Qed.

Lemma load_headers_pair (bytes : list Z) (eh : NormEhdr) (k i : nat) (mapped : Z)
    (phdr := fun j => read_phdr bytes (e_phoff eh + Z.of_nat j * e_phentsize eh) ELF_CLASS) :
  (forall j, (i <= j < i + k)%nat -> p_type (phdr j) = PT_LOAD -> user_segment (phdr j) /\ 0 <= p_memsz (phdr j)) ->
  paired R (load_headers mem src bytes eh c i k mapped) (load_headers mem' src bytes eh c i k mapped).
Proof.
  revert i mapped. induction k as [|k IH]; intros i mapped Hu; cbn [load_headers]; [apply paired_ret|].
  unfold checked_add64. destruct (_ <=? u64_max); [|apply paired_fail]. destruct (_ <=? u64_max); [|apply paired_fail].
  destruct (_ <? _); [apply paired_fail|]. apply paired_bind; [apply load_segment_pair, Hu; lia|]. intros mapped'. apply IH. intros j Hj. apply Hu. lia.
Qed.

End Pair.

End OnceFacts.

(** ** Properties *)

Import OnceFacts.

(** C17: The layout of a task is fixed by the first fetch.  However the caller
    rewrites the image between one fetch and the next, two loads that saw the
    same headers end alike: with the same result or the same error, the same
    number of fetches, the same frames taken and the same map, right by right,
    of every space.  A check made on the headers holds of what is mapped. *)
Theorem layout_fixed_at_first_fetch (mem mem' : nat -> UserMem) (src : ImageSource.t) (cr3 : Z) (m : Machine) (R : list Z) :
  source_ok mem src -> source_ok mem' src -> header mem src = header mem' src ->
  spaces_wf m R -> get_bit (BITMAP (m_alloc m)) (frame_idx cr3) = false -> 0 <= cr3 ->
  (forall ph, ph ∈ segments (header mem src) -> p_vaddr ph + p_memsz ph <= USER_END) ->
  exists m1 m2 n res, load_from mem cr3 src (mkLoad m 0) = Done (mkLoad m1 n, res) /\
    load_from mem' cr3 src (mkLoad m 0) = Done (mkLoad m2 n, res) /\ m_alloc m1 = m_alloc m2 /\
    forall r va, r ∈ match res with Ok elf => page_table elf :: R | Err _ => R end -> user_va va ->
      lookup_pte (m_ram m1) r va = lookup_pte (m_ram m2) r va.
Proof.
  intros Hok Hok' Hh W Hcr Hpos Hu. unfold load_from, M_bind.
  destruct (fetch_pair mem mem' src 0 (Z.min (ImageSource.len src) HEADER_WINDOW) m m 0) as (n & o & o' & E1 & E2 & Hoo). rewrite E1, E2.
  destruct o as [b|], o' as [b'|]; [|by destruct Hoo as [_ Hoo]; discriminate Hoo|by destruct Hoo as [Hoo _]; discriminate Hoo|].
  2: { by exists m, m, n, (Err TooSmall). }
  apply read_header in E1 as ->; [|done]. apply read_header in E2 as ->; [|done]. rewrite <- Hh. set (bytes := header mem src) in *.
  destruct (header_error src bytes) as [e|]; [by exists m, m, n, (Err e)|].
  set (eh := read_ehdr bytes ELF_CLASS). unfold on_tables. cbn [ld_machine ld_fetches].
  destruct (new_spec m R cr3 W Hcr Hpos) as (m1 & res1 & -> & _ & _ & H1). destruct res1 as [c|e]; [|by eexists m1, m1, n, (Err _)].
  destruct H1 as (_ & W1 & _).
  assert (lockstep (c :: R) m1 m1) as Hl by (split; [done|]; exists []; split; [by intros d ?%not_elem_of_nil|done]).
  destruct (load_headers_pair mem mem' src (c :: R) c Hok Hok' ltac:(left) bytes eh (Z.to_nat (e_phnum eh)) 0 0) with (m := m1) (m' := m1) (n := n)
    as (m2 & m2' & n2 & res & -> & -> & Hl2); [|done|].
  { intros j Hj Ht. apply (segment_user Hok Hu). apply list_elem_of_filter. split; [done|]. apply list_elem_of_fmap. exists j. split; [done|].
    apply elem_of_seq. fold bytes eh. lia. }
  assert (m_alloc m2 = m_alloc m2') as Hal by (destruct Hl2 as (_ & D & _ & Ha); apply Ha).
  destruct res as [mapped|e]; [exists m2, m2', n2, (Ok (mkLoaded c (e_entry eh) mapped))|exists m2, m2', n2, (Err e)];
    (split_and!; [done|done|done|]); intros r va Hr Hva; apply (lookup_agree (c :: R)); try done. by right.
Qed.

(** A caller who overwrites the image with [0xCC] after the first fetch. *)
Definition rewriting (b : list Z) : nat -> UserMem := fun i a => match i with O => byte_at b (Z.to_nat (a - 0x100000)) | S _ => 0xCC end.
Definition still (b : list Z) : nat -> UserMem := fun _ a => byte_at b (Z.to_nat (a - 0x100000)).

Lemma sample_source_ok (f : nat -> UserMem) (len : Z) : 0 <= len -> (forall i a, is_byte (f i a)) -> source_ok f (ImageSource.User 0x100000 len).
Proof. intros Hl Hf. split; [exact Hf|lia]. Qed.

Lemma byte_at_byte (b : list Z) (i : nat) : Forall is_byte b -> is_byte (byte_at b i).
Proof.
  intros Hb. unfold byte_at. destruct (b !! i) as [x|] eqn:E; [|by split]. exact (Forall_lookup_1 _ _ _ _ Hb E).
Qed.

Lemma layout_fixed_at_first_fetch_witness :
  let src := ImageSource.User 0x100000 124 in
  let m := mkMachine sample_alloc (fun _ => 0) in
  exists m1 m2 n elf, load_from (still sample_elf) 0x2000 src (mkLoad m 0) = Done (mkLoad m1 n, Ok elf) /\
    load_from (rewriting sample_elf) 0x2000 src (mkLoad m 0) = Done (mkLoad m2 n, Ok elf) /\
    lookup_pte (m_ram m1) (page_table elf) sample_va = lookup_pte (m_ram m2) (page_table elf) sample_va.
Proof.
  intros src m.
  assert (match load_from (still sample_elf) 0x2000 src (mkLoad m 0) with Done (_, Ok _) => True | _ => False end) as Hres by (vm_compute; exact I).
  assert (segments (header (still sample_elf) src) = [mkPhdr 1 5 120 sample_va 4 8]) as Hseg by (vm_compute; reflexivity).
  destruct (layout_fixed_at_first_fetch (still sample_elf) (rewriting sample_elf) src 0x2000 m []) as (m1 & m2 & n & res & E1 & E2 & _ & H).
  - apply sample_source_ok; [lia|]. intros i a. apply byte_at_byte, sample_image_byte.
  - apply sample_source_ok; [lia|]. intros [|i] a; [apply byte_at_byte, sample_image_byte|cbn; unfold is_byte; lia].
  - reflexivity.
  - apply (spaces_boot_wf _ _ sample_alloc_ok).
  - vm_compute. reflexivity.
  - lia.
  - rewrite Hseg. intros ph ->%list_elem_of_singleton. unfold sample_va, USER_END. cbn. lia.
  - rewrite E1 in Hres. destruct res as [elf|e]; [|contradiction]. exists m1, m2, n, elf. split; [exact E1|]. split; [exact E2|].
    apply H; [left|]. unfold user_va, sample_va. change USER_END with 0x800000000000. lia.
Defined.
