(* ===== verification/Spawn.v ===== *)
(** * Spawning a task

    [kernel/src/task/mod.rs]: the privilege word, the spawn of a service from
    an image, and the unwinding of a spawn that fails half-way.  A spawn works
    on the joint state of [Kernel] and has three ways to end: a kernel panic, a
    [SpawnError], or the new task's endpoint.  What the loader, the device and
    the page-table code answer is an argument. *)

From S2P Require Import Prelude Prog Capability CapTable Delegated Queue Routing Names Sched TaskData Interrupt Kernel.
From S2P Require Import PageTables Loader.

Inductive SpawnError :=
| LoadFailed (e : LoadError)
| NoMemory
| MapFailed
| CapTableFull
| NotFound
| AlreadyRunning
| PlacementInvalid.

(** ** Privileges *)

Module privbits.
Definition SPAWN : Z := 1.
Definition CONSOLE_PUSH : Z := 2.
Definition INTROSPECT : Z := 4.
Definition SERVICE_CONTROL : Z := 8.
Definition FIRE_IRQ : Z := 16.
Definition REBOOT : Z := 32.
Definition ACQUIRE_ANY : Z := 64.
Definition RESOURCE_MINT : Z := 128.
Definition GPIO : Z := 256.
Definition SET_CLOCK_FLOOR : Z := 512.
Definition SET_CLOCK : Z := 1024.
Definition NET_DEVICE : Z := 2048.
Definition PCI_CFG : Z := 4096.
Definition CPU_CLOCK : Z := 8192.
Definition POWER_OFF : Z := 16384.
Definition KNOWN : Z := 32767.
End privbits.

(** The checks of [privileges_caller_lacks], in its order. *)
Definition privilege_checks : list (Z * ResourceId) :=
  [ (privbits.SPAWN, SPAWN_RESOURCE); (privbits.CONSOLE_PUSH, CONSOLE_PUSH_RESOURCE);
    (privbits.INTROSPECT, INTROSPECT_RESOURCE); (privbits.SERVICE_CONTROL, SERVICE_CONTROL_RESOURCE);
    (privbits.FIRE_IRQ, FIRE_IRQ_RESOURCE); (privbits.REBOOT, REBOOT_RESOURCE);
    (privbits.ACQUIRE_ANY, ACQUIRE_ANY_RESOURCE); (privbits.RESOURCE_MINT, RESOURCE_MINT_RESOURCE);
    (privbits.GPIO, GPIO_DEVICE_RESOURCE); (privbits.SET_CLOCK_FLOOR, SET_CLOCK_RESOURCE);
    (privbits.SET_CLOCK, SET_CLOCK_RESOURCE); (privbits.NET_DEVICE, NET_DEVICE_RESOURCE);
    (privbits.PCI_CFG, PCI_CFG_RESOURCE); (privbits.CPU_CLOCK, CPU_CLOCK_RESOURCE);
    (privbits.POWER_OFF, POWER_OFF_RESOURCE) ].

(** [Some bit] is a requested bit the caller may not pass on ([KNOWN + 1] for
    a bit this kernel does not know). *)
Definition privileges_caller_lacks (k : Tasks) (cid : nat) (requested : Z) : option Z :=
  if negb (Z.land requested (Z.lnot privbits.KNOWN) =? 0) then Some (privbits.KNOWN + 1)
  else
    i ← position (fun c => negb (Z.land requested c.1 =? 0) &&
                           negb (current_task_holds_resource k cid c.2 Rights.GRANT)) privilege_checks;
    fst <$> privilege_checks !! i.

(** The resources the supervisor may pass on, minted GRANT-only. *)
Definition SUPERVISOR_DELEGATABLE : list ResourceId :=
  [ RESOURCE_MINT_RESOURCE; INTROSPECT_RESOURCE; SERVICE_CONTROL_RESOURCE; SPAWN_RESOURCE; ACQUIRE_ANY_RESOURCE;
    CONSOLE_PUSH_RESOURCE; FIRE_IRQ_RESOURCE; REBOOT_RESOURCE; GPIO_DEVICE_RESOURCE; SET_CLOCK_RESOURCE;
    SET_CLOCK_RESOURCE; NET_DEVICE_RESOURCE; PCI_CFG_RESOURCE; CPU_CLOCK_RESOURCE; POWER_OFF_RESOURCE ].

Record Privileges := mkPrivileges {
  p_spawn : bool;
  p_console_push : bool;
  p_introspect : bool;
  p_service_control : bool;
  p_fire_irq : bool;
  p_reboot : bool;
  p_acquire_any : bool;
  p_net_device : bool;
  p_pci_cfg : bool;
  p_cpu_clock : bool;
  p_power_off : bool;
  p_usb_disk : bool;
  p_gpio : bool;
  p_set_clock : bool;
  p_set_clock_floor : bool;
  p_image_spawn : bool
}.

Definition asks (bits b : Z) : bool := negb (Z.land bits b =? 0).

(** [priv_override]: no bit stands for IMAGE_SPAWN or USB_DISK. *)
Definition privileges_of (bits : Z) : Privileges :=
  mkPrivileges (asks bits privbits.SPAWN) (asks bits privbits.CONSOLE_PUSH) (asks bits privbits.INTROSPECT)
    (asks bits privbits.SERVICE_CONTROL) (asks bits privbits.FIRE_IRQ) (asks bits privbits.REBOOT)
    (asks bits privbits.ACQUIRE_ANY) (asks bits privbits.NET_DEVICE) (asks bits privbits.PCI_CFG)
    (asks bits privbits.CPU_CLOCK) (asks bits privbits.POWER_OFF) false (asks bits privbits.GPIO)
    (asks bits privbits.SET_CLOCK) (asks bits privbits.SET_CLOCK_FLOOR) false.

Definition service_privileges (name : list Z) : Privileges :=
  let sup := bool_decide (name = SUPERVISOR) in
  mkPrivileges sup false sup sup false false sup false false false false false false false false sup.

(** ** What a spawn is asked for, and what the machine answers *)

Record SpawnRequest := mkRequest {
  rq_name : list Z;
  rq_core : nat;
  rq_recv : bool;                                (* has_recv_endpoint *)
  rq_peers : list (list Z);                      (* send_peers *)
  rq_peers_grant : bool;
  rq_limit : Z;                                  (* memory_limit *)
  rq_irqs : list nat;                            (* hw_irqs *)
  rq_console_read : bool;
  rq_privileges : option Z;                      (* priv_override *)
  rq_installs : option (list (list Z * Capability));
  rq_watched : bool;
  rq_device_power : bool;                        (* hw.fixed_kind().is_some_and(device_power_control) *)
  rq_hw_kind : Z                                 (* hw.kind_code() *)
}.

Record Answers := mkAnswers {
  an_load : result Z SpawnError;                 (* the ELF's mapped bytes; the stack is mapped too *)
  an_device : result (option Z) SpawnError;      (* MMIO, framebuffer and DMA; the function made bus master *)
  an_context : option SpawnError;                (* the context page's frame *)
  an_context_map : option SpawnError;            (* its mapping *)
  an_kstack : option Z                           (* alloc_kstack *)
}.

(** ** The spawn monad *)

Notation M := (Prog Kernel SpawnError).

(** ** Unwinding *)

Definition cleanup_partial_spawn (k : Kernel) (slot : nat) (name : list Z) (own_endpoint : option Z)
    : outcome Kernel :=
  let k := with_tasks k (take_task_hw_bdf (k_tasks k) slot).1 in
  let (t, reply) := take_task_reply_endpoint (k_tasks k) slot in
  let k := with_tasks k t in
  k ← match reply with
      | Some rep =>
          '(r, _) ← kill_endpoint (k_routing k) rep;
          R ← mark_dead_resource (k_registry k) rep;
          Done (with_registry (with_routing k r) R)
      | None => Done k
      end;
  k ← match own_endpoint with
      | Some ep =>
          '(r, _) ← kill_endpoint (k_routing k) ep;
          R ← mark_dead_resource (k_registry k) ep;
          let k := with_registry (with_routing k r) R in
          let k := with_names k (unregister_endpoint (k_names k) name ep).1 in
          Done (with_ids k (free_endpoint_id (k_ids k) ep))
      | None => Done k
      end;
  Done (with_tasks k (with_sched (k_tasks k) (release_task_slot (k_sched k) slot))).

(** Fail with [e] after unwinding. *)
Definition unwind {A} (slot : nat) (name : list Z) (own : option Z) (e : SpawnError) : M A :=
  M_outcome (fun k => k ← cleanup_partial_spawn k slot name own; Done (k, tt)) ;;; M_fail e.

Definition or_unwind (slot : nat) (name : list Z) (own : option Z) (r : option SpawnError) : M unit :=
  match r with Some e => unwind slot name own e | None => M_ret tt end.

(** ** Capabilities *)

(** [caps.insert(cap)] on the new task's table. *)
Definition slot_insert (slot : nat) (cap : Capability) : M (result nat CapError) :=
  fun k => let (caps, r) := CapTable.insert (d_caps (data_at (k_tasks k) slot)) cap in
           Done (with_tasks k (upd_data (k_tasks k) slot (set_caps caps)), Ok r).

Definition mint (id : ResourceId) (r : Rights) : M Capability :=
  fun k => c ← mint_cap (k_registry k) id r; Done (k, Ok c).

(** [caps.insert(mint_cap(id, r)).map_err(cleanup)?] *)
Definition grant (slot : nat) (name : list Z) (own : option Z) (id : ResourceId) (r : Rights) : M nat :=
  c <- mint id r ;;
  i <- slot_insert slot c ;;
  match i with
  | Ok i => M_ret i
  | Err _ => unwind slot name own CapTableFull
  end.

(** [if b { grant }], with the slot it got. *)
Definition grant_if (b : bool) (slot : nat) (name : list Z) (own : option Z) (id : ResourceId) (r : Rights)
    : M (option nat) :=
  if b then i <- grant slot name own id r ;; M_ret (Some i) else M_ret None.

Fixpoint grant_all (slot : nat) (name : list Z) (own : option Z) (l : list (ResourceId * Rights)) : M unit :=
  match l with
  | [] => M_ret tt
  | (id, r) :: l => grant slot name own id r ;;; grant_all slot name own l
  end.

(** [if let Ok(i) = caps.insert(mint_cap(id, r))] *)
Definition try_grant (slot : nat) (id : ResourceId) (r : Rights) : M (option nat) :=
  c <- mint id r ;;
  i <- slot_insert slot c ;;
  M_ret (match i with Ok i => Some i | Err _ => None end).

(** ** Endpoints *)

Definition SEND_GRANT : Rights := Rights.bitor Rights.SEND Rights.GRANT.

Definition fresh_id : M Z :=
  M_outcome (fun k => '(ids, id) ← alloc_endpoint_id (k_ids k); Done (with_ids k ids, id)).

Definition fresh_generation : M Z :=
  M_outcome (fun k => let (n, g) := Generation.next_generation (k_generation k) in
                      g ← g; Done (with_generation k n, g)).

Definition register_at_gen (id : ResourceId) (g : Z) : M unit :=
  M_outcome (fun k => R ← register_resource_at_gen (k_registry k) id g; Done (with_registry k R, tt)).

(** The cap slots the service learns from its context page. *)
Record EndpointSlots := mkEndpointSlots {
  recv_slot : option nat;
  self_grant_slot : option nat;
  reply_recv_slot : option nat;
  reply_grant_slot : option nat
}.

(** The reply mailbox: registered if the table has room for an optional one,
    else its id is given back. *)
Definition spawn_reply (slot : nat) (rq : SpawnRequest) : M (option nat * option nat) :=
  rep <- fresh_id ;;
  g <- fresh_generation ;;
  register_at_gen rep g ;;;
  granted <- M_outcome (fun k =>
    let (r, res) := try_register_optional (k_routing k) rep (Z.of_nat (rq_core rq)) g
                      (rq_watched rq || bool_decide (rq_name rq = SUPERVISOR)) in
    Done (with_routing k r, is_ok res)) ;;
  if granted : bool then
    M_modify (fun k => with_tasks k (set_task_reply_endpoint (k_tasks k) slot (Some rep))) ;;;
    rr <- try_grant slot rep Rights.RECV ;;
    match rr with
    | Some rr =>
        rg <- try_grant slot rep SEND_GRANT ;;
        M_ret (match rg with Some rg => (Some rr, Some rg) | None => (None, None) end)
    | None => M_ret (None, None)
    end
  else
    M_modify (fun k => with_ids k (free_endpoint_id (k_ids k) rep)) ;;;
    M_ret (None, None).

(** [if has_recv_endpoint { ... }] *)
Definition spawn_endpoints (slot : nat) (rq : SpawnRequest) : M (option Z * EndpointSlots) :=
  if rq_recv rq then
    ep <- fresh_id ;;
    g <- fresh_generation ;;
    register_at_gen ep g ;;;
    ok <- M_outcome (fun k =>
      let (r, ok) := try_register (k_routing k) ep (Z.of_nat (rq_core rq)) g in Done (with_routing k r, ok)) ;;
    if negb ok then unwind slot (rq_name rq) None NoMemory
    else
      M_modify (fun k => with_names k (register_name (k_names k) (rq_name rq) ep)) ;;;
      recv <- grant slot (rq_name rq) (Some ep) ep Rights.RECV ;;
      self_grant <- try_grant slot ep SEND_GRANT ;;
      reply <- spawn_reply slot rq ;;
      M_modify (fun k => with_irq k (foldl (fun i irq => register_irq i irq ep) (k_irq k) (rq_irqs rq))) ;;;
      M_ret (Some ep, mkEndpointSlots (Some recv) self_grant reply.1 reply.2)
  else M_ret (None, mkEndpointSlots None None None None).

(** ** The grants after the endpoints, in the order of the source *)

Definition service_grants (rq : SpawnRequest) (p : Privileges) (resource_mint : bool) : list (ResourceId * Rights) :=
  let w (b : bool) (id : ResourceId) (r : Rights) := if b then [(id, r)] else [] in
  w (p_introspect p) INTROSPECT_RESOURCE Rights.READ ++
  w (p_service_control p) SERVICE_CONTROL_RESOURCE Rights.WRITE ++
  (if bool_decide (rq_name rq = SUPERVISOR)
   then (fun id => (id, Rights.GRANT)) <$> SUPERVISOR_DELEGATABLE else []) ++
  w resource_mint RESOURCE_MINT_RESOURCE Rights.WRITE ++
  w (p_fire_irq p) FIRE_IRQ_RESOURCE Rights.WRITE ++
  w (p_reboot p) REBOOT_RESOURCE Rights.WRITE ++
  w (p_acquire_any p) ACQUIRE_ANY_RESOURCE Rights.WRITE ++
  w (p_net_device p) NET_DEVICE_RESOURCE Rights.WRITE ++
  w (p_pci_cfg p) PCI_CFG_RESOURCE Rights.READ ++
  w (p_cpu_clock p) CPU_CLOCK_RESOURCE Rights.WRITE ++
  w (p_power_off p) POWER_OFF_RESOURCE Rights.WRITE ++
  w (rq_device_power rq) DEVICE_POWER_RESOURCE Rights.WRITE ++
  w (p_usb_disk p) USB_DISK_RESOURCE Rights.WRITE ++
  w (p_gpio p) GPIO_DEVICE_RESOURCE Rights.WRITE ++
  w (p_image_spawn p) IMAGE_SPAWN_RESOURCE Rights.WRITE ++
  w (p_set_clock p) SET_CLOCK_RESOURCE Rights.WRITE ++
  w (p_set_clock_floor p) SET_CLOCK_RESOURCE Rights.READ.

(** ** Send peers *)

(** The capabilities the spawner supplied: slot and label of each installed. *)
Fixpoint wire_installs (slot : nat) (l : list (list Z * Capability)) (wired : list (nat * list Z))
    : M (list (nat * list Z)) :=
  match l with
  | [] => M_ret wired
  | (label, cap) :: l =>
      if (MAX_SEND_PEERS <=? length wired)%nat then M_ret wired
      else
        r <- slot_insert slot cap ;;
        wire_installs slot l
          (match r with Ok i => wired ++ [(i, take PEER_NAME_BYTES label)] | Err _ => wired end)
  end.

Definition provided (installs : option (list (list Z * Capability))) (peer : list Z) : bool :=
  match installs with
  | Some l => existsb (fun e => bool_decide (take PEER_NAME_BYTES e.1 = peer)) l
  | None => false
  end.

(** The declared peers, resolved against the kernel's directory. *)
Fixpoint wire_peers (slot : nat) (rq : SpawnRequest) (l : list (list Z)) (wired : list (nat * list Z))
    : M (list (nat * list Z)) :=
  match l with
  | [] => M_ret wired
  | peer :: l =>
      if (MAX_SEND_PEERS <=? length wired)%nat then M_ret wired
      else if provided (rq_installs rq) peer then wire_peers slot rq l wired
      else
        ep <- M_gets (fun k => lookup_name (k_names k) peer) ;;
        match ep with
        | Some ep =>
            c <- mint ep (if rq_peers_grant rq then SEND_GRANT else Rights.SEND) ;;
            r <- slot_insert slot c ;;
            wire_peers slot rq l
              (match r with Ok i => wired ++ [(i, take PEER_NAME_BYTES peer)] | Err _ => wired end)
        | None => wire_peers slot rq l wired
        end
  end.

(** What [set_task_peers] records: the wired labels, then every declared peer. *)
Definition declared (wired : list (nat * list Z)) (peers : list (list Z)) : list (list Z) :=
  foldl (fun names peer => if (MAX_SEND_PEERS <=? length names)%nat then names
                           else if bool_decide (peer = []) || existsb (fun n => bool_decide (n = peer)) names then names
                           else names ++ [peer])
    (List.filter utf8_valid (snd <$> wired)) peers.

(** ** The spawn *)

Record Context := mkContext {
  ctx_endpoints : EndpointSlots;
  ctx_spawn_slot : option nat;
  ctx_console_read_slot : option nat;
  ctx_console_push_slot : option nat;
  ctx_send_peers : list (nat * list Z)
}.

Definition USER_STACK_PAGES : Z := 64.

Definition reserve (rq : SpawnRequest) : M nat :=
  fun k => let (t, r) := reserve_slot (k_tasks k) (rq_core rq) in
           match r with
           | Some slot => Done (with_tasks k t, Ok slot)
           | None => Done (k, Err NoMemory)
           end.

Definition spawn_log (slot : nat) : M unit :=
  c <- mint LOG_WRITE_RESOURCE Rights.WRITE ;;
  i <- slot_insert slot c ;;
  match i with
  | Ok _ => M_ret tt
  | Err _ =>
      M_modify (fun k => with_tasks k (with_sched (k_tasks k) (release_task_slot (k_sched k) slot))) ;;;
      M_fail CapTableFull
  end.

Definition set_bus_master (bdf : option Z) (slot : nat) (k : Kernel) : Kernel :=
  match bdf with
  | Some b => with_bus_master (with_tasks k (set_task_hw_bdf (k_tasks k) slot b)) (b :: k_bus_master k)
  | None => k
  end.

Definition spawn_commit (rq : SpawnRequest) (slot : nat) (own : option Z) (elf_bytes kstack : Z) (k : Kernel) : Kernel :=
  let t := set_task_memory_budget (k_tasks k) slot (rq_limit rq) (elf_bytes + USER_STACK_PAGES * 4096 + 4096) in
  let t := set_task_watched t slot (rq_watched rq) in
  let t := set_task_hw_kind t slot (rq_hw_kind rq) in
  with_tasks k (commit_task t slot (rq_name rq) true kstack own).

(** [privs] and [resource_mint], from the request or from the catalogue. *)
Definition requested (rq : SpawnRequest) : Privileges :=
  match rq_privileges rq with Some bits => privileges_of bits | None => service_privileges (rq_name rq) end.
Definition mints (rq : SpawnRequest) : bool :=
  match rq_privileges rq with Some bits => asks bits privbits.RESOURCE_MINT | None => false end.

(** The spawn into a reserved slot. *)
Definition spawn_into (rq : SpawnRequest) (an : Answers) (elf_bytes : Z) (slot : nat) : M (option Z * Context) :=
  let name := rq_name rq in
  let p := requested rq in
  M_modify (fun k => with_tasks k (task_cap_init_empty (k_tasks k) slot)) ;;;
  spawn_log slot ;;;
  spawn_slot <- grant_if (p_spawn p) slot name None SPAWN_RESOURCE Rights.WRITE ;;
  eps <- spawn_endpoints slot rq ;;
  let own := eps.1 in
  console_read <- grant_if (rq_console_read rq) slot name own CONSOLE_READ_RESOURCE Rights.READ ;;
  console_push <- grant_if (p_console_push p) slot name own CONSOLE_PUSH_RESOURCE Rights.WRITE ;;
  grant_all slot name own (service_grants rq p (mints rq)) ;;;
  wired <- wire_installs slot (default [] (rq_installs rq)) [] ;;
  wired <- wire_peers slot rq (rq_peers rq) wired ;;
  match an_device an with
  | Err e => unwind slot name own e
  | Ok bdf =>
      M_modify (set_bus_master bdf slot) ;;;
      or_unwind slot name own (an_context an) ;;;
      M_modify (fun k => with_tasks k (set_task_peers (k_tasks k) slot (declared wired (rq_peers rq)))) ;;;
      or_unwind slot name own (an_context_map an) ;;;
      match an_kstack an with
      | None => unwind slot name own NoMemory
      | Some kstack =>
          M_modify (spawn_commit rq slot own elf_bytes kstack) ;;;
          M_ret (own, mkContext eps.2 spawn_slot console_read console_push wired)
      end
  end.

Definition spawn_service_with_image (rq : SpawnRequest) (an : Answers) : M (option Z * Context) :=
  match an_load an with
  | Err e => M_fail e
  | Ok elf_bytes => slot <- reserve rq ;; spawn_into rq an elf_bytes slot
  end.

(** ** Reasoning about spawns *)

(** The endpoint ids a half-made task holds. *)
Definition held (own : option Z) (rep : Z) : list Z := option_list own ++ filter (fun e => e <> 0) [rep].

(** The state while [slot] is being filled: reserved, but not yet alive.
    [rep] is its reply mailbox (0: none) and [loose] the ids allocated and not
    yet recorded. *)
Record spawning (name : list Z) (slot : nat) (own : option Z) (rep : Z) (loose : list Z) (k : Kernel) : Prop :=
  mk_spawning {
  sp_base : base_wf k;
  sp_vacant : forall j, t_valid (task_at (k_sched k) j) = false -> vacant k j;
  sp_slot : (slot < MAX_TASKS)%nat;
  sp_valid : t_valid (task_at (k_sched k) slot) = true;
  sp_dead : t_state (task_at (k_sched k) slot) = Dead;
  sp_reply : d_reply_endpoint (data_at (k_tasks k) slot) = rep;
  sp_ids : exists leaked, ids_wf (k_ids k) (endpoints (k_tasks k) ++ held own rep ++ loose ++ leaked);
  sp_owned : forall b e, lookup_name (k_names k) b = Some e ->
    (own = Some e /\ b = name) \/
    exists s, alive (k_sched k) s = true /\ task_name (k_tasks k) s = b /\
              d_endpoint (data_at (k_tasks k) s) = e /\ e <> 0
}.

(** What a request asks of the kernel's own resources. *)
Definition asked (rq : SpawnRequest) : list (ResourceId * Rights) :=
  (LOG_WRITE_RESOURCE, Rights.WRITE) ::
  (if p_spawn (requested rq) then [(SPAWN_RESOURCE, Rights.WRITE)] else []) ++
  (if rq_console_read rq then [(CONSOLE_READ_RESOURCE, Rights.READ)] else []) ++
  (if p_console_push (requested rq) then [(CONSOLE_PUSH_RESOURCE, Rights.WRITE)] else []) ++
  service_grants rq (requested rq) (mints rq).

(** What a spawn may put in the new task's table: what was asked for, its own
    two mailboxes, what the spawner supplied, and the declared peers. *)
Definition endowed (rq : SpawnRequest) (own : option Z) (rep : Z) (named : list Z -> option Z) (c : Capability) : Prop :=
  (resource_id c, rights c) ∈ asked rq \/
  (resource_id c ∈ held own rep /\ rights c ∈ [Rights.RECV; SEND_GRANT]) \/
  (exists label, (label, c) ∈ default [] (rq_installs rq)) \/
  (exists peer, peer ∈ rq_peers rq /\ named peer = Some (resource_id c) /\
                rights c = if rq_peers_grant rq then SEND_GRANT else Rights.SEND).

(** The other tasks are as in [k0]. *)
Record others (k0 : Kernel) (slot : nat) (k : Kernel) : Prop := mk_others {
  ot_task : forall j, j <> slot -> task_at (k_sched k) j = task_at (k_sched k0) j;
  ot_data : forall j, j <> slot -> data_at (k_tasks k) j = data_at (k_tasks k0) j;
  ot_core : forall c, core_at (k_sched k) c = core_at (k_sched k0) c
}.

(** Every capability the slot holds is an [Al] one. *)
Definition holds_only (Al : Capability -> Prop) (slot : nat) (k : Kernel) : Prop :=
  forall c, Some c ∈ d_caps (data_at (k_tasks k) slot) -> Al c.

Module SpawnFacts.
Import ProgFacts SchedFacts TaskDataFacts IrqFacts KernelFacts.

(** *** Invariants of a spawn under way *)

(** A change that leaves everything a spawn's invariant mentions alone. *)
Record same_owners (k k' : Kernel) : Prop := mk_same_owners {
  so_base : base_wf k';
  so_tasks : forall j, task_at (k_sched k') j = task_at (k_sched k) j;
  so_data : forall j, d_endpoint (data_at (k_tasks k') j) = d_endpoint (data_at (k_tasks k) j) /\
    d_reply_endpoint (data_at (k_tasks k') j) = d_reply_endpoint (data_at (k_tasks k) j);
  so_rows : task_names (k_tasks k') = task_names (k_tasks k);
  so_names : k_names k' = k_names k;
  so_ids : k_ids k' = k_ids k
}.

Lemma endpoints_ext (t t' : Tasks) :
  (forall j, endpoints_of t' j = endpoints_of t j) -> endpoints t' = endpoints t.
Proof. intros H. unfold endpoints. f_equal. apply list_fmap_ext. intros i x _. apply H. Qed.

Lemma same_owners_endpoints (k k' : Kernel) : same_owners k k' -> endpoints (k_tasks k') = endpoints (k_tasks k).
Proof.
  intros H. apply endpoints_ext. intros j. unfold endpoints_of, alive.
  pose proof (so_tasks _ _ H j) as Ht. unfold k_sched in Ht. rewrite Ht.
  destruct (so_data _ _ H j) as [-> ->]. done.
Qed.

Lemma same_owners_spawning (name : list Z) (slot : nat) own rep loose (k k' : Kernel) :
  same_owners k k' -> spawning name slot own rep loose k -> spawning name slot own rep loose k'.
Proof.
  intros H [Hb Hv Hs Hval Hd Hrep [lk Hi] Ho]. split.
  - apply H.
  - intros j. unfold vacant. rewrite (so_tasks _ _ H). intros Hj. destruct (Hv j Hj). split; [done|].
    by rewrite (proj2 (so_data _ _ H j)).
  - done.
  - by rewrite (so_tasks _ _ H).
  - by rewrite (so_tasks _ _ H).
  - by rewrite (proj2 (so_data _ _ H slot)).
  - exists lk. by rewrite (so_ids _ _ H), (same_owners_endpoints _ _ H).
  - intros b e. rewrite (so_names _ _ H). intros Hl. destruct (Ho b e Hl) as [?|(s & ? & ? & ? & ?)]; [by left|right].
    exists s. unfold alive, task_name in *. rewrite (so_tasks _ _ H), (so_rows _ _ H), (proj1 (so_data _ _ H s)). done.
Qed.

(** A change of the slot's own data. *)
Lemma same_owners_data (k : Kernel) (slot : nat) (f : TaskData -> TaskData) :
  base_wf k -> (forall d, d_endpoint (f d) = d_endpoint d /\ d_reply_endpoint (f d) = d_reply_endpoint d) ->
  same_owners k (with_tasks k (upd_data (k_tasks k) slot f)).
Proof.
  intros [[Hl Hd Hn Hp] ? ? ? ?] Hf. split; try done.
  - split; try done. split; try done. cbn. by rewrite length_alter.
  - intros j. unfold data_at. cbn. destruct (decide (slot = j)) as [->|Hj].
    + rewrite list_lookup_alter_eq. destruct (data (k_tasks k) !! j); [apply Hf|done].
    + by rewrite list_lookup_alter_ne.
Qed.

(** A change of a component the ownership does not mention. *)
Lemma same_owners_base (k k' : Kernel) :
  base_wf k' -> k_tasks k' = k_tasks k -> k_names k' = k_names k -> k_ids k' = k_ids k -> same_owners k k'.
Proof. intros Hb Ht Hn Hi. split; try done; unfold k_sched; by rewrite Ht. Qed.

Lemma try_register_wf (s : RoutingState) ep core g : routing_wf s -> routing_wf (try_register s ep core g).1.
Proof.
  intros Hwf. destruct (try_register s ep core g) as [s' []] eqn:E; simpl.
  - by destruct (try_register_true _ _ _ _ _ Hwf E).
  - by destruct (try_register_false _ _ _ _ _ E) as [-> _].
Qed.

Lemma counters_wf (s : RoutingState) r c q :
  routing_wf s -> routing_wf (mkRouting (TABLE s) (CALL_AWAIT_EP s) r c q).
Proof. intros []. by split. Qed.

Lemma try_register_optional_wf (s : RoutingState) ep core g w :
  routing_wf s -> routing_wf (try_register_optional s ep core g w).1.
Proof.
  intros Hwf. unfold try_register_optional.
  assert (routing_wf (take_mailbox_credit s).1) as Ht
    by (unfold take_mailbox_credit; case_match; [done|by apply counters_wf]).
  set (p := if _ && _ && _ then take_mailbox_credit s else (s, false)).
  assert (routing_wf p.1) as Hp by (unfold p; by case_match).
  destruct p as [s1 credited]. simpl in Hp.
  pose proof (try_register_wf s1 ep core g Hp) as Hr.
  destruct (try_register s1 ep core g) as [s2 ok]. simpl in Hr.
  destruct credited, ok; repeat case_match; try apply counters_wf; try done. by apply counters_wf.
Qed.

(** *** Unwinding *)

(** An endpoint's death, as [cleanup_partial_spawn] has it. *)
Lemma kill_quietly (k k' : Kernel) (ep : Z) :
  base_wf k -> 0 <= ep ->
  ('(r, _) ← kill_endpoint (k_routing k) ep; R ← mark_dead_resource (k_registry k) ep;
   Done (with_registry (with_routing k r) R)) = Done k' ->
  same_owners k k' /\ target_alive (k_routing k') ep = false /\ k_irq k' = k_irq k.
Proof.
  intros Hb Hep H. apply bind_Done in H as ([r [rx tx]] & Hk & H). apply bind_Done in H as (R & HR & H).
  injection H as <-. pose proof Hb as [Ht Hr [Hreg Hband] Hn Hi].
  destruct (kill_endpoint_waiters _ _ _ _ _ Hr Hk) as (Hr' & _ & Hd & _).
  destruct (mark_dead_facts _ _ _ Hreg Hep HR) as (HR' & _).
  split_and!; [apply same_owners_base|..]; done.
Qed.

Lemma release_slot_tasks (k : Kernel) (slot : nat) (s := release_task_slot (k_sched k) slot) :
  length (tasks (k_sched k)) = MAX_TASKS ->
  length (tasks s) = MAX_TASKS /\ (forall j, j <> slot -> task_at s j = task_at (k_sched k) j) /\
  (forall j, t_state (task_at s j) = t_state (task_at (k_sched k) j)).
Proof.
  intros Hl. subst s. unfold release_task_slot. split_and!.
  - cbn. by rewrite length_alter.
  - intros j Hj. rewrite task_at_upd, decide_False; [done|intros [-> _]; done].
  - intros j. rewrite task_at_upd. by case_decide.
Qed.

(** The last step: an empty slot given back. *)
Lemma release_slot_wf (name : list Z) (slot : nat) (k : Kernel) :
  spawning name slot None 0 [] k ->
  kernel_wf (with_tasks k (with_sched (k_tasks k) (release_task_slot (k_sched k) slot))).
Proof.
  intros [Hb Hv Hs Hval Hd Hrep [lk Hi] Ho]. pose proof Hb as [[Hl Hdl Hn Hp] Hr Hdel Hnm Hirq].
  destruct (release_slot_tasks k slot Hl) as (Hl' & Ht & Hst). set (s := release_task_slot (k_sched k) slot) in *.
  assert (alive s slot = false) as Hdead.
  { unfold alive. rewrite Hst, Hd, bool_decide_eq_true_2 by done. by rewrite andb_false_r. }
  assert (forall j, alive s j = alive (k_sched k) j) as Ha.
  { intros j. destruct (decide (j = slot)) as [->|Hj]; [|unfold alive; by rewrite Ht].
    rewrite Hdead. unfold alive. rewrite Hd, bool_decide_eq_true_2 by done. by rewrite andb_false_r. }
  split; [split; try done; by split|..].
  - intros j Hj. unfold vacant, k_sched in *. cbn in *. rewrite Hst.
    destruct (decide (j = slot)) as [->|Hne]; [done|]. rewrite Ht in Hj by done. by apply Hv.
  - exists lk. replace (endpoints _) with (endpoints (k_tasks k)); [done|].
    symmetry. apply endpoints_ext. intros j. unfold endpoints_of. cbn. by rewrite Ha.
  - intros b e Hl2. destruct (Ho b e Hl2) as [[? _]|(s' & Hs' & ?)]; [done|]. exists s'. unfold k_sched. cbn.
    by rewrite Ha.
Qed.

(** The ids a spawn holds, rearranged. *)
Lemma spawning_ids (name : list Z) (slot : nat) own rep loose loose' (k : Kernel) :
  (exists l, loose ≡ₚ loose' ++ l) ->
  spawning name slot own rep loose k -> spawning name slot own rep loose' k.
Proof.
  intros [l Hl] [Hb Hv Hs Hval Hd Hrep [lk Hi] Ho]. split; try done. exists (l ++ lk).
  eapply ids_wf_perm; [|done]. by rewrite Hl, <- (app_assoc loose' l lk).
Qed.

Lemma endpoints_dead (t : Tasks) (slot : nat) (f : TaskData -> TaskData) :
  alive (sched t) slot = false -> endpoints (upd_data t slot f) = endpoints t.
Proof.
  intros Ha. apply endpoints_ext. intros j. unfold endpoints_of. cbn. destruct (decide (slot = j)) as [<-|Hj].
  - by rewrite Ha.
  - unfold data_at. cbn. by rewrite list_lookup_alter_ne.
Qed.

Lemma spawning_not_alive (name : list Z) (slot : nat) own rep loose (k : Kernel) :
  spawning name slot own rep loose k -> alive (k_sched k) slot = false.
Proof.
  intros H. unfold alive. rewrite (sp_dead _ _ _ _ _ _ H), bool_decide_eq_true_2 by done. by rewrite andb_false_r.
Qed.

(** The reply mailbox recorded: [rep] becomes [rep'], and the ids follow. *)
Lemma spawning_reply (name : list Z) (slot : nat) own rep rep' loose loose' (k : Kernel) :
  filter (fun e => e <> 0) [rep] ++ loose ≡ₚ filter (fun e => e <> 0) [rep'] ++ loose' ->
  spawning name slot own rep loose k ->
  spawning name slot own rep' loose'
    (with_tasks k (upd_data (k_tasks k) slot (fun d => set_endpoints (d_endpoint d) rep' d))).
Proof.
  intros Hp H. pose proof (spawning_not_alive _ _ _ _ _ _ H) as Ha. destruct H as [Hb Hv Hs Hval Hd Hrep [lk Hi] Ho].
  pose proof Hb as [[Hl Hdl Hn Hpp] ? ? ? ?].
  assert (forall j, j <> slot -> data_at (upd_data (k_tasks k) slot (fun d => set_endpoints (d_endpoint d) rep' d)) j =
          data_at (k_tasks k) j) as Hj by (intros j Hj; unfold data_at; cbn; by rewrite list_lookup_alter_ne).
  split; try done.
  - split; try done. split; try done. cbn. by rewrite length_alter.
  - intros j Hjv. unfold vacant. cbn [k_tasks with_tasks]. rewrite Hj; [by apply Hv|].
    intros ->. unfold k_sched in *. cbn in Hjv. by rewrite Hval in Hjv.
  - cbn. unfold data_at. cbn. destruct (lookup_lt_is_Some_2 (data (k_tasks k)) slot) as [d Hdd]; [lia|].
    by rewrite list_lookup_alter_eq, Hdd.
  - exists lk. cbn [k_tasks with_tasks k_ids]. rewrite endpoints_dead by done.
    eapply ids_wf_perm; [|done]. unfold held. rewrite <- !app_assoc, !(app_assoc _ _ lk). by rewrite Hp.
  - intros b e Hbe. destruct (Ho b e Hbe) as [?|(s & Hs' & Hnm & He & Hz)]; [by left|right]. exists s.
    cbn [k_tasks with_tasks]. rewrite Hj; [done|]. intros ->. by rewrite Ha in Hs'.
Qed.

(** The spawn's own endpoint given up. *)
Lemma spawning_disown (name : list Z) (slot : nat) ep rep loose (k : Kernel) :
  spawning name slot (Some ep) rep loose k ->
  spawning name slot None rep loose
    (with_ids (with_names k (unregister_endpoint (k_names k) name ep).1) (free_endpoint_id (k_ids k) ep)).
Proof.
  intros [Hb Hv Hs Hval Hd Hrep [lk Hi] Ho]. pose proof Hb as [? ? ? Hn ?].
  destruct (decays_names slot (fun _ => False) k name ep Hb) as [Hdk Hno].
  assert (names_wf (unregister_endpoint (k_names k) name ep).1 /\
    forall b e, lookup_name (unregister_endpoint (k_names k) name ep).1 b = Some e ->
      lookup_name (k_names k) b = Some e /\ (e = ep -> b <> name)) as [Hn' Hlk].
  { split; [apply (bw_names _ (dk_wf _ _ _ _ Hdk))|]. intros b e Hl. split; [by apply (dk_name _ _ _ _ Hdk)|]. by intros -> ->. }
  split; try done.
  - exists lk. cbn. apply free_endpoint_id_wf. eapply ids_wf_perm; [|done]. unfold held. cbn [option_list app].
    by rewrite Permutation_middle.
  - intros b e Hbe. destruct (Hlk b e Hbe) as [Hl Hne]. right.
    destruct (Ho b e Hl) as [[[= <-] ->]|?]; [by destruct Hne|done].
Qed.

Lemma spawning_own_pos (name : list Z) (slot : nat) own rep loose (k : Kernel) (e : Z) :
  spawning name slot own rep loose k -> e ∈ held own rep ++ loose -> 100 <= e < DELEGATED_BASE.
Proof.
  intros [_ _ _ _ _ _ [lk Hi] _] He. pose proof (iwf_next _ _ Hi).
  enough (100 <= e < NEXT_ENDPOINT_ID (k_ids k)) by lia. apply (iwf_live_range _ _ Hi). apply elem_of_app. right.
  rewrite app_assoc. apply elem_of_app. by left.
Qed.

(** Unwinding gives back the kernel's invariant. *)
Lemma cleanup_wf (name : list Z) (slot : nat) own rep loose (k k' : Kernel) :
  spawning name slot own rep loose k -> cleanup_partial_spawn k slot name own = Done k' -> kernel_wf k'.
Proof.
  intros H Hc. unfold cleanup_partial_spawn in Hc. pose proof (sp_slot _ _ _ _ _ _ H) as Hs.
  unfold take_task_hw_bdf, take_task_reply_endpoint in Hc.
  rewrite (proj2 (Nat.ltb_lt _ _) Hs), (proj2 (Nat.leb_gt _ _) Hs) in Hc. cbn [fst k_tasks with_tasks] in Hc.
  set (k1 := with_tasks k (upd_data (k_tasks k) slot (fun d => set_device 65535 (d_watched d) (d_hw_kind d) d))) in Hc.
  assert (spawning name slot own rep loose k1) as H1.
  { eapply same_owners_spawning; [|done]. by apply same_owners_data; [apply H|]. }
  match type of Hc with context [with_tasks k1 ?t] => set (k2 := with_tasks k1 t) in Hc end.
  assert (spawning name slot own 0 [] k2) as H2.
  { apply (spawning_ids _ _ _ _ (filter (fun e => e <> 0) [rep] ++ loose)); [by exists (filter (fun e => e <> 0) [rep] ++ loose)|].
    eapply spawning_reply; [|exact H1]. done. }
  change (d_reply_endpoint _) with (d_reply_endpoint (data_at (k_tasks k1) slot)) in Hc.
  rewrite (sp_reply _ _ _ _ _ _ H1) in Hc.
  apply bind_Done in Hc as (k3 & Hk3 & Hc). apply bind_Done in Hc as (k4 & Hk4 & Hc). injection Hc as <-.
  assert (spawning name slot own 0 [] k3) as H3.
  { unfold ep_from_u64 in Hk3. destruct (rep =? 0) eqn:Ez; [by injection Hk3 as <-|].
    apply kill_quietly in Hk3 as [Hk3 _]; [by eapply same_owners_spawning|apply H2|].
    enough (100 <= rep < DELEGATED_BASE) by lia. eapply (spawning_own_pos _ _ _ _ _ _ _ H). unfold held.
    rewrite filter_cons_True by lia. apply elem_of_app. left. apply elem_of_app. right. by left. }
  apply (release_slot_wf name). destruct own as [ep|]; [|by injection Hk4 as <-].
  apply bind_Done in Hk4 as ([r w] & Hr & Hk4). apply bind_Done in Hk4 as (R & HR & Hk4). injection Hk4 as <-.
  apply (spawning_disown name slot ep 0 [] (with_registry (with_routing k3 r) R)). eapply same_owners_spawning; [|exact H3].
  apply (kill_quietly k3 _ ep); [apply H3| |by rewrite Hr; cbn; rewrite HR].
  enough (100 <= ep < DELEGATED_BASE) by lia. eapply (spawning_own_pos _ _ _ _ _ _ _ H3). by left.
Qed.

Lemma triple_unwind {A} (name : list Z) (slot : nat) own rep loose (Q : A -> Kernel -> Prop) (e : SpawnError) :
  triple (spawning name slot own rep loose) (unwind slot name own e) Q kernel_wf.
Proof.
  eapply (triple_bind _ _ (fun _ => kernel_wf)); [|intros; by apply triple_fail].
  apply triple_outcome. intros k k' a Hk (k1 & Hc & [= <- <-])%bind_Done. by eapply cleanup_wf.
Qed.

Lemma triple_mint (P E : Kernel -> Prop) (id : ResourceId) (r : Rights) :
  triple P (mint id r) (fun _ => P) E.
Proof. intros k k' x HP H. unfold mint in H. by apply bind_Done in H as (c & _ & [= <- <-]). Qed.

Lemma triple_slot_insert (name : list Z) (slot : nat) own rep loose (cap : Capability) :
  triple (spawning name slot own rep loose) (slot_insert slot cap) (fun _ => spawning name slot own rep loose) kernel_wf.
Proof.
  intros k k' x HP H. unfold slot_insert in H. destruct (CapTable.insert _ _) as [caps r]. injection H as <- <-.
  eapply same_owners_spawning; [|done]. by apply same_owners_data; [apply HP|].
Qed.

Lemma triple_grant (name : list Z) (slot : nat) own rep loose (id : ResourceId) (r : Rights) :
  triple (spawning name slot own rep loose) (grant slot name own id r) (fun _ => spawning name slot own rep loose) kernel_wf.
Proof.
  eapply triple_bind; [apply triple_mint|intros c]. eapply triple_bind; [apply triple_slot_insert|intros [i|?]].
  - apply triple_skip.
  - apply triple_unwind.
Qed.

Lemma triple_grant_if (b : bool) (name : list Z) (slot : nat) own rep loose (id : ResourceId) (r : Rights) :
  triple (spawning name slot own rep loose) (grant_if b slot name own id r)
    (fun _ => spawning name slot own rep loose) kernel_wf.
Proof.
  destruct b; [|apply triple_skip]. eapply triple_bind; [apply triple_grant|intros]. apply triple_skip.
Qed.

Lemma triple_grant_all (name : list Z) (slot : nat) own rep loose l :
  triple (spawning name slot own rep loose) (grant_all slot name own l)
    (fun _ => spawning name slot own rep loose) kernel_wf.
Proof.
  induction l as [|[id r] l IH]; [apply triple_skip|]. eapply triple_bind; [apply triple_grant|intros; exact IH].
Qed.

Lemma triple_try_grant (name : list Z) (slot : nat) own rep loose (id : ResourceId) (r : Rights) :
  triple (spawning name slot own rep loose) (try_grant slot id r) (fun _ => spawning name slot own rep loose) kernel_wf.
Proof.
  eapply triple_bind; [apply triple_mint|intros c]. eapply triple_bind; [apply triple_slot_insert|intros i].
  apply triple_skip.
Qed.

(** *** Endpoints *)

Lemma triple_fresh_id (name : list Z) (slot : nat) own rep loose (E : Kernel -> Prop) :
  triple (spawning name slot own rep loose) fresh_id (fun id => spawning name slot own rep (id :: loose)) E.
Proof.
  apply triple_outcome. intros k k' id [Hb Hv Hs Hval Hd Hrep [lk Hi] Ho] ([ids x] & Ha & [= <- <-])%bind_Done.
  destruct (alloc_endpoint_id_wf _ _ _ _ Hi Ha) as (_ & _ & Hi'). split; try done.
  - by destruct Hb.
  - exists lk. cbn [k_ids with_ids k_tasks]. eapply ids_wf_perm; [|exact Hi'].
    rewrite <- (app_comm_cons loose lk x). by rewrite <- !Permutation_middle.
Qed.

Lemma same_owners_generation (k : Kernel) (n : Z) : base_wf k -> same_owners k (with_generation k n).
Proof. intros []. by apply same_owners_base. Qed.

Lemma triple_fresh_generation (name : list Z) (slot : nat) own rep loose (E : Kernel -> Prop) :
  triple (spawning name slot own rep loose) fresh_generation (fun _ => spawning name slot own rep loose) E.
Proof.
  apply triple_outcome. intros k k' g Hk H. destruct (Generation.next_generation _) as [n g'].
  apply bind_Done in H as (x & _ & [= <- <-]).
  eapply same_owners_spawning; [apply same_owners_generation, Hk|done].
Qed.

Lemma triple_register_at_gen (name : list Z) (slot : nat) own rep loose (E : Kernel -> Prop) id g :
  id ∈ held own rep ++ loose ->
  triple (spawning name slot own rep loose) (register_at_gen id g) (fun _ => spawning name slot own rep loose) E.
Proof.
  intros Hid. apply triple_outcome. intros k k' u Hk (R & HR & [= <- <-])%bind_Done.
  pose proof (spawning_own_pos _ _ _ _ _ _ _ Hk Hid) as Hrange.
  eapply same_owners_spawning; [|done]. pose proof (sp_base _ _ _ _ _ _ Hk) as [? ? [Hreg ?] ? ?].
  assert (direct_id id) as Hd by (unfold direct_id, DIRECT_CAP, DELEGATED_BASE in *; lia).
  destruct (reg_register_get (k_registry k) R id g Hreg Hd HR) as [HR' _].
  by apply same_owners_base.
Qed.

Lemma spawning_routing (name : list Z) (slot : nat) own rep loose (k : Kernel) r :
  routing_wf r -> spawning name slot own rep loose k -> spawning name slot own rep loose (with_routing k r).
Proof.
  intros Hr H. eapply same_owners_spawning; [|done]. destruct (sp_base _ _ _ _ _ _ H).
  by apply same_owners_base.
Qed.

Lemma spawning_own (name : list Z) (slot : nat) ep rep loose (k : Kernel) :
  spawning name slot None rep (ep :: loose) k ->
  spawning name slot (Some ep) rep loose (with_names k (register_name (k_names k) name ep)).
Proof.
  intros [Hb Hv Hs Hval Hd Hrep [lk Hi] Ho]. pose proof Hb as [? ? ? Hn ?].
  assert (names_wf (register_name (k_names k) name ep) /\ forall b e,
    maps_to (register_name (k_names k) name ep) b e -> (ep = e /\ b = name) \/ maps_to (k_names k) b e) as [Hn' Hm].
  { destruct (decide (length name <= NAME_MAX)%nat) as [Hl|Hl].
    - destruct (register_name_cases _ _ ep Hn Hl) as [(_ & ? & Hm)|[_ ->]].
      + split; [done|]. intros b e [[-> ->]|(_ & _ & ?)]%Hm; [by left|by right].
      + split; [by apply evict_wf|]. intros b e [? _]%evict_maps_to; [by right|done].
    - unfold register_name. rewrite (proj2 (Nat.ltb_lt _ _)) by lia. split; [done|]. by right. }
  split; try done.
  - exists lk. cbn [k_ids with_names k_tasks]. eapply ids_wf_perm; [|done]. unfold held. cbn [option_list app].
    f_equiv. by rewrite <- Permutation_middle.
  - intros b e. cbn [k_names with_names]. rewrite lookup_name_spec by done. intros [[-> ->]|Hx]%Hm; [by left|right].
    destruct (Ho b e) as [[? _]|?]; [by apply lookup_name_spec|done|done].
Qed.

Lemma register_irq_wf (i : Irq) (irq : nat) (ep : Z) : irq_wf i -> irq_wf (register_irq i irq ep).
Proof.
  intros [? ? ? ? ?]. unfold register_irq, unmask_vector. apply gate_vector_spec. split; cbn; try done.
  by rewrite length_insert.
Qed.

Lemma register_irqs_wf (irqs : list nat) (ep : Z) (i : Irq) :
  irq_wf i -> irq_wf (foldl (fun i irq => register_irq i irq ep) i irqs).
Proof. revert i. induction irqs as [|q l IH]; intros i Hi; [done|]. apply IH. by apply register_irq_wf. Qed.

Lemma same_owners_irqs (k : Kernel) (irqs : list nat) (ep : Z) :
  base_wf k -> same_owners k (with_irq k (foldl (fun i irq => register_irq i irq ep) (k_irq k) irqs)).
Proof.
  intros [? ? ? ? Hi]. pose proof (register_irqs_wf irqs ep _ Hi). by apply same_owners_base.
Qed.

Lemma triple_routing {A B} (name : list Z) (slot : nat) own rep loose (E : Kernel -> Prop)
    (f : RoutingState -> RoutingState * B) (g : B -> A) :
  (forall r, routing_wf r -> routing_wf (f r).1) ->
  triple (spawning name slot own rep loose)
    (M_outcome (E := SpawnError) (fun k => let (r, a) := f (k_routing k) in Done (with_routing k r, g a)))
    (fun _ => spawning name slot own rep loose) E.
Proof.
  intros Hf. apply triple_outcome. intros k k' a Hk H. specialize (Hf (k_routing k) (bw_routing _ (sp_base _ _ _ _ _ _ Hk))).
  destruct (f (k_routing k)) as [r x]. injection H as <- <-. by apply spawning_routing.
Qed.

(** *** Send peers *)

Lemma triple_wire_installs (name : list Z) (slot : nat) own rep l wired :
  triple (spawning name slot own rep []) (wire_installs slot l wired) (fun _ => spawning name slot own rep []) kernel_wf.
Proof.
  revert wired. induction l as [|[label cap] l IH]; intros wired; [apply triple_skip|]. cbn [wire_installs].
  case_match; [apply triple_skip|]. eapply triple_bind; [apply triple_slot_insert|intros r]. apply IH.
Qed.

Lemma triple_wire_peers (name : list Z) (slot : nat) (rq : SpawnRequest) own rep l wired :
  triple (spawning name slot own rep []) (wire_peers slot rq l wired) (fun _ => spawning name slot own rep []) kernel_wf.
Proof.
  revert wired. induction l as [|peer l IH]; intros wired; [apply triple_skip|]. cbn [wire_peers].
  case_match; [apply triple_skip|]. case_match; [apply IH|].
  eapply (triple_bind _ _ (fun _ => spawning name slot own rep [])); [by apply triple_gets|intros [ep|]]; [|apply IH].
  eapply triple_bind; [apply triple_mint|intros c]. eapply triple_bind; [apply triple_slot_insert|intros r]. apply IH.
Qed.

Lemma same_owners_peers (k : Kernel) (slot : nat) (peers : list (list Z)) :
  base_wf k -> (slot < MAX_TASKS)%nat -> same_owners k (with_tasks k (set_task_peers (k_tasks k) slot peers)).
Proof.
  intros [[Hl Hd Hn Hp] ? ? ? ?] Hs. unfold set_task_peers. rewrite (proj2 (Nat.leb_gt _ _) Hs).
  split; try done. split; try done. split; try done. cbn [task_peers k_tasks with_tasks].
  apply (rows_fold (MAX_TASKS * MAX_SEND_PEERS) PEER_NAME_BYTES (slot * MAX_SEND_PEERS) MAX_SEND_PEERS
           (fun i => default [] (peers !! i)) (task_peers (k_tasks k))); [done| |unfold PEER_NAME_BYTES; lia].
  revert Hs. generalize MAX_TASKS. unfold MAX_SEND_PEERS. lia.
Qed.

Lemma same_owners_bus_master (k : Kernel) (bdf : option Z) (slot : nat) :
  base_wf k -> same_owners k (set_bus_master bdf slot k).
Proof.
  intros Hb. destruct bdf as [b|]; [|by split]. unfold set_bus_master, set_task_hw_bdf.
  destruct (slot <? MAX_TASKS)%nat.
  - apply (same_owners_data k slot (fun d => set_device b (d_watched d) (d_hw_kind d) d)) in Hb as [Hb ? ? ? ? ?]; [|done].
    split; try done. by destruct Hb.
  - split; try done. by destruct Hb.
Qed.

(** *** Reserving and committing *)

Lemma reserve_spawning (rq : SpawnRequest) (name : list Z) :
  triple kernel_wf (reserve rq) (fun slot => spawning name slot None 0 []) kernel_wf.
Proof.
  intros k k' r Hk H. pose proof Hk as [Hb Hv [lk Hi] Ho]. unfold reserve, reserve_slot, reserve_task_slot in H.
  destruct (position _ _) as [i|] eqn:Ep; injection H as <- <-; [|done].
  destruct (position_hit _ _ _ Ep) as (t & Ht & Hval%negb_true_iff).
  pose proof (lookup_lt_Some _ _ _ Ht) as Hlt. pose proof Hb as [[Hl Hd Hn Hp] ? ? ? ?].
  assert (task_at (k_sched k) i = t) as Hti by (unfold task_at, k_sched; by rewrite Ht).
  destruct (Hv i) as [Hst Hrep]; [by rewrite Hti|].
  set (s := upd_task _ i _). set (f := fun d => set_pending_caps _ _ d).
  assert (task_at s i = mkSlot Dead true (rq_core rq) (t_wakeup_err t) (t_wake_pending t) (t_wake_deadline t)
            (t_run_ticks t)) as Hsi.
  { unfold s. rewrite task_at_upd, decide_True by done. unfold k_sched in *. by rewrite Hst, Hti. }
  assert (forall j, j <> i -> task_at s j = task_at (k_sched k) j) as Hsj.
  { intros j Hj. unfold s. rewrite task_at_upd, decide_False; [done|]. by intros [-> _]. }
  assert (forall j, alive s j = alive (k_sched k) j) as Ha.
  { intros j. unfold alive. destruct (decide (j = i)) as [->|Hj]; [|by rewrite Hsj].
    by rewrite Hsi, Hst, !bool_decide_eq_true_2, !andb_false_r. }
  assert (forall j, d_endpoint (data_at (upd_data (with_sched (k_tasks k) s) i f) j) = d_endpoint (data_at (k_tasks k) j) /\
    d_reply_endpoint (data_at (upd_data (with_sched (k_tasks k) s) i f) j) = d_reply_endpoint (data_at (k_tasks k) j)) as Hdj.
  { intros j. rewrite data_at_upd by (cbn; rewrite Hd; unfold k_sched in *; lia). by case_decide as Hj; [subst j|]. }
  split.
  - split; try done. split; try done; cbn; by rewrite length_alter.
  - intros j Hj. unfold vacant, k_sched. cbn [k_tasks with_tasks sched with_sched upd_data]. rewrite (proj2 (Hdj j)).
    destruct (decide (j = i)) as [->|Hne]; [by rewrite Hsi|]. rewrite Hsj by done. apply Hv. by rewrite <- Hsj.
  - unfold k_sched in *. lia.
  - unfold k_sched. cbn [k_tasks with_tasks sched with_sched upd_data]. by rewrite Hsi.
  - unfold k_sched. cbn [k_tasks with_tasks sched with_sched upd_data]. by rewrite Hsi.
  - cbn [k_tasks with_tasks]. by rewrite (proj2 (Hdj i)).
  - exists lk. cbn [k_ids with_tasks k_tasks]. rewrite (endpoints_ext (k_tasks k)); [done|].
    intros j. unfold endpoints_of. destruct (Hdj j) as [-> ->]. cbn [sched with_sched upd_data]. by rewrite Ha.
  - intros b e Hl'. right. destruct (Ho b e Hl') as (q & Hq & Hnm & He & Hz). exists q.
    unfold k_sched. cbn [k_tasks with_tasks sched with_sched upd_data]. by rewrite Ha, (proj1 (Hdj q)).
Qed.

Lemma task_name_set (k : Tasks) (slot : nat) (name : list Z) (j : nat) :
  tasks_wf k -> (slot < MAX_TASKS)%nat ->
  (j <> slot -> task_name (set_task_name k slot name) j = task_name k j) /\
  ((length name <= TASK_NAME_MAX)%nat -> utf8_valid name = true -> task_name (set_task_name k slot name) slot = name).
Proof.
  intros [_ _ Hn _] Hs. unfold task_name, set_task_name, rows_get. cbn [task_names].
  assert (TASK_NAME_MAX < 256)%nat as HT by (unfold TASK_NAME_MAX, PEER_NAME_BYTES; lia). split.
  - intros Hj. destruct (MAX_TASKS <=? j)%nat; [done|].
    pose proof (rows_set_row MAX_TASKS TASK_NAME_MAX (task_names k) slot j name Hn Hs HT) as H.
    rewrite decide_False in H by done. by injection H as -> ->.
  - intros Hl Hu. pose proof (rows_set_row MAX_TASKS TASK_NAME_MAX (task_names k) slot slot name Hn Hs HT) as H.
    rewrite decide_True in H by done. injection H as -> ->. rewrite (proj2 (Nat.leb_gt _ _) Hs).
    cbn [default from_option Datatypes.id]. rewrite Nat2Z.id, !(Nat.min_l _ TASK_NAME_MAX) by lia.
    by rewrite padded_take, Hu.
Qed.

(** What [spawn_commit] stores. *)
Lemma commit_stores (rq : SpawnRequest) (slot : nat) (own : option Z) (elf_bytes kstack : Z) (k : Kernel) :
  base_wf k -> (slot < MAX_TASKS)%nat ->
  let k' := spawn_commit rq slot own elf_bytes kstack k in
  base_wf k' /\ k_names k' = k_names k /\ k_ids k' = k_ids k /\
  (forall j, task_at (k_sched k') j = if decide (slot = j) then set_state Ready (task_at (k_sched k) j)
                                      else task_at (k_sched k) j) /\
  (forall j, j <> slot -> data_at (k_tasks k') j = data_at (k_tasks k) j) /\
  d_endpoint (data_at (k_tasks k') slot) = ep_to_u64 own /\
  d_reply_endpoint (data_at (k_tasks k') slot) = d_reply_endpoint (data_at (k_tasks k) slot) /\
  d_caps (data_at (k_tasks k') slot) = d_caps (data_at (k_tasks k) slot) /\
  task_names (k_tasks k') = task_names (set_task_name (k_tasks k) slot (rq_name rq)).
Proof.
  intros [[Hl Hd Hn Hp] ? ? ? ?] Hs k'. unfold k', spawn_commit, set_task_memory_budget, set_task_watched, set_task_hw_kind.
  rewrite !(proj2 (Nat.ltb_lt _ _) Hs), !(proj2 (Nat.leb_gt _ _) Hs).
  split_and!; try done.
  - split; try done. split; try done; cbn; rewrite ?length_alter; try done. by apply rows_set_wf.
  - intros j. unfold k_sched. cbn [k_tasks with_tasks commit_task sched with_sched upd_data set_task_name].
    unfold commit_ready. rewrite task_at_upd. destruct (decide (slot = j)) as [<-|Hj].
    + rewrite decide_True; [done|]. split; [done|lia].
    + rewrite decide_False; [done|]. by intros [? _].
  - intros j Hj. unfold data_at. cbn. by rewrite !list_lookup_alter_ne.
  - unfold data_at. cbn. destruct (lookup_lt_is_Some_2 (data (k_tasks k)) slot) as [d Hdd]; [lia|].
    by rewrite !list_lookup_alter_eq, Hdd.
  - unfold data_at. cbn. destruct (lookup_lt_is_Some_2 (data (k_tasks k)) slot) as [d Hdd]; [lia|].
    by rewrite !list_lookup_alter_eq, Hdd.
  - unfold data_at. cbn. destruct (lookup_lt_is_Some_2 (data (k_tasks k)) slot) as [d Hdd]; [lia|].
    by rewrite !list_lookup_alter_eq, Hdd.
Qed.

Lemma commit_wf (rq : SpawnRequest) (slot : nat) own rep (elf_bytes kstack : Z) (k : Kernel) :
  utf8_valid (rq_name rq) = true -> spawning (rq_name rq) slot own rep [] k ->
  kernel_wf (spawn_commit rq slot own elf_bytes kstack k).
Proof.
  intros Hu Hk. pose proof (spawning_not_alive _ _ _ _ _ _ Hk) as Hna.
  pose proof (fun e => spawning_own_pos _ _ _ _ _ _ e Hk) as Hpos.
  destruct Hk as [Hb Hv Hs Hval Hd Hrep [lk Hi] Ho].
  destruct (commit_stores rq slot own elf_bytes kstack k Hb Hs) as (Hb' & Hn & Hid & Ht & Hdj & He & Hr & _ & Hrows).
  set (k' := spawn_commit _ _ _ _ _ _) in *.
  assert (forall j, j <> slot -> task_at (k_sched k') j = task_at (k_sched k) j) as Htj
    by (intros j Hj; by rewrite Ht, decide_False).
  assert (alive (k_sched k') slot = true) as Ha.
  { unfold alive. rewrite Ht, decide_True by done. cbn [t_valid t_state set_state].
    by rewrite Hval, (proj2 (Nat.ltb_lt _ _) Hs). }
  split; [done|..].
  - intros j Hj. destruct (decide (j = slot)) as [->|Hne].
    + rewrite Ht, decide_True in Hj by done. cbn in Hj. by rewrite Hval in Hj.
    + unfold vacant. rewrite Htj, Hdj by done. apply Hv. by rewrite <- Htj.
  - exists lk. rewrite Hid. eapply ids_wf_perm; [|done].
    destruct (endpoints_split (k_tasks k) (k_tasks k') slot Hs) as (rest & Hp & Hp').
    { intros j Hj. unfold endpoints_of, alive. unfold k_sched in Htj. by rewrite Htj, Hdj. }
    unfold endpoints_of in Hp, Hp'. unfold k_sched in Ha, Hna. rewrite Hna in Hp. rewrite Ha, Hr, He, Hrep in Hp'.
    rewrite Hp, Hp', (filter_app _ [rep] [ep_to_u64 own]). unfold held. cbn [app]. rewrite <- !app_assoc.
    rewrite (Permutation_app_swap_app rest), (Permutation_app_swap_app rest), (Permutation_app_swap_app (option_list own)).
    do 2 f_equiv. destruct own as [ep|]; cbn [ep_to_u64 option_list].
    + rewrite filter_cons_True; [done|]. specialize (Hpos ep). unfold held in Hpos. cbn in Hpos.
      rewrite elem_of_cons in Hpos. destruct Hpos; [by left|lia].
    + by rewrite filter_cons_False by lia.
  - intros b e. rewrite Hn. intros Hbe. destruct (Ho b e Hbe) as [[-> ->]|(q & Hq & Hnm & Heq & Hz)].
    + exists slot. rewrite He. cbn [ep_to_u64]. unfold task_name. rewrite Hrows. split_and!; try done.
      * apply (task_name_set (k_tasks k) slot (rq_name rq) slot (bw_tasks _ Hb) Hs); [|done].
        unfold lookup_name in Hbe. case_match eqn:El; [done|]. apply Nat.ltb_ge in El. done.
      * specialize (Hpos e). cbn in Hpos. rewrite elem_of_cons in Hpos. destruct Hpos; [by left|lia].
    + exists q. assert (q <> slot) as Hq' by (intros ->; by rewrite Hna in Hq).
      unfold alive, task_name in *. rewrite Htj, Hdj, Hrows by done. split_and!; try done.
      rewrite <- Hnm. by apply (task_name_set (k_tasks k) slot (rq_name rq) q (bw_tasks _ Hb) Hs).
Qed.

Lemma triple_spawn_log (name : list Z) (slot : nat) :
  triple (spawning name slot None 0 []) (spawn_log slot) (fun _ => spawning name slot None 0 []) kernel_wf.
Proof.
  eapply triple_bind; [apply triple_mint|intros c]. eapply triple_bind; [apply triple_slot_insert|intros [i|?]].
  - apply triple_skip.
  - eapply (triple_bind _ _ (fun _ => kernel_wf)); [|intros; by apply triple_fail].
    apply triple_modify. intros k Hk. by apply (release_slot_wf name).
Qed.

Lemma triple_or_unwind (name : list Z) (slot : nat) own rep loose (r : option SpawnError) :
  triple (spawning name slot own rep loose) (or_unwind slot name own r) (fun _ => spawning name slot own rep loose) kernel_wf.
Proof. destruct r; [apply triple_unwind|apply triple_skip]. Qed.

Lemma triple_modify_owners (name : list Z) (slot : nat) own rep loose (f : Kernel -> Kernel) (E : Kernel -> Prop) :
  (forall k, base_wf k -> same_owners k (f k)) ->
  triple (spawning name slot own rep loose) (M_modify (E := SpawnError) f) (fun _ => spawning name slot own rep loose) E.
Proof. intros Hf. apply triple_modify. intros k Hk. eapply same_owners_spawning; [apply Hf, Hk|done]. Qed.

(** *** What the new task holds *)

(** No task began, ended or changed since [k0]. *)
Definition quiet (k0 k : Kernel) : Prop :=
  forall j, alive (k_sched k) j = alive (k_sched k0) j /\
            (alive (k_sched k0) j = true -> data_at (k_tasks k) j = data_at (k_tasks k0) j).

Definition undone (k0 k : Kernel) : Prop := kernel_wf k /\ quiet k0 k.

(** [filling]: the slot of a spawn begun in [k0]. *)
Record filling (k0 : Kernel) (slot : nat) (Al : Capability -> Prop) (k : Kernel) : Prop := mk_filling {
  fi_others : others k0 slot k;
  fi_dead : alive (k_sched k) slot = false;
  fi_new : alive (k_sched k0) slot = false;
  fi_holds : holds_only Al slot k
}.

Lemma filling_weaken (k0 : Kernel) (slot : nat) (Al Al' : Capability -> Prop) (k : Kernel) :
  (forall c, Al c -> Al' c) -> filling k0 slot Al k -> filling k0 slot Al' k.
Proof. intros H [Ho Hd Hn Hh]. split; [done..|]. intros c Hc. by apply H, Hh. Qed.

Lemma filling_tasks (k0 : Kernel) (slot : nat) Al (k k' : Kernel) :
  k_tasks k' = k_tasks k -> filling k0 slot Al k -> filling k0 slot Al k'.
Proof.
  intros Ht [[Ho1 Ho2 Ho3] Hdd Hnn Hh]. split; [split|..]; unfold holds_only, k_sched in *; by rewrite ?Ht.
Qed.

(** A change of the slot's data that leaves its capabilities alone. *)
Lemma filling_data (k0 : Kernel) (slot : nat) Al (k : Kernel) (f : TaskData -> TaskData) :
  (forall d, d_caps (f d) = d_caps d) -> filling k0 slot Al k ->
  filling k0 slot Al (with_tasks k (upd_data (k_tasks k) slot f)).
Proof.
  intros Hf [[Ho1 Ho2 Ho3] Hdd Hnn Hh]. split; [split|..]; try done.
  - intros j Hj. rewrite <- (Ho2 j Hj). unfold data_at. cbn. by rewrite list_lookup_alter_ne.
  - intros c. specialize (Hh c). unfold data_at in *. cbn. rewrite list_lookup_alter_eq.
    destruct (data (k_tasks k) !! slot); cbn; [by rewrite Hf|done].
Qed.

Lemma triple_filling_tasks {A} (k0 : Kernel) (slot : nat) Al (f : Kernel -> outcome (Kernel * A)) :
  (forall k k' a, f k = Done (k', a) -> k_tasks k' = k_tasks k) ->
  triple (filling k0 slot Al) (M_outcome (E := SpawnError) f) (fun _ => filling k0 slot Al) (quiet k0).
Proof. intros Hf. apply triple_outcome. intros k k' a Hk H. by eapply filling_tasks; [eapply Hf|]. Qed.

Lemma filling_quiet (k0 : Kernel) (slot : nat) Al (k : Kernel) : filling k0 slot Al k -> quiet k0 k.
Proof.
  intros [[Ho Hdt _] Hd Hn _] j. destruct (decide (j = slot)) as [->|Hj]; [split; congruence|].
  split; [unfold alive; by rewrite Ho|]. intros _. by apply Hdt.
Qed.

Lemma release_quiet (k0 k k' : Kernel) (slot : nat) :
  quiet k0 k -> alive (k_sched k) slot = false -> k_sched k' = release_task_slot (k_sched k) slot ->
  (forall j, j <> slot -> data_at (k_tasks k') j = data_at (k_tasks k) j) -> quiet k0 k'.
Proof.
  intros Hq Hd Ht Hdt j. destruct (Hq j) as [Hj1 Hj2]. rewrite <- Hj1 in *. destruct (decide (slot = j)) as [->|Hne].
  - split; [|by rewrite Hd]. rewrite Ht, Hd. unfold alive, release_task_slot in *. rewrite task_at_upd.
    destruct (decide (j = j /\ (j < length (tasks (k_sched k)))%nat)); [|done].
    cbn [t_valid set_valid]. by rewrite andb_false_r.
  - split.
    + rewrite Ht. unfold alive, release_task_slot. rewrite task_at_upd.
      destruct (decide (slot = j /\ (j < length (tasks (k_sched k)))%nat)) as [[? _]|_]; done.
    + intros Ha. rewrite Hdt by done. by apply Hj2.
Qed.

Lemma cleanup_sched (k k' : Kernel) (slot : nat) (name : list Z) own :
  cleanup_partial_spawn k slot name own = Done k' -> k_sched k' = release_task_slot (k_sched k) slot /\
  forall j, j <> slot -> data_at (k_tasks k') j = data_at (k_tasks k) j.
Proof.
  unfold cleanup_partial_spawn. intros H.
  set (t1 := (take_task_hw_bdf (k_tasks k) slot).1) in *.
  assert (sched t1 = k_sched k /\ forall j, j <> slot -> data_at t1 j = data_at (k_tasks k) j) as [Hs1 Hd1].
  { unfold t1, take_task_hw_bdf. destruct (slot <? MAX_TASKS)%nat; [|done]. split; [done|].
    intros j Hj. unfold data_at. cbn. by rewrite list_lookup_alter_ne. }
  cbn [k_tasks with_tasks] in H. destruct (take_task_reply_endpoint t1 slot) as [t reply] eqn:Et.
  assert (sched t = sched t1 /\ forall j, j <> slot -> data_at t j = data_at t1 j) as [Hs2 Hd2].
  { unfold take_task_reply_endpoint in Et. destruct (MAX_TASKS <=? slot)%nat; injection Et as <- _; [done|]. split; [done|].
    intros j Hj. unfold data_at. cbn. by rewrite list_lookup_alter_ne. }
  apply bind_Done in H as (k2 & H2 & H). apply bind_Done in H as (k3 & H3 & H). injection H as <-.
  assert (k_tasks k2 = t) as Ht2.
  { destruct reply; [|by injection H2 as <-]. apply bind_Done in H2 as ([r w] & _ & H2).
    by apply bind_Done in H2 as (R & _ & [= <-]). }
  assert (k_tasks k3 = t) as Ht3.
  { destruct own; [|by injection H3 as <-]. apply bind_Done in H3 as ([r w] & _ & H3).
    by apply bind_Done in H3 as (R & _ & [= <-]). }
  unfold k_sched in *. cbn [k_tasks with_tasks sched with_sched]. rewrite Ht3, Hs2, Hs1. split; [done|].
  intros j Hj. rewrite <- Hd1, <- Hd2 by done. done.
Qed.

Lemma filling_unwind {A} (k0 : Kernel) (slot : nat) Al (name : list Z) own e (Q : A -> Kernel -> Prop) :
  triple (filling k0 slot Al) (unwind slot name own e) Q (quiet k0).
Proof.
  eapply (triple_bind _ _ (fun _ => quiet k0)); [|intros; by apply triple_fail].
  apply triple_outcome. intros k k' a Hk (k1 & Hc & [= <- <-])%bind_Done.
  destruct (cleanup_sched _ _ _ _ _ Hc). by apply (release_quiet k0 k k1 slot); [eapply filling_quiet|apply Hk|..].
Qed.

Lemma filling_or_unwind (k0 : Kernel) (slot : nat) Al (name : list Z) own r :
  triple (filling k0 slot Al) (or_unwind slot name own r) (fun _ => filling k0 slot Al) (quiet k0).
Proof. destruct r; [apply filling_unwind|apply triple_skip]. Qed.

Lemma insert_elem (t t' : list (option Capability)) (c : Capability) r :
  CapTable.insert t c = (t', r) -> forall x, Some x ∈ t' -> x = c \/ Some x ∈ t.
Proof.
  unfold CapTable.insert. destruct (position _ t) as [n|]; intros [= <- <-] x Hx; [|by right].
  apply list_elem_of_lookup in Hx as [j Hj]. destruct (decide (n = j)) as [->|Hne].
  - rewrite list_lookup_insert in Hj. case_match; [left; by injection Hj|right; by eapply list_elem_of_lookup_2].
  - rewrite list_lookup_insert_ne in Hj by done. right. by eapply list_elem_of_lookup_2.
Qed.

Lemma filling_slot_insert (k0 : Kernel) (slot : nat) (Al : Capability -> Prop) (cap : Capability) :
  Al cap -> triple (filling k0 slot Al) (slot_insert slot cap) (fun _ => filling k0 slot Al) (quiet k0).
Proof.
  intros Ha k k' r [[Ho1 Ho2 Ho3] Hdd Hnn Hh] H. unfold slot_insert in H. destruct (CapTable.insert _ _) as [caps i] eqn:Ei.
  injection H as <- <-. split; [split|..]; try done.
  - intros j Hj. rewrite <- (Ho2 j Hj). unfold data_at. cbn. by rewrite list_lookup_alter_ne.
  - intros c Hc. unfold data_at in Hc. cbn in Hc. rewrite list_lookup_alter_eq in Hc.
    specialize (Hh c). unfold data_at in Ei, Hh. destruct (data (k_tasks k) !! slot) as [d|]; cbn in *; [|by apply Hh].
    destruct (insert_elem _ _ _ _ Ei c Hc) as [->|Hin]; [done|by apply Hh].
Qed.

Lemma triple_minted (P : Kernel -> Prop) (id : ResourceId) (r : Rights) {A} (f : Capability -> M A)
    (Q : A -> Kernel -> Prop) E :
  (forall c, resource_id c = id -> rights c = r -> triple P (f c) Q E) -> triple P (M_bind (mint id r) f) Q E.
Proof.
  intros Hf k k' x Hk H. unfold M_bind, mint in H. destruct (mint_cap (k_registry k) id r) as [c|] eqn:Ec; [|done].
  unfold mint_cap in Ec. destruct (GlobalResourceTable.get_record _ _); [|done]. injection Ec as <-.
  cbn in H. by eapply Hf in H.
Qed.

(** A capability with these contents is an allowed one. *)
Definition may (Al : Capability -> Prop) (id : ResourceId) (r : Rights) : Prop :=
  forall c, resource_id c = id -> rights c = r -> Al c.

Section Filling.
Context (k0 : Kernel) (slot : nat) (Al : Capability -> Prop).

Lemma filling_grant (name : list Z) own id r :
  may Al id r -> triple (filling k0 slot Al) (grant slot name own id r) (fun _ => filling k0 slot Al) (quiet k0).
Proof.
  intros Hm. apply triple_minted. intros c H1 H2. eapply triple_bind; [by apply filling_slot_insert, Hm|intros [i|e]].
  - apply triple_skip.
  - apply filling_unwind.
Qed.

Lemma filling_grant_if (b : bool) (name : list Z) own id r :
  (b = true -> may Al id r) ->
  triple (filling k0 slot Al) (grant_if b slot name own id r) (fun _ => filling k0 slot Al) (quiet k0).
Proof.
  intros Hm. destruct b; [|apply triple_skip]. eapply triple_bind; [by apply filling_grant, Hm|intros i]. apply triple_skip.
Qed.

Lemma filling_grant_all (name : list Z) own l :
  (forall id r, (id, r) ∈ l -> may Al id r) ->
  triple (filling k0 slot Al) (grant_all slot name own l) (fun _ => filling k0 slot Al) (quiet k0).
Proof.
  induction l as [|[id r] l IH]; intros Hm; [apply triple_skip|].
  eapply triple_bind; [apply filling_grant, Hm; by left|intros i]. apply IH. intros. apply Hm. by right.
Qed.

Lemma filling_try_grant id r :
  may Al id r -> triple (filling k0 slot Al) (try_grant slot id r) (fun _ => filling k0 slot Al) (quiet k0).
Proof.
  intros Hm. apply triple_minted. intros c H1 H2. eapply triple_bind; [by apply filling_slot_insert, Hm|intros i].
  apply triple_skip.
Qed.

Lemma filling_log :
  may Al LOG_WRITE_RESOURCE Rights.WRITE ->
  triple (filling k0 slot Al) (spawn_log slot) (fun _ => filling k0 slot Al) (quiet k0).
Proof.
  intros Hm. apply triple_minted. intros c H1 H2. eapply triple_bind; [by apply filling_slot_insert, Hm|intros [i|e]].
  - apply triple_skip.
  - eapply (triple_bind _ _ (fun _ => quiet k0)); [|intros; by apply triple_fail]. apply triple_modify. intros k Hk.
    by apply (release_quiet k0 k _ slot); [eapply filling_quiet|apply Hk|..].
Qed.

Lemma filling_fresh_id : triple (filling k0 slot Al) fresh_id (fun _ => filling k0 slot Al) (quiet k0).
Proof. apply triple_filling_tasks. intros k k' a ([ids x] & _ & [= <- <-])%bind_Done. done. Qed.

Lemma filling_fresh_generation : triple (filling k0 slot Al) fresh_generation (fun _ => filling k0 slot Al) (quiet k0).
Proof.
  apply triple_filling_tasks. intros k k' a H. destruct (Generation.next_generation _) as [n g].
  by apply bind_Done in H as (x & _ & [= <- <-]).
Qed.

Lemma filling_register_at_gen id g :
  triple (filling k0 slot Al) (register_at_gen id g) (fun _ => filling k0 slot Al) (quiet k0).
Proof. apply triple_filling_tasks. by intros k k' a (R & _ & [= <- <-])%bind_Done. Qed.

Lemma filling_routing {A B} (f : RoutingState -> RoutingState * B) (g : B -> A) :
  triple (filling k0 slot Al) (M_outcome (E := SpawnError) (fun k => let (r, a) := f (k_routing k) in Done (with_routing k r, g a)))
    (fun _ => filling k0 slot Al) (quiet k0).
Proof. apply triple_filling_tasks. intros k k' a H. destruct (f (k_routing k)). by injection H as <- <-. Qed.

Lemma filling_modify (f : Kernel -> Kernel) :
  (forall k, filling k0 slot Al k -> filling k0 slot Al (f k)) ->
  triple (filling k0 slot Al) (M_modify (E := SpawnError) f) (fun _ => filling k0 slot Al) (quiet k0).
Proof. intros H. by apply triple_modify. Qed.

Lemma filling_wire_installs l wired :
  (forall label c, (label, c) ∈ l -> Al c) ->
  triple (filling k0 slot Al) (wire_installs slot l wired) (fun _ => filling k0 slot Al) (quiet k0).
Proof.
  revert wired. induction l as [|[label cap] l IH]; intros wired Hl; [apply triple_skip|]. cbn [wire_installs].
  case_match; [apply triple_skip|]. eapply triple_bind; [apply filling_slot_insert, (Hl label); by left|intros r].
  apply IH. intros lb c Hc. apply (Hl lb). by right.
Qed.

Lemma filling_wire_peers (rq : SpawnRequest) (n : list NameEntry) l wired :
  (forall peer ep, peer ∈ l -> lookup_name n peer = Some ep ->
     may Al ep (if rq_peers_grant rq then SEND_GRANT else Rights.SEND)) ->
  triple (fun k => filling k0 slot Al k /\ k_names k = n) (wire_peers slot rq l wired)
    (fun _ k => filling k0 slot Al k /\ k_names k = n) (quiet k0).
Proof.
  revert wired. induction l as [|peer l IH]; intros wired Hl; [apply triple_skip|]. cbn [wire_peers].
  assert (forall p ep, p ∈ l -> lookup_name n p = Some ep -> may Al ep (if rq_peers_grant rq then SEND_GRANT else Rights.SEND))
    as Hl' by (intros p ep Hp; apply Hl; by right).
  destruct (MAX_SEND_PEERS <=? length wired)%nat; [apply triple_skip|]. destruct (provided _ peer); [by apply IH|].
  eapply (triple_bind _ _ (fun o k => (filling k0 slot Al k /\ k_names k = n) /\ lookup_name n peer = o)).
  { apply triple_gets. by intros k [Hk ->]. }
  intros [ep|]; [|eapply triple_pre; [|by apply IH]; by intros k [? _]].
  intros k k' r [Hk Hep]. revert k k' r Hk. apply triple_minted. intros c H1 H2.
  eapply (triple_bind _ _ (fun _ k => filling k0 slot Al k /\ k_names k = n)); [|intros i; by apply IH].
  intros k k' r [Hk Hn] Hi. pose proof (filling_slot_insert k0 slot Al c (Hl peer ep ltac:(by left) Hep c H1 H2) k k' r Hk Hi).
  unfold slot_insert in Hi. destruct (CapTable.insert _ _). injection Hi as <- <-. done.
Qed.

End Filling.

(** *** The whole spawn *)

Definition nobody (name : list Z) : option Z := None.

Definition full (k0 : Kernel) (rq : SpawnRequest) (slot : nat) (own : option Z) (rep : Z) (loose : list Z)
    (named : list Z -> option Z) (k : Kernel) : Prop :=
  spawning (rq_name rq) slot own rep loose k /\ filling k0 slot (endowed rq own rep named) k.

Lemma may_asked (rq : SpawnRequest) own rep named id r : (id, r) ∈ asked rq -> may (endowed rq own rep named) id r.
Proof. intros H c <- <-. by left. Qed.

Lemma may_mailbox (rq : SpawnRequest) own rep named id r :
  id ∈ held own rep -> r ∈ [Rights.RECV; SEND_GRANT] -> may (endowed rq own rep named) id r.
Proof. intros H Hr c <- <-. right. by left. Qed.

Lemma endowed_held (rq : SpawnRequest) own rep own' rep' named named' c :
  (forall e, e ∈ held own rep -> e ∈ held own' rep') ->
  (forall peer e, named peer = Some e -> named' peer = Some e) ->
  endowed rq own rep named c -> endowed rq own' rep' named' c.
Proof.
  intros Hh Hn [?|[[??]|[?|(p & ? & ? & ?)]]]; [by left|right; left; auto|by right; right; left|].
  right; right; right. exists p. auto.
Qed.

Lemma full_unwind {A} (k0 : Kernel) (name : list Z) (slot : nat) own rep loose Al e (Q : A -> Kernel -> Prop) :
  triple (fun k => spawning name slot own rep loose k /\ filling k0 slot Al k) (unwind slot name own e) Q (undone k0).
Proof.
  apply (triple_post _ _ _ (fun a k => Q a k /\ Q a k)); [by intros a k [? _]|].
  apply triple_and; [apply triple_unwind|apply filling_unwind].
Qed.

Section Whole.
Context (k0 : Kernel) (rq : SpawnRequest) (slot : nat).

Lemma full_reply own :
  triple (full k0 rq slot own 0 [] nobody) (spawn_reply slot rq)
    (fun _ k => exists rep, full k0 rq slot own rep [] nobody k) (undone k0).
Proof.
  eapply triple_bind; [apply triple_and; [apply triple_fresh_id|apply filling_fresh_id]|intros rep].
  eapply triple_bind; [apply triple_and; [apply triple_fresh_generation|apply filling_fresh_generation]|intros g].
  eapply triple_bind; [apply triple_and; [apply triple_register_at_gen; apply elem_of_app; right; by left
                                         |apply filling_register_at_gen]|intros []].
  eapply triple_bind; [apply triple_and|intros granted].
  { apply (triple_routing _ _ _ _ _ _ (fun r => try_register_optional r rep (Z.of_nat (rq_core rq)) g
      (rq_watched rq || bool_decide (rq_name rq = SUPERVISOR)))). intros. by apply try_register_optional_wf. }
  { apply (filling_routing _ _ _ (fun r => try_register_optional r rep (Z.of_nat (rq_core rq)) g
      (rq_watched rq || bool_decide (rq_name rq = SUPERVISOR)))). }
  destruct granted.
  - eapply (triple_bind _ _ (fun _ k => full k0 rq slot own rep [] nobody k /\ rep ∈ held own rep)).
    { apply triple_modify. intros k [Hk Hf]. pose proof (spawning_own_pos _ _ _ _ _ _ rep Hk) as Hr.
      rewrite elem_of_app, elem_of_cons in Hr. assert (rep <> 0) as Hz by (intuition lia).
      unfold set_task_reply_endpoint. rewrite (proj2 (Nat.ltb_lt _ _) (sp_slot _ _ _ _ _ _ Hk)). split; [split|].
      - eapply spawning_reply; [|exact Hk]. cbn [ep_to_u64].
        rewrite (filter_cons_False _ 0) by lia. by rewrite (filter_cons_True _ rep).
      - eapply filling_weaken; [|by apply filling_data]. intros c. apply endowed_held; [|done].
        intros e. unfold held. rewrite !elem_of_app, (filter_cons_False _ 0), filter_nil by lia. set_solver.
      - unfold held. rewrite (filter_cons_True _ rep) by done. apply elem_of_app. right. by left. }
    intros []. apply triple_exists_post. exists rep. intros k k' r [Hk Hin]. revert k k' r Hk.
    eapply triple_bind; [apply triple_and; [apply triple_try_grant|apply filling_try_grant, may_mailbox; [done|by left]]
                        |intros [rr|]]; [|apply triple_skip].
    eapply triple_bind; [apply triple_and; [apply triple_try_grant|apply filling_try_grant, may_mailbox; [done|by right; left]]
                        |intros rg]. apply triple_skip.
  - eapply (triple_bind _ _ (fun _ => full k0 rq slot own 0 [] nobody)).
    + apply triple_modify. intros k [[Hb Hv Hs Hval Hd Hrep [lk Hi] Ho] Hf]. split; [|by apply (filling_tasks _ _ _ k)].
      split; try done; [by destruct Hb|].
      exists lk. apply free_endpoint_id_wf. cbn [k_tasks with_ids]. eapply ids_wf_perm; [|done].
      rewrite <- (app_comm_cons [] lk rep). by rewrite <- !Permutation_middle.
    + intros []. apply triple_exists_post. exists 0. apply triple_skip.
Qed.

Lemma full_endpoints :
  triple (full k0 rq slot None 0 [] nobody) (spawn_endpoints slot rq)
    (fun eps k => exists rep, full k0 rq slot eps.1 rep [] nobody k) (undone k0).
Proof.
  unfold spawn_endpoints. destruct (rq_recv rq).
  2: { intros k k' r Hk [= <- <-]. by exists 0. }
  eapply triple_bind; [apply triple_and; [apply triple_fresh_id|apply filling_fresh_id]|intros ep].
  eapply triple_bind; [apply triple_and; [apply triple_fresh_generation|apply filling_fresh_generation]|intros g].
  eapply triple_bind; [apply triple_and; [apply triple_register_at_gen; apply elem_of_app; right; by left
                                         |apply filling_register_at_gen]|intros []].
  eapply triple_bind; [apply triple_and|intros ok].
  { apply (triple_routing _ _ _ _ _ _ (fun r => try_register r ep (Z.of_nat (rq_core rq)) g) (fun ok => ok)).
    intros. by apply try_register_wf. }
  { apply (filling_routing _ _ _ (fun r => try_register r ep (Z.of_nat (rq_core rq)) g) (fun ok => ok)). }
  destruct ok; cbn [negb].
  2: { apply full_unwind. }
  eapply (triple_bind _ _ (fun _ => full k0 rq slot (Some ep) 0 [] nobody)).
  { apply triple_modify. intros k [Hk Hf]. split; [by apply spawning_own|].
    eapply filling_weaken; [|by apply (filling_tasks _ _ _ k)]. intros c. apply endowed_held; [|done].
    intros e He. right. done. }
  assert (ep ∈ held (Some ep) 0) as Hin by by left.
  intros []. eapply triple_bind; [apply triple_and; [apply triple_grant|apply filling_grant, may_mailbox; [done|by left]]
                                 |intros recv].
  eapply triple_bind; [apply triple_and; [apply triple_try_grant|apply filling_try_grant, may_mailbox; [done|by right; left]]
                      |intros self_grant].
  eapply triple_bind; [apply full_reply|intros reply].
  apply triple_exists. intros rep. eapply (triple_bind _ _ (fun _ => full k0 rq slot (Some ep) rep [] nobody)).
  - apply triple_modify. intros k [Hk Hf]. split; [|by apply (filling_tasks _ _ _ k)].
    eapply same_owners_spawning; [apply same_owners_irqs, Hk|done].
  - intros []. intros k k' r Hk [= <- <-]. by exists rep.
Qed.

(** The spawn in [k0] of the task now in [slot]. *)
Record spawned (own : option Z) (k : Kernel) : Prop := mk_spawned {
  sd_wf : kernel_wf k;
  sd_fresh : t_valid (task_at (k_sched k0) slot) = false;
  sd_alive : alive (k_sched k) slot = true;
  sd_endpoint : d_endpoint (data_at (k_tasks k) slot) = ep_to_u64 own;
  sd_own : own <> Some 0;
  sd_others : others k0 slot k;
  sd_holds : holds_only (endowed rq own (d_reply_endpoint (data_at (k_tasks k) slot)) (lookup_name (k_names k))) slot k
}.

Lemma full_commit own rep elf_bytes kstack (k : Kernel) :
  utf8_valid (rq_name rq) = true -> t_valid (task_at (k_sched k0) slot) = false ->
  full k0 rq slot own rep [] (lookup_name (k_names k)) k ->
  spawned own (spawn_commit rq slot own elf_bytes kstack k).
Proof.
  intros Hu Ha0 [Hk [[Ho1 Ho2 Ho3] Hdd Hnn Hh]].
  destruct (commit_stores rq slot own elf_bytes kstack k (sp_base _ _ _ _ _ _ Hk) (sp_slot _ _ _ _ _ _ Hk))
    as (Hb' & Hn & Hid & Ht & Hdj & He & Hr & Hc & Hrows).
  split.
  - by eapply commit_wf.
  - done.
  - unfold alive. rewrite Ht, decide_True by done. cbn [t_valid t_state set_state].
    by rewrite (sp_valid _ _ _ _ _ _ Hk), (proj2 (Nat.ltb_lt _ _) (sp_slot _ _ _ _ _ _ Hk)).
  - done.
  - intros ->. pose proof (spawning_own_pos _ _ _ _ _ _ 0 Hk ltac:(by left)). lia.
  - split; [intros j Hj; rewrite Ht, decide_False by done; auto|intros j Hj; rewrite Hdj by done; auto|].
    intros c. rewrite <- Ho3. unfold spawn_commit, set_task_memory_budget, set_task_watched, set_task_hw_kind.
    by repeat case_match.
  - intros c. rewrite Hc, Hr, Hn, (sp_reply _ _ _ _ _ _ Hk). apply Hh.
Qed.

End Whole.

Lemma reserve_filling (rq : SpawnRequest) (k0 : Kernel) :
  base_wf k0 ->
  triple (eq k0) (reserve rq) (fun slot k => t_valid (task_at (k_sched k0) slot) = false /\ others k0 slot k) (quiet k0).
Proof.
  intros [[Hl Hd _ _] _ _ _ _] k k' r <- H. unfold reserve, reserve_slot, reserve_task_slot in H.
  destruct (position _ _) as [i|] eqn:Ep; injection H as <- <-; [|done].
  destruct (position_hit _ _ _ Ep) as (t & Ht & Hval%negb_true_iff). split; [|split].
  - unfold task_at, k_sched. by rewrite Ht.
  - intros j Hj. unfold k_sched. cbn [k_tasks with_tasks sched with_sched upd_data].
    rewrite task_at_upd, decide_False; [done|]. by intros [-> _].
  - intros j Hj. unfold data_at. cbn. by rewrite list_lookup_alter_ne.
  - done.
Qed.

Ltac asked_in :=
  unfold asked; rewrite ?elem_of_cons, ?elem_of_app;
  repeat match goal with H : ?b = true |- _ => rewrite H; clear H end; set_solver.

Section Steps.
Context (k0 : Kernel) (rq : SpawnRequest) (slot : nat) (own : option Z) (rep : Z).
Notation now n := (full k0 rq slot own rep [] n).

Lemma full_grant_if (b : bool) id r n :
  (b = true -> (id, r) ∈ asked rq) ->
  triple (now n) (grant_if b slot (rq_name rq) own id r) (fun _ => now n) (undone k0).
Proof.
  intros H. apply triple_and; [apply triple_grant_if|]. apply filling_grant_if. intros Hb. by apply may_asked, H.
Qed.

Lemma full_grant_all l n :
  (forall x, x ∈ l -> x ∈ asked rq) ->
  triple (now n) (grant_all slot (rq_name rq) own l) (fun _ => now n) (undone k0).
Proof.
  intros H. apply triple_and; [apply triple_grant_all|]. apply filling_grant_all. intros id r Hin. by apply may_asked, H.
Qed.

Lemma full_installs wired :
  triple (now nobody) (wire_installs slot (default [] (rq_installs rq)) wired) (fun _ => now nobody) (undone k0).
Proof.
  apply triple_and; [apply triple_wire_installs|]. apply filling_wire_installs.
  intros label c Hc. right; right; left. by exists label.
Qed.

Lemma full_peers wired :
  triple (now nobody) (wire_peers slot rq (rq_peers rq) wired) (fun _ k => now (lookup_name (k_names k)) k) (undone k0).
Proof.
  intros k k' r [Hk Hf] H. pose proof (triple_wire_peers _ _ rq own rep (rq_peers rq) wired k k' r Hk H) as Hs.
  eapply (filling_wire_peers k0 slot (endowed rq own rep (lookup_name (k_names k))) rq (k_names k)) in H.
  - destruct r; [|done]. destruct H as [H Hn]. split; [done|]. by rewrite Hn.
  - intros peer ep Hp Hl c <- Hr. right; right; right. by exists peer.
  - split; [|done]. eapply filling_weaken; [|exact Hf]. intros c. by apply endowed_held.
Qed.

Lemma full_modify (f : Kernel -> Kernel) :
  (forall k, base_wf k -> (slot < MAX_TASKS)%nat -> same_owners k (f k)) -> (forall k, k_names (f k) = k_names k) ->
  (forall Al k, filling k0 slot Al k -> filling k0 slot Al (f k)) ->
  triple (fun k => now (lookup_name (k_names k)) k) (M_modify (E := SpawnError) f) (fun _ k => now (lookup_name (k_names k)) k) (undone k0).
Proof.
  intros Hs Hn Hf. apply triple_modify. intros k [Hk Hfk]. split.
  - eapply same_owners_spawning; [apply Hs; apply Hk|done].
  - rewrite Hn. by apply Hf.
Qed.

Lemma full_unwind_names {A} (e : SpawnError) (Q : A -> Kernel -> Prop) :
  triple (fun k => now (lookup_name (k_names k)) k) (unwind slot (rq_name rq) own e) Q (undone k0).
Proof.
  intros k k' r Hk H. exact (full_unwind k0 _ slot own rep [] (endowed rq own rep (lookup_name (k_names k))) e Q k k' r Hk H).
Qed.

Lemma full_or_unwind (e : option SpawnError) :
  triple (fun k => now (lookup_name (k_names k)) k) (or_unwind slot (rq_name rq) own e)
    (fun _ k => now (lookup_name (k_names k)) k) (undone k0).
Proof.
  destruct e; [apply full_unwind_names|apply triple_skip].
Qed.

End Steps.

Lemma filling_peers (k0 : Kernel) (slot : nat) Al peers (k : Kernel) :
  filling k0 slot Al k -> filling k0 slot Al (with_tasks k (set_task_peers (k_tasks k) slot peers)).
Proof.
  intros [[H1 H2 H4] Hdd Hnn H3]. unfold set_task_peers. destruct (MAX_TASKS <=? slot)%nat; split; try done; by split.
Qed.

Lemma filling_bus_master (k0 : Kernel) (slot : nat) Al bdf (k : Kernel) :
  filling k0 slot Al k -> filling k0 slot Al (set_bus_master bdf slot k).
Proof.
  intros Hk. destruct bdf as [b|]; [|done]. unfold set_bus_master, set_task_hw_bdf.
  destruct (slot <? MAX_TASKS)%nat.
  - apply (filling_data _ _ _ k (fun d => set_device b (d_watched d) (d_hw_kind d) d)) in Hk; [|done].
    by eapply filling_tasks; [|exact Hk].
  - by apply (filling_tasks _ _ _ k).
Qed.

Lemma spawn_into_spec (k0 : Kernel) (rq : SpawnRequest) (an : Answers) (elf_bytes : Z) (slot : nat) :
  utf8_valid (rq_name rq) = true -> t_valid (task_at (k_sched k0) slot) = false ->
  triple (fun k => spawning (rq_name rq) slot None 0 [] k /\ others k0 slot k) (spawn_into rq an elf_bytes slot)
    (fun r => spawned k0 rq slot r.1) (undone k0).
Proof.
  intros Hu Ha. unfold spawn_into.
  eapply (triple_bind _ _ (fun _ => full k0 rq slot None 0 [] nobody)); [|intros []].
  { apply triple_modify. intros k [Hk [Ho1 Ho2 Ho3]]. split.
    - eapply same_owners_spawning; [apply same_owners_data; [apply Hk|done]|done].
    - pose proof (tw_data _ (bw_tasks _ (sp_base _ _ _ _ _ _ Hk))) as Hl. pose proof (sp_slot _ _ _ _ _ _ Hk) as Hs.
      split; [split; [done| |done]|..].
      2: { exact (spawning_not_alive _ _ _ _ _ _ Hk). }
      2: { unfold alive. rewrite Ha. by rewrite andb_false_r. }
      + intros j Hj. rewrite <- (Ho2 j Hj). unfold data_at. cbn. by rewrite list_lookup_alter_ne.
      + intros c. cbn [k_tasks with_tasks]. unfold task_cap_init_empty. rewrite data_at_upd, decide_True by (done || lia).
        cbn [d_caps set_caps]. unfold CapTable.empty. by intros [? _]%elem_of_replicate. }
  eapply triple_bind; [apply triple_and; [apply triple_spawn_log|apply filling_log, may_asked; by left]|intros []].
  eapply triple_bind; [apply full_grant_if; intros Hp; asked_in|intros spawn_slot].
  eapply triple_bind; [apply full_endpoints|intros [own slots]]. cbn [fst]. apply triple_exists. intros rep.
  eapply triple_bind; [apply full_grant_if; intros Hp; asked_in|intros console_read].
  eapply triple_bind; [apply full_grant_if; intros Hp; asked_in|intros console_push].
  eapply triple_bind; [apply full_grant_all; intros x Hx; asked_in|intros []].
  eapply triple_bind; [apply full_installs|intros wired].
  eapply triple_bind; [apply full_peers|intros wired'].
  destruct (an_device an) as [bdf|e].
  2: { apply full_unwind_names. }
  eapply triple_bind; [apply full_modify|intros []].
  { intros. by apply same_owners_bus_master. } { by destruct bdf. } { intros. by apply filling_bus_master. }
  eapply triple_bind; [apply full_or_unwind|intros []].
  eapply triple_bind; [apply full_modify|intros []].
  { intros. by apply same_owners_peers. } { done. } { intros. by apply filling_peers. }
  eapply triple_bind; [apply full_or_unwind|intros []].
  destruct (an_kstack an) as [kstack|].
  2: { apply full_unwind_names. }
  eapply (triple_bind _ _ (fun _ => spawned k0 rq slot own)); [|by intros [] k k' r Hk [= <- <-]].
  apply triple_modify. intros k Hk. by eapply full_commit.
Qed.

(** A failed spawn keeps the kernel's invariant; a successful one also gives
    the new task nothing but what it is [endowed] with. *)
Lemma spawn_spec (rq : SpawnRequest) (an : Answers) (k0 : Kernel) :
  utf8_valid (rq_name rq) = true -> kernel_wf k0 ->
  triple (eq k0) (spawn_service_with_image rq an) (fun r k => exists slot, spawned k0 rq slot r.1 k) (undone k0).
Proof.
  intros Hu Hwf. unfold spawn_service_with_image. destruct (an_load an) as [elf_bytes|e].
  2: { apply triple_fail. by intros k <-. }
  eapply triple_bind; [eapply triple_pre; [|apply triple_and; [apply (reserve_spawning rq (rq_name rq))
                                                              |apply (reserve_filling rq k0); apply Hwf]]|intros slot].
  { by intros k <-. }
  intros k1 k' r [Hk1 [Ha Ho]] H.
  pose proof (spawn_into_spec k0 rq an elf_bytes slot Hu Ha k1 k' r (conj Hk1 Ho) H). destruct r; [by exists slot|done].
Qed.

End SpawnFacts.
