(* ===== verification/SpawnImage.v ===== *)
(** * Spawning from a caller's image

    [handle_spawn_image] of [kernel/src/syscall/dispatch.rs] with
    [spawn_from_image], [resolve_spawn_core] and the device classes of
    [kernel/src/task/mod.rs], and the other side of the interface in
    [sdk/rust/src/service_context.rs]: the request's layout, [set_installs] and
    the peer list of [spawn_image]. *)

From S2P Require Import Prelude Prog Capability CapTable Delegated Queue Routing Names Sched TaskData Interrupt Kernel Abi.
From S2P Require Import PageTables Loader Spawn.

(** ** Device classes *)

Module kind.
Definition NIC : Z := 2.
Definition XHCI : Z := 3.
Definition EHCI : Z := 4.
Definition DWC2 : Z := 5.
Definition FRAMEBUFFER : Z := 6.
Definition TEST_IRQ : Z := 7.
Definition AUDIO_PWM : Z := 8.
Definition WIFI_SDIO : Z := 9.
End kind.

Module HwClass.

Inductive t :=
| None
| Dwc2
| AudioPwm
| WifiSdio
| Framebuffer
| TestIrq
| Pci (class_code bar_ix dma_pages : Z) (confine : bool) (bdf : Z)
| Nic
| Xhci
| Ehci.

Definition fixed_kind (c : t) : option Z :=
  match c with
  | Dwc2 => Some kind.DWC2
  | Nic => Some kind.NIC
  | AudioPwm => Some kind.AUDIO_PWM
  | WifiSdio => Some kind.WIFI_SDIO
  | _ => Datatypes.None
  end.

Definition kind_code (c : t) : Z :=
  match c with
  | Nic => kind.NIC
  | Xhci => kind.XHCI
  | Ehci => kind.EHCI
  | Dwc2 => kind.DWC2
  | Framebuffer => kind.FRAMEBUFFER
  | TestIrq => kind.TEST_IRQ
  | AudioPwm => kind.AUDIO_PWM
  | WifiSdio => kind.WIFI_SDIO
  | Pci _ _ _ _ _ | None => 0
  end.

End HwClass.

Definition HW_PCI_FLAG : Z := 2147483648.
Definition HW_PCI_CONFINE : Z := 268435456.
Definition HW_PCI_IRQ : Z := 536870912.

Definition hw_class_is_pci (class : Z) : bool := asks class HW_PCI_FLAG.

Definition hw_pci_of (class dma_pages bdf : Z) : HwClass.t :=
  HwClass.Pci (Z.land class 16777215) (Z.land (Z.shiftr class 24) 7) dma_pages (asks class HW_PCI_CONFINE) bdf.

Definition hw_class_of (class : Z) : HwClass.t :=
  if hw_class_is_pci class then hw_pci_of class 0 0
  else if class =? kind.NIC then HwClass.Nic
  else if class =? kind.XHCI then HwClass.Xhci
  else if class =? kind.EHCI then HwClass.Ehci
  else if class =? kind.DWC2 then HwClass.Dwc2
  else if class =? kind.FRAMEBUFFER then HwClass.Framebuffer
  else if class =? kind.TEST_IRQ then HwClass.TestIrq
  else if class =? kind.AUDIO_PWM then HwClass.AudioPwm
  else if class =? kind.WIFI_SDIO then HwClass.WifiSdio
  else HwClass.None.

Definition hw_class_known (class : Z) : bool :=
  hw_class_is_pci class || (class =? 0) || match hw_class_of class with HwClass.None => false | _ => true end.

Definition XHCI_MSI_VECTOR : nat := 40.
Definition EHCI_MSI_VECTOR : nat := 41.

(** On x86_64 the DWC2 and the SoC network controller have no vectors. *)
Definition hw_irqs_for (c : HwClass.t) : list nat :=
  match c with
  | HwClass.Xhci => [XHCI_MSI_VECTOR]
  | HwClass.Ehci => [EHCI_MSI_VECTOR]
  | HwClass.TestIrq => [33%nat]
  | _ => []
  end.

(** ** Placement *)

(** What the machine answers besides [Answers]: the cores, the round-robin
    counter, the vector of a PCI function and the power control of a kind. *)
Record Machine := mkMachine {
  mc_ready : nat -> bool;
  mc_ready_count : nat;
  mc_rr : Z;
  mc_msi : HwClass.t -> nat -> nat;
  mc_power : Z -> bool
}.

Definition resolve_spawn_core (mc : Machine) (core_override : option nat) (preferred : option nat)
    : result nat SpawnError :=
  match core_override, preferred with
  | Some n, _ => if mc_ready mc n then Ok n else Err PlacementInvalid
  | None, None =>
      Ok (if (mc_ready_count mc =? 0)%nat then 0%nat else Z.to_nat (mc_rr mc mod Z.of_nat (mc_ready_count mc)))
  | None, Some p =>
      if mc_ready mc p then Ok p
      else Ok (Z.to_nat (mc_rr mc mod Z.max (Z.of_nat (mc_ready_count mc)) 1))
  end.

(** ** A request, checked *)

Record ImageRequest := mkImageRequest {
  ir_name : list Z;
  ir_override : option nat;
  ir_preferred : option nat;
  ir_limit : Z;
  ir_recv : bool;
  ir_console : bool;
  ir_peers : list (list Z);
  ir_installs : option (list (list Z * Capability));
  ir_privileges : Z;
  ir_class : Z;
  ir_dma_pages : Z;
  ir_bdf : Z;
  ir_peers_grant : bool;
  ir_watched : bool;
  ir_handover : bool
}.

(** [service_config]: the catalogue is the supervisor. *)
Definition in_catalogue (name : list Z) : bool := bool_decide (name = SUPERVISOR).

Definition name_free (t : Tasks) (name : list Z) (handover : bool) : bool :=
  match find_task_by_name t name with
  | None => true
  | Some first => handover && negb (bool_decide (is_Some (find_task_by_name_excluding t name (Some first))))
  end.

Definition image_class (r : ImageRequest) : HwClass.t :=
  if hw_class_is_pci (ir_class r) then hw_pci_of (ir_class r) (ir_dma_pages r) (ir_bdf r)
  else hw_class_of (ir_class r).

Definition image_irqs (mc : Machine) (r : ImageRequest) (core : nat) : list nat :=
  let hw := image_class r in
  let pci_irq := match hw with
                 | HwClass.Pci _ _ _ _ _ => if asks (ir_class r) HW_PCI_IRQ then mc_msi mc hw core else 0%nat
                 | _ => 0%nat
                 end in
  if (pci_irq =? 0)%nat then hw_irqs_for hw else [pci_irq].

Definition DEFAULT_LIMIT : Z := 67108864.

Definition image_spawn (mc : Machine) (r : ImageRequest) (core : nat) : SpawnRequest :=
  mkRequest (ir_name r) core (ir_recv r) (ir_peers r) (ir_peers_grant r)
    (if ir_limit r =? 0 then DEFAULT_LIMIT else ir_limit r) (image_irqs mc r core) (ir_console r)
    (Some (ir_privileges r)) (ir_installs r) (ir_watched r)
    (match HwClass.fixed_kind (image_class r) with Some k => mc_power mc k | None => false end)
    (HwClass.kind_code (image_class r)).

Definition spawn_from_image (mc : Machine) (an : Answers) (r : ImageRequest) : M (option Z) :=
  if in_catalogue (ir_name r) then M_fail NotFound
  else
    free <- M_gets (fun k => name_free (k_tasks k) (ir_name r) (ir_handover r)) ;;
    if negb free then M_fail AlreadyRunning
    else
      match resolve_spawn_core mc (ir_override r) (ir_preferred r) with
      | Err e => M_fail e
      | Ok core =>
          s <- spawn_service_with_image (image_spawn mc r core) an ;;
          M_ret s.1
      end.

(** ** The wire form of a request *)

Record WireRequest := mkWire {
  wr_version : Z;
  wr_flags : Z;
  wr_image_ptr : Z;
  wr_image_len : Z;
  wr_name_ptr : Z;
  wr_name_len : Z;
  wr_core : Z;
  wr_memory_limit : Z;
  wr_privileges : Z;
  wr_hw_flags : Z;
  wr_mmio_base : Z;
  wr_mmio_len : Z;
  wr_dma_pages : Z;
  wr_bdf : Z;
  wr_irq_count : Z;
  wr_irqs : list Z;
  wr_peers_ptr : Z;
  wr_peers_len : Z;
  wr_installs_ptr : Z;
  wr_installs_count : Z;
  wr_probe_mode : Z
}.

Definition SPAWN_REQUEST_BYTES : nat := 128.
Definition SPAWN_REQUEST_VERSION : Z := 3.
Definition SPAWN_FLAG_REQ_RECV : Z := 1.
Definition SPAWN_FLAG_REQ_CONSOLE : Z := 2.
Definition SPAWN_FLAG_CORE_STRICT : Z := 4.
Definition SPAWN_FLAG_PEERS_GRANT : Z := 8.
Definition SPAWN_FLAG_WATCHED : Z := 16.
Definition SPAWN_FLAG_HANDOVER : Z := 32.

(** The library's [repr(C)] struct in memory, its three pads included. *)
Definition encode (r : WireRequest) : list Z :=
  to_le_bytes 4 (wr_version r) ++ to_le_bytes 4 (wr_flags r) ++
  to_le_bytes 8 (wr_image_ptr r) ++ to_le_bytes 8 (wr_image_len r) ++
  to_le_bytes 8 (wr_name_ptr r) ++ to_le_bytes 4 (wr_name_len r) ++ to_le_bytes 4 (wr_core r) ++
  to_le_bytes 8 (wr_memory_limit r) ++ to_le_bytes 4 (wr_privileges r) ++ to_le_bytes 4 (wr_hw_flags r) ++
  to_le_bytes 8 (wr_mmio_base r) ++ to_le_bytes 8 (wr_mmio_len r) ++
  to_le_bytes 4 (wr_dma_pages r) ++ to_le_bytes 4 (wr_bdf r) ++ to_le_bytes 4 (wr_irq_count r) ++ wr_irqs r ++
  to_le_bytes 8 (wr_peers_ptr r) ++ to_le_bytes 4 (wr_peers_len r) ++ to_le_bytes 4 0 ++
  to_le_bytes 8 (wr_installs_ptr r) ++ to_le_bytes 4 (wr_installs_count r) ++ to_le_bytes 4 0 ++
  to_le_bytes 4 (wr_probe_mode r) ++ to_le_bytes 4 0.

Definition at_le (n : nat) (b : list Z) (o : nat) : Z := from_le_bytes (take n (drop o b)).

(** [SpawnRequest::decode] *)
Definition decode (b : list Z) : WireRequest :=
  let u32_at := at_le 4 b in
  let u64_at := at_le 8 b in
  mkWire (u32_at 0%nat) (u32_at 4%nat) (u64_at 8%nat) (u64_at 16%nat) (u64_at 24%nat) (u32_at 32%nat) (u32_at 36%nat)
    (u64_at 40%nat) (u32_at 48%nat) (u32_at 52%nat) (u64_at 56%nat) (u64_at 64%nat) (u32_at 72%nat) (u32_at 76%nat)
    (u32_at 80%nat) (take 4 (drop 84 b)) (u64_at 88%nat) (u32_at 96%nat) (u64_at 104%nat) (u32_at 112%nat)
    (u32_at 120%nat).

(** The fields fit their types. *)
Definition wire_ok (r : WireRequest) : Prop :=
  (0 <= wr_version r <= u32_max /\ 0 <= wr_flags r <= u32_max /\ 0 <= wr_image_ptr r <= u64_max /\
   0 <= wr_image_len r <= u64_max /\ 0 <= wr_name_ptr r <= u64_max /\ 0 <= wr_name_len r <= u32_max /\
   0 <= wr_core r <= u32_max /\ 0 <= wr_memory_limit r <= u64_max /\ 0 <= wr_privileges r <= u32_max /\
   0 <= wr_hw_flags r <= u32_max) /\
  (0 <= wr_mmio_base r <= u64_max /\ 0 <= wr_mmio_len r <= u64_max /\ 0 <= wr_dma_pages r <= u32_max /\
   0 <= wr_bdf r <= u32_max /\ 0 <= wr_irq_count r <= u32_max /\ length (wr_irqs r) = 4%nat /\
   0 <= wr_peers_ptr r <= u64_max /\ 0 <= wr_peers_len r <= u32_max /\ 0 <= wr_installs_ptr r <= u64_max /\
   0 <= wr_installs_count r <= u32_max /\ 0 <= wr_probe_mode r <= u32_max).

(** ** Peers and installed capabilities on the wire *)

(** The library's peer list: the names, a NUL between two. *)
Fixpoint join_peers (peers : list (list Z)) : list Z :=
  match peers with
  | [] => []
  | [p] => p
  | p :: ps => p ++ 0 :: join_peers ps
  end.

(** [str::split('\0')] *)
Fixpoint split_nul (b : list Z) : list (list Z) :=
  match b with
  | [] => [[]]
  | x :: b =>
      if x =? 0 then [] :: split_nul b
      else match split_nul b with
           | [] => [[x]]
           | p :: ps => (x :: p) :: ps
           end
  end.

(** [if part.is_empty() { continue; }] *)
Definition parse_peers (b : list Z) : list (list Z) := filter (fun p => p <> []) (split_nul b).

(** The library's [set_installs]: the bytes it writes, unless it refuses. *)
Fixpoint encode_installs (cap : nat) (pairs : list (list Z * Z)) : option (list Z) :=
  match pairs with
  | [] => Some []
  | (label, slot) :: pairs =>
      if bool_decide (label = []) || (PEER_NAME_BYTES <? length label)%nat then None
      else if (cap <? 1 + length label + 2)%nat then None
      else
        rest ← encode_installs (cap - (1 + length label + 2)) pairs;
        Some (Z.of_nat (length label) :: label ++
              Z.land slot 255 :: Z.land (Z.shiftr slot 8) 255 :: rest)
  end.

(** The kernel's loop over [ni] entries of the buffer [b]; [look] is the
    caller's [current_task_lookup_cap] with GRANT. *)
Fixpoint read_installs (look : nat -> result Capability CapError) (ni : nat) (b : list Z)
    : result (list (list Z * Capability)) Z :=
  match ni with
  | O => Ok []
  | S ni =>
      match b with
      | [] => Err (-1)
      | len :: b =>
          let n := Z.to_nat len in
          if (n =? 0)%nat || (PEER_NAME_BYTES <? n)%nat || (length b <? n + 2)%nat then Err (-1)
          else
            let slot := Z.lor (default 0 (b !! n)) (Z.shiftl (default 0 (b !! S n)) 8) in
            match look (Z.to_nat slot) with
            | Err e => Err (cap_err_to_i64 e)
            | Ok held =>
                match read_installs look ni (drop (n + 2) b) with
                | Err e => Err e
                | Ok l => Ok ((take n b, held) :: l)
                end
            end
      end
  end.

(** ** [handle_spawn_image] *)

Definition SPAWN_PAYLOAD_MAX : nat := MAX_SEND_PEERS * (PEER_NAME_BYTES + 1).
Definition MAX_DMA_PAGES : Z := 2048.
Definition NAME_BUF : nat := 64.
Definition SPAWN_ALREADY_RUNNING : Z := -22.

(** The name: a slice of a [NAME_BUF]-byte array that is longer than the array
    panics. *)
Definition read_name (mem : UserMem) (r : WireRequest) : outcome (result (list Z) Z) :=
  let len := wr_name_len r in
  if (len =? 0) || (Z.of_nat PEER_NAME_BYTES <? len) then Done (Err (-1))
  else match read_user_bytes mem (wr_name_ptr r) len with
       | None => Done (Err (-1))
       | Some b => if (NAME_BUF <? length b)%nat then Panic
                   else Done (if utf8_valid b then Ok b else Err (-1))
       end.

Definition read_peers (mem : UserMem) (r : WireRequest) : result (list (list Z)) Z :=
  let len := wr_peers_len r in
  if len =? 0 then Ok []
  else if Z.of_nat SPAWN_PAYLOAD_MAX <? len then Err (-1)
  else match read_user_bytes mem (wr_peers_ptr r) len with
       | None => Err (-1)
       | Some b =>
           if negb (utf8_valid b) then Err (-1)
           else if (MAX_SEND_PEERS <? length (parse_peers b))%nat then Err (-1) else Ok (parse_peers b)
       end.

Definition read_install_caps (k : Kernel) (cid : nat) (mem : UserMem) (r : WireRequest)
    : result (option (list (list Z * Capability))) Z :=
  let ni := wr_installs_count r in
  if Z.of_nat MAX_SEND_PEERS <? ni then Err (-1)
  else if ni =? 0 then Ok None
  else match read_user_bytes mem (wr_installs_ptr r) (ni * (2 + Z.of_nat PEER_NAME_BYTES + 2)) with
       | None => Err (-1)
       | Some b =>
           match read_installs (fun slot => current_task_lookup_cap (k_registry k) (k_tasks k) cid slot Rights.GRANT)
                   (Z.to_nat ni) b with
           | Err e => Err e
           | Ok l => Ok (Some l)
           end
       end.

(** The checks on the fields alone. *)
Definition fields_ok (r : WireRequest) : bool :=
  (wr_version r =? SPAWN_REQUEST_VERSION) && (wr_irq_count r =? 0) && (wr_dma_pages r <=? MAX_DMA_PAGES) &&
  (wr_mmio_base r =? 0) && (wr_mmio_len r =? 0) && ((wr_bdf r =? 0) || hw_class_is_pci (wr_hw_flags r)) &&
  hw_class_known (wr_hw_flags r).

Definition core_of (r : WireRequest) (strict : bool) : option nat :=
  if (wr_core r =? u32_max) || negb (Bool.eqb strict (asks (wr_flags r) SPAWN_FLAG_CORE_STRICT)) then None
  else Some (Z.to_nat (wr_core r)).

(** Everything before [spawn_from_image]; fetch [i] of the caller's memory
    reads [mem i]. *)
Definition read_request (k : Kernel) (cid : nat) (mem : nat -> UserMem) (req_ptr req_len : Z)
    : outcome (result ImageRequest Z) :=
  if negb (req_len =? Z.of_nat SPAWN_REQUEST_BYTES) then Done (Err (-1))
  else match read_user_bytes (mem 0%nat) req_ptr req_len with
  | None => Done (Err (-1))
  | Some raw =>
      let r := decode raw in
      if negb (fields_ok r) then Done (Err (-1))
      else if negb (wr_privileges r =? 0) && bool_decide (is_Some (privileges_caller_lacks (k_tasks k) cid (wr_privileges r)))
      then Done (Err (-1))
      else
        name ← read_name (mem 1%nat) r;
        match name with Err e => Done (Err e) | Ok name =>
        match read_peers (mem 2%nat) r with Err e => Done (Err e) | Ok peers =>
        if (wr_image_len r =? 0) || (u32_max <? wr_image_len r) then Done (Err (-1))
        else match read_install_caps k cid (mem 3%nat) r with Err e => Done (Err e) | Ok installs =>
        Done (Ok (mkImageRequest name (core_of r true) (core_of r false) (wr_memory_limit r)
          (asks (wr_flags r) SPAWN_FLAG_REQ_RECV) (asks (wr_flags r) SPAWN_FLAG_REQ_CONSOLE) peers installs
          (wr_privileges r) (wr_hw_flags r) (wr_dma_pages r) (wr_bdf r) (asks (wr_flags r) SPAWN_FLAG_PEERS_GRANT)
          (asks (wr_flags r) SPAWN_FLAG_WATCHED) (asks (wr_flags r) SPAWN_FLAG_HANDOVER)))
        end end end
  end.

(** The capability handed back to the spawner: its slot plus one. *)
Definition return_endpoint (k : Kernel) (cid : nat) (ep : Z) : outcome (Kernel * Z) :=
  c ← mint_cap (k_registry k) ep SEND_GRANT;
  let (t, r) := current_task_insert_cap (k_tasks k) cid c in
  Done (with_tasks k t, match r with Ok slot => Z.of_nat slot + 1 | Err e => cap_err_to_i64 e end).

Definition handle_spawn_image (mc : Machine) (an : Answers) (mem : nat -> UserMem) (cid : nat)
    (req_ptr req_len : Z) (spawn_cap_slot : nat) (k : Kernel) : outcome (Kernel * Z) :=
  match current_task_lookup_cap (k_registry k) (k_tasks k) cid spawn_cap_slot Rights.WRITE with
  | Err e => Done (k, cap_err_to_i64 e)
  | Ok cap =>
      if negb (resource_id cap =? SPAWN_RESOURCE) then Done (k, cap_err_to_i64 CapWrongScope)
      else if negb (current_task_holds_resource (k_tasks k) cid IMAGE_SPAWN_RESOURCE Rights.WRITE)
      then Done (k, cap_err_to_i64 CapNotHeld)
      else
        req ← read_request k cid mem req_ptr req_len;
        match req with
        | Err e => Done (k, e)
        | Ok req =>
            '(k, r) ← spawn_from_image mc an req k;
            match r with
            | Ok (Some ep) => return_endpoint k cid ep
            | Ok None => Done (k, 0)
            | Err AlreadyRunning => Done (k, SPAWN_ALREADY_RUNNING)
            | Err _ => Done (k, -1)
            end
        end
  end.

(** ** The library's side of the call *)

(** What a spawner's memory holds when it makes the call: the request [r], and
    at its pointers the name, the peers and the installed capabilities. *)
Record posted (mem : UserMem) (req_ptr : Z) (r : WireRequest) (name : list Z) (peers : list (list Z))
    (pairs : list (list Z * Z)) : Prop := mk_posted {
  po_request : read_user_bytes mem req_ptr (Z.of_nat SPAWN_REQUEST_BYTES) = Some (encode r);
  po_wire : wire_ok r;
  po_name_len : wr_name_len r = Z.of_nat (length name);
  po_name : read_user_bytes mem (wr_name_ptr r) (wr_name_len r) = Some name;
  po_peers_len : wr_peers_len r = Z.of_nat (length (join_peers peers));
  po_peers : peers <> [] -> read_user_bytes mem (wr_peers_ptr r) (wr_peers_len r) = Some (join_peers peers);
  po_installs_count : wr_installs_count r = Z.of_nat (length pairs);
  po_installs : pairs <> [] -> exists cap b rest,
    encode_installs cap pairs = Some b /\
    read_user_bytes mem (wr_installs_ptr r) (wr_installs_count r * (2 + Z.of_nat PEER_NAME_BYTES + 2)) = Some (b ++ rest)
}.

(** What the names of a spawn look like. *)
Definition name_ok (name : list Z) : Prop := name <> [] /\ 0 ∉ name /\ utf8_valid name = true.

(** ** What a spawner may confer *)

(** What every spawner may give: the log, the console input and, where the
    machine has it, the power control of the child's own device. *)
Definition ambient : list (ResourceId * Rights) :=
  [(LOG_WRITE_RESOURCE, Rights.WRITE); (CONSOLE_READ_RESOURCE, Rights.READ); (DEVICE_POWER_RESOURCE, Rights.WRITE)].

(** The caller on [cid] could confer [c] on the task in slot [j], born between
    [k] and [k']. *)
Definition conferred (k k' : Kernel) (cid j : nat) (c : Capability) : Prop :=
  (resource_id c, rights c) ∈ ambient \/
  (** the caller may pass this resource on *)
  current_task_holds_resource (k_tasks k) cid (resource_id c) Rights.GRANT = true \/
  (** one of the task's own mailboxes, of nobody before *)
  (resource_id c ∈ endpoints_of (k_tasks k') j /\ resource_id c ∉ endpoints (k_tasks k) /\
   rights c ∈ [Rights.RECV; SEND_GRANT]) \/
  (** a capability the caller holds, valid and with GRANT *)
  (exists s, current_task_lookup_cap (k_registry k) (k_tasks k) cid s Rights.GRANT = Ok c) \/
  (** a sender's capability for a running service *)
  (exists peer, lookup_name (k_names k') peer = Some (resource_id c) /\ rights c ∈ [Rights.SEND; SEND_GRANT]).

Module SpawnImageFacts.
Import SchedFacts TaskDataFacts KernelFacts SpawnFacts AbiFacts.

(** *** The wire *)

Lemma from_to_le4 (x : Z) : 0 <= x <= u32_max -> from_le_bytes (to_le_bytes 4 x) = x.
Proof. intros H. apply from_to_le. unfold u32_max in H. change (256 ^ Z.of_nat 4) with 4294967296. lia. Qed.

Lemma from_to_le8 (x : Z) : 0 <= x <= u64_max -> from_le_bytes (to_le_bytes 8 x) = x.
Proof. intros H. apply from_to_le. unfold u64_max in H. change (256 ^ Z.of_nat 8) with 18446744073709551616. lia. Qed.

Lemma encode_length (r : WireRequest) : length (wr_irqs r) = 4%nat -> length (encode r) = SPAWN_REQUEST_BYTES.
Proof. intros H. unfold encode. rewrite !length_app, !to_le_length, H. done. Qed.

Lemma decode_encode (r : WireRequest) : wire_ok r -> decode (encode r) = r.
Proof.
  intros [H1 H2]. destruct r as [v fl ip il np nl co ml pr hw mb mlen dp bdf ic irqs pp pl inp inc pm].
  cbn [wr_version wr_flags wr_image_ptr wr_image_len wr_name_ptr wr_name_len wr_core wr_memory_limit wr_privileges wr_hw_flags
       wr_mmio_base wr_mmio_len wr_dma_pages wr_bdf wr_irq_count wr_irqs wr_peers_ptr wr_peers_len wr_installs_ptr
       wr_installs_count wr_probe_mode] in *.
  destruct H1 as (? & ? & ? & ? & ? & ? & ? & ? & ? & ?). destruct H2 as (? & ? & ? & ? & ? & Hl & ? & ? & ? & ? & ?).
  destruct irqs as [|a [|b [|c [|d [|? ?]]]]]; try done.
  unfold decode, encode, at_le.
  cbn [wr_version wr_flags wr_image_ptr wr_image_len wr_name_ptr wr_name_len wr_core wr_memory_limit wr_privileges wr_hw_flags
       wr_mmio_base wr_mmio_len wr_dma_pages wr_bdf wr_irq_count wr_irqs wr_peers_ptr wr_peers_len wr_installs_ptr
       wr_installs_count wr_probe_mode to_le_bytes app drop take].
  f_equal; first [reflexivity | by apply from_to_le4 | by apply from_to_le8].
Qed.

Lemma split_nul_cons (p : list Z) (b : list Z) : 0 ∉ p -> split_nul (p ++ 0 :: b) = p :: split_nul b.
Proof.
  induction p as [|x p IH]; intros Hp; [done|]. cbn [app split_nul]. apply not_elem_of_cons in Hp as [Hx Hp].
  rewrite IH by done. by rewrite (proj2 (Z.eqb_neq _ _)) by congruence.
Qed.

Lemma split_nul_last (p : list Z) : 0 ∉ p -> split_nul p = [p].
Proof.
  induction p as [|x p IH]; intros Hp; [done|]. cbn [split_nul]. apply not_elem_of_cons in Hp as [Hx Hp].
  rewrite IH by done. by rewrite (proj2 (Z.eqb_neq _ _)) by congruence.
Qed.

Lemma parse_join_peers (ps : list (list Z)) :
  Forall (fun p => p <> [] /\ 0 ∉ p) ps -> parse_peers (join_peers ps) = ps.
Proof.
  unfold parse_peers. induction 1 as [|p ps [Hne H0] Hps IH]; [done|]. destruct ps as [|q ps].
  - cbn [join_peers]. by rewrite split_nul_last, filter_cons_True.
  - change (join_peers (p :: q :: ps)) with (p ++ 0 :: join_peers (q :: ps)).
    rewrite split_nul_cons, filter_cons_True by done. by rewrite IH.
Qed.

Lemma slot_bytes (slot : Z) : 0 <= slot < 65536 ->
  Z.lor (Z.land slot 255) (Z.shiftl (Z.land (Z.shiftr slot 8) 255) 8) = slot.
Proof.
  intros H. apply Z.bits_inj'. intros n Hn. rewrite Z.lor_spec, Z.land_spec, Z.shiftl_spec by lia.
  change 255 with (Z.ones 8). destruct (decide (n < 8)) as [Hl|Hl].
  - rewrite (Z.testbit_neg_r _ (n - 8)) by lia. rewrite Z.ones_spec_low by lia. by rewrite andb_true_r, orb_false_r.
  - rewrite Z.ones_spec_high, andb_false_r by lia. cbn. rewrite Z.land_spec, Z.shiftr_spec by lia.
    replace (n - 8 + 8) with n by lia. destruct (decide (n < 16)).
    + rewrite Z.ones_spec_low by lia. by rewrite andb_true_r.
    + rewrite Z.ones_spec_high, andb_false_r by lia. symmetry. destruct (decide (slot = 0)) as [->|Hz]; [apply Z.bits_0|].
      apply Z.bits_above_log2; [lia|]. apply Z.log2_lt_pow2; [lia|].
      assert (2 ^ 16 <= 2 ^ n) by (apply Z.pow_le_mono_r; lia). change (2 ^ 16) with 65536 in *. lia.
Qed.

Lemma read_encode_installs (look : nat -> result Capability CapError) (cap : nat) (pairs : list (list Z * Z))
    (caps : list Capability) (b rest : list Z) :
  encode_installs cap pairs = Some b ->
  Forall2 (fun p c => 0 <= p.2 < 65536 /\ look (Z.to_nat p.2) = Ok c) pairs caps ->
  read_installs look (length pairs) (b ++ rest) = Ok (zip (fst <$> pairs) caps).
Proof.
  intros He Hf. revert cap b He. induction Hf as [|[label slot] c pairs caps [Hs Hc] _ IH]; intros cap b He; [done|].
  cbn [encode_installs] in He. destruct (bool_decide (label = []) || _) eqn:Hl; [done|].
  destruct (cap <? _)%nat; [done|]. destruct (encode_installs _ pairs) as [b'|] eqn:Eb; [|done]. injection He as <-.
  apply orb_false_iff in Hl as [Hne%bool_decide_eq_false Hle%Nat.ltb_ge].
  cbn [length read_installs app]. rewrite <- (app_assoc label). cbn [app]. rewrite Nat2Z.id.
  assert (length label <> 0%nat) by (by destruct label).
  rewrite (proj2 (Nat.eqb_neq _ _)), (proj2 (Nat.ltb_ge _ _)), (proj2 (Nat.ltb_ge _ _)) by
    (rewrite ?length_app; cbn [length]; lia). cbn [orb].
  rewrite !lookup_app_r by lia. replace (length label - length label)%nat with 0%nat by lia.
  replace (S (length label) - length label)%nat with 1%nat by lia. cbn [lookup list_lookup default from_option Datatypes.id].
  cbn [snd] in Hs, Hc. rewrite slot_bytes, Hc by done.
  rewrite (drop_app_add' label) by done. cbn [drop]. rewrite drop_0, (IH _ _ Eb). by rewrite take_app_length.
Qed.

Lemma read_name_posted (mem : UserMem) req_ptr r name peers pairs :
  posted mem req_ptr r name peers pairs -> name_ok name -> (length name <= NAME_BUF)%nat ->
  read_name mem r = Done (Ok name).
Proof.
  intros P (Hne & _ & Hu) Hl. unfold read_name. rewrite (po_name _ _ _ _ _ _ P), (po_name_len _ _ _ _ _ _ P).
  assert (length name <> 0%nat) by (by destruct name). unfold NAME_BUF in Hl.
  rewrite (proj2 (Z.eqb_neq _ _)), (proj2 (Z.ltb_ge _ _)) by (unfold PEER_NAME_BYTES; lia). cbn [orb].
  rewrite (proj2 (Nat.ltb_ge _ _)) by done. by rewrite Hu.
Qed.

Lemma read_peers_posted (mem : UserMem) req_ptr r name peers pairs :
  posted mem req_ptr r name peers pairs -> Forall name_ok peers -> utf8_valid (join_peers peers) = true ->
  (length peers <= MAX_SEND_PEERS)%nat -> (length (join_peers peers) <= SPAWN_PAYLOAD_MAX)%nat ->
  read_peers mem r = Ok peers.
Proof.
  intros P Hp Hu Hn Hl. unfold read_peers. rewrite (po_peers_len _ _ _ _ _ _ P). destruct peers as [|p ps]; [done|].
  assert (join_peers (p :: ps) <> []) as Hne.
  { apply Forall_cons in Hp as [(? & _) _]. destruct ps; cbn [join_peers]; [done|]. by destruct p. }
  assert (length (join_peers (p :: ps)) <> 0%nat) by (intros ?%nil_length_inv; done).
  rewrite (proj2 (Z.eqb_neq _ _)), (proj2 (Z.ltb_ge _ _)) by lia.
  rewrite <- (po_peers_len _ _ _ _ _ _ P), (po_peers _ _ _ _ _ _ P) by done. rewrite Hu. cbn [negb].
  rewrite parse_join_peers.
  - by rewrite (proj2 (Nat.ltb_ge _ _)).
  - eapply Forall_impl; [exact Hp|]. by intros x (? & ? & _).
Qed.

Lemma read_installs_posted (k : Kernel) (cid : nat) (mem : UserMem) req_ptr r name peers pairs caps :
  posted mem req_ptr r name peers pairs -> (length pairs <= MAX_SEND_PEERS)%nat ->
  Forall2 (fun p c => 0 <= p.2 < 65536 /\
    current_task_lookup_cap (k_registry k) (k_tasks k) cid (Z.to_nat p.2) Rights.GRANT = Ok c) pairs caps ->
  read_install_caps k cid mem r = Ok (if decide (pairs = []) then None else Some (zip (fst <$> pairs) caps)).
Proof.
  intros P Hn Hf. unfold read_install_caps. rewrite (po_installs_count _ _ _ _ _ _ P).
  rewrite (proj2 (Z.ltb_ge _ _)) by lia. case_decide as He; [by subst pairs|].
  rewrite (proj2 (Z.eqb_neq _ _)) by (destruct pairs; [done|cbn [length]; lia]).
  destruct (po_installs _ _ _ _ _ _ P He) as (cap & b & rest & Hb & Hr).
  rewrite <- (po_installs_count _ _ _ _ _ _ P), Hr. rewrite (po_installs_count _ _ _ _ _ _ P), Nat2Z.id.
  by rewrite (read_encode_installs _ _ _ _ _ rest Hb Hf).
Qed.

(** *** Privileges *)

Lemma privileges_held (k : Tasks) (cid : nat) (bits b : Z) (res : ResourceId) :
  privileges_caller_lacks k cid bits = None -> (b, res) ∈ privilege_checks -> asks bits b = true ->
  current_task_holds_resource k cid res Rights.GRANT = true.
Proof.
  unfold privileges_caller_lacks. intros H [i Hi]%list_elem_of_lookup Ha. case_match; [done|].
  destruct (position _ privilege_checks) as [n|] eqn:Ep; cbn in H.
  - destruct (position_hit _ _ _ Ep) as (x & Hx & _). by rewrite Hx in H.
  - pose proof (proj1 (position_None _ _) Ep i (b, res) Hi) as Hp. cbn in Hp. unfold asks in Ha. rewrite Ha in Hp. cbn in Hp.
    by apply negb_false_iff in Hp.
Qed.

Lemma asks_zero (b : Z) : asks 0 b = false.
Proof. done. Qed.

Ltac privilege_case held :=
  match goal with
  | H : _ ∈ (if ?b then [_] else []) |- _ =>
      let E := fresh in
      destruct b eqn:E; [apply list_elem_of_singleton in H; injection H as -> ->|by apply not_elem_of_nil in H];
      first [ done | left; apply list_elem_of_In; vm_compute; tauto
            | right; refine (held _ _ _ E); apply list_elem_of_In; vm_compute; tauto ]
  end.

Lemma asked_conferred (k : Tasks) (cid : nat) (rq : SpawnRequest) (bits : Z) (id : ResourceId) (r : Rights) :
  rq_privileges rq = Some bits -> rq_name rq <> SUPERVISOR ->
  (forall b res, (b, res) ∈ privilege_checks -> asks bits b = true -> current_task_holds_resource k cid res Rights.GRANT = true) ->
  (id, r) ∈ asked rq -> (id, r) ∈ ambient \/ current_task_holds_resource k cid id Rights.GRANT = true.
Proof.
  intros Hb Hn held. unfold asked, requested, mints, service_grants. rewrite Hb, bool_decide_false by done.
  cbn [privileges_of p_spawn p_console_push p_introspect p_service_control p_fire_irq p_reboot p_acquire_any p_net_device
       p_pci_cfg p_cpu_clock p_power_off p_usb_disk p_gpio p_image_spawn p_set_clock p_set_clock_floor].
  intros [H|H]%elem_of_cons; [left; rewrite H; by left|].
  repeat (apply elem_of_app in H as [H|H]); try (by apply not_elem_of_nil in H).
  all: privilege_case held.
Qed.

(** *** A request that passes *)

Lemma read_installs_held look ni b l label c :
  read_installs look ni b = Ok l -> (label, c) ∈ l -> exists s, look s = Ok c.
Proof.
  revert b l. induction ni as [|ni IH]; intros b l; cbn [read_installs]; [by intros [= <-] ?%not_elem_of_nil|].
  destruct b as [|len b]; [done|]. destruct (_ || _ || _); [done|]. destruct (look _) as [h|e] eqn:El; [|done].
  destruct (read_installs look ni _) as [l'|e] eqn:Er; [|done]. intros [= <-] [[= _ ->]|Hin]%elem_of_cons; eauto.
Qed.

Record passed (k : Kernel) (cid : nat) (r : ImageRequest) : Prop := mk_passed {
  pa_name : utf8_valid (ir_name r) = true;
  pa_privileges : forall b res, (b, res) ∈ privilege_checks -> asks (ir_privileges r) b = true ->
    current_task_holds_resource (k_tasks k) cid res Rights.GRANT = true;
  pa_installs : forall label c, (label, c) ∈ default [] (ir_installs r) ->
    exists s, current_task_lookup_cap (k_registry k) (k_tasks k) cid s Rights.GRANT = Ok c
}.

Lemma read_request_passed (k : Kernel) (cid : nat) mem req_ptr req_len r :
  read_request k cid mem req_ptr req_len = Done (Ok r) -> passed k cid r.
Proof.
  unfold read_request. destruct (negb _); [done|]. destruct (read_user_bytes _ _ _) as [raw|]; [|done].
  set (w := decode raw). clearbody w. destruct (negb (fields_ok w)); [done|].
  destruct (negb (wr_privileges w =? 0) && _) eqn:Ep; [done|]. intros (nm & Hn & H)%bind_Done.
  destruct nm as [name|]; [|done]. destruct (read_peers _ _) as [peers|]; [|done].
  destruct (_ || _); [done|]. destruct (read_install_caps k cid _ w) as [ins|] eqn:Ei; [|done]. injection H as <-. split.
  - cbn. unfold read_name in Hn. destruct (_ || _); [done|]. destruct (read_user_bytes _ _ _) as [b|]; [|done].
    destruct (NAME_BUF <? _)%nat; [done|]. destruct (utf8_valid b) eqn:Eu; [|done]. by injection Hn as <-.
  - cbn. intros b res Hin Ha. apply andb_false_iff in Ep as [Hz%negb_false_iff%Z.eqb_eq|Hl%bool_decide_eq_false].
    + by rewrite Hz in Ha.
    + eapply privileges_held; [|done|done]. by apply eq_None_not_Some.
  - cbn. intros label c Hin. unfold read_install_caps in Ei. destruct (_ <? wr_installs_count w); [done|].
    destruct (wr_installs_count w =? 0); [injection Ei as <-; by apply not_elem_of_nil in Hin|].
    destruct (read_user_bytes _ _ _) as [b|]; [|done]. destruct (read_installs _ _ b) as [l|] eqn:Er; [|done].
    injection Ei as <-. by eapply (read_installs_held _ _ _ _ _ _ Er).
Qed.

(** *** A kernel whose owners did not change *)

Lemma same_owners_kernel (k k' : Kernel) : same_owners k k' -> kernel_wf k -> kernel_wf k'.
Proof.
  intros H [Hb Hv [lk Hi] Ho]. split.
  - apply H.
  - intros j. unfold vacant. rewrite (so_tasks _ _ H). intros Hj. destruct (Hv j Hj). split; [done|].
    by rewrite (proj2 (so_data _ _ H j)).
  - exists lk. by rewrite (so_ids _ _ H), (same_owners_endpoints _ _ H).
  - intros b e. rewrite (so_names _ _ H). intros Hl. destruct (Ho b e Hl) as (s & ? & ? & ? & ?).
    exists s. unfold alive, task_name in *. rewrite (so_tasks _ _ H), (so_rows _ _ H), (proj1 (so_data _ _ H s)). done.
Qed.

(** The endpoints of a new task were nobody's. *)
Lemma spawned_fresh (k0 : Kernel) (rq : SpawnRequest) (slot : nat) own (k : Kernel) (e : Z) :
  spawned k0 rq slot own k -> e ∈ endpoints_of (k_tasks k) slot -> e ∉ endpoints (k_tasks k0).
Proof.
  intros S He Hin. apply list_elem_of_join in Hin as (l & Hl & Hel).
  apply list_elem_of_fmap in Hel as (j & -> & _).
  assert (alive (k_sched k0) slot = false) as Hn by (unfold alive; by rewrite (sd_fresh _ _ _ _ _ S), andb_false_r).
  destruct (decide (j = slot)) as [->|Hne].
  - unfold endpoints_of in Hl. unfold k_sched in Hn. rewrite Hn in Hl. by apply not_elem_of_nil in Hl.
  - apply Hne, (endpoint_unique k j slot e (sd_wf _ _ _ _ _ S)); [|done].
    unfold endpoints_of, alive in *. pose proof (ot_task _ _ _ (sd_others _ _ _ _ _ S) j Hne) as Ht. unfold k_sched in Ht.
    by rewrite Ht, (ot_data _ _ _ (sd_others _ _ _ _ _ S) j Hne).
Qed.

Lemma spawned_held (k0 : Kernel) (rq : SpawnRequest) (slot : nat) own (k : Kernel) (e : Z) :
  spawned k0 rq slot own k -> e ∈ held own (d_reply_endpoint (data_at (k_tasks k) slot)) ->
  e ∈ endpoints_of (k_tasks k) slot.
Proof.
  intros S He. unfold endpoints_of. pose proof (sd_alive _ _ _ _ _ S) as Ha. unfold k_sched in Ha. rewrite Ha.
  rewrite (sd_endpoint _ _ _ _ _ S). apply elem_of_app in He as [He|He].
  - destruct own as [x|]; [|by apply not_elem_of_nil in He]. apply list_elem_of_singleton in He as ->.
    apply list_elem_of_filter. split; [|right; by left]. intros ->. by apply (sd_own _ _ _ _ _ S).
  - apply list_elem_of_filter in He as [Hz Hin%list_elem_of_singleton]. apply list_elem_of_filter. split; [done|].
    rewrite Hin. by left.
Qed.

Lemma spawned_conferred (k0 : Kernel) (mc : Machine) (cid : nat) (r : ImageRequest) (core slot : nat) own (k : Kernel) c :
  passed k0 cid r -> in_catalogue (ir_name r) = false -> spawned k0 (image_spawn mc r core) slot own k ->
  Some c ∈ d_caps (data_at (k_tasks k) slot) -> conferred k0 k cid slot c.
Proof.
  intros P Hcat S Hc. apply (sd_holds _ _ _ _ _ S) in Hc as [Ha|[[Hh Hr]|[[label Hl]|(peer & _ & Hn & Hr)]]].
  - eapply (asked_conferred (k_tasks k0) cid _ (ir_privileges r)) in Ha as [?|?]; [by left|by right; left|done| |apply P].
    by apply bool_decide_eq_false in Hcat.
  - right; right; left. pose proof (spawned_held _ _ _ _ _ _ S Hh) as He.
    split_and!; [done|by eapply spawned_fresh|done].
  - right; right; right; left. by apply (pa_installs _ _ _ P label).
  - right; right; right; right. exists peer. split; [done|]. rewrite Hr. case_match; [right; by left|by left].
Qed.

(** What a call of [handle_spawn_image] may do to the tasks. *)
Definition confined (k k' : Kernel) (cid : nat) : Prop :=
  kernel_wf k' /\
  forall j, if alive (k_sched k) j
    then alive (k_sched k') j = true /\ forall c, Some c ∈ d_caps (data_at (k_tasks k') j) ->
           Some c ∈ d_caps (data_at (k_tasks k) j) \/
           (current (k_tasks k) cid = Some j /\ resource_id c ∉ endpoints (k_tasks k) /\ rights c = SEND_GRANT)
    else alive (k_sched k') j = true -> forall c, Some c ∈ d_caps (data_at (k_tasks k') j) -> conferred k k' cid j c.

Lemma undone_confined (k k' : Kernel) (cid : nat) : undone k k' -> confined k k' cid.
Proof.
  intros [Hwf Hq]. split; [done|]. intros j. destruct (Hq j) as [Ha Hd].
  destruct (alive (k_sched k) j) eqn:Ej; [|by rewrite Ha]. split; [done|]. intros c. rewrite Hd by done. by left.
Qed.

Lemma spawned_confined (k0 : Kernel) (mc : Machine) (cid : nat) (r : ImageRequest) (core slot : nat) own (k : Kernel) :
  passed k0 cid r -> in_catalogue (ir_name r) = false -> spawned k0 (image_spawn mc r core) slot own k ->
  confined k0 k cid.
Proof.
  intros P Hcat S. split; [apply S|]. intros j. destruct (decide (j = slot)) as [->|Hj].
  - assert (alive (k_sched k0) slot = false) as -> by (unfold alive; by rewrite (sd_fresh _ _ _ _ _ S), andb_false_r).
    intros _ c. by eapply spawned_conferred.
  - assert (alive (k_sched k) j = alive (k_sched k0) j) as Ha
      by (unfold alive; by rewrite (ot_task _ _ _ (sd_others _ _ _ _ _ S) j Hj)).
    destruct (alive (k_sched k0) j); [|by rewrite Ha]. split; [done|]. intros c.
    rewrite (ot_data _ _ _ (sd_others _ _ _ _ _ S) j Hj). by left.
Qed.

(** The capability handed back goes to the caller. *)
Lemma return_confined (k0 k k' : Kernel) (cid cur : nat) (ep ret : Z) :
  confined k0 k cid -> current (k_tasks k0) cid = Some cur -> current (k_tasks k) cid = Some cur ->
  alive (k_sched k) cur = alive (k_sched k0) cur -> ep ∉ endpoints (k_tasks k0) ->
  return_endpoint k cid ep = Done (k', ret) -> confined k0 k' cid.
Proof.
  intros [Hwf Hc] Hcur Hcur1 Ha Hep H. unfold return_endpoint in H. apply bind_Done in H as (c & Hm & H).
  unfold current_task_insert_cap in H. rewrite Hcur1 in H.
  destruct (CapTable.insert _ c) as [caps res] eqn:Ei. injection H as <- _.
  unfold mint_cap in Hm. destruct (GlobalResourceTable.get_record _ ep) as [rec|]; [|done]. injection Hm as <-.
  pose proof (same_owners_data k cur (set_caps caps) (kw_base _ Hwf) ltac:(done)) as So.
  set (k' := with_tasks k _) in *. split; [by eapply same_owners_kernel|]. intros j. specialize (Hc j).
  assert (alive (k_sched k') j = alive (k_sched k) j) as Haj by done.
  assert (endpoints_of (k_tasks k') j = endpoints_of (k_tasks k) j) as He.
  { unfold endpoints_of. destruct (so_data _ _ So j) as [-> ->]. done. }
  pose proof (tw_data _ (bw_tasks _ (kw_base _ Hwf))) as Hl. pose proof (current_lt _ _ _ Hcur1) as Hlt.
  assert (d_caps (data_at (k_tasks k') j) = if decide (cur = j) then caps else d_caps (data_at (k_tasks k) j)) as Hd.
  { unfold k'. cbn [k_tasks with_tasks]. rewrite data_at_upd by lia. by case_decide. }
  rewrite Haj, Hd. destruct (alive (k_sched k0) j) eqn:Ej.
  - destruct Hc as [Hal Hc]. split; [done|]. intros x. case_decide as Hj; [subst j|by apply Hc].
    intros Hx. destruct (insert_elem _ _ _ _ Ei x Hx) as [->|Hin]; [right|by apply Hc].
    split_and!; [done| |done]. cbn. done.
  - intros Hal x Hx. case_decide as Hj; [subst j; congruence|]. specialize (Hc Hal x Hx). unfold conferred in *.
    by rewrite He.
Qed.

Lemma spawn_image_confines (mc : Machine) (an : Answers) mem (cid : nat) req_ptr req_len s (k k' : Kernel) (ret : Z) :
  kernel_wf k -> handle_spawn_image mc an mem cid req_ptr req_len s k = Done (k', ret) -> confined k k' cid.
Proof.
  intros Hwf H. assert (confined k k cid) as Hrefl by (by apply undone_confined).
  unfold handle_spawn_image in H. destruct (current_task_lookup_cap _ _ _ _ _) as [cap|] eqn:El; [|by injection H as <- <-].
  destruct (negb _); [by injection H as <- <-|]. destruct (negb _); [by injection H as <- <-|].
  apply bind_Done in H as ([r|e] & Hr & H); [|by injection H as <- <-].
  pose proof (read_request_passed _ _ _ _ _ _ Hr) as P. clear Hr.
  apply bind_Done in H as ([k1 res] & Hs & H). unfold spawn_from_image in Hs.
  destruct (in_catalogue (ir_name r)) eqn:Ecat; [by injection Hs as <- <-; injection H as <- <-|].
  unfold M_bind at 1, M_gets in Hs. destruct (negb _); [by injection Hs as <- <-; injection H as <- <-|].
  destruct (resolve_spawn_core _ _ _) as [core|e]; [|injection Hs as <- <-; by destruct e; injection H as <- <-].
  unfold M_bind in Hs. destruct (spawn_service_with_image _ an k) as [[k2 sr]|] eqn:Esp; [|done].
  pose proof (spawn_spec (image_spawn mc r core) an k (pa_name _ _ _ P) Hwf k k2 sr eq_refl Esp) as Spec.
  destruct sr as [[own ctx]|e]; cbn in Spec; injection Hs as <- <-.
  2: { by destruct e; injection H as <- <-; apply undone_confined. }
  destruct Spec as [slot S]. pose proof (spawned_confined k mc cid r core slot own k2 P Ecat S) as Hc.
  cbn in H. destruct own as [ep|]; [|by injection H as <- <-].
  unfold current_task_lookup_cap in El. destruct (current (k_tasks k) cid) as [cur|] eqn:Ecur; [|done].
  assert (cur <> slot /\ current_task_slot (k_sched k) cid = cur /\ t_valid (task_at (k_sched k) cur) = true)
    as (Hne & Hslot & Hval).
  { unfold current in Ecur. destruct (_ && _) eqn:E; [|done]. injection Ecur as Ecur.
    apply andb_true_iff in E as [_ E]. unfold k_sched in *. rewrite Ecur in E. split_and!; try done.
    intros ->. pose proof (sd_fresh _ _ _ _ _ S) as Hf. unfold k_sched in Hf. congruence. }
  pose proof (ot_task _ _ _ (sd_others _ _ _ _ _ S) cur Hne) as Hcur2.
  eapply (return_confined k k2 k' cid cur ep ret Hc Ecur); [| | |exact H].
  - unfold current. unfold current_task_slot in *. pose proof (ot_core _ _ _ (sd_others _ _ _ _ _ S) cid) as Hco.
    unfold k_sched in *. rewrite Hco, Hslot, Hcur2, Hval, andb_true_r.
    by rewrite (proj2 (Nat.ltb_lt _ _) (current_lt _ _ _ Ecur)).
  - unfold alive. by rewrite Hcur2.
  - eapply spawned_fresh; [exact S|]. eapply spawned_held; [exact S|]. by left.
Qed.

End SpawnImageFacts.
