(* ===== verification/Syscalls.v ===== *)
(** * System calls

    [kernel/src/syscall/dispatch.rs]: the handlers of the x86-64 kernel and
    their dispatcher.  A handler runs on the core of the task that called it
    and is one step, up to the point where the task blocks: there it leaves a
    [Waiting] record, what the rest of the handler needs, and [resume] runs
    that rest when the task is switched to again.  What the hardware answers is
    the argument [Arch].  Log output is not part of the state. *)

From S2P Require Import Prelude Prog Capability CapTable Delegated Queue Console Routing Names Sched TaskData Interrupt.
From S2P Require Import Kernel Abi PageTables Loader Spawn SpawnImage.

(** ** The state a call works on *)

(** The console's statics in [arch/x86_64/mod.rs]. *)
Record Con := mkCon {
  con_rx : Rx;
  con_echo : bool;                (* CONSOLE_ECHO_ENABLED *)
  con_boot_log : bool;            (* BOOT_LOG_TO_FB *)
  con_dismissed : bool;           (* BOOT_DISMISSED *)
  con_input_ready : bool          (* INPUT_READY *)
}.

Definition con_boot : Con := mkCon rx_boot true true false false.

Definition with_rx (c : Con) (r : Rx) : Con :=
  mkCon r (con_echo c) (con_boot_log c) (con_dismissed c) (con_input_ready c).
Definition set_console_echo (c : Con) (on : bool) : Con :=
  mkCon (con_rx c) on (con_boot_log c) (con_dismissed c) (con_input_ready c).
Definition set_input_ready (c : Con) : Con :=
  mkCon (con_rx c) (con_echo c) (con_boot_log c) (con_dismissed c) true.
Definition console_boot_complete (c : Con) : Con :=
  if con_dismissed c then c else mkCon (con_rx c) (con_echo c) false true (con_input_ready c).

(** The kernel, the console, and the memory of each task. *)
Record Sys := mkSys {
  y_k : Kernel;
  y_con : Con;
  y_mem : nat -> UserMem
}.

Notation Handler := (Prog Sys Z).

(** What the rest of a blocked call needs. *)
Record RecvWait := mkRecv {
  rw_ep : Z;
  rw_gen : Generation;
  rw_buf : Z;
  rw_len : Z;
  rw_timed : bool;                (* [RecvTimeout] *)
  rw_deadline : Z                 (* 0: none *)
}.

Record CallWait := mkCall {
  cw_target : Z;
  cw_recv : Z;
  cw_gen : Generation;
  cw_buf : Z;
  cw_cap : nat;                   (* the capacity of the reply buffer *)
  cw_secs : Z;
  cw_deadline : Z
}.

Inductive Waiting :=
| WSend
| WRecv (w : RecvWait)
| WCallSend (w : CallWait)
| WCall (w : CallWait)
| WSleep (deadline : Z)
| WConsole
| WPark.

(** How a step of a call ends: with a code for the caller, with the caller
    blocked or switched away from, with the caller dead, or with the machine
    reset or off.  [Spinning] is a loop that used up its fuel. *)
Inductive progress :=
| Ret (code : Z)
| Wait (w : Waiting)
| Yielded
| Gone
| Halted
| Spinning.

(** What the machine answers during a call. *)
Record Arch := mkArch {
  ar_quantum : Z;                 (* cycles per tick *)
  ar_tsc : Z;
  ar_fifo : list Z;               (* the bytes in the UART *)
  ar_query : Z -> Z;              (* the hardware facts of InspectKernel *)
  ar_boot_record : RingBuffer.t;
  ar_uptime : nat -> Z;
  ar_unmapped : option Z;         (* the page AllocMem cannot provide *)
  ar_pci : Z -> Z -> option Z;
  ar_machine : Machine;
  ar_spawn : Answers
}.

(** ** Pieces of a handler *)

Definition as_i64 (x : Z) : Z := if x <? 9223372036854775808 then x else x - 18446744073709551616.

Definition ask {A} (f : Kernel -> A) : Handler A := M_gets (fun y => f (y_k y)).
Definition put (k : Kernel) (y : Sys) : Sys := mkSys k (y_con y) (y_mem y).
Definition tell (f : Kernel -> Kernel) : Handler unit := M_modify (fun y => put (f (y_k y)) y).
Definition run {A} (f : Kernel -> outcome (Kernel * A)) : Handler A :=
  M_outcome (fun y => '(k, a) ← f (y_k y); Done (put k y, a)).
Definition tell_con (f : Con -> Con) : Handler unit := M_modify (fun y => mkSys (y_k y) (f (y_con y)) (y_mem y)).

Definition my_slot (cid : nat) : Handler nat := ask (fun k => current_task_slot (k_sched k) cid).
Definition on_tasks {A} (f : Tasks -> Tasks * A) : Handler A :=
  run (fun k => let (t, a) := f (k_tasks k) in Done (with_tasks k t, a)).
Definition on_sched (f : Sched -> Sched) : Handler unit :=
  tell (fun k => with_tasks k (with_sched (k_tasks k) (f (k_sched k)))).
Definition on_routing {A} (f : RoutingState -> RoutingState * A) : Handler A :=
  run (fun k => let (r, a) := f (k_routing k) in Done (with_routing k r, a)).

(** [match current_task_lookup_cap(..) { Ok(c) => c, Err(e) => return cap_err_to_i64(e) }] *)
Definition lookup_cap (cid slot : nat) (right : Rights) : Handler Capability :=
  r <- ask (fun k => current_task_lookup_cap (k_registry k) (k_tasks k) cid slot right) ;;
  match r with Ok c => M_ret c | Err e => M_fail (cap_err_to_i64 e) end.

(** The same for a capability that is to be transferred. *)
Definition lookup_grant (cid slot : nat) : Handler Capability :=
  r <- ask (fun k => current_task_lookup_cap (k_registry k) (k_tasks k) cid slot Rights.GRANT) ;;
  match r with
  | Ok c => M_ret c
  | Err CapInsufficientRights => M_fail (cap_err_to_i64 CapNotGrantable)
  | Err e => M_fail (cap_err_to_i64 e)
  end.

Definition guard (b : bool) (code : Z) : Handler unit := if b then M_ret tt else M_fail code.

Definition holds (cid : nat) (rid : ResourceId) (right : Rights) : Handler bool :=
  ask (fun k => current_task_holds_resource (k_tasks k) cid rid right).

(** [if !current_task_holds_resource(..) { return CapNotHeld }] *)
Definition demand (cid : nat) (rid : ResourceId) (right : Rights) : Handler unit :=
  b <- holds cid rid right ;; guard b (cap_err_to_i64 CapNotHeld).

(** A slot's capability, of the one resource the call works on. *)
Definition demand_slot (cid slot : nat) (rid : ResourceId) (right : Rights) : Handler unit :=
  c <- lookup_cap cid slot right ;; guard (resource_id c =? rid) (cap_err_to_i64 CapWrongScope).

Definition read_user (cid : nat) (ptr len : Z) : Handler (option (list Z)) :=
  M_gets (fun y => read_user_bytes (y_mem y (current_task_slot (k_sched (y_k y)) cid)) ptr len).

Definition write_user (cid : nat) (dst : Z) (src : list Z) : Handler bool :=
  M_outcome (fun y =>
    let slot := current_task_slot (k_sched (y_k y)) cid in
    match write_user_bytes (y_mem y slot) dst src with
    | Some m => Done (mkSys (y_k y) (y_con y) (upd (y_mem y) slot m), true)
    | None => Done (y, false)
    end).

Definition wake (cid : nat) (target : option nat) (result : Z) : Handler unit :=
  match target with
  | Some slot => tell (fun k => k_wake k cid slot result)
  | None => M_ret tt
  end.

Definition block (cid : nat) (state : TaskState) : Handler block_result :=
  run (fun k => '(s, r) ← block_and_reschedule (k_sched k) cid state;
                Done (with_tasks k (with_sched (k_tasks k) s), r)).

(** A block in tail position: the code the caller sees is the one it is woken
    with. *)
Definition block_return (cid : nat) (state : TaskState) (w : Waiting) : Handler progress :=
  b <- block cid state ;; match b with Returned c => M_ret (Ret c) | Switched _ => M_ret (Wait w) end.

Definition insert_cap (cid : nat) (c : Capability) : Handler (result nat CapError) :=
  on_tasks (fun t => current_task_insert_cap t cid c).
Definition remove_cap (cid slot : nat) : Handler unit :=
  _ <- on_tasks (fun t => current_task_remove_cap t cid slot) ;; M_ret tt.
Definition mint_new (id : ResourceId) (r : Rights) : Handler Capability :=
  run (fun k => c ← mint_cap (k_registry k) id r; Done (k, c)).

(** ** Messages *)

(** An empty message is built without looking at its pointer. *)
Definition build_message (cid : nat) (msg_ptr msg_len : Z) : Handler Message :=
  guard (msg_len <=? Z.of_nat MAX_MESSAGE_SIZE) (ipc_err_to_i64 IpcError.MessageTooLarge) ;;;
  bytes <- (if msg_len =? 0 then M_ret []
            else b <- read_user cid msg_ptr msg_len ;; match b with Some b => M_ret b | None => M_fail (-1) end) ;;
  match Message.new bytes with
  | Err e => M_fail (ipc_err_to_i64 e)
  | Ok m =>
      ep <- ask (fun k => current_task_endpoint (k_tasks k) cid) ;;
      M_ret (mkMessage (payload m) (payload_len m) (caps m) (cap_count m) (badge_id m) (badge_right m) (default 0 ep))
  end.

(** [msg.caps[0] = Some(cap); msg.cap_count = 1] *)
Definition embed (m : Message) (c : Capability) : Message :=
  mkMessage (payload m) (payload_len m) (<[0%nat := Some c]> (caps m)) 1 (badge_id m) (badge_right m) (sender_ep m).

Definition badge (m : Message) (id right : Z) : Message :=
  mkMessage (payload m) (payload_len m) (caps m) (cap_count m) id right (sender_ep m).

Definition copy_out (cid : nat) (dst : Z) (bytes : list Z) : Handler bool :=
  match bytes with [] => M_ret true | _ => write_user cid dst bytes end.

Definition narrow_embedded_for_receiver (c : Capability) : Capability :=
  if is_delegated (resource_id c) then without_grant c else c.

Fixpoint install_caps (cid : nat) (l : list (option Capability)) : Handler unit :=
  match l with
  | [] => M_ret tt
  | None :: l => install_caps cid l
  | Some c :: l =>
      r <- insert_cap cid (narrow_embedded_for_receiver c) ;;
      match r with
      | Ok new_slot =>
          pushed <- on_tasks (fun t => push_pending_recv_cap t cid (Z.of_nat new_slot)) ;;
          (if pushed : bool then M_ret tt else remove_cap cid new_slot) ;;;
          install_caps cid l
      | Err _ => install_caps cid l
      end
  end.

Definition install_received_caps (cid : nat) (m : Message) : Handler unit :=
  install_caps cid (take (Nat.min (cap_count m) (length (caps m))) (caps m)).

(** What every receive does with the message it has taken; the result is the
    call's.  An oversized payload is refused, not cut. *)
Definition take_delivery (cid : nat) (buf : Z) (buf_len : Z) (m : Message) (sender : option nat) : Handler Z :=
  wake cid sender 0 ;;;
  tell (fun k => with_tasks k (set_last_recv_badge (k_tasks k) cid (badge_id m) (badge_right m))) ;;;
  install_received_caps cid m ;;;
  let p := Message.payload_bytes m in
  if buf_len <? Z.of_nat (length p) then M_ret (ipc_err_to_i64 IpcError.MessageTooLarge)
  else ok <- copy_out cid buf p ;; M_ret (if ok : bool then Z.of_nat (length p) else -1).

(** ** Send *)

(** The send that blocks on a full queue; [moved] is the slot of the
    capability the message carries, which leaves the sender's table with it. *)
Definition send_message (cid : nat) (ep : Z) (g : Generation) (m : Message) (moved : option nat)
    : Handler progress :=
  my <- my_slot cid ;;
  r <- on_routing (fun r => enqueue r ep m g (Some my)) ;;
  let give := match moved with Some s => remove_cap cid s | None => M_ret tt end in
  match r with
  | Ok rx => give ;;; wake cid rx 0 ;;; M_ret (Ret 0)
  | Err IpcError.QueueFull => give ;;; block_return cid BlockedOnSend WSend
  | Err e => M_fail (ipc_err_to_i64 e)
  end.

Definition handle_send (cid : nat) (cap_slot msg_ptr msg_len : Z) : Handler progress :=
  c <- lookup_cap cid (Z.to_nat cap_slot) Rights.SEND ;;
  m <- build_message cid msg_ptr msg_len ;;
  send_message cid (resource_id c) (generation c) m None.

Definition handle_try_send (cid : nat) (cap_slot msg_ptr msg_len : Z) : Handler progress :=
  c <- lookup_cap cid (Z.to_nat cap_slot) Rights.SEND ;;
  m <- build_message cid msg_ptr msg_len ;;
  r <- on_routing (fun r => enqueue r (resource_id c) m (generation c) None) ;;
  match r with
  | Ok rx => wake cid rx 0 ;;; M_ret (Ret 0)
  | Err e => M_fail (ipc_err_to_i64 e)
  end.

Definition field (packed : Z) (shift width : Z) : Z := Z.land (Z.shiftr packed shift) (Z.ones width).

Definition handle_send_with_cap (cid : nat) (packed msg_ptr msg_len : Z) : Handler progress :=
  let endpoint_slot := Z.to_nat (field packed 0 16) in
  let grant_slot := Z.to_nat (field packed 16 16) in
  c <- lookup_cap cid endpoint_slot Rights.SEND ;;
  given <- lookup_grant cid grant_slot ;;
  m <- build_message cid msg_ptr msg_len ;;
  send_message cid (resource_id c) (generation c) (embed m given) (Some grant_slot).

(** ** Receive *)

Definition TRY_RECV_EMPTY : Z := -1000.
Definition RECV_TIMED_OUT : Z := -1001.

Definition buffer_ok (buf len : Z) : bool :=
  negb (len =? 0) && (len <=? Z.of_nat MAX_MESSAGE_SIZE) && validate_user_ptr buf len.

(** [recv_timeout] clears its deadline on every way out of the loop. *)
Definition recv_done (cid : nat) (w : RecvWait) (code : Z) : Handler progress :=
  (if rw_timed w then on_sched (fun s => clear_wake_deadline s (current_task_slot s cid)) else M_ret tt) ;;;
  M_ret (Ret code).

Definition now_ticks : Handler Z := ask (fun k => MONOTONIC_TICKS (k_sched k)).

Fixpoint recv_loop (fuel : nat) (cid : nat) (w : RecvWait) : Handler progress :=
  match fuel with
  | O => M_ret Spinning
  | S fuel =>
      my <- my_slot cid ;;
      r <- on_routing (fun r => dequeue r (rw_ep w) (rw_gen w) (Some my)) ;;
      match r with
      | Ok (m, sender) => c <- take_delivery cid (rw_buf w) (rw_len w) m sender ;; recv_done cid w c
      | Err IpcError.QueueEmpty =>
          now <- now_ticks ;;
          if negb (rw_deadline w =? 0) && (rw_deadline w <=? now) then recv_done cid w RECV_TIMED_OUT
          else
            (if rw_deadline w =? 0 then M_ret tt else on_sched (fun s => set_wake_deadline s my (rw_deadline w))) ;;;
            b <- block cid BlockedOnRecv ;;
            match b with
            | Switched _ => M_ret (Wait (WRecv w))
            | Returned err => if err =? 0 then recv_loop fuel cid w else recv_done cid w err
            end
      | Err e => recv_done cid w (ipc_err_to_i64 e)
      end
  end.

(** A wake that came early is consumed in one round; the next blocks. *)
Definition RECV_FUEL : nat := 3.

Definition handle_recv (cid : nat) (cap_slot out_buf out_len : Z) : Handler progress :=
  c <- lookup_cap cid (Z.to_nat cap_slot) Rights.RECV ;;
  guard (buffer_ok out_buf out_len) (-1) ;;;
  recv_loop RECV_FUEL cid (mkRecv (resource_id c) (generation c) out_buf out_len false 0).

Definition handle_try_recv (cid : nat) (cap_slot out_buf out_len : Z) : Handler progress :=
  c <- lookup_cap cid (Z.to_nat cap_slot) Rights.RECV ;;
  guard (buffer_ok out_buf out_len) (-1) ;;;
  my <- my_slot cid ;;
  r <- on_routing (fun r => dequeue r (resource_id c) (generation c) (Some my)) ;;
  match r with
  | Ok (m, sender) => n <- take_delivery cid out_buf out_len m sender ;; M_ret (Ret n)
  | Err IpcError.QueueEmpty => M_ret (Ret TRY_RECV_EMPTY)
  | Err e => M_fail (ipc_err_to_i64 e)
  end.

Definition handle_recv_timeout (ar : Arch) (cid : nat) (packed out_buf timeout : Z) : Handler progress :=
  let buf_len := Z.shiftr packed 16 in
  c <- lookup_cap cid (Z.to_nat (field packed 0 16)) Rights.RECV ;;
  guard (buffer_ok out_buf buf_len) (-1) ;;;
  now <- now_ticks ;;
  let deadline := if timeout =? 0 then 0 else wrap64 (now + cycles_to_ticks (ar_quantum ar) timeout) in
  recv_loop RECV_FUEL cid (mkRecv (resource_id c) (generation c) out_buf buf_len true deadline).

(** [hires_arm] of x86-64 answers [Full], so every sleep takes the tick path. *)
Fixpoint sleep_loop (fuel : nat) (cid : nat) (deadline : Z) : Handler progress :=
  let stop := on_sched (fun s => clear_wake_deadline s (current_task_slot s cid)) ;;; M_ret (Ret 0) in
  match fuel with
  | O => M_ret Spinning
  | S fuel =>
      now <- now_ticks ;;
      if deadline <=? now then stop
      else
        on_sched (fun s => set_wake_deadline s (current_task_slot s cid) deadline) ;;;
        b <- block cid BlockedOnRecv ;;
        match b with
        | Switched _ => M_ret (Wait (WSleep deadline))
        | Returned err => if err =? 0 then sleep_loop fuel cid deadline else stop
        end
  end.

Definition handle_sleep (ar : Arch) (cid : nat) (cycles : Z) : Handler progress :=
  if cycles =? 0 then M_ret (Ret 0)
  else now <- now_ticks ;; sleep_loop RECV_FUEL cid (wrap64 (now + cycles_to_ticks (ar_quantum ar) cycles)).

(** ** Call *)

Definition TICKS_PER_SEC : Z := 100.

Definition call_done (cid : nat) (code : Z) : Handler progress :=
  on_sched (fun s => clear_wake_deadline s (current_task_slot s cid)) ;;; M_ret (Ret code).

(** The wait for the reply.  The buffer's capacity bounds the reply. *)
Fixpoint call_loop (fuel : nat) (cid : nat) (w : CallWait) : Handler progress :=
  match fuel with
  | O => M_ret Spinning
  | S fuel =>
      my <- my_slot cid ;;
      r <- on_routing (fun r => call_dequeue r (cw_recv w) (cw_gen w) (cw_target w) my) ;;
      match r with
      | Ok (m, sender) => c <- take_delivery cid (cw_buf w) (Z.of_nat (cw_cap w)) m sender ;; call_done cid c
      | Err IpcError.QueueEmpty =>
          now <- now_ticks ;;
          if negb (cw_deadline w =? 0) && (cw_deadline w <=? now) then call_done cid RECV_TIMED_OUT
          else
            (if cw_deadline w =? 0 then M_ret tt else on_sched (fun s => set_wake_deadline s my (cw_deadline w))) ;;;
            b <- block cid BlockedOnRecv ;;
            match b with
            | Switched _ => M_ret (Wait (WCall w))
            | Returned err => if err =? 0 then call_loop fuel cid w else call_done cid err
            end
      | Err e => call_done cid (ipc_err_to_i64 e)
      end
  end.

(** The request is out: fix the deadline and wait. *)
Definition call_await (cid : nat) (w : CallWait) : Handler progress :=
  now <- now_ticks ;;
  let deadline := if cw_secs w =? 0 then 0 else wrap64 (now + saturating_mul64 (cw_secs w) TICKS_PER_SEC) in
  call_loop RECV_FUEL cid (mkCall (cw_target w) (cw_recv w) (cw_gen w) (cw_buf w) (cw_cap w) (cw_secs w) deadline).

Definition do_call (cid target_slot reply_slot recv_slot : nat) (buf_ptr req_len deadline_secs : Z) (reply_buf_cap : nat)
    : Handler progress :=
  target <- lookup_cap cid target_slot Rights.SEND ;;
  reply <- lookup_grant cid reply_slot ;;
  rc <- lookup_cap cid recv_slot Rights.RECV ;;
  guard (req_len <=? Z.of_nat MAX_MESSAGE_SIZE) (ipc_err_to_i64 IpcError.MessageTooLarge) ;;;
  guard (validate_user_ptr buf_ptr (Z.max req_len (Z.of_nat reply_buf_cap))) (-1) ;;;
  m <- build_message cid buf_ptr req_len ;;
  let w := mkCall (resource_id target) (resource_id rc) (generation rc) buf_ptr reply_buf_cap deadline_secs 0 in
  my <- my_slot cid ;;
  r <- on_routing (fun r => enqueue r (resource_id target) (embed m reply) (generation target) (Some my)) ;;
  match r with
  | Ok rx => remove_cap cid reply_slot ;;; wake cid rx 0 ;;; call_await cid w
  | Err IpcError.QueueFull =>
      remove_cap cid reply_slot ;;;
      b <- block cid BlockedOnSend ;;
      match b with
      | Switched _ => M_ret (Wait (WCallSend w))
      | Returned err => if err =? 0 then call_await cid w else M_fail err
      end
  | Err e => M_fail (ipc_err_to_i64 e)
  end.

Definition handle_call (cid : nat) (packed buf_ptr recv_len : Z) : Handler progress :=
  do_call cid (Z.to_nat (field packed 0 16)) (Z.to_nat (field packed 16 16)) (Z.to_nat (field recv_len 16 16))
    buf_ptr (field recv_len 0 16) 0 MAX_MESSAGE_SIZE.

Definition reply_capacity (slots : Z) : nat :=
  let c := field slots 24 4 in
  if c =? 0 then MAX_MESSAGE_SIZE else Nat.min (Z.to_nat (Z.shiftl 1 c)) MAX_MESSAGE_SIZE.

Definition handle_call_deadline (cid : nat) (slots buf_ptr len_secs : Z) : Handler progress :=
  do_call cid (Z.to_nat (field slots 0 8)) (Z.to_nat (field slots 8 8)) (Z.to_nat (field slots 16 8))
    buf_ptr (field len_secs 0 16) (field len_secs 16 16) (reply_capacity slots).

(** ** Capabilities *)

Definition ACQUIRE_NAME_NOT_REGISTERED : Z := -20.
Definition ACQUIRE_CAP_TABLE_FULL : Z := -21.

(** A name from user memory, or [-1]. *)
Definition user_name (cid : nat) (name_ptr name_len : Z) : Handler (list Z) :=
  guard (negb (name_len =? 0) && (name_len <=? Z.of_nat PEER_NAME_BYTES)) (-1) ;;;
  b <- read_user cid name_ptr name_len ;;
  match b with
  | Some name => guard (utf8_valid name) (-1) ;;; M_ret name
  | None => M_fail (-1)
  end.

Definition handle_acquire_send_cap (cid : nat) (name_ptr name_len include_grant : Z) : Handler progress :=
  name <- user_name cid name_ptr name_len ;;
  broad <- holds cid ACQUIRE_ANY_RESOURCE Rights.WRITE ;;
  declared <- ask (fun k => task_declares_peer (k_tasks k) (current_task_slot (k_sched k) cid) name) ;;
  guard (broad || declared) (cap_err_to_i64 CapNotHeld) ;;;
  ep <- ask (fun k => lookup_name (k_names k) name) ;;
  match ep with
  | None => M_fail ACQUIRE_NAME_NOT_REGISTERED
  | Some ep =>
      let rights := if negb (include_grant =? 0) && broad then Rights.bitor Rights.SEND Rights.GRANT else Rights.SEND in
      c <- mint_new ep rights ;;
      r <- insert_cap cid c ;;
      match r with Ok slot => M_ret (Ret (Z.of_nat slot)) | Err _ => M_fail ACQUIRE_CAP_TABLE_FULL end
  end.

Definition handle_derive_cap (cid : nat) (held_slot : Z) : Handler progress :=
  c <- lookup_cap cid (Z.to_nat held_slot) Rights.GRANT ;;
  r <- insert_cap cid c ;;
  match r with Ok slot => M_ret (Ret (Z.of_nat slot)) | Err _ => M_fail (-1) end.

Definition handle_query_cap_rights (cid : nat) (slot : Z) : Handler progress :=
  r <- ask (fun k => current_task_read_cap_rights (k_tasks k) cid (Z.to_nat slot)) ;;
  match r with Some r => M_ret (Ret r) | None => M_fail (cap_err_to_i64 CapNotHeld) end.

Definition handle_remove_cap (cid : nat) (slot : Z) : Handler progress :=
  remove_cap cid (Z.to_nat slot) ;;; M_ret (Ret 0).

Definition handle_take_pending_cap (cid : nat) : Handler progress :=
  r <- on_tasks (fun t => pop_pending_recv_cap t cid) ;;
  M_ret (Ret (default (-1) r)).

Definition handle_last_recv_badge (cid : nat) : Handler progress :=
  b <- on_tasks (fun t => take_last_recv_badge t cid) ;; M_ret (Ret (as_i64 b)).

(** ** Delegated resources *)

Definition DELEGATED_RIGHTS : Rights := Rights.bitor (Rights.bitor Rights.READ Rights.WRITE) Rights.GRANT.

Definition on_delegated {A} (f : delegated GRT -> outcome (delegated GRT * A)) : Handler A :=
  run (fun k => '(d, a) ← f (k_delegated k); Done (with_delegated k d, a)).

Definition handle_resource_mint (cid : nat) (rights_bits out_id_ptr : Z) : Handler progress :=
  demand cid RESOURCE_MINT_RESOURCE Rights.WRITE ;;;
  ep <- ask (fun k => current_task_endpoint (k_tasks k) cid) ;;
  match ep with
  | None => M_fail (-1)
  | Some owner =>
      let rights := Z.land (rights_bits mod 256) DELEGATED_RIGHTS in
      id <- on_delegated (fun d => allocate d owner) ;;
      match id with
      | None => M_fail (-1)
      | Some id =>
          c <- mint_new id rights ;;
          r <- insert_cap cid c ;;
          match r with
          | Err _ => on_delegated (fun d => Done (release d id, tt)) ;;; M_fail (-1)
          | Ok slot =>
              ok <- write_user cid out_id_ptr (to_le_bytes 8 id) ;;
              if ok : bool then M_ret (Ret (Z.of_nat slot))
              else remove_cap cid slot ;;; on_delegated (fun d => revoke_owned d id owner) ;;; M_fail (-1)
          end
      end
  end.

Definition handle_resource_invoke (cid : nat) (packed msg_ptr msg_len : Z) : Handler progress :=
  let file_slot := Z.to_nat (field packed 0 12) in
  let reply_slot := Z.to_nat (field packed 12 12) in
  let right_bits := field packed 24 8 in
  file <- lookup_cap cid file_slot right_bits ;;
  guard (is_delegated (resource_id file)) (cap_err_to_i64 CapWrongScope) ;;;
  o <- ask (fun k => owner_of (k_delegated k) (resource_id file)) ;;
  match o with
  | None => M_fail (ipc_err_to_i64 IpcError.EndpointDead)
  | Some owner =>
      reply <- lookup_grant cid reply_slot ;;
      m <- build_message cid msg_ptr msg_len ;;
      g <- ask (fun k => get_generation (k_routing k) owner) ;;
      send_message cid owner g (embed (badge m (resource_id file) right_bits) reply) (Some reply_slot)
  end.

Definition handle_resource_revoke (cid : nat) (id : Z) : Handler progress :=
  ep <- ask (fun k => current_task_endpoint (k_tasks k) cid) ;;
  match ep with
  | None => M_fail (-1)
  | Some owner =>
      ok <- on_delegated (fun d => revoke_owned d id owner) ;;
      M_ret (Ret (if ok : bool then 0 else -1))
  end.

(** ** Death *)

(** [assert_cap_table_consistent] of [invariants/assertions.rs]: no live task
    holds a capability of a generation its resource has not reached. *)
Definition cap_table_consistent (k : Kernel) : bool :=
  forallb (fun c => match get_resource_generation (k_registry k) (resource_id c) with
                    | Some g => generation c <=? g
                    | None => true
                    end) (for_each_active_cap (k_tasks k)).

Definition assert_cap_table_consistent : Handler unit :=
  run (fun k => if cap_table_consistent k then Done (k, tt) else Panic).

Definition do_yield (cid : nat) : Handler unit :=
  tell (fun k => with_tasks k (with_sched (k_tasks k) (yield_current (k_sched k) cid (k_respawn k)).1)).

(** [kill_by_name] always returns ([kill_by_name_terminates]), so the [Panic]
    that stands for its missing answer is never reached. *)
Definition handle_kill (cid : nat) (name_ptr name_len : Z) : Handler progress :=
  demand cid SERVICE_CONTROL_RESOURCE Rights.WRITE ;;;
  name <- user_name cid name_ptr name_len ;;
  my <- my_slot cid ;;
  found <- run (fun k => match kill_by_name k cid name (Killed my) with Some o => o | None => Panic end) ;;
  if found : bool then
    assert_cap_table_consistent ;;;
    dead <- run (fun k => d ← current_task_is_dead (k_sched k) cid; Done (k, d)) ;;
    if dead : bool then do_yield cid ;;; M_ret Gone else M_ret (Ret 0)
  else M_fail (-1).

Definition handle_exit (cid : nat) (status : Z) : Handler progress :=
  my <- my_slot cid ;;
  run (fun k => k ← kill_task_by_slot k cid my (Exited (wrap32 status)); Done (k, tt)) ;;;
  assert_cap_table_consistent ;;;
  do_yield cid ;;;
  M_ret Gone.

(** ** The console *)

Definition with_read_waiter (k : Kernel) (w : Z) : Kernel :=
  mkKernel (k_tasks k) (k_routing k) (k_delegated k) (k_names k) (k_ids k) (k_irq k) (k_generation k) (k_foreground k)
    w (k_screen k) (k_bus_master k) (k_respawn k) (k_unheard k) (k_dropped k).

(** The echo of the byte is output. *)
Definition console_push_byte (cid : nat) (b : Z) : Handler unit :=
  tell_con (fun c => with_rx c (uart_rx_push (con_rx c) b)) ;;;
  tell (fun k => wake_console_waiter k cid).

(** [uart_rx_drain_now] and [uart_rx_pop] *)
Definition drain_and_pop (ar : Arch) : Handler (option Z) :=
  tell_con (fun c => with_rx c (uart_rx_drain_fifo (con_rx c) (ar_fifo ar))) ;;;
  M_outcome (fun y => let (r, b) := uart_rx_pop (con_rx (y_con y)) in
                      Done (mkSys (y_k y) (with_rx (y_con y) r) (y_mem y), b)).

Definition foreground_allows (cid : nat) : Handler bool :=
  ask (fun k => console_foreground_allows k (Z.of_nat (current_task_slot (k_sched k) cid))).

Fixpoint console_read_loop (fuel : nat) (ar : Arch) (cid : nat) : Handler progress :=
  let stop code := tell (fun k => with_read_waiter k u32_max) ;;; M_ret (Ret code) in
  match fuel with
  | O => M_ret Spinning
  | S fuel =>
      ok <- foreground_allows cid ;;
      b <- (if ok : bool then drain_and_pop ar else M_ret None) ;;
      match b with
      | Some b => stop b
      | None =>
          r <- block cid BlockedOnRecv ;;
          match r with
          | Switched _ => M_ret (Wait WConsole)
          | Returned err => if err =? 0 then console_read_loop fuel ar cid else stop err
          end
      end
  end.

Definition handle_console_read (ar : Arch) (cid : nat) (cap_slot : Z) : Handler progress :=
  demand_slot cid (Z.to_nat cap_slot) CONSOLE_READ_RESOURCE Rights.READ ;;;
  my <- my_slot cid ;;
  tell (fun k => with_read_waiter k (Z.of_nat my)) ;;;
  console_read_loop RECV_FUEL ar cid.

Definition NO_CONSOLE_BYTE : Z := 256.

Definition handle_try_console_read (ar : Arch) (cid : nat) (cap_slot : Z) : Handler progress :=
  demand_slot cid (Z.to_nat cap_slot) CONSOLE_READ_RESOURCE Rights.READ ;;;
  ok <- foreground_allows cid ;;
  if negb ok then M_ret (Ret NO_CONSOLE_BYTE)
  else b <- drain_and_pop ar ;; M_ret (Ret (default NO_CONSOLE_BYTE b)).

Definition handle_console_foreground (cid : nat) (cap_slot op : Z) : Handler progress :=
  demand_slot cid (Z.to_nat cap_slot) CONSOLE_READ_RESOURCE Rights.READ ;;;
  (if op =? 0 then tell (fun k => release_console_foreground k cid) ;;; console_push_byte cid 10
   else tell (fun k => claim_console_foreground k (Z.of_nat (current_task_slot (k_sched k) cid)))) ;;;
  M_ret (Ret 0).

Definition handle_console_echo (cid : nat) (cap_slot on : Z) : Handler progress :=
  demand_slot cid (Z.to_nat cap_slot) CONSOLE_READ_RESOURCE Rights.READ ;;;
  tell_con (fun c => set_console_echo c (negb (on =? 0))) ;;; M_ret (Ret 0).

Definition handle_console_boot_complete (cid : nat) (cap_slot : Z) : Handler progress :=
  demand_slot cid (Z.to_nat cap_slot) CONSOLE_READ_RESOURCE Rights.READ ;;;
  tell_con console_boot_complete ;;; M_ret (Ret 0).

Definition handle_signal_input_ready (cid : nat) (cap_slot : Z) : Handler progress :=
  demand_slot cid (Z.to_nat cap_slot) CONSOLE_PUSH_RESOURCE Rights.WRITE ;;;
  tell_con set_input_ready ;;; M_ret (Ret 0).

Definition handle_console_push (cid : nat) (cap_slot byte : Z) : Handler progress :=
  demand_slot cid (Z.to_nat cap_slot) CONSOLE_PUSH_RESOURCE Rights.WRITE ;;;
  console_push_byte cid (byte mod 256) ;;; M_ret (Ret 0).

(** The text of a log or console write, checked. *)
Definition user_text (cid : nat) (ptr len : Z) : Handler (list Z) :=
  guard (negb (len =? 0) && (len <=? 256)) (-1) ;;;
  b <- read_user cid ptr len ;;
  match b with Some b => M_ret b | None => M_fail (-1) end.

(** [Log] and [Print], which differ in the newline they print. *)
Definition handle_log (cid : nat) (cap_slot msg_ptr msg_len : Z) : Handler progress :=
  demand_slot cid (Z.to_nat cap_slot) LOG_WRITE_RESOURCE Rights.WRITE ;;;
  b <- user_text cid msg_ptr msg_len ;;
  M_ret (Ret (if utf8_valid b then 0 else -1)).

Definition deliver_to_console_service (cid : nat) (bytes : list Z) : Handler progress :=
  my <- my_slot cid ;;
  kind <- ask (fun k => task_hw_kind (k_tasks k) my) ;;
  if kind =? FRAMEBUFFER then M_ret (Ret 0)
  else
    ep <- ask (fun k => live_endpoint_of_kind (k_tasks k) FRAMEBUFFER) ;;
    match ep, Message.new bytes with
    | Some ep, Ok m =>
        r <- on_routing (fun r => enqueue_from_kernel_blocking r ep m my) ;;
        match r with
        | Ok rx => wake cid rx 0 ;;; M_ret (Ret 0)
        | Err IpcError.QueueFull => block_return cid BlockedOnSend WSend
        | Err _ => M_ret (Ret 0)
        end
    | _, _ => M_ret (Ret 0)
    end.

Definition handle_console_write (cid : nat) (cap_slot msg_ptr msg_len : Z) : Handler progress :=
  demand_slot cid (Z.to_nat cap_slot) LOG_WRITE_RESOURCE Rights.WRITE ;;;
  b <- user_text cid msg_ptr msg_len ;;
  ok <- foreground_allows cid ;;
  if ok : bool then deliver_to_console_service cid b else M_ret (Ret 0).

(** ** Introspection *)

Definition STAT_SIZE : nat := 176.

Definition stat_bytes (s : TaskStatRaw) (uptime : Z) : list Z :=
  let name := take 128 (ts_name s) in
  [Z.b2z (ts_valid s); ts_state s; Z.of_nat (ts_core s) mod 256; ts_queue_depth s] ++
  to_le_bytes 4 (Z.of_nat (length name)) ++ to_le_bytes 8 (ts_mem_used s) ++ to_le_bytes 8 (ts_mem_limit s) ++
  name ++ replicate (128 - length name) 0 ++
  to_le_bytes 8 (ts_restart_count s) ++ to_le_bytes 8 (ts_run_ticks s) ++ to_le_bytes 8 uptime.

Definition handle_task_stat (ar : Arch) (cid : nat) (slot buf_ptr buf_len : Z) : Handler progress :=
  demand cid INTROSPECT_RESOURCE Rights.READ ;;;
  guard (Z.of_nat STAT_SIZE <=? buf_len) (-1) ;;;
  guard (validate_user_ptr buf_ptr (Z.of_nat STAT_SIZE)) (-1) ;;;
  s <- ask (fun k => task_stat (k_tasks k) (k_routing k) (Z.to_nat slot)) ;;
  ok <- write_user cid buf_ptr (stat_bytes s (ar_uptime ar (Z.to_nat slot))) ;;
  M_ret (Ret (if ok : bool then 0 else -1)).

Definition cap_entry (c : Capability) : list Z := to_le_bytes 8 (resource_id c) ++ [rights c] ++ replicate 7 0.

Definition handle_task_caps (cid : nat) (slot buf_ptr buf_len : Z) : Handler progress :=
  demand cid INTROSPECT_RESOURCE Rights.READ ;;;
  let cap := Z.min (buf_len / 16) 64 in
  if cap =? 0 then M_ret (Ret 0)
  else
    l <- ask (fun k => take (Z.to_nat cap) (for_each_cap_of (k_tasks k) (Z.to_nat slot))) ;;
    let bytes := mjoin (cap_entry <$> l) in
    guard (validate_user_ptr buf_ptr (Z.of_nat (length bytes))) (-1) ;;;
    ok <- write_user cid buf_ptr bytes ;;
    M_ret (Ret (if ok : bool then Z.of_nat (length l) else -1)).

(** The queries that need no capability. *)
Definition UNGATED : list Z := [0; 3; 10; 11; 12; 13; 14; 15; 16; 17; 18; 19; 20; 21; 23; 28].

Definition inspect_boot_record (ar : Arch) (cid : nat) (arg1 arg2 : Z) : Handler progress :=
  if arg2 =? 0 then
    M_ret (Ret (if arg1 =? 0 then Z.of_nat (RingBuffer.boot_len (ar_boot_record ar))
                else if arg1 =? 1 then Z.of_nat BOOT_RECORD_SIZE else -1))
  else
    match RingBuffer.boot_record_read (ar_boot_record ar) (Z.to_nat arg1) BOOT_READ_CHUNK with
    | [] => M_ret (Ret 0)
    | chunk => ok <- write_user cid arg2 chunk ;; M_ret (Ret (if ok : bool then Z.of_nat (length chunk) else -1))
    end.

Definition inspect_generation (cid : nat) (arg1 arg2 : Z) : Handler progress :=
  name <- user_name cid arg1 arg2 ;;
  ep <- ask (fun k => lookup_name (k_names k) name) ;;
  match ep with
  | None => M_fail (-1)
  | Some ep => g <- ask (fun k => default Generation.INITIAL (get_resource_generation (k_registry k) ep)) ;;
               M_ret (Ret (as_i64 g))
  end.

(** The answers the kernel's state gives; the others are the machine's. *)
Definition handle_inspect_kernel (ar : Arch) (cid : nat) (query arg1 arg2 : Z) : Handler progress :=
  (if bool_decide (query ∈ UNGATED) then M_ret tt else demand cid INTROSPECT_RESOURCE Rights.READ) ;;;
  let answer f := v <- ask f ;; M_ret (Ret (as_i64 v)) in
  let slot := Z.to_nat arg1 in
  if query =? 0 then answer (fun k => current_task_alloc_bytes (k_tasks k) cid)
  else if query =? 1 then answer (fun k => Z.of_nat (count_live_endpoints (k_routing k)))
  else if query =? 2 then inspect_generation cid arg1 arg2
  else if query =? 3 then M_ret (Ret (as_i64 (ar_tsc ar)))
  else if query =? 6 then answer (fun k => c_active_ticks (core_at (k_sched k) slot))
  else if query =? 7 then answer (fun k => c_total_ticks (core_at (k_sched k) slot))
  else if query =? 10 then ok <- M_gets (fun y => con_input_ready (y_con y)) ;; M_ret (Ret (Z.b2z ok))
  else if query =? 13 then ok <- foreground_allows cid ;; M_ret (Ret (Z.b2z ok))
  else if query =? 24 then answer (fun k => ts_endpoint (task_stat (k_tasks k) (k_routing k) slot))
  else if query =? 25 then answer (fun k => call_await_endpoint (k_routing k) slot)
  else if query =? 27 then inspect_boot_record ar cid arg1 arg2
  else if query =? 28 then answer (fun k => match power_pending (k_sched k) with
                                            | Some (secs, reboot) => secs * 2 + Z.b2z reboot
                                            | None => -1
                                            end)
  else if bool_decide (query ∈ [4; 5; 8; 11; 12; 14; 15; 16; 17; 18; 19; 20; 21; 23; 26]) then M_ret (Ret (ar_query ar query))
  else M_ret (Ret (-1)).

(** ** Memory, interrupts, power and devices *)

(** The pages are zeroed and mapped one by one; [ar_unmapped] is the one that
    cannot be, if it is among them. *)
Definition handle_alloc_mem (ar : Arch) (cid : nat) (size : Z) : Handler progress :=
  guard (negb (size =? 0)) (-1) ;;;
  va <- on_tasks (fun t => current_task_claim_alloc t cid size) ;;
  match va with
  | None => M_fail (-11)
  | Some va =>
      let pages := wrap64 (size + 4095) / 4096 in
      M_ret (Ret (match ar_unmapped ar with
                  | Some i => if i <? pages then -1 else as_i64 va
                  | None => as_i64 va
                  end))
  end.

Definition handle_irq_unmask (cid : nat) (irq : Z) : Handler progress :=
  let irq := irq mod 256 in
  ep <- ask (fun k => current_task_endpoint (k_tasks k) cid) ;;
  owner <- ask (fun k => registered_endpoint (k_irq k) (Z.to_nat irq)) ;;
  guard (bool_decide (is_Some ep /\ owner = ep)) (cap_err_to_i64 CapNotHeld) ;;;
  tell (fun k => with_irq k (unmask_vector (k_irq k) irq)) ;;; M_ret (Ret 0).

Definition handle_fire_irq (cid : nat) (irq : Z) : Handler progress :=
  demand cid FIRE_IRQ_RESOURCE Rights.WRITE ;;;
  guard (irq <=? u8_max) (-1) ;;;
  tell (fun k => let '(i, r, s, _) := deliver_irq (k_irq k) (k_routing k) (k_sched k) cid (Z.to_nat irq) in
                 with_irq (with_routing (with_tasks k (with_sched (k_tasks k) s)) r) i) ;;;
  M_ret (Ret 0).

Definition handle_reboot (cid : nat) : Handler progress :=
  demand cid REBOOT_RESOURCE Rights.WRITE ;;; M_ret Halted.

Definition power_code (c : PowerChange) : Z :=
  match c with PowerDone => 0 | Unchanged => 1 | OtherKind => 2 end.

Definition on_power (f : Sched -> Sched * PowerChange) : Handler progress :=
  run (fun k => let (s, c) := f (k_sched k) in Done (with_tasks k (with_sched (k_tasks k) s), Ret (power_code c))).

Definition handle_power_off (cid : nat) (op secs : Z) : Handler progress :=
  let reboot := (op =? 3) || (op =? 4) in
  demand cid (if reboot then REBOOT_RESOURCE else POWER_OFF_RESOURCE) Rights.WRITE ;;;
  if op =? 0 then M_ret Halted
  else if (op =? 1) || (op =? 3) then
    if (secs =? 0) || (POWER_OFF_MAX_SECS <? secs) then M_fail (-1) else on_power (fun s => power_arm s secs reboot)
  else if (op =? 2) || (op =? 4) then on_power (fun s => power_disarm s reboot)
  else M_ret (Ret (-1)).

(** The stubs of the x86-64 port: no device of theirs exists, so each call is
    its guard and a fixed answer. *)
Definition handle_device_power (cid : nat) : Handler progress :=
  demand cid DEVICE_POWER_RESOURCE Rights.WRITE ;;; M_ret (Ret (-1)).
Definition handle_cpu_clock (cid : nat) : Handler progress :=
  demand cid CPU_CLOCK_RESOURCE Rights.WRITE ;;; M_ret (Ret (-1)).

Definition handle_pci_cfg_read (ar : Arch) (cid : nat) (sel offset : Z) : Handler progress :=
  demand cid PCI_CFG_RESOURCE Rights.READ ;;;
  M_ret (Ret (default (-1) (ar_pci ar (wrap32 sel) (offset mod 65536)))).

Definition NET_FRAME_MAX : Z := 1600.

Definition handle_net_frame_tx (cid : nat) (ptr len : Z) : Handler progress :=
  demand cid NET_DEVICE_RESOURCE Rights.WRITE ;;; M_ret (Ret (-1)).
Definition handle_net_frame_rx (cid : nat) (max : Z) : Handler progress :=
  demand cid NET_DEVICE_RESOURCE Rights.WRITE ;;; M_ret (Ret (if Z.min max NET_FRAME_MAX =? 0 then -1 else 0)).
Definition handle_net_info (cid : nat) : Handler progress :=
  demand cid NET_DEVICE_RESOURCE Rights.WRITE ;;; M_ret (Ret 0).
Definition handle_gpio (cid : nat) : Handler progress :=
  demand cid GPIO_DEVICE_RESOURCE Rights.WRITE ;;; M_ret (Ret (-1)).

Definition USB_DISK_ABSENT : Z := -21.
Definition USB_DISK_BLOCK : Z := 512.

Definition handle_usb_disk_info (cid : nat) : Handler progress :=
  demand cid USB_DISK_RESOURCE Rights.WRITE ;;; M_ret (Ret 0).
Definition handle_usb_disk_read (cid : nat) : Handler progress :=
  demand cid USB_DISK_RESOURCE Rights.WRITE ;;; M_ret (Ret USB_DISK_ABSENT).
Definition handle_usb_disk_write (cid : nat) (ptr : Z) : Handler progress :=
  demand cid USB_DISK_RESOURCE Rights.WRITE ;;;
  b <- read_user cid ptr USB_DISK_BLOCK ;;
  M_ret (Ret (match b with Some _ => USB_DISK_ABSENT | None => -1 end)).
Definition handle_usb_disk_flush (cid : nat) : Handler progress :=
  demand cid USB_DISK_RESOURCE Rights.WRITE ;;; M_ret (Ret (-1)).

Definition spawn_image (ar : Arch) (cid : nat) (req_ptr req_len spawn_cap_slot : Z) : Handler progress :=
  M_outcome (fun y =>
    '(k, code) ← handle_spawn_image (ar_machine ar) (ar_spawn ar)
                   (fun _ => y_mem y (current_task_slot (k_sched (y_k y)) cid)) cid req_ptr req_len
                   (Z.to_nat spawn_cap_slot) (y_k y);
    Done (put k y, Ret code)).

(** ** The dispatcher *)

Definition dispatch (ar : Arch) (cid : nat) (number a0 a1 a2 : Z) : Handler progress :=
  match number with
  | 1 => handle_send cid a0 a1 a2
  | 2 => handle_recv cid a0 a1 a2
  | 3 => handle_try_send cid a0 a1 a2
  | 4 => do_yield cid ;;; M_ret Yielded
  | 5 | 22 => handle_log cid a0 a1 a2
  | 6 => handle_alloc_mem ar cid a0
  | 8 => handle_kill cid a0 a1
  | 10 => handle_acquire_send_cap cid a0 a1 a2
  | 11 => handle_send_with_cap cid a0 a1 a2
  | 12 => handle_take_pending_cap cid
  | 13 => handle_inspect_kernel ar cid a0 a1 a2
  | 14 => handle_query_cap_rights cid a0
  | 15 => handle_remove_cap cid a0
  | 16 => handle_task_stat ar cid a0 a1 a2
  | 17 => handle_console_read ar cid a0
  | 18 => handle_reboot cid
  | 20 => handle_console_push cid a0 a1
  | 21 => block_return cid BlockedOnRecv WPark
  | 23 => handle_console_write cid a0 a1 a2
  | 24 => handle_try_console_read ar cid a0
  | 25 => handle_console_echo cid a0 a1
  | 26 => handle_console_boot_complete cid a0
  | 27 => handle_signal_input_ready cid a0
  | 28 => handle_task_caps cid a0 a1 a2
  | 29 => handle_derive_cap cid a0
  | 30 => handle_resource_mint cid a0 a1
  | 31 => handle_resource_invoke cid a0 a1 a2
  | 32 => handle_resource_revoke cid a0
  | 33 => handle_last_recv_badge cid
  | 34 => handle_try_recv cid a0 a1 a2
  | 35 => handle_recv_timeout ar cid a0 a1 a2
  | 36 => handle_irq_unmask cid a0
  | 37 => handle_sleep ar cid a0
  | 40 => handle_console_foreground cid a0 a1
  | 41 => handle_call cid a0 a1 a2
  | 42 => handle_net_frame_tx cid a0 a1
  | 43 => handle_net_frame_rx cid a1
  | 44 => handle_net_info cid
  | 45 => handle_gpio cid
  | 46 => handle_usb_disk_info cid
  | 47 => handle_usb_disk_read cid
  | 48 => handle_usb_disk_write cid a1
  | 49 => handle_usb_disk_flush cid
  | 50 => handle_call_deadline cid a0 a1 a2
  | 51 => handle_fire_irq cid a0
  | 52 => spawn_image ar cid a0 a1 a2
  | 53 => handle_pci_cfg_read ar cid a0 a1
  | 54 => handle_device_power cid
  | 55 => handle_cpu_clock cid
  | 56 => handle_power_off cid a0 a1
  | 57 => handle_exit cid a0
  | _ => M_ret (Ret (-1))
  end.

(** An early return is the call's result like any other. *)
Definition finish {A} (code : Z -> A) (m : Handler A) (y : Sys) : outcome (Sys * A) :=
  '(y, r) ← m y; Done (y, match r with Ok a => a | Err e => code e end).

Definition syscall_handler (ar : Arch) (cid : nat) (number a0 a1 a2 : Z) (y : Sys) : outcome (Sys * progress) :=
  finish Ret (dispatch ar cid number a0 a1 a2) y.

(** The rest of a call whose task runs again on [cid]. *)
Definition resume_wait (ar : Arch) (cid : nat) (w : Waiting) : Handler progress :=
  err <- ask (fun k => resume_result (k_sched k) (current_task_slot (k_sched k) cid)) ;;
  match w with
  | WSend | WPark => M_ret (Ret err)
  | WRecv w => if err =? 0 then recv_loop RECV_FUEL cid w else recv_done cid w err
  | WCallSend w => if err =? 0 then call_await cid w else M_fail err
  | WCall w => if err =? 0 then call_loop RECV_FUEL cid w else call_done cid err
  | WSleep d => if err =? 0 then sleep_loop RECV_FUEL cid d
                else on_sched (fun s => clear_wake_deadline s (current_task_slot s cid)) ;;; M_ret (Ret 0)
  | WConsole => if err =? 0 then console_read_loop RECV_FUEL ar cid
                else tell (fun k => with_read_waiter k u32_max) ;;; M_ret (Ret err)
  end.

Definition resume (ar : Arch) (cid : nat) (w : Waiting) (y : Sys) : outcome (Sys * progress) :=
  finish Ret (resume_wait ar cid w) y.
