(* ===== verification/Confine.v ===== *)
(** * What a system call can do

    The authority that reaches a task through the calls of [Syscalls]: where
    every capability in its table can come from, which messages it can put into
    a queue and with what sender, badge and capabilities, and that it changes
    no other task's table, memory or resources. *)

From S2P Require Import Prelude Prog Capability CapTable Delegated Queue Console Routing Names Sched TaskData Interrupt.
From S2P Require Import Kernel Abi PageTables Loader Spawn SpawnImage Syscalls.

(** The same tasks are alive. *)
Record same_life (s s' : Sched) : Prop := mk_same_life {
  sl_length : length (tasks s') = length (tasks s);
  sl_valid : forall j, t_valid (task_at s' j) = t_valid (task_at s j);
  sl_dead : forall j, t_state (task_at s' j) = Dead <-> t_state (task_at s j) = Dead
}.

#[export] Instance same_life_preorder : PreOrder same_life.
Proof.
  split; [by intros s; split|]. intros s1 s2 s3 [L1 V1 D1] [L2 V2 D2].
  split; [congruence|intros j; by rewrite V2|intros j; by rewrite D2].
Qed.

(** The messages waiting at an endpoint. *)
Definition backlog_of (r : RoutingState) (ep : Z) : list Message :=
  match lookup_entry r ep with Some e => backlog e | None => [] end.

(** A capability in a task's table. *)
Definition in_table (k : Kernel) (j : nat) (c : Capability) : Prop := Some c ∈ d_caps (data_at (k_tasks k) j).

Definition carried (k : Kernel) (ep : Z) (c : Capability) : Prop :=
  exists m, m ∈ backlog_of (k_routing k) ep /\ Some c ∈ caps m.

(** A change that leaves the owners of names, endpoints and slots alone. *)
Record keeps (k k' : Kernel) : Prop := mk_keeps {
  kp_base : base_wf k';
  kp_life : same_life (k_sched k) (k_sched k');
  kp_data : forall j, d_endpoint (data_at (k_tasks k') j) = d_endpoint (data_at (k_tasks k) j) /\
    d_reply_endpoint (data_at (k_tasks k') j) = d_reply_endpoint (data_at (k_tasks k) j);
  kp_rows : task_names (k_tasks k') = task_names (k_tasks k);
  kp_peers : task_peers (k_tasks k') = task_peers (k_tasks k);
  kp_names : k_names k' = k_names k;
  kp_ids : k_ids k' = k_ids k;
  kp_generation : k_generation k' = k_generation k
}.

Section Caller.
Context (k : Kernel) (cid : nat).

Definition caller : nat := current_task_slot (k_sched k) cid.

(** The caller's slot [s] holds a live capability with the right. *)
Definition has (s : nat) (right : Rights) (c : Capability) : Prop :=
  current_task_lookup_cap (k_registry k) (k_tasks k) cid s right = Ok c.

Definition privileged (rid : ResourceId) (right : Rights) : Prop :=
  current_task_holds_resource (k_tasks k) cid rid right = true.

Definition own_endpoint : option Z := current_task_endpoint (k_tasks k) cid.

(** Every capability a message carries is one the caller may transfer. *)
Definition transfers (m : Message) : Prop := forall c, Some c ∈ caps m -> exists s, has s Rights.GRANT c.

(** A message the kernel made. *)
Definition anonymous (m : Message) : Prop :=
  badge_id m = 0 /\ sender_ep m = 0 /\ forall c, Some c ∉ caps m.

(** The messages the caller can have put into the queue of [ep]: with a live
    SEND capability to it, stamped with its own endpoint and without a badge;
    by using a delegated resource whose owner is [ep], with that resource and
    the right it was checked for as the badge; as console output; or as a
    test interrupt. *)
Inductive sends (ep : Z) (m : Message) : Prop :=
| sends_direct s c :
    has s Rights.SEND c -> resource_id c = ep -> badge_id m = 0 -> sender_ep m = default 0 own_endpoint ->
    transfers m -> sends ep m
| sends_invoke s c :
    has s (badge_right m) c -> resource_id c = badge_id m -> owner_of (k_delegated k) (badge_id m) = Some ep ->
    sender_ep m = default 0 own_endpoint -> transfers m -> sends ep m
| sends_console s c :
    has s Rights.WRITE c -> resource_id c = LOG_WRITE_RESOURCE ->
    live_endpoint_of_kind (k_tasks k) FRAMEBUFFER = Some ep -> anonymous m -> sends ep m
| sends_interrupt irq :
    privileged FIRE_IRQ_RESOURCE Rights.WRITE -> registered_endpoint (k_irq k) irq = Some ep ->
    m = Message.interrupt_event (Z.of_nat irq) -> sends ep m.

(** The endpoints the caller may receive from. *)
Definition receives (ep : Z) : Prop := exists s c, has s Rights.RECV c /\ resource_id c = ep.

(** Where a capability in the caller's table can come from, if it may receive
    from [ports]. *)
Inductive source (ports : Z -> Prop) (c : Capability) : Prop :=
| source_held : in_table k caller c -> source ports c
| source_received ep : ports ep -> carried k ep c -> source ports c
| source_acquired name :
    lookup_name (k_names k) name = Some (resource_id c) -> mint_cap (k_registry k) (resource_id c) (rights c) = Done c ->
    (rights c = Rights.SEND /\ task_declares_peer (k_tasks k) caller name = true) \/
    (privileged ACQUIRE_ANY_RESOURCE Rights.WRITE /\ rights_le (rights c) (Rights.bitor Rights.SEND Rights.GRANT)) ->
    source ports c
| source_minted :
    privileged RESOURCE_MINT_RESOURCE Rights.WRITE -> is_Some own_endpoint ->
    is_delegated (resource_id c) = true -> owner_of (k_delegated k) (resource_id c) = None ->
    rights_le (rights c) DELEGATED_RIGHTS -> source ports c.

(** A resource the caller may retire or take into use: its own or a free one. *)
Definition at_disposal (id : ResourceId) : Prop :=
  is_delegated id = true /\ (owner_of (k_delegated k) id = None \/ owner_of (k_delegated k) id = own_endpoint).

End Caller.

(** What a call may have done between [y0] and [y]. *)
Record bounded (y0 : Sys) (cid : nat) (ports : Z -> Prop) (y : Sys) : Prop := mk_bounded {
  bd_keeps : keeps (y_k y0) (y_k y);
  bd_tables : forall j, j <> caller (y_k y0) cid -> d_caps (data_at (k_tasks (y_k y)) j) = d_caps (data_at (k_tasks (y_k y0)) j);
  bd_mine : forall c, in_table (y_k y) (caller (y_k y0) cid) c -> exists c0, cap_le c c0 /\ source (y_k y0) cid ports c0;
  bd_messages : forall ep m, m ∈ backlog_of (k_routing (y_k y)) ep ->
    m ∈ backlog_of (k_routing (y_k y0)) ep \/ sends (y_k y0) cid ep m;
  bd_kept : forall ep m, m ∈ backlog_of (k_routing (y_k y0)) ep ->
    m ∈ backlog_of (k_routing (y_k y)) ep \/ ports ep \/ exists m', sends (y_k y0) cid ep m';
  bd_memory : forall j, j <> caller (y_k y0) cid -> y_mem y j = y_mem y0 j;
  bd_records : forall id, 0 <= id -> ~ at_disposal (y_k y0) cid id ->
    GlobalResourceTable.get_record (k_registry (y_k y)) id = GlobalResourceTable.get_record (k_registry (y_k y0)) id;
  bd_owners : forall id, ~ at_disposal (y_k y0) cid id ->
    owner_of (k_delegated (y_k y)) id = owner_of (k_delegated (y_k y0)) id
}.

(** ** Lives kept by the scheduler *)

Module LifeFacts.
Import SchedFacts.

Lemma life_tasks (s s' : Sched) : tasks s' = tasks s -> same_life s s'.
Proof. intros H. split; unfold task_at; by rewrite H. Qed.

Lemma life_upd_core (s : Sched) (c : nat) (f : CoreState -> CoreState) : same_life s (upd_core s c f).
Proof. by apply life_tasks. Qed.

Lemma life_upd_task (s : Sched) (i : nat) (f : TaskSlot -> TaskSlot) :
  t_valid (f (task_at s i)) = t_valid (task_at s i) ->
  (t_state (f (task_at s i)) = Dead <-> t_state (task_at s i) = Dead) -> same_life s (upd_task s i f).
Proof.
  intros Hv Hd. split; [apply length_tasks_upd| |]; intros j; rewrite task_at_upd; by case_decide as H; [destruct H as [<- _]|].
Qed.

Lemma life_cas (s : Sched) (i : nat) (from to : TaskState) :
  from <> Dead -> to <> Dead -> same_life s (cas_state s i from to).1.
Proof.
  intros Hf Ht. unfold cas_state. case_bool_decide as H; [|done]. apply life_upd_task; [done|]. simpl. by rewrite H.
Qed.

Lemma life_wake (s : Sched) (my i : nat) (r : Z) : same_life s (wake_by_slot s my i r).1.
Proof.
  unfold wake_by_slot. case_match; [done|]. case_bool_decide as Hd; [done|]. set (s1 := upd_task s i _).
  assert (same_life s s1) as H1 by (apply life_upd_task; done). case_match; [done|].
  etrans; [exact H1|apply life_upd_core].
Qed.

Lemma tasks_rr_scan (s : Sched) (c : nat) : tasks (rr_scan s c).1 = tasks s.
Proof. unfold rr_scan. by case_match. Qed.

Lemma life_pick_next (s : Sched) (c : nat) : same_life s (pick_next s c).1.
Proof.
  apply life_tasks. unfold pick_next. case_match; [|apply tasks_rr_scan]. case_match; [done|].
  by rewrite tasks_rr_scan.
Qed.

Lemma life_release (s : Sched) (c to : nat) : same_life s (core_release_current s c to).
Proof. by apply life_tasks. Qed.

Lemma life_claim_next (s : Sched) (c next : nat) : same_life s (claim_next s c next).1.
Proof.
  unfold claim_next. pose proof (life_cas s next Ready Running) as H. destruct (cas_state s next Ready Running) as [s1 []];
    [|by apply H]. etrans; [by apply H|apply life_release].
Qed.

Lemma life_deadline (s : Sched) (i : nat) (d : Z) : same_life s (set_wake_deadline s i d).
Proof. unfold set_wake_deadline. case_match; [|done]. by apply life_upd_task. Qed.

Lemma life_clear_deadline (s : Sched) (i : nat) : same_life s (clear_wake_deadline s i).
Proof. apply (life_deadline s i 0). Qed.

Lemma life_power_arm (s : Sched) (secs : Z) (b : bool) : same_life s (power_arm s secs b).1.
Proof. apply life_tasks. unfold power_arm. by repeat case_match. Qed.

Lemma life_power_disarm (s : Sched) (b : bool) : same_life s (power_disarm s b).1.
Proof. apply life_tasks. unfold power_disarm. by repeat case_match. Qed.

#[export] Hint Resolve life_upd_core life_wake life_pick_next life_release life_claim_next life_deadline
  life_clear_deadline life_power_arm life_power_disarm : gs.

Lemma life_account (s : Sched) (c prev : nat) : same_life s (account s c prev).
Proof. unfold account. case_match; [etrans; [apply life_upd_core|by apply life_upd_task]|apply life_upd_core]. Qed.

Lemma life_demote (s : Sched) (prev : nat) : same_life s (demote s prev).
Proof. unfold demote. case_match; [by apply life_cas|done]. Qed.

Lemma life_restore (s : Sched) (prev : nat) : same_life s (restore s prev).
Proof. unfold restore. case_match; [by apply life_cas|done]. Qed.

Lemma life_reschedule (s : Sched) (c prev : nat) (pending : bool) : same_life s (reschedule s c prev pending).1.
Proof.
  unfold reschedule. pose proof (life_pick_next s c) as Hp. destruct (pick_next s c) as [s1 [next|]]; simpl in Hp.
  - pose proof (life_claim_next s1 c next) as Hn.
    destruct (claim_next s1 c next) as [s2 ok]. simpl in Hn. etrans; [exact Hp|].
    destruct (_ && _); [destruct (_ <=? _)%nat; [done|apply life_release]|].
    destruct (_ =? _)%nat; [by apply life_cas|]. etrans; [exact Hn|].
    destruct ok; [done|]. destruct (_ <=? _)%nat; apply life_release.
  - case_match; simpl; (etrans; [exact Hp|]); [apply life_release|apply life_restore].
Qed.

Lemma life_yield (s : Sched) (c : nat) (pending : bool) : same_life s (yield_current s c pending).1.
Proof.
  unfold yield_current. etrans; [|apply life_reschedule]. etrans; [|apply life_demote].
  etrans; [|apply life_account]. apply life_upd_core.
Qed.

(** A block that returns at once leaves the core with its task. *)
Lemma life_block (s : Sched) (c : nat) (st : TaskState) (s' : Sched) (r : block_result) :
  st <> Dead -> block_and_reschedule s c st = Done (s', r) ->
  same_life s s' /\ (forall code, r = Returned code -> current_task_slot s' c = current_task_slot s c).
Proof.
  intros Hst. unfold block_and_reschedule. set (s1 := core_finished_leaving s c).
  assert (same_life s s1) as H1 by apply life_upd_core.
  assert (current_task_slot s1 c = current_task_slot s c) as Hc by apply (sc_current _ _ (finished_claims s c)).
  set (slot := current_task_slot s1 c). case_match; [done|]. case_match.
  { intros [= <- <-]. split; [|done]. etrans; [exact H1|by apply life_upd_task]. }
  pose proof (life_cas s1 slot Running st) as H2. pose proof (cas_claims s1 slot c Running st) as [Hc2 _].
  destruct (cas_state s1 slot Running st) as [s2 []]; simpl in *; cycle 1.
  { intros [= <- <-]. split; [etrans; [exact H1|by apply H2]|]. intros _ _. by rewrite Hc2. }
  pose proof (life_pick_next s2 c) as H3. destruct (pick_next s2 c) as [s3 [next|]]; simpl in *.
  - pose proof (life_claim_next s3 c next) as H4. destruct (claim_next s3 c next) as [s4 []]; simpl in *;
      intros [= <- <-]; (split; [|done]); (etrans; [exact H1|]); (etrans; [by apply H2|]); (etrans; [exact H3|]);
      [exact H4|]. etrans; [exact H4|apply life_release].
  - intros [= <- <-]. split; [|done]. etrans; [exact H1|]. etrans; [by apply H2|]. etrans; [exact H3|apply life_release].
Qed.

Lemma life_run (s : Sched) (c : nat) : same_life s (run_once s c).1.
Proof.
  unfold run_once. set (s1 := core_finished_leaving s c). assert (same_life s s1) as H1 by apply life_upd_core.
  pose proof (life_pick_next s1 c) as H2. destruct (pick_next s1 c) as [s2 [next|]]; cbn in H2; [|by etrans].
  pose proof (life_claim_next s2 c next) as H3. destruct (claim_next s2 c next) as [s3 []]; cbn in H3;
    (etrans; [exact H1|]); (etrans; [exact H2|]); [done|]. etrans; [exact H3|apply life_release].
Qed.

Lemma life_expired (now : Z) (l : list nat) (s : Sched) (ipis : list nat) :
  same_life s (foldl (wake_expired now) (s, ipis) l).1.
Proof.
  revert s ipis. induction l as [|i l IH]; intros s ipis; [done|]. cbn [foldl].
  assert (same_life s (wake_expired now (s, ipis) i).1) as H1.
  { unfold wake_expired. case_match; [|done]. set (s1 := upd_task s i _). pose proof (life_wake s1 0 i 0) as Hw.
    destruct (wake_by_slot s1 0 i 0) as [s2 ipi]. etrans; [|exact Hw]. by apply life_upd_task. }
  destruct (wake_expired now (s, ipis) i) as [s1 ipis1]. etrans; [exact H1|apply IH].
Qed.

Lemma life_tick (s : Sched) (c : nat) (p1 p2 : bool) (s' : Sched) (sw : switch) :
  timer_tick_from_irq s c p1 p2 = Some (s', sw) -> same_life s s'.
Proof.
  unfold timer_tick_from_irq. set (s1 := core_finished_leaving s c).
  assert (same_life s s1) as H1 by apply life_upd_core.
  assert (forall s2 ipis, (if (c =? 0)%nat then scan_timed_wakes s1 else Ticked s1 []) = Ticked s2 ipis -> same_life s s2) as H2.
  { intros s2 ipis. case_match; [|by intros [= <- <-]]. unfold scan_timed_wakes. cbn zeta.
    set (s3 := mkSched _ _ _ _). case_match; [by case_match|].
    pose proof (life_expired (wrap64 (MONOTONIC_TICKS s1 + 1)) (seq 0 MAX_TASKS) s3 []) as He.
    destruct (foldl _ _ _) as [s4 l]. intros [= <- <-]. etrans; [exact H1|]. etrans; [|exact He]. by apply life_tasks. }
  destruct (if (c =? 0)%nat then _ else _) as [s2 ipis| |]; [|done..]. specialize (H2 s2 ipis eq_refl).
  set (prev := current_task_slot s2 c). set (s3 := account s2 c prev). set (s4 := demote s3 prev).
  assert (same_life s s4) as H4 by (etrans; [exact H2|]; etrans; [apply life_account|apply life_demote]).
  case_match; intros [= E].
  - subst s'. etrans; [exact H4|apply life_release].
  - pose proof (life_reschedule s4 c prev p2) as Hr. rewrite E in Hr. by etrans.
Qed.

End LifeFacts.
Import LifeFacts.

(** ** Queues *)

(** A send to [ep]: its queue gains at most [m], no other queue changes. *)
Record offers (r r' : RoutingState) (ep : Z) (m : Message) : Prop := mk_offers {
  of_wf : routing_wf r';
  of_here : forall x, x ∈ backlog_of r' ep -> x ∈ backlog_of r ep \/ x = m;
  of_other : forall ep', ep' <> ep -> backlog_of r' ep' = backlog_of r ep'
}.

(** A receive from [ep]. *)
Record takes (r r' : RoutingState) (ep : Z) : Prop := mk_takes {
  tk_wf : routing_wf r';
  tk_here : forall x, x ∈ backlog_of r' ep -> x ∈ backlog_of r ep;
  tk_other : forall ep', ep' <> ep -> backlog_of r' ep' = backlog_of r ep'
}.

Module RouteFacts.
Import QueueFacts.

Lemma offers_refl (r : RoutingState) (ep : Z) (m : Message) : routing_wf r -> offers r r ep m.
Proof. intros H. split; [done|by left|done]. Qed.

Lemma takes_refl (r : RoutingState) (ep : Z) : routing_wf r -> takes r r ep.
Proof. by split. Qed.

Lemma update_here (r r' : RoutingState) (ep : Z) (e e' : RoutingEntry) :
  lookup_entry r ep = Some e -> entry_update r r' ep e' ->
  backlog_of r ep = backlog e /\ backlog_of r' ep = backlog e' /\
  forall ep', ep' <> ep -> backlog_of r' ep' = backlog_of r ep'.
Proof.
  intros Hl Hu. unfold backlog_of. rewrite Hl, (eu_lookup _ _ _ _ Hu), decide_True by done.
  split_and!; [done..|]. intros ep' Hne. by rewrite (eu_lookup _ _ _ _ Hu), decide_False.
Qed.

Lemma update_offers (r r' : RoutingState) (ep : Z) (e e' : RoutingEntry) (m : Message) :
  lookup_entry r ep = Some e -> entry_update r r' ep e' ->
  (forall x, x ∈ backlog e' -> x ∈ backlog e \/ x = m) -> offers r r' ep m.
Proof.
  intros Hl Hu Hb. destruct (update_here _ _ _ _ _ Hl Hu) as (H1 & H2 & H3).
  split; [apply Hu| |done]. rewrite H1, H2. exact Hb.
Qed.

Lemma update_takes (r r' : RoutingState) (ep : Z) (e e' : RoutingEntry) :
  lookup_entry r ep = Some e -> entry_update r r' ep e' ->
  (forall x, x ∈ backlog e' -> x ∈ backlog e) -> takes r r' ep.
Proof.
  intros Hl Hu Hb. destruct (update_here _ _ _ _ _ Hl Hu) as (H1 & H2 & H3).
  split; [apply Hu| |done]. rewrite H1, H2. exact Hb.
Qed.

Lemma await_takes (r r' : RoutingState) (ep : Z) (i : nat) (a : Z) :
  takes r r' ep -> takes r (with_await r' (<[i := a]> (CALL_AWAIT_EP r'))) ep.
Proof. intros [[? ? ? ?] ? ?]. split; [|done..]. split; try done. simpl. by rewrite length_insert. Qed.

Lemma backlog_snoc (e e' : RoutingEntry) (m x : Message) :
  backlog e' = backlog e ++ [m] -> x ∈ backlog e' -> x ∈ backlog e \/ x = m.
Proof. intros -> [H|H%list_elem_of_singleton]%elem_of_app; auto. Qed.

Lemma backlog_park (e : RoutingEntry) (slot : nat) (m x : Message) :
  x ∈ backlog (with_sender e (Some slot) (Some m)) -> x ∈ backlog e \/ x = m.
Proof.
  unfold backlog. simpl. rewrite !elem_of_app, list_elem_of_singleton. intuition.
Qed.

Lemma enqueue_offers (r : RoutingState) (ep : Z) (m : Message) (g : Generation) (bs : option nat) :
  routing_wf r -> offers r (enqueue r ep m g bs).1 ep m.
Proof.
  intros Hwf. destruct (lookup_live_cases r ep g) as [Hno|(e & Hl & Hlive & <-)].
  { rewrite enqueue_refused by done. by apply offers_refl. }
  destruct (room_or_full e (lookup_entry_wf _ _ _ Hwf Hl)) as [Hr|Hf].
  - destruct (enqueue_room r ep m bs e) as (r' & e' & -> & Hu & _ & _ & _ & Hb); try done.
    eapply update_offers; [done..|]. intros x. by apply backlog_snoc.
  - destruct (enqueue_full r ep m bs e) as (r' & -> & Hu); try done.
    eapply update_offers; [done..|]. intros x. destruct bs; [apply backlog_park|by left].
Qed.

Lemma interrupt_offers (r : RoutingState) (ep : Z) (m : Message) :
  routing_wf r -> offers r (enqueue_from_interrupt r ep m).1 ep m.
Proof.
  intros Hwf. unfold enqueue_from_interrupt.
  destruct (find_index (TABLE r) ep) as [i|] eqn:Hf; [|by apply offers_refl].
  destruct (find_index_Some r ep i Hf) as (e & He & _ & _ & Hl). rewrite He.
  destruct (is_dead e) eqn:Hd; [by apply offers_refl|]. apply is_dead_false in Hd.
  pose proof (lookup_entry_wf _ _ _ Hwf Hl) as Hewf. destruct (room_or_full e Hewf) as [Hr|Hfull].
  - destruct (deliver_room e m Hewf Hd Hr) as (e' & -> & ? & ? & ? & ? & ? & _ & _ & Hb).
    assert (offers r (with_table r (<[i:=e']> (TABLE r))) ep m); [|by destruct (blocked_receiver e)].
    eapply update_offers; [done|by eapply store_update|]. intros x. by apply backlog_snoc.
  - rewrite deliver_full by done. eapply update_offers; [done|by eapply store_update|by left].
Qed.

Lemma kernel_offers (r : RoutingState) (ep : Z) (m : Message) (slot : nat) :
  routing_wf r -> offers r (enqueue_from_kernel_blocking r ep m slot).1 ep m.
Proof.
  intros Hwf. unfold enqueue_from_kernel_blocking.
  destruct (find_index (TABLE r) ep) as [i|] eqn:Hf; [|by apply offers_refl].
  destruct (find_index_Some r ep i Hf) as (e & He & _ & _ & Hl). rewrite He.
  destruct (is_dead e) eqn:Hd; [by apply offers_refl|]. apply is_dead_false in Hd.
  pose proof (lookup_entry_wf _ _ _ Hwf Hl) as Hewf. destruct (room_or_full e Hewf) as [Hr|Hfull].
  - destruct (deliver_room e m Hewf Hd Hr) as (e' & -> & ? & ? & ? & ? & ? & _ & _ & Hb).
    eapply update_offers; [done|by eapply store_update|]. intros x. by apply backlog_snoc.
  - rewrite deliver_full by done. eapply update_offers; [done|eapply store_update; try done; by apply park_wf|].
    intros x. apply backlog_park.
Qed.

Lemma dequeue_takes (r r' : RoutingState) (ep : Z) (g : Generation) (br : option nat) res :
  routing_wf r -> dequeue r ep g br = (r', res) ->
  takes r r' ep /\ forall m tx, res = Ok (m, tx) -> m ∈ backlog_of r ep.
Proof.
  intros Hwf. destruct (lookup_live_cases r ep g) as [Hno|(e & Hl & Hlive & <-)].
  { rewrite dequeue_refused by done. intros [= <- <-]. split; [by apply takes_refl|done]. }
  destruct (MessageQueue.contents (queue e)) as [|m l] eqn:Hc.
  - destruct (dequeue_empty r ep br e) as (s & -> & Hu); try done. intros [= <- <-]. split; [|done].
    eapply update_takes; [done..|]. by destruct br.
  - destruct (dequeue_message r ep br e m l) as (s & e' & -> & Hu & _ & _ & _ & _ & Hb); try done.
    intros [= <- <-]. split.
    + eapply update_takes; [done..|]. rewrite Hb. by right.
    + intros ? ? [= <- <-]. unfold backlog_of. rewrite Hl, Hb. left.
Qed.

Lemma call_dequeue_takes (r r' : RoutingState) (ep : Z) (g : Generation) (tgt : Z) (slot : nat) res :
  routing_wf r -> call_dequeue r ep g tgt slot = (r', res) ->
  takes r r' ep /\ forall m tx, res = Ok (m, tx) -> m ∈ backlog_of r ep.
Proof.
  intros Hwf. destruct (lookup_live_cases r ep g) as [Hno|(e & Hl & Hlive & <-)].
  { rewrite call_dequeue_refused by done. intros [= <- <-]. split; [by apply await_takes, takes_refl|done]. }
  destruct (take_first_from tgt (MessageQueue.contents (queue e))) as [l [m|]] eqn:Hc.
  - destruct (call_dequeue_reply r ep tgt slot e m l) as (s & e' & Hu & _ & Hb & ->); try done.
    apply take_first_Some in Hc as (i & Hi & _ & -> & _). intros [= <- <-]. split.
    + apply await_takes. eapply update_takes; [done..|]. rewrite Hb. intros x. unfold backlog.
      rewrite !elem_of_app. intros [H|H]; [left|by right]. rewrite list_elem_of_lookup in *.
      destruct H as [j H]. rewrite list_lookup_delete in H. destruct (decide (j < i)%nat); eauto.
    + intros ? ? [= <- <-]. unfold backlog_of. rewrite Hl. apply elem_of_app. left. by eapply list_elem_of_lookup_2.
  - destruct (call_dequeue_no_reply r ep tgt slot e l) as (s & e' & Hu & _ & _ & Hb & -> & _); try done.
    destruct (target_alive r tgt); intros [= <- <-]; (split; [|done]); apply await_takes;
      (eapply update_takes; [done..|by rewrite Hb]).
Qed.

End RouteFacts.
Import RouteFacts.

(** ** Steps that stay within bounds *)

Module ConfineFacts.
Import SchedFacts TaskDataFacts SpawnFacts ProgFacts.

Lemma keeps_refl (k : Kernel) : base_wf k -> keeps k k.
Proof. by split. Qed.

Lemma keeps_trans (k1 k2 k3 : Kernel) : keeps k1 k2 -> keeps k2 k3 -> keeps k1 k3.
Proof.
  intros [B1 L1 D1 R1 P1 N1 I1 G1] [B2 L2 D2 R2 P2 N2 I2 G2]. split; try congruence; [by etrans|].
  intros j. destruct (D1 j), (D2 j). split; congruence.
Qed.

(** The kernel stays well-formed. *)
Lemma keeps_alive (k k' : Kernel) (j : nat) : keeps k k' -> alive (k_sched k') j = alive (k_sched k) j.
Proof.
  intros H. unfold alive. rewrite (sl_valid _ _ (kp_life _ _ H)). f_equal. f_equal.
  apply bool_decide_ext, (sl_dead _ _ (kp_life _ _ H)).
Qed.

Lemma keeps_endpoints_of (k k' : Kernel) (j : nat) :
  keeps k k' -> endpoints_of (k_tasks k') j = endpoints_of (k_tasks k) j.
Proof.
  intros H. unfold endpoints_of. pose proof (keeps_alive k k' j H) as Ha. unfold k_sched in Ha.
  rewrite Ha. by destruct (kp_data _ _ H j) as [-> ->].
Qed.

Lemma keeps_wf (k k' : Kernel) : keeps k k' -> kernel_wf k -> kernel_wf k'.
Proof.
  intros H [Hb Hv [lk Hi] Ho]. split.
  - apply H.
  - intros j. unfold vacant. rewrite (sl_valid _ _ (kp_life _ _ H)). intros Hj. destruct (Hv j Hj). split.
    + by apply (sl_dead _ _ (kp_life _ _ H)).
    + by rewrite (proj2 (kp_data _ _ H j)).
  - exists lk. rewrite (kp_ids _ _ H). erewrite endpoints_ext; [exact Hi|]. intros j. by apply keeps_endpoints_of.
  - intros b e. rewrite (kp_names _ _ H). intros Hl. destruct (Ho b e Hl) as (s & ? & ? & ? & ?). exists s.
    rewrite (keeps_alive _ _ _ H), (proj1 (kp_data _ _ H s)). unfold task_name in *. by rewrite (kp_rows _ _ H).
Qed.

Lemma keeps_sched (k : Kernel) (s : Sched) :
  base_wf k -> same_life (k_sched k) s -> keeps k (with_tasks k (with_sched (k_tasks k) s)).
Proof.
  intros [[? ? ? ?] ? ? ? ?] Hs. split; try done. split; try done. split; try done.
  cbn. by rewrite (sl_length _ _ Hs).
Qed.

Lemma keeps_data (k : Kernel) (slot : nat) (f : TaskData -> TaskData) :
  base_wf k -> (forall d, d_endpoint (f d) = d_endpoint d /\ d_reply_endpoint (f d) = d_reply_endpoint d) ->
  keeps k (with_tasks k (upd_data (k_tasks k) slot f)).
Proof. intros Hb Hf. destruct (same_owners_data k slot f Hb Hf). by split. Qed.

(** A change of a component the owners do not depend on. *)
Lemma keeps_base (k k' : Kernel) :
  base_wf k' -> k_tasks k' = k_tasks k -> k_names k' = k_names k -> k_ids k' = k_ids k ->
  k_generation k' = k_generation k -> keeps k k'.
Proof. intros Hb Ht Hn Hi Hg. split; try done; unfold k_sched; by rewrite Ht. Qed.

Lemma remove_elem (t : list (option Capability)) (i : nat) (x : Capability) :
  Some x ∈ (CapTable.remove t i).1 -> Some x ∈ t.
Proof.
  unfold CapTable.remove. destruct (t !! i); [|done]. cbn. rewrite !list_elem_of_lookup. intros [j Hj]. exists j.
  destruct (decide (i = j)) as [->|Hne]; [|by rewrite list_lookup_insert_ne in Hj].
  rewrite list_lookup_insert in Hj. by case_match.
Qed.

Lemma has_in_table (k : Kernel) (cid s : nat) (r : Rights) (c : Capability) :
  has k cid s r c -> in_table k (caller k cid) c.
Proof.
  unfold has, current_task_lookup_cap, in_table, caller, current. intros H.
  destruct (_ && _); [|done]. apply get_Ok in H as (Hh & _). apply held_Some in Hh. by eapply list_elem_of_lookup_2.
Qed.

Section Bounded.
Context (y0 : Sys) (cid : nat) (ports : Z -> Prop).
Context (Hbase : base_wf (y_k y0)).

Definition me : nat := caller (y_k y0) cid.

(** While the caller still has its core. *)
Definition Inv (y : Sys) : Prop := bounded y0 cid ports y /\ current_task_slot (k_sched (y_k y)) cid = me.

Definition sourced (c : Capability) : Prop := exists c0, cap_le c c0 /\ source (y_k y0) cid ports c0.

Lemma bounded_refl : bounded y0 cid ports y0.
Proof.
  split; [by apply keeps_refl|done| |by left..|done|done|done].
  intros c Hc. exists c. split; [done|by apply source_held].
Qed.

Lemma inv_refl : Inv y0.
Proof. split; [apply bounded_refl|done]. Qed.

Lemma bounded_wf (y : Sys) : bounded y0 cid ports y -> base_wf (y_k y).
Proof. intros H. apply H. Qed.

(** Nothing the bounds speak of. *)
Record harmless (y y' : Sys) : Prop := mk_harmless {
  q_keeps : keeps (y_k y) (y_k y');
  q_caps : forall j, d_caps (data_at (k_tasks (y_k y')) j) = d_caps (data_at (k_tasks (y_k y)) j);
  q_routing : k_routing (y_k y') = k_routing (y_k y);
  q_delegated : k_delegated (y_k y') = k_delegated (y_k y);
  q_memory : forall j, j <> me -> y_mem y' j = y_mem y j
}.

Lemma bounded_harmless (y y' : Sys) : bounded y0 cid ports y -> harmless y y' -> bounded y0 cid ports y'.
Proof.
  intros [K T M S P Y R O] [K' C' R' D' Y']. split.
  - by eapply keeps_trans.
  - intros j Hj. rewrite C'. by apply T.
  - intros c. unfold in_table. rewrite C'. apply M.
  - intros ep m. rewrite R'. apply S.
  - intros ep m. rewrite R'. apply P.
  - intros j Hj. rewrite Y' by done. by apply Y.
  - intros id H0 Hid. unfold k_registry. rewrite D'. by apply R.
  - intros id Hid. rewrite D'. by apply O.
Qed.

Lemma harmless_sched (y : Sys) (s : Sched) :
  base_wf (y_k y) -> same_life (k_sched (y_k y)) s -> harmless y (put (with_tasks (y_k y) (with_sched (k_tasks (y_k y)) s)) y).
Proof. intros Hb Hs. split; try done. by apply keeps_sched. Qed.

Lemma harmless_data (y : Sys) (slot : nat) (f : TaskData -> TaskData) :
  base_wf (y_k y) ->
  (forall d, d_endpoint (f d) = d_endpoint d /\ d_reply_endpoint (f d) = d_reply_endpoint d /\ d_caps (f d) = d_caps d) ->
  harmless y (put (with_tasks (y_k y) (upd_data (k_tasks (y_k y)) slot f)) y).
Proof.
  intros Hb Hf. split; try done; [apply keeps_data; [done|intros d; by destruct (Hf d) as (? & ? & _)]|].
  intros j. unfold data_at. cbn. destruct (decide (slot = j)) as [->|Hj].
  - rewrite list_lookup_alter_eq. destruct (data (k_tasks (y_k y)) !! j) as [d|]; [apply Hf|done].
  - by rewrite list_lookup_alter_ne.
Qed.

(** A change of the caller's table. *)
Lemma bounded_table (y : Sys) (t : list (option Capability)) :
  bounded y0 cid ports y -> (me < MAX_TASKS)%nat ->
  (forall c, Some c ∈ t -> in_table (y_k y) me c \/ sourced c) ->
  bounded y0 cid ports (put (with_tasks (y_k y) (upd_data (k_tasks (y_k y)) me (set_caps t))) y).
Proof.
  intros B Hme Ht. pose proof (bounded_wf y B) as Hb. pose proof (tw_data _ (bw_tasks _ Hb)) as Hl.
  pose proof (keeps_data (y_k y) me (set_caps t) Hb ltac:(done)) as K'. destruct B as [K T M S P Y R O].
  split; try done; [by eapply keeps_trans| |].
  - intros j Hj. cbn [y_k put k_tasks with_tasks]. rewrite data_at_upd by lia. rewrite decide_False by (unfold me; auto). by apply T.
  - intros c. unfold in_table. cbn [y_k put k_tasks with_tasks]. fold me. rewrite data_at_upd by lia. rewrite decide_True by done.
    intros [Hc|Hc]%Ht; [by apply M|done].
Qed.

Lemma bounded_routing (y : Sys) (r : RoutingState) :
  bounded y0 cid ports y -> routing_wf r ->
  (forall ep m, m ∈ backlog_of r ep -> m ∈ backlog_of (k_routing (y_k y)) ep \/ sends (y_k y0) cid ep m) ->
  (forall ep, backlog_of r ep = backlog_of (k_routing (y_k y)) ep \/ ports ep \/ exists m, sends (y_k y0) cid ep m) ->
  bounded y0 cid ports (put (with_routing (y_k y) r) y).
Proof.
  intros B Hr Hs Hp. pose proof (bounded_wf y B) as [? ? ? ? ?]. destruct B as [K T M S P Y R O]. split; try done.
  - eapply keeps_trans; [exact K|]. by apply keeps_base.
  - intros ep m [Hm|Hm]%Hs; [by apply S|by right].
  - intros ep m Hm. cbn. destruct (Hp ep) as [->|H]; [by apply P|by right].
Qed.

Lemma bounded_offers (y : Sys) (r : RoutingState) (ep : Z) (m : Message) :
  bounded y0 cid ports y -> sends (y_k y0) cid ep m -> offers (k_routing (y_k y)) r ep m ->
  bounded y0 cid ports (put (with_routing (y_k y) r) y).
Proof.
  intros B Hs [Hwf Hh Ho]. apply bounded_routing; [done..| |].
  - intros ep' x Hx. destruct (decide (ep' = ep)) as [->|Hne]; [|left; by rewrite <- Ho].
    apply Hh in Hx as [?| ->]; [by left|by right].
  - intros ep'. destruct (decide (ep' = ep)) as [->|Hne]; [|left; by apply Ho]. right. right. by exists m.
Qed.

Lemma bounded_takes (y : Sys) (r : RoutingState) (ep : Z) :
  bounded y0 cid ports y -> ports ep -> takes (k_routing (y_k y)) r ep ->
  bounded y0 cid ports (put (with_routing (y_k y) r) y).
Proof.
  intros B Hp [Hwf Hh Ho]. apply bounded_routing; [done..| |].
  - intros ep' x Hx. left. destruct (decide (ep' = ep)) as [->|Hne]; [by apply Hh|by rewrite <- Ho].
  - intros ep'. destruct (decide (ep' = ep)) as [->|Hne]; [|left; by apply Ho]. right. by left.
Qed.

Lemma bounded_delegated (y : Sys) (d : delegated GRT) (id : ResourceId) :
  bounded y0 cid ports y -> delegated_wf d -> at_disposal (y_k y0) cid id ->
  (forall id', 0 <= id' -> id' <> id -> reg_get (registry d) id' = reg_get (k_registry (y_k y)) id') ->
  (forall id', id' <> id -> owner_of d id' = owner_of (k_delegated (y_k y)) id') ->
  bounded y0 cid ports (put (with_delegated (y_k y) d) y).
Proof.
  intros B Hd Hid Hr Ho. pose proof (bounded_wf y B) as [? ? ? ? ?]. destruct B as [K T M S P Y R O]. split; try done.
  - eapply keeps_trans; [exact K|]. by apply keeps_base.
  - intros id' H0 Hn. destruct (decide (id' = id)) as [->|Hne]; [done|]. cbn.
    transitivity (GlobalResourceTable.get_record (k_registry (y_k y)) id'); [by apply (Hr id')|by apply R].
  - intros id' Hn. destruct (decide (id' = id)) as [->|Hne]; [done|]. cbn. rewrite Ho by done. by apply O.
Qed.

(** Every capability in a message that waits at one of the ports. *)
Lemma delivered_sourced (y : Sys) (ep : Z) (m : Message) (c : Capability) :
  bounded y0 cid ports y -> ports ep -> m ∈ backlog_of (k_routing (y_k y)) ep -> Some c ∈ caps m ->
  source (y_k y0) cid ports c.
Proof.
  intros B Hp [Hm|Hm]%(bd_messages _ _ _ _ B) Hc.
  - apply (source_received _ _ _ _ ep Hp). by exists m.
  - destruct Hm as [s c' _ _ _ _ Ht|s c' _ _ _ _ Ht|s c' _ _ _ (_ & _ & Ha)|irq _ _ ->].
    + destruct (Ht c Hc) as [s' Hs']. by eapply source_held, has_in_table.
    + destruct (Ht c Hc) as [s' Hs']. by eapply source_held, has_in_table.
    + by destruct (Ha c).
    + apply list_elem_of_lookup in Hc as [i Hi]. cbn in Hi. by apply lookup_replicate in Hi as [? _].
Qed.

End Bounded.
End ConfineFacts.
Import ConfineFacts.
