(* ===== verification/CallBounds.v ===== *)
(** * The bounds of every system call

    Hoare triples for the pieces of [Syscalls] and for each handler: whatever a
    call does stays within [bounded] of [Confine], and the kernel stays
    well-formed. *)

From S2P Require Import Prelude Prog Capability CapTable Delegated Queue Console Routing Names Sched TaskData Interrupt.
From S2P Require Import Kernel Abi PageTables Loader Spawn SpawnImage Syscalls Confine.

Import LifeFacts RouteFacts ConfineFacts.

(** ** The bounds of each piece of a handler *)

(** The endpoint a blocked call will receive from. *)
Definition wait_port (w : Waiting) : option Z :=
  match w with
  | WRecv w => Some (rw_ep w)
  | WCallSend w | WCall w => Some (cw_recv w)
  | _ => None
  end.

Definition waits_at (ports : Z -> Prop) (p : progress) : Prop :=
  match p with Wait w => forall ep, wait_port w = Some ep -> ports ep | _ => True end.

Module PieceFacts.
Import SchedFacts TaskDataFacts SpawnFacts ProgFacts IrqFacts KernelFacts SpawnImageFacts.
Section Pieces.
Context (y0 : Sys) (cid : nat) (ports : Z -> Prop).
Context (Hbase : base_wf (y_k y0)).

Notation I := (Inv y0 cid ports).
Notation B := (bounded y0 cid ports).

Definition fin (p : progress) (y : Sys) : Prop := B y /\ waits_at ports p.

(** *** Before the first change *)

(** A piece that only looks at the state, and what its answer tells. *)
Definition reads {A} (m : Handler A) (F : A -> Prop) : Prop :=
  triple (eq y0) m (fun a y => y0 = y /\ F a) (eq y0).

Lemma reads_gets {A} (f : Sys -> A) : reads (M_gets f) (fun a => a = f y0).
Proof. intros y y' r <- [= <- <-]. done. Qed.

Lemma reads_ret {A} (a : A) (F : A -> Prop) : F a -> reads (M_ret a) F.
Proof. intros H y y' r <- [= <- <-]. done. Qed.

Lemma reads_fail {A} (e : Z) (F : A -> Prop) : reads (M_fail e) F.
Proof. intros y y' r <- [= <- <-]. done. Qed.

Lemma reads_bind {A C} (m : Handler A) (g : A -> Handler C) F G :
  reads m F -> (forall a, F a -> reads (g a) G) -> reads (M_bind m g) G.
Proof.
  intros Hm Hg. eapply triple_bind; [exact Hm|]. intros a y y' r [<- Ha]. by apply Hg.
Qed.

Lemma reads_lookup (slot : nat) (right : Rights) : reads (lookup_cap cid slot right) (has (y_k y0) cid slot right).
Proof.
  eapply reads_bind; [apply reads_gets|]. intros [c|e] E; [apply reads_ret|apply reads_fail]. exact (eq_sym E).
Qed.

Lemma reads_grant (slot : nat) : reads (lookup_grant cid slot) (has (y_k y0) cid slot Rights.GRANT).
Proof.
  eapply reads_bind; [apply reads_gets|]. intros [c|e] E; [apply reads_ret; exact (eq_sym E)|].
  destruct e; apply reads_fail.
Qed.

Lemma reads_guard (b : bool) (code : Z) : reads (guard b code) (fun _ => b = true).
Proof. unfold guard. destruct b; [by apply reads_ret|apply reads_fail]. Qed.

Lemma reads_demand (rid : ResourceId) (right : Rights) :
  reads (demand cid rid right) (fun _ => privileged (y_k y0) cid rid right).
Proof.
  eapply reads_bind; [apply reads_gets|]. intros b E. unfold privileged. cbn in E. rewrite <- E. apply reads_guard.
Qed.

Lemma reads_demand_slot (slot : nat) (rid : ResourceId) (right : Rights) :
  reads (demand_slot cid slot rid right) (fun _ => exists c, has (y_k y0) cid slot right c /\ resource_id c = rid).
Proof.
  eapply reads_bind; [apply reads_lookup|]. intros c Hc. unfold guard. destruct (resource_id c =? rid) eqn:E.
  - apply reads_ret. apply Z.eqb_eq in E. eauto.
  - apply reads_fail.
Qed.

Lemma reads_user (ptr len : Z) : reads (read_user cid ptr len) (fun _ => True).
Proof. intros y y' r <- [= <- <-]. done. Qed.

(** The message of a send: stamped with the caller's endpoint, nothing else. *)
Record fresh_message (m : Message) : Prop := mk_fresh {
  fm_badge : badge_id m = 0;
  fm_sender : sender_ep m = default 0 (own_endpoint (y_k y0) cid);
  fm_caps : caps m = replicate MAX_EMBEDDED_CAPS None
}.

Lemma reads_message (ptr len : Z) : reads (build_message cid ptr len) fresh_message.
Proof.
  eapply reads_bind; [apply reads_guard|]. intros _ _.
  apply (reads_bind _ _ (fun _ => True)).
  - destruct (len =? 0); [by apply reads_ret|]. eapply reads_bind; [apply reads_user|].
    intros [b|] _; [by apply reads_ret|apply reads_fail].
  - intros b _. unfold Message.new. destruct (_ <? _)%nat; [apply reads_fail|].
    eapply reads_bind; [apply reads_gets|]. intros ep ->. by apply reads_ret.
Qed.

Lemma reads_name (ptr len : Z) : reads (user_name cid ptr len) (fun _ => True).
Proof.
  eapply reads_bind; [apply reads_guard|]. intros _ _. eapply reads_bind; [apply reads_user|].
  intros [b|] _; [|apply reads_fail]. eapply reads_bind; [apply reads_guard|]. intros _ _. by apply reads_ret.
Qed.

Lemma reads_text (ptr len : Z) : reads (user_text cid ptr len) (fun _ => True).
Proof.
  eapply reads_bind; [apply reads_guard|]. intros _ _. eapply reads_bind; [apply reads_user|].
  intros [b|] _; [by apply reads_ret|apply reads_fail].
Qed.

Lemma reads_mint (id : ResourceId) (r : Rights) :
  reads (mint_new id r) (fun c => mint_cap (k_registry (y_k y0)) id r = Done c).
Proof.
  intros y y' x <-. unfold mint_new, run, M_outcome. destruct (mint_cap _ id r) as [c|]; [|done].
  intros [= <- <-]. split; [by destruct y0|done].
Qed.

Lemma pre_reads {A C} (m : Handler A) F (g : A -> Handler C) R :
  reads m F -> (forall a, F a -> triple (eq y0) (g a) R B) -> triple (eq y0) (M_bind m g) R B.
Proof.
  intros Hm Hg. apply (triple_bind _ _ (fun a y => y0 = y /\ F a)); [|intros a y y' r [<- Ha]; by apply Hg].
  intros y y' r <- Hr. specialize (Hm y0 y' r eq_refl Hr). destruct r as [a|e]; [exact Hm|].
  cbn in Hm. subst. by apply bounded_refl.
Qed.

Lemma pre_fail {A} (code : Z) (R : A -> Sys -> Prop) : triple (eq y0) (M_fail code : Handler A) R B.
Proof. intros y y' r <- [= <- <-]. by apply bounded_refl. Qed.

Lemma pre_inv {A} (m : Handler A) (R : A -> Sys -> Prop) : triple I m R B -> triple (eq y0) m R B.
Proof. apply triple_pre. intros y <-. by apply inv_refl. Qed.

(** *** The ends of a handler *)

Lemma end_ret (code : Z) : triple I (M_ret (Ret code) : Handler _) fin B.
Proof. intros y y' r [H _] [= <- <-]. by split. Qed.

Lemma end_fail {A} (code : Z) (R : A -> Sys -> Prop) : triple I (M_fail code : Handler A) R B.
Proof. intros y y' r [H _] [= <- <-]. done. Qed.

Lemma end_plain (p : progress) : match p with Wait _ => False | _ => True end -> triple B (M_ret p : Handler _) fin B.
Proof. intros Hp y y' r H [= <- <-]. by destruct p. Qed.

Lemma end_wait (w : Waiting) : (forall ep, wait_port w = Some ep -> ports ep) -> triple B (M_ret (Wait w) : Handler _) fin B.
Proof. intros Hw y y' r H [= <- <-]. by split. Qed.

Lemma inv_bounded {A} (m : Handler A) (R : A -> Sys -> Prop) : triple B m R B -> triple I m R B.
Proof. apply triple_pre. by intros y []. Qed.

(** *** Changes *)

Lemma inv_harmless (f : Sys -> Sys) :
  (forall y, base_wf (y_k y) -> current_task_slot (k_sched (y_k y)) cid = me y0 cid -> harmless y0 cid y (f y)) ->
  (forall y, current_task_slot (k_sched (y_k (f y))) cid = current_task_slot (k_sched (y_k y)) cid) ->
  forall y, I y -> I (f y).
Proof.
  intros Hq Hc y [Hb Hm]. split; [|by rewrite Hc]. eapply bounded_harmless; [exact Hb|].
  apply Hq; [exact (bounded_wf _ _ _ _ Hb)|done].
Qed.

Lemma do_gets {A} (f : Sys -> A) X : triple I (M_gets f : Handler A) (fun _ => I) X.
Proof. by apply triple_gets. Qed.

Lemma do_sched (f : Sched -> Sched) X :
  (forall s, same_life s (f s)) -> (forall s, current_task_slot (f s) cid = current_task_slot s cid) ->
  triple I (on_sched f) (fun _ => I) X.
Proof.
  intros Hl Hc. apply triple_modify. apply inv_harmless; [|intros y; apply Hc].
  intros y Hb _. by apply harmless_sched.
Qed.

Lemma current_deadline (s : Sched) (slot : nat) (d : Z) :
  current_task_slot (set_wake_deadline s slot d) cid = current_task_slot s cid.
Proof. unfold set_wake_deadline. by case_match. Qed.

Lemma do_deadline (slot : nat) (d : Z) X : triple I (on_sched (fun s => set_wake_deadline s slot d)) (fun _ => I) X.
Proof. apply do_sched; [intros s; apply life_deadline|intros s; apply current_deadline]. Qed.

Lemma do_my_deadline (d : Z) X :
  triple I (on_sched (fun s => set_wake_deadline s (current_task_slot s cid) d)) (fun _ => I) X.
Proof. apply do_sched; [intros s; apply life_deadline|intros s; apply current_deadline]. Qed.

Lemma do_clear_deadline X : triple I (on_sched (fun s => clear_wake_deadline s (current_task_slot s cid))) (fun _ => I) X.
Proof. apply (do_my_deadline 0). Qed.

Lemma current_wake (s : Sched) (slot : nat) (r : Z) :
  current_task_slot (wake_by_slot s cid slot r).1 cid = current_task_slot s cid.
Proof.
  unfold wake_by_slot. case_match; [done|]. case_match; [done|]. case_match; [done|]. cbn [fst].
  unfold current_task_slot. rewrite core_at_upd, core_at_upd_task. by repeat case_match.
Qed.

Lemma harmless_wake (y : Sys) (slot : nat) (r : Z) :
  base_wf (y_k y) -> harmless y0 cid y (put (k_wake (y_k y) cid slot r) y).
Proof. intros Hb. apply harmless_sched; [done|apply life_wake]. Qed.

Lemma do_wake (target : option nat) (r : Z) X : triple I (wake cid target r) (fun _ => I) X.
Proof.
  destruct target as [slot|]; [|apply triple_skip]. apply triple_modify, inv_harmless.
  - intros y Hb _. by apply harmless_wake.
  - intros y. apply current_wake.
Qed.

Lemma inv_wake_console (y : Sys) : I y -> I (put (wake_console_waiter (y_k y) cid) y).
Proof.
  apply (inv_harmless (fun y => put (wake_console_waiter (y_k y) cid) y)).
  - intros y1 Hb _. unfold wake_console_waiter. case_match; [|by apply harmless_wake].
    by split.
  - intros y1. unfold wake_console_waiter. case_match; [done|]. apply current_wake.
Qed.

(** A kernel change outside the tasks, the queues and the resources. *)
Lemma do_aside (f : Kernel -> Kernel) X :
  (forall k, k_tasks (f k) = k_tasks k /\ k_routing (f k) = k_routing k /\ k_delegated (f k) = k_delegated k /\
    k_names (f k) = k_names k /\ k_ids (f k) = k_ids k /\ k_generation (f k) = k_generation k) ->
  (forall k, irq_wf (k_irq k) -> irq_wf (k_irq (f k))) ->
  triple I (tell f) (fun _ => I) X.
Proof.
  intros Hf Hi. apply triple_modify, inv_harmless.
  - intros y [Ht Hr Hd Hn Hq] _. destruct (Hf (y_k y)) as (E1 & E2 & E3 & E4 & E5 & E6).
    split; cbn; try done; [|by rewrite E1]. apply keeps_base; try done.
    split; rewrite ?E1, ?E2, ?E3, ?E4; auto.
  - intros y. unfold k_sched. cbn. by destruct (Hf (y_k y)) as (-> & _).
Qed.

Lemma do_con (f : Con -> Con) X : triple I (tell_con f) (fun _ => I) X.
Proof. apply triple_modify, inv_harmless; [|done]. by split. Qed.

Lemma do_write (dst : Z) (src : list Z) X : triple I (write_user cid dst src) (fun _ => I) X.
Proof.
  apply triple_outcome. intros y y' ok [Hb Hm] H. unfold write_user in H. cbn in H.
  destruct (write_user_bytes _ _ _) as [mem|]; injection H as <- <-; [|done]. split; [|done].
  eapply bounded_harmless; [exact Hb|]. split; try done; [apply keeps_refl; exact (bounded_wf _ _ _ _ Hb)|].
  intros j Hj. cbn. rewrite Hm. unfold upd. by rewrite decide_False.
Qed.

Lemma do_copy_out (dst : Z) (src : list Z) X : triple I (copy_out cid dst src) (fun _ => I) X.
Proof. destruct src; [apply triple_skip|apply do_write]. Qed.

(** A change of one task's data that leaves its table and endpoints alone. *)
Definition neutral {A} (f : Tasks -> Tasks * A) : Prop :=
  forall t, (f t).1 = t \/ exists slot g, (f t).1 = upd_data t slot g /\
    forall d, d_endpoint (g d) = d_endpoint d /\ d_reply_endpoint (g d) = d_reply_endpoint d /\ d_caps (g d) = d_caps d.

Lemma do_neutral {A} (f : Tasks -> Tasks * A) X : neutral f -> triple I (on_tasks f) (fun _ => I) X.
Proof.
  intros Hf. apply triple_outcome. intros y y' a [Hb Hm] H. specialize (Hf (k_tasks (y_k y))).
  destruct (f (k_tasks (y_k y))) as [t b]. cbn in H, Hf. injection H as <- <-.
  destruct Hf as [->|(slot & g & -> & Hg)].
  - split; [|done]. eapply bounded_harmless; [exact Hb|]. split; try done. apply keeps_base; try done.
    by destruct (bounded_wf _ _ _ _ Hb).
  - split; [|done]. eapply bounded_harmless; [exact Hb|]. apply harmless_data; [exact (bounded_wf _ _ _ _ Hb)|done].
Qed.

(** *** The caller's table *)

Lemma inv_tables (y : Sys) (t : list (option Capability)) :
  I y -> current (k_tasks (y_k y)) cid = Some (me y0 cid) ->
  (forall c, Some c ∈ t -> in_table (y_k y) (me y0 cid) c \/ sourced y0 cid ports c) ->
  I (put (with_tasks (y_k y) (upd_data (k_tasks (y_k y)) (me y0 cid) (set_caps t))) y).
Proof. intros [Hb Hm] Hc Ht. split; [|done]. apply bounded_table; [done|by eapply current_lt|done]. Qed.

Lemma inv_current (y : Sys) (cur : nat) : I y -> current (k_tasks (y_k y)) cid = Some cur -> cur = me y0 cid.
Proof.
  intros [_ Hm]. unfold current. fold (k_sched (y_k y)). rewrite Hm. case_match; [|done]. by intros [= <-].
Qed.

Lemma inv_put (y : Sys) : I y -> I (put (with_tasks (y_k y) (k_tasks (y_k y))) y).
Proof. by destruct y as [[] ? ?]. Qed.

Lemma do_insert (c : Capability) X : sourced y0 cid ports c -> triple I (insert_cap cid c) (fun _ => I) X.
Proof.
  intros Hs. apply triple_outcome. intros y y' r HI H. unfold current_task_insert_cap in H.
  destruct (current (k_tasks (y_k y)) cid) as [cur|] eqn:Ec; [|injection H as <- <-; by apply inv_put].
  pose proof (inv_current y cur HI Ec) as ->. destruct (CapTable.insert _ c) as [t r'] eqn:Ei. injection H as <- <-.
  apply inv_tables; [done..|]. intros x Hx. destruct (insert_elem _ _ _ _ Ei x Hx) as [->|Hin]; [by right|by left].
Qed.

Lemma do_remove (slot : nat) X : triple I (remove_cap cid slot) (fun _ => I) X.
Proof.
  apply (triple_bind _ _ (fun _ => I)); [|intros c; apply triple_skip]. apply triple_outcome. intros y y' r HI H.
  unfold current_task_remove_cap in H.
  destruct (current (k_tasks (y_k y)) cid) as [cur|] eqn:Ec; [|injection H as <- <-; by apply inv_put].
  pose proof (inv_current y cur HI Ec) as ->. pose proof (fun x => remove_elem (d_caps (data_at (k_tasks (y_k y)) (me y0 cid))) slot x) as Hr.
  destruct (CapTable.remove _ slot) as [t r']. injection H as <- <-.
  apply inv_tables; [done..|]. intros x Hx. left. by apply Hr.
Qed.

Lemma neutral_push (slot : Z) : neutral (fun t => push_pending_recv_cap t cid slot).
Proof. intros t. unfold push_pending_recv_cap. case_match; [right; by do 2 eexists|by left]. Qed.

Lemma neutral_pop : neutral (fun t => pop_pending_recv_cap t cid).
Proof. intros t. unfold pop_pending_recv_cap. case_match; [right; by do 2 eexists|by left]. Qed.

Lemma neutral_take_badge : neutral (fun t => take_last_recv_badge t cid).
Proof. intros t. unfold take_last_recv_badge. case_match; [right; by do 2 eexists|by left]. Qed.

Lemma neutral_claim (size : Z) : neutral (fun t => current_task_claim_alloc t cid size).
Proof. intros t. unfold current_task_claim_alloc. case_match; [|by left]. case_match; [by left|right; by do 2 eexists]. Qed.

Lemma do_badge (id right : Z) X :
  triple I (tell (fun k => with_tasks k (set_last_recv_badge (k_tasks k) cid id right))) (fun _ => I) X.
Proof.
  apply triple_modify. intros y HI. unfold set_last_recv_badge. case_match; [|by apply inv_put].
  destruct HI as [Hb Hm]. split; [|done]. eapply bounded_harmless; [exact Hb|].
  apply harmless_data; [exact (bounded_wf _ _ _ _ Hb)|done].
Qed.

Lemma narrow_embedded_le (c : Capability) : cap_le (narrow_embedded_for_receiver c) c.
Proof. unfold narrow_embedded_for_receiver. case_match; [apply without_grant_le|done]. Qed.

Lemma do_install (l : list (option Capability)) X :
  (forall c, Some c ∈ l -> source (y_k y0) cid ports c) -> triple I (install_caps cid l) (fun _ => I) X.
Proof.
  induction l as [|[c|] l IH]; intros Hl; cbn [install_caps].
  - apply triple_skip.
  - assert (triple I (install_caps cid l) (fun _ => I) X) as Hn by (apply IH; intros c' Hc'; apply Hl; by right).
    eapply triple_bind; [apply do_insert; exists c; split; [apply narrow_embedded_le|apply Hl; left]|].
    intros [slot|e]; [|exact Hn]. eapply triple_bind; [apply do_neutral, neutral_push|]. intros pushed.
    apply (triple_bind _ _ (fun _ => I)); [|intros _; exact Hn]. destruct pushed; [apply triple_skip|apply do_remove].
  - apply IH. intros c' Hc'. apply Hl. by right.
Qed.

Lemma do_delivery (buf len : Z) (m : Message) (sender : option nat) X :
  (forall c, Some c ∈ caps m -> source (y_k y0) cid ports c) ->
  triple I (take_delivery cid buf len m sender) (fun _ => I) X.
Proof.
  intros Hm. eapply triple_bind; [apply do_wake|]. intros ?. eapply triple_bind; [apply do_badge|]. intros ?.
  eapply triple_bind.
  - apply do_install. intros c Hc. apply Hm. apply elem_of_take in Hc as (i & Hi & _). by eapply list_elem_of_lookup_2.
  - intros ?. cbv zeta. case_match; [apply triple_skip|]. eapply triple_bind; [apply do_copy_out|]. intros ok. apply triple_skip.
Qed.

(** *** Queues and blocking *)

Lemma do_offer {A} (f : RoutingState -> RoutingState * A) (ep : Z) (m : Message) X :
  sends (y_k y0) cid ep m -> (forall r, routing_wf r -> offers r (f r).1 ep m) ->
  triple I (on_routing f) (fun _ => I) X.
Proof.
  intros Hs Hf. apply triple_outcome. intros y y' a [Hb Hm] H. pose proof (bw_routing _ (bounded_wf _ _ _ _ Hb)) as Hr.
  specialize (Hf _ Hr). destruct (f (k_routing (y_k y))) as [r b]. injection H as <- <-.
  split; [|done]. by eapply bounded_offers.
Qed.

Definition taken (r : result (Message * option nat) IpcError) : Prop :=
  forall m tx, r = Ok (m, tx) -> forall c, Some c ∈ caps m -> source (y_k y0) cid ports c.

Lemma do_take (f : RoutingState -> RoutingState * result (Message * option nat) IpcError) (ep : Z) X :
  ports ep ->
  (forall r r' res, routing_wf r -> f r = (r', res) ->
     takes r r' ep /\ forall m tx, res = Ok (m, tx) -> m ∈ backlog_of r ep) ->
  triple I (on_routing f) (fun res y => I y /\ taken res) X.
Proof.
  intros Hp Hf. apply triple_outcome. intros y y' a [Hb Hm] H. pose proof (bw_routing _ (bounded_wf _ _ _ _ Hb)) as Hr.
  destruct (f (k_routing (y_k y))) as [r b] eqn:E. injection H as <- <-. destruct (Hf _ _ _ Hr E) as [Ht Hin].
  split; [split; [by eapply bounded_takes|done]|]. intros m tx Hok c Hc. eapply delivered_sourced; [exact Hb|exact Hp|eauto|done].
Qed.

Lemma do_dequeue (ep : Z) (g : Generation) (my : nat) X :
  ports ep -> triple I (on_routing (fun r => dequeue r ep g (Some my))) (fun res y => I y /\ taken res) X.
Proof. intros Hp. apply (do_take _ ep); [done|]. intros r r' res. apply dequeue_takes. Qed.

Lemma do_call_dequeue (ep : Z) (g : Generation) (tgt : Z) (my : nat) X :
  ports ep -> triple I (on_routing (fun r => call_dequeue r ep g tgt my)) (fun res y => I y /\ taken res) X.
Proof. intros Hp. apply (do_take _ ep); [done|]. intros r r' res. apply call_dequeue_takes. Qed.

Definition after_block (b : block_result) (y : Sys) : Prop :=
  match b with Returned _ => I y | Switched _ => B y end.

Lemma do_block (st : TaskState) X : st <> Dead -> triple I (block cid st) after_block X.
Proof.
  intros Hst. apply triple_outcome. intros y y' b [Hb Hm] H. cbv beta in H.
  apply bind_Done in H as ([k b'] & Hk & [= <- <-]). apply bind_Done in Hk as ([s b''] & Hs & [= <- <-]).
  destruct (life_block _ _ _ _ _ Hst Hs) as [Hl Hc].
  assert (B (put (with_tasks (y_k y) (with_sched (k_tasks (y_k y)) s)) y)) as HB.
  { eapply bounded_harmless; [exact Hb|]. apply harmless_sched; [exact (bounded_wf _ _ _ _ Hb)|done]. }
  destruct b'' as [code|]; [|exact HB]. split; [exact HB|]. cbn. rewrite (Hc code) by done. exact Hm.
Qed.

Lemma do_block_return (st : TaskState) (w : Waiting) :
  st <> Dead -> wait_port w = None -> triple I (block_return cid st w) fin B.
Proof.
  intros Hst Hw. eapply triple_bind; [by apply do_block|]. intros [code|sw]; [apply end_ret|apply end_wait].
  intros ep. by rewrite Hw.
Qed.

(** *** Whole handlers *)

Lemma inv_seq {A C} (m : Handler A) (g : A -> Handler C) R :
  triple I m (fun _ => I) B -> (forall a, triple I (g a) R B) -> triple I (M_bind m g) R B.
Proof. apply triple_bind. Qed.

Lemma inv_taken {A} (res : result (Message * option nat) IpcError) (m : Handler A) R :
  (taken res -> triple I m R B) -> triple (fun y => I y /\ taken res) m R B.
Proof. intros H y y' r [Hy Ht]. by apply H. Qed.

Lemma do_skip {A} (a : A) X : triple I (M_ret a : Handler A) (fun _ => I) X.
Proof. apply triple_skip. Qed.

Ltac seq := apply inv_seq; [first [apply do_skip|apply do_gets|apply do_wake|apply do_remove|apply do_clear_deadline|
  apply do_deadline|apply do_my_deadline|apply do_con|apply do_write|apply do_copy_out]|intros ?].

Lemma do_send (ep : Z) (g : Generation) (m : Message) (moved : option nat) :
  sends (y_k y0) cid ep m -> triple I (send_message cid ep g m moved) fin B.
Proof.
  intros Hs. unfold send_message. seq. apply inv_seq; [by eapply do_offer; [done|]; intros r Hr; apply enqueue_offers|].
  assert (triple I (match moved with Some s => remove_cap cid s | None => M_ret tt end) (fun _ => I) B) as Hg
    by (destruct moved; [apply do_remove|apply do_skip]).
  intros [rx|[]]; try apply end_fail; (apply inv_seq; [exact Hg|intros ?]).
  - seq. apply end_ret.
  - by apply do_block_return.
Qed.

Lemma do_recv_done (w : RecvWait) (code : Z) : triple I (recv_done cid w code) fin B.
Proof. unfold recv_done. destruct (rw_timed w); seq; apply end_ret. Qed.

Lemma do_recv_loop (fuel : nat) (w : RecvWait) : ports (rw_ep w) -> triple I (recv_loop fuel cid w) fin B.
Proof.
  intros Hp. induction fuel as [|fuel IH]; cbn [recv_loop]; [by apply inv_bounded, end_plain|].
  seq. eapply triple_bind; [by apply do_dequeue|]. intros [[m tx]|e]; apply inv_taken; intros Ht.
  - apply inv_seq; [apply do_delivery; by eapply Ht|]. intros c. apply do_recv_done.
  - destruct e; try apply do_recv_done. seq. case_match; [apply do_recv_done|].
    apply inv_seq; [case_match; [apply do_skip|apply do_deadline]|intros ?].
    eapply triple_bind; [by apply do_block|]. intros [code|sw]; [|apply end_wait; by intros ? [= <-]].
    case_match; [exact IH|apply do_recv_done].
Qed.

Lemma do_sleep_loop (fuel : nat) (d : Z) : triple I (sleep_loop fuel cid d) fin B.
Proof.
  induction fuel as [|fuel IH]; cbn [sleep_loop]; [by apply inv_bounded, end_plain|].
  assert (triple I (on_sched (fun s => clear_wake_deadline s (current_task_slot s cid)) ;;; M_ret (Ret 0)) fin B) as Hs
    by (seq; apply end_ret).
  seq. case_match; [exact Hs|]. seq. eapply triple_bind; [by apply do_block|].
  intros [code|sw]; [|by apply end_wait]. case_match; [exact IH|exact Hs].
Qed.

Lemma do_call_done (code : Z) : triple I (call_done cid code) fin B.
Proof. unfold call_done. seq. apply end_ret. Qed.

Lemma do_call_loop (fuel : nat) (w : CallWait) : ports (cw_recv w) -> triple I (call_loop fuel cid w) fin B.
Proof.
  intros Hp. induction fuel as [|fuel IH]; cbn [call_loop]; [by apply inv_bounded, end_plain|].
  seq. eapply triple_bind; [by apply do_call_dequeue|]. intros [[m tx]|e]; apply inv_taken; intros Ht.
  - apply inv_seq; [apply do_delivery; by eapply Ht|]. intros c. apply do_call_done.
  - destruct e; try apply do_call_done. seq. case_match; [apply do_call_done|].
    apply inv_seq; [case_match; [apply do_skip|apply do_deadline]|intros ?].
    eapply triple_bind; [by apply do_block|]. intros [code|sw]; [|apply end_wait; by intros ? [= <-]].
    case_match; [exact IH|apply do_call_done].
Qed.

Lemma do_call_await (w : CallWait) : ports (cw_recv w) -> triple I (call_await cid w) fin B.
Proof. intros Hp. unfold call_await. seq. by apply do_call_loop. Qed.

Lemma do_drain_and_pop (ar : Arch) X : triple I (drain_and_pop ar) (fun _ => I) X.
Proof.
  eapply triple_bind; [apply do_con|]. intros ?. apply triple_outcome. intros y y' b [Hb Hm] H.
  destruct (uart_rx_pop _) as [r b']. injection H as <- <-. split; [|done].
  eapply bounded_harmless; [exact Hb|]. pose proof (bounded_wf _ _ _ _ Hb). by split.
Qed.

Lemma do_read_waiter (w : Z) X : triple I (tell (fun k => with_read_waiter k w)) (fun _ => I) X.
Proof. by apply do_aside. Qed.

Lemma do_console_loop (fuel : nat) (ar : Arch) : triple I (console_read_loop fuel ar cid) fin B.
Proof.
  induction fuel as [|fuel IH]; cbn [console_read_loop]; [by apply inv_bounded, end_plain|].
  assert (forall code, triple I (tell (fun k => with_read_waiter k u32_max) ;;; M_ret (Ret code)) fin B) as Hs
    by (intros code; apply inv_seq; [apply do_read_waiter|intros ?; apply end_ret]).
  seq. apply inv_seq; [case_match; [apply do_drain_and_pop|apply do_skip]|]. intros [b|]; [apply Hs|].
  eapply triple_bind; [by apply do_block|]. intros [code|sw]; [|by apply end_wait]. case_match; [exact IH|apply Hs].
Qed.

Lemma do_push_byte (b : Z) X : triple I (console_push_byte cid b) (fun _ => I) X.
Proof. eapply triple_bind; [apply do_con|]. intros ?. apply triple_modify, inv_wake_console. Qed.

Lemma do_yield_bounded X : triple I (do_yield cid) (fun _ => B) X.
Proof.
  apply triple_modify. intros y [Hb _]. eapply bounded_harmless; [exact Hb|].
  apply harmless_sched; [exact (bounded_wf _ _ _ _ Hb)|apply life_yield].
Qed.

(** *** From the first look at the state *)

Lemma embed_caps (m : Message) (c x : Capability) :
  caps m = replicate MAX_EMBEDDED_CAPS None -> Some x ∈ caps (embed m c) -> x = c.
Proof.
  intros Hm Hx. cbn in Hx. rewrite Hm in Hx. apply list_elem_of_lookup in Hx as [i Hi].
  destruct (decide (i = 0)%nat) as [->|Hne].
  - rewrite list_lookup_insert_eq in Hi by (rewrite length_replicate; unfold MAX_EMBEDDED_CAPS; lia). by injection Hi.
  - rewrite list_lookup_insert_ne in Hi by done. by apply lookup_replicate in Hi as [? _].
Qed.

Lemma no_caps (m : Message) (x : Capability) : caps m = replicate MAX_EMBEDDED_CAPS None -> Some x ∉ caps m.
Proof. intros -> Hx. apply list_elem_of_lookup in Hx as [i Hi]. by apply lookup_replicate in Hi as [? _]. Qed.

Lemma sends_plain (s : nat) (c : Capability) (m : Message) :
  has (y_k y0) cid s Rights.SEND c -> fresh_message m -> sends (y_k y0) cid (resource_id c) m.
Proof.
  intros Hc [? ? Hm]. apply (sends_direct _ _ _ _ s c); try done. intros x Hx. by apply no_caps in Hx.
Qed.

Lemma sends_embedded (s s' : nat) (c c' : Capability) (m : Message) :
  has (y_k y0) cid s Rights.SEND c -> has (y_k y0) cid s' Rights.GRANT c' -> fresh_message m ->
  sends (y_k y0) cid (resource_id c) (embed m c').
Proof.
  intros Hc Hg [? ? Hm]. apply (sends_direct _ _ _ _ s c); try done. intros x Hx.
  apply embed_caps in Hx as ->; [|done]. by exists s'.
Qed.

Lemma sends_badged (s s' : nat) (c c' : Capability) (owner : Z) (right : Rights) (m : Message) :
  has (y_k y0) cid s right c -> owner_of (k_delegated (y_k y0)) (resource_id c) = Some owner ->
  has (y_k y0) cid s' Rights.GRANT c' -> fresh_message m ->
  sends (y_k y0) cid owner (embed (badge m (resource_id c) right) c').
Proof.
  intros Hc Ho Hg [? ? Hm]. apply (sends_invoke _ _ _ _ s c); try done. intros x Hx.
  apply embed_caps in Hx as ->; [|done]. by exists s'.
Qed.

Context (Hrecv : forall ep, receives (y_k y0) cid ep -> ports ep).

Ltac look L := eapply pre_reads; [apply L|].
Notation H h := (triple (eq y0) h fin B).

Lemma bound_send (a0 a1 a2 : Z) : H (handle_send cid a0 a1 a2).
Proof.
  look reads_lookup. intros c Hc. look reads_message. intros m Hm. apply pre_inv, do_send. by eapply sends_plain.
Qed.

Lemma bound_try_send (a0 a1 a2 : Z) : H (handle_try_send cid a0 a1 a2).
Proof.
  look reads_lookup. intros c Hc. look reads_message. intros m Hm. apply pre_inv, inv_seq.
  - eapply do_offer; [by eapply sends_plain|]. intros r Hr. by apply enqueue_offers.
  - intros [rx|e]; [seq; apply end_ret|apply end_fail].
Qed.

Lemma bound_send_with_cap (a0 a1 a2 : Z) : H (handle_send_with_cap cid a0 a1 a2).
Proof.
  unfold handle_send_with_cap. cbv zeta. look reads_lookup. intros c Hc. look reads_grant. intros c' Hc'.
  look reads_message. intros m Hm. apply pre_inv, do_send. by eapply sends_embedded.
Qed.

Lemma recv_port (slot : nat) (c : Capability) : has (y_k y0) cid slot Rights.RECV c -> ports (resource_id c).
Proof. intros Hc. apply Hrecv. by exists slot, c. Qed.

Lemma bound_recv (a0 a1 a2 : Z) : H (handle_recv cid a0 a1 a2).
Proof.
  look reads_lookup. intros c Hc. look reads_guard. intros _ _. apply pre_inv, do_recv_loop. by eapply recv_port.
Qed.

Lemma bound_try_recv (a0 a1 a2 : Z) : H (handle_try_recv cid a0 a1 a2).
Proof.
  look reads_lookup. intros c Hc. look reads_guard. intros _ _. apply pre_inv. seq.
  eapply triple_bind; [eapply do_dequeue, recv_port, Hc|]. intros [[m tx]|e]; apply inv_taken; intros Ht.
  - apply inv_seq; [apply do_delivery; by eapply Ht|]. intros n. apply end_ret.
  - destruct e; first [apply end_ret|apply end_fail].
Qed.

Lemma bound_recv_timeout (ar : Arch) (a0 a1 a2 : Z) : H (handle_recv_timeout ar cid a0 a1 a2).
Proof.
  unfold handle_recv_timeout. cbv zeta. look reads_lookup. intros c Hc. look reads_guard. intros _ _.
  look @reads_gets. intros now _. apply pre_inv, do_recv_loop. by eapply recv_port.
Qed.

Lemma bound_sleep (ar : Arch) (a0 : Z) : H (handle_sleep ar cid a0).
Proof.
  unfold handle_sleep. case_match; [apply pre_inv, end_ret|]. apply pre_inv. seq. apply do_sleep_loop.
Qed.

Lemma bound_do_call (ts rs vs : nat) (ptr len secs : Z) (cap : nat) : H (do_call cid ts rs vs ptr len secs cap).
Proof.
  unfold do_call. look reads_lookup. intros c Hc. look reads_grant. intros c' Hc'. look reads_lookup. intros rc Hrc.
  look reads_guard. intros _ _. look reads_guard. intros _ _. look reads_message. intros m Hm. cbv zeta.
  assert (forall w, cw_recv w = resource_id rc -> ports (cw_recv w)) as Hw by (intros w ->; by eapply recv_port).
  apply pre_inv. seq. apply inv_seq.
  { eapply do_offer; [by eapply sends_embedded|]. intros r Hr. by apply enqueue_offers. }
  intros [rx|e].
  - seq. seq. apply do_call_await. by apply Hw.
  - destruct e; try apply end_fail. seq. eapply triple_bind; [by apply do_block|]. intros [code|sw].
    + case_match; [apply do_call_await; by apply Hw|apply end_fail].
    + apply end_wait. intros ep [= <-]. by eapply recv_port.
Qed.

Lemma bound_acquire (a0 a1 a2 : Z) : H (handle_acquire_send_cap cid a0 a1 a2).
Proof.
  unfold handle_acquire_send_cap. look reads_name. intros name _. look @reads_gets. intros broad Hbr.
  look @reads_gets. intros declared Hd. look reads_guard. intros ? Hg. look @reads_gets. intros [ep|] Hep; [|apply pre_fail].
  cbv zeta. set (r := if _ && _ then _ else _). look reads_mint. intros c Hc. apply pre_inv, inv_seq.
  - apply do_insert. exists c. split; [done|].
    assert (resource_id c = ep /\ rights c = r) as [Hi Hr].
    { revert Hc. unfold mint_cap. destruct (GlobalResourceTable.get_record _ _); [|done]. by intros [= <-]. }
    rewrite <- Hi in Hc, Hep. rewrite <- Hr in Hc. apply (source_acquired _ _ _ _ name); [done..|].
    rewrite Hr. unfold r, privileged. cbn in Hbr, Hd. rewrite <- Hbr. unfold caller. rewrite <- Hd.
    destruct broad; cbn in *; [right|left; by rewrite andb_false_r].
    split; [done|]. by destruct (negb _).
  - intros [slot|e]; [apply end_ret|apply end_fail].
Qed.

Lemma bound_derive (a0 : Z) : H (handle_derive_cap cid a0).
Proof.
  look reads_lookup. intros c Hc. apply pre_inv, inv_seq.
  - apply do_insert. exists c. split; [done|]. by eapply source_held, has_in_table.
  - intros [slot|e]; [apply end_ret|apply end_fail].
Qed.

Lemma bound_invoke (a0 a1 a2 : Z) : H (handle_resource_invoke cid a0 a1 a2).
Proof.
  unfold handle_resource_invoke. cbv zeta. look reads_lookup. intros c Hc. look reads_guard. intros _ _.
  look @reads_gets. intros [owner|] Ho; [|apply pre_fail]. look reads_grant. intros c' Hc'. look reads_message. intros m Hm.
  look @reads_gets. intros g _. apply pre_inv, do_send. by eapply sends_badged.
Qed.

Lemma bound_console_write (a0 a1 a2 : Z) : H (handle_console_write cid a0 a1 a2).
Proof.
  unfold handle_console_write. look reads_demand_slot. intros ? (c & Hc & Hr). look reads_text. intros b _.
  look @reads_gets. intros ok _. destruct ok; [|apply pre_inv, end_ret].
  unfold deliver_to_console_service. look @reads_gets. intros my _. look @reads_gets. intros kind _.
  case_match; [apply pre_inv, end_ret|]. look @reads_gets. intros [ep|] Hep; [|apply pre_inv, end_ret].
  destruct (Message.new b) as [m|] eqn:Em; [|apply pre_inv, end_ret]. apply pre_inv, inv_seq.
  - apply (do_offer _ ep m); [|intros r Hw; by apply kernel_offers].
    apply (sends_console _ _ _ _ (Z.to_nat a0) c); try done. revert Em. unfold Message.new. case_match; [done|].
    intros [= <-]. split_and!; [done..|]. intros x. by apply no_caps.
  - intros [rx|e]; [seq; apply end_ret|]. destruct e; try apply end_ret. by apply do_block_return.
Qed.

(** *** Delegated resources *)

Lemma release_facts (d : delegated GRT) (id : ResourceId) :
  delegated_wf d -> delegated_wf (release d id) /\ registry (release d id) = registry d /\
  forall id', id' <> id -> owner_of (release d id) id' = owner_of d id'.
Proof.
  intros Hd. unfold release. destruct (is_delegated id) eqn:Eid; [|done]. destruct Hd as [Hr Hband].
  pose proof (slot_of_lt id Eid) as Hlt. split_and!; [|done|].
  - split; [done|]. destruct Hband. split; [|done]. cbn. by rewrite length_insert.
  - intros id' Hne. unfold owner_of. destruct (is_delegated id') eqn:Eid'; [|done]. cbn [negb band].
    unfold Band.free. rewrite BandFacts.owner_at_insert by (rewrite (Band.wf_owner _ Hband); done).
    rewrite decide_False; [done|]. intros Hs. apply Hne. by rewrite <- (id_of_slot_of id'), <- (id_of_slot_of id), Hs.
Qed.

Lemma do_release (id : ResourceId) X :
  at_disposal (y_k y0) cid id -> triple I (on_delegated (fun d => Done (release d id, tt))) (fun _ => I) X.
Proof.
  intros Hid. apply triple_outcome. intros y y' a [Hb Hm] HH. injection HH as <- <-. split; [|done].
  destruct (release_facts (k_delegated (y_k y)) id) as (Hw & Hr & Ho); [apply (bounded_wf _ _ _ _ Hb)|].
  apply (bounded_delegated _ _ _ _ _ id); try done. intros id' _ _. by rewrite Hr.
Qed.

(** The owner the registry holds is the caller, or the resource is free. *)
Lemma disposal_owned (y : Sys) (id : ResourceId) :
  B y -> is_delegated id = true -> owner_of (k_delegated (y_k y)) id = own_endpoint (y_k y0) cid -> at_disposal (y_k y0) cid id.
Proof.
  intros Hb Hd Ho. destruct (decide (owner_of (k_delegated (y_k y0)) id = None)) as [?|Hn]; [split; [done|by left]|].
  destruct (decide (owner_of (k_delegated (y_k y0)) id = own_endpoint (y_k y0) cid)) as [?|Hn']; [split; [done|by right]|].
  exfalso. apply Hn'. rewrite <- (bd_owners _ _ _ _ Hb id); [done|]. intros [_ [?|?]]; done.
Qed.

Lemma do_revoke (id : ResourceId) (who : Z) X :
  own_endpoint (y_k y0) cid = Some who -> triple I (on_delegated (fun d => revoke_owned d id who)) (fun _ => I) X.
Proof.
  intros Hw. apply triple_outcome. intros y y' ok [Hb Hm] HH. cbv beta in HH.
  apply bind_Done in HH as ([k a] & Hk & [= <- <-]). apply bind_Done in Hk as ([d b] & Hd & [= <- <-]).
  split; [|done]. pose proof (bw_delegated _ (bounded_wf _ _ _ _ Hb)) as Hwf. destruct b.
  - destruct (revoke_owned_true _ _ _ _ Hwf Hd) as (Hid & Ho & Hwf' & Hr & Ho').
    assert (0 <= id) as H0 by (apply is_delegated_spec in Hid as [? _]; unfold DELEGATED_BASE in *; lia).
    destruct (reg_bump_get _ _ _ _ (proj1 Hwf) H0 Hr) as [_ Hg].
    apply (bounded_delegated _ _ _ _ _ id); try done.
    + eapply disposal_owned; [exact Hb|done|congruence].
    + intros id' Hi Hne. rewrite Hg by done. by rewrite decide_False.
    + intros id' Hne. by rewrite Ho', decide_False.
  - destruct (revoke_owned_false _ _ _ _ Hd) as [-> _].
    eapply bounded_harmless; [exact Hb|]. pose proof (bounded_wf _ _ _ _ Hb) as [? ? ? ? ?]. by split.
Qed.

Lemma do_allocate (who : Z) X :
  triple (eq y0) (on_delegated (fun d => allocate d who))
    (fun r y => I y /\ forall id, r = Some id -> is_delegated id = true /\ owner_of (k_delegated (y_k y0)) id = None) X.
Proof.
  apply triple_outcome. intros y y' r <- HH. cbv beta in HH.
  apply bind_Done in HH as ([k a] & Hk & [= <- <-]). apply bind_Done in Hk as ([d b] & Hd & [= <- <-]).
  pose proof (bounded_refl y0 cid ports Hbase) as Hb. pose proof (bw_delegated _ Hbase) as Hwf. destruct b as [id|].
  - destruct (allocate_Some _ _ _ _ Hwf Hd) as (Hwf' & Hid & Hno & Ho & Hr & _).
    split; [split; [|done]|by intros ? [= <-]]. apply (bounded_delegated _ _ _ _ _ id); try done.
    + split; [done|by left].
    + intros id' Hne. by rewrite Ho, decide_False.
  - destruct (allocate_None _ _ _ Hwf Hd) as [-> _]. split; [|done]. split; [|done].
    eapply bounded_harmless; [exact Hb|]. destruct Hbase. by split.
Qed.

Lemma do_mint (id : ResourceId) (r : Rights) X :
  triple I (mint_new id r) (fun c y => I y /\ (resource_id c = id /\ rights c = r)) X.
Proof.
  apply triple_outcome. intros y y' c HI HH. cbv beta in HH. apply bind_Done in HH as ([k a] & Hk & [= <- <-]).
  apply bind_Done in Hk as (c & Hc & [= <- <-]). split; [by destruct y|].
  revert Hc. unfold mint_cap. destruct (GlobalResourceTable.get_record _ _); [|done]. by intros [= <-].
Qed.

Lemma inv_pure {A} (F : Prop) (m : Handler A) R : (F -> triple I m R B) -> triple (fun y => I y /\ F) m R B.
Proof. intros Hm y y' r [Hy Hf]. by apply Hm. Qed.

Lemma bound_mint (a0 a1 : Z) : H (handle_resource_mint cid a0 a1).
Proof.
  unfold handle_resource_mint. look reads_demand. intros ? Hp. look @reads_gets. intros [owner|] Ho; [|apply pre_fail].
  cbv zeta. eapply triple_bind; [apply do_allocate|]. intros [id|]; apply inv_pure; intros Hid; [|apply end_fail].
  destruct (Hid id eq_refl) as [Hd Hn]. assert (at_disposal (y_k y0) cid id) as Had by (split; [done|by left]).
  eapply triple_bind; [apply do_mint|]. intros c. apply inv_pure. intros [Hi Hr]. apply inv_seq.
  - apply do_insert. exists c. split; [done|]. apply source_minted; [done|exists owner; exact (eq_sym Ho)|by rewrite Hi..|].
    rewrite Hr. apply narrow_le_mask.
  - intros [slot|e].
    + seq. case_match; [apply end_ret|]. seq. apply inv_seq; [by apply do_revoke|intros ?; apply end_fail].
    + apply inv_seq; [by apply do_release|intros ?; apply end_fail].
Qed.

Lemma bound_revoke (a0 : Z) : H (handle_resource_revoke cid a0).
Proof.
  look @reads_gets. intros [owner|] Ho; [|apply pre_fail]. apply pre_inv, inv_seq; [by apply do_revoke|].
  intros ok. apply end_ret.
Qed.

(** *** The rest *)

Lemma bound_take_pending : H (handle_take_pending_cap cid).
Proof. apply pre_inv, inv_seq; [apply do_neutral, neutral_pop|intros ?; apply end_ret]. Qed.

Lemma bound_last_badge : H (handle_last_recv_badge cid).
Proof. apply pre_inv, inv_seq; [apply do_neutral, neutral_take_badge|intros ?; apply end_ret]. Qed.

Lemma bound_query (a0 : Z) : H (handle_query_cap_rights cid a0).
Proof. look @reads_gets. intros [r|] _; [apply pre_inv, end_ret|apply pre_fail]. Qed.

Lemma bound_remove (a0 : Z) : H (handle_remove_cap cid a0).
Proof. apply pre_inv. unfold handle_remove_cap. seq. apply end_ret. Qed.

Lemma bound_console_read (ar : Arch) (a0 : Z) : H (handle_console_read ar cid a0).
Proof.
  look reads_demand_slot. intros ? _. apply pre_inv. seq. apply inv_seq; [apply do_read_waiter|intros ?; apply do_console_loop].
Qed.

Lemma bound_try_console_read (ar : Arch) (a0 : Z) : H (handle_try_console_read ar cid a0).
Proof.
  look reads_demand_slot. intros ? _. apply pre_inv. seq. case_match; [apply end_ret|].
  apply inv_seq; [apply do_drain_and_pop|intros ?; apply end_ret].
Qed.

Lemma do_foreground (x : Z) (k : Kernel -> Kernel) X :
  (forall k1, k k1 = with_console k1 x (k_screen k1)) -> triple I (tell k) (fun _ => I) X.
Proof. intros Hk. apply do_aside; [intros k1|intros k1 Hi]; rewrite Hk; by split_and? || exact Hi. Qed.

Lemma bound_foreground (a0 a1 : Z) : H (handle_console_foreground cid a0 a1).
Proof.
  unfold handle_console_foreground. look reads_demand_slot. intros ? _. apply pre_inv, inv_seq; [|intros ?; apply end_ret].
  case_match.
  - apply (triple_bind _ _ (fun _ => I)); [|intros ?; apply do_push_byte]. apply triple_modify. intros y HI.
    apply (inv_wake_console (put (with_console (y_k y) u32_max (k_screen (y_k y))) y)).
    eapply (inv_harmless (fun y => put (with_console (y_k y) u32_max (k_screen (y_k y))) y)); [|done|exact HI].
    intros y1 [? ? ? ? ?] _. by split.
  - apply triple_modify, inv_harmless; [|done]. intros y1 [? ? ? ? ?] _. by split.
Qed.

Lemma bound_con (slot : nat) (rid : ResourceId) (right : Rights) (f : Con -> Con) :
  H (demand_slot cid slot rid right ;;; tell_con f ;;; M_ret (Ret 0)).
Proof. look reads_demand_slot. intros ? _. apply pre_inv. seq. apply end_ret. Qed.

Lemma bound_push (a0 a1 : Z) : H (handle_console_push cid a0 a1).
Proof.
  look reads_demand_slot. intros ? _. apply pre_inv, inv_seq; [apply do_push_byte|intros ?; apply end_ret].
Qed.

Lemma bound_log (a0 a1 a2 : Z) : H (handle_log cid a0 a1 a2).
Proof. look reads_demand_slot. intros ? _. look reads_text. intros b _. apply pre_inv, end_ret. Qed.

Lemma bound_stat (ar : Arch) (a0 a1 a2 : Z) : H (handle_task_stat ar cid a0 a1 a2).
Proof.
  look reads_demand. intros ? _. look reads_guard. intros ? _. look reads_guard. intros ? _. apply pre_inv. seq. seq. apply end_ret.
Qed.

Lemma bound_caps (a0 a1 a2 : Z) : H (handle_task_caps cid a0 a1 a2).
Proof.
  look reads_demand. intros ? _. cbv zeta. case_match; [apply pre_inv, end_ret|]. look @reads_gets. intros l _.
  look reads_guard. intros ? _. apply pre_inv. seq. apply end_ret.
Qed.

Lemma bound_inspect (ar : Arch) (a0 a1 a2 : Z) : H (handle_inspect_kernel ar cid a0 a1 a2).
Proof.
  unfold handle_inspect_kernel. eapply (pre_reads _ (fun _ => True)).
  { case_match; [by apply reads_ret|]. intros y y' r Hy Hr. pose proof (reads_demand _ _ y y' r Hy Hr). destruct r; naive_solver. }
  intros ? _. cbv zeta. unfold inspect_generation, inspect_boot_record.
  repeat first [apply pre_inv, end_ret|apply pre_fail|look reads_name; intros ? _|look @reads_gets; intros ? _|
                (apply pre_inv; seq; apply end_ret)|case_match].
Qed.

Lemma bound_alloc (ar : Arch) (a0 : Z) : H (handle_alloc_mem ar cid a0).
Proof.
  look reads_guard. intros ? _. apply pre_inv, inv_seq; [apply do_neutral, neutral_claim|].
  intros [va|]; [apply end_ret|apply end_fail].
Qed.

Lemma bound_unmask (a0 : Z) : H (handle_irq_unmask cid a0).
Proof.
  look @reads_gets. intros ep _. look @reads_gets. intros owner _. look reads_guard. intros ? _.
  apply pre_inv, inv_seq; [|intros ?; apply end_ret]. apply do_aside; [done|]. intros k Hi. exact (proj1 (gate_vector_spec _ _ false Hi)).
Qed.

Lemma eoi_wf (i : Irq) : irq_wf i -> irq_wf (send_eoi i).
Proof. by intros []. Qed.

Lemma deliver_irq_parts (i : Irq) (r : RoutingState) (s : Sched) (irq : nat) i' r' s' ipi :
  irq_wf i -> routing_wf r -> deliver_irq i r s cid irq = (i', r', s', ipi) ->
  irq_wf i' /\ same_life s s' /\ current_task_slot s' cid = current_task_slot s cid /\
  (r' = r \/ exists ep, registered_endpoint i irq = Some ep /\ offers r r' ep (Message.interrupt_event (Z.of_nat irq))).
Proof.
  intros Hi Hr. unfold deliver_irq. destruct (deliver_front i irq Hi) as (Hreg & _).
  assert (irq_wf (send_eoi (mask_vector (note_seen i irq) (Z.of_nat irq)))) as Hw.
  { apply eoi_wf. exact (proj1 (gate_vector_spec (note_seen i irq) (Z.of_nat irq) true (note_seen_wf i irq Hi))). }
  revert Hw. rewrite Hreg. generalize (mask_vector (note_seen i irq) (Z.of_nat irq)) as i1. intros i1 Hw.
  assert (forall q, (send_eoi i1, r, s, q) = (i', r', s', ipi) -> irq_wf i' /\ same_life s s' /\
    current_task_slot s' cid = current_task_slot s cid /\
    (r' = r \/ exists ep, registered_endpoint i irq = Some ep /\ offers r r' ep (Message.interrupt_event (Z.of_nat irq)))) as Hid
    by (intros q [= <- <- <- <-]; split_and!; [done..|by left]).
  destruct (registered_endpoint i irq) as [ep|]; [|apply Hid]. destruct (_ <? _)%nat; [|apply Hid].
  pose proof (interrupt_offers r ep (Message.interrupt_event (Z.of_nat irq)) Hr) as Ho.
  pose proof (life_wake s cid) as Hl. pose proof (current_wake s) as Hc.
  destruct (enqueue_from_interrupt _ _ _) as [r1 [slot| | |]]; cbn in Ho.
  { specialize (Hl slot 0). specialize (Hc slot 0). destruct (wake_by_slot s cid slot 0) as [s1 q].
    intros [= <- <- <- <-]. split_and!; [done..|right; eauto]. }
  all: intros [= <- <- <- <-]; split_and!; [done..|right; eauto].
Qed.

Lemma bound_fire (a0 : Z) : H (handle_fire_irq cid a0).
Proof.
  look reads_demand. intros ? Hp. look reads_guard. intros ? _.
  eapply triple_bind; [|intros ?; apply end_ret]. apply triple_modify. intros y <-.
  destruct (deliver_irq _ _ _ cid (Z.to_nat a0)) as [[[i r] s] ipi] eqn:E.
  pose proof Hbase as [? Hr ? ? Hi]. destruct (deliver_irq_parts _ _ _ _ _ _ _ _ Hi Hr E) as (Hi' & Hl & Hc & Ho).
  set (y1 := put (with_tasks (y_k y0) (with_sched (k_tasks (y_k y0)) s)) y0).
  assert (B y1) as H1.
  { eapply bounded_harmless; [by apply bounded_refl|]. by apply harmless_sched. }
  assert (B (put (with_routing (y_k y1) r) y1)) as H2.
  { destruct Ho as [->|(ep & Hreg & Ho)].
    - eapply bounded_harmless; [exact H1|]. pose proof (bounded_wf _ _ _ _ H1) as [? ? ? ? ?]. by split.
    - eapply bounded_offers; [exact H1| |exact Ho]. by eapply sends_interrupt. }
  split; [|exact Hc]. eapply bounded_harmless; [exact H2|]. pose proof (bounded_wf _ _ _ _ H2) as [? ? ? ? ?].
  by split.
Qed.

Lemma do_power (f : Sched -> Sched * PowerChange) :
  (forall s, same_life s (f s).1) -> triple I (on_power f) fin B.
Proof.
  intros Hf. apply triple_outcome. intros y y' p [Hb Hm] HH. specialize (Hf (k_sched (y_k y))).
  destruct (f (k_sched (y_k y))) as [s c]. injection HH as <- <-. split; [|done].
  eapply bounded_harmless; [exact Hb|]. apply harmless_sched; [exact (bounded_wf _ _ _ _ Hb)|done].
Qed.

Lemma bound_power (a0 a1 : Z) : H (handle_power_off cid a0 a1).
Proof.
  unfold handle_power_off. cbv zeta. look reads_demand. intros ? _.
  case_match; [by apply pre_inv, inv_bounded, end_plain|].
  case_match; [case_match; [apply pre_fail|apply pre_inv, do_power; intros s; apply life_power_arm]|].
  case_match; [apply pre_inv, do_power; intros s; apply life_power_disarm|apply pre_inv, end_ret].
Qed.

Lemma bound_stub (rid : ResourceId) (right : Rights) (p : progress) :
  match p with Wait _ => False | _ => True end -> H (demand cid rid right ;;; M_ret p).
Proof. intros Hp. look reads_demand. intros ? _. by apply pre_inv, inv_bounded, end_plain. Qed.

Lemma bound_usb_write (a1 : Z) : H (handle_usb_disk_write cid a1).
Proof. look reads_demand. intros ? _. look reads_user. intros b _. apply pre_inv, end_ret. Qed.

Lemma bound_yield : H (do_yield cid ;;; M_ret Yielded).
Proof. apply pre_inv. eapply triple_bind; [apply do_yield_bounded|]. intros ?. by apply end_plain. Qed.

Lemma bound_park : H (block_return cid BlockedOnRecv WPark).
Proof. by apply pre_inv, do_block_return. Qed.

Create HintDb calls.
Hint Resolve bound_send bound_recv bound_try_send bound_yield bound_log bound_alloc bound_acquire bound_send_with_cap
  bound_take_pending bound_inspect bound_query bound_remove bound_stat bound_console_read bound_push bound_park
  bound_console_write bound_try_console_read bound_caps bound_derive bound_mint bound_invoke bound_revoke bound_last_badge
  bound_try_recv bound_recv_timeout bound_unmask bound_sleep bound_foreground bound_usb_write bound_fire bound_power : calls.

Lemma bound_dispatch (ar : Arch) (n a0 a1 a2 : Z) :
  n ∉ [8; 52; 57] -> H (dispatch ar cid n a0 a1 a2).
Proof.
  intros Hn. unfold dispatch.
  repeat first [progress auto with calls nocore|apply bound_do_call|apply bound_con|(by apply bound_stub)|
    apply pre_inv, end_ret|case_match]; exfalso; set_solver.
Qed.

(** The rest of a blocked call. *)
Lemma bound_resume (ar : Arch) (w : Waiting) :
  (forall ep, wait_port w = Some ep -> ports ep) -> H (resume_wait ar cid w).
Proof.
  intros Hw. look @reads_gets. intros err _. apply pre_inv. destruct w as [|w|w|w|d| |].
  - apply end_ret.
  - case_match; [apply do_recv_loop; by apply Hw|apply do_recv_done].
  - case_match; [apply do_call_await; by apply Hw|apply end_fail].
  - case_match; [apply do_call_loop; by apply Hw|apply do_call_done].
  - case_match; [apply do_sleep_loop|seq; apply end_ret].
  - case_match; [apply do_console_loop|apply inv_seq; [apply do_read_waiter|intros ?; apply end_ret]].
  - apply end_ret.
Qed.

Lemma finish_bound (m : Handler progress) (y : Sys) (p : progress) :
  H m -> finish Ret m y0 = Done (y, p) -> fin p y.
Proof.
  intros Hm Hf. unfold finish in Hf. apply bind_Done in Hf as ([y1 r] & Hr & [= <- <-]).
  specialize (Hm y0 y1 r eq_refl Hr). by destruct r.
Qed.

End Pieces.

(** *** The calls that end tasks or start them *)

Lemma yield_wf (k : Kernel) (cid : nat) :
  kernel_wf k -> kernel_wf (with_tasks k (with_sched (k_tasks k) (yield_current (k_sched k) cid (k_respawn k)).1)).
Proof. intros Hwf. eapply keeps_wf; [|exact Hwf]. apply keeps_sched; [apply Hwf|apply life_yield]. Qed.

Notation wf_post := (fun _ y => kernel_wf (y_k y)).
Notation wf_sys := (fun y => kernel_wf (y_k y)).

Lemma wf_ret {A} (a : A) : triple wf_sys (M_ret a : Handler A) wf_post wf_sys.
Proof. intros y y' r Hy [= <- <-]. exact Hy. Qed.

Lemma wf_reads {A C} (m : Handler A) (g : A -> Handler C) F :
  (forall y0, reads y0 m (F y0)) -> (forall a, triple wf_sys (g a) wf_post wf_sys) -> triple wf_sys (M_bind m g) wf_post wf_sys.
Proof.
  intros Hm Hg. eapply triple_bind; [|exact Hg]. intros y y' r Hwf Hr. specialize (Hm y y y' r eq_refl Hr).
  destruct r; [by destruct Hm as [-> _]|by subst].
Qed.

Lemma wf_assert : triple wf_sys assert_cap_table_consistent wf_post wf_sys.
Proof.
  apply triple_outcome. intros y y' x Hwf HH. cbv beta in HH. apply bind_Done in HH as ([k []] & Hk & [= <- <-]).
  case_match; [|done]. by injection Hk as <-.
Qed.

Lemma wf_yield (cid : nat) : triple wf_sys (do_yield cid) wf_post wf_sys.
Proof. apply triple_modify. intros y Hwf. by apply yield_wf. Qed.

Lemma wf_kill (cid : nat) (a0 a1 : Z) : triple wf_sys (handle_kill cid a0 a1) wf_post wf_sys.
Proof.
  unfold handle_kill. eapply wf_reads; [intros y0; apply reads_demand|]. intros ?.
  eapply wf_reads; [intros y0; apply reads_name|]. intros name. eapply wf_reads; [intros y0; apply reads_gets|]. intros my.
  eapply triple_bind.
  - apply (triple_outcome _ _ wf_post). intros y y' x Hwf HH. cbv beta in HH. apply bind_Done in HH as ([k b] & Hk & [= <- <-]).
    pose proof (kill_by_name_loop_spec (S MAX_TASKS) (y_k y) cid name (Killed my) false Hwf) as Hs.
    unfold kill_by_name in Hk. destruct (kill_by_name_loop _ _ _ _ _ _) as [o|]; [|done]. subst o.
    apply Hs. unfold population. pose proof (count_le_length (alive (k_sched (y_k y))) (seq 0 MAX_TASKS)). rewrite length_seq in *. lia.
  - intros []; [|by apply triple_fail]. eapply triple_bind; [apply wf_assert|]. intros ?.
    eapply triple_bind; [|intros dead].
    + apply (triple_outcome _ _ wf_post). intros y y' d Hwf HH. cbv beta in HH. apply bind_Done in HH as ([k b] & Hk & [= <- <-]).
      by apply bind_Done in Hk as (d' & _ & [= <- <-]).
    + case_match; [|apply wf_ret]. eapply triple_bind; [apply wf_yield|]. intros ?. apply wf_ret.
Qed.

Lemma wf_exit (cid : nat) (a0 : Z) : triple wf_sys (handle_exit cid a0) wf_post wf_sys.
Proof.
  unfold handle_exit. eapply wf_reads; [intros y0; apply reads_gets|]. intros my.
  eapply triple_bind.
  - apply (triple_outcome _ _ wf_post). intros y y' x Hwf HH. cbv beta in HH. apply bind_Done in HH as ([k b] & Hk & [= <- <-]).
    apply bind_Done in Hk as (k1 & Hk & [= <- <-]). by eapply kill_wf.
  - intros ?. eapply triple_bind; [apply wf_assert|]. intros ?. eapply triple_bind; [apply wf_yield|]. intros ?. apply wf_ret.
Qed.

Lemma wf_spawn_image (ar : Arch) (cid : nat) (a0 a1 a2 : Z) : triple wf_sys (spawn_image ar cid a0 a1 a2) wf_post wf_sys.
Proof.
  apply triple_outcome. intros y y' p Hwf HH. cbv beta in HH. apply bind_Done in HH as ([k code] & Hk & [= <- <-]).
  exact (proj1 (spawn_image_confines _ _ _ _ _ _ _ _ _ _ Hwf Hk)).
Qed.

(** Every system call, and the rest of every blocked one, keeps the kernel
    well-formed. *)
Lemma call_wf (ar : Arch) (cid : nat) (n a0 a1 a2 : Z) (y y' : Sys) (p : progress) :
  kernel_wf (y_k y) -> syscall_handler ar cid n a0 a1 a2 y = Done (y', p) -> kernel_wf (y_k y').
Proof.
  intros Hwf HH. destruct (decide (n ∈ [8; 52; 57])) as [Hn|Hn].
  - unfold syscall_handler, finish in HH. apply bind_Done in HH as ([y1 r] & Hr & [= <- <-]).
    rewrite !elem_of_cons, elem_of_nil in Hn. destruct Hn as [->|[->|[->|[]]]].
    + pose proof (wf_kill cid a0 a1 y y1 r Hwf Hr). by destruct r.
    + pose proof (wf_spawn_image ar cid a0 a1 a2 y y1 r Hwf Hr). by destruct r.
    + pose proof (wf_exit cid a0 y y1 r Hwf Hr). by destruct r.
  - eapply keeps_wf; [|exact Hwf]. eapply bd_keeps.
    eapply (proj1 (finish_bound y cid (receives (y_k y) cid) _ _ _ (bound_dispatch _ _ _ (kw_base _ Hwf) (fun _ x => x) _ _ _ _ _ Hn) HH)).
Qed.

Lemma resume_wf (ar : Arch) (cid : nat) (w : Waiting) (y y' : Sys) (p : progress) :
  kernel_wf (y_k y) -> resume ar cid w y = Done (y', p) -> kernel_wf (y_k y').
Proof.
  intros Hwf HH. eapply keeps_wf; [|exact Hwf]. eapply bd_keeps.
  eapply (proj1 (finish_bound y cid (fun ep => wait_port w = Some ep) _ _ _ (bound_resume _ _ _ (kw_base _ Hwf) ar w (fun _ x => x)) HH)).
Qed.

End PieceFacts.
