(* ===== verification/Lifecycle.v ===== *)
(** * From boot to a running system

    The kernel's state at boot ([capability::init] and the initial values of
    the statics), the supervisor's spawn ([spawn_supervisor] of
    [kernel/src/task/mod.rs]) and what holds of every state the kernel reaches
    from there: by spawns, kills, system calls, timer ticks and interrupts. *)

From S2P Require Import Prelude Prog Capability CapTable Delegated Queue Routing Names Sched TaskData Interrupt Kernel Abi.
From S2P Require Import PageTables Loader Spawn SpawnImage Console Syscalls Confine CallBounds.

Definition kernel_boot (cores : nat) : outcome Kernel :=
  R ← init GlobalResourceTable.new;
  Done (mkKernel (tasks_boot cores) routing_boot (mkDelegated R Band.new) names_boot endpoint_ids_boot (irq_boot true)
          1 u32_max u32_max (false, true) [] false 0 0).

(** The arguments [spawn_supervisor] passes. *)
Definition supervisor_request : SpawnRequest :=
  mkRequest SUPERVISOR 0 true [] false 67108864 [] false None None false false 0.

Definition spawn_supervisor (an : Answers) (k : Kernel) : outcome Kernel :=
  '(k, r) ← spawn_service_with_image supervisor_request an k;
  match r with Ok _ => Done k | Err _ => Panic end.

(** ** What the kernel does *)

Inductive kstep : Kernel -> Kernel -> Prop :=
| step_spawn k k' rq an r :
    utf8_valid (rq_name rq) = true -> spawn_service_with_image rq an k = Done (k', r) -> kstep k k'
| step_spawn_image k k' mc an mem cid req_ptr req_len s ret :
    handle_spawn_image mc an mem cid req_ptr req_len s k = Done (k', ret) -> kstep k k'
| step_kill k k' my slot cause :
    kill_task_by_slot k my slot cause = Done k' -> kstep k k'
| step_call y y' ar cid n a0 a1 a2 p :
    syscall_handler ar cid n a0 a1 a2 y = Done (y', p) -> kstep (y_k y) (y_k y')
| step_resume y y' ar cid w p :
    resume ar cid w y = Done (y', p) -> kstep (y_k y) (y_k y')
| step_tick k s cid p1 p2 sw :
    timer_tick_from_irq (k_sched k) cid p1 p2 = Some (s, sw) -> kstep k (with_tasks k (with_sched (k_tasks k) s))
| step_run k cid : kstep k (with_tasks k (with_sched (k_tasks k) (run_once (k_sched k) cid).1))
| step_irq k cid irq i r s ipi :
    deliver_irq (k_irq k) (k_routing k) (k_sched k) cid irq = (i, r, s, ipi) ->
    kstep k (with_irq (with_routing (with_tasks k (with_sched (k_tasks k) s)) r) i).

Module LifecycleFacts.
Import SchedFacts TaskDataFacts IrqFacts KernelFacts SpawnFacts SpawnImageFacts LifeFacts ConfineFacts PieceFacts.

Lemma init_wf (R : GRT) : init GlobalResourceTable.new = Done R -> reg_wf R.
Proof.
  unfold init. assert (forall l o, (forall R, o = Done R -> reg_wf R) -> Forall direct_id l ->
    forall R, foldl (fun R id => R ≫= fun R => register_resource R id) o l = Done R -> reg_wf R) as H.
  { induction l as [|id l IH]; intros o Ho Hl R0; [apply Ho|]. apply Forall_cons in Hl as [Hid Hl]. cbn [foldl].
    apply IH; [|done]. intros R1 (R2 & -> & H2)%bind_Done.
    by apply (reg_register_get R2 R1 id Generation.INITIAL (Ho R2 eq_refl) Hid) in H2 as [H2 _]. }
  apply H.
  - intros R0 [= <-]. apply GRTFacts.new_wf.
  - apply Forall_forall. intros id Hid. unfold direct_id, DIRECT_CAP.
    assert (Forall (fun id => 0 <= id < 8192) STABLE_RESOURCES) as Hf by (repeat constructor; vm_compute; intuition congruence).
    by apply (proj1 (Forall_forall _ _) Hf).
Qed.

Lemma boot_slot (n j : nat) : task_at (sched_boot n) j = empty_slot.
Proof. unfold task_at, sched_boot. cbn [tasks]. destruct (replicate MAX_TASKS empty_slot !! j) eqn:E; [|done].
  by apply lookup_replicate in E as [-> _]. Qed.

Lemma boot_task_data (n j : nat) : data_at (tasks_boot n) j = boot_data.
Proof. unfold data_at, tasks_boot. cbn [data]. destruct (replicate MAX_TASKS boot_data !! j) eqn:E; [|done].
  by apply lookup_replicate in E as [-> _]. Qed.

Lemma boot_endpoints (n : nat) : endpoints (tasks_boot n) = [].
Proof.
  apply elem_of_nil_inv. intros x (l & Hl & Hel)%list_elem_of_join. apply list_elem_of_fmap in Hel as (j & -> & _).
  unfold endpoints_of, alive in Hl. cbn [tasks_boot sched] in Hl. rewrite boot_slot in Hl. cbn [empty_slot t_valid] in Hl.
  rewrite andb_false_r in Hl. by apply not_elem_of_nil in Hl.
Qed.

Lemma boot_wf (n : nat) (k : Kernel) : kernel_boot n = Done k -> kernel_wf k.
Proof.
  unfold kernel_boot. intros (R & HR%init_wf & [= <-])%bind_Done. split.
  - split; cbn [k_tasks k_routing k_delegated k_names k_irq].
    + split; cbn; try by rewrite length_replicate.
      * split; cbn; by rewrite length_replicate.
      * split; cbn; by rewrite length_replicate.
    + apply routing_boot_inv.
    + split; [done|]. split; cbn; [by rewrite length_replicate|]. unfold DELEGATED_CAP. lia.
    + apply names_boot_wf.
    + split; cbn; try by rewrite length_replicate. apply Forall_replicate. unfold MAX_IRQ. lia.
  - intros j _. unfold vacant, k_sched. cbn [k_tasks tasks_boot sched]. by rewrite boot_slot, boot_task_data.
  - exists []. cbn [k_tasks k_ids]. rewrite boot_endpoints. apply endpoint_ids_boot_wf.
  - intros b e. cbn [k_names]. rewrite lookup_name_spec by apply names_boot_wf.
    intros (i & x & Hx & Hv & _). unfold names_boot in Hx. by apply lookup_replicate in Hx as [-> _].
Qed.

Lemma step_wf (k k' : Kernel) : kstep k k' -> kernel_wf k -> kernel_wf k'.
Proof.
  intros [? ? rq an r Hu H|? ? ? ? ? ? ? ? ? ? H|? ? my slot cause H|? ? ? ? ? ? ? ? ? H|? ? ? ? ? ? H|? ? ? ? ? ? H|? cid|
          ? cid irq i r s ipi H] Hwf.
  - pose proof (spawn_spec rq an k0 Hu Hwf k0 k'0 r eq_refl H) as Hs. destruct r; [by destruct Hs as [? []]|apply Hs].
  - by apply (spawn_image_confines _ _ _ _ _ _ _ _ _ _ Hwf H).
  - by eapply kill_wf.
  - by eapply call_wf.
  - by eapply resume_wf.
  - eapply keeps_wf; [|exact Hwf]. apply keeps_sched; [apply Hwf|by eapply life_tick].
  - eapply keeps_wf; [|exact Hwf]. apply keeps_sched; [apply Hwf|apply life_run].
  - pose proof (kw_base _ Hwf) as [Ht Hr ? ? Hi]. destruct (deliver_irq_parts _ _ _ _ _ _ _ _ _ Hi Hr H) as (Hi' & Hl & _ & Ho).
    pose proof (keeps_sched k0 s (kw_base _ Hwf) Hl) as Hk. eapply keeps_wf; [|exact Hwf].
    eapply keeps_trans; [exact Hk|]. apply keeps_base; try done. destruct (kp_base _ _ Hk) as [? ? ? ? ?].
    split; try done. destruct Ho as [->|(ep & _ & Ho)]; [done|apply Ho].
Qed.

Lemma reachable_wf (n : nat) (k0 k : Kernel) : kernel_boot n = Done k0 -> rtc kstep k0 k -> kernel_wf k.
Proof. intros Hb%boot_wf. induction 1 as [|? ? ? Hs _ IH]; [done|]. apply IH. by eapply step_wf. Qed.

Lemma with_routing_wf (k : Kernel) (r : RoutingState) : kernel_wf k -> routing_wf r -> kernel_wf (with_routing k r).
Proof.
  intros Hwf Hr. eapply same_owners_kernel; [|exact Hwf]. destruct (kw_base k Hwf). by apply same_owners_base.
Qed.

End LifecycleFacts.

Import SchedFacts TaskDataFacts IrqFacts KernelFacts SpawnFacts SpawnImageFacts LifecycleFacts.

(** ** Sample states *)

Definition all_fine : Answers := mkAnswers (Ok 8192) (Ok None) None None (Some 4096).

(** The bytes of "fs" and of "log". *)
Definition FS : list Z := [102; 115].
Definition LOG : list Z := [108; 111; 103].

Definition service (name : list Z) (peers : list (list Z)) (irqs : list nat) : SpawnRequest :=
  mkRequest name 1 true peers false 1048576 irqs false (Some 0) None true false 0.

Definition run_spawn (rq : SpawnRequest) (an : Answers) (k : outcome Kernel) : outcome Kernel :=
  k ← k; '(k, _) ← spawn_service_with_image rq an k; Done k.

(** Boot, the supervisor, then two services. *)
Definition sample_boot : outcome Kernel := k ← kernel_boot 2; spawn_supervisor all_fine k.
Definition sample_kernel : outcome Kernel := run_spawn (service LOG [FS] []) all_fine (run_spawn (service FS [] []) all_fine sample_boot).

Lemma sample_reachable (k : Kernel) : sample_kernel = Done k -> exists k0, kernel_boot 2 = Done k0 /\ rtc kstep k0 k.
Proof.
  unfold sample_kernel, run_spawn, sample_boot, spawn_supervisor. intros H.
  apply bind_Done in H as (k3 & H & H3). apply bind_Done in H3 as ([k4 r4] & H4 & [= <-]).
  apply bind_Done in H as (k2 & H & H2). apply bind_Done in H2 as ([k3' r3] & H3 & [= <-]).
  apply bind_Done in H as (k0 & H0 & H). apply bind_Done in H as ([k1 r1] & H1 & H).
  destruct r1; [|done]. injection H as <-. exists k0. split; [done|].
  eapply rtc_l; [by eapply (step_spawn _ _ supervisor_request); [|exact H1]|].
  eapply rtc_l; [by eapply (step_spawn _ _ (service FS [] [])); [|exact H3]|].
  eapply rtc_l; [by eapply (step_spawn _ _ (service LOG [FS] [])); [|exact H4]|]. apply rtc_refl.
Qed.

(** ** Properties *)




(** C8: killing a task severs every authority that came from it.  After the kill,
    whoever holds a capability for one of the task's mailboxes or for a
    resource it had minted, in whatever table, has every use of it refused;
    both mailboxes are dead; its name no longer resolves to its mailbox; no
    interrupt is routed to it; the resources it had minted have no owner; and
    no other task's data, name included, has changed. *)
Theorem kill_severs_authority (k k' : Kernel) (my slot : nat) (cause : Cause)
    (ep := d_endpoint (data_at (k_tasks k) slot)) (rep := d_reply_endpoint (data_at (k_tasks k) slot)) :
  kernel_wf k -> alive (k_sched k) slot = true -> kill_task_by_slot k my slot cause = Done k' ->
  (forall (table : CapTable) (i : nat) (r : Rights) (c : Capability),
     CapTable.held table i = Some c -> 0 < resource_id c -> not_ahead (k_registry k) c ->
     resource_id c = ep \/ resource_id c = rep \/ (ep <> 0 /\ owner_of (k_delegated k) (resource_id c) = Some ep) ->
     CapTable.get (k_registry k') table i r = Err EndpointDead \/ CapTable.get (k_registry k') table i r = Err CapRevoked) /\
  (forall e, e <> 0 -> e = ep \/ e = rep -> target_alive (k_routing k') e = false) /\
  (ep <> 0 -> lookup_name (k_names k') (task_name (k_tasks k) slot) <> Some ep) /\
  (ep <> 0 -> forall irq, registered_endpoint (k_irq k') irq <> Some ep) /\
  (ep <> 0 -> forall id, owner_of (k_delegated k') id <> Some ep) /\
  alive (k_sched k') slot = false /\
  (forall j, j <> slot -> data_at (k_tasks k') j = data_at (k_tasks k) j /\ task_name (k_tasks k') j = task_name (k_tasks k) j /\
                          alive (k_sched k') j = alive (k_sched k) j).
Proof.
  intros Hwf Ha H. pose proof (killed_of _ _ _ _ _ Hwf Ha H) as K. fold ep rep in K. split_and!.
  - intros table i r c Hh Hpos Hna Hc. apply (stale_refused _ _ _ _ c Hh).
    by apply (kd_stale _ _ _ _ _ K c Hpos Hc).
  - apply K.
  - intros Hz Hl. destruct (kd_name _ _ _ _ _ K _ _ Hl) as [_ Hn]. by apply Hn.
  - intros Hz irq Hi. destruct (kd_irq _ _ _ _ _ K _ _ Hi) as [_ Hn]. by destruct (Hn Hz).
  - intros Hz id Ho. destruct (kd_owner _ _ _ _ _ K _ _ Ho) as [_ Hn]. by apply Hn.
  - apply K.
  - intros j Hj. split_and!; [by apply K| |by apply K]. unfold task_name. by rewrite (kd_rows _ _ _ _ _ K).
Qed.

(** The sample's tasks: the supervisor, "fs" and "log", in that order. *)
Lemma sample_kernel_wf (k : Kernel) : sample_kernel = Done k -> kernel_wf k.
Proof. intros (k0 & H0 & Hr)%sample_reachable. by eapply reachable_wf. Qed.

Lemma kill_severs_authority_witness :
  exists k k', sample_kernel = Done k /\ kill_task_by_slot k 0 1 (Killed 0) = Done k' /\
    (CapTable.get (k_registry k) (d_caps (data_at (k_tasks k) 2)) 5 Rights.SEND = Ok (mkCapability 102 Rights.SEND 3)) /\
    (CapTable.get (k_registry k') (d_caps (data_at (k_tasks k) 2)) 5 Rights.SEND = Err EndpointDead \/
     CapTable.get (k_registry k') (d_caps (data_at (k_tasks k) 2)) 5 Rights.SEND = Err CapRevoked).
Proof.
  assert (match sample_kernel with
          | Done k => d_endpoint (data_at (k_tasks k) 1) = 102 /\ alive (k_sched k) 1 = true /\
              CapTable.held (d_caps (data_at (k_tasks k) 2)) 5 = Some (mkCapability 102 Rights.SEND 3) /\
              CapTable.get (k_registry k) (d_caps (data_at (k_tasks k) 2)) 5 Rights.SEND = Ok (mkCapability 102 Rights.SEND 3) /\
              (rec_generation <$> GlobalResourceTable.get_record (k_registry k) 102) = Some 3 /\
              (if kill_task_by_slot k 0 1 (Killed 0) then True else False)
          | Panic => False end) as H by (vm_compute; intuition reflexivity).
  destruct sample_kernel as [k|] eqn:E; [|destruct H]. destruct H as (He & Ha & Hh & Hg & Hr & Hk).
  destruct (kill_task_by_slot k 0 1 (Killed 0)) as [k'|] eqn:Ek; [|destruct Hk]. exists k, k'.
  split; [reflexivity|]. split; [exact Ek|]. split; [exact Hg|].
  destruct (kill_severs_authority k k' 0 1 (Killed 0) (sample_kernel_wf k E) Ha Ek) as (Hc & _).
  apply (Hc _ _ Rights.SEND _ Hh); [reflexivity| |left; symmetry; exact He].
  destruct (GlobalResourceTable.get_record (k_registry k) 102) as [rec|] eqn:Er; [|discriminate Hr].
  exists rec. split; [exact Er|]. injection Hr as Hr. cbn. lia.
Defined.

(** The sample with "log" blocked in a call to [ep]. *)
Definition sample_call (k : Kernel) (ep : Z) : Kernel := with_routing k (set_call_await (k_routing k) 2 ep).

Lemma sample_call_wf (k : Kernel) (ep : Z) : sample_kernel = Done k -> kernel_wf (sample_call k ep).
Proof.
  intros Hwf%sample_kernel_wf. apply with_routing_wf; [done|]. destruct (bw_routing _ (kw_base _ Hwf)).
  split; cbn; try done. by rewrite length_insert.
Qed.



(** A call to a reply mailbox is not drained when its owner dies.  A task [j]
    blocked in a call on the dead task's reply mailbox, with nothing else to
    wake it, is left exactly as it was: still blocked, still waiting for the
    reply of a mailbox that is now dead. *)
Theorem reply_mailbox_caller_stranded (k k' : Kernel) (my slot j : nat) (cause : Cause)
    (rep := d_reply_endpoint (data_at (k_tasks k) slot)) :
  kernel_wf k -> alive (k_sched k) slot = true -> kill_task_by_slot k my slot cause = Done k' ->
  j <> slot -> rep <> 0 -> rep <> d_endpoint (data_at (k_tasks k) slot) ->
  CALL_AWAIT_EP (k_routing k) !! j = Some rep -> ~ kill_wakes k slot j ->
  task_at (k_sched k') j = task_at (k_sched k) j /\ CALL_AWAIT_EP (k_routing k') !! j = Some rep /\
  target_alive (k_routing k') rep = false.
Proof.
  intros Hwf Ha H Hj Hz Hne Haw Hnw. pose proof (killed_of _ _ _ _ _ Hwf Ha H) as K. split_and!.
  - destruct (kd_task _ _ _ _ _ K j Hj) as [Ht|[Hw _]]; [done|]. by destruct Hnw.
  - by apply (kd_await_keep _ _ _ _ _ K).
  - apply (kd_dead _ _ _ _ _ K); [done|by right].
Qed.

Lemma reply_mailbox_caller_stranded_witness :
  exists k k', sample_kernel = Done k /\ kill_task_by_slot (sample_call k 103) 0 1 (Killed 0) = Done k' /\
    CALL_AWAIT_EP (k_routing k') !! 2%nat = Some 103 /\ target_alive (k_routing k') 103 = false.
Proof.
  assert (match sample_kernel with
          | Done k =>
              let s := sample_call k 103 in
              (d_reply_endpoint (data_at (k_tasks s) 1) = 103 /\ d_endpoint (data_at (k_tasks s) 1) = 102 /\
               alive (k_sched s) 1 = true /\ CALL_AWAIT_EP (k_routing s) !! 2%nat = Some 103 /\ k_foreground s = u32_max) /\
              waiters_of (k_routing s) 103 = [] /\ waiters_of (k_routing s) 102 = [] /\
              (sup ← lookup_name (k_names s) SUPERVISOR; e ← lookup_entry (k_routing s) sup; Some (blocked_receiver e)) = Some None /\
              (if kill_task_by_slot s 0 1 (Killed 0) then True else False)
          | Panic => False end) as H by (vm_compute; intuition reflexivity).
  destruct sample_kernel as [k|] eqn:E; [|destruct H]. destruct H as ((Hr & He & Ha & Haw & Hf) & Hw1 & Hw2 & Hs & Hk).
  destruct (kill_task_by_slot (sample_call k 103) 0 1 (Killed 0)) as [k'|] eqn:Ek; [|destruct Hk]. exists k, k'.
  split; [reflexivity|]. split; [exact Ek|].
  pose proof (reply_mailbox_caller_stranded (sample_call k 103) k' 0 1 2 (Killed 0) (sample_call_wf k 103 E) Ha Ek) as H.
  cbv zeta in H. rewrite Hr, He in H. apply H; [lia|lia|lia|exact Haw|].
  unfold kill_wakes. rewrite Hr, He, Hw1, Hw2. intros [[Hfg _]|[Hn|[Hn|[Hn|(sup & e & H1 & H2 & _ & H3)]]]].
  - rewrite Hf in Hfg. discriminate Hfg.
  - exact (not_elem_of_nil _ Hn).
  - exact (not_elem_of_nil _ Hn).
  - rewrite Haw in Hn. discriminate Hn.
  - rewrite H1 in Hs. cbn [mbind option_bind] in Hs. rewrite H2 in Hs. cbn [mbind option_bind] in Hs.
    rewrite H3 in Hs. discriminate Hs.
Defined.

(** C38: killing by name ends and leaves nobody: the loop needs no more rounds than
    there are task slots, and unless the kernel panics it returns a state in
    which no live task has the name, saying whether there was one. *)
Theorem kill_by_name_terminates (k : Kernel) (my : nat) (name : list Z) (cause : Cause) :
  kernel_wf k ->
  exists o, kill_by_name k my name cause = Some o /\
    match o with
    | Done (k', found) =>
        kernel_wf k' /\ find_task_by_name (k_tasks k') name = None /\
        found = bool_decide (is_Some (find_task_by_name (k_tasks k) name))
    | Panic => True
    end.
Proof.
  intros Hwf. pose proof (kill_by_name_loop_spec (S MAX_TASKS) k my name cause false Hwf) as H. unfold kill_by_name.
  assert (population (k_sched k) < S MAX_TASKS)%nat as Hp.
  { unfold population. pose proof (count_le_length (alive (k_sched k)) (seq 0 MAX_TASKS)) as Hc.
    rewrite length_seq in Hc. lia. }
  specialize (H Hp). destruct (kill_by_name_loop (S MAX_TASKS) k my name cause false) as [o|].
  - exists o. split; [done|]. destruct o as [[k' found]|]; [|done]. by apply H.
  - by destruct H.
Qed.

Lemma kill_by_name_terminates_witness :
  exists k k', sample_kernel = Done k /\ kill_by_name k 0 FS (Killed 0) = Some (Done (k', true)) /\
    find_task_by_name (k_tasks k') FS = None.
Proof.
  assert (match sample_kernel with
          | Done k => match kill_by_name k 0 FS (Killed 0) with Some (Done (_, true)) => True | _ => False end
          | Panic => False end) as H by (vm_compute; exact I).
  destruct sample_kernel as [k|] eqn:E; [|destruct H]. exists k.
  destruct (kill_by_name_terminates k 0 FS (Killed 0) (sample_kernel_wf k E)) as (o & Ho & Hs).
  rewrite Ho in H. destruct o as [[k' []]|]; [|destruct H..]. exists k'. split; [reflexivity|]. split; [exact Ho|].
  apply Hs.
Defined.

(** What the supervisor should make of a cause. *)
Definition death_of (t : Tasks) (cause : Cause) : Death :=
  match cause with
  | Killed by_slot => mkDeath KILLED 0 0 (task_name t by_slot)
  | Fault kind addr => mkDeath FAULT kind addr []
  | Exited status => mkDeath EXITED 0 status []
  end.

(** The values a cause carries fit their fields. *)
Definition cause_ok (cause : Cause) : Prop :=
  match cause with
  | Killed _ => True
  | Fault kind addr => 0 <= kind < 256 /\ 0 <= addr <= u64_max
  | Exited status => 0 <= status <= u32_max
  end.

(** C26: the death notice survives its journey.  The note the kernel writes for a
    task's death fits in a message, and the supervisor that receives the
    message reads back the task's name and how it ended: the killer's name, or
    the fault's kind and address, or the exit status. *)
Theorem death_notice_roundtrip (t : Tasks) (slot : nat) (cause : Cause) :
  0 ∉ task_name t slot -> cause_ok cause ->
  exists m, Message.new (death_note t (task_name t slot) cause) = Ok m /\
    let (name, how) := split_notice (Message.payload_bytes m) in
    name = task_name t slot /\ note_death_how how = death_of t cause.
Proof.
  intros H0 Hc. pose proof (task_name_length t slot) as Hl. unfold death_note. rewrite take_ge by done.
  set (tail := match cause with Killed _ => _ | Fault _ _ => _ | Exited _ => _ end).
  assert (length tail <= S TASK_NAME_MAX)%nat as Ht.
  { unfold tail. destruct cause; cbn [length]; rewrite ?length_take, ?to_le_length; unfold TASK_NAME_MAX, PEER_NAME_BYTES; lia. }
  destruct (payload_new (task_name t slot ++ 0 :: tail)) as (m & Hm & Hp).
  { rewrite length_app. cbn [length]. unfold MAX_MESSAGE_SIZE, TASK_NAME_MAX, PEER_NAME_BYTES in *. lia. }
  exists m. cbn [app]. split; [done|]. rewrite Hp, split_notice_name by done. split; [done|].
  unfold tail. destruct cause as [b|kind addr|status]; cbn [note_death_how death_of].
  - change (KILLED =? KILLED) with true. cbn [negb]. f_equal. unfold NAME_BYTES. rewrite take_take.
    apply take_ge. pose proof (task_name_length t b). unfold TASK_NAME_MAX, PEER_NAME_BYTES in *. lia.
  - destruct Hc as [_ Ha]. change (FAULT =? KILLED) with false. change (FAULT =? FAULT) with true.
    cbn [length]. rewrite to_le_length. cbn [andb Nat.leb drop take]. f_equal.
    rewrite drop_0, take_ge by (by rewrite to_le_length). by apply from_to_le8.
  - change (EXITED =? KILLED) with false. change (EXITED =? FAULT) with false. change (EXITED =? EXITED) with true.
    cbn [length]. rewrite to_le_length. cbn [andb Nat.leb drop take]. f_equal.
    rewrite drop_0, take_ge by (by rewrite to_le_length). by apply from_to_le4.
Qed.

Lemma death_notice_roundtrip_witness :
  exists k m, sample_kernel = Done k /\ Message.new (death_note (k_tasks k) FS (Fault 1 4096)) = Ok m /\
    note_death_how (split_notice (Message.payload_bytes m)).2 = mkDeath FAULT 1 4096 [].
Proof.
  assert (match sample_kernel with Done k => task_name (k_tasks k) 1 = FS | Panic => False end) as H
    by (vm_compute; reflexivity).
  destruct sample_kernel as [k|] eqn:E; [|destruct H]. exists k.
  destruct (death_notice_roundtrip (k_tasks k) 1 (Fault 1 4096)) as (m & Hm & Hs).
  - rewrite H. unfold FS. intros Hin. repeat (apply elem_of_cons in Hin as [Hin|Hin]; [discriminate Hin|]).
    exact (not_elem_of_nil _ Hin).
  - cbn. unfold u64_max. lia.
  - rewrite H in Hm, Hs. exists m. split; [reflexivity|]. split; [exact Hm|].
    destruct (split_notice (Message.payload_bytes m)) as [n h]. apply Hs.
Defined.

(** C25: a spawn request arrives as it was sent.  When a spawner's memory holds a
    request with the layout of the service library, with its name, its peers
    and the capabilities it installs where the request points, and the request
    asks for nothing the kernel refuses, then the kernel reads exactly that
    request: the same name and peers, for each installed slot the capability
    the spawner holds there, and the privileges, placement, limits and flags
    of the fields. *)
Theorem spawn_request_delivered (k : Kernel) (cid : nat) (mem : UserMem) (req_ptr : Z) (r : WireRequest)
    (name : list Z) (peers : list (list Z)) (pairs : list (list Z * Z)) (caps : list Capability) :
  posted mem req_ptr r name peers pairs ->
  fields_ok r = true -> 0 < wr_image_len r <= u32_max ->
  wr_privileges r = 0 \/ privileges_caller_lacks (k_tasks k) cid (wr_privileges r) = None ->
  name_ok name -> (length name <= NAME_BUF)%nat ->
  Forall name_ok peers -> utf8_valid (join_peers peers) = true -> (length peers <= MAX_SEND_PEERS)%nat ->
  (length (join_peers peers) <= SPAWN_PAYLOAD_MAX)%nat -> (length pairs <= MAX_SEND_PEERS)%nat ->
  Forall2 (fun p c => 0 <= p.2 < 65536 /\
    current_task_lookup_cap (k_registry k) (k_tasks k) cid (Z.to_nat p.2) Rights.GRANT = Ok c) pairs caps ->
  read_request k cid (fun _ => mem) req_ptr (Z.of_nat SPAWN_REQUEST_BYTES) =
    Done (Ok (mkImageRequest name (core_of r true) (core_of r false) (wr_memory_limit r)
      (asks (wr_flags r) SPAWN_FLAG_REQ_RECV) (asks (wr_flags r) SPAWN_FLAG_REQ_CONSOLE) peers
      (if decide (pairs = []) then None else Some (zip (fst <$> pairs) caps))
      (wr_privileges r) (wr_hw_flags r) (wr_dma_pages r) (wr_bdf r) (asks (wr_flags r) SPAWN_FLAG_PEERS_GRANT)
      (asks (wr_flags r) SPAWN_FLAG_WATCHED) (asks (wr_flags r) SPAWN_FLAG_HANDOVER))).
Proof.
  intros P Hf Him Hpr Hn Hnl Hp Hpu Hpn Hpl Hil Hcaps. unfold read_request. rewrite Z.eqb_refl. cbn [negb].
  rewrite (po_request _ _ _ _ _ _ P), decode_encode by apply P. cbv zeta. rewrite Hf. cbn [negb].
  replace (negb (wr_privileges r =? 0) && _) with false.
  2: { symmetry. apply andb_false_iff. destruct Hpr as [->| ->]; [by left|right].
       apply bool_decide_eq_false. by intros [? ?]. }
  rewrite (read_name_posted _ _ _ _ _ _ P Hn Hnl). cbn [mbind outcome_bind].
  rewrite (read_peers_posted _ _ _ _ _ _ P Hp Hpu Hpn Hpl).
  rewrite (proj2 (Z.eqb_neq _ _)), (proj2 (Z.ltb_ge _ _)) by lia. cbn [orb].
  by rewrite (read_installs_posted k cid _ _ _ _ _ _ _ P Hil Hcaps).
Qed.

(** The bytes of some regions; zero elsewhere. *)
Definition memory (regions : list (Z * list Z)) (a : Z) : Z :=
  foldr (fun reg rest => if (reg.1 <=? a) && (a <? reg.1 + Z.of_nat (length reg.2))
                         then default 0 (reg.2 !! Z.to_nat (a - reg.1)) else rest) 0 regions.

(** The supervisor on core 0 asks for "fs" with the privilege to introspect,
    the peer "log" and its own mailbox under the label "up". *)
Definition sample_wire (name : list Z) : WireRequest :=
  mkWire SPAWN_REQUEST_VERSION 17 65536 5000 8192 (Z.of_nat (length name)) u32_max 0 privbits.INTROSPECT 0 0 0 0 0 0 [0; 0; 0; 0]
    8448 3 8704 1 0.
Definition sample_memory (name : list Z) : UserMem :=
  memory [(4096, encode (sample_wire name)); (8192, name); (8448, join_peers [LOG]);
          (8704, default [] (encode_installs 64 [([117; 112], 3)]))].

Definition running_supervisor (k : Kernel) : Kernel :=
  with_tasks k (with_sched (k_tasks k) (set_current_task (k_sched k) 0 0)).

Lemma spawn_request_delivered_witness :
  exists k q, sample_boot = Done k /\
    read_request (running_supervisor k) 0 (fun _ => sample_memory FS) 4096 (Z.of_nat SPAWN_REQUEST_BYTES) = Done (Ok q) /\
    ir_name q = FS /\ ir_peers q = [LOG] /\ ir_privileges q = privbits.INTROSPECT /\
    ir_installs q = Some [([117; 112], mkCapability 100 SEND_GRANT 1)].
Proof.
  assert (match sample_boot with
          | Done k => current_task_lookup_cap (k_registry (running_supervisor k)) (k_tasks (running_supervisor k)) 0 3 Rights.GRANT
                        = Ok (mkCapability 100 SEND_GRANT 1) /\
              privileges_caller_lacks (k_tasks (running_supervisor k)) 0 privbits.INTROSPECT = None
          | Panic => False end) as H by (vm_compute; split; reflexivity).
  destruct sample_boot as [k|] eqn:E; [|destruct H]. destruct H as [Hc Hp]. exists k.
  pose proof (spawn_request_delivered (running_supervisor k) 0 (sample_memory FS) 4096 (sample_wire FS) FS [LOG] [([117; 112], 3)]
    [mkCapability 100 SEND_GRANT 1]) as H.
  rewrite H.
  - eexists. split; [reflexivity|]. split; [reflexivity|]. repeat split.
  - split; try (vm_compute; reflexivity).
    + repeat split; vm_compute; congruence.
    + intros _. exists 64%nat. eexists. eexists. split; [reflexivity|]. vm_compute. reflexivity.
  - reflexivity.
  - vm_compute. split; congruence.
  - right. exact Hp.
  - repeat split; [discriminate|]. apply (bool_decide_unpack _). vm_compute. exact I.
  - vm_compute. lia.
  - apply (bool_decide_unpack _). vm_compute. exact I.
  - reflexivity.
  - vm_compute. lia.
  - vm_compute. lia.
  - vm_compute. lia.
  - constructor; [|constructor]. split; [cbn; lia|exact Hc].
Defined.


Definition two_cores : Machine := mkMachine (fun c => (c <? 2)%nat) 2 7 (fun _ _ => 0%nat) (fun _ => false).

Lemma same_owners_sched (k : Kernel) (s : Sched) :
  base_wf k -> tasks s = tasks (k_sched k) -> same_owners k (with_tasks k (with_sched (k_tasks k) s)).
Proof.
  intros [[Hl Hd Hn Hp] ? ? ? ?] Ht. split; try done.
  - split; try done. split; try done. cbn. by rewrite Ht.
  - intros j. unfold task_at, k_sched. cbn. by rewrite Ht.
Qed.

Lemma spawn_supervisor_wf (an : Answers) (k k' : Kernel) : kernel_wf k -> spawn_supervisor an k = Done k' -> kernel_wf k'.
Proof.
  intros Hwf H. unfold spawn_supervisor in H. apply bind_Done in H as ([k1 r] & H1 & H).
  destruct r as [x|]; [|done]. injection H as <-.
  eapply step_wf; [eapply (step_spawn k k1 supervisor_request); [reflexivity|exact H1]|done].
Qed.

Lemma sample_boot_wf (k : Kernel) : sample_boot = Done k -> kernel_wf k.
Proof.
  unfold sample_boot. intros (k0 & H0 & H)%bind_Done. by eapply spawn_supervisor_wf; [eapply boot_wf|].
Qed.

Lemma running_supervisor_wf (k : Kernel) : sample_boot = Done k -> kernel_wf (running_supervisor k).
Proof.
  intros Hwf%sample_boot_wf. eapply same_owners_kernel; [|exact Hwf]. by apply same_owners_sched; [apply Hwf|].
Qed.


(** A name between 65 and 128 bytes long stops the kernel.  The handler accepts
    a name of up to 128 bytes and copies it into a buffer of 64: a request that
    passes every check before that, with a readable name longer than the
    buffer, ends in a panic. *)
Theorem long_name_panics (mc : Machine) (an : Answers) (mem : nat -> UserMem) (cid : nat) (req_ptr : Z)
    (spawn_cap_slot : nat) (k : Kernel) (cap : Capability) (raw name : list Z) :
  current_task_lookup_cap (k_registry k) (k_tasks k) cid spawn_cap_slot Rights.WRITE = Ok cap ->
  resource_id cap = SPAWN_RESOURCE ->
  current_task_holds_resource (k_tasks k) cid IMAGE_SPAWN_RESOURCE Rights.WRITE = true ->
  read_user_bytes (mem 0%nat) req_ptr (Z.of_nat SPAWN_REQUEST_BYTES) = Some raw ->
  fields_ok (decode raw) = true -> wr_privileges (decode raw) = 0 ->
  Z.of_nat NAME_BUF < wr_name_len (decode raw) <= Z.of_nat PEER_NAME_BYTES ->
  read_user_bytes (mem 1%nat) (wr_name_ptr (decode raw)) (wr_name_len (decode raw)) = Some name ->
  handle_spawn_image mc an mem cid req_ptr (Z.of_nat SPAWN_REQUEST_BYTES) spawn_cap_slot k = Panic.
Proof.
  intros Hl Hc Hi Hraw Hf Hp [Hlo Hhi] Hn. unfold handle_spawn_image. rewrite Hl, Hc, Z.eqb_refl. cbn [negb].
  rewrite Hi. cbn [negb]. unfold read_request. rewrite Z.eqb_refl. cbn [negb]. rewrite Hraw. cbv zeta. rewrite Hf. cbn [negb].
  rewrite Hp. cbn [Z.eqb negb andb]. unfold read_name. rewrite Hn.
  rewrite (proj2 (Z.eqb_neq (wr_name_len _) 0)) by (unfold NAME_BUF in *; lia).
  rewrite (proj2 (Z.ltb_ge _ (wr_name_len _))) by done. cbn [orb].
  destruct (AbiFacts.read_user_length _ _ _ _ Hn) as (_ & Hlen & _).
  by rewrite (proj2 (Nat.ltb_lt _ _)) by lia.
Qed.

(** A request whose name is 65 bytes of "a". *)
Definition long_wire : WireRequest :=
  mkWire SPAWN_REQUEST_VERSION 0 65536 5000 8192 65 u32_max 0 0 0 0 0 0 0 0 [0; 0; 0; 0] 0 0 0 0 0.
Definition sample_long : UserMem := memory [(4096, encode long_wire); (8192, replicate 65 97)].

Lemma long_name_panics_witness :
  exists k, sample_boot = Done k /\
    handle_spawn_image two_cores all_fine (fun _ => sample_long) 0 4096 (Z.of_nat SPAWN_REQUEST_BYTES) 1 (running_supervisor k) = Panic.
Proof.
  assert (match sample_boot with
          | Done k => current_task_lookup_cap (k_registry (running_supervisor k)) (k_tasks (running_supervisor k)) 0 1 Rights.WRITE
                        = Ok (mkCapability SPAWN_RESOURCE Rights.WRITE 0) /\
              current_task_holds_resource (k_tasks (running_supervisor k)) 0 IMAGE_SPAWN_RESOURCE Rights.WRITE = true
          | Panic => False end) as H by (vm_compute; split; reflexivity).
  destruct sample_boot as [k|] eqn:E; [|destruct H]. destruct H as [H1 H2]. exists k. split; [reflexivity|].
  apply (long_name_panics two_cores all_fine (fun _ => sample_long) 0 4096 1 (running_supervisor k)
           (mkCapability SPAWN_RESOURCE Rights.WRITE 0) (encode long_wire) (replicate 65 97) H1 eq_refl H2);
    vm_compute; try reflexivity. split; congruence.
Defined.

Lemma outcome_run {A B} (g : Kernel -> outcome (Kernel * A)) (f : A -> M B) (k k' : Kernel) (r : result B SpawnError) :
  M_bind (M_outcome g) f k = Done (k', r) -> exists k1 a, g k = Done (k1, a) /\ f a k1 = Done (k', r).
Proof.
  unfold M_bind, M_outcome. destruct (g k) as [[k1 a]|] eqn:E; [|done]. cbn. intros H. by exists k1, a.
Qed.

Lemma cleanup_quiet (k k' : Kernel) (slot : nat) (name : list Z) :
  cleanup_partial_spawn k slot name None = Done k' -> d_reply_endpoint (data_at (k_tasks k) slot) = 0 ->
  exists t, k' = with_tasks k t.
Proof.
  intros H Hz. unfold cleanup_partial_spawn in H. cbn [k_tasks with_tasks] in H.
  set (t1 := (take_task_hw_bdf (k_tasks k) slot).1) in H.
  assert (d_reply_endpoint (data_at t1 slot) = 0) as Hz1.
  { unfold t1, take_task_hw_bdf. destruct (slot <? MAX_TASKS)%nat; [|done]. unfold data_at in *. cbn.
    rewrite list_lookup_alter_eq. by destruct (data (k_tasks k) !! slot). }
  assert ((take_task_reply_endpoint t1 slot).2 = None) as Hr.
  { unfold take_task_reply_endpoint. destruct (MAX_TASKS <=? slot)%nat; [done|]. cbn. by rewrite Hz1. }
  destruct (take_task_reply_endpoint t1 slot) as [t r]. cbn in Hr. subst r. cbn in H. injection H as <-. by eexists.
Qed.

(** A spawn refused for want of a mailbox keeps the mailbox's id.  With the
    routing table full, the spawn of a service that receives fails with
    [NoMemory]; the id it had allocated is neither given back nor any task's,
    so the id allocator has one id fewer, and the id's resource is still
    registered as alive. *)
Theorem refused_spawn_leaks_id (slot : nat) (rq : SpawnRequest) (k k' : Kernel) (ids : EndpointIds) (id : Z)
    (live : list Z) r :
  rq_recv rq = true -> kernel_wf k -> ids_wf (k_ids k) live -> d_reply_endpoint (data_at (k_tasks k) slot) = 0 ->
  alloc_endpoint_id (k_ids k) = Done (ids, id) -> register_slot (TABLE (k_routing k)) id = None ->
  spawn_endpoints slot rq k = Done (k', r) ->
  r = Err NoMemory /\ k_ids k' = ids /\ id ∉ reclaimed_ids (k_ids k') /\
  (exists g, GlobalResourceTable.get_record (k_registry k') id = Some (mkResourceRecord g Alive)).
Proof.
  intros Hrecv Hwf Hids Hrep Ha Hfull H. destruct (alloc_endpoint_id_wf _ _ _ _ Hids Ha) as (_ & Hrange & Hids').
  assert (id ∉ reclaimed_ids ids) as Hnr by (intros Hin; apply (iwf_disjoint _ _ Hids' id Hin); by left).
  unfold spawn_endpoints in H. rewrite Hrecv in H.
  apply outcome_run in H as (k1 & x & ([i y] & Hi & [= <- <-])%bind_Done & H). rewrite Ha in Hi. injection Hi as <- <-.
  apply outcome_run in H as (k2 & g & Hg & H). destruct (Generation.next_generation _) as [n g'].
  apply bind_Done in Hg as (g'' & _ & [= <- ->]).
  apply outcome_run in H as (k3 & [] & (R & HR & [= <-])%bind_Done & H).
  apply outcome_run in H as (k4 & ok & Hok & H). unfold try_register in Hok. cbn [k_routing with_registry with_delegated with_generation with_ids] in Hok.
  rewrite Hfull in Hok. injection Hok as <- <-. cbn [negb] in H.
  unfold unwind in H. apply outcome_run in H as (k5 & [] & (k6 & Hc & [= <-])%bind_Done & [= <- <-]).
  assert (direct_id id) as Hd by (unfold direct_id, DIRECT_CAP, DELEGATED_BASE in *; lia).
  destruct (reg_register_get (k_registry k) R id g (proj1 (bw_delegated _ (kw_base _ Hwf))) Hd HR) as [_ Hget].
  specialize (Hget id ltac:(lia)). rewrite decide_True in Hget by done.
  apply cleanup_quiet in Hc as (t & ->); [|exact Hrep]. split_and!; [done..|]. by exists g.
Qed.

(** A routing table with every entry in use. *)
Definition full_routing : RoutingState :=
  foldl (fun r id => (try_register r id 0 1).1) routing_boot (Z.of_nat <$> seq 1000 MAX_ENDPOINTS).

Lemma refused_spawn_leaks_id_witness :
  exists k k', kernel_boot 2 = Done k /\ spawn_endpoints 0 (service FS [] []) (with_routing k full_routing) = Done (k', Err NoMemory) /\
    NEXT_ENDPOINT_ID (k_ids k') = 101 /\ 100 ∉ reclaimed_ids (k_ids k').
Proof.
  assert (match kernel_boot 2 with
          | Done k => k_ids k = endpoint_ids_boot /\ d_reply_endpoint (data_at (k_tasks k) 0) = 0 /\
              (if spawn_endpoints 0 (service FS [] []) (with_routing k full_routing) then True else False)
          | Panic => False end) as H by (vm_compute; split; [reflexivity|split; [reflexivity|exact I]]).
  assert (routing_wf full_routing) as Hr.
  { unfold full_routing. generalize (Z.of_nat <$> seq 1000 MAX_ENDPOINTS). intros l.
    assert (routing_wf routing_boot) as H0 by apply routing_boot_inv. revert H0. generalize routing_boot.
    induction l as [|x l IH]; intros r H0; [exact H0|]. apply IH. by apply try_register_wf. }
  destruct (kernel_boot 2) as [k|] eqn:E; [|destruct H]. destruct H as (Hi & Hz & H). exists k.
  destruct (spawn_endpoints 0 (service FS [] []) (with_routing k full_routing)) as [[k' r]|] eqn:Es; [|destruct H]. exists k'.
  pose proof (boot_wf 2 k E) as Hwf.
  destruct (refused_spawn_leaks_id 0 (service FS [] []) (with_routing k full_routing) k'
    (mkEndpointIds (replicate FREE_ID_CAP 0) 0 101) 100 [] r) as (-> & H1 & H2 & _).
  - reflexivity.
  - exact (with_routing_wf k full_routing Hwf Hr).
  - cbn [k_ids with_routing]. rewrite Hi. apply endpoint_ids_boot_wf.
  - exact Hz.
  - cbn [k_ids with_routing]. rewrite Hi. reflexivity.
  - vm_compute. reflexivity.
  - exact Es.
  - split; [reflexivity|]. split; [reflexivity|]. rewrite H1 in *. split; [reflexivity|exact H2].
Defined.

(** A spawn that fails after its interrupts were registered leaves them
    registered.  Here "fs" asks for the lines of a device and its spawn then
    fails for want of a kernel stack: its mailbox is dead and its id free
    again, the interrupt is still routed to that id, and the next service
    spawned, which asked for no interrupt, is given the id and with it the
    interrupt. *)
Theorem failed_spawn_passes_interrupt_on :
  exists k1 k2 r2 k3 r3,
    sample_boot = Done k1 /\
    spawn_service_with_image (service FS [] [XHCI_MSI_VECTOR]) (mkAnswers (Ok 8192) (Ok None) None None None) k1 = Done (k2, Err r2) /\
    find_task_by_name (k_tasks k2) FS = None /\ registered_endpoint (k_irq k2) XHCI_MSI_VECTOR = Some 102 /\
    target_alive (k_routing k2) 102 = false /\
    spawn_service_with_image (service LOG [] []) all_fine k2 = Done (k3, Ok r3) /\
    lookup_name (k_names k3) LOG = Some 102 /\ target_alive (k_routing k3) 102 = true /\
    registered_endpoint (k_irq k3) XHCI_MSI_VECTOR = Some 102.
Proof.
  assert (match sample_boot with
          | Done k1 =>
              match spawn_service_with_image (service FS [] [XHCI_MSI_VECTOR]) (mkAnswers (Ok 8192) (Ok None) None None None) k1 with
              | Done (k2, Err r2) =>
                  match spawn_service_with_image (service LOG [] []) all_fine k2 with
                  | Done (k3, Ok r3) =>
                      (find_task_by_name (k_tasks k2) FS = None /\ registered_endpoint (k_irq k2) XHCI_MSI_VECTOR = Some 102 /\
                       target_alive (k_routing k2) 102 = false) /\
                      lookup_name (k_names k3) LOG = Some 102 /\ target_alive (k_routing k3) 102 = true /\
                      registered_endpoint (k_irq k3) XHCI_MSI_VECTOR = Some 102
                  | _ => False
                  end
              | _ => False
              end
          | Panic => False end) as H by (vm_compute; repeat split; reflexivity).
  destruct sample_boot as [k1|]; [|done]. exists k1.
  destruct (spawn_service_with_image (service FS _ _) _ k1) as [[k2 [|r2]]|] eqn:E2; [done| |done]. exists k2, r2.
  destruct (spawn_service_with_image (service LOG _ _) _ k2) as [[k3 [r3|]]|] eqn:E3; [|done..]. exists k3, r3.
  destruct H as ((? & ? & ?) & ? & ? & ?). split_and!; done.
Qed.
