(* ===== verification/Calls.v ===== *)
(** * System calls: the properties

    What a task can do to the rest of the system through the calls of
    [Syscalls], and what the calls do for it: confinement, the absence of
    ambient authority, and messages and capabilities that arrive as sent. *)

From S2P Require Import Prelude Prog Capability CapTable Delegated Queue Console Routing Names Sched TaskData Interrupt.
From S2P Require Import Kernel Abi PageTables Loader Spawn SpawnImage Syscalls Confine CallBounds Lifecycle.

Import SchedFacts TaskDataFacts ConfineFacts PieceFacts LifecycleFacts.

(** ** Sample states *)

(** The scheduler of core 1 enters a task. *)
Definition entered (k : Kernel) : Kernel := with_tasks k (with_sched (k_tasks k) (run_once (k_sched k) 1).1).

(** The two services of [sample_kernel] with "fs", the first of them, running
    and the bytes "hello" in everybody's memory. *)
Definition HELLO : list Z := [104; 101; 108; 108; 111].
Definition hello_mem : UserMem := fun a => default 0 (HELLO !! Z.to_nat (a - 4096)).
Definition sample_sys (k : Kernel) : Sys := mkSys (entered k) con_boot (fun _ => hello_mem).

Definition plain_arch : Arch :=
  mkArch 1000 0 [] (fun _ => 0) RingBuffer.new (fun _ => 0) None (fun _ _ => None)
    two_cores all_fine.

Lemma sample_sys_wf (k : Kernel) : sample_kernel = Done k -> kernel_wf (y_k (sample_sys k)).
Proof. intros Hwf%sample_kernel_wf. eapply step_wf; [|exact Hwf]. apply step_run. Qed.

(** ** Lemmas *)

Module CallFacts.

Lemma privileged_in_table (k : Kernel) (cid : nat) (rid : ResourceId) (r : Rights) :
  privileged k cid rid r -> exists c, in_table k (caller k cid) c /\ resource_id c = rid /\ rights_le r (rights c).
Proof.
  unfold privileged, current_task_holds_resource, current, in_table, caller. fold (k_sched k). intros H.
  destruct (_ && _); [|done]. apply holds_resource_spec in H as (slot & c & Hh & Hr & Hle). exists c.
  split_and!; [|done..]. apply held_Some in Hh. by eapply list_elem_of_lookup_2.
Qed.

(** A row of length zero matches no name. *)
Lemma no_peers_declared (t : Tasks) (slot : nat) (name : list Z) :
  take MAX_SEND_PEERS (drop (slot * MAX_SEND_PEERS) (row_lens (task_peers t))) = replicate MAX_SEND_PEERS 0 ->
  task_declares_peer t slot name = false.
Proof.
  intros Hl. unfold task_declares_peer. case_match eqn:E; [done|]. apply orb_false_iff in E as [_ Hn%bool_decide_eq_false].
  apply not_true_iff_false. intros (i & Hi & Hm)%existsb_exists. apply list_elem_of_In, elem_of_seq in Hi as [_ Hi].
  unfold rows_match in Hm. case_match; [done|].
  assert (row_lens (task_peers t) !! (slot * MAX_SEND_PEERS + i)%nat = Some 0) as Hr.
  { rewrite <- lookup_drop, <- (lookup_take_lt _ MAX_SEND_PEERS) by lia. rewrite Hl. by apply lookup_replicate. }
  rewrite Hr in Hm. cbn in Hm. destruct name; [done|]. done.
Qed.

Section Powerless.
Context (k : Kernel) (cid : nat).
Context (Hno : forall c, ~ in_table k (caller k cid) c).

Lemma powerless_has (s : nat) (r : Rights) (c : Capability) : ~ has k cid s r c.
Proof. intros H%has_in_table. by apply Hno in H. Qed.

Lemma powerless_privileged (rid : ResourceId) (r : Rights) : ~ privileged k cid rid r.
Proof. intros (c & Hc & _)%privileged_in_table. by apply Hno in Hc. Qed.

Lemma powerless_sends (ep : Z) (m : Message) : ~ sends k cid ep m.
Proof. by intros [? ? []%powerless_has|? ? []%powerless_has|? ? []%powerless_has|? []%powerless_privileged]. Qed.

Lemma powerless_receives (ep : Z) : ~ receives k cid ep.
Proof. by intros (s & c & []%powerless_has & _). Qed.

Lemma powerless_source (c : Capability) :
  (forall name, task_declares_peer (k_tasks k) (caller k cid) name = false) -> ~ source k cid (receives k cid) c.
Proof.
  intros Hp [Hc|ep []%powerless_receives|name _ _ [[_ Hd]|[[]%powerless_privileged _]]|[]%powerless_privileged _].
  - by apply Hno in Hc.
  - by rewrite Hp in Hd.
Qed.

End Powerless.

(** The two calls that start and end other tasks refuse it. *)
Lemma powerless_refused (ar : Arch) (cid : nat) (n a0 a1 a2 : Z) (y y' : Sys) (p : progress) :
  (forall c, ~ in_table (y_k y) (caller (y_k y) cid) c) -> n = 8 \/ n = 52 ->
  syscall_handler ar cid n a0 a1 a2 y = Done (y', p) -> y' = y.
Proof.
  intros Hno Hn H. unfold syscall_handler, finish in H. apply bind_Done in H as ([y1 r] & Hr & [= <- <-]).
  destruct Hn as [-> | ->]; cbn [dispatch] in Hr.
  - unfold handle_kill, demand, holds, ask, M_gets, M_bind, guard in Hr.
    destruct (current_task_holds_resource _ _ _ _) eqn:E; [by destruct (powerless_privileged _ _ Hno _ _ E)|].
    cbn in Hr. by injection Hr as <- _.
  - unfold spawn_image, M_outcome in Hr. apply bind_Done in Hr as ([y2 q] & Hs & [= <- _]).
    apply bind_Done in Hs as ([k code] & Hk & [= <- _]). unfold handle_spawn_image in Hk.
    destruct (current_task_lookup_cap _ _ _ _ _) as [c|] eqn:E; [by destruct (powerless_has _ _ Hno _ _ _ E)|].
    injection Hk as <- _. by destruct y.
Qed.

End CallFacts.
Import CallFacts.

(** ** Properties *)

(** C2: Confinement of system calls.  Whatever a system call does
    (all of them except Kill, SpawnImage and Exit, which have their own
    theorems), and whether it returns, fails or blocks: it changes no other
    task's capability table and no other task's memory; every capability then
    in the caller's table has no more rights than one it held, one carried by a
    message waiting where it may receive, one to a peer it has declared (or to
    any name, with the privilege for that), or one to a resource it has minted
    with the privilege to mint; every message in a queue was there before or
    is one the caller may send there, with its true sender, without a forged
    badge, and carrying only capabilities it may transfer; a message is gone
    from a queue only if the caller may receive or send there; the records and
    owners of resources change only for delegated ones that are free or the
    caller's; the tasks, their names and their endpoints stay as they are; and
    a call that blocks waits only where it may receive. *)
Theorem syscall_confined (ar : Arch) (cid : nat) (n a0 a1 a2 : Z) (y y' : Sys) (p : progress) :
  kernel_wf (y_k y) -> n ∉ [8; 52; 57] -> syscall_handler ar cid n a0 a1 a2 y = Done (y', p) ->
  bounded y cid (receives (y_k y) cid) y' /\ waits_at (receives (y_k y) cid) p.
Proof.
  intros Hwf Hn H. eapply finish_bound; [|exact H]. apply bound_dispatch; [apply Hwf|done|done].
Qed.

(** "fs" sends "hello" to itself: the message in its queue is one it may send. *)
Lemma syscall_confined_witness :
  exists k y', sample_kernel = Done k /\ syscall_handler plain_arch 1 1 2 4096 5 (sample_sys k) = Done (y', Ret 0) /\
    length (backlog_of (k_routing (y_k y')) 102) = 1%nat /\
    forall m, m ∈ backlog_of (k_routing (y_k y')) 102 ->
      m ∈ backlog_of (k_routing (entered k)) 102 \/ sends (entered k) 1 102 m.
Proof.
  assert (match sample_kernel with
          | Done k => match syscall_handler plain_arch 1 1 2 4096 5 (sample_sys k) with
                      | Done (y', Ret 0) => length (backlog_of (k_routing (y_k y')) 102) = 1%nat
                      | _ => False end
          | Panic => False end) as H by (vm_compute; reflexivity).
  destruct sample_kernel as [k|] eqn:E; [|destruct H].
  destruct (syscall_handler _ _ _ _ _ _ _) as [[y' [[| |]| | | | |]]|] eqn:Ey; try contradiction.
  exists k, y'. split; [reflexivity|]. split; [exact Ey|]. split; [exact H|].
  assert (1 ∉ [8; 52; 57]) as Hn by (rewrite !not_elem_of_cons; split_and!; [lia..|apply not_elem_of_nil]).
  destruct (syscall_confined _ _ _ _ _ _ _ _ _ (sample_sys_wf k E) Hn Ey) as [B _]. exact (bd_messages _ _ _ _ B 102).
Defined.

(** C24: The same for the rest of a blocked call when its task runs again: it
    receives only at the endpoint it was waiting at, which is one its call was
    allowed to receive from. *)
Theorem resume_confined (ar : Arch) (cid : nat) (w : Waiting) (y y' : Sys) (p : progress) :
  kernel_wf (y_k y) -> resume ar cid w y = Done (y', p) ->
  bounded y cid (fun ep => wait_port w = Some ep) y' /\ waits_at (fun ep => wait_port w = Some ep) p.
Proof. intros Hwf H. eapply finish_bound; [|exact H]. by apply bound_resume; [apply Hwf|]. Qed.

Lemma resume_confined_witness :
  exists k y', sample_kernel = Done k /\
    resume plain_arch 1 (WRecv (mkRecv 102 3 4096 64 false 0)) (sample_sys k) = Done (y', Wait (WRecv (mkRecv 102 3 4096 64 false 0))) /\
    y_mem y' 2%nat = hello_mem.
Proof.
  assert (match sample_kernel with
          | Done k => match resume plain_arch 1 (WRecv (mkRecv 102 3 4096 64 false 0)) (sample_sys k) with
                      | Done (_, p) => p = Wait (WRecv (mkRecv 102 3 4096 64 false 0)) /\ caller (entered k) 1 <> 2%nat
                      | _ => False end
          | Panic => False end) as H by (vm_compute; split; [reflexivity|discriminate]).
  destruct sample_kernel as [k|] eqn:E; [|contradiction].
  destruct (resume _ _ _ _) as [[y' p]|] eqn:Ey; [|contradiction]. destruct H as [-> Hc]. exists k, y'.
  split; [reflexivity|]. split; [exact Ey|]. destruct (resume_confined _ _ _ _ _ _ (sample_sys_wf k E) Ey) as [B _].
  exact (bd_memory _ _ _ _ B 2 (not_eq_sym Hc)).
Defined.

(** C9: No ambient authority.  A task that holds no capability and has
    declared no peer can, by any system call but its own exit, put no message
    into a queue and take none out, change no table (its own stays empty), no
    other task's memory, no name, no resource that is not its own, and neither
    end nor start a task. *)
Theorem no_ambient_authority (ar : Arch) (cid : nat) (n a0 a1 a2 : Z) (y y' : Sys) (p : progress)
    (k := y_k y) (k' := y_k y') (self := caller k cid) :
  kernel_wf k -> n <> 57 ->
  (forall c, ~ in_table k self c) -> (forall name, task_declares_peer (k_tasks k) self name = false) ->
  syscall_handler ar cid n a0 a1 a2 y = Done (y', p) ->
  (forall j c, in_table k' j c <-> in_table k j c) /\
  (forall ep m, m ∈ backlog_of (k_routing k') ep <-> m ∈ backlog_of (k_routing k) ep) /\
  (forall j, j <> self -> y_mem y' j = y_mem y j) /\
  (forall j, alive (k_sched k') j = alive (k_sched k) j) /\
  (forall name, lookup_name (k_names k') name = lookup_name (k_names k) name) /\
  (forall id, 0 <= id -> owner_of (k_delegated k) id <> None -> owner_of (k_delegated k) id <> own_endpoint k cid ->
     owner_of (k_delegated k') id = owner_of (k_delegated k) id /\
     GlobalResourceTable.get_record (k_registry k') id = GlobalResourceTable.get_record (k_registry k) id).
Proof.
  intros Hwf Hn Hno Hpeers H. assert (bounded y cid (receives k cid) y') as [K T M S P Y R O].
  { destruct (decide (n = 8 \/ n = 52)) as [H8|H8].
    - rewrite (powerless_refused _ _ _ _ _ _ _ _ _ Hno H8 H). apply bounded_refl, Hwf.
    - eapply finish_bound; [|exact H]. apply bound_dispatch; [apply Hwf|done|]. rewrite !elem_of_cons, elem_of_nil. tauto. }
  split_and!.
  - intros j c. destruct (decide (j = self)) as [->|Hj]; [|unfold in_table, k'; by rewrite (T j Hj)].
    split; [|by intros Hc%Hno]. intros (c0 & _ & Hs)%M. by apply powerless_source in Hs.
  - intros ep m. split.
    + intros [?|Hs]%S; [done|]. by apply powerless_sends in Hs.
    + intros [?|[Hr|[m' Hs]]]%P; [done| |]; [by apply powerless_receives in Hr|by apply powerless_sends in Hs].
  - exact Y.
  - intros j. by apply keeps_alive.
  - intros name. unfold k'. by rewrite (kp_names _ _ K).
  - intros id H0 Hn1 Hn2. assert (~ at_disposal k cid id) as Hd by (intros [_ [?|?]]; done). split; [by apply O|by apply R].
Qed.

(** "fs" with every capability taken away. *)
Definition bare_sys (k : Kernel) : Sys :=
  put (with_tasks (entered k) (upd_data (k_tasks (entered k)) 1 (set_caps CapTable.empty))) (sample_sys k).

Lemma bare_sys_wf (k : Kernel) : sample_kernel = Done k -> kernel_wf (y_k (bare_sys k)).
Proof.
  intros H%sample_sys_wf. refine (keeps_wf _ _ (keeps_data (entered k) 1 (set_caps CapTable.empty) _ _) H); [apply H|].
  intros d. split; reflexivity.
Qed.

Lemma no_ambient_authority_witness :
  exists k y', sample_kernel = Done k /\ syscall_handler plain_arch 1 1 2 4096 5 (bare_sys k) = Done (y', Ret (-2)) /\
    forall ep m, m ∈ backlog_of (k_routing (y_k y')) ep <-> m ∈ backlog_of (k_routing (y_k (bare_sys k))) ep.
Proof.
  assert (match sample_kernel with
          | Done k => caller (y_k (bare_sys k)) 1 = 1%nat /\
              d_caps (data_at (k_tasks (y_k (bare_sys k))) 1) = CapTable.empty /\
              (take 6 (drop 6 (row_lens (task_peers (k_tasks (y_k (bare_sys k)))))) = [0; 0; 0; 0; 0; 0]) /\
              match syscall_handler plain_arch 1 1 2 4096 5 (bare_sys k) with Done (y', p) => p = Ret (-2) | _ => False end
          | Panic => False end) as H by (vm_compute; repeat split; reflexivity).
  destruct sample_kernel as [k|] eqn:E; [|contradiction]. destruct H as (Hc & Ht & Hp & H).
  destruct (syscall_handler _ _ _ _ _ _ _) as [[y' p]|] eqn:Ey; [|contradiction]. subst p.
  exists k, y'. split; [reflexivity|]. split; [exact Ey|].
  apply (no_ambient_authority plain_arch 1 1 2 4096 5 (bare_sys k) y' (Ret (-2))); [|lia| | |exact Ey]; rewrite ?Hc.
  - exact (bare_sys_wf k E).
  - intros c Hin. unfold in_table in Hin. rewrite Ht in Hin. apply list_elem_of_lookup in Hin as [i Hi].
    by apply lookup_replicate in Hi as [? _].
  - intros name. by apply no_peers_declared.
Defined.
