(* ===== verification/Delivery.v ===== *)
(** * Delivery

    A message sent with [Send] or [SendWithCap] and received with [Recv]: the
    receiver's buffer holds the bytes the sender had, the capability has moved
    from one table to the other, and a call that waits either finishes or gives
    up its core. *)

From S2P Require Import Prelude Prog Capability CapTable Delegated Queue Console Routing Names Sched TaskData Interrupt.
From S2P Require Import Kernel Abi PageTables Loader Spawn SpawnImage Syscalls Confine CallBounds Lifecycle Calls.

Import SchedFacts TaskDataFacts ConfineFacts PieceFacts LifecycleFacts.

(** ** Messages and capabilities arrive as sent *)

Module DeliveryFacts.

Lemma bind_ok {S E A C} (m : Prog S E A) (f : A -> Prog S E C) (s s1 : S) (a : A) :
  m s = Done (s1, Ok a) -> M_bind m f s = f a s1.
Proof. intros H. unfold M_bind. by rewrite H. Qed.

Lemma lookup_run (y : Sys) (cid s : nat) (r : Rights) (c : Capability) :
  has (y_k y) cid s r c -> lookup_cap cid s r y = Done (y, Ok c).
Proof. intros H. unfold lookup_cap, ask, M_gets, M_bind. unfold has in H. by rewrite H. Qed.

Lemma grant_run (y : Sys) (cid s : nat) (c : Capability) :
  has (y_k y) cid s Rights.GRANT c -> lookup_grant cid s y = Done (y, Ok c).
Proof. intros H. unfold lookup_grant, ask, M_gets, M_bind. unfold has in H. by rewrite H. Qed.

Lemma guard_run (y : Sys) (code : Z) : guard true code y = Done (y, Ok tt).
Proof. done. Qed.

(** The caller's bytes at [ptr]. *)
Definition user_bytes (y : Sys) (cid : nat) (ptr len : Z) : list Z :=
  bytes_at (y_mem y (caller (y_k y) cid)) ptr len.

(** A readable message: not empty, at most the maximum. *)
Definition readable (ptr len : Z) : Prop := validate_user_ptr ptr len = true /\ 0 < len <= Z.of_nat MAX_MESSAGE_SIZE.

Definition stamped (y : Sys) (cid : nat) (b : list Z) : Message :=
  mkMessage (Message.zero_padded b) (length b) (replicate MAX_EMBEDDED_CAPS None) 0 0 0 (default 0 (own_endpoint (y_k y) cid)).

Lemma user_bytes_length (y : Sys) (cid : nat) (ptr len : Z) :
  0 <= len -> Z.of_nat (length (user_bytes y cid ptr len)) = len.
Proof. intros H. unfold user_bytes, bytes_at. rewrite length_fmap, length_seq. lia. Qed.

Lemma message_run (y : Sys) (cid : nat) (ptr len : Z) :
  readable ptr len -> build_message cid ptr len y = Done (y, Ok (stamped y cid (user_bytes y cid ptr len))).
Proof.
  intros [Hv Hl]. pose proof (user_bytes_length y cid ptr len ltac:(lia)) as Hlen. unfold build_message.
  rewrite (proj2 (Z.leb_le _ _)) by lia. erewrite bind_ok by apply guard_run.
  rewrite (proj2 (Z.eqb_neq _ _)) by lia. erewrite bind_ok.
  2: { erewrite bind_ok; [|reflexivity]. unfold read_user_bytes. rewrite Hv. cbn [negb].
       rewrite (proj2 (Z.ltb_ge _ _)) by lia. reflexivity. }
  fold (caller (y_k y) cid). fold (user_bytes y cid ptr len). unfold Message.new.
  rewrite (proj2 (Nat.ltb_ge _ _)) by lia. reflexivity.
Qed.

Lemma payload_stamped (y : Sys) (cid : nat) (b : list Z) (c : Capability) :
  Message.payload_bytes (stamped y cid b) = b /\ Message.payload_bytes (embed (stamped y cid b) c) = b.
Proof. unfold Message.payload_bytes, embed, stamped, Message.zero_padded. cbn [payload payload_len]. by rewrite take_app_length. Qed.

(** A send to an endpoint nobody waits at, with room in its queue. *)
Lemma send_run (y : Sys) (cid : nat) (ep : Z) (m : Message) (moved : option nat) (e : RoutingEntry) :
  routing_wf (k_routing (y_k y)) -> lookup_entry (k_routing (y_k y)) ep = Some e -> liveness e = EpAlive ->
  (length (MessageQueue.contents (queue e)) < QUEUE_DEPTH)%nat -> blocked_receiver e = None ->
  exists r e', entry_update (k_routing (y_k y)) r ep e' /\ blocked_receiver e' = None /\ liveness e' = EpAlive /\
    ep_generation e' = ep_generation e /\ backlog e' = backlog e ++ [m] /\
    send_message cid ep (ep_generation e) m moved y =
      (match moved with Some s => remove_cap cid s | None => M_ret tt end ;;; M_ret (Ret 0)) (put (with_routing (y_k y) r) y).
Proof.
  intros Hwf Hl Hlive Hroom Hb. destruct (enqueue_room _ ep m (Some (current_task_slot (k_sched (y_k y)) cid)) e Hwf Hl Hlive Hroom)
    as (r & e' & He & Hu & Hb' & Hlive' & Hg & Hbk).
  exists r, e'. split_and!; try done. unfold send_message. erewrite bind_ok; [|reflexivity].
  erewrite bind_ok; [|unfold on_routing, run, M_outcome; cbn [y_k]; rewrite He; reflexivity].
  rewrite Hb. unfold M_bind at 1. unfold M_bind at 2. destruct (_ (put _ y)) as [[y1 [[]|x]]|]; reflexivity.
Qed.

(** The memory after a copy of [b] to [buf]. *)
Definition patched (mem : UserMem) (buf : Z) (b : list Z) : UserMem :=
  fun a => if (buf <=? a) && (a <? buf + Z.of_nat (length b)) then default 0 (b !! Z.to_nat (a - buf)) else mem a.

Lemma patched_bytes (mem : UserMem) (buf : Z) (b : list Z) : bytes_at (patched mem buf b) buf (Z.of_nat (length b)) = b.
Proof.
  apply AbiFacts.bytes_at_lookup. intros i x Hx. pose proof (lookup_lt_Some _ _ _ Hx). unfold patched.
  rewrite (proj2 (Z.leb_le _ _)), (proj2 (Z.ltb_lt _ _)) by lia. cbn [andb].
  replace (Z.to_nat (buf + Z.of_nat i - buf)) with i by lia. by rewrite Hx.
Qed.

Lemma validate_shorter (ptr len len' : Z) :
  validate_user_ptr ptr len = true -> 0 <= ptr -> 0 < len' <= len -> validate_user_ptr ptr len' = true.
Proof.
  unfold validate_user_ptr, checked_add64. intros H H0 Hl.
  destruct ((ptr =? 0) || (len =? 0)) eqn:E1; [done|]. apply orb_false_iff in E1 as [E1 E2].
  rewrite E1, (proj2 (Z.eqb_neq len' 0)) by lia. cbn [orb]. destruct (USER_END <=? ptr); [done|].
  destruct (ptr + len <=? u64_max) eqn:E3; [|done]. apply Z.leb_le in E3, H.
  rewrite (proj2 (Z.leb_le _ _)) by lia. apply Z.leb_le. lia.
Qed.

Definition badged (k : Kernel) (cid : nat) (m : Message) : Kernel :=
  with_tasks k (set_last_recv_badge (k_tasks k) cid (badge_id m) (badge_right m)).

Lemma badged_current (k : Kernel) (cid : nat) (m : Message) : current (k_tasks (badged k cid m)) cid = current (k_tasks k) cid.
Proof. unfold badged, set_last_recv_badge. cbn. by case_match. Qed.

Lemma delivery_run (y y' : Sys) (cid : nat) (buf blen : Z) (m : Message) (b : list Z) :
  Message.payload_bytes m = b -> (0 < length b)%nat -> Z.of_nat (length b) <= blen ->
  validate_user_ptr buf blen = true -> 0 <= buf ->
  install_received_caps cid m (put (badged (y_k y) cid m) y) = Done (y', Ok tt) ->
  take_delivery cid buf blen m None y =
    Done (mkSys (y_k y') (y_con y') (upd (y_mem y') (caller (y_k y') cid) (patched (y_mem y' (caller (y_k y') cid)) buf b)),
          Ok (Z.of_nat (length b))).
Proof.
  intros Hb Hpos Hle Hv H0 Hi. unfold take_delivery. erewrite bind_ok; [|reflexivity].
  erewrite bind_ok; [|reflexivity]. fold (badged (y_k y) cid m). erewrite bind_ok; [|exact Hi].
  cbv zeta. rewrite Hb. rewrite (proj2 (Z.ltb_ge _ _)) by lia. unfold copy_out.
  destruct b as [|x b]; [cbn in Hpos; lia|]. erewrite bind_ok.
  2: { unfold write_user, M_outcome, write_user_bytes. rewrite (validate_shorter buf blen) by (done || lia). reflexivity. }
  reflexivity.
Qed.

Lemma backlog_head (e : RoutingEntry) (m : Message) (l : list Message) :
  entry_wf e -> backlog e = m :: l -> exists l', MessageQueue.contents (queue e) = m :: l'.
Proof.
  intros [Hq Hs Hf _]. unfold backlog. destruct (MessageQueue.contents (queue e)) as [|x l'] eqn:Ec; cbn.
  - destruct (pending_send e) as [x|] eqn:Ep; [|done]. intros _. exfalso.
    assert (MessageQueue.len (queue e) = QUEUE_DEPTH) as Hl by (apply Hf, Hs; eauto).
    rewrite queue_len, Ec in Hl by done. cbn in Hl. unfold QUEUE_DEPTH in Hl. lia.
  - intros [= -> <-]. eauto.
Qed.

Lemma single_unblocked (e : RoutingEntry) (m : Message) : entry_wf e -> backlog e = [m] -> blocked_sender e = None.
Proof.
  intros [Hq Hs Hf _] Hb. destruct (blocked_sender e) as [s|] eqn:Es; [|done]. exfalso.
  assert (MessageQueue.len (queue e) = QUEUE_DEPTH) as Hl by (apply Hf; eauto).
  rewrite queue_len in Hl by done. apply (f_equal length) in Hb. unfold backlog in Hb. rewrite length_app in Hb.
  unfold QUEUE_DEPTH in Hl. cbn in Hb. lia.
Qed.

(** A receive of the only message. *)
Lemma recv_run (y : Sys) (cid slot : nat) (cap_slot buf blen : Z) (c : Capability) (e : RoutingEntry) (m : Message) (b : list Z) :
  routing_wf (k_routing (y_k y)) -> Z.to_nat cap_slot = slot -> has (y_k y) cid slot Rights.RECV c ->
  lookup_entry (k_routing (y_k y)) (resource_id c) = Some e -> liveness e = EpAlive -> ep_generation e = generation c ->
  backlog e = [m] -> Message.payload_bytes m = b -> (0 < length b)%nat -> Z.of_nat (length b) <= blen ->
  buffer_ok buf blen = true -> 0 <= buf ->
  exists r, (forall y', install_received_caps cid m (put (badged (with_routing (y_k y) r) cid m) y) = Done (y', Ok tt) ->
    handle_recv cid cap_slot buf blen y =
      Done (mkSys (y_k y') (y_con y') (upd (y_mem y') (caller (y_k y') cid) (patched (y_mem y' (caller (y_k y') cid)) buf b)),
            Ok (Ret (Z.of_nat (length b))))).
Proof.
  intros Hwf <- Hc Hl Hlive Hg Hbk Hb Hpos Hle Hok H0. pose proof (lookup_entry_wf _ _ _ Hwf Hl) as Hewf.
  destruct (backlog_head e m [] Hewf Hbk) as [l' Hcont].
  destruct (dequeue_message _ _ (Some (current_task_slot (k_sched (y_k y)) cid)) e m l' Hwf Hl Hlive Hcont)
    as (r & e' & Hd & _). rewrite (single_unblocked e m Hewf Hbk) in Hd.
  exists r. intros y1 Hi. unfold handle_recv. erewrite bind_ok by (by apply lookup_run). rewrite Hok.
  erewrite bind_ok by apply guard_run. unfold RECV_FUEL. cbn [recv_loop rw_ep rw_gen rw_buf rw_len rw_deadline].
  erewrite bind_ok; [|reflexivity]. rewrite <- Hg.
  erewrite bind_ok; [|unfold on_routing, run, M_outcome; cbn [y_k]; rewrite Hd; reflexivity].
  cbn beta iota. erewrite bind_ok; [reflexivity|].
  apply andb_true_iff in Hok as [_ Hv].
  by eapply (delivery_run (put (with_routing (y_k y) r) y)).
Qed.

Lemma data_self (t : Tasks) (i : nat) (f : TaskData -> TaskData) :
  (i < length (data t))%nat -> data_at (upd_data t i f) i = f (data_at t i).
Proof. intros H. rewrite data_at_upd by done. by rewrite decide_True. Qed.

Lemma data_other (t : Tasks) (i j : nat) (f : TaskData -> TaskData) :
  i <> j -> (i < length (data t))%nat -> data_at (upd_data t i f) j = data_at t j.
Proof. intros H Hi. rewrite data_at_upd by done. by rewrite decide_False. Qed.

Lemma length_data_upd (t : Tasks) (i : nat) (f : TaskData -> TaskData) : length (data (upd_data t i f)) = length (data t).
Proof. apply length_alter. Qed.

(** What a receive of one capability does to its task's table. *)
Lemma install_one (y : Sys) (cid B j : nat) (c : Capability) (d := data_at (k_tasks (y_k y)) B) :
  current (k_tasks (y_k y)) cid = Some B -> (B < length (data (k_tasks (y_k y))))%nat ->
  position CapTable.is_free (d_caps d) = Some j -> (d_pending_count d < MAX_PENDING_RECV_CAPS)%nat ->
  exists t, install_caps cid [Some c] y = Done (put (with_tasks (y_k y) t) y, Ok tt) /\
    sched t = k_sched (y_k y) /\ length (data t) = length (data (k_tasks (y_k y))) /\
    (forall i, i <> B -> data_at t i = data_at (k_tasks (y_k y)) i) /\
    d_caps (data_at t B) = <[j := Some (narrow_embedded_for_receiver c)]> (d_caps d) /\
    d_pending_count (data_at t B) = S (d_pending_count d) /\
    d_pending_caps (data_at t B) = <[d_pending_count d := Z.of_nat j]> (d_pending_caps d).
Proof.
  intros Hc HB Hj Hp. set (t1 := upd_data (k_tasks (y_k y)) B (set_caps (<[j := Some (narrow_embedded_for_receiver c)]> (d_caps d)))).
  assert (data_at t1 B = set_caps (<[j := Some (narrow_embedded_for_receiver c)]> (d_caps d)) d) as H1 by (by apply data_self).
  assert (length (data t1) = length (data (k_tasks (y_k y)))) as Hl1 by apply length_data_upd.
  exists (upd_data t1 B (set_pending_caps (<[d_pending_count d := Z.of_nat j]> (d_pending_caps d)) (S (d_pending_count d)))).
  assert (current_task_slot (k_sched (y_k y)) cid = B /\ (B <? MAX_TASKS)%nat = true) as [Hcs Hlt].
  { unfold current in Hc. fold (k_sched (y_k y)) in Hc. destruct (_ && _) eqn:E; [|done]. injection Hc as <-.
    by apply andb_true_iff in E as [E _]. }
  split_and!; try done.
  - cbn [install_caps]. erewrite bind_ok.
    2: { unfold insert_cap, on_tasks, run, M_outcome, current_task_insert_cap. cbn [y_k]. rewrite Hc. fold d.
         unfold CapTable.insert. rewrite Hj. reflexivity. }
    cbn beta iota. erewrite bind_ok.
    2: { unfold on_tasks, run, M_outcome, push_pending_recv_cap. cbn [y_k put k_tasks with_tasks].
         change (sched (upd_data ?t _ _)) with (sched t). fold (k_sched (y_k y)). rewrite Hcs. fold t1. rewrite H1.
         cbn [set_caps d_pending_count d_pending_caps]. rewrite Hlt, (proj2 (Nat.ltb_lt _ _) Hp). reflexivity. }
    reflexivity.
  - by rewrite length_data_upd.
  - intros i Hi. rewrite data_other; [|done|by rewrite Hl1]. by apply data_other.
  - rewrite data_self by (by rewrite Hl1). cbn. by rewrite H1.
  - by rewrite data_self by (by rewrite Hl1).
  - by rewrite data_self by (by rewrite Hl1).
Qed.

End DeliveryFacts.
Import DeliveryFacts.

(** A sender on core [ca] and a receiver on core [cb] with live capabilities
    for the same endpoint, at which no message and no task waits. *)
Record channel (y : Sys) (ca cb sa sb : nat) (c c' : Capability) (e : RoutingEntry) : Prop := mk_channel {
  ch_send : has (y_k y) ca sa Rights.SEND c;
  ch_recv : has (y_k y) cb sb Rights.RECV c';
  ch_id : resource_id c' = resource_id c;
  ch_generation : generation c' = generation c;
  ch_entry : lookup_entry (k_routing (y_k y)) (resource_id c) = Some e;
  ch_alive : liveness e = EpAlive;
  ch_epoch : ep_generation e = generation c;
  ch_empty : backlog e = [];
  ch_idle : blocked_receiver e = None
}.

Lemma channel_room (y : Sys) ca cb sa sb c c' e :
  channel y ca cb sa sb c c' e -> (length (MessageQueue.contents (queue e)) < QUEUE_DEPTH)%nat.
Proof.
  intros [_ _ _ _ _ _ _ Hb _]. apply (f_equal length) in Hb. unfold backlog in Hb. rewrite length_app in Hb.
  cbn in Hb. unfold QUEUE_DEPTH. lia.
Qed.

(** C22: A message arrives as it was sent.  [Send] followed by [Recv] on
    another core (or the same): both succeed, the receiver is told the length
    of the message, the bytes in its buffer are the sender's, and no other byte
    of anybody's memory has changed. *)
Theorem message_roundtrip (ar : Arch) (y : Sys) (ca cb sa sb : nat) (ptr len buf blen : Z) (c c' : Capability) (e : RoutingEntry)
    (B := caller (y_k y) cb) :
  kernel_wf (y_k y) -> channel y ca cb sa sb c c' e -> readable ptr len ->
  buffer_ok buf blen = true -> 0 <= buf -> len <= blen ->
  exists y1 y2, syscall_handler ar ca 1 (Z.of_nat sa) ptr len y = Done (y1, Ret 0) /\
    syscall_handler ar cb 2 (Z.of_nat sb) buf blen y1 = Done (y2, Ret len) /\
    bytes_at (y_mem y2 B) buf len = user_bytes y ca ptr len /\
    (forall a, ~ buf <= a < buf + len -> y_mem y2 B a = y_mem y B a) /\
    (forall j, j <> B -> y_mem y2 j = y_mem y j).
Proof.
  intros Hwf Hch Hread Hbuf H0 Hle. pose proof (bw_routing _ (kw_base _ Hwf)) as Hr.
  pose proof (channel_room _ _ _ _ _ _ _ _ Hch) as Hroom. destruct Hch as [Hs Hv Hid Hgen He Hal Hep Hemp Hidle].
  set (b := user_bytes y ca ptr len). assert (Z.of_nat (length b) = len) as Hlen by (apply user_bytes_length; destruct Hread; lia).
  destruct (send_run y ca (resource_id c) (stamped y ca b) None e Hr He Hal Hroom Hidle) as (r & e' & Hu & _ & Hal' & Hg' & Hb' & Hrun).
  rewrite Hemp in Hb'. cbn in Hb'. set (y1 := put (with_routing (y_k y) r) y).
  destruct (recv_run y1 cb sb (Z.of_nat sb) buf blen c' e' (stamped y ca b) b) as [r2 Hrecv]; try done.
  { apply Hu. } { apply Nat2Z.id. } { rewrite Hid. rewrite (eu_lookup _ _ _ _ Hu). by rewrite decide_True. }
  { congruence. } { apply (payload_stamped y ca b c). } { destruct Hread; lia. } { lia. }
  specialize (Hrecv _ eq_refl). eexists y1, _. split_and!.
  - unfold syscall_handler, finish. cbn [dispatch]. unfold handle_send. rewrite Nat2Z.id.
    erewrite bind_ok by (by apply lookup_run). erewrite bind_ok by (by apply message_run). fold b. rewrite <- Hep, Hrun. reflexivity.
  - unfold syscall_handler, finish. cbn [dispatch]. rewrite Hrecv, Hlen. reflexivity.
  - cbn [y_mem y_k put]. fold B. replace (caller _ cb) with B by (unfold caller, badged, set_last_recv_badge; by case_match).
    rewrite upd_eq, <- Hlen. apply patched_bytes.
  - intros a Ha. cbn [y_mem y_k put]. replace (caller _ cb) with B by (unfold caller, badged, set_last_recv_badge; by case_match).
    rewrite upd_eq. unfold patched. rewrite Hlen. destruct (_ && _) eqn:E; [|done]. apply andb_true_iff in E as [E1 E2].
    apply Z.leb_le in E1. apply Z.ltb_lt in E2. tauto.
  - intros j Hj. cbn [y_mem y_k put]. replace (caller _ cb) with B by (unfold caller, badged, set_last_recv_badge; by case_match).
    unfold upd. by rewrite decide_False.
Qed.

(** *** A sample: "fs" on core 1 and "log" on core 2, both running *)

Definition pinned (name : list Z) (core : nat) (peers : list (list Z)) : SpawnRequest :=
  mkRequest name core true peers false 1048576 [] false (Some 0) None true false 0.

Definition enter (cid : nat) (k : Kernel) : Kernel := with_tasks k (with_sched (k_tasks k) (run_once (k_sched k) cid).1).

Definition pair_kernel : outcome Kernel :=
  k ← run_spawn (pinned LOG 2 [FS]) all_fine
        (run_spawn (pinned FS 1 []) all_fine (k ← kernel_boot 3; spawn_supervisor all_fine k));
  Done (enter 2 (enter 1 k)).

Definition pair_sys (k : Kernel) : Sys := mkSys k con_boot (fun j => if decide (j = 2%nat) then hello_mem else fun _ => 0).

Lemma run_spawn_wf (rq : SpawnRequest) (an : Answers) (o : outcome Kernel) (k : Kernel) :
  utf8_valid (rq_name rq) = true -> (forall k, o = Done k -> kernel_wf k) -> run_spawn rq an o = Done k -> kernel_wf k.
Proof.
  intros Hu Ho (k0 & H0 & H)%bind_Done. apply bind_Done in H as ([k1 r] & H & [= <-]).
  eapply step_wf; [by eapply step_spawn|by apply Ho].
Qed.

Lemma enter_wf (cid : nat) (k : Kernel) : kernel_wf k -> kernel_wf (enter cid k).
Proof. apply step_wf, step_run. Qed.

Lemma pair_wf (k : Kernel) : pair_kernel = Done k -> kernel_wf (y_k (pair_sys k)).
Proof.
  unfold pair_kernel. intros H. apply bind_Done in H as (k0 & H & [= <-]). change (kernel_wf (enter 2 (enter 1 k0))).
  apply enter_wf, enter_wf. refine (run_spawn_wf (pinned LOG 2 [FS]) all_fine _ _ eq_refl _ H). intros k1 H1.
  refine (run_spawn_wf (pinned FS 1 []) all_fine _ _ eq_refl _ H1). intros k2 H2. apply bind_Done in H2 as (k3 & Hb & Hs).
  eapply spawn_supervisor_wf; [by eapply boot_wf|exact Hs].
Qed.

(** "log" sends "hello" to "fs". *)
Lemma message_roundtrip_witness :
  exists k y1 y2, pair_kernel = Done k /\
    syscall_handler plain_arch 2 1 5 4096 5 (pair_sys k) = Done (y1, Ret 0) /\
    syscall_handler plain_arch 1 2 1 8192 64 y1 = Done (y2, Ret 5) /\ bytes_at (y_mem y2 1%nat) 8192 5 = HELLO.
Proof.
  assert (match pair_kernel with
          | Done k => caller k 1 = 1%nat /\ caller k 2 = 2%nat /\
              current_task_lookup_cap (k_registry k) (k_tasks k) 2 5 Rights.SEND = Ok (mkCapability 102 Rights.SEND 3) /\
              current_task_lookup_cap (k_registry k) (k_tasks k) 1 1 Rights.RECV = Ok (mkCapability 102 Rights.RECV 3) /\
              match lookup_entry (k_routing k) 102 with
              | Some e => liveness e = EpAlive /\ ep_generation e = 3 /\ backlog e = [] /\ blocked_receiver e = None
              | None => False end
          | Panic => False end) as H by (vm_compute; repeat split; reflexivity).
  destruct pair_kernel as [k|] eqn:E; [|contradiction]. destruct H as (H1 & H2 & Hs & Hv & H).
  destruct (lookup_entry (k_routing k) 102) as [e|] eqn:El; [|contradiction]. destruct H as (He1 & He2 & He3 & He4).
  destruct (message_roundtrip plain_arch (pair_sys k) 2 1 5 1 4096 5 8192 64 _ _ e (pair_wf k E)
    (mk_channel (pair_sys k) 2 1 5 1 _ _ e Hs Hv eq_refl eq_refl El He1 He2 He3 He4)) as (y1 & y2 & R1 & R2 & R3 & _).
  - split; [vm_compute; reflexivity|unfold MAX_MESSAGE_SIZE; lia].
  - vm_compute. reflexivity.
  - lia.
  - lia.
  - exists k, y1, y2. split; [reflexivity|]. split; [exact R1|]. split; [exact R2|].
    change (y_k (pair_sys k)) with k in R3. rewrite H1 in R3. rewrite R3. unfold user_bytes.
    change (y_k (pair_sys k)) with k. rewrite H2. vm_compute. reflexivity.
Defined.

(** *** Capabilities *)

Definition table_of (y : Sys) (j : nat) : list (option Capability) := d_caps (data_at (k_tasks (y_k y)) j).

Lemma remove_run (y : Sys) (cid A s : nat) (tbl := d_caps (data_at (k_tasks (y_k y)) A)) :
  current (k_tasks (y_k y)) cid = Some A -> (s < length tbl)%nat ->
  remove_cap cid s y = Done (put (with_tasks (y_k y) (upd_data (k_tasks (y_k y)) A (set_caps (<[s := None]> tbl)))) y, Ok tt).
Proof.
  intros Hc [x Hs]%lookup_lt_is_Some. unfold remove_cap. erewrite bind_ok; [reflexivity|].
  unfold on_tasks, run, M_outcome, current_task_remove_cap. cbn [y_k]. rewrite Hc. fold tbl. unfold CapTable.remove.
  rewrite Hs. reflexivity.
Qed.

Lemma embedded_list (m : Message) (c : Capability) :
  caps m = replicate MAX_EMBEDDED_CAPS None ->
  take (Nat.min (cap_count (embed m c)) (length (caps (embed m c)))) (caps (embed m c)) = [Some c].
Proof. intros Hm. unfold embed. cbn [caps cap_count]. rewrite Hm. reflexivity. Qed.

Lemma has_held (k : Kernel) (cid s : nat) (r : Rights) (c : Capability) :
  has k cid s r c -> exists A, A = caller k cid /\ current (k_tasks k) cid = Some A /\
    d_caps (data_at (k_tasks k) A) !! s = Some (Some c).
Proof.
  unfold has, current_task_lookup_cap. destruct (current (k_tasks k) cid) as [A|] eqn:Ec; [|done].
  intros (Hh & _)%get_Ok. exists A. split_and!; [|done|by apply held_Some].
  unfold current in Ec. fold (k_sched k) in Ec. destruct (_ && _); [|done]. by injection Ec.
Qed.

Lemma caller_badged (k : Kernel) (cid cid' : nat) (m : Message) : caller (badged k cid m) cid' = caller k cid'.
Proof. unfold caller, badged, set_last_recv_badge. by case_match. Qed.

Lemma badged_data (k : Kernel) (cid : nat) (m : Message) (j : nat) :
  d_caps (data_at (k_tasks (badged k cid m)) j) = d_caps (data_at (k_tasks k) j) /\
  d_pending_count (data_at (k_tasks (badged k cid m)) j) = d_pending_count (data_at (k_tasks k) j) /\
  d_pending_caps (data_at (k_tasks (badged k cid m)) j) = d_pending_caps (data_at (k_tasks k) j).
Proof.
  unfold badged, set_last_recv_badge. cbn [k_tasks with_tasks]. case_match; [|done]. unfold data_at, upd_data. cbn [data].
  destruct (decide (current_task_slot (sched (k_tasks k)) cid = j)) as [->|Hne].
  - rewrite list_lookup_alter_eq. by destruct (data (k_tasks k) !! j).
  - by rewrite list_lookup_alter_ne.
Qed.

Lemma badged_length (k : Kernel) (cid : nat) (m : Message) : length (data (k_tasks (badged k cid m))) = length (data (k_tasks k)).
Proof. unfold badged, set_last_recv_badge. cbn. case_match; [apply length_alter|done]. Qed.

(** The sender's half: the message is in the queue, the slot is empty. *)
Lemma handed_over (ar : Arch) (y : Sys) (ca cb sa sb sg : nat) (packed ptr len : Z) (c c' given : Capability) (e : RoutingEntry)
    (A := caller (y_k y) ca) :
  kernel_wf (y_k y) -> channel y ca cb sa sb c c' e -> has (y_k y) ca sg Rights.GRANT given ->
  field packed 0 16 = Z.of_nat sa -> field packed 16 16 = Z.of_nat sg -> readable ptr len ->
  exists r e' t, syscall_handler ar ca 11 packed ptr len y = Done (put (with_tasks (with_routing (y_k y) r) t) y, Ret 0) /\
    entry_update (k_routing (y_k y)) r (resource_id c) e' /\ liveness e' = EpAlive /\ ep_generation e' = generation c /\
    backlog e' = [embed (stamped y ca (user_bytes y ca ptr len)) given] /\
    sched t = k_sched (y_k y) /\ length (data t) = MAX_TASKS /\
    d_caps (data_at t A) = <[sg := None]> (table_of y A) /\ (forall i, i <> A -> data_at t i = data_at (k_tasks (y_k y)) i).
Proof.
  intros Hwf Hch Hgr Hf1 Hf2 Hread. pose proof (tw_data _ (bw_tasks _ (kw_base _ Hwf))) as Hdl.
  pose proof (channel_room _ _ _ _ _ _ _ _ Hch) as Hroom. destruct Hch as [Hs Hv Hid Hgen He Hal Hep Hemp Hidle].
  destruct (has_held _ _ _ _ _ Hgr) as (A' & EA & HcA & HgA). fold A in EA. subst A'. pose proof (current_lt _ _ _ HcA) as HltA.
  set (m := embed (stamped y ca (user_bytes y ca ptr len)) given).
  destruct (send_run y ca (resource_id c) m (Some sg) e (bw_routing _ (kw_base _ Hwf)) He Hal Hroom Hidle)
    as (r & e' & Hu & _ & Hal' & Hg' & Hb' & Hrun).
  exists r, e', (upd_data (k_tasks (y_k y)) A (set_caps (<[sg := None]> (table_of y A)))). rewrite Hemp in Hb'.
  split_and!; try done.
  - unfold syscall_handler, finish. cbn [dispatch]. unfold handle_send_with_cap. cbv zeta. rewrite Hf1, Hf2, !Nat2Z.id.
    erewrite bind_ok by (by apply lookup_run). erewrite bind_ok by (by apply grant_run).
    erewrite bind_ok by (by apply message_run). fold m. rewrite <- Hep, Hrun.
    erewrite bind_ok; [reflexivity|]. apply (remove_run (put (with_routing (y_k y) r) y) ca A sg HcA).
    by eapply lookup_lt_Some.
  - congruence.
  - by rewrite length_data_upd.
  - rewrite data_self by lia. done.
  - intros i Hi. apply data_other; [done|lia].
Qed.

(** The receiver's half. *)
Lemma taken_over (ar : Arch) (y : Sys) (cb sb j : nat) (buf blen : Z) (c given : Capability) (e : RoutingEntry) (m : Message)
    (b : list Z) (B := caller (y_k y) cb) :
  routing_wf (k_routing (y_k y)) -> length (data (k_tasks (y_k y))) = MAX_TASKS -> has (y_k y) cb sb Rights.RECV c ->
  lookup_entry (k_routing (y_k y)) (resource_id c) = Some e -> liveness e = EpAlive -> ep_generation e = generation c ->
  caps m = replicate MAX_EMBEDDED_CAPS None -> backlog e = [embed m given] -> Message.payload_bytes (embed m given) = b ->
  (0 < length b)%nat -> Z.of_nat (length b) <= blen -> buffer_ok buf blen = true -> 0 <= buf ->
  position CapTable.is_free (table_of y B) = Some j -> pending_wf (data_at (k_tasks (y_k y)) B) ->
  d_pending_count (data_at (k_tasks (y_k y)) B) = 0%nat ->
  exists y2 y3, syscall_handler ar cb 2 (Z.of_nat sb) buf blen y = Done (y2, Ret (Z.of_nat (length b))) /\
    table_of y2 B = <[j := Some (narrow_embedded_for_receiver given)]> (table_of y B) /\
    (forall i, i <> B -> table_of y2 i = table_of y i) /\ bytes_at (y_mem y2 B) buf (Z.of_nat (length b)) = b /\
    syscall_handler ar cb 12 0 0 0 y2 = Done (y3, Ret (Z.of_nat j)).
Proof.
  intros Hr Hl Hv He Hal Hg Hm Hbk Hb Hpos Hle Hbuf H0 Hj [Hpl _] Hp.
  destruct (has_held _ _ _ _ _ Hv) as (B' & EB & HcB & _). fold B in EB. subst B'. pose proof (current_lt _ _ _ HcB) as HltB.
  destruct (recv_run y cb sb (Z.of_nat sb) buf blen c e (embed m given) b) as [r Hrecv]; try done; [apply Nat2Z.id|].
  set (k2 := badged (with_routing (y_k y) r) cb (embed m given)) in *.
  pose proof (badged_data (with_routing (y_k y) r) cb (embed m given)) as Hbd. fold k2 in Hbd.
  destruct (Hbd B) as (E1 & E2 & E3).
  destruct (install_one (put k2 y) cb B j given) as (t & Hi & Hs & Hlt & Ho & Hc & Hn & Hpc).
  { etrans; [apply badged_current|exact HcB]. }
  { cbn [y_k put]. unfold k2. rewrite badged_length. cbn [k_tasks with_routing]. lia. }
  { cbn [y_k put]. rewrite E1. exact Hj. }
  { cbn [y_k put]. rewrite E2. cbn [k_tasks with_routing]. rewrite Hp. unfold MAX_PENDING_RECV_CAPS. lia. }
  cbn [y_k put] in Hs, Ho, Hc, Hn, Hpc. rewrite E1 in Hc. rewrite E2 in Hn, Hpc. rewrite E3 in Hpc.
  cbn [k_tasks with_routing] in Hc, Hn, Hpc. rewrite Hp in Hn, Hpc.
  unfold install_received_caps in Hrecv. rewrite embedded_list in Hrecv by done. specialize (Hrecv _ Hi).
  assert (current_task_slot (sched t) cb = B) as Hcs by (rewrite Hs; apply (caller_badged (with_routing (y_k y) r))).
  set (yi := put (with_tasks (y_k (put k2 y)) t) (put k2 y)) in *. assert (caller (y_k yi) cb = B) as Hcall by exact Hcs. rewrite Hcall in Hrecv.
  eexists _, _. split_and!.
  - unfold syscall_handler, finish. cbn [dispatch]. rewrite Hrecv. reflexivity.
  - exact Hc.
  - intros i Hi'. unfold table_of. cbn [yi y_k put k_tasks with_tasks]. rewrite (Ho i Hi'). apply Hbd.
  - cbn [y_mem put]. rewrite upd_eq. apply patched_bytes.
  - unfold syscall_handler, finish. cbn [dispatch]. unfold handle_take_pending_cap. erewrite bind_ok; [|
      unfold on_tasks, run, M_outcome, pop_pending_recv_cap; cbn [yi y_k put k_tasks with_tasks]; rewrite Hcs, Hn, Hpc;
      rewrite (proj2 (Nat.ltb_lt _ _) HltB); cbn [andb Nat.ltb Nat.leb]; rewrite list_lookup_insert_eq by (rewrite Hpl; unfold MAX_PENDING_RECV_CAPS; lia);
      reflexivity]. reflexivity.
Qed.

(** C10: A capability moves.  [SendWithCap] followed by [Recv] by another
    task with a free slot: the capability is gone from the sender's slot and
    from no other; the receiver has it in its first free slot, without GRANT if
    it is for a delegated resource, and nothing else has changed in its table;
    [TakePendingCap] then names that slot; no third table has changed. *)
Theorem capability_moves (ar : Arch) (y : Sys) (ca cb sa sb sg j : nat) (packed ptr len buf blen : Z)
    (c c' given : Capability) (e : RoutingEntry) (A := caller (y_k y) ca) (B := caller (y_k y) cb) :
  kernel_wf (y_k y) -> channel y ca cb sa sb c c' e -> has (y_k y) ca sg Rights.GRANT given -> A <> B ->
  field packed 0 16 = Z.of_nat sa -> field packed 16 16 = Z.of_nat sg ->
  readable ptr len -> buffer_ok buf blen = true -> 0 <= buf -> len <= blen ->
  position CapTable.is_free (table_of y B) = Some j -> pending_wf (data_at (k_tasks (y_k y)) B) ->
  d_pending_count (data_at (k_tasks (y_k y)) B) = 0%nat ->
  exists y1 y2 y3, syscall_handler ar ca 11 packed ptr len y = Done (y1, Ret 0) /\
    syscall_handler ar cb 2 (Z.of_nat sb) buf blen y1 = Done (y2, Ret len) /\
    table_of y2 A = <[sg := None]> (table_of y A) /\
    table_of y2 B = <[j := Some (narrow_embedded_for_receiver given)]> (table_of y B) /\
    (forall i, i <> A -> i <> B -> table_of y2 i = table_of y i) /\
    bytes_at (y_mem y2 B) buf len = user_bytes y ca ptr len /\
    syscall_handler ar cb 12 0 0 0 y2 = Done (y3, Ret (Z.of_nat j)).
Proof.
  intros Hwf Hch Hgr Hne Hf1 Hf2 Hread Hbuf H0 Hle Hj Hpw Hp. pose proof Hch as [Hs Hv Hid Hgen _ _ _ _ _].
  destruct (handed_over ar y ca cb sa sb sg packed ptr len c c' given e Hwf Hch Hgr Hf1 Hf2 Hread)
    as (r & e' & t & Hsend & Hu & Hal & Hg & Hbk & Hst & Hl & HA & Ho).
  set (y1 := put (with_tasks (with_routing (y_k y) r) t) y) in *.
  pose proof (user_bytes_length y ca ptr len ltac:(destruct Hread; lia)) as Hlen.
  assert (caller (y_k y1) cb = B) as HB by (unfold caller; cbn; unfold k_sched; cbn; by rewrite Hst).
  assert (data_at (k_tasks (y_k y1)) B = data_at (k_tasks (y_k y)) B) as HdB by (apply Ho; done).
  destruct (taken_over ar y1 cb sb j buf blen c' given e' (stamped y ca (user_bytes y ca ptr len)) (user_bytes y ca ptr len))
    as (y2 & y3 & Hrecv & HtB & Hto & Hby & Hpop); rewrite ?HB in *; unfold table_of in *; rewrite ?HdB; try done.
  - apply Hu.
  - destruct (has_held _ _ _ _ _ Hv) as (B' & EB & HcB & _). fold B in EB. subst B'. revert Hv.
    unfold has, current_task_lookup_cap. rewrite HcB.
    assert (current (k_tasks (y_k y1)) cb = Some B) as -> by (rewrite <- HcB; unfold current; cbn; by rewrite Hst).
    by rewrite HdB.
  - rewrite Hid. cbn. by rewrite (eu_lookup _ _ _ _ Hu), decide_True.
  - congruence.
  - apply payload_stamped.
  - destruct Hread. lia.
  - lia.
  - rewrite Hlen in *. rewrite HdB in HtB. exists y1, y2, y3. split_and!; try done.
    + rewrite Hto by done. exact HA.
    + intros i HiA HiB. rewrite Hto by done. cbn. by rewrite Ho.
Qed.

(** "log" hands "fs" the capability for its own reply mailbox. *)
Lemma capability_moves_witness :
  exists k y1 y2 y3, pair_kernel = Done k /\
    syscall_handler plain_arch 2 11 (Z.lor 5 (Z.shiftl 4 16)) 4096 5 (pair_sys k) = Done (y1, Ret 0) /\
    syscall_handler plain_arch 1 2 1 8192 64 y1 = Done (y2, Ret 5) /\
    table_of y2 1 !! 5%nat = Some (Some (mkCapability 105 20 6)) /\ table_of y2 2 !! 4%nat = Some None /\
    syscall_handler plain_arch 1 12 0 0 0 y2 = Done (y3, Ret 5).
Proof.
  assert (match pair_kernel with
          | Done k => caller k 1 = 1%nat /\ caller k 2 = 2%nat /\
              current_task_lookup_cap (k_registry k) (k_tasks k) 2 5 Rights.SEND = Ok (mkCapability 102 Rights.SEND 3) /\
              current_task_lookup_cap (k_registry k) (k_tasks k) 1 1 Rights.RECV = Ok (mkCapability 102 Rights.RECV 3) /\
              current_task_lookup_cap (k_registry k) (k_tasks k) 2 4 Rights.GRANT = Ok (mkCapability 105 20 6) /\
              position CapTable.is_free (d_caps (data_at (k_tasks k) 1)) = Some 5%nat /\
              (5 <? length (d_caps (data_at (k_tasks k) 1)))%nat = true /\ (4 <? length (d_caps (data_at (k_tasks k) 2)))%nat = true /\
              d_pending_count (data_at (k_tasks k) 1) = 0%nat /\ length (d_pending_caps (data_at (k_tasks k) 1)) = 4%nat /\
              match lookup_entry (k_routing k) 102 with
              | Some e => liveness e = EpAlive /\ ep_generation e = 3 /\ backlog e = [] /\ blocked_receiver e = None
              | None => False end
          | Panic => False end) as H by (vm_compute; repeat split; reflexivity).
  destruct pair_kernel as [k|] eqn:E; [|contradiction]. destruct H as (H1 & H2 & Hs & Hv & Hg & Hj & Hl1 & Hl2 & Hp & Hpl & H).
  destruct (lookup_entry (k_routing k) 102) as [e|] eqn:El; [|contradiction]. destruct H as (He1 & He2 & He3 & He4).
  destruct (capability_moves plain_arch (pair_sys k) 2 1 5 1 4 5 (Z.lor 5 (Z.shiftl 4 16)) 4096 5 8192 64 _ _ _ e (pair_wf k E)
    (mk_channel (pair_sys k) 2 1 5 1 _ _ e Hs Hv eq_refl eq_refl El He1 He2 He3 He4) Hg)
    as (y1 & y2 & y3 & R1 & R2 & R3 & R4 & _ & _ & R5); unfold table_of in *; change (y_k (pair_sys k)) with k in *; rewrite ?H1, ?H2 in *.
  - discriminate.
  - reflexivity.
  - reflexivity.
  - split; [vm_compute; reflexivity|unfold MAX_MESSAGE_SIZE; lia].
  - vm_compute. reflexivity.
  - lia.
  - lia.
  - exact Hj.
  - split; [exact Hpl|]. rewrite Hp. lia.
  - exact Hp.
  - apply Nat.ltb_lt in Hl1, Hl2. exists k, y1, y2, y3. split; [reflexivity|]. split; [exact R1|]. split; [exact R2|].
    rewrite R3, R4. split; [rewrite list_lookup_insert_eq by exact Hl1; reflexivity|].
    split; [rewrite list_lookup_insert_eq by exact Hl2; reflexivity|exact R5].
Defined.

(** ** Calls that wait *)

(** The caller has its core, alive and in state [Running]. *)
Definition running (cid : nat) (y : Sys) : Prop :=
  is_live (k_sched (y_k y)) (caller (y_k y) cid) = true /\
  t_state (task_at (k_sched (y_k y)) (caller (y_k y) cid)) = Running.

(** No wake has come since it last looked. *)
Definition settled (cid : nat) (y : Sys) : Prop :=
  running cid y /\ t_wake_pending (task_at (k_sched (y_k y)) (caller (y_k y) cid)) = false.

Definition finished (p : progress) : Prop :=
  match p with Ret _ | Wait _ => True | _ => False end.

Module WaitFacts.

(** The program ends, with an answer that satisfies [Q]. *)
Definition ends {A} (P : Sys -> Prop) (m : Handler A) (Q : A -> Sys -> Prop) : Prop :=
  forall y, P y -> exists y' r, m y = Done (y', r) /\ match r with Ok a => Q a y' | Err _ => True end.

Lemma ends_bind {A C} P (m : Handler A) (f : A -> Handler C) Q R :
  ends P m Q -> (forall a, ends (Q a) (f a) R) -> ends P (M_bind m f) R.
Proof.
  intros Hm Hf y Hy. destruct (Hm y Hy) as (y1 & [a|e] & Em & HQ); unfold M_bind; rewrite Em; [by apply Hf|].
  by exists y1, (Err e).
Qed.

Lemma ends_ret {A} P (a : A) Q : (forall y, P y -> Q a y) -> ends P (M_ret a) Q.
Proof. intros H y Hy. exists y, (Ok a). auto. Qed.

Lemma ends_fail {A} P (e : Z) (Q : A -> Sys -> Prop) : ends P (M_fail e) Q.
Proof. intros y _. by exists y, (Err e). Qed.

Lemma ends_gets {A} P (f : Sys -> A) : ends P (M_gets f) (fun _ => P).
Proof. intros y Hy. by exists y, (Ok (f y)). Qed.

Lemma ends_modify P (f : Sys -> Sys) Q : (forall y, P y -> Q (f y)) -> ends P (M_modify f) (fun _ => Q).
Proof. intros H y Hy. exists (f y), (Ok tt). auto. Qed.

Lemma ends_pre {A} P P' (m : Handler A) Q : (forall y, P y -> P' y) -> ends P' m Q -> ends P m Q.
Proof. intros H Hm y Hy. apply Hm. auto. Qed.

(** The pieces that cannot fail. *)
Notation anyway m := (ends (fun _ => True) m (fun _ _ => True)).

Lemma anyway_tasks {A} (f : Tasks -> Tasks * A) : anyway (on_tasks f).
Proof.
  intros y _. unfold on_tasks, run, M_outcome. destruct (f (k_tasks (y_k y))) as [t a]. by eexists _, (Ok a).
Qed.

Lemma anyway_modify (f : Sys -> Sys) : anyway (M_modify f).
Proof. intros y _. by exists (f y), (Ok tt). Qed.

Lemma anyway_wake (cid : nat) (t : option nat) (r : Z) : anyway (wake cid t r).
Proof. destruct t; [apply anyway_modify|by apply ends_ret]. Qed.

Lemma anyway_remove (cid s : nat) : anyway (remove_cap cid s).
Proof. eapply ends_bind; [apply anyway_tasks|]. intros ?. by apply ends_ret. Qed.

Lemma anyway_install (cid : nat) (l : list (option Capability)) : anyway (install_caps cid l).
Proof.
  induction l as [|[c|] l IH]; cbn [install_caps]; [by apply ends_ret| |exact IH].
  eapply ends_bind; [apply anyway_tasks|]. intros [s|e]; [|exact IH]. eapply ends_bind; [apply anyway_tasks|]. intros pushed.
  apply (ends_bind _ _ _ (fun _ _ => True)); [destruct pushed; [by apply ends_ret|apply anyway_remove]|intros ?; exact IH].
Qed.

Lemma anyway_copy (cid : nat) (buf : Z) (b : list Z) : anyway (copy_out cid buf b).
Proof.
  destruct b; [by apply ends_ret|]. intros y _. unfold copy_out, write_user, M_outcome. cbv zeta.
  destruct (write_user_bytes _ _ _); cbn; by eexists _, (Ok _).
Qed.

Lemma anyway_delivery (cid : nat) (buf len : Z) (m : Message) (s : option nat) : anyway (take_delivery cid buf len m s).
Proof.
  eapply ends_bind; [apply anyway_wake|]. intros ?. eapply ends_bind; [apply anyway_modify|]. intros ?.
  eapply ends_bind; [apply anyway_install|]. intros ?. cbv zeta. case_match; [by apply ends_ret|].
  eapply ends_bind; [apply anyway_copy|]. intros ok. by apply ends_ret.
Qed.

Lemma anyway_recv_done (cid : nat) (w : RecvWait) (code : Z) :
  ends (fun _ => True) (recv_done cid w code) (fun p _ => finished p).
Proof.
  apply (ends_bind _ _ _ (fun _ _ => True)); [destruct (rw_timed w); [apply anyway_modify|by apply ends_ret]|].
  intros ?. by apply ends_ret.
Qed.

Lemma anyway_call_done (cid : nat) (code : Z) : ends (fun _ => True) (call_done cid code) (fun p _ => finished p).
Proof. eapply ends_bind; [apply anyway_modify|]. intros ?. by apply ends_ret. Qed.

(** *** What keeps the caller running *)

Lemma ends_routing {A} P (f : RoutingState -> RoutingState * A) :
  (forall y r, P y -> P (put (with_routing (y_k y) r) y)) -> ends P (on_routing f) (fun _ => P).
Proof.
  intros H y Hy. unfold on_routing, run, M_outcome. destruct (f (k_routing (y_k y))) as [r a]. eexists _, (Ok a).
  split; [reflexivity|]. by apply H.
Qed.

Lemma running_routing (cid : nat) (y : Sys) (r : RoutingState) : running cid y -> running cid (put (with_routing (y_k y) r) y).
Proof. done. Qed.
Lemma settled_routing (cid : nat) (y : Sys) (r : RoutingState) : settled cid y -> settled cid (put (with_routing (y_k y) r) y).
Proof. done. Qed.

(** A deadline is set on the caller; nothing else of its slot changes. *)
Lemma deadline_slot (s : Sched) (slot j : nat) (d : Z) :
  t_valid (task_at (set_wake_deadline s slot d) j) = t_valid (task_at s j) /\
  t_state (task_at (set_wake_deadline s slot d) j) = t_state (task_at s j) /\
  t_wake_pending (task_at (set_wake_deadline s slot d) j) = t_wake_pending (task_at s j).
Proof. unfold set_wake_deadline. case_match; [|done]. rewrite task_at_upd. by case_decide. Qed.

Lemma running_deadline (cid slot : nat) (d : Z) (y : Sys) (s := set_wake_deadline (k_sched (y_k y)) slot d)
    (y' := put (with_tasks (y_k y) (with_sched (k_tasks (y_k y)) s)) y) :
  (running cid y -> running cid y') /\ (settled cid y -> settled cid y').
Proof.
  assert (caller (y_k y') cid = caller (y_k y) cid) as Hc by apply (current_deadline cid).
  destruct (deadline_slot (k_sched (y_k y)) slot (caller (y_k y) cid) d) as (H1 & H2 & H3).
  unfold settled, running, is_live. rewrite Hc. change (k_sched (y_k y')) with s. unfold s. by rewrite H1, H2, H3.
Qed.

(** A block: the first consumes a wake that had come, the next gives up the
    core. *)
Definition blocked (cid : nat) (b : block_result) (y : Sys) : Prop :=
  match b with Returned code => code = 0 /\ settled cid y | Switched _ => True end.

Lemma ends_block (cid : nat) :
  ends (running cid) (block cid BlockedOnRecv) (blocked cid) /\
  ends (settled cid) (block cid BlockedOnRecv) (fun b _ => match b with Returned _ => False | Switched _ => True end).
Proof.
  assert (forall y, running cid y -> exists y' b, block cid BlockedOnRecv y = Done (y', Ok b) /\ blocked cid b y' /\
    (t_wake_pending (task_at (k_sched (y_k y)) (caller (y_k y) cid)) = false -> exists sw, b = Switched sw)) as H.
  { intros y [Hl Hr]. unfold block, run, M_outcome, block_and_reschedule, caller in *. cbn [y_k].
    set (s := core_finished_leaving (k_sched (y_k y)) cid).
    assert (current_task_slot s cid = current_task_slot (k_sched (y_k y)) cid) as Hc by apply (sc_current _ _ (finished_claims _ cid)).
    set (slot := current_task_slot (k_sched (y_k y)) cid) in *. rewrite Hc.
    assert (forall i, task_at s i = task_at (k_sched (y_k y)) i) as Ht by done.
    unfold is_live in *. rewrite Ht, Hl. cbn [negb]. rewrite bool_decide_eq_true_2 by done. cbn [andb].
    destruct (t_wake_pending _) eqn:Ep.
    - eexists _, (Returned 0). split_and!; [reflexivity| |done]. split; [done|]. unfold settled, running, caller, is_live.
      cbn [y_k put k_sched with_tasks]. set (s' := upd_task s slot (set_pending false)).
      change (k_sched (with_tasks (y_k y) (with_sched (k_tasks (y_k y)) s'))) with s'.
      assert (current_task_slot s' cid = slot) as -> by exact Hc. unfold s'. rewrite task_at_upd, decide_True.
      + cbn. by rewrite Ht.
      + split; [done|]. change (length (tasks s)) with (length (tasks (k_sched (y_k y)))).
        apply task_at_range. right. apply andb_true_iff in Hl as [_ Hv]. exact Hv.
    - unfold cas_state. rewrite bool_decide_eq_true_2 by (rewrite Ht; done). cbn [negb].
      destruct (pick_next _ cid) as [s3 [next|]]; [destruct (claim_next s3 cid next) as [s4 []]|];
        eexists _, (Switched _); (split_and!; [reflexivity|done|eauto]). }
  split.
  - intros y Hy. destruct (H y Hy) as (y' & b & E & Hb & _). by exists y', (Ok b).
  - intros y [Hy Hp]. destruct (H y Hy) as (y' & b & E & _ & Hs). destruct (Hs Hp) as [sw ->]. by exists y', (Ok (Switched sw)).
Qed.

(** *** One round of a loop *)

(** From [P] the caller can go round and block; if it is not switched away
    from it is then in [P']. *)
Record stage (cid : nat) (P P' : Sys -> Prop) : Prop := mk_stage {
  st_routing : forall y r, P y -> P (put (with_routing (y_k y) r) y);
  st_deadline : forall y slot d, P y ->
    P (put (with_tasks (y_k y) (with_sched (k_tasks (y_k y)) (set_wake_deadline (k_sched (y_k y)) slot d))) y);
  st_con : forall y c, P y -> P (mkSys (y_k y) c (y_mem y));
  st_block : ends P (block cid BlockedOnRecv) (fun b y => match b with Returned code => code = 0 /\ P' y | Switched _ => True end)
}.

Lemma stage_running (cid : nat) : stage cid (running cid) (settled cid).
Proof. split; [done|intros y slot d; apply running_deadline|done|apply ends_block]. Qed.

Lemma stage_settled (cid : nat) : stage cid (settled cid) (fun _ => False).
Proof.
  split; [done|intros y slot d; apply running_deadline|done|].
  intros y Hy. destruct (proj2 (ends_block cid) y Hy) as (y' & [b|e] & E & Hb); exists y'; [exists (Ok b)|by exists (Err e)].
  split; [exact E|]. by destruct b.
Qed.

Lemma ends_false {A} (m : Handler A) Q : ends (fun _ => False) m Q.
Proof. by intros y []. Qed.

Lemma ends_weak {A} (P : Sys -> Prop) (m : Handler A) Q : ends (fun _ => True) m Q -> ends P m Q.
Proof. by apply ends_pre. Qed.

Notation answers P m := (ends P m (fun p _ => finished p)).

Section Rounds.
Context (cid : nat) (P P' : Sys -> Prop) (HS : stage cid P P').

Lemma ends_deadline (slot : nat) (d : Z) : ends P (on_sched (fun s => set_wake_deadline s slot d)) (fun _ => P).
Proof. apply ends_modify. intros y. by apply (st_deadline _ _ _ HS). Qed.

(** The block at the end of a round, and the next round. *)
Lemma round_block (next other : Z -> Handler progress) (w : Waiting) :
  (forall code, ends P' (next code) (fun p _ => finished p)) ->
  answers P (b <- block cid BlockedOnRecv ;;
             match b with
             | Switched _ => M_ret (Wait w)
             | Returned err => if err =? 0 then next err else other err
             end).
Proof.
  intros Hn. eapply ends_bind; [apply (st_block _ _ _ HS)|]. intros [code|sw]; [|by apply ends_ret].
  intros y [-> Hy]. by apply Hn.
Qed.

Lemma round_recv (fuel : nat) (w : RecvWait) : answers P' (recv_loop fuel cid w) -> answers P (recv_loop (S fuel) cid w).
Proof.
  intros Hn. cbn [recv_loop]. eapply ends_bind; [apply ends_gets|]. intros my.
  eapply ends_bind; [apply ends_routing, (st_routing _ _ _ HS)|]. intros [[m tx]|e].
  - apply ends_weak. eapply ends_bind; [apply anyway_delivery|]. intros c. apply anyway_recv_done.
  - destruct e; try apply ends_weak, anyway_recv_done. eapply ends_bind; [apply ends_gets|]. intros now.
    case_match; [apply ends_weak, anyway_recv_done|]. apply (ends_bind _ _ _ (fun _ => P)).
    + case_match; [by apply ends_ret|apply ends_deadline].
    + intros ?. by apply (round_block (fun _ => recv_loop fuel cid w)).
Qed.

Lemma round_call (fuel : nat) (w : CallWait) : answers P' (call_loop fuel cid w) -> answers P (call_loop (S fuel) cid w).
Proof.
  intros Hn. cbn [call_loop]. eapply ends_bind; [apply ends_gets|]. intros my.
  eapply ends_bind; [apply ends_routing, (st_routing _ _ _ HS)|]. intros [[m tx]|e].
  - apply ends_weak. eapply ends_bind; [apply anyway_delivery|]. intros c. apply anyway_call_done.
  - destruct e; try apply ends_weak, anyway_call_done. eapply ends_bind; [apply ends_gets|]. intros now.
    case_match; [apply ends_weak, anyway_call_done|]. apply (ends_bind _ _ _ (fun _ => P)).
    + case_match; [by apply ends_ret|apply ends_deadline].
    + intros ?. by apply (round_block (fun _ => call_loop fuel cid w)).
Qed.

Lemma round_sleep (fuel : nat) (d : Z) : answers P' (sleep_loop fuel cid d) -> answers P (sleep_loop (S fuel) cid d).
Proof.
  intros Hn. cbn [sleep_loop].
  assert (answers P (on_sched (fun s => clear_wake_deadline s (current_task_slot s cid)) ;;; M_ret (Ret 0))) as Hs.
  { apply ends_weak. eapply ends_bind; [apply anyway_modify|]. intros ?. by apply ends_ret. }
  eapply ends_bind; [apply ends_gets|]. intros now. case_match; [exact Hs|].
  eapply ends_bind; [|intros ?; by apply (round_block (fun _ => sleep_loop fuel cid d))].
  apply ends_modify. intros y Hy. by apply (st_deadline _ _ _ HS).
Qed.

Lemma round_console (fuel : nat) (ar : Arch) :
  answers P' (console_read_loop fuel ar cid) -> answers P (console_read_loop (S fuel) ar cid).
Proof.
  intros Hn. cbn [console_read_loop]. eapply ends_bind; [apply ends_gets|]. intros ok.
  apply (ends_bind _ _ _ (fun _ => P)).
  - destruct ok; [|by apply ends_ret]. eapply ends_bind; [apply ends_modify; intros y Hy; by apply (st_con _ _ _ HS)|].
    intros ? y Hy. unfold M_outcome. destruct (uart_rx_pop _) as [r b]. eexists _, (Ok b). split; [reflexivity|].
    by apply (st_con _ _ _ HS).
  - intros [b|].
    + apply ends_weak. eapply ends_bind; [apply anyway_modify|]. intros ?. by apply ends_ret.
    + by apply (round_block (fun _ => console_read_loop fuel ar cid)).
Qed.

End Rounds.

(** Two rounds always do. *)
Lemma recv_answers (cid : nat) (w : RecvWait) : answers (running cid) (recv_loop RECV_FUEL cid w).
Proof. eapply round_recv, round_recv, ends_false; [apply stage_running|apply stage_settled]. Qed.
Lemma call_answers (cid : nat) (w : CallWait) : answers (running cid) (call_loop RECV_FUEL cid w).
Proof. eapply round_call, round_call, ends_false; [apply stage_running|apply stage_settled]. Qed.
Lemma sleep_answers (cid : nat) (d : Z) : answers (running cid) (sleep_loop RECV_FUEL cid d).
Proof. eapply round_sleep, round_sleep, ends_false; [apply stage_running|apply stage_settled]. Qed.
Lemma console_answers (cid : nat) (ar : Arch) : answers (running cid) (console_read_loop RECV_FUEL ar cid).
Proof. eapply round_console, round_console, ends_false; [apply stage_running|apply stage_settled]. Qed.

Lemma ends_lookup (cid s : nat) (r : Rights) P : ends P (lookup_cap cid s r) (fun _ => P).
Proof. eapply ends_bind; [apply ends_gets|]. intros [c|e]; [by apply ends_ret|apply ends_fail]. Qed.

Lemma ends_guard (b : bool) (code : Z) P : ends P (guard b code) (fun _ => P).
Proof. destruct b; [by apply ends_ret|apply ends_fail]. Qed.

Lemma finish_answers (cid : nat) (P : Sys -> Prop) (m : Handler progress) (y : Sys) :
  answers P m -> P y -> exists y' p, finish Ret m y = Done (y', p) /\ finished p.
Proof.
  intros Hm Hy. destruct (Hm y Hy) as (y' & [p|e] & E & Hp); unfold finish; rewrite E; by eexists y', _.
Qed.

End WaitFacts.
Import WaitFacts.



(** *** A wake that comes too early *)

(** The caller was woken while it ran: its state is [Ready], not [Running]. *)
Definition overtaken (cid : nat) (y : Sys) : Prop :=
  is_live (k_sched (y_k y)) (caller (y_k y) cid) = true /\
  t_state (task_at (k_sched (y_k y)) (caller (y_k y) cid)) = Ready /\
  t_wakeup_err (task_at (k_sched (y_k y)) (caller (y_k y) cid)) = 0.

Module SpinFacts.

Lemma overtaken_block (cid : nat) (y : Sys) :
  overtaken cid y -> exists s, block cid BlockedOnRecv y =
    Done (put (with_tasks (y_k y) (with_sched (k_tasks (y_k y)) s)) y, Ok (Returned 0)) /\
    overtaken cid (put (with_tasks (y_k y) (with_sched (k_tasks (y_k y)) s)) y).
Proof.
  intros (Hl & Hr & He). unfold block, run, M_outcome, block_and_reschedule, caller in *. cbn [y_k].
  set (s := core_finished_leaving (k_sched (y_k y)) cid).
  assert (current_task_slot s cid = current_task_slot (k_sched (y_k y)) cid) as Hc by apply (sc_current _ _ (finished_claims _ cid)).
  set (slot := current_task_slot (k_sched (y_k y)) cid) in *. rewrite Hc.
  assert (forall i, task_at s i = task_at (k_sched (y_k y)) i) as Ht by done.
  assert (is_live s slot = true) as Hls by exact Hl. rewrite Hls. cbn [negb]. rewrite bool_decide_eq_true_2 by done. cbn [andb].
  destruct (t_wake_pending _) eqn:Ep.
  - exists (upd_task s slot (set_pending false)). split; [reflexivity|]. unfold overtaken, caller, is_live.
    change (k_sched (y_k (put _ y))) with (upd_task s slot (set_pending false)).
    change (current_task_slot (upd_task s slot (set_pending false)) cid) with (current_task_slot s cid). rewrite Hc.
    rewrite task_at_upd. unfold is_live in Hl. case_decide; cbn; rewrite Ht; auto.
  - unfold cas_state. rewrite bool_decide_eq_false_2 by (rewrite Ht, Hr; done). cbn [negb]. exists s.
    unfold resume_result. rewrite Ht, He. split; [reflexivity|]. unfold overtaken, caller.
    change (k_sched (y_k (put _ y))) with s. rewrite Hc, Ht. split_and!; done.
Qed.

End SpinFacts.
Import SpinFacts.

(** A wake that finds the receiver running leaves it [Ready]; while it
    has its core nothing makes it [Running] again.  If it then waits for a
    message and its queue is empty, each attempt to block declines and returns
    0, and the loop of [Recv] goes round without end (until a timer tick
    reschedules the core): no number of rounds is enough. *)
Theorem early_wake_spins (fuel cid : nat) (w : RecvWait) (e : RoutingEntry) (y : Sys) :
  routing_wf (k_routing (y_k y)) -> overtaken cid y ->
  lookup_entry (k_routing (y_k y)) (rw_ep w) = Some e -> liveness e = EpAlive -> ep_generation e = rw_gen w ->
  MessageQueue.contents (queue e) = [] -> rw_deadline w = 0 ->
  exists y', recv_loop fuel cid w y = Done (y', Ok Spinning).
Proof.
  intros Hwf Ho Hl Hlive Hg Hc Hd. revert y e Hwf Ho Hl Hlive Hg Hc.
  induction fuel as [|fuel IH]; intros y e Hwf Ho Hl Hlive Hg Hc; [by exists y|]. cbn [recv_loop].
  destruct (dequeue_empty _ _ (Some (current_task_slot (k_sched (y_k y)) cid)) e Hwf Hl Hlive Hc) as (r & Hdq & Hu).
  erewrite bind_ok; [|reflexivity]. rewrite <- Hg.
  erewrite bind_ok; [|unfold on_routing, run, M_outcome; cbn [y_k]; rewrite Hdq; reflexivity].
  cbn beta iota. erewrite bind_ok; [|reflexivity]. rewrite Hd. cbn [Z.eqb negb andb]. erewrite bind_ok; [|reflexivity].
  destruct (overtaken_block cid (put (with_routing (y_k y) r) y) Ho) as (s & Hb & Ho').
  erewrite bind_ok by exact Hb. cbn beta iota. rewrite Z.eqb_refl.
  eapply (IH _ (with_receiver e (Some _))); [apply Hu|exact Ho'| |done|done|done].
  cbn [y_k put k_routing with_tasks with_routing]. rewrite (eu_lookup _ _ _ _ Hu). by rewrite decide_True.
Qed.

(** "fs" polls, "log" sends, "fs" polls again and gets the message. *)
Definition polled (k : Kernel) : outcome Sys :=
  '(y, _) ← syscall_handler plain_arch 1 34 1 8192 64 (pair_sys k);
  '(y, _) ← syscall_handler plain_arch 2 1 5 4096 5 y;
  '(y, _) ← syscall_handler plain_arch 1 34 1 8192 64 y;
  Done y.

Lemma polled_wf (k : Kernel) (y : Sys) : pair_kernel = Done k -> polled k = Done y -> kernel_wf (y_k y).
Proof.
  intros Hwf%pair_wf H. unfold polled in H. apply bind_Done in H as ([ya pa] & H1 & H).
  apply bind_Done in H as ([yb pb] & H2 & H). apply bind_Done in H as ([yc pc] & H3 & [= <-]).
  eapply call_wf; [|exact H3]. eapply call_wf; [|exact H2]. by eapply call_wf.
Qed.

Lemma early_wake_spins_witness :
  exists k y, pair_kernel = Done k /\ polled k = Done y /\
    forall fuel, exists y', recv_loop fuel 1 (mkRecv 102 3 8192 64 false 0) y = Done (y', Ok Spinning).
Proof.
  assert (match pair_kernel with
          | Done k => match polled k with
                | Done y => is_live (k_sched (y_k y)) (caller (y_k y) 1) = true /\
                    t_state (task_at (k_sched (y_k y)) (caller (y_k y) 1)) = Ready /\
                    t_wakeup_err (task_at (k_sched (y_k y)) (caller (y_k y) 1)) = 0 /\
                    match lookup_entry (k_routing (y_k y)) 102 with
                    | Some e => liveness e = EpAlive /\ ep_generation e = 3 /\ MessageQueue.contents (queue e) = []
                    | None => False end
                | Panic => False end
          | Panic => False end) as H by (vm_compute; repeat split; reflexivity).
  destruct pair_kernel as [k|] eqn:E; [|contradiction]. destruct (polled k) as [y|] eqn:Ey; [|contradiction].
  pose proof (polled_wf k y E Ey) as Hwf. destruct H as (H1 & H2 & H3 & H).
  destruct (lookup_entry (k_routing (y_k y)) 102) as [e|] eqn:El; [|contradiction]. destruct H as (H4 & H5 & H6).
  exists k, y. split; [reflexivity|]. split; [exact Ey|]. intros fuel.
  exact (early_wake_spins fuel 1 (mkRecv 102 3 8192 64 false 0) e y (bw_routing _ (kw_base _ Hwf)) (conj H1 (conj H2 H3)) El H4 H5 H6 eq_refl).
Defined.
